(* ===== verification/_CoqProject ===== *)
-Q . S2P
Prelude.v
PyDecimal.v
Assets.v
BrokerModels.v
Breakers.v
RiskRules.v
RiskEngine.v
Pnl.v
Database.v
Lifecycle.v
SessionLogic.v
BreakerStore.v
OrderRepository.v
RepositoryLogic.v
RepositoryProofs.v
Approval.v
Submission.v
SubmissionProofs.v
OrderSystem.v
Barrier.v
SafetyState.v
MarketClock.v
Startup.v
Snapshot.v
SnapshotProofs.v
RuleRepository.v
RuleProofs.v
PlanTruth.v
PlanTruthProofs.v
PlanLifecycle.v
PlanLifecycleLogic.v
PlanLifecycleProofs.v
PlanTheorems.v
ReconcileSession.v
FillImport.v
StatusSync.v
Reconciliation.v
Panic.v
ReconcileLogic.v
ReconcileProofs.v
PanicProofs.v
ReconcileAudit.v
ImportProofs.v
Identity.v
Limits.v
LimitsProofs.v
LeaseProofs.v
Budget.v
BudgetProofs.v
BudgetMachine.v
BudgetTheorems.v
ServiceBase.v
PlanCancel.v
PlanCancelProofs.v
ServiceSync.v
ServiceProofs.v
ServiceTheorems.v
Proposals.v
RuleCommands.v
RuleApplication.v
RuleWorker.v
ProposalLogic.v
ProposalProofs.v
ProposalSystem.v
RuleCommandProofs.v
ExitProofs.v
RuleStoreProofs.v
ClaimProofs.v
EvaluationProofs.v
ProposalTheorems.v
Sessions.v
RoutePolicy.v
PanicReceipts.v
Flow.v
RequestFlow.v
RequestProofs.v
RequestSystem.v
PanicWait.v
