(* ===== verification/Prelude.v ===== *)
(** * A verification of the trading assistant's order path

    The program (Python, [src/src/trading_assistant]) turns proposed orders into broker
    orders.  A human approves a proposal; a submission loop takes the risk snapshot, runs the
    deterministic risk engine, claims the order in the database, calls the broker once and
    stores the reply.  Durable circuit breakers, advisory file locks and an audit trail with
    lifecycle proofs keep several processes from sending an order twice, from sending one
    the current risk state forbids, and from losing a contradiction.  Requests reach all this
    through one HTTP middleware that authenticates, limits and serialises them.  This library
    models that path and proves what it promises.

    ** Parts, files and source

    - [Prelude]: Python exceptions as the error monad [outcome], dictionaries in insertion
      order, [str.strip]/[upper]/[split], [sorted]; shared lemmas, tactics and the hint
      database of the development.
    - [PyDecimal]: [decimal.Decimal] in the default context (28 digits, half-even), the
      arithmetic all amounts go through, with exactness, monotonicity and totality lemmas.
    - [Assets] ([assets.py]), [BrokerModels] ([broker/models.py], and [_map_status] of
      [broker/alpaca.py], which says what statuses a broker can report), [Breakers] (scopes and
      keys of [risk/breakers.py]): the value types and their canonical forms.
    - [RiskRules] ([risk/rules.py], [config.py]) and [RiskEngine] ([risk/engine.py]):
      [check] stage by stage, in the order of the source.  [admissible] is its abstract
      specification.
    - [Pnl] ([risk/pnl.py]): FIFO replay of fills and the daily boundaries; [z_replay] over
      integers is its reference definition.
    - [Database] ([db/models.py]): the tables, [OrderStateMachine], and sessions as a state
      and error monad [tx] with a durable and a working copy.
    - [Lifecycle] ([db/lifecycle_proofs.py]): snapshots, proof envelopes and their check.
    - [SessionLogic]: the logic of moves for transactions: what a [tx] may do to a row, run by
      run and loop by loop, shared by the repository, rule and plan proofs.
    - [BreakerStore] ([risk/breakers.py], [risk/killswitch.py]): trip, reset by generation,
      and the legacy kill switch facade.
    - [OrderRepository] ([orders/repository.py]): one definition per transaction.
      [RepositoryLogic] is a program logic for such transactions, [RepositoryProofs] the
      theorems about them.
    - [Approval] ([orders/application.py]); [Submission] ([orders/submission.py], the broker
      interface of [broker/base.py] as the class [Broker], and [broker/mock.py] as an
      instance of it); [SubmissionProofs].
    - [OrderSystem]: all of the above as one step relation, where approvals, repository and
      breaker calls, submissions and components not modelled interleave.
    - [Barrier] ([risk/submission_barrier.py]): the three file locks as a step relation on
      any number of threads, with crashes.
    - [SafetyState] ([orders/safety_state.py]): the report of what is locally unsafe.
    - [MarketClock] ([risk/clock.py], [risk/market_hours.py], [risk/staleness.py]).
    - [Startup] ([orders/startup.py]): the process-start latch; the abstract [latch] is its
      specification.
    - [Snapshot] ([orders/snapshot.py]): assembly of the risk snapshot from the providers and
      the database; [SnapshotProofs] shows what an assembled snapshot is evidence of and
      composes it with [Submission].
    - [RuleRepository] ([rules/repository.py], [rules/models.py]): rule groups, their leases
      and the claims that spend one; [RuleProofs].
    - [PlanTruth] (the queries on a trade plan, the bound on its exits and its cancellation, in
      [rules/repository.py]) and [PlanTruthProofs].
    - [PlanLifecycle] ([reconcile_plan_lifecycle_in_session] stage by stage, the refresh of
      fill-activated rules and the expiry of stale proposals, in [rules/repository.py]).
      [PlanLifecycleLogic] says which rows a stage may touch ([within], [frame]),
      [PlanLifecycleProofs] proves the stages and [PlanTheorems] the whole pass.
    - Reconciliation ([orders/reconciliation.py]): [ReconcileSession] (sessions whose flushes
      are listened to and whose commits write the audit rows and lifecycle proofs),
      [FillImport] (fill activities, the cursor and the quarantine), [StatusSync] (one order
      against the broker's report of it), [Reconciliation] (the passes) and [Panic].
      [ReconcileLogic] is the program logic of such sessions; [ReconcileProofs],
      [PanicProofs], [ReconcileAudit] and [ImportProofs] the theorems.
    - The service ([service.py]): [ServiceBase] (its broker, mutation context and rows),
      [PlanCancel] (cancelling orders at the broker, quiescing a plan, synchronising) and
      [ServiceSync] (positions, daily losses, the startup epoch and the callbacks of
      submission).  [PlanCancelProofs] and [ServiceProofs] prove the methods,
      [ServiceTheorems] draws the conclusions.
    - Proposals and rules: [Proposals] (proposing, bracketing, rejecting and replacing orders,
      cancelling a rule and the quantity an exit may take, in [service.py]), [RuleCommands]
      ([rules/models.py], the decoding of stored rules in [rules/repository.py] and [_fires] of
      [rules/worker.py]), [RuleApplication] ([rules/application.py] and
      [create_conditional_rule]) and [RuleWorker] ([rules/worker.py]).  [ProposalLogic] says
      how they may move the database ([extends]); [ProposalProofs] and [ProposalSystem] prove
      the proposing sessions and that everything stays within [extends]; [RuleCommandProofs],
      [ExitProofs], [RuleStoreProofs] (with the doubles of SQLite's [Numeric] columns),
      [ClaimProofs] and [EvaluationProofs] treat one part each; [ProposalTheorems]
      draws the conclusions and runs a proposal, a rule and the worker end to end.
    - [Identity] ([identity.py]): canonical request ids, symbols and versions.
    - [Limits] ([app/limits.py]): rate windows, concurrency leases, mutation interlocks and
      the pruning of all three; [LimitsProofs] and [LeaseProofs].
    - [Budget] ([llm/budget.py]): the day ledgers and reservations of a language-model
      provider.  [BudgetProofs] and [BudgetMachine] relate every transaction to the moves of a
      small abstract machine; [BudgetTheorems] draws the conclusions.
    - Requests: [Sessions] ([app/auth.py]), [RoutePolicy] (the route table, its registry, the
      lease and interlock keys and the static-asset test, in [app/policy.py], with the limits
      of [config.py]) and [PanicReceipts] (the durable receipt of a panic, in
      [app/policy.py]).  [Flow] is a library of programs that ask questions and go on with the
      answers; [RequestFlow] is the middleware [enforce_route_policy] with its helpers as such
      programs, each question one transaction on the stores of [Limits], [PanicReceipts] or
      [Sessions] or one reading of a clock, the tenure guard or the handler.  [RequestProofs]
      states the protocol of questions a request follows and shows that every branch keeps it;
      [RequestSystem] runs any number of requests interleaved with maintenance, logins and
      breaker resets; [PanicWait] is the wait for a panic under way.

    ** What the theorems show

    - Risk: [check] approves exactly the admissible orders; on finite inputs it returns,
      overflow of a decimal's exponent aside, which is not modelled; breakers are bypassed only for proven reducing orders and only the kinds the
      operator may bypass; its trip intents are exactly the breaches it observed; an approved
      sale never exceeds the position.
    - Submission: in every interleaving no order reaches the broker twice and what is sent
      is what is stored; each call was approved, unexpired, freshly checked and free of
      blocking breakers; [submit] returns once one barrier hold is current; a granted claim
      is never granted again; contradictory broker fills end in [acceptance_unknown] with the
      drift breaker tripped and the rule group latched.
    - Snapshots: an order is approved only on complete evidence, with fresh quotes for every
      symbol involved and every position canonical; when reconciliation is required, no order
      is sent while another one's fate is unknown; every other pending sale is reserved; the
      high-water mark never falls.  The startup gate implements its abstract latch and stays
      closed until the newest generation is completed.
    - Storage: every repository method follows the transition table, save that resolving an
      acceptance may also move an order from [acceptance_unknown] to [expired] ([stored_move]: the
      adapter reports that status and [resolve_acceptance] stores it), keeps identity and
      terms, clears no breaker, only appends audit rows and leaves current lifecycle proofs;
      the reachability worklist decides the closure of the table; approval is decided in every
      case; a safety report is clear exactly when nothing unsafe is stored.
    - Breakers: trip and reset are specified on every branch, and no sequence of resets
      against older generations clears a later trip.
    - Rules: a lease is granted only on a free, active, unlatched group and is single use; a
      terminal claim settles its group and, for a triggered exit, its plan, or changes nothing.
    - Plans: the exits of a plan never exceed its position; cancelling a plan is decided in
      every case; a lifecycle pass moves orders and rules only along their state machines,
      withdraws intents nobody may act on, sizes protective exits to the position, trips the
      drift breaker on every contradiction and completes a plan only when it is flat.
    - Reconciliation and panic: a pass moves orders only along [stored_move], so it is
      one of the steps [OrderSystem] allows; the fill ledger records a batch of activities
      completely or the cursor stays; a fill latch is released only for an exactly accounted
      order; a pass with a fault trips the drift breaker; every order a session touches has a
      current lifecycle proof; a panic always latches the operator breaker, and when it reports
      safety nothing is live locally or listed open by the broker, and every live order it found
      was cancelled and then reported closed.
    - Service: its methods move orders only along [stored_move] and clear no breaker; a
      cancellation is confirmed with exact fill truth or latched; the startup epoch opens the
      gate only on a fault-free reconciliation and equal positions; an immediate fill is
      confirmed only when it is exact and its plan protected; loss breakers follow the realized
      loss.
    - Proposals and rules: a proposal adds one order with the verdict of the risk check, or
      replays the stored one; no history of proposals, rules and worker ticks duplicates a key
      or takes an order off [stored_move]; a rule's proposal and the claim of its lease are one
      transaction that adds exactly one order; an exit stays within what the sum of the live
      exits leaves of the position; rules are judged on fresh quotes of their own tickers, only
      the first that fires is handed on, and no trailing mark falls; a stored rule
      reads back as the command it was made from, as long as its mark fits a double; computed
      quantities round down.
    - Limits: within a window length (daily: within the UTC day) a bucket admits no more than its
      ceiling allows; a live
      lease excludes other owners and a superseded token is fenced off; an uncertain mutation
      stays interlocked until it is reconciled; the interlock rows satisfy their constraints.
    - Budget: every run of the budget service is a run of the abstract machine, which keeps the
      ledgers consistent and within their ceilings; a started call is never refunded and a
      latched provider gets no reservation.
    - Requests: a closed session never opens again; the start-up check of the routes leaves no
      request but a write to the static files without a policy and each policy of the table is
      guarded; two mutating routes
      share a lease key exactly when they work on one resource.  In every interleaving a
      handler is at work only for an authenticated request with its idempotency key and its own
      active interlock, two mutations of one resource are never at work at once, and a mutation
      that started blocks its resource until it is settled or reconciled, wherever its request
      is abandoned.  A panic under way is joined, its receipt is changed by nobody else, the
      result shown is that of the very panic, and the wait ends by the request timeout plus the
      slack of its last questions, whatever else goes on.
    - Concurrency: under the lock protocol every broker call is claimed at the commit its
      snapshot was read at, and some thread can always step.
    - Values: scope keys and broker symbols round-trip, accepted fill values are exact and
      bounded, realized P&L is exactly cash flow plus the cost of the open lots.

    ** Conventions, parameters, bounds and fuel

    - Timestamps are integers (UTC microseconds); a clock reading inside a method is an
      argument, and the readings of a reconciliation pass a stream ([Clock]).  Its flushes are
      explicit: a session flushes before each query and at its commit, as SQLAlchemy does.
      Sensitive columns hold their decrypted text and JSON columns their value: encryption and
      JSON text are library code.  SQLite transactions are serial, as its
      writer lock makes them; a raised exception discards the working copy.
    - Parameters: the digest of a proof envelope ([Digest]), the JSON and decimal parsers of a
      stored order ([Parsers]), time-zone conversion, the broker ([Broker], and
      for reconciliation and the service [ReconcileBroker] and [ServiceBroker], which keep a
      state of their own and may raise), what a snapshot
      assembly observes outside ([Providers], drawn from the world by [ProposalWorld]), the
      market clock and quotes of the worker ([WorkerWorld]), pydantic's field validation and
      the JSON text of a rule ([Pydantic], [RuleCodec], with the documented laws
      [PydanticLaws], [RuleCodecLaws]), the SQL sum over a [Numeric] column ([sql_sum]),
      the quantity read out of a stored action ([action_qty]), the rounding of a stored [Numeric] value and,
      per barrier hold, the snapshot service and callbacks ([Env]), pydantic's validation of a
      high-water mark ([validate_hwm]), the keyed hash of session tokens ([Hmac]), the text of a
      stored panic response ([ReceiptText]) and of a date ([DateText]), Starlette's matching of
      a path against a route ([ar_matches]), the JSON rewriting of the quantity in a stored rule
      action ([resize_action]), and identifiers drawn from [uuid] or [secrets].  Nothing is assumed of
      them unless a theorem names the hypothesis.
    - [close_lots] has fuel [2 + length book] and [realized_pnl_accounting] shows it is never
      exhausted on ledger fills within the stated bounds; [reach_loop] has fuel 12, one per
      status, each visited once; [roll_back_weekend] needs at most two steps; [submit_loop]
      consumes one environment per hold and returns as soon as one is current;
      [exit_fill_loop] has fuel one more than the number of orders, and [exit_fill_loop_ends]
      shows that it stops by its own test; [routes_loop] has the size of the route tree
      ([routes_loop_leaves]); the loops of a request are the [Loop] of [Flow], whose runs take
      as many questions as they ask, and [panic_wait_ends] bounds those of the wait and their
      time.

    ** Not modelled

    - The facade methods of the service that only look a row up and call a modelled component
      ([approve_order], [approve_intent], [reset_killswitch]), and its views: health, account,
      history and the dictionaries served to the user interface.
    - The payload-size estimators of the budget, the text forms of lifecycle details and
      identities, and the tables of backtests, analysis and candidate intake.
    - Of the middleware: log lines, the durations slept between renewals (they decide
      only when the next question is asked), cookie names and the wrapper that runs the
      inventory check at start-up.  A cancellation of the awaiting request shows when the
      handler has ended, as the shielded task lets it.
    - The HTTP handlers themselves, chat, notification and dashboard layers, the calls of the Alpaca adapter, encryption of
      sensitive columns, the polling daemon around the worker and reconciliation, backup,
      migration and security tooling: input, output and administration around this core, over
      libraries the source only calls.

    Where components that are not modelled touch orders, [OrderSystem] lets them do anything
    that moves orders forward, and [RuleProofs] anything that deletes no group and lowers no
    version.  A panic may store a status the transition table has no edge for, so it is not
    such a step; its theorems are stated on their own. *)

From stdpp Require Export base tactics option list strings gmap sorting pretty.
From Stdlib Require Export ZArith.
From Stdlib Require Import Ascii.

(** * Python exceptions and fallible computations *)

(** The exceptions the modelled code raises or catches.  The message of a
    [ValueError], [KeyError] or [RuntimeError] is kept, because callers surface
    it; the arithmetic signals of [decimal] carry none. *)
Inductive exn : Type :=
| ValueError (msg : string)
| KeyError (msg : string)
| RuntimeError (msg : string)
| TypeError (msg : string)
| AssertionError
| InvalidOperation
| DivisionByZero
| ApprovalConflict (msg : string)
| IllegalStateTransition (msg : string)
| KillSwitchResetUnavailable (msg : string)
| BreakerResetConflict (scope_key : string) (expected_generation : Z)
    (current_state : option (bool * Z))
| BrokerSubmissionRejected (stable_code : string)
| BrokerDataIntegrityError (broker_order_id : option string)
| RequiredDependencyUnavailable
| RequiredQuoteUnavailable
| LimitStoreUnavailable (msg : string)
| ProviderBudgetUnavailable (msg : string)
| ProviderBudgetExceeded (msg : string)
| RuleLeaseChronologyError (msg : string)
| ScheduledMarketDataDenied
| ApiError (code : string) (status_code : Z)
| ReconciliationConflict
| StartupReconciliationFailed (msg : string)
| IntegrityError (msg : string)
| OtherException (msg : string).

#[export] Instance exn_eq_dec : EqDecision exn.
Proof. solve_decision. Defined.

(** A Python call either returns a value or raises. *)
Inductive outcome (A : Type) : Type :=
| Ok (a : A)
| Raise (e : exn).
Arguments Ok {A} a.
Arguments Raise {A} e.

#[export] Instance outcome_eq_dec {A} `{EqDecision A} : EqDecision (outcome A).
Proof. solve_decision. Defined.

#[export] Instance outcome_ret : MRet outcome := λ A a, Ok a.
#[export] Instance outcome_bind : MBind outcome := λ A B f m,
  match m with Ok a => f a | Raise e => Raise e end.
#[export] Instance outcome_fmap : FMap outcome := λ A B f m,
  match m with Ok a => Ok (f a) | Raise e => Raise e end.

Definition is_ok {A} (m : outcome A) : bool :=
  match m with Ok _ => true | Raise _ => false end.

(** Left-to-right evaluation of a list of calls; the first exception wins. *)
Fixpoint outcome_mapM {A B} (f : A → outcome B) (l : list A) : outcome (list B) :=
  match l with
  | [] => Ok []
  | x :: l' => y ← f x; ys ← outcome_mapM f l'; Ok (y :: ys)
  end.

(** [for x in l: acc = f(acc, x)] where the body may raise. *)
Fixpoint outcome_foldl {A B} (f : A → B → outcome A) (acc : A) (l : list B) : outcome A :=
  match l with
  | [] => Ok acc
  | x :: l' => acc' ← f acc x; outcome_foldl f acc' l'
  end.

Lemma Ok_inj {A} (a b : A) : Ok a = Ok b → a = b.
Proof. congruence. Qed.

Lemma outcome_bind_Ok {A B} (f : A → outcome B) (m : outcome A) b :
  m ≫= f = Ok b ↔ ∃ a, m = Ok a ∧ f a = Ok b.
Proof. destruct m; simpl; naive_solver. Qed.

Lemma outcome_bind_assoc {A B C} (m : outcome A) (f : A → outcome B) (g : B → outcome C) :
  (m ≫= f) ≫= g = m ≫= (λ a, f a ≫= g).
Proof. by destruct m. Qed.

(** An invariant of a loop whose body may raise. *)
Lemma outcome_foldl_inv {A B} (P : A → Prop) (f : A → B → outcome A) l : ∀ acc r,
  (∀ a x a', x ∈ l → P a → f a x = Ok a' → P a') →
  P acc → outcome_foldl f acc l = Ok r → P r.
Proof.
  induction l as [|x l IH]; intros acc r Hf Ha; simpl; [naive_solver|].
  intros (a & Hx & Hr)%outcome_bind_Ok. eapply (IH a); [|eapply Hf; [left|exact Ha|exact Hx]|exact Hr].
  intros a1 y a2 Hy. apply Hf. by right.
Qed.

Lemma outcome_mapM_Ok_length {A B} (f : A → outcome B) l ys :
  outcome_mapM f l = Ok ys → length ys = length l.
Proof.
  revert ys. induction l as [|x l IH]; intros ys; simpl; [naive_solver|].
  rewrite outcome_bind_Ok. intros (y & _ & H). apply outcome_bind_Ok in H as (zs & Hz & H).
  simplify_eq. simpl. f_equal. by apply IH.
Qed.

(** * Strings as the program uses them *)

(** The model's strings are byte strings; [upper] and [strip] act on the ASCII
    range, which covers every symbol, key and identifier the program builds. *)
Definition ascii_upper (c : ascii) : ascii :=
  let n := nat_of_ascii c in
  if decide (97 ≤ n ≤ 122) then ascii_of_nat (n - 32) else c.

Fixpoint upper (s : string) : string :=
  match s with EmptyString => EmptyString | String c s' => String (ascii_upper c) (upper s') end.

Definition ascii_lower (c : ascii) : ascii :=
  let n := nat_of_ascii c in
  if decide (65 ≤ n ≤ 90) then ascii_of_nat (n + 32) else c.

Fixpoint lower (s : string) : string :=
  match s with EmptyString => EmptyString | String c s' => String (ascii_lower c) (lower s') end.

(** [str.isspace] on ASCII: tab, line feed, vertical tab, form feed, carriage
    return, the four separators 0x1c..0x1f and the space. *)
Definition is_space (c : ascii) : bool :=
  let n := nat_of_ascii c in
  bool_decide (9 ≤ n ≤ 13) || bool_decide (28 ≤ n ≤ 32).

Fixpoint lstrip (s : string) : string :=
  match s with
  | EmptyString => EmptyString
  | String c s' => if is_space c then lstrip s' else s
  end.

Fixpoint rstrip (s : string) : string :=
  match s with
  | EmptyString => EmptyString
  | String c s' =>
      match rstrip s' with
      | EmptyString => if is_space c then EmptyString else String c EmptyString
      | r => String c r
      end
  end.

Definition strip (s : string) : string := rstrip (lstrip s).

(** Truthiness of a string. *)
Definition nonempty (s : string) : bool :=
  match s with EmptyString => false | _ => true end.

Definition blank (s : string) : bool := negb (nonempty (strip s)).

(** [c in s] for a one-character needle. *)
Fixpoint contains_char (c : ascii) (s : string) : bool :=
  match s with
  | EmptyString => false
  | String d s' => if decide (c = d) then true else contains_char c s'
  end.

(** [s.partition(c)]: the text before the first [c], whether [c] occurs, and the
    text after it. *)
Fixpoint partition_char (c : ascii) (s : string) : string * bool * string :=
  match s with
  | EmptyString => (EmptyString, false, EmptyString)
  | String d s' =>
      if decide (c = d) then (EmptyString, true, s')
      else let '(a, b, t) := partition_char c s' in (String d a, b, t)
  end.

(** [s.split(c)]. *)
Fixpoint split_char (c : ascii) (s : string) : list string :=
  match s with
  | EmptyString => [EmptyString]
  | String d s' =>
      if decide (c = d) then EmptyString :: split_char c s'
      else match split_char c s' with
           | [] => [String d EmptyString]
           | h :: t => String d h :: t
           end
  end.

(** [sep.join(l)]. *)
Fixpoint join (sep : string) (l : list string) : string :=
  match l with
  | [] => EmptyString
  | [x] => x
  | x :: l' => x +:+ sep +:+ join sep l'
  end.

Definition startswith (s p : string) : bool := String.prefix p s.

(** [s[:n]] and [s[n:]]. *)
Fixpoint string_take (n : nat) (s : string) : string :=
  match n, s with
  | S n', String a s' => String a (string_take n' s')
  | _, _ => EmptyString
  end.

Fixpoint string_drop (n : nat) (s : string) : string :=
  match n, s with
  | S n', String _ s' => string_drop n' s'
  | _, _ => s
  end.

Definition endswith (s p : string) : bool :=
  (String.length p <=? String.length s)%nat &&
  bool_decide (string_drop (String.length s - String.length p) s = p).

(** [sorted] on strings, by code point. *)
Definition sorted_strings (l : list string) : list string := merge_sort String.le l.

(** First occurrences only, in order: [tuple(dict.fromkeys(l))]. *)
Fixpoint dedup {A} `{EqDecision A} (l : list A) : list A :=
  match l with
  | [] => []
  | x :: l' => x :: filter (λ y, y ≠ x) (dedup l')
  end.

(** * Insertion-ordered dictionaries *)

(** A Python [dict] with string keys: an association list in insertion order. *)
Definition dict (A : Type) : Type := list (string * A).

Fixpoint dict_get {A} (d : dict A) (k : string) : option A :=
  match d with
  | [] => None
  | (k', v) :: d' => if decide (k = k') then Some v else dict_get d' k
  end.

(** [d[k] = v]: replaces in place, or appends. *)
Fixpoint dict_set {A} (d : dict A) (k : string) (v : A) : dict A :=
  match d with
  | [] => [(k, v)]
  | (k', v') :: d' =>
      if decide (k = k') then (k, v) :: d' else (k', v') :: dict_set d' k v
  end.

Definition dict_keys {A} (d : dict A) : list string := d.*1.
Definition dict_values {A} (d : dict A) : list A := d.*2.

Lemma dict_get_set_eq {A} (d : dict A) k v : dict_get (dict_set d k v) k = Some v.
Proof.
  induction d as [|[k' v'] d IH]; simpl; [by rewrite decide_True|].
  destruct (decide (k = k')) as [->|Hne]; simpl;
    [by rewrite decide_True | by rewrite decide_False].
Qed.

Lemma dict_get_set_ne {A} (d : dict A) k k' v :
  k ≠ k' → dict_get (dict_set d k v) k' = dict_get d k'.
Proof.
  intros Hne. induction d as [|[j w] d IH]; simpl.
  - by rewrite decide_False by congruence.
  - destruct (decide (k = j)) as [->|Hj]; simpl.
    + by rewrite !decide_False by congruence.
    + by rewrite IH.
Qed.

Lemma dict_get_Some_elem {A} (d : dict A) k v : dict_get d k = Some v → (k, v) ∈ d.
Proof.
  induction d as [|[k' v'] d IH]; simpl; [done|].
  case_decide; intros; simplify_eq; [left | right; auto].
Qed.

Lemma dict_keys_set {A} (d : dict A) k v :
  k ∈ dict_keys d → dict_keys (dict_set d k v) = dict_keys d.
Proof.
  unfold dict_keys. induction d as [|[k' v'] d IH]; simpl; [by intros ?%elem_of_nil|].
  intros Hin. case_decide; subst; simpl; [done|].
  f_equal. apply IH. by apply elem_of_cons in Hin as [?|?].
Qed.

Lemma elem_of_dedup {A} `{EqDecision A} (x : A) l : x ∈ dedup l ↔ x ∈ l.
Proof.
  induction l as [|y l IH]; simpl; [done|].
  rewrite !elem_of_cons, list_elem_of_filter, IH. destruct (decide (x = y)); naive_solver.
Qed.

Lemma NoDup_dedup {A} `{EqDecision A} (l : list A) : NoDup (dedup l).
Proof.
  induction l as [|y l IH]; simpl; constructor.
  - rewrite list_elem_of_filter. naive_solver.
  - by apply NoDup_filter.
Qed.

Lemma upper_idemp s : upper (upper s) = upper s.
Proof.
  induction s as [|c s IH]; simpl; [done|]. rewrite IH. f_equal.
  by destruct c as [[] [] [] [] [] [] [] []].
Qed.

Lemma string_take_drop n s : string_take n s +:+ string_drop n s = s.
Proof.
  revert s. induction n as [|n IH]; intros [|c s]; simpl; try done.
  unfold String.append; fold String.append. by rewrite IH.
Qed.

Lemma app_string_cons c s t : String c s +:+ t = String c (s +:+ t).
Proof. done. Qed.

Lemma app_string_nil s : EmptyString +:+ s = s.
Proof. done. Qed.

Lemma contains_char_app c s t :
  contains_char c (s +:+ t) = contains_char c s || contains_char c t.
Proof.
  induction s as [|d s IH]; [done|]. rewrite app_string_cons. simpl. by case_decide.
Qed.

Lemma upper_app s t : upper (s +:+ t) = upper s +:+ upper t.
Proof. induction s as [|c s IH]; [done|]. rewrite app_string_cons. simpl. by rewrite IH. Qed.

(** Splitting at a separator the head part does not contain. *)
Lemma split_char_app c s t :
  contains_char c s = false →
  split_char c (s +:+ String c t) = s :: split_char c t.
Proof.
  induction s as [|d s IH]; simpl.
  - intros _. by rewrite decide_True.
  - case_decide; [done|]. intros Hs. by rewrite IH.
Qed.

Lemma split_char_none c s : contains_char c s = false → split_char c s = [s].
Proof.
  induction s as [|d s IH]; simpl; [done|]. case_decide; [done|]. intros. by rewrite IH.
Qed.

Lemma rstrip_app_nonspace s c :
  is_space c = false → rstrip (s +:+ String c EmptyString) = s +:+ String c EmptyString.
Proof.
  intros Hc. induction s as [|d s IH]; simpl.
  - by rewrite Hc.
  - rewrite IH. by destruct s.
Qed.

Lemma lstrip_first s c t : lstrip s = String c t → is_space c = false.
Proof. induction s as [|d s IH]; simpl; [done|]. case_match; intros; simplify_eq; auto. Qed.

Lemma lstrip_idemp s : lstrip (lstrip s) = lstrip s.
Proof.
  destruct (lstrip s) as [|c t] eqn:E; [done|]. simpl. by rewrite (lstrip_first _ _ _ E).
Qed.

Lemma rstrip_idemp s : rstrip (rstrip s) = rstrip s.
Proof.
  induction s as [|c s IH]; [done|]. simpl. destruct (rstrip s) as [|d r] eqn:E.
  - destruct (is_space c) eqn:Ec; simpl; [done|by rewrite Ec].
  - change (rstrip (String c (String d r))) with
      (match rstrip (String d r) with
       | EmptyString => if is_space c then EmptyString else String c EmptyString
       | r' => String c r' end).
    by rewrite IH.
Qed.

Lemma rstrip_first c s : is_space c = false → ∃ r, rstrip (String c s) = String c r.
Proof. intros Hc. simpl. destruct (rstrip s); [rewrite Hc|]; eauto. Qed.

Lemma strip_idemp s : strip (strip s) = strip s.
Proof.
  unfold strip. destruct (lstrip s) as [|c t] eqn:E; [done|].
  pose proof (lstrip_first _ _ _ E) as Hc. destruct (rstrip_first c t Hc) as [r Hr].
  rewrite Hr. simpl lstrip. rewrite Hc. rewrite <- Hr. apply rstrip_idemp.
Qed.

(** * Automation *)

Create HintDb trading.
Create Rewrite HintDb trading.
#[export] Hint Resolve NoDup_dedup : trading.
#[export] Hint Rewrite @dict_get_set_eq upper_idemp : trading.

(** Split boolean conjunctions and reflect [bool_decide] in the context. *)
Ltac reflect_bools :=
  repeat match goal with
  | H : (_ && _)%bool = true |- _ => apply andb_true_iff in H; destruct H
  | H : (_ || _)%bool = false |- _ => apply orb_false_iff in H; destruct H
  | H : negb _ = true |- _ => apply negb_true_iff in H
  | H : negb _ = false |- _ => apply negb_false_iff in H
  | H : bool_decide _ = true |- _ => apply bool_decide_eq_true_1 in H
  | H : bool_decide _ = false |- _ => apply bool_decide_eq_false_1 in H
  end.

(** Case analysis on every [match]/[if] scrutinee left in the goal or in a
    hypothesis, discarding the impossible branches. *)
Ltac case_all :=
  repeat (case_match; simplify_eq/=; try done).
