(* ===== verification/PyDecimal.v ===== *)
(** Python's [decimal.Decimal] under the default context: 28 significant digits,
    ROUND_HALF_EVEN, with InvalidOperation and DivisionByZero trapped.

    A finite value is a coefficient and an exponent, [Fin c e] standing for
    [c * 10^e].  Exponents are unbounded here: the default context
    traps Overflow above 10^999999 and rounds below 10^-999999, neither of which is modelled,
    so what is proved about returning leaves that signal aside.  The sign of a zero, which
    no comparison observes, is not kept.
    Every operation computes the exact result first and rounds it once, as the
    General Decimal Arithmetic specification prescribes. *)

From S2P Require Import Prelude.
From Stdlib Require Import Lia Ascii.
Local Open Scope Z_scope.

Inductive Decimal : Type :=
| Fin (c e : Z)
| Inf (neg : bool)
| NaN.

#[export] Instance Decimal_eq_dec : EqDecision Decimal.
Proof. solve_decision. Defined.

Definition context_prec : Z := 28.

(** * Digits and rounding *)

Fixpoint ndigits_fuel (fuel : nat) (n : Z) : Z :=
  match fuel with
  | O => 1
  | S f => if n <? 10 then 1 else 1 + ndigits_fuel f (n / 10)
  end.

(** Number of decimal digits of the coefficient, [len(str(abs(c)))]. *)
Definition ndigits (c : Z) : Z :=
  ndigits_fuel (S (Z.to_nat (Z.log2 (Z.abs c)))) (Z.abs c).

(** Nearest integer to [c / d], ties to the even neighbour. *)
Definition div_half_even (c d : Z) : Z :=
  let q := c / d in
  let r := c mod d in
  if 2 * r <? d then q
  else if d <? 2 * r then q + 1
  else if Z.even q then q else q + 1.

(** [Decimal._fix]: round the exact value [c * 10^e] to the context precision. *)
Definition dround (c e : Z) : Decimal :=
  let n := ndigits c in
  if n <=? context_prec then Fin c e
  else
    let k := n - context_prec in
    let q := div_half_even c (10 ^ k) in
    if Z.abs q =? 10 ^ context_prec then Fin (q / 10) (e + k + 1)
    else Fin q (e + k).

(** * Predicates and comparisons *)

Definition is_finite (x : Decimal) : bool :=
  match x with Fin _ _ => true | _ => false end.

Definition is_nan (x : Decimal) : bool :=
  match x with NaN => true | _ => false end.

(** Order of two non-NaN values. *)
Definition dcmp (x y : Decimal) : comparison :=
  match x, y with
  | Fin c1 e1, Fin c2 e2 =>
      let m := Z.min e1 e2 in
      (c1 * 10 ^ (e1 - m) ?= c2 * 10 ^ (e2 - m))
  | Inf true, Inf true => Eq
  | Inf false, Inf false => Eq
  | Inf neg, _ => if neg then Lt else Gt
  | _, Inf neg => if neg then Gt else Lt
  | NaN, _ | _, NaN => Eq
  end.

Definition dcmp_le (x y : Decimal) : bool :=
  match dcmp x y with Gt => false | _ => true end.
Definition dcmp_lt (x y : Decimal) : bool :=
  match dcmp x y with Lt => true | _ => false end.

(** Ordering comparisons raise InvalidOperation on a NaN operand. *)
Definition dordered (f : Decimal → Decimal → bool) (x y : Decimal) : outcome bool :=
  if is_nan x || is_nan y then Raise InvalidOperation else Ok (f x y).

Definition dlt (x y : Decimal) : outcome bool := dordered dcmp_lt x y.
Definition dle (x y : Decimal) : outcome bool := dordered dcmp_le x y.
Definition dgt (x y : Decimal) : outcome bool := dlt y x.
Definition dge (x y : Decimal) : outcome bool := dle y x.

(** [==] is quiet: a NaN equals nothing. *)
Definition deq (x y : Decimal) : bool :=
  negb (is_nan x || is_nan y) && match dcmp x y with Eq => true | _ => false end.

Definition of_Z (z : Z) : Decimal := Fin z 0.
Definition dzero : Decimal := of_Z 0.

(** * Arithmetic *)

Definition dneg (x : Decimal) : Decimal :=
  match x with Fin c e => dround (- c) e | Inf b => Inf (negb b) | NaN => NaN end.

Definition dabs (x : Decimal) : Decimal :=
  match x with Fin c e => dround (Z.abs c) e | Inf _ => Inf false | NaN => NaN end.

Definition dadd (x y : Decimal) : outcome Decimal :=
  match x, y with
  | NaN, _ | _, NaN => Ok NaN
  | Inf b, Inf b' => if Bool.eqb b b' then Ok (Inf b) else Raise InvalidOperation
  | Inf b, Fin _ _ | Fin _ _, Inf b => Ok (Inf b)
  | Fin c1 e1, Fin c2 e2 =>
      let m := Z.min e1 e2 in
      Ok (dround (c1 * 10 ^ (e1 - m) + c2 * 10 ^ (e2 - m)) m)
  end.

(** [x - y] is [x + y.copy_negate()]: the negation itself is not rounded. *)
Definition copy_negate (x : Decimal) : Decimal :=
  match x with Fin c e => Fin (- c) e | Inf b => Inf (negb b) | NaN => NaN end.

Definition dsub (x y : Decimal) : outcome Decimal := dadd x (copy_negate y).

Definition dsign (x : Decimal) : bool :=
  match x with Fin c _ => c <? 0 | Inf b => b | NaN => false end.

Definition dis_zero (x : Decimal) : bool :=
  match x with Fin c _ => c =? 0 | _ => false end.

Definition dmul (x y : Decimal) : outcome Decimal :=
  match x, y with
  | NaN, _ | _, NaN => Ok NaN
  | Fin c1 e1, Fin c2 e2 => Ok (dround (c1 * c2) (e1 + e2))
  | _, _ =>
      if dis_zero x || dis_zero y then Raise InvalidOperation
      else Ok (Inf (xorb (dsign x) (dsign y)))
  end.

(** Remove trailing zeros while the exponent is below the ideal one. *)
Fixpoint drop_zeros (fuel : nat) (c e ideal : Z) : Z * Z :=
  match fuel with
  | O => (c, e)
  | S f =>
      if (e <? ideal) && (c mod 10 =? 0) then drop_zeros f (c / 10) (e + 1) ideal
      else (c, e)
  end.

(** The quotient of two nonnegative coefficients with [context_prec + 1] digits
    and a sticky last digit, before the final rounding. *)
Definition ddiv_coeff (a ea b eb : Z) : Z * Z :=
  let shift := ndigits b - ndigits a + context_prec + 1 in
  let e := ea - eb - shift in
  let num := if 0 <=? shift then a * 10 ^ shift else a in
  let den := if 0 <=? shift then b else b * 10 ^ (- shift) in
  let q := num / den in
  let r := num mod den in
  if r =? 0 then drop_zeros (Z.to_nat (ea - eb - e)) q e (ea - eb)
  else if q mod 5 =? 0 then (q + 1, e) else (q, e).

Definition ddiv (x y : Decimal) : outcome Decimal :=
  match x, y with
  | NaN, _ | _, NaN => Ok NaN
  | Inf _, Inf _ => Raise InvalidOperation
  | Inf b, Fin c _ => Ok (Inf (xorb b (c <? 0)))
  | Fin _ _, Inf _ => Ok dzero
  | Fin c1 e1, Fin c2 e2 =>
      if c2 =? 0 then
        if c1 =? 0 then Raise InvalidOperation else Raise DivisionByZero
      else if c1 =? 0 then Ok (Fin 0 (e1 - e2))
      else
        let '(q, e) := ddiv_coeff (Z.abs c1) e1 (Z.abs c2) e2 in
        Ok (dround (if xorb (c1 <? 0) (c2 <? 0) then - q else q) e)
  end.

(** Builtin [max(x, y)] and [min(x, y)]: the first argument wins a tie. *)
Definition dmax (x y : Decimal) : outcome Decimal :=
  b ← dgt y x; Ok (if b : bool then y else x).
Definition dmin (x y : Decimal) : outcome Decimal :=
  b ← dlt y x; Ok (if b : bool then y else x).

(** [sum(l, Decimal(0))]. *)
Definition dsum (l : list Decimal) : outcome Decimal := outcome_foldl dadd dzero l.

(** The coefficient of [c * 10^e] at exponent [exp], rounded half-even. *)
Definition rescale (c e exp : Z) : Z :=
  if exp <=? e then c * 10 ^ (e - exp) else div_half_even c (10 ^ (exp - e)).

(** [x.quantize(Decimal((0, (1,), exp)))]. *)
Definition quantize (x : Decimal) (exp : Z) : outcome Decimal :=
  match x with
  | NaN => Ok NaN
  | Inf _ => Raise InvalidOperation
  | Fin c e =>
      let c' := rescale c e exp in
      if ndigits c' <=? context_prec then Ok (Fin c' exp)
      else Raise InvalidOperation
  end.

(** * Text *)

Fixpoint zeros (n : nat) : string :=
  match n with O => EmptyString | S n' => String "0"%char (zeros n') end.

Definition digits_of (c : Z) : string := pretty (Z.abs c).
Definition sign_text (c : Z) : string := if c <? 0 then "-" else EmptyString.

(** Digits of the nonnegative number [a * 10^e] in positional notation, [e <= 0]. *)
Definition plain_digits (a e : Z) : string :=
  let d := digits_of a in
  let frac := Z.to_nat (- e) in
  let d' := if (String.length d <=? frac)%nat
            then zeros (frac + 1 - String.length d) +:+ d else d in
  let whole := (String.length d' - frac)%nat in
  if (frac =? 0)%nat then d'
  else string_take whole d' +:+ "." +:+ string_drop whole d'.

(** [format(x, '.2f')]. *)
Definition fmt2 (x : Decimal) : string :=
  match x with
  | NaN => "NaN"
  | Inf b => (if b then "-" else EmptyString) +:+ "Infinity"
  | Fin c e => sign_text c +:+ plain_digits (Z.abs (rescale c e (-2))) (-2)
  end.

(** [str(x)]: positional unless the exponent is positive or very negative. *)
Definition dstr (x : Decimal) : string :=
  match x with
  | NaN => "NaN"
  | Inf b => (if b then "-" else EmptyString) +:+ "Infinity"
  | Fin c e =>
      let d := digits_of c in
      let leftdigits := e + Z.of_nat (String.length d) in
      if (e <=? 0) && (-6 <? leftdigits) then
        sign_text c +:+ plain_digits c e
      else
        let exp := leftdigits - 1 in
        sign_text c
        +:+ (if (String.length d =? 1)%nat then d
             else string_take 1 d +:+ "." +:+ string_drop 1 d)
        +:+ "E" +:+ (if exp <? 0 then EmptyString else "+") +:+ pretty exp
  end.

(** * Theory *)

Lemma pow10_pos k : 0 ≤ k → 0 < 10 ^ k.
Proof. intros. by apply Z.pow_pos_nonneg. Qed.

Lemma ndigits_fuel_spec fuel n :
  0 < n → n < 10 ^ Z.of_nat (S fuel) →
  1 ≤ ndigits_fuel (S fuel) n ∧
  10 ^ (ndigits_fuel (S fuel) n - 1) ≤ n < 10 ^ ndigits_fuel (S fuel) n.
Proof.
  revert n. induction fuel as [|fuel IH]; intros n Hpos Hlt.
  - simpl in *. destruct (Z.ltb_spec n 10); simpl; lia.
  - remember (S fuel) as f eqn:Hf. simpl. destruct (Z.ltb_spec n 10) as [|Hge]; [simpl; lia|].
    rewrite Nat2Z.inj_succ, Z.pow_succ_r in Hlt by lia.
    destruct (IH (n / 10)) as (H1 & H2 & H3).
    + apply Z.div_str_pos. lia.
    + apply Z.div_lt_upper_bound; lia.
    + remember (ndigits_fuel f (n / 10)) as d eqn:Hd.
      pose proof (Z.div_mod n 10 ltac:(lia)) as Hdm.
      pose proof (Z.mod_pos_bound n 10 ltac:(lia)) as Hmb.
      replace (1 + d - 1) with (Z.succ (d - 1)) by lia.
      replace (1 + d) with (Z.succ d) by lia.
      rewrite !Z.pow_succ_r by lia. lia.
Qed.

Lemma ndigits_spec c :
  c ≠ 0 → 1 ≤ ndigits c ∧ 10 ^ (ndigits c - 1) ≤ Z.abs c < 10 ^ ndigits c.
Proof.
  intros Hc. apply ndigits_fuel_spec; [lia|].
  pose proof (Z.log2_spec (Z.abs c) ltac:(lia)) as [_ Hlt].
  pose proof (Z.log2_nonneg (Z.abs c)).
  rewrite Nat2Z.inj_succ, Z2Nat.id by lia.
  eapply Z.lt_le_trans; [exact Hlt|]. apply Z.pow_le_mono_l. lia.
Qed.

Lemma ndigits_0 : ndigits 0 = 1.
Proof. reflexivity. Qed.

Lemma ndigits_le_iff c n : 1 ≤ n → ndigits c ≤ n ↔ Z.abs c < 10 ^ n.
Proof.
  intros Hn. destruct (decide (c = 0)) as [->|Hc].
  { rewrite ndigits_0. pose proof (pow10_pos n). simpl. lia. }
  destruct (ndigits_spec c Hc) as (H1 & H2 & H3). split; intros H.
  - eapply Z.lt_le_trans; [exact H3|]. by apply Z.pow_le_mono_r.
  - destruct (Z.le_gt_cases (ndigits c) n) as [|Hgt]; [done|].
    assert (10 ^ n ≤ 10 ^ (ndigits c - 1)) by (apply Z.pow_le_mono_r; lia). lia.
Qed.

(** A coefficient that fits the context precision. *)
Definition fits (c : Z) : Prop := Z.abs c < 10 ^ context_prec.

#[export] Instance fits_dec c : Decision (fits c).
Proof. unfold fits. apply _. Defined.

Lemma dround_exact c e : fits c → dround c e = Fin c e.
Proof.
  intros Hf. unfold dround. destruct (Z.leb_spec (ndigits c) context_prec) as [|Hgt]; [done|].
  apply ndigits_le_iff in Hf; unfold context_prec in *; lia.
Qed.

Lemma dround_finite c e : is_finite (dround c e) = true.
Proof. unfold dround. by repeat case_match. Qed.

Lemma div_half_even_bounds c d :
  0 < d → 2 * c - d ≤ 2 * (div_half_even c d * d) ≤ 2 * c + d.
Proof.
  intros Hd. unfold div_half_even.
  pose proof (Z.div_mod c d ltac:(lia)) as Hdm. pose proof (Z.mod_pos_bound c d Hd) as Hmb.
  destruct (Z.ltb_spec (2 * (c mod d)) d), (Z.ltb_spec d (2 * (c mod d)));
    try destruct (Z.even (c / d)); nia.
Qed.

(** Rounding never passes an integer on the far side. *)
Lemma div_half_even_le c d z : 0 < d → c ≤ z * d → div_half_even c d ≤ z.
Proof.
  intros Hd Hle. pose proof (div_half_even_bounds c d Hd).
  destruct (Z.le_gt_cases (div_half_even c d) z) as [|Hgt]; [done|].
  exfalso. unfold div_half_even in *.
  pose proof (Z.div_mod c d ltac:(lia)) as Hdm. pose proof (Z.mod_pos_bound c d Hd) as Hmb.
  destruct (Z.ltb_spec (2 * (c mod d)) d), (Z.ltb_spec d (2 * (c mod d)));
    try destruct (Z.even (c / d)); nia.
Qed.

Lemma div_half_even_ge c d z : 0 < d → z * d ≤ c → z ≤ div_half_even c d.
Proof.
  intros Hd Hle.
  assert (z ≤ c / d) by (apply Z.div_le_lower_bound; lia).
  unfold div_half_even. repeat case_match; lia.
Qed.

(** ** Comparison at any common exponent *)

Lemma scale_pow c e m m' :
  m' ≤ m → m ≤ e → c * 10 ^ (e - m') = c * 10 ^ (e - m) * 10 ^ (m - m').
Proof.
  intros. rewrite <- Z.mul_assoc, <- Z.pow_add_r by lia. do 2 f_equal. lia.
Qed.

Lemma compare_mul_pos a b k : 0 < k → (a * k ?= b * k) = (a ?= b).
Proof.
  intros Hk. destruct (Z.compare_spec a b) as [->|Hlt|Hgt].
  - apply Z.compare_refl.
  - apply Z.compare_lt_iff. by apply Z.mul_lt_mono_pos_r.
  - apply Z.compare_gt_iff. by apply Z.mul_lt_mono_pos_r.
Qed.

Lemma dcmp_align c1 e1 c2 e2 m :
  m ≤ e1 → m ≤ e2 →
  dcmp (Fin c1 e1) (Fin c2 e2) = (c1 * 10 ^ (e1 - m) ?= c2 * 10 ^ (e2 - m)).
Proof.
  intros H1 H2. simpl. set (k := Z.min e1 e2).
  rewrite (scale_pow c1 e1 k m), (scale_pow c2 e2 k m) by lia.
  rewrite compare_mul_pos; [done|]. apply pow10_pos. lia.
Qed.

Lemma dcmp_same_exp c1 c2 e : dcmp (Fin c1 e) (Fin c2 e) = (c1 ?= c2).
Proof.
  rewrite (dcmp_align c1 e c2 e e) by lia. rewrite Z.sub_diag. f_equal; lia.
Qed.

Lemma dcmp_le_align c1 e1 c2 e2 m :
  m ≤ e1 → m ≤ e2 →
  dcmp_le (Fin c1 e1) (Fin c2 e2) = true ↔ c1 * 10 ^ (e1 - m) ≤ c2 * 10 ^ (e2 - m).
Proof.
  intros H1 H2. unfold dcmp_le. rewrite (dcmp_align c1 e1 c2 e2 m H1 H2).
  destruct (Z.compare_spec (c1 * 10 ^ (e1 - m)) (c2 * 10 ^ (e2 - m)));
    split; intros; try done; lia.
Qed.

Lemma dcmp_lt_align c1 e1 c2 e2 m :
  m ≤ e1 → m ≤ e2 →
  dcmp_lt (Fin c1 e1) (Fin c2 e2) = true ↔ c1 * 10 ^ (e1 - m) < c2 * 10 ^ (e2 - m).
Proof.
  intros H1 H2. unfold dcmp_lt. rewrite (dcmp_align c1 e1 c2 e2 m H1 H2).
  destruct (Z.compare_spec (c1 * 10 ^ (e1 - m)) (c2 * 10 ^ (e2 - m)));
    split; intros; try done; lia.
Qed.

(** Decide comparisons of literals: [z * 10^k] against an integer. *)
Lemma dcmp_lt_false c1 e1 c2 e2 m :
  m ≤ e1 → m ≤ e2 →
  dcmp_lt (Fin c1 e1) (Fin c2 e2) = false ↔ c2 * 10 ^ (e2 - m) ≤ c1 * 10 ^ (e1 - m).
Proof.
  intros H1 H2. rewrite <- not_true_iff_false, (dcmp_lt_align c1 e1 c2 e2 m) by done. lia.
Qed.

Lemma dcmp_le_false c1 e1 c2 e2 m :
  m ≤ e1 → m ≤ e2 →
  dcmp_le (Fin c1 e1) (Fin c2 e2) = false ↔ c2 * 10 ^ (e2 - m) < c1 * 10 ^ (e1 - m).
Proof.
  intros H1 H2. rewrite <- not_true_iff_false, (dcmp_le_align c1 e1 c2 e2 m) by done. lia.
Qed.

Lemma dcmp_lt_le x y : dcmp_lt x y = true → dcmp_le x y = true.
Proof. unfold dcmp_lt, dcmp_le. by case_match. Qed.

Lemma dcmp_antisym x y : dcmp y x = CompOpp (dcmp x y).
Proof.
  destruct x as [c1 e1|[]|], y as [c2 e2|[]|]; try done.
  rewrite (dcmp_align c1 e1 c2 e2 (Z.min e1 e2)), (dcmp_align c2 e2 c1 e1 (Z.min e1 e2)) by lia.
  apply Z.compare_antisym.
Qed.

Lemma dcmp_le_total x y : dcmp_le x y = false → dcmp_lt y x = true.
Proof. unfold dcmp_lt, dcmp_le. rewrite (dcmp_antisym x y). by case_match. Qed.

Lemma dcmp_le_refl x : dcmp_le x x = true.
Proof.
  destruct x as [c e|[]|]; try done. unfold dcmp_le. by rewrite dcmp_same_exp, Z.compare_refl.
Qed.

Lemma dcmp_le_trans x y z :
  is_finite y = true → dcmp_le x y = true → dcmp_le y z = true → dcmp_le x z = true.
Proof.
  destruct x as [c1 e1|[]|], y as [c2 e2|[]|], z as [c3 e3|[]|]; try done. intros _.
  set (m := Z.min e1 (Z.min e2 e3)).
  rewrite (dcmp_le_align c1 e1 c2 e2 m), (dcmp_le_align c2 e2 c3 e3 m),
    (dcmp_le_align c1 e1 c3 e3 m) by lia. lia.
Qed.

(** ** Rounding is monotone with respect to representable values *)

Lemma dround_cases c m :
  (fits c ∧ dround c m = Fin c m) ∨
  ∃ k, 1 ≤ k ∧ 10 ^ (27 + k) ≤ Z.abs c ∧
    ∀ cy ey, m ≤ ey →
      dcmp (dround c m) (Fin cy ey)
      = (div_half_even c (10 ^ k) * 10 ^ k ?= cy * 10 ^ (ey - m)).
Proof.
  destruct (decide (fits c)) as [Hf|Hf]; [left; by rewrite dround_exact|right].
  assert (c ≠ 0) as Hc by (intros ->; by apply Hf).
  destruct (ndigits_spec c Hc) as (H1 & H2 & H3).
  assert (28 < ndigits c) as Hn.
  { apply Z.nle_gt. intros Hle. apply Hf. apply ndigits_le_iff; unfold context_prec; lia. }
  exists (ndigits c - 28). split; [lia|]. split.
  { replace (27 + (ndigits c - 28)) with (ndigits c - 1) by lia. lia. }
  intros cy ey Hey. unfold dround, context_prec.
  set (k := ndigits c - 28). set (q := div_half_even c (10 ^ k)).
  destruct (Z.leb_spec (ndigits c) 28); [lia|].
  destruct (Z.eqb_spec (Z.abs q) (10 ^ 28)) as [Hq|Hq].
  - rewrite (dcmp_align _ _ _ _ m) by lia.
    replace (m + k + 1 - m) with (Z.succ k) by lia. rewrite Z.pow_succ_r by lia.
    f_equal. rewrite Z.mul_assoc. f_equal.
    assert (q = 10 ^ 28 ∨ q = - 10 ^ 28) as [->| ->] by lia; reflexivity.
  - rewrite (dcmp_align _ _ _ _ m) by lia. by replace (m + k - m) with k by lia.
Qed.

(** A representable value below the rounding grid is smaller than what is rounded. *)
Lemma small_exp_bound cy d k :
  fits cy → 0 ≤ d < k → Z.abs (cy * 10 ^ d) < 10 ^ (27 + k).
Proof.
  intros Hf Hd. rewrite Z.abs_mul, (Z.abs_eq (10 ^ d)) by (pose proof (pow10_pos d); lia).
  assert (10 ^ (27 + k) = 10 ^ 28 * 10 ^ (k - 1)) as ->
    by (rewrite <- Z.pow_add_r by lia; f_equal; lia).
  assert (10 ^ d ≤ 10 ^ (k - 1)) by (apply Z.pow_le_mono_r; lia).
  pose proof (pow10_pos d ltac:(lia)). unfold fits, context_prec in Hf.
  apply Z.lt_le_trans with (10 ^ 28 * 10 ^ d); [|apply Z.mul_le_mono_nonneg_l; lia].
  apply Z.mul_lt_mono_pos_r; lia.
Qed.

Lemma dround_le_rep c m cy ey :
  m ≤ ey → fits cy → c ≤ cy * 10 ^ (ey - m) → dcmp_le (dround c m) (Fin cy ey) = true.
Proof.
  intros Hm Hf Hle. destruct (dround_cases c m) as [[_ ->]|(k & Hk & Hc & Hcmp)].
  { apply (dcmp_le_align _ _ _ _ m); rewrite ?Z.sub_diag; lia. }
  unfold dcmp_le. rewrite Hcmp by done.
  set (D := 10 ^ k) in *. assert (0 < D) as HD by (apply pow10_pos; lia).
  set (q := div_half_even c D).
  assert (q * D ≤ cy * 10 ^ (ey - m)) as Hq;
    [|destruct (Z.compare_spec (q * D) (cy * 10 ^ (ey - m))); simpl; try done; lia].
  destruct (Z.le_gt_cases k (ey - m)) as [Hge|Hlt].
  - assert (cy * 10 ^ (ey - m) = cy * 10 ^ (ey - m - k) * D) as HY.
    { unfold D. rewrite <- Z.mul_assoc, <- Z.pow_add_r by lia. do 2 f_equal. lia. }
    rewrite HY. apply Z.mul_le_mono_nonneg_r; [lia|].
    apply div_half_even_le; [done|]. by rewrite <- HY.
  - pose proof (small_exp_bound cy (ey - m) k Hf ltac:(lia)) as Hsmall.
    assert (10 ^ (27 + k) = 10 ^ 27 * D) as HP by (unfold D; by rewrite Z.pow_add_r by lia).
    assert (q ≤ - 10 ^ 27) by (apply div_half_even_le; [done|]; lia). nia.
Qed.

Lemma dround_ge_rep c m cy ey :
  m ≤ ey → fits cy → cy * 10 ^ (ey - m) ≤ c → dcmp_le (Fin cy ey) (dround c m) = true.
Proof.
  intros Hm Hf Hle. destruct (dround_cases c m) as [[_ ->]|(k & Hk & Hc & Hcmp)].
  { apply (dcmp_le_align _ _ _ _ m); rewrite ?Z.sub_diag; lia. }
  unfold dcmp_le. rewrite dcmp_antisym, Hcmp by done.
  set (D := 10 ^ k) in *. assert (0 < D) as HD by (apply pow10_pos; lia).
  set (q := div_half_even c D).
  assert (cy * 10 ^ (ey - m) ≤ q * D) as Hq;
    [|destruct (Z.compare_spec (q * D) (cy * 10 ^ (ey - m))); simpl; try done; lia].
  destruct (Z.le_gt_cases k (ey - m)) as [Hge|Hlt].
  - assert (cy * 10 ^ (ey - m) = cy * 10 ^ (ey - m - k) * D) as HY.
    { unfold D. rewrite <- Z.mul_assoc, <- Z.pow_add_r by lia. do 2 f_equal. lia. }
    rewrite HY. apply Z.mul_le_mono_nonneg_r; [lia|].
    apply div_half_even_ge; [done|]. by rewrite <- HY.
  - pose proof (small_exp_bound cy (ey - m) k Hf ltac:(lia)) as Hsmall.
    assert (10 ^ (27 + k) = 10 ^ 27 * D) as HP by (unfold D; by rewrite Z.pow_add_r by lia).
    assert (10 ^ 27 ≤ q) by (apply div_half_even_ge; [done|]; lia). nia.
Qed.

(** ** Consequences for the arithmetic the program performs *)

(** A decimal whose coefficient fits the context: what every parsed, stored or
    computed value of the program satisfies. *)
Definition representable (x : Decimal) : Prop :=
  match x with Fin c _ => fits c | _ => False end.

Lemma dround_representable c e : representable (dround c e).
Proof.
  unfold dround. destruct (Z.leb_spec (ndigits c) context_prec) as [Hle|Hgt].
  { apply ndigits_le_iff in Hle; unfold context_prec in *; [exact Hle|lia]. }
  set (k := ndigits c - context_prec). set (q := div_half_even c (10 ^ k)).
  assert (c ≠ 0) as Hc by (intros ->; rewrite ndigits_0 in *; unfold context_prec in *; lia).
  destruct (ndigits_spec c Hc) as (H1 & H2 & H3).
  assert (0 < 10 ^ k) as HD by (apply pow10_pos; unfold k, context_prec in *; lia).
  assert (10 ^ ndigits c = 10 ^ 28 * 10 ^ k) as HP.
  { rewrite <- Z.pow_add_r; unfold k, context_prec in *; [f_equal|..]; lia. }
  assert (q ≤ 10 ^ 28) by (apply div_half_even_le; [done|lia]).
  assert (- 10 ^ 28 ≤ q) by (apply div_half_even_ge; [done|lia]).
  destruct (Z.eqb_spec (Z.abs q) (10 ^ context_prec)) as [Hq|Hq]; simpl; unfold fits, context_prec in *.
  - assert (q = 10 ^ 28 ∨ q = - 10 ^ 28) as [->| ->] by lia; reflexivity.
  - lia.
Qed.

(** Subtracting a nonnegative amount never yields more than the minuend. *)
Lemma dsub_le x y d :
  representable x → is_finite y = true → dcmp_le dzero y = true →
  dsub x y = Ok d → dcmp_le d x = true.
Proof.
  destruct x as [c1 e1| |], y as [c2 e2| |]; try done. intros Hf _ Hy Hd.
  unfold dsub in Hd. simpl in Hd. simplify_eq. set (m := Z.min e1 e2).
  apply (dcmp_le_align _ _ _ _ (Z.min 0 e2)) in Hy; [|lia..].
  assert (0 ≤ c2) as Hc2 by (pose proof (pow10_pos (e2 - Z.min 0 e2)); nia).
  apply dround_le_rep; [lia|done|].
  pose proof (pow10_pos (e2 - m) ltac:(lia)). nia.
Qed.

(** Exact addition and subtraction at a common exponent. *)
Lemma dadd_exact c1 c2 e : fits (c1 + c2) → dadd (Fin c1 e) (Fin c2 e) = Ok (Fin (c1 + c2) e).
Proof.
  intros Hf. simpl. rewrite Z.min_id, Z.sub_diag. rewrite !Z.mul_1_r. by rewrite dround_exact.
Qed.

Lemma dsub_exact c1 c2 e : fits (c1 - c2) → dsub (Fin c1 e) (Fin c2 e) = Ok (Fin (c1 - c2) e).
Proof. intros Hf. unfold dsub. simpl copy_negate. by rewrite dadd_exact. Qed.

Lemma dmul_exact c1 e1 c2 e2 :
  fits (c1 * c2) → dmul (Fin c1 e1) (Fin c2 e2) = Ok (Fin (c1 * c2) (e1 + e2)).
Proof. intros Hf. simpl. by rewrite dround_exact. Qed.

Lemma dgt_ok x y b : dgt x y = Ok b → b = dcmp_lt y x.
Proof. unfold dgt, dlt, dordered. case_match; naive_solver. Qed.

Lemma dle_ok x y b : dle x y = Ok b → b = dcmp_le x y.
Proof. unfold dle, dordered. case_match; naive_solver. Qed.

Lemma dgt_false_le x y : dgt x y = Ok false → dcmp_le x y = true.
Proof.
  intros H%dgt_ok. destruct (dcmp_le x y) eqn:E; [done|].
  apply dcmp_le_total in E. congruence.
Qed.

Lemma dcmp_lt_le_neg x y : dcmp_lt y x = negb (dcmp_le x y).
Proof. unfold dcmp_lt, dcmp_le. rewrite (dcmp_antisym x y). by destruct (dcmp x y). Qed.

(** [not (x > y)] is [x <= y] whenever the comparison does not raise. *)
Lemma dgt_false_dle x y : dgt x y = Ok false ↔ dle x y = Ok true.
Proof.
  unfold dgt, dlt, dle, dordered. rewrite (orb_comm (is_nan y)), dcmp_lt_le_neg.
  case_match; [done|]. destruct (dcmp_le x y); naive_solver.
Qed.

Lemma dle_true x y : dle x y = Ok true → dcmp_le x y = true.
Proof. by intros H%dle_ok. Qed.

Lemma dmax_ge x y z : dmax x y = Ok z → dcmp_le x z = true ∧ dcmp_le y z = true.
Proof.
  unfold dmax. rewrite outcome_bind_Ok. intros ([] & Hb & Hz); simplify_eq.
  - split; [|apply dcmp_le_refl]. apply dcmp_lt_le. symmetry. by apply dgt_ok.
  - split; [apply dcmp_le_refl|]. by apply dgt_false_le.
Qed.

Lemma dmax_cases x y z : dmax x y = Ok z → z = x ∨ z = y.
Proof. unfold dmax. rewrite outcome_bind_Ok. intros ([] & Hb & Hz); naive_solver. Qed.

#[export] Hint Resolve dround_representable dcmp_le_refl : trading.

(** ** Finite operands never signal *)

(** A computation that returns a finite value. *)
Definition returns_finite (m : outcome Decimal) : Prop := ∃ z, m = Ok z ∧ is_finite z = true.

Lemma dadd_returns x y : is_finite x = true → is_finite y = true → returns_finite (dadd x y).
Proof. destruct x, y; try done. intros _ _. eexists. split; [done|]. apply dround_finite. Qed.

Lemma dsub_returns x y : is_finite x = true → is_finite y = true → returns_finite (dsub x y).
Proof. intros Hx Hy. apply dadd_returns; [done|]. by destruct y. Qed.

Lemma dmul_returns x y : is_finite x = true → is_finite y = true → returns_finite (dmul x y).
Proof. destruct x, y; try done. intros _ _. eexists. split; [done|]. apply dround_finite. Qed.

Lemma ddiv_returns x y :
  is_finite x = true → is_finite y = true → deq y dzero = false → returns_finite (ddiv x y).
Proof.
  destruct x as [c1 e1| |], y as [c2 e2| |]; try done. intros _ _ Hz. simpl.
  destruct (Z.eqb_spec c2 0) as [->|_].
  { exfalso. unfold deq, dzero, of_Z in Hz. simpl is_nan in Hz.
    rewrite (dcmp_align _ _ _ _ (Z.min e2 0)) in Hz by lia. by rewrite !Z.mul_0_l in Hz. }
  destruct (c1 =? 0); [by eexists|]. destruct (ddiv_coeff _ _ _ _).
  eexists. split; [done|]. apply dround_finite.
Qed.

Lemma dneg_finite x : is_finite x = true → is_finite (dneg x) = true.
Proof. destruct x; try done. intros _. apply dround_finite. Qed.

Lemma dabs_finite x : is_finite x = true → is_finite (dabs x) = true.
Proof. destruct x; try done. intros _. apply dround_finite. Qed.

Lemma dordered_returns f x y :
  is_finite x = true → is_finite y = true → dordered f x y = Ok (f x y).
Proof. by destruct x, y. Qed.

Lemma dmax_returns x y : is_finite x = true → is_finite y = true → returns_finite (dmax x y).
Proof.
  intros Hx Hy. unfold dmax, dgt, dlt. rewrite dordered_returns by done. simpl.
  eexists. split; [done|]. by case_match.
Qed.

Lemma dsum_from_returns acc l :
  is_finite acc = true → Forall (λ x, is_finite x = true) l →
  returns_finite (outcome_foldl dadd acc l).
Proof.
  revert acc. induction l as [|x l IH]; intros acc Hacc Hl; simpl; [by eexists|].
  apply Forall_cons in Hl as [Hx Hl]. destruct (dadd_returns acc x Hacc Hx) as (z & -> & Hz).
  by apply IH.
Qed.

Lemma dsum_returns l : Forall (λ x, is_finite x = true) l → returns_finite (dsum l).
Proof. by apply dsum_from_returns. Qed.

#[export] Hint Resolve dadd_returns dsub_returns dmul_returns ddiv_returns dmax_returns
  dsum_returns dneg_finite dabs_finite dround_finite : trading.

(** Run the head of a bind whose computation returns a finite value. *)
Ltac run_finite H :=
  let z := fresh "z" in let Hz := fresh "Hz" in let Hf := fresh "Hf" in
  destruct H as (z & Hz & Hf); rewrite Hz; cbn [mbind outcome_bind].
