(* ===== verification/Assets.v ===== *)
(** Asset classes and broker symbol spellings: [assets.py].

    A symbol is a string; [_normalized_symbol] strips and upper-cases it, a
    crypto pair carries a slash, and a broker may spell a USD pair compactly. *)

From S2P Require Import Prelude.
From Stdlib Require Import Ascii.

Inductive AssetClass : Type := EQUITY | CRYPTO.

#[export] Instance AssetClass_eq_dec : EqDecision AssetClass.
Proof. solve_decision. Defined.

Definition asset_class_value (a : AssetClass) : string :=
  match a with EQUITY => "equity" | CRYPTO => "crypto" end.

Definition slash : ascii := "/"%char.

Definition has_slash (s : string) : bool := contains_char slash s.

(** [AssetClass.for_symbol]. *)
Definition for_symbol (symbol : string) : AssetClass :=
  if has_slash symbol then CRYPTO else EQUITY.

(** [_normalized_symbol]. *)
Definition normalized_symbol (symbol : string) : outcome string :=
  if blank symbol then Raise (ValueError "symbol must be a nonblank string")
  else Ok (upper (strip symbol)).

(** [_compact_pair]. *)
Definition compact_pair (symbol : string) : option string :=
  if negb (has_slash symbol) then Some symbol
  else
    let parts := split_char slash symbol in
    match parts with
    | [base; quote] =>
        if negb (nonempty base && nonempty quote) || negb (bool_decide (quote = "USD"))
        then None else Some (base +:+ quote)
    | _ => None
    end.

Definition broker_symbol_matches_local (broker_symbol local_symbol : string) : outcome bool :=
  broker ← normalized_symbol broker_symbol;
  local_ ← normalized_symbol local_symbol;
  if decide (broker = local_) then Ok true
  else if negb (has_slash local_) || has_slash broker then Ok false
  else match compact_pair local_ with
       | Some local_compact => Ok (bool_decide (broker = local_compact))
       | None => Ok false
       end.

(** [canonicalize_broker_symbol(symbol, asset_class=..., local_symbol=...)]; the
    text of an absent asset class is [str(None)]. *)
Definition canonicalize_broker_symbol (symbol : string)
    (asset_class local_symbol : option string) : outcome string :=
  normalized ← normalized_symbol symbol;
  match local_symbol with
  | Some l =>
      local_ ← normalized_symbol l;
      m ← broker_symbol_matches_local normalized local_;
      Ok (if m : bool then local_ else normalized)
  | None =>
      let raw_asset_class := default "None" asset_class in
      if negb (bool_decide (lower (strip raw_asset_class) = asset_class_value CRYPTO))
      then Ok normalized
      else if has_slash normalized then
        match compact_pair normalized with
        | None => Raise (ValueError "invalid broker crypto pair")
        | Some _ => Ok normalized
        end
      else if endswith normalized "USD" && (3 <? String.length normalized)%nat then
        Ok (string_take (String.length normalized - 3) normalized +:+ "/USD")
      else Raise (ValueError "unsupported compact broker crypto pair")
  end.

(** * Theory *)

Lemma normalized_symbol_Ok s t :
  normalized_symbol s = Ok t → strip s ≠ EmptyString ∧ t = upper (strip s).
Proof. unfold normalized_symbol, blank. destruct (strip s); simpl; naive_solver. Qed.

Lemma is_space_upper c : is_space (ascii_upper c) = is_space c.
Proof. by destruct c as [[] [] [] [] [] [] [] []]. Qed.

Lemma lstrip_upper s : lstrip (upper s) = upper (lstrip s).
Proof. induction s as [|c s IH]; simpl; [done|]. rewrite is_space_upper. by case_match. Qed.

Lemma rstrip_upper s : rstrip (upper s) = upper (rstrip s).
Proof.
  induction s as [|c s IH]; simpl; [done|]. rewrite IH, is_space_upper.
  destruct (rstrip s); simpl; [by case_match|done].
Qed.

Lemma strip_upper s : strip (upper s) = upper (strip s).
Proof. unfold strip. by rewrite lstrip_upper, rstrip_upper. Qed.

Lemma upper_nonempty s : nonempty (upper s) = nonempty s.
Proof. by destruct s. Qed.

(** A normalized symbol is a fixed point of normalization. *)
Lemma normalized_symbol_idemp s t : normalized_symbol s = Ok t → normalized_symbol t = Ok t.
Proof.
  intros [Hne ->]%normalized_symbol_Ok. unfold normalized_symbol, blank.
  rewrite strip_upper, strip_idemp, upper_idemp, upper_nonempty. by destruct (strip s).
Qed.

(** What a string that normalizes to itself looks like. *)
Lemma normalized_fixed t :
  normalized_symbol t = Ok t → strip t = t ∧ upper t = t ∧ t ≠ EmptyString.
Proof.
  intros [Hne Ht]%normalized_symbol_Ok. rewrite <- strip_upper in Ht.
  assert (strip t = t) as Hs by (rewrite Ht at 1; by rewrite strip_idemp, <- Ht).
  rewrite Hs in Hne. rewrite strip_upper, Hs in Ht. by repeat split.
Qed.

Lemma normalized_fixed_intro t :
  strip t = t → upper t = t → t ≠ EmptyString → normalized_symbol t = Ok t.
Proof.
  intros Hs Hu Hne. unfold normalized_symbol, blank. rewrite Hs, Hu. by destruct t.
Qed.

(** A nonempty prefix of a stripped string followed by [/USD] is stripped. *)
Lemma strip_pair c p : is_space c = false →
  strip (String c p +:+ "/USD") = String c p +:+ "/USD".
Proof.
  intros Hc. unfold strip. rewrite app_string_cons. simpl lstrip. rewrite Hc.
  assert (String c (p +:+ "/USD") = (String c (p +:+ "/US")) +:+ String "D" EmptyString) as ->.
  { rewrite app_string_cons. f_equal. clear. induction p as [|a p IH]; [done|]. rewrite !app_string_cons. by f_equal. }
  by apply rstrip_app_nonspace.
Qed.

Lemma endswith_USD s :
  endswith s "USD" && (3 <? String.length s)%nat = true →
  s = string_take (String.length s - 3) s +:+ "USD".
Proof.
  intros H. apply andb_true_iff in H as [H _]. unfold endswith in H. reflect_bools.
  rewrite <- (string_take_drop (String.length s - 3) s) at 1. by f_equal.
Qed.

Lemma string_take_first n c s : (0 < n)%nat → ∃ p, string_take n (String c s) = String c p.
Proof. destruct n; [lia|]. simpl. eauto. Qed.

(** The compact spelling [prefix USD] is the compact form of [prefix/USD]. *)
Lemma compact_pair_slash p :
  contains_char slash p = false → p ≠ EmptyString →
  compact_pair (p +:+ "/USD") = Some (p +:+ "USD").
Proof.
  intros Hp Hne. unfold compact_pair, has_slash.
  rewrite contains_char_app. rewrite Hp. simpl.
  change "/USD" with (String slash "USD"). rewrite split_char_app by done.
  rewrite split_char_none by done. by destruct p.
Qed.

Lemma upper_string_take n s : upper (string_take n s) = string_take n (upper s).
Proof. revert s. induction n as [|n IH]; intros [|c s]; simpl; try done. by rewrite IH. Qed.

Lemma contains_char_take c n s :
  contains_char c s = false → contains_char c (string_take n s) = false.
Proof.
  revert s. induction n as [|n IH]; intros [|d s]; simpl; try done. case_decide; [done|]. auto.
Qed.

(** The slash form built from a normalized compact spelling. *)
Lemma slash_form_facts s :
  normalized_symbol s = Ok s → has_slash s = false →
  endswith s "USD" && (3 <? String.length s)%nat = true →
  let t := string_take (String.length s - 3) s +:+ "/USD" in
  normalized_symbol t = Ok t ∧ has_slash t = true ∧ compact_pair t = Some s.
Proof.
  intros Hs Hsl He t. apply normalized_fixed in Hs as (Hstrip & Hup & Hne).
  pose proof (endswith_USD s He) as Hsplit. apply andb_true_iff in He as [_ Hlen%Nat.ltb_lt].
  destruct s as [|c s]; [done|].
  assert (is_space c = false) as Hc.
  { unfold strip in Hstrip. destruct (lstrip (String c s)) as [|c' t'] eqn:El; [done|].
    destruct (rstrip_first c' t' (lstrip_first _ _ _ El)) as [r Hr]. rewrite Hr in Hstrip.
    simplify_eq. by apply (lstrip_first _ _ _ El). }
  destruct (string_take_first (String.length (String c s) - 3) c s ltac:(lia)) as [p Hp].
  assert (contains_char slash (String c p) = false) as Hnp
    by (rewrite <- Hp; by apply contains_char_take).
  unfold t. rewrite Hp in *. split; [|split].
  - apply normalized_fixed_intro; [by apply strip_pair| |done].
    rewrite upper_app. f_equal. rewrite <- Hp, upper_string_take. by rewrite Hup.
  - unfold has_slash. rewrite contains_char_app. by rewrite orb_true_r.
  - rewrite compact_pair_slash by done. by rewrite <- Hsplit.
Qed.

Lemma matches_normalized s n t :
  normalized_symbol s = Ok n → normalized_symbol t = Ok t →
  broker_symbol_matches_local s t = broker_symbol_matches_local n t.
Proof.
  intros Hs Ht. unfold broker_symbol_matches_local.
  by rewrite Hs, (normalized_symbol_idemp s n Hs).
Qed.

Lemma matches_self t : normalized_symbol t = Ok t → broker_symbol_matches_local t t = Ok true.
Proof. intros Ht. unfold broker_symbol_matches_local. rewrite Ht. simpl. by rewrite decide_True. Qed.

(** The spelling [canonicalize_broker_symbol] returns, whichever authority
    (asset class or matched local symbol) it used, is one the broker's spelling
    identifies: the reconciliation match accepts the pair. *)
Theorem canonicalize_sound s asset_class local_symbol t :
  canonicalize_broker_symbol s asset_class local_symbol = Ok t →
  broker_symbol_matches_local s t = Ok true.
Proof.
  unfold canonicalize_broker_symbol. rewrite outcome_bind_Ok. intros (n & Hn & H).
  pose proof (normalized_symbol_idemp s n Hn) as Hnn.
  destruct local_symbol as [l|].
  - apply outcome_bind_Ok in H as (lc & Hl & H). apply outcome_bind_Ok in H as (b & Hb & H).
    pose proof (normalized_symbol_idemp l lc Hl). destruct b; simplify_eq.
    + by rewrite (matches_normalized s n).
    + rewrite (matches_normalized s t) by done. by apply matches_self.
  - case_match; simplify_eq.
    { rewrite (matches_normalized s t) by done. by apply matches_self. }
    case_match eqn:Hsl.
    { case_match; simplify_eq. rewrite (matches_normalized s t) by done. by apply matches_self. }
    case_match eqn:He; simplify_eq.
    destruct (slash_form_facts n Hnn Hsl He) as (Ht & Hts & Hcp).
    rewrite (matches_normalized s n _ Hn Ht). unfold broker_symbol_matches_local.
    rewrite Hnn, Ht. cbn [mbind outcome_bind].
    destruct (decide (n = _)); [done|]. rewrite Hts, Hsl, Hcp. simpl.
    by rewrite bool_decide_true.
Qed.

(** Witness for C23: the compact Alpaca spelling of a crypto pair. *)
Lemma canonicalize_sound_witness :
  canonicalize_broker_symbol " btcusd" (Some "crypto") None = Ok "BTC/USD"
  ∧ broker_symbol_matches_local " btcusd" "BTC/USD" = Ok true.
Proof.
  split; [vm_compute; reflexivity|].
  apply (canonicalize_sound " btcusd" (Some "crypto") None). vm_compute. reflexivity.
Defined.
