(* ===== verification/BrokerModels.v ===== *)
(** Broker value types and the arithmetic on them: [broker/models.py].

    Orders, quotes, positions, accounts, order results and the portfolio snapshot
    the risk engine reads, with the fill-quantity canonicalisation used by
    reconciliation.  A field the code tests with [isinstance(x, Decimal)] has type
    [Decimal] here, so that test is the typing of the record. *)

From S2P Require Import Prelude PyDecimal Assets.
From Stdlib Require Import Lia.
Local Open Scope Z_scope.

(** Timestamps are microseconds since the epoch, UTC. *)
Definition time : Type := Z.

(** * Enumerations *)

Inductive OrderSide : Type := BUY | SELL.
Inductive OrderType : Type := MARKET | LIMIT.
Inductive OrderTimeInForce : Type := DAY | GTC.

Inductive BrokerOrderType : Type :=
| BMARKET | BLIMIT | BSTOP | BSTOP_LIMIT | BTRAILING_STOP.

Inductive OrderStatus : Type :=
| PROPOSED | APPROVED | APPROVAL_RECORDED | SUBMITTING | ACCEPTANCE_UNKNOWN
| SUBMITTED | PARTIALLY_FILLED | FILLED | CANCELED | REJECTED | EXPIRED.

Inductive FillQuantityRelation : Type := BEHIND | EXACT | AHEAD.

#[export] Instance OrderSide_eq_dec : EqDecision OrderSide.
Proof. solve_decision. Defined.
#[export] Instance OrderType_eq_dec : EqDecision OrderType.
Proof. solve_decision. Defined.
#[export] Instance OrderTimeInForce_eq_dec : EqDecision OrderTimeInForce.
Proof. solve_decision. Defined.
#[export] Instance BrokerOrderType_eq_dec : EqDecision BrokerOrderType.
Proof. solve_decision. Defined.
#[export] Instance OrderStatus_eq_dec : EqDecision OrderStatus.
Proof. solve_decision. Defined.
#[export] Instance FillQuantityRelation_eq_dec : EqDecision FillQuantityRelation.
Proof. solve_decision. Defined.

Definition order_side_value (s : OrderSide) : string :=
  match s with BUY => "buy" | SELL => "sell" end.

Definition order_type_value (t : OrderType) : string :=
  match t with MARKET => "market" | LIMIT => "limit" end.

Definition order_status_value (s : OrderStatus) : string :=
  match s with
  | PROPOSED => "proposed" | APPROVED => "approved"
  | APPROVAL_RECORDED => "approval_recorded" | SUBMITTING => "submitting"
  | ACCEPTANCE_UNKNOWN => "acceptance_unknown" | SUBMITTED => "submitted"
  | PARTIALLY_FILLED => "partially_filled" | FILLED => "filled"
  | CANCELED => "canceled" | REJECTED => "rejected" | EXPIRED => "expired"
  end.

(** * Fill economics *)

(** Exponent of [FILL_ECONOMIC_QUANTUM], [Decimal("0.000000001")]. *)
Definition FILL_ECONOMIC_EXP : Z := -9.
Definition FILL_ECONOMIC_MAX_EXCLUSIVE : Decimal := of_Z 1000000.

Definition normalize_at_quantum (value : Decimal) : option Decimal :=
  match quantize value FILL_ECONOMIC_EXP with
  | Raise _ => None
  | Ok normalized => if deq normalized value then Some normalized else None
  end.

Definition normalize_cumulative_filled_qty (value : Decimal) : option Decimal :=
  if negb (is_finite value) || dcmp_lt value dzero then None
  else normalize_at_quantum value.

Definition valid_cumulative_filled_qty (value : Decimal) : bool :=
  bool_decide (is_Some (normalize_cumulative_filled_qty value)).

Definition fill_quantity_relation (reported authoritative : Decimal)
    : option FillQuantityRelation :=
  match normalize_cumulative_filled_qty reported,
        normalize_cumulative_filled_qty authoritative with
  | Some r, Some a =>
      if dcmp_lt r a then Some BEHIND
      else if dcmp_lt a r then Some AHEAD
      else Some EXACT
  | _, _ => None
  end.

Definition exact_fill_exceeds_order_quantity (requested_qty : option Decimal)
    (aggregate_exact_qty : Decimal) : bool :=
  match requested_qty with
  | None => false
  | Some q => bool_decide (fill_quantity_relation aggregate_exact_qty q = Some AHEAD)
  end.

Definition normalize_fill_economic (value : Decimal) : option Decimal :=
  if negb (is_finite value) || dcmp_le value dzero
     || dcmp_le FILL_ECONOMIC_MAX_EXCLUSIVE value then None
  else normalize_at_quantum value.

Definition valid_fill_economic (value : Decimal) : bool :=
  bool_decide (is_Some (normalize_fill_economic value)).

(** * Quotes *)

Record Quote : Type := mkQuote {
  q_ticker : string;
  q_bid : Decimal;
  q_ask : Decimal;
  q_last : Decimal;
  q_prev_close : option Decimal;
  q_as_of : option time;
  q_book_as_of : option time;
  q_trade_as_of : option time;
}.

(** Finite and strictly positive: the shape of every price and equity guard. *)
Definition pos_finite (x : Decimal) : bool := is_finite x && dcmp_lt dzero x.

(** [Quote.is_valid]. *)
Definition quote_is_valid (q : Quote) : bool :=
  pos_finite (q_last q) && pos_finite (q_bid q) && pos_finite (q_ask q)
  && dcmp_le (q_bid q) (q_ask q).

(** [Quote.day_change_pct]. *)
Definition day_change_pct (q : Quote) : outcome (option Decimal) :=
  match q_prev_close q with
  | None => Ok None
  | Some p =>
      if deq p dzero then Ok None
      else
        diff ← dsub (q_last q) p;
        ratio ← ddiv diff p;
        Some <$> dmul ratio (of_Z 100)
  end.

(** * Orders *)

Record OrderRequest : Type := mkOrderRequest {
  o_ticker : string;
  o_side : OrderSide;
  o_order_type : OrderType;
  o_idempotency_key : string;
  o_qty : option Decimal;
  o_notional : option Decimal;
  o_limit_price : option Decimal;
  o_time_in_force : OrderTimeInForce;
}.

#[export] Instance OrderRequest_eq_dec : EqDecision OrderRequest.
Proof. solve_decision. Defined.

(** [if x is not None and x <= 0: raise ValueError(msg)]. *)
Definition check_positive (x : option Decimal) (msg : string) : outcome () :=
  match x with
  | None => Ok ()
  | Some d => b ← dle d dzero; if b : bool then Raise (ValueError msg) else Ok ()
  end.

(** [OrderRequest.__post_init__]: construction validates the request. *)
Definition order_request (r : OrderRequest) : outcome OrderRequest :=
  if bool_decide (o_qty r = None) && bool_decide (o_notional r = None)
     || negb (bool_decide (o_qty r = None)) && negb (bool_decide (o_notional r = None))
  then Raise (ValueError "OrderRequest requires exactly one of qty or notional")
  else
    _ ← check_positive (o_qty r) "qty must be positive";
    _ ← check_positive (o_notional r) "notional must be positive";
    match o_order_type r, o_limit_price r with
    | LIMIT, None => Raise (ValueError "limit order requires limit_price")
    | MARKET, Some _ => Raise (ValueError "market order must not carry a limit_price")
    | _, _ => Ok r
    end.

(** [OrderRequest.estimated_notional]. *)
Definition estimated_notional (o : OrderRequest) (reference_price : Decimal) : outcome Decimal :=
  match o_notional o with
  | Some n => Ok n
  | None =>
      match o_qty o with
      | None => Raise AssertionError
      | Some q => dmul q reference_price
      end
  end.

Definition conservative_buy_price (t : OrderType) (limit : option Decimal) (q : Quote)
    : outcome Decimal :=
  match t with
  | LIMIT =>
      match limit with
      | None => Raise (ValueError "quantity limit buy requires a limit price")
      | Some p => Ok p
      end
  | MARKET => dmax (q_ask q) (q_last q)
  end.

(** [OrderRequest.risk_notional]. *)
Definition risk_notional (o : OrderRequest) (q : Quote) : outcome Decimal :=
  match o_notional o with
  | Some n => Ok n
  | None =>
      match o_qty o with
      | None => Raise AssertionError
      | Some n =>
          price ← match o_side o with
                  | BUY => conservative_buy_price (o_order_type o) (o_limit_price o) q
                  | SELL => Ok (q_last q)
                  end;
          dmul n price
      end
  end.

(** * Positions and accounts *)

Record Position : Type := mkPosition {
  p_ticker : string;
  p_qty : Decimal;
  avg_entry_price : Decimal;
  current_price : Decimal;
  unrealized_intraday_pnl : option Decimal;
}.

Definition market_value (p : Position) : outcome Decimal := dmul (p_qty p) (current_price p).

(** [Position.risk_values_valid]. *)
Definition risk_values_valid (p : Position) : bool :=
  nonempty (strip (p_ticker p))
  && is_finite (p_qty p) && negb (deq (p_qty p) dzero)
  && pos_finite (avg_entry_price p) && pos_finite (current_price p).

Record Account : Type := mkAccount {
  a_buying_power : Decimal;
  a_equity : Decimal;
  a_cash : Decimal;
}.

(** [Account.is_valid]. *)
Definition account_is_valid (a : Account) : bool :=
  forallb pos_finite [a_buying_power a; a_equity a; a_cash a].

(** * Broker results *)

Record OrderResult : Type := mkOrderResult {
  r_idempotency_key : string;
  r_broker_order_id : option string;
  r_status : OrderStatus;
  r_filled_qty : Decimal;
  r_avg_fill_price : option Decimal;
  r_submitted_at : time;
  r_ticker : option string;
  r_side : option OrderSide;
  r_order_type : option BrokerOrderType;
  r_limit_price : option Decimal;
  r_requested_qty : option Decimal;
  r_requested_notional : option Decimal;
}.

Definition order_result_identity_error (result : OrderResult) (expected_client_id : string)
    (expected_ticker : option string) : option string :=
  if match r_broker_order_id result with None => true | Some b => blank b end
  then Some "missing broker order identity"
  else if negb (bool_decide (r_idempotency_key result = expected_client_id))
  then Some "broker client identity does not match local idempotency key"
  else match r_ticker result, expected_ticker with
       | Some t, Some e =>
           let ticker_matches :=
             match broker_symbol_matches_local t e with Ok b => b | Raise _ => false end in
           if ticker_matches then None
           else Some "broker ticker identity does not match local order"
       | _, _ => None
       end.

(** * The portfolio snapshot *)

Record PortfolioSnapshot : Type := mkSnapshot {
  positions : dict Position;
  quotes : dict Quote;
  buying_power : Decimal;
  realized_pnl_today : Decimal;
  cash : Decimal;
  unrealized_pnl_today : Decimal;
  daily_pnl_complete : bool;
  account_high_water_mark : Decimal;
  account_equity : Decimal;
  account_complete : bool;
  quote_fresh : bool;
  market_open : bool;
  market_clock_complete : bool;
  spread_pct_by_ticker : dict Decimal;
  pending_buy_notional_by_ticker : dict Decimal;
  reserved_sell_qty_by_ticker : dict Decimal;
  broker_reconciled : bool;
  active_breakers : gset string;
  s_as_of : time;
  (* current value of each read-only holding at another broker *)
  external_positions : dict Decimal;
  pending_signed_notional : dict Decimal;
  pending_exposure_complete : bool;
}.

(** [PortfolioSnapshot._marked_position_value]. *)
Definition marked_position_value (s : PortfolioSnapshot) (ticker : string)
    : outcome (option Decimal) :=
  let symbol := upper ticker in
  match dict_get (positions s) symbol with
  | None => Ok (Some dzero)
  | Some position =>
      match dict_get (quotes s) symbol with
      | None => Ok None
      | Some quote =>
          if negb (quote_is_valid quote) || negb (is_finite (p_qty position)) then Ok None
          else
            value ← dmul (p_qty position) (q_last quote);
            Ok (if is_finite value then Some value else None)
      end
  end.

Definition position_value (s : PortfolioSnapshot) (ticker : string) : outcome (option Decimal) :=
  value ← marked_position_value s ticker;
  Ok (option_map dabs value).

Definition external_position_value (s : PortfolioSnapshot) (ticker : string) : Decimal :=
  match dict_get (external_positions s) (upper ticker) with
  | Some current_value => dabs current_value
  | None => dzero
  end.

(** [None if any(value is None) else sum(abs(value) ...)]. *)
Definition gross_of (values : list (option Decimal)) : outcome (option Decimal) :=
  if existsb (λ v, match v with None => true | _ => false end) values then Ok None
  else Some <$> dsum (map dabs (omap id values)).

Definition gross_exposure (s : PortfolioSnapshot) : outcome (option Decimal) :=
  values ← outcome_mapM (marked_position_value s) (dict_keys (positions s));
  gross_of values.

Definition effective_signed_value (s : PortfolioSnapshot) (ticker : string)
    : outcome (option Decimal) :=
  let symbol := upper ticker in
  held ← marked_position_value s symbol;
  let pending := default dzero (dict_get (pending_signed_notional s) symbol) in
  match held with
  | None => Ok None
  | Some h =>
      if negb (is_finite pending) then Ok None
      else
        value ← dadd h pending;
        Ok (if is_finite value then Some value else None)
  end.

(** The union of the two key sets, in first-occurrence order; Python iterates the
    set in an unspecified order, which only the last rounded digit could see. *)
Definition exposure_symbols (s : PortfolioSnapshot) : list string :=
  dedup (dict_keys (positions s) ++ dict_keys (pending_signed_notional s)).

Definition gross_exposure_with_pending (s : PortfolioSnapshot) : outcome (option Decimal) :=
  values ← outcome_mapM (effective_signed_value s) (exposure_symbols s);
  gross_of values.

(** * Theory *)

Lemma deq_true x y : deq x y = true → is_nan x = false ∧ is_nan y = false ∧ dcmp x y = Eq.
Proof. unfold deq. intros. reflect_bools. by destruct (dcmp x y). Qed.

Lemma normalize_at_quantum_Some v y :
  normalize_at_quantum v = Some y →
  ∃ z, y = Fin z FILL_ECONOMIC_EXP ∧ fits z ∧ dcmp y v = Eq ∧ is_finite v = true.
Proof.
  unfold normalize_at_quantum, quantize. destruct v as [c e| |]; [|by intros ?..].
  set (z := rescale c e FILL_ECONOMIC_EXP).
  destruct (Z.leb_spec (ndigits z) context_prec) as [Hle|]; [|done].
  case_match eqn:He; [|done]. intros; simplify_eq.
  exists z. apply deq_true in He as (_ & _ & He).
  apply ndigits_le_iff in Hle; unfold context_prec in *; [|lia]. by repeat split.
Qed.

(** A value already at the quantum that fits is a fixed point. *)
Lemma normalize_at_quantum_fixed z :
  fits z → normalize_at_quantum (Fin z FILL_ECONOMIC_EXP) = Some (Fin z FILL_ECONOMIC_EXP).
Proof.
  intros Hf. unfold normalize_at_quantum, quantize.
  assert (rescale z FILL_ECONOMIC_EXP FILL_ECONOMIC_EXP = z) as ->.
  { unfold rescale. rewrite Z.leb_refl, Z.sub_diag. lia. }
  assert (ndigits z ≤ context_prec) as Hn
    by (apply ndigits_le_iff; unfold context_prec; [lia|exact Hf]).
  destruct (Z.leb_spec (ndigits z) context_prec); [|lia].
  unfold deq. by rewrite dcmp_same_exp, Z.compare_refl.
Qed.

(** Comparisons only see values: replacing an operand by an equal one is invisible. *)
Lemma dcmp_eq_l x y z :
  is_finite x = true → is_finite y = true → is_finite z = true →
  dcmp x y = Eq → dcmp x z = dcmp y z.
Proof.
  destruct x as [c1 e1| |], y as [c2 e2| |], z as [c3 e3| |]; try done. intros _ _ _.
  set (m := Z.min e1 (Z.min e2 e3)).
  rewrite (dcmp_align c1 e1 c2 e2 m), (dcmp_align c1 e1 c3 e3 m), (dcmp_align c2 e2 c3 e3 m) by lia.
  by intros ->%Z.compare_eq_iff.
Qed.

Lemma dcmp_eq_r x y z :
  is_finite x = true → is_finite y = true → is_finite z = true →
  dcmp x y = Eq → dcmp z x = dcmp z y.
Proof.
  intros. rewrite (dcmp_antisym x z), (dcmp_antisym y z). f_equal. by apply dcmp_eq_l.
Qed.

Lemma normalize_cumulative_Some v y :
  normalize_cumulative_filled_qty v = Some y →
  ∃ z, y = Fin z FILL_ECONOMIC_EXP ∧ 0 ≤ z ∧ fits z ∧ dcmp y v = Eq ∧ is_finite v = true.
Proof.
  unfold normalize_cumulative_filled_qty. case_match eqn:Hg; [done|]. intros Hn.
  apply normalize_at_quantum_Some in Hn as (z & -> & Hf & Heq & Hfin).
  exists z. repeat split; try done. reflect_bools.
  match goal with H : dcmp_lt v dzero = false |- _ => rename H into Hneg end.
  assert (dcmp_lt (Fin z FILL_ECONOMIC_EXP) dzero = false) as Hz
    by (unfold dcmp_lt in *; by rewrite (dcmp_eq_l _ v)).
  apply (dcmp_lt_false _ _ _ _ FILL_ECONOMIC_EXP) in Hz; unfold FILL_ECONOMIC_EXP in *; lia.
Qed.

(** An accepted fill quantity or price is stored at exactly nine decimal
    places with at most fifteen significant digits, is numerically the value
    reported, and normalizing it again changes nothing. *)
Theorem normalize_fill_economic_canonical v y :
  normalize_fill_economic v = Some y →
  (∃ z, y = Fin z FILL_ECONOMIC_EXP ∧ 0 < z < 10 ^ 15)
  ∧ deq y v = true ∧ normalize_fill_economic y = Some y.
Proof.
  unfold normalize_fill_economic at 1. case_match eqn:Hg; [done|]. intros Hn.
  apply normalize_at_quantum_Some in Hn as (z & -> & Hf & Heq & Hfin).
  reflect_bools. set (y := Fin z FILL_ECONOMIC_EXP) in *.
  assert (dcmp_le y dzero = false) as Hlo.
  { unfold dcmp_le in *. by rewrite (dcmp_eq_l y v). }
  assert (dcmp_le FILL_ECONOMIC_MAX_EXCLUSIVE y = false) as Hhi.
  { unfold dcmp_le in *. by rewrite (dcmp_eq_r y v). }
  split; [exists z; split; [done|]|split].
  - apply (dcmp_le_false _ _ _ _ FILL_ECONOMIC_EXP) in Hlo; [|unfold FILL_ECONOMIC_EXP; lia..].
    apply (dcmp_le_false _ _ _ _ FILL_ECONOMIC_EXP) in Hhi; [|unfold FILL_ECONOMIC_EXP; lia..].
    unfold FILL_ECONOMIC_EXP in *. lia.
  - unfold deq. rewrite Heq. by destruct v.
  - unfold normalize_fill_economic. rewrite Hlo, Hhi. simpl. by apply normalize_at_quantum_fixed.
Qed.

(** Witness for C20: a fractional crypto quantity. *)
Lemma normalize_fill_economic_canonical_witness :
  normalize_fill_economic (Fin 15 (-2)) = Some (Fin 150000000 (-9)) ∧
  deq (Fin 150000000 (-9)) (Fin 15 (-2)) = true.
Proof.
  split; [vm_compute; reflexivity|].
  apply (normalize_fill_economic_canonical (Fin 15 (-2))). vm_compute. reflexivity.
Defined.

(** * The statuses an adapter reports *)

(** [_STATUS_MAP] and [_map_status] of [broker/alpaca.py]; an unknown text counts as submitted. *)
Definition STATUS_MAP : dict OrderStatus :=
  [("new", SUBMITTED); ("accepted", SUBMITTED); ("pending_new", SUBMITTED); ("accepted_for_bidding", SUBMITTED);
   ("partially_filled", PARTIALLY_FILLED); ("filled", FILLED); ("done_for_day", SUBMITTED); ("canceled", CANCELED);
   ("pending_cancel", SUBMITTED); ("expired", EXPIRED); ("rejected", REJECTED); ("suspended", SUBMITTED)].

Definition map_status (raw : string) : OrderStatus := default SUBMITTED (dict_get STATUS_MAP raw).

Definition REPORTED_STATUSES : list OrderStatus := [SUBMITTED; PARTIALLY_FILLED; FILLED; REJECTED; CANCELED; EXPIRED].

Lemma map_status_reported raw : map_status raw ∈ REPORTED_STATUSES.
Proof.
  unfold map_status. destruct (dict_get STATUS_MAP raw) as [s|] eqn:Hs; [|by left]. apply dict_get_Some_elem in Hs.
  unfold STATUS_MAP, REPORTED_STATUSES in *. rewrite !elem_of_cons, elem_of_nil in Hs. rewrite !elem_of_cons.
  destruct_or! Hs; try done; injection Hs as _ ->; auto 10.
Qed.

Lemma reported_mapped s : s ∈ REPORTED_STATUSES → ∃ raw, s = map_status raw.
Proof.
  unfold REPORTED_STATUSES. rewrite !elem_of_cons, elem_of_nil. intros Hs. destruct_or! Hs; try done; subst s;
    [by exists "new"|by exists "partially_filled"|by exists "filled"|by exists "rejected"|by exists "canceled"|by exists "expired"].
Qed.

(** The reported/authoritative relation is decided without tolerance:
    it exists exactly when both quantities are canonical, and then it is the
    exact order of the two values. *)
Theorem fill_quantity_relation_exact reported authoritative rel :
  fill_quantity_relation reported authoritative = Some rel ↔
  valid_cumulative_filled_qty reported = true ∧
  valid_cumulative_filled_qty authoritative = true ∧
  rel = match dcmp reported authoritative with Lt => BEHIND | Eq => EXACT | Gt => AHEAD end.
Proof.
  unfold fill_quantity_relation, valid_cumulative_filled_qty. rewrite !bool_decide_eq_true.
  destruct (normalize_cumulative_filled_qty reported) as [r|] eqn:Hr; [|naive_solver].
  destruct (normalize_cumulative_filled_qty authoritative) as [a|] eqn:Ha; [|naive_solver].
  apply normalize_cumulative_Some in Hr as (zr & -> & _ & _ & Hreq & Hrf).
  apply normalize_cumulative_Some in Ha as (za & -> & _ & _ & Haeq & Haf).
  rewrite <- (dcmp_eq_l (Fin zr FILL_ECONOMIC_EXP) reported authoritative) by done.
  rewrite <- (dcmp_eq_r (Fin za FILL_ECONOMIC_EXP) authoritative (Fin zr _)) by done.
  unfold dcmp_lt. rewrite (dcmp_antisym (Fin zr FILL_ECONOMIC_EXP) (Fin za _)).
  destruct (dcmp (Fin zr FILL_ECONOMIC_EXP) (Fin za FILL_ECONOMIC_EXP)); simpl; naive_solver.
Qed.
