(* ===== verification/Breakers.v ===== *)
(** Typed circuit-breaker scopes and their canonical keys: the pure part of
    [risk/breakers.py].  The durable rows are in [BreakerStore]. *)

From S2P Require Import Prelude Assets.
From Stdlib Require Import Ascii.

Inductive BreakerKind : Type :=
| LOSS | DRAWDOWN | DATA | LIQUIDITY | BROKER_DRIFT | OPERATOR_GLOBAL.

#[export] Instance BreakerKind_eq_dec : EqDecision BreakerKind.
Proof. solve_decision. Defined.

Definition breaker_kind_value (k : BreakerKind) : string :=
  match k with
  | LOSS => "loss" | DRAWDOWN => "drawdown" | DATA => "data"
  | LIQUIDITY => "liquidity" | BROKER_DRIFT => "broker_drift"
  | OPERATOR_GLOBAL => "operator_global"
  end.

(** [BreakerKind(text)]. *)
Definition breaker_kind_of (text : string) : option BreakerKind :=
  list_find (λ k, breaker_kind_value k = text)
    [LOSS; DRAWDOWN; DATA; LIQUIDITY; BROKER_DRIFT; OPERATOR_GLOBAL] ≫= λ p, Some p.2.

Record BreakerScope : Type := mkScope { kind : BreakerKind; target : string }.

#[export] Instance BreakerScope_eq_dec : EqDecision BreakerScope.
Proof. solve_decision. Defined.

Definition colon : ascii := ":"%char.

(** [BreakerScope.key]. *)
Definition scope_key (s : BreakerScope) : string :=
  if nonempty (target s)
  then breaker_kind_value (kind s) +:+ String colon (target s)
  else breaker_kind_value (kind s).

Definition scope_data (a : AssetClass) : BreakerScope := mkScope DATA (asset_class_value a).
Definition scope_loss (a : AssetClass) : BreakerScope := mkScope LOSS (asset_class_value a).
Definition scope_drawdown (a : AssetClass) : BreakerScope := mkScope DRAWDOWN (asset_class_value a).
Definition scope_liquidity (t : string) : BreakerScope := mkScope LIQUIDITY (upper t).
Definition scope_broker_drift : BreakerScope := mkScope BROKER_DRIFT EmptyString.
Definition scope_operator_global : BreakerScope := mkScope OPERATOR_GLOBAL EmptyString.

(** The character classes of [[A-Z0-9][A-Z0-9./_-]{0,31}]. *)
Definition symbol_head_char (c : ascii) : bool :=
  let n := nat_of_ascii c in bool_decide (65 ≤ n ≤ 90) || bool_decide (48 ≤ n ≤ 57).

Definition symbol_tail_char (c : ascii) : bool :=
  symbol_head_char c || bool_decide (c ∈ ["."; "/"; "_"; "-"]%char).

Fixpoint string_forall (f : ascii → bool) (s : string) : bool :=
  match s with EmptyString => true | String c s' => f c && string_forall f s' end.

(** [re.fullmatch] of that pattern. *)
Definition symbol_fullmatch (t : string) : bool :=
  match t with
  | EmptyString => false
  | String c s => symbol_head_char c && string_forall symbol_tail_char s
                  && (String.length s <=? 31)%nat
  end.

Definition canonical_key_error : exn := ValueError "breaker scope must be a canonical key".

(** [BreakerScope.parse]. *)
Definition scope_parse (value : string) : outcome BreakerScope :=
  if negb (nonempty value) || negb (bool_decide (value = strip value))
  then Raise canonical_key_error
  else if bool_decide (value = breaker_kind_value BROKER_DRIFT)
  then Ok scope_broker_drift
  else if bool_decide (value = breaker_kind_value OPERATOR_GLOBAL)
  then Ok scope_operator_global
  else
    let '(kind_text, separator, target) := partition_char colon value in
    if negb separator || negb (nonempty target) || contains_char colon target
    then Raise canonical_key_error
    else
      match breaker_kind_of kind_text with
      | None => Raise canonical_key_error
      | Some k =>
          _ ← match k with
              | DATA | LOSS | DRAWDOWN =>
                  if bool_decide (target = asset_class_value EQUITY)
                     || bool_decide (target = asset_class_value CRYPTO)
                  then Ok ()
                  else Raise (ValueError "breaker scope must target an asset class")
              | LIQUIDITY =>
                  if negb (bool_decide (target = upper target)) || negb (symbol_fullmatch target)
                  then Raise (ValueError "breaker scope must target a canonical symbol")
                  else Ok ()
              | _ => Raise canonical_key_error
              end;
          let scope := mkScope k target in
          if negb (bool_decide (scope_key scope = value)) then Raise canonical_key_error
          else Ok scope
      end.

Definition relevant_scopes_for_symbol (symbol : string) : list BreakerScope :=
  let asset_class := for_symbol symbol in
  [ scope_operator_global; scope_broker_drift; scope_data asset_class;
    scope_loss asset_class; scope_drawdown asset_class; scope_liquidity symbol ].

(** * Theory *)

(** The scopes that have a canonical key. *)
Definition canonical_scope (s : BreakerScope) : bool :=
  match kind s with
  | DATA | LOSS | DRAWDOWN =>
      bool_decide (target s = asset_class_value EQUITY)
      || bool_decide (target s = asset_class_value CRYPTO)
  | LIQUIDITY => bool_decide (target s = upper (target s)) && symbol_fullmatch (target s)
  | BROKER_DRIFT | OPERATOR_GLOBAL => bool_decide (target s = EmptyString)
  end.

Lemma partition_char_app c s t :
  contains_char c s = false → partition_char c (s +:+ String c t) = (s, true, t).
Proof.
  induction s as [|d s IH]; intros Hs.
  - simpl. by rewrite decide_True.
  - rewrite app_string_cons. simpl in *. destruct (decide (c = d)); [done|]. by rewrite IH.
Qed.

Lemma string_forall_contains f c s :
  f c = false → string_forall f s = true → contains_char c s = false.
Proof.
  intros Hf. induction s as [|d s IH]; simpl; [done|]. intros. reflect_bools.
  destruct (decide (c = d)); [congruence|auto].
Qed.

Lemma symbol_tail_not_space c : symbol_tail_char c = true → is_space c = false.
Proof. by destruct c as [[] [] [] [] [] [] [] []]. Qed.

Lemma rstrip_forall f s :
  (∀ c, f c = true → is_space c = false) → string_forall f s = true → rstrip s = s.
Proof.
  intros Hf. induction s as [|c s IH]; simpl; [done|]. intros. reflect_bools.
  rewrite IH by done. destruct s; [by rewrite Hf|done].
Qed.

Lemma symbol_fullmatch_forall t :
  symbol_fullmatch t = true → t ≠ EmptyString ∧ string_forall symbol_tail_char t = true.
Proof.
  destruct t as [|c t]; [done|]. simpl. intros. reflect_bools. split; [done|].
  unfold symbol_tail_char at 1. by match goal with H : symbol_head_char c = true |- _ => rewrite H end.
Qed.

Lemma rstrip_app_nonempty s t :
  rstrip t = t → t ≠ EmptyString → rstrip (s +:+ t) = s +:+ t.
Proof.
  intros Ht Hne. induction s as [|c s IH]; [done|]. rewrite app_string_cons. simpl.
  rewrite IH. destruct s; [by destruct t|done].
Qed.

Lemma liquidity_key_strip t :
  symbol_fullmatch t = true → strip ("liquidity:" +:+ t) = "liquidity:" +:+ t.
Proof.
  intros [Hne Hall]%symbol_fullmatch_forall. unfold strip.
  assert (lstrip ("liquidity:" +:+ t) = "liquidity:" +:+ t) as -> by done.
  apply rstrip_app_nonempty; [|done].
  exact (rstrip_forall _ _ symbol_tail_not_space Hall).
Qed.

(** A canonical scope parses back from its key. *)
Lemma scope_parse_key s : canonical_scope s = true → scope_parse (scope_key s) = Ok s.
Proof.
  destruct s as [k t]. unfold canonical_scope; simpl.
  destruct k; intros H; reflect_bools; simplify_eq/=;
    try (apply orb_true_iff in H as [H|H]; reflect_bools; subst; vm_compute; reflexivity);
    try (vm_compute; reflexivity).
  (* the liquidity scope of a symbol *)
  rename H into Hup, H0 into Hm. destruct (symbol_fullmatch_forall t Hm) as [Hne Hall].
  unfold scope_key. simpl. assert (nonempty t = true) as Hnt by by destruct t.
  rewrite Hnt. change ("liquidity" +:+ String colon t) with ("liquidity:" +:+ t).
  unfold scope_parse. rewrite (bool_decide_true _ (eq_sym (liquidity_key_strip t Hm))).
  rewrite (bool_decide_false (_ = breaker_kind_value BROKER_DRIFT)) by done.
  rewrite (bool_decide_false (_ = breaker_kind_value OPERATOR_GLOBAL)) by done.
  change ("liquidity:" +:+ t) with ("liquidity" +:+ String colon t).
  rewrite partition_char_app by done. rewrite Hnt.
  rewrite (string_forall_contains symbol_tail_char) by done. simpl.
  rewrite (bool_decide_true _ Hup), Hm. simpl. unfold scope_key. simpl. rewrite Hnt.
  by rewrite bool_decide_true.
Qed.

(** What parses is canonical and prints back to the text parsed. *)
Lemma scope_parse_inv v s :
  scope_parse v = Ok s → scope_key s = v ∧ canonical_scope s = true.
Proof.
  unfold scope_parse. case_match; [done|].
  case_match; reflect_bools; [intros; by simplify_eq|].
  case_match; reflect_bools; [intros; by simplify_eq|].
  destruct (partition_char colon v) as [[kt sep] tgt].
  case_match eqn:Hg; [done|]. case_match eqn:Hk; [|done].
  rewrite outcome_bind_Ok. intros ([] & Hchk & Hend).
  case_match; [done|]. reflect_bools. simplify_eq. split; [done|].
  unfold canonical_scope; simpl. destruct b; try done; case_match eqn:Hc; try done.
  reflect_bools. apply andb_true_iff. split; [by apply bool_decide_eq_true|done].
Qed.

(** [BreakerScope.parse] accepts exactly the canonical keys: a text parses
    to a scope if and only if it is that scope's key and the scope is canonical,
    so printing and parsing are inverse and no two scopes share a key. *)
Theorem scope_parse_iff v s :
  scope_parse v = Ok s ↔ v = scope_key s ∧ canonical_scope s = true.
Proof.
  split.
  - intros [<- ?]%scope_parse_inv. done.
  - intros [-> ?]. by apply scope_parse_key.
Qed.

Lemma scope_key_inj s1 s2 :
  canonical_scope s1 = true → canonical_scope s2 = true → scope_key s1 = scope_key s2 → s1 = s2.
Proof.
  intros H1 H2 Hk. apply scope_parse_key in H1, H2. rewrite Hk in H1. congruence.
Qed.
