(* ===== verification/RiskRules.v ===== *)
(** One deterministic function per risk limit: [risk/rules.py], with the
    configuration record of [config.py].

    A limit is configured as a float and used as [Decimal(str(value))]; the record
    holds that decimal.  A rule returns [None] when the order passes, or the
    reason text, and may raise where the decimal arithmetic does. *)

From S2P Require Import Prelude PyDecimal Assets BrokerModels.
Local Open Scope Z_scope.

Record RiskConfig : Type := mkRiskConfig {
  ticker_allowlist : list string;
  max_notional_per_order : Decimal;
  max_position_per_ticker : Decimal;
  max_portfolio_exposure : Decimal;
  daily_realized_loss_limit : Decimal;
  price_sanity_pct : Decimal;
  reject_when_market_closed : bool;
  proposal_ttl_minutes : Z;
  warn_on_cross_broker_concentration : bool;
  per_trade_risk_pct : Decimal;
  max_quote_age_seconds : Decimal;
  max_spread_pct : Decimal;
  max_daily_total_loss : Decimal;
  max_account_drawdown_pct : Decimal;
  require_broker_reconciled : bool;
}.

(** [_reference_quote]. *)
Definition reference_quote (o : OrderRequest) (s : PortfolioSnapshot) : option Quote :=
  dict_get (quotes s) (upper (o_ticker o)).

(** [_ticker_values]: the current and the projected absolute exposure in the
    order's ticker. *)
Definition ticker_values (o : OrderRequest) (s : PortfolioSnapshot) (q : Quote)
    : outcome (option (Decimal * Decimal)) :=
  current ← effective_signed_value s (upper (o_ticker o));
  match current with
  | None => Ok None
  | Some current_value =>
      order_value ← risk_notional o q;
      let signed_order_value :=
        match o_side o with BUY => order_value | SELL => dneg order_value end in
      projected ← dadd current_value signed_order_value;
      Ok (Some (dabs current_value, dabs projected))
  end.

Definition check_allowlist (o : OrderRequest) (cfg : RiskConfig) : option string :=
  if bool_decide (upper (o_ticker o) ∈ ticker_allowlist cfg) then None
  else Some (upper (o_ticker o) +:+ " is not on the ticker allowlist").

Definition check_pending_exposure_known (s : PortfolioSnapshot) : option string :=
  if pending_exposure_complete s then None
  else Some "outstanding order exposure is unknown; new orders are blocked".

Definition check_max_notional (o : OrderRequest) (s : PortfolioSnapshot) (cfg : RiskConfig)
    : outcome (option string) :=
  match reference_quote o s with
  | None => Ok (Some ("no quote available for " +:+ upper (o_ticker o) +:+ "; cannot size order"))
  | Some q =>
      n ← risk_notional o q;
      let limit := max_notional_per_order cfg in
      over ← dgt n limit;
      Ok (if over : bool
          then Some ("order notional $" +:+ fmt2 n +:+ " exceeds max $" +:+ fmt2 limit
                     +:+ " per order")
          else None)
  end.

Definition check_max_position (o : OrderRequest) (s : PortfolioSnapshot) (cfg : RiskConfig)
    : outcome (option string) :=
  match reference_quote o s with
  | None => Ok (Some ("no quote available for " +:+ upper (o_ticker o)
                      +:+ "; cannot size position"))
  | Some q =>
      values ← ticker_values o s q;
      match values with
      | None => Ok (Some "position exposure snapshot is incomplete")
      | Some (_, projected_value) =>
          let limit := max_position_per_ticker cfg in
          over ← dgt projected_value limit;
          Ok (if over : bool
              then Some ("projected " +:+ upper (o_ticker o) +:+ " position $"
                         +:+ fmt2 projected_value +:+ " exceeds max $" +:+ fmt2 limit
                         +:+ " per ticker")
              else None)
      end
  end.

Definition check_portfolio_exposure (o : OrderRequest) (s : PortfolioSnapshot) (cfg : RiskConfig)
    : outcome (option string) :=
  match reference_quote o s with
  | None => Ok (Some ("no quote available for " +:+ upper (o_ticker o)
                      +:+ "; cannot size exposure"))
  | Some q =>
      values ← ticker_values o s q;
      gross ← gross_exposure_with_pending s;
      match values, gross with
      | Some (current_ticker_value, projected_ticker_value), Some gross_exposure =>
          rest ← dsub gross_exposure current_ticker_value;
          projected_gross ← dadd rest projected_ticker_value;
          let limit := max_portfolio_exposure cfg in
          over ← dgt projected_gross limit;
          Ok (if over : bool
              then Some ("projected portfolio exposure $" +:+ fmt2 projected_gross
                         +:+ " exceeds max $" +:+ fmt2 limit)
              else None)
      | _, _ => Ok (Some "portfolio exposure snapshot is incomplete")
      end
  end.

(** [abs(limit_price - price) / price * 100]. *)
Definition deviation_pct (limit_price price : Decimal) : outcome Decimal :=
  diff ← dsub limit_price price;
  ratio ← ddiv (dabs diff) price;
  dmul ratio (of_Z 100).

Definition check_price_sanity (o : OrderRequest) (s : PortfolioSnapshot) (cfg : RiskConfig)
    : outcome (option string) :=
  match o_order_type o, o_limit_price o with
  | LIMIT, Some limit_price =>
      match reference_quote o s with
      | None => Ok (Some ("no quote available for " +:+ upper (o_ticker o)
                          +:+ "; cannot sanity-check price"))
      | Some q =>
          let price := q_last q in
          if deq price dzero
          then Ok (Some ("reference price for " +:+ upper (o_ticker o) +:+ " is zero"))
          else
            deviation ← deviation_pct limit_price price;
            let limit := price_sanity_pct cfg in
            over ← dgt deviation limit;
            Ok (if over : bool
                then Some ("limit price $" +:+ fmt2 limit_price +:+ " deviates "
                           +:+ fmt2 deviation +:+ "% from last $" +:+ fmt2 price
                           +:+ " (max " +:+ fmt2 limit +:+ "%)")
                else None)
      end
  | _, _ => Ok None
  end.

Definition check_market_hours (o : OrderRequest) (cfg : RiskConfig) (is_open : bool)
    : option string :=
  if negb is_open && reject_when_market_closed cfg
  then Some "market is closed; order rejected (queueing not requested)"
  else None.

Definition check_cross_broker_concentration (o : OrderRequest) (s : PortfolioSnapshot)
    (cfg : RiskConfig) : outcome (option string) :=
  match reference_quote o s with
  | None => Ok None
  | Some q =>
      values ← ticker_values o s q;
      match values with
      | None => Ok None
      | Some (_, projected_alpaca) =>
          let external := external_position_value s (upper (o_ticker o)) in
          combined ← dadd projected_alpaca external;
          let limit := max_position_per_ticker cfg in
          held_elsewhere ← dgt external dzero;
          over ← (if held_elsewhere : bool then dgt combined limit else Ok false);
          Ok (if over : bool
              then Some ("cross-broker concentration: combined " +:+ upper (o_ticker o)
                         +:+ " exposure $" +:+ fmt2 combined +:+ " (Alpaca $"
                         +:+ fmt2 projected_alpaca +:+ " + external $" +:+ fmt2 external
                         +:+ ") exceeds $" +:+ fmt2 limit
                         +:+ " — not blocked, external holdings are read-only")
              else None)
      end
  end.

(** * What passing each rule means *)

Lemma check_allowlist_pass o cfg :
  check_allowlist o cfg = None ↔ upper (o_ticker o) ∈ ticker_allowlist cfg.
Proof. unfold check_allowlist. case_bool_decide; naive_solver. Qed.

Lemma check_max_notional_pass o s cfg :
  check_max_notional o s cfg = Ok None ↔
  ∃ q n, reference_quote o s = Some q ∧ risk_notional o q = Ok n
         ∧ dgt n (max_notional_per_order cfg) = Ok false.
Proof.
  unfold check_max_notional. destruct (reference_quote o s) as [q|]; [|naive_solver].
  rewrite outcome_bind_Ok. setoid_rewrite outcome_bind_Ok. split.
  - intros (n & Hn & [] & Hb & ?); naive_solver.
  - intros (q' & n & [= <-] & Hn & Hb). naive_solver.
Qed.

Lemma check_max_position_pass o s cfg :
  check_max_position o s cfg = Ok None ↔
  ∃ q c p, reference_quote o s = Some q ∧ ticker_values o s q = Ok (Some (c, p))
           ∧ dgt p (max_position_per_ticker cfg) = Ok false.
Proof.
  unfold check_max_position. destruct (reference_quote o s) as [q|]; [|naive_solver].
  rewrite outcome_bind_Ok. split.
  - intros ([[c p]|] & Hv & H); [|done]. apply outcome_bind_Ok in H as ([] & Hb & ?); naive_solver.
  - intros (q' & c & p & [= <-] & Hv & Hb). exists (Some (c, p)). by rewrite Hb.
Qed.

Lemma check_portfolio_exposure_pass o s cfg :
  check_portfolio_exposure o s cfg = Ok None ↔
  ∃ q c p g rest total,
    reference_quote o s = Some q ∧ ticker_values o s q = Ok (Some (c, p))
    ∧ gross_exposure_with_pending s = Ok (Some g)
    ∧ dsub g c = Ok rest ∧ dadd rest p = Ok total
    ∧ dgt total (max_portfolio_exposure cfg) = Ok false.
Proof.
  unfold check_portfolio_exposure. destruct (reference_quote o s) as [q|]; [|naive_solver].
  split.
  - intros ([[c p]|] & Hv & H)%outcome_bind_Ok; apply outcome_bind_Ok in H as ([g|] & Hg & H); try done.
    apply outcome_bind_Ok in H as (rest & Hr & H). apply outcome_bind_Ok in H as (t & Ht & H).
    apply outcome_bind_Ok in H as ([] & Hb & ?); naive_solver.
  - intros (q' & c & p & g & rest & t & [= <-] & Hv & Hg & Hr & Ht & Hb).
    rewrite Hv, Hg. simpl. rewrite Hr. simpl. rewrite Ht. simpl. by rewrite Hb.
Qed.

Lemma check_price_sanity_pass o s cfg :
  check_price_sanity o s cfg = Ok None ↔
  ∀ limit_price, o_order_type o = LIMIT → o_limit_price o = Some limit_price →
    ∃ q d, reference_quote o s = Some q ∧ deq (q_last q) dzero = false
           ∧ deviation_pct limit_price (q_last q) = Ok d
           ∧ dgt d (price_sanity_pct cfg) = Ok false.
Proof.
  unfold check_price_sanity.
  destruct (o_order_type o), (o_limit_price o) as [lp|]; try (split; [by intros|done]).
  destruct (reference_quote o s) as [q|];
    [|split; [done|intros H; by destruct (H lp) as (? & ? & ? & _)]].
  destruct (deq (q_last q) dzero) eqn:Hz.
  { split; [done|]. intros H. destruct (H lp) as (q' & d & [= <-] & ? & _); congruence. }
  split.
  - intros (d & Hd & H)%outcome_bind_Ok lp' _ [= <-].
    apply outcome_bind_Ok in H as ([] & Hb & ?); naive_solver.
  - intros H. destruct (H lp) as (q' & d & [= <-] & _ & Hd & Hb); [done..|].
    by rewrite Hd; simpl; rewrite Hb.
Qed.

#[export] Hint Rewrite check_allowlist_pass check_max_notional_pass check_max_position_pass
  check_portfolio_exposure_pass check_price_sanity_pass : trading.
