(* ===== verification/RiskEngine.v ===== *)
(** The final authority on every order: [RiskEngine.check] of [risk/engine.py].

    [check] is the whole method; its stages are definitions of their own, in the
    order of the source.  [admissible] states independently, as a conjunction of
    facts about the order, the snapshot and the configuration, what an order must
    satisfy, and the main theorem shows [check] approves exactly those orders. *)

From S2P Require Import Prelude PyDecimal Assets BrokerModels Breakers RiskRules.
Local Open Scope Z_scope.

Record BreakerTripIntent : Type := mkIntent { i_scope : BreakerScope; i_reason : string }.

Record RiskResult : Type := mkRiskResult {
  approved : bool;
  reasons : list string;
  warnings : list string;
  breaker_trips : list BreakerTripIntent;
  bypassed_breakers : list string;
}.

Definition rejected (r : RiskResult) : bool := negb (approved r).
Definition reason_text (r : RiskResult) : string := join "; " (reasons r).

(** * Stages of the check *)

(** The position quantity, zero when the position is absent or not finite. *)
Definition position_quantity (s : PortfolioSnapshot) (symbol : string) : Decimal :=
  match dict_get (positions s) symbol with
  | Some p => if is_finite (p_qty p) then p_qty p else dzero
  | None => dzero
  end.

Definition reserved_sell_qty (s : PortfolioSnapshot) (symbol : string) : Decimal :=
  default dzero (dict_get (reserved_sell_qty_by_ticker s) symbol).

(** [order.notional / quote.last] for an order without a quantity. *)
Definition notional_quantity (o : OrderRequest) (q : Quote) : outcome Decimal :=
  match o_notional o with
  | Some n => ddiv n (q_last q)
  | None => Raise (TypeError "unsupported operand type(s) for /")
  end.

Definition requested_sell_qty (o : OrderRequest) (quote : option Quote) : outcome Decimal :=
  match o_qty o with
  | Some n => Ok n
  | None =>
      match quote with
      | Some q => if quote_is_valid q then notional_quantity o q else Ok (Inf false)
      | None => Ok (Inf false)
      end
  end.

Definition reserved_cover_qty (s : PortfolioSnapshot) (symbol : string) (quote : option Quote)
    : outcome Decimal :=
  match quote with
  | Some q =>
      if quote_is_valid q
      then ddiv (default dzero (dict_get (pending_buy_notional_by_ticker s) symbol)) (q_last q)
      else Ok dzero
  | None => Ok dzero
  end.

Definition available_reduce_qty (o : OrderRequest) (s : PortfolioSnapshot) (symbol : string)
    (held cover : Decimal) : outcome Decimal :=
  match o_side o with
  | SELL => free ← dsub held (reserved_sell_qty s symbol); dmax free dzero
  | BUY => free ← dsub (dneg (position_quantity s symbol)) cover; dmax free dzero
  end.

Definition strictly_reduce_only (s : PortfolioSnapshot) (requested available : Decimal)
    : outcome bool :=
  if broker_reconciled s && pending_exposure_complete s then
    positive ← dgt requested dzero;
    if positive : bool then dle requested available else Ok false
  else Ok false.

Definition market_hours_reason (o : OrderRequest) (s : PortfolioSnapshot) (cfg : RiskConfig)
    : option string :=
  if negb (market_clock_complete s) then Some "market clock snapshot is incomplete"
  else check_market_hours o cfg (market_open s).

(** The list [base_checks], with its passing entries dropped. *)
Definition base_checks (o : OrderRequest) (s : PortfolioSnapshot) (cfg : RiskConfig)
    : outcome (list string) :=
  notional_reason ← check_max_notional o s cfg;
  position_reason ← check_max_position o s cfg;
  exposure_reason ← check_portfolio_exposure o s cfg;
  price_reason ← check_price_sanity o s cfg;
  Ok (omap id [ check_allowlist o cfg; check_pending_exposure_known s;
                market_hours_reason o s cfg; notional_reason; position_reason;
                exposure_reason; price_reason ]).

Definition stale_stage (s : PortfolioSnapshot) (symbol : string)
    : list string * list BreakerTripIntent :=
  if quote_fresh s then ([], [])
  else (["quote is stale"], [mkIntent (scope_data (for_symbol symbol)) "quote is stale"]).

(** Breakers a freshly proven reduce-only order may pass. *)
Definition bypassable_breakers (strict : bool) (symbol : string) : gset string :=
  if strict then
    list_to_set [ scope_key scope_operator_global; scope_key (scope_loss (for_symbol symbol));
                  scope_key (scope_drawdown (for_symbol symbol)) ]
  else ∅.

Definition blocking_breakers (s : PortfolioSnapshot) (strict : bool) (symbol : string)
    : gset string :=
  active_breakers s ∖ (active_breakers s ∩ bypassable_breakers strict symbol).

Definition breaker_stage (s : PortfolioSnapshot) (strict : bool) (symbol : string) : list string :=
  let blocking := blocking_breakers s strict symbol in
  if bool_decide (blocking = ∅) then []
  else ["active circuit breaker: " +:+ join "," (sorted_strings (elements blocking))].

Definition reconciled_stage (s : PortfolioSnapshot) (cfg : RiskConfig) : list string :=
  if require_broker_reconciled cfg && negb (broker_reconciled s)
  then ["broker reconciliation is not current"] else [].

Definition account_usable (s : PortfolioSnapshot) : bool :=
  account_complete s
  && forallb pos_finite
       [buying_power s; cash s; account_equity s; account_high_water_mark s].

Definition account_stage (s : PortfolioSnapshot) : list string :=
  if account_usable s then [] else ["account snapshot is incomplete"].

Definition pnl_is_finite (s : PortfolioSnapshot) : bool :=
  is_finite (realized_pnl_today s) && is_finite (unrealized_pnl_today s).

Definition pnl_stage (s : PortfolioSnapshot) : list string :=
  if negb (daily_pnl_complete s) || negb (pnl_is_finite s)
  then ["daily P&L snapshot is incomplete"] else [].

(** Buying power left after every pending buy reservation. *)
Definition available_buying_power (s : PortfolioSnapshot) : outcome Decimal :=
  clipped ← outcome_mapM (λ n, dmax n dzero) (dict_values (pending_buy_notional_by_ticker s));
  reserved ← dsum clipped;
  free ← dsub (buying_power s) reserved;
  dmax free dzero.

Definition funds_stage (o : OrderRequest) (s : PortfolioSnapshot) (symbol : string)
    (quote : option Quote) (held : Decimal) : outcome (list string) :=
  match quote with
  | None => Ok []
  | Some q =>
      match o_side o with
      | BUY =>
          if account_usable s then
            estimated ← risk_notional o q;
            available ← available_buying_power s;
            over ← dgt estimated available;
            Ok (if over : bool then ["insufficient buying power"] else [])
          else Ok []
      | SELL =>
          requested ← match o_qty o with Some n => Ok n | None => notional_quantity o q end;
          free ← dsub held (reserved_sell_qty s symbol);
          over ← dgt requested free;
          Ok (if over : bool then ["sell quantity exceeds unreserved position"] else [])
      end
  end.

Definition loss_limit_reached (s : PortfolioSnapshot) (cfg : RiskConfig) : outcome bool :=
  if pnl_is_finite s then
    daily_total ← dadd (realized_pnl_today s) (unrealized_pnl_today s);
    dle daily_total (dneg (max_daily_total_loss cfg))
  else Ok false.

(** [(high_water_mark - equity) / high_water_mark * 100]. *)
Definition drawdown_pct (s : PortfolioSnapshot) : outcome Decimal :=
  fall ← dsub (account_high_water_mark s) (account_equity s);
  ratio ← ddiv fall (account_high_water_mark s);
  dmul ratio (of_Z 100).

Definition drawdown_limit_reached (s : PortfolioSnapshot) (cfg : RiskConfig) : outcome bool :=
  if account_usable s then
    drawdown ← drawdown_pct s;
    dge drawdown (max_account_drawdown_pct cfg)
  else Ok false.

(** A limit breach always trips its breaker; it is a rejection reason only for an
    order that is not strictly reduce-only. *)
Definition limit_stage (reached strict : bool) (scope : BreakerScope) (reason : string)
    : list string * list BreakerTripIntent :=
  if reached then (if strict then [] else [reason], [mkIntent scope reason]) else ([], []).

Definition spread_exceeded (s : PortfolioSnapshot) (cfg : RiskConfig) (symbol : string)
    : outcome bool :=
  match dict_get (spread_pct_by_ticker s) symbol with
  | None => Ok false
  | Some spread => dgt spread (max_spread_pct cfg)
  end.

Definition spread_stage (exceeded : bool) (symbol : string)
    : list string * list BreakerTripIntent :=
  if exceeded then
    (["spread exceeds configured maximum"],
     [mkIntent (scope_liquidity symbol) "spread exceeds configured maximum"])
  else ([], []).

Definition warning_stage (o : OrderRequest) (s : PortfolioSnapshot) (cfg : RiskConfig)
    : outcome (list string) :=
  if warn_on_cross_broker_concentration cfg then
    w ← check_cross_broker_concentration o s cfg;
    Ok (omap id [w])
  else Ok [].

(** The breakers reported as bypassed: active ones, and the ones this very check
    trips, that a strictly reduce-only order passes. *)
Definition bypassed_stage (s : PortfolioSnapshot) (strict : bool) (symbol : string)
    (trips : list BreakerTripIntent) : list string :=
  let bypassable := bypassable_breakers strict symbol in
  let tripped : gset string :=
    list_to_set (filter (λ k, k ∈ bypassable) (map (λ i, scope_key (i_scope i)) trips)) in
  sorted_strings (elements ((active_breakers s ∩ bypassable) ∪ tripped)).

(** [RiskEngine.check]. *)
Definition check (cfg : RiskConfig) (o : OrderRequest) (s : PortfolioSnapshot)
    : outcome RiskResult :=
  let symbol := upper (o_ticker o) in
  let quote := dict_get (quotes s) symbol in
  if match quote with Some q => negb (quote_is_valid q) | None => false end then
    let reason := "quote for " +:+ symbol +:+ " is invalid" in
    Ok (mkRiskResult false [reason] [] [mkIntent (scope_data (for_symbol symbol)) reason] [])
  else
    held ← dmax (position_quantity s symbol) dzero;
    requested ← requested_sell_qty o quote;
    cover ← reserved_cover_qty s symbol quote;
    available ← available_reduce_qty o s symbol held cover;
    strict ← strictly_reduce_only s requested available;
    base ← base_checks o s cfg;
    let '(stale_reasons, stale_trips) := stale_stage s symbol in
    funds ← funds_stage o s symbol quote held;
    loss ← loss_limit_reached s cfg;
    let '(loss_reasons, loss_trips) :=
      limit_stage loss strict (scope_loss (for_symbol symbol)) "daily total-loss limit reached" in
    drawdown ← drawdown_limit_reached s cfg;
    let '(drawdown_reasons, drawdown_trips) :=
      limit_stage drawdown strict (scope_drawdown (for_symbol symbol))
        "account drawdown limit reached" in
    wide ← spread_exceeded s cfg symbol;
    let '(spread_reasons, spread_trips) := spread_stage wide symbol in
    warns ← warning_stage o s cfg;
    let all_reasons :=
      base ++ stale_reasons ++ breaker_stage s strict symbol ++ reconciled_stage s cfg
      ++ account_stage s ++ pnl_stage s ++ funds ++ loss_reasons ++ drawdown_reasons
      ++ spread_reasons in
    let trips := stale_trips ++ loss_trips ++ drawdown_trips ++ spread_trips in
    Ok (mkRiskResult (bool_decide (all_reasons = [])) all_reasons warns trips
          (bypassed_stage s strict symbol trips)).

(** * Specification *)

(** Whether the order only reduces the position, as the engine establishes it. *)
Definition reduce_only (o : OrderRequest) (s : PortfolioSnapshot) : outcome bool :=
  let symbol := upper (o_ticker o) in
  let quote := dict_get (quotes s) symbol in
  held ← dmax (position_quantity s symbol) dzero;
  requested ← requested_sell_qty o quote;
  cover ← reserved_cover_qty s symbol quote;
  available ← available_reduce_qty o s symbol held cover;
  strictly_reduce_only s requested available.

(** The breaker keys only a strictly reduce-only order may pass. *)
Definition reduce_bypass_keys (symbol : string) : list string :=
  [ scope_key scope_operator_global; scope_key (scope_loss (for_symbol symbol));
    scope_key (scope_drawdown (for_symbol symbol)) ].

(** The sizes of the order stay within the three exposure limits. *)
Definition within_limits (cfg : RiskConfig) (o : OrderRequest) (s : PortfolioSnapshot) (q : Quote)
    : Prop :=
  ∃ n c p g rest total,
    risk_notional o q = Ok n ∧ dle n (max_notional_per_order cfg) = Ok true
    ∧ ticker_values o s q = Ok (Some (c, p)) ∧ dle p (max_position_per_ticker cfg) = Ok true
    ∧ gross_exposure_with_pending s = Ok (Some g) ∧ dsub g c = Ok rest ∧ dadd rest p = Ok total
    ∧ dle total (max_portfolio_exposure cfg) = Ok true.

(** A buy fits the unreserved buying power; a sell fits the unreserved holding. *)
Definition funded (o : OrderRequest) (s : PortfolioSnapshot) (q : Quote) : Prop :=
  let symbol := upper (o_ticker o) in
  match o_side o with
  | BUY => ∃ n available, risk_notional o q = Ok n ∧ available_buying_power s = Ok available
                          ∧ dle n available = Ok true
  | SELL => ∃ requested held free,
      match o_qty o with Some n => Ok n | None => notional_quantity o q end = Ok requested
      ∧ dmax (position_quantity s symbol) dzero = Ok held
      ∧ dsub held (reserved_sell_qty s symbol) = Ok free
      ∧ dle requested free = Ok true
  end.

Record admissible (cfg : RiskConfig) (o : OrderRequest) (s : PortfolioSnapshot) : Prop := {
  adm_allowlisted : upper (o_ticker o) ∈ ticker_allowlist cfg;
  adm_exposure_known : pending_exposure_complete s = true;
  adm_session : market_clock_complete s = true
                ∧ (market_open s = true ∨ reject_when_market_closed cfg = false);
  adm_fresh : quote_fresh s = true;
  adm_reconciled : require_broker_reconciled cfg = true → broker_reconciled s = true;
  adm_account : account_usable s = true;
  adm_pnl : daily_pnl_complete s = true ∧ pnl_is_finite s = true;
  adm_quote : ∃ q, dict_get (quotes s) (upper (o_ticker o)) = Some q
                   ∧ quote_is_valid q = true ∧ within_limits cfg o s q ∧ funded o s q;
  adm_price : ∀ limit_price, o_order_type o = LIMIT → o_limit_price o = Some limit_price →
    ∃ q d, dict_get (quotes s) (upper (o_ticker o)) = Some q
           ∧ deviation_pct limit_price (q_last q) = Ok d
           ∧ dle d (price_sanity_pct cfg) = Ok true;
  adm_spread : spread_exceeded s cfg (upper (o_ticker o)) = Ok false;
  adm_latches : ∃ strict, reduce_only o s = Ok strict
    ∧ (∀ k, k ∈ active_breakers s → strict = true ∧ k ∈ reduce_bypass_keys (upper (o_ticker o)))
    ∧ (loss_limit_reached s cfg = Ok true → strict = true)
    ∧ (drawdown_limit_reached s cfg = Ok true → strict = true);
}.

(** * Stage lemmas *)

Lemma omap_id_nil {A} (l : list (option A)) : omap id l = [] ↔ Forall (λ x, x = None) l.
Proof.
  induction l as [|[x|] l IH]; simpl; [naive_solver|..].
  - split; [done|]. by inversion 1.
  - rewrite IH, Forall_cons. naive_solver.
Qed.

Lemma base_checks_pass o s cfg :
  base_checks o s cfg = Ok [] ↔
  check_allowlist o cfg = None ∧ check_pending_exposure_known s = None
  ∧ market_hours_reason o s cfg = None ∧ check_max_notional o s cfg = Ok None
  ∧ check_max_position o s cfg = Ok None ∧ check_portfolio_exposure o s cfg = Ok None
  ∧ check_price_sanity o s cfg = Ok None.
Proof.
  unfold base_checks. split.
  - intros (n & Hn & H)%outcome_bind_Ok. apply outcome_bind_Ok in H as (p & Hp & H).
    apply outcome_bind_Ok in H as (e & He & H). apply outcome_bind_Ok in H as (d & Hd & H).
    apply Ok_inj, omap_id_nil in H. rewrite !Forall_cons in H. naive_solver.
  - intros (H1 & H2 & H3 & H4 & H5 & H6 & H7). rewrite H4, H5, H6, H7. simpl.
    by rewrite H1, H2, H3.
Qed.

Lemma stale_stage_pass s symbol : (stale_stage s symbol).1 = [] ↔ quote_fresh s = true.
Proof. unfold stale_stage. by destruct (quote_fresh s). Qed.

Lemma bypassable_spec strict symbol k :
  k ∈ bypassable_breakers strict symbol ↔ strict = true ∧ k ∈ reduce_bypass_keys symbol.
Proof.
  unfold bypassable_breakers, reduce_bypass_keys. destruct strict.
  - rewrite elem_of_list_to_set. naive_solver.
  - rewrite elem_of_empty. naive_solver.
Qed.

Lemma breaker_stage_pass s strict symbol :
  breaker_stage s strict symbol = [] ↔
  ∀ k, k ∈ active_breakers s → strict = true ∧ k ∈ reduce_bypass_keys symbol.
Proof.
  unfold breaker_stage, blocking_breakers. case_bool_decide as Hb; split; try done; intros H.
  - intros k Hk. rewrite <- bypassable_spec.
    destruct (decide (k ∈ bypassable_breakers strict symbol)); [done|set_solver].
  - destruct Hb. apply set_eq. intros k. specialize (H k).
    rewrite <- bypassable_spec in H. set_solver.
Qed.

Lemma reconciled_stage_pass s cfg :
  reconciled_stage s cfg = [] ↔ (require_broker_reconciled cfg = true → broker_reconciled s = true).
Proof.
  unfold reconciled_stage.
  destruct (require_broker_reconciled cfg), (broker_reconciled s); naive_solver.
Qed.

Lemma account_stage_pass s : account_stage s = [] ↔ account_usable s = true.
Proof. unfold account_stage. by destruct (account_usable s). Qed.

Lemma pnl_stage_pass s :
  pnl_stage s = [] ↔ daily_pnl_complete s = true ∧ pnl_is_finite s = true.
Proof. unfold pnl_stage. destruct (daily_pnl_complete s), (pnl_is_finite s); naive_solver. Qed.

Lemma limit_stage_pass reached strict scope reason :
  (limit_stage reached strict scope reason).1 = [] ↔ (reached = true → strict = true).
Proof. destruct reached, strict; naive_solver. Qed.

Lemma funds_stage_pass o s q held :
  dmax (position_quantity s (upper (o_ticker o))) dzero = Ok held →
  account_usable s = true →
  funds_stage o s (upper (o_ticker o)) (Some q) held = Ok [] ↔ funded o s q.
Proof.
  intros Hheld Hacc. unfold funds_stage, funded. rewrite Hacc. destruct (o_side o).
  - split.
    + intros (n & Hn & H)%outcome_bind_Ok. apply outcome_bind_Ok in H as (a & Ha & H).
      apply outcome_bind_Ok in H as ([] & Hb & ?); simplify_eq.
      exists n, a. by rewrite <- dgt_false_dle.
    + intros (n & a & Hn & Ha & Hle). rewrite <- dgt_false_dle in Hle.
      rewrite Hn, Ha. simpl. by rewrite Hle.
  - split.
    + intros (n & Hn & H)%outcome_bind_Ok. apply outcome_bind_Ok in H as (f & Hf & H).
      apply outcome_bind_Ok in H as ([] & Hb & ?); simplify_eq.
      exists n, held, f. by rewrite <- dgt_false_dle.
    + intros (n & h & f & Hn & Hh & Hf & Hle). rewrite <- dgt_false_dle in Hle.
      rewrite Hheld in Hh. simplify_eq. rewrite Hn, Hf. simpl. by rewrite Hle.
Qed.

(** The quote of the order's symbol, when there is one, is usable. *)
Definition quote_usable (o : OrderRequest) (s : PortfolioSnapshot) : bool :=
  match dict_get (quotes s) (upper (o_ticker o)) with
  | Some q => quote_is_valid q
  | None => true
  end.

(** Every intermediate value of a check that returns, and the result they make. *)
Lemma check_inv cfg o s r :
  check cfg o s = Ok r → quote_usable o s = true →
  let symbol := upper (o_ticker o) in
  ∃ held strict base funds loss drawdown wide warns,
    dmax (position_quantity s symbol) dzero = Ok held
    ∧ reduce_only o s = Ok strict ∧ base_checks o s cfg = Ok base
    ∧ funds_stage o s symbol (dict_get (quotes s) symbol) held = Ok funds
    ∧ loss_limit_reached s cfg = Ok loss ∧ drawdown_limit_reached s cfg = Ok drawdown
    ∧ spread_exceeded s cfg symbol = Ok wide ∧ warning_stage o s cfg = Ok warns
    ∧ let loss_st := limit_stage loss strict (scope_loss (for_symbol symbol))
                       "daily total-loss limit reached" in
      let dd_st := limit_stage drawdown strict (scope_drawdown (for_symbol symbol))
                     "account drawdown limit reached" in
      let all_reasons :=
        base ++ (stale_stage s symbol).1 ++ breaker_stage s strict symbol
        ++ reconciled_stage s cfg ++ account_stage s ++ pnl_stage s ++ funds
        ++ loss_st.1 ++ dd_st.1 ++ (spread_stage wide symbol).1 in
      let trips := (stale_stage s symbol).2 ++ loss_st.2 ++ dd_st.2
                   ++ (spread_stage wide symbol).2 in
      r = mkRiskResult (bool_decide (all_reasons = [])) all_reasons warns trips
            (bypassed_stage s strict symbol trips).
Proof.
  unfold check, quote_usable, reduce_only. intros H Hq. simpl in *.
  assert ((match dict_get (quotes s) (upper (o_ticker o)) with
           | Some q => negb (quote_is_valid q) | None => false end) = false) as Hg.
  { case_match; [by rewrite Hq|done]. }
  rewrite Hg in H.
  apply outcome_bind_Ok in H as (held & Hheld & H).
  apply outcome_bind_Ok in H as (requested & Hreq & H).
  apply outcome_bind_Ok in H as (cover & Hcov & H).
  apply outcome_bind_Ok in H as (available & Hav & H).
  apply outcome_bind_Ok in H as (strict & Hst & H).
  apply outcome_bind_Ok in H as (base & Hbase & H).
  destruct (stale_stage s (upper (o_ticker o))) as [sr st].
  apply outcome_bind_Ok in H as (funds & Hfunds & H).
  apply outcome_bind_Ok in H as (loss & Hloss & H).
  destruct (limit_stage loss strict _ _) as [lr lt] eqn:Hl.
  apply outcome_bind_Ok in H as (dd & Hdd & H).
  destruct (limit_stage dd strict _ _) as [dr dt] eqn:Hd.
  apply outcome_bind_Ok in H as (wide & Hwide & H).
  destruct (spread_stage wide _) as [wr wt] eqn:Hw.
  apply outcome_bind_Ok in H as (warns & Hwarns & H). apply Ok_inj in H.
  exists held, strict, base, funds, loss, dd, wide, warns.
  rewrite Hheld, Hl, Hd, Hw. simpl. rewrite Hreq. simpl. rewrite Hcov. simpl. rewrite Hav. simpl.
  by repeat split.
Qed.

Lemma check_invalid_quote cfg o s :
  quote_usable o s = false →
  let symbol := upper (o_ticker o) in
  let reason := "quote for " +:+ symbol +:+ " is invalid" in
  check cfg o s
  = Ok (mkRiskResult false [reason] [] [mkIntent (scope_data (for_symbol symbol)) reason] []).
Proof.
  unfold quote_usable, check. intros Hq. case_match; [|done]. by rewrite Hq.
Qed.

Lemma spread_stage_pass wide symbol : (spread_stage wide symbol).1 = [] ↔ wide = false.
Proof. by destruct wide. Qed.

Lemma market_hours_pass o s cfg :
  market_hours_reason o s cfg = None ↔
  market_clock_complete s = true ∧ (market_open s = true ∨ reject_when_market_closed cfg = false).
Proof.
  unfold market_hours_reason, check_market_hours.
  destruct (market_clock_complete s), (market_open s), (reject_when_market_closed cfg); naive_solver.
Qed.

Lemma pending_known_pass s :
  check_pending_exposure_known s = None ↔ pending_exposure_complete s = true.
Proof. unfold check_pending_exposure_known. by destruct (pending_exposure_complete s). Qed.

(** The base rules together give the exposure limits and the price sanity. *)
Lemma base_checks_within o s cfg :
  base_checks o s cfg = Ok [] ↔
  upper (o_ticker o) ∈ ticker_allowlist cfg ∧ pending_exposure_complete s = true
  ∧ market_hours_reason o s cfg = None
  ∧ (∃ q, dict_get (quotes s) (upper (o_ticker o)) = Some q ∧ within_limits cfg o s q)
  ∧ check_price_sanity o s cfg = Ok None.
Proof.
  rewrite base_checks_pass, check_allowlist_pass, pending_known_pass, check_max_notional_pass,
    check_max_position_pass, check_portfolio_exposure_pass.
  unfold within_limits, reference_quote. setoid_rewrite dgt_false_dle. split.
  - intros (? & ? & ? & (q & n & Hq & ? & ?) & (q1 & c & p & Hq1 & Hv & ?)
            & (q2 & c2 & p2 & g & rest & t & Hq2 & Hv2 & ?) & ?).
    rewrite Hq in Hq1, Hq2. simplify_eq. rewrite Hv in Hv2. simplify_eq.
    repeat split; try done. naive_solver.
  - intros (? & ? & ? & (q & Hq & n & c & p & g & rest & t & ? & ? & ? & ? & ? & ? & ? & ?) & ?).
    repeat split; try done; naive_solver.
Qed.

Lemma pos_finite_nonzero x : pos_finite x = true → deq x dzero = false.
Proof.
  unfold pos_finite, deq. intros. reflect_bools. unfold dcmp_lt in *.
  rewrite (dcmp_antisym dzero x). destruct (dcmp dzero x); try done. by rewrite andb_false_r.
Qed.

Lemma quote_valid_last q : quote_is_valid q = true → pos_finite (q_last q) = true.
Proof. unfold quote_is_valid. intros. by reflect_bools. Qed.

Lemma price_sanity_admissible o s cfg q :
  dict_get (quotes s) (upper (o_ticker o)) = Some q → quote_is_valid q = true →
  check_price_sanity o s cfg = Ok None ↔
  ∀ limit_price, o_order_type o = LIMIT → o_limit_price o = Some limit_price →
    ∃ q d, dict_get (quotes s) (upper (o_ticker o)) = Some q
           ∧ deviation_pct limit_price (q_last q) = Ok d
           ∧ dle d (price_sanity_pct cfg) = Ok true.
Proof.
  intros Hq Hv. rewrite check_price_sanity_pass. unfold reference_quote.
  setoid_rewrite dgt_false_dle. split; intros H lp Ht Hl; destruct (H lp Ht Hl) as (q' & d & Hd).
  - naive_solver.
  - exists q', d. destruct Hd as (Hq' & ? & ?). rewrite Hq in Hq'. simplify_eq.
    repeat split; try done. by apply pos_finite_nonzero, quote_valid_last.
Qed.

Lemma reasons_nil (base stale brk rec acc pnl funds loss dd wide : list string) :
  base ++ stale ++ brk ++ rec ++ acc ++ pnl ++ funds ++ loss ++ dd ++ wide = [] ↔
  base = [] ∧ stale = [] ∧ brk = [] ∧ rec = [] ∧ acc = [] ∧ pnl = [] ∧ funds = []
  ∧ loss = [] ∧ dd = [] ∧ wide = [].
Proof. rewrite !app_nil. tauto. Qed.

Lemma check_admissible_iff cfg o s r :
  check cfg o s = Ok r → approved r = true ↔ admissible cfg o s.
Proof.
  intros Hr. destruct (quote_usable o s) eqn:Hu; cycle 1.
  { rewrite check_invalid_quote in Hr by done. apply Ok_inj in Hr as <-. split; [done|].
    intros [_ _ _ _ _ _ _ (q & Hq & Hv & _) _ _ _]. unfold quote_usable in Hu.
    rewrite Hq in Hu. congruence. }
  destruct (check_inv cfg o s r Hr Hu) as
    (held & strict & base & funds & loss & dd & wide & warns & Hheld & Hst & Hbase & Hfunds
     & Hloss & Hdd & Hwide & Hwarns & ->).
  simpl approved. rewrite bool_decide_eq_true, reasons_nil, stale_stage_pass, breaker_stage_pass,
    reconciled_stage_pass, account_stage_pass, pnl_stage_pass, !limit_stage_pass, spread_stage_pass.
  split.
  - intros (-> & Hfresh & Hbrk & Hrec & Hacc & Hpnl & -> & Hl & Hd & ->).
    apply base_checks_within in Hbase as (Hallow & Hpend & Hhours & (q & Hq & Hlim) & Hprice).
    apply market_hours_pass in Hhours. unfold quote_usable in Hu. rewrite Hq in Hu, Hfunds.
    apply funds_stage_pass in Hfunds; [|done..].
    rewrite (price_sanity_admissible o s cfg q Hq Hu) in Hprice.
    split; try done; [by exists q|]. exists strict. rewrite Hloss, Hdd.
    split_and!; try done; intros [= ->]; auto.
  - intros [Hallow Hpend Hhours Hfresh Hrec Hacc Hpnl (q & Hq & Hv & Hlim & Hfund) Hprice Hspread
              (strict' & Hst' & Hbrk & Hl & Hd)].
    rewrite Hst in Hst'. simplify_eq. rewrite Hloss in Hl. rewrite Hdd in Hd.
    assert (base_checks o s cfg = Ok []) as Hb.
    { apply base_checks_within. rewrite market_hours_pass, (price_sanity_admissible o s cfg q) by done.
      naive_solver. }
    rewrite Hq in Hfunds. apply (funds_stage_pass o s q held Hheld Hacc) in Hfund.
    rewrite Hb in Hbase. rewrite Hfund in Hfunds. rewrite Hwide in Hspread.
    apply Ok_inj in Hbase as <-. apply Ok_inj in Hfunds as <-. apply Ok_inj in Hspread as ->.
    split_and!; try done; first [by destruct Hpnl | intros ->; auto].
Qed.

(** Claim C1.  The risk engine is the order's final authority: whenever the check
    returns, it approves the order exactly when the order is admissible
    (allowlisted, within the notional, ticker and portfolio limits, funded, on a
    fresh valid quote in an open session, with usable account and P&L data and no
    breaker or loss limit standing in the way). *)
Theorem check_approves_admissible cfg o s r :
  check cfg o s = Ok r → approved r = true ↔ admissible cfg o s.
Proof. apply check_admissible_iff. Qed.

(** * Consequences *)

Lemma elem_of_sorted_elements k (X : gset string) : k ∈ sorted_strings (elements X) ↔ k ∈ X.
Proof. unfold sorted_strings. by rewrite merge_sort_Permutation, elem_of_elements. Qed.

(** No data, liquidity or broker-drift latch has a key among the bypass keys. *)
Lemma reduce_bypass_kinds symbol sc :
  scope_key sc ∈ reduce_bypass_keys symbol →
  kind sc = OPERATOR_GLOBAL ∨ kind sc = LOSS ∨ kind sc = DRAWDOWN.
Proof.
  destruct sc as [k t]. unfold reduce_bypass_keys, scope_key. simpl.
  destruct (for_symbol symbol), k; simpl; try tauto;
    destruct t as [|c t]; simpl; rewrite !elem_of_cons, elem_of_nil;
    intros [?|[?|[?|[]]]]; discriminate.
Qed.

Lemma check_bypass_keys cfg o s r k :
  check cfg o s = Ok r → k ∈ bypassed_breakers r →
  reduce_only o s = Ok true ∧ k ∈ reduce_bypass_keys (upper (o_ticker o))
  ∧ ∀ sc, scope_key sc = k → kind sc = OPERATOR_GLOBAL ∨ kind sc = LOSS ∨ kind sc = DRAWDOWN.
Proof.
  intros Hr Hk. destruct (quote_usable o s) eqn:Hu; cycle 1.
  { rewrite check_invalid_quote in Hr by done. apply Ok_inj in Hr as <-. by apply elem_of_nil in Hk. }
  destruct (check_inv cfg o s r Hr Hu) as
    (held & strict & base & funds & loss & dd & wide & warns & _ & Hst & _ & _ & _ & _ & _ & _ & ->).
  simpl bypassed_breakers in Hk. unfold bypassed_stage in Hk.
  rewrite elem_of_sorted_elements, elem_of_union, elem_of_intersection, elem_of_list_to_set,
    list_elem_of_filter, !bypassable_spec in Hk.
  assert (strict = true ∧ k ∈ reduce_bypass_keys (upper (o_ticker o))) as [-> Hin] by tauto.
  split_and!; try done. intros sc <-. by eapply reduce_bypass_kinds.
Qed.

(** A check reports a breaker as bypassed only for an order it proved to be
    strictly reduce-only, and only an operator, loss or drawdown breaker; data,
    liquidity and broker-drift latches always keep blocking. *)
Theorem check_bypass_safe cfg o s r k :
  check cfg o s = Ok r → k ∈ bypassed_breakers r →
  reduce_only o s = Ok true ∧ k ∈ reduce_bypass_keys (upper (o_ticker o))
  ∧ ∀ sc, scope_key sc = k → kind sc = OPERATOR_GLOBAL ∨ kind sc = LOSS ∨ kind sc = DRAWDOWN.
Proof. apply check_bypass_keys. Qed.

(** The trip intents of a check are exactly the breaches it observed: a
    stale quote, a reached loss limit, a reached drawdown limit, an excessive
    spread, each with its own scope, whether or not the order is approved. *)
Theorem check_trips_every_breach cfg o s r i :
  check cfg o s = Ok r → quote_usable o s = true →
  let symbol := upper (o_ticker o) in
  i ∈ breaker_trips r ↔
    (quote_fresh s = false ∧ i = mkIntent (scope_data (for_symbol symbol)) "quote is stale")
    ∨ (loss_limit_reached s cfg = Ok true
       ∧ i = mkIntent (scope_loss (for_symbol symbol)) "daily total-loss limit reached")
    ∨ (drawdown_limit_reached s cfg = Ok true
       ∧ i = mkIntent (scope_drawdown (for_symbol symbol)) "account drawdown limit reached")
    ∨ (spread_exceeded s cfg symbol = Ok true
       ∧ i = mkIntent (scope_liquidity symbol) "spread exceeds configured maximum").
Proof.
  intros Hr Hu symbol.
  destruct (check_inv cfg o s r Hr Hu) as
    (held & strict & base & funds & loss & dd & wide & warns & _ & _ & _ & _ & Hl & Hd & Hw & _ & ->).
  rewrite Hl, Hd. fold symbol in Hw |- *. rewrite Hw. simpl breaker_trips. unfold stale_stage.
  rewrite !elem_of_app.
  destruct (quote_fresh s), loss, dd, wide; simpl; rewrite ?list_elem_of_singleton, ?elem_of_nil;
    intuition congruence.
Qed.

Lemma dmax_zero_neg x : is_finite x = true → dcmp_lt x dzero = true → dmax x dzero = Ok dzero.
Proof.
  intros Hf Hlt. unfold dmax, dgt, dlt, dordered. destruct x; try done. simpl is_nan.
  simpl. by rewrite Hlt.
Qed.

Lemma dmax_representable x z : representable x → dmax x dzero = Ok z → representable z.
Proof. intros Hx Hz. by destruct (dmax_cases _ _ _ Hz) as [-> | ->]. Qed.

Lemma dsub_finite x y z :
  is_finite x = true → is_finite y = true → dsub x y = Ok z → is_finite z = true.
Proof.
  destruct x, y; try done. unfold dsub. simpl. intros; simplify_eq. apply dround_finite.
Qed.

(** An approved sell of a quantity never exceeds the position held: the
    engine cannot approve a sale that opens or grows a short. *)
Theorem approved_sell_within_position cfg o s r n :
  check cfg o s = Ok r → approved r = true →
  order_request o = Ok o → o_side o = SELL → o_qty o = Some n →
  representable (position_quantity s (upper (o_ticker o))) →
  is_finite (reserved_sell_qty s (upper (o_ticker o))) = true →
  dcmp_le dzero (reserved_sell_qty s (upper (o_ticker o))) = true →
  dcmp_le n (position_quantity s (upper (o_ticker o))) = true.
Proof.
  intros Hr Ha Ho Hside Hqty Hrep Hfin Hres.
  apply (check_admissible_iff cfg o s r Hr) in Ha as [_ _ _ _ _ _ _ (q & _ & _ & _ & Hf) _ _ _].
  unfold funded in Hf. rewrite Hside, Hqty in Hf.
  destruct Hf as (n' & held & free & [= <-] & Hheld & Hfree & Hle).
  assert (is_finite held = true) as Hhf
    by (pose proof (dmax_representable _ _ Hrep Hheld); by destruct held).
  assert (dcmp_le n held = true) as Hn.
  { apply (dcmp_le_trans n free held); [by apply (dsub_finite held (reserved_sell_qty s (upper (o_ticker o))))|by apply dle_true|].
    apply (dsub_le _ (reserved_sell_qty s (upper (o_ticker o)))); try done.
    by eapply dmax_representable. }
  destruct (dmax_cases _ _ _ Hheld) as [-> | ->]; [done|].
  (* the held quantity is zero: a positive request contradicts it *)
  unfold order_request in Ho. case_match; [done|]. apply outcome_bind_Ok in Ho as ([] & Hc & _).
  rewrite Hqty in Hc. simpl in Hc. apply outcome_bind_Ok in Hc as ([] & Hb & Hc); [done|].
  apply dle_ok in Hb. congruence.
Qed.

(** * The check returns *)

Definition all_finite (l : list Decimal) : Prop := Forall (λ x, is_finite x = true) l.

(** Inputs whose decimals are finite: what the configuration validator, the order
    constructor and the snapshot assembly deliver. *)
Record finite_inputs (cfg : RiskConfig) (o : OrderRequest) (s : PortfolioSnapshot) : Prop := {
  fi_limits : all_finite [ max_notional_per_order cfg; max_position_per_ticker cfg;
    max_portfolio_exposure cfg; price_sanity_pct cfg; max_spread_pct cfg;
    max_daily_total_loss cfg; max_account_drawdown_pct cfg ];
  fi_order : order_request o = Ok o;
  fi_amounts : all_finite (omap id [o_qty o; o_notional o; o_limit_price o]);
  fi_dicts : all_finite (dict_values (spread_pct_by_ticker s)
    ++ dict_values (pending_buy_notional_by_ticker s)
    ++ dict_values (reserved_sell_qty_by_ticker s) ++ dict_values (external_positions s));
}.

Lemma dict_get_finite (d : dict Decimal) k x :
  all_finite (dict_values d) → dict_get d k = Some x → is_finite x = true.
Proof.
  intros Hd Hk%dict_get_Some_elem. unfold all_finite, dict_values in Hd.
  rewrite Forall_forall in Hd. apply Hd. apply list_elem_of_fmap. by exists (k, x).
Qed.

Lemma default_dict_finite (d : dict Decimal) k :
  all_finite (dict_values d) → is_finite (default dzero (dict_get d k)) = true.
Proof. intros Hd. destruct (dict_get d k) eqn:E; [by eapply dict_get_finite|done]. Qed.

Lemma pos_finite_finite x : pos_finite x = true → is_finite x = true.
Proof. unfold pos_finite. intros. by reflect_bools. Qed.

Lemma quote_valid_finite q :
  quote_is_valid q = true →
  is_finite (q_last q) = true ∧ is_finite (q_ask q) = true ∧ deq (q_last q) dzero = false.
Proof.
  unfold quote_is_valid. intros. reflect_bools.
  split_and!; by first [apply pos_finite_finite | apply pos_finite_nonzero].
Qed.

Lemma account_usable_finite s :
  account_usable s = true →
  pos_finite (buying_power s) = true ∧ pos_finite (account_equity s) = true
  ∧ pos_finite (account_high_water_mark s) = true.
Proof. unfold account_usable. simpl. intros. reflect_bools. done. Qed.

(** Exactly one of the two amounts is present in a constructed request. *)
Lemma order_request_amount o :
  order_request o = Ok o →
  (∃ n, o_qty o = Some n ∧ o_notional o = None) ∨ (∃ n, o_qty o = None ∧ o_notional o = Some n).
Proof.
  unfold order_request. case_match eqn:Hg; [done|]. intros _.
  destruct (o_qty o), (o_notional o); simpl in Hg; naive_solver.
Qed.

Section Totality.
Context (cfg : RiskConfig) (o : OrderRequest) (s : PortfolioSnapshot).
Context (Hin : finite_inputs cfg o s).

Let symbol : string := upper (o_ticker o).

Lemma amount_finite x n :
  x ∈ [o_qty o; o_notional o; o_limit_price o] → x = Some n → is_finite n = true.
Proof.
  intros Hx ->. pose proof (fi_amounts _ _ _ Hin) as Ha. unfold all_finite in Ha.
  rewrite Forall_forall in Ha. apply Ha. apply list_elem_of_omap. by exists (Some n).
Qed.

Lemma qty_finite n : o_qty o = Some n → is_finite n = true.
Proof. apply amount_finite. set_solver. Qed.

Lemma notional_finite n : o_notional o = Some n → is_finite n = true.
Proof. apply amount_finite. set_solver. Qed.

Lemma limit_price_finite n : o_limit_price o = Some n → is_finite n = true.
Proof. apply amount_finite. set_solver. Qed.

Lemma position_quantity_finite : is_finite (position_quantity s symbol) = true.
Proof. unfold position_quantity. case_match; [|done]. by case_match. Qed.

Lemma dicts_finite :
  all_finite (dict_values (spread_pct_by_ticker s))
  ∧ all_finite (dict_values (pending_buy_notional_by_ticker s))
  ∧ all_finite (dict_values (reserved_sell_qty_by_ticker s))
  ∧ all_finite (dict_values (external_positions s)).
Proof. destruct Hin as [_ _ _ Hd]. unfold all_finite in *. rewrite !Forall_app in Hd. tauto. Qed.

Lemma notional_quantity_returns q :
  quote_is_valid q = true → o_qty o = None → returns_finite (notional_quantity o q).
Proof.
  intros (Hl & _ & Hz)%quote_valid_finite Hq. unfold notional_quantity.
  destruct (order_request_amount o (fi_order _ _ _ Hin)) as [(n & ? & ?)|(n & _ & Hn)]; [congruence|].
  rewrite Hn. apply ddiv_returns; [by apply notional_finite|done..].
Qed.

Lemma risk_notional_returns q : quote_is_valid q = true → returns_finite (risk_notional o q).
Proof.
  intros (Hl & Ha & _)%quote_valid_finite. unfold risk_notional.
  destruct (order_request_amount o (fi_order _ _ _ Hin)) as [(n & Hq & ->)|(n & Hq & Hn)]; cycle 1.
  { rewrite Hn. eexists. split; [done|]. by apply notional_finite. }
  rewrite Hq. pose proof (qty_finite n Hq) as Hn.
  destruct (o_side o); [|by apply dmul_returns].
  unfold conservative_buy_price. destruct (o_order_type o) eqn:Ht.
  - run_finite (dmax_returns (q_ask q) (q_last q) Ha Hl). by apply dmul_returns.
  - destruct (o_limit_price o) as [lp|] eqn:Hlp.
    + simpl. apply dmul_returns; [done|]. by apply limit_price_finite.
    + exfalso. pose proof (fi_order _ _ _ Hin) as Ho. unfold order_request in Ho.
      case_match; [done|]. apply outcome_bind_Ok in Ho as (_ & _ & Ho).
      apply outcome_bind_Ok in Ho as (_ & _ & Ho). by rewrite Ht, Hlp in Ho.
Qed.

Lemma marked_value_returns t :
  ∃ v, marked_position_value s t = Ok v ∧ (∀ x, v = Some x → is_finite x = true).
Proof.
  unfold marked_position_value. case_match; [|eexists; split; [done|naive_solver]].
  case_match; [|by eexists]. case_match eqn:Hg; [by eexists|]. reflect_bools.
  match goal with H : quote_is_valid _ = true |- _ => apply quote_valid_finite in H as (Hl & _ & _) end.
  match goal with |- context [dmul ?a ?b] => run_finite (dmul_returns a b ltac:(done) Hl) end.
  rewrite Hf. eexists. split; [done|]. naive_solver.
Qed.

Lemma effective_value_returns t :
  ∃ v, effective_signed_value s t = Ok v ∧ (∀ x, v = Some x → is_finite x = true).
Proof.
  unfold effective_signed_value. destruct (marked_value_returns (upper t)) as ([h|] & Hv & Hf);
    rewrite Hv; cbn [mbind outcome_bind]; [|by eexists].
  case_match eqn:Hp; [by eexists|]. reflect_bools.
  match goal with |- context [dadd ?a ?b] => run_finite (dadd_returns a b ltac:(auto) ltac:(done)) end.
  rewrite Hf0. eexists. split; [done|]. naive_solver.
Qed.

Lemma ticker_values_returns q :
  quote_is_valid q = true →
  ∃ v, ticker_values o s q = Ok v
       ∧ (∀ c p, v = Some (c, p) → is_finite c = true ∧ is_finite p = true).
Proof.
  intros Hq. unfold ticker_values.
  destruct (effective_value_returns (upper (o_ticker o))) as ([c|] & Hv & Hc);
    rewrite Hv; cbn [mbind outcome_bind]; [|by eexists].
  run_finite (risk_notional_returns q Hq).
  match goal with |- context [dadd ?a ?b] => run_finite (dadd_returns a b ltac:(auto)
    ltac:(destruct (o_side o); auto with trading)) end.
  eexists. split; [done|]. intros ? ? [= <- <-]. split; apply dabs_finite; auto.
Qed.

Lemma mapM_effective_returns l :
  ∃ vs, outcome_mapM (effective_signed_value s) l = Ok vs ∧ all_finite (omap id vs).
Proof.
  induction l as [|t l (vs & Hvs & Hall)]; simpl; [eexists; split; [done|constructor]|].
  destruct (effective_value_returns t) as (v & Hv & Hf). rewrite Hv. simpl. rewrite Hvs. simpl.
  eexists. split; [done|]. destruct v; simpl; [|done]. constructor; auto.
Qed.

Lemma gross_pending_returns :
  ∃ v, gross_exposure_with_pending s = Ok v ∧ (∀ x, v = Some x → is_finite x = true).
Proof.
  unfold gross_exposure_with_pending.
  destruct (mapM_effective_returns (exposure_symbols s)) as (vs & -> & Hall). simpl.
  unfold gross_of. case_match; [by eexists|].
  destruct (dsum_returns (map dabs (omap id vs))) as (z & -> & Hz).
  - apply Forall_fmap. eapply Forall_impl; [exact Hall|]. intros x. apply dabs_finite.
  - simpl. eexists. split; [done|]. naive_solver.
Qed.

(** Comparisons of finite values return. *)
Lemma dgt_returns x y : is_finite x = true → is_finite y = true → ∃ b, dgt x y = Ok b.
Proof. intros. unfold dgt, dlt. rewrite dordered_returns by done. eauto. Qed.

Lemma dle_returns x y : is_finite x = true → is_finite y = true → ∃ b, dle x y = Ok b.
Proof. intros. unfold dle. rewrite dordered_returns by done. eauto. Qed.

Lemma limits_finite x :
  x ∈ [ max_notional_per_order cfg; max_position_per_ticker cfg; max_portfolio_exposure cfg;
        price_sanity_pct cfg; max_spread_pct cfg; max_daily_total_loss cfg;
        max_account_drawdown_pct cfg ] → is_finite x = true.
Proof.
  pose proof (fi_limits _ _ _ Hin) as H. unfold all_finite in H. rewrite Forall_forall in H. apply H.
Qed.

Lemma reference_quote_valid q :
  quote_usable o s = true → reference_quote o s = Some q → quote_is_valid q = true.
Proof. unfold quote_usable, reference_quote. intros Hu Hq. by rewrite Hq in Hu. Qed.

Lemma max_notional_returns : quote_usable o s = true → ∃ v, check_max_notional o s cfg = Ok v.
Proof.
  intros Hu. unfold check_max_notional. destruct (reference_quote o s) as [q|] eqn:Hq; [|eauto].
  run_finite (risk_notional_returns q (reference_quote_valid q Hu Hq)).
  destruct (dgt_returns z (max_notional_per_order cfg)) as [b ->]; simpl; eauto.
  apply limits_finite. set_solver.
Qed.

Lemma max_position_returns : quote_usable o s = true → ∃ v, check_max_position o s cfg = Ok v.
Proof.
  intros Hu. unfold check_max_position. destruct (reference_quote o s) as [q|] eqn:Hq; [|eauto].
  destruct (ticker_values_returns q (reference_quote_valid q Hu Hq)) as ([[c p]|] & -> & Hf);
    simpl; [|eauto].
  destruct (dgt_returns p (max_position_per_ticker cfg)) as [b ->]; simpl; eauto.
  - by eapply Hf.
  - apply limits_finite. set_solver.
Qed.

Lemma portfolio_exposure_returns :
  quote_usable o s = true → ∃ v, check_portfolio_exposure o s cfg = Ok v.
Proof.
  intros Hu. unfold check_portfolio_exposure.
  destruct (reference_quote o s) as [q|] eqn:Hq; [|eauto].
  destruct (ticker_values_returns q (reference_quote_valid q Hu Hq)) as (v & -> & Hf).
  destruct gross_pending_returns as (g & -> & Hg). simpl.
  destruct v as [[c p]|], g as [g|]; eauto. destruct (Hf c p eq_refl) as [Hc Hp].
  run_finite (dsub_returns g c (Hg g eq_refl) Hc).
  match goal with |- context [dadd ?a ?b] => run_finite (dadd_returns a b ltac:(done) Hp) end.
  destruct (dgt_returns z0 (max_portfolio_exposure cfg)) as [b ->]; simpl; eauto.
  apply limits_finite. set_solver.
Qed.

Lemma price_sanity_returns : quote_usable o s = true → ∃ v, check_price_sanity o s cfg = Ok v.
Proof.
  intros Hu. unfold check_price_sanity, deviation_pct.
  destruct (o_order_type o); [by destruct (o_limit_price o); eauto|].
  destruct (o_limit_price o) as [lp|] eqn:Hlp; [|eauto].
  destruct (reference_quote o s) as [q|] eqn:Hq; [|eauto].
  destruct (quote_valid_finite q (reference_quote_valid q Hu Hq)) as (Hl & _ & Hz). rewrite Hz.
  run_finite (dsub_returns lp (q_last q) (limit_price_finite lp Hlp) Hl).
  match goal with |- context [ddiv ?a ?b] =>
    run_finite (ddiv_returns a b ltac:(by apply dabs_finite) Hl Hz) end.
  match goal with |- context [dmul ?a ?b] => run_finite (dmul_returns a b ltac:(done) eq_refl) end.
  match goal with |- context [dgt ?a ?b] =>
    destruct (dgt_returns a b) as [b' ->]; simpl; eauto end.
  apply limits_finite. set_solver.
Qed.

Lemma base_checks_returns : quote_usable o s = true → ∃ v, base_checks o s cfg = Ok v.
Proof.
  intros Hu. unfold base_checks.
  destruct (max_notional_returns Hu) as [? ->], (max_position_returns Hu) as [? ->],
    (portfolio_exposure_returns Hu) as [? ->], (price_sanity_returns Hu) as [? ->]. simpl. eauto.
Qed.

Lemma available_buying_power_returns :
  account_usable s = true → returns_finite (available_buying_power s).
Proof.
  intros (Hb & _)%account_usable_finite. apply pos_finite_finite in Hb.
  unfold available_buying_power.
  assert (∃ l, outcome_mapM (λ n, dmax n dzero)
            (dict_values (pending_buy_notional_by_ticker s)) = Ok l ∧ all_finite l) as (l & -> & Hl).
  { pose proof (proj1 (proj2 dicts_finite)) as Hd. unfold all_finite in Hd.
    induction Hd as [|x l Hx Hl (l' & IH & Hf)]; simpl; [eexists; split; [done|constructor]|].
    run_finite (dmax_returns x dzero Hx eq_refl). rewrite IH. simpl.
    eexists. split; [done|]. by constructor. }
  simpl. run_finite (dsum_returns l Hl).
  run_finite (dsub_returns (buying_power s) z Hb Hf). by apply dmax_returns.
Qed.

Lemma funds_stage_returns held :
  quote_usable o s = true → is_finite held = true →
  ∃ v, funds_stage o s symbol (dict_get (quotes s) symbol) held = Ok v.
Proof.
  intros Hu Hh. unfold funds_stage. unfold quote_usable in Hu. fold symbol in Hu.
  destruct (dict_get (quotes s) symbol) as [q|]; [|eauto]. destruct (o_side o).
  - destruct (account_usable s) eqn:Ha; [|eauto].
    run_finite (risk_notional_returns q Hu). run_finite (available_buying_power_returns Ha).
    destruct (dgt_returns z z0) as [b ->]; simpl; eauto.
  - assert (returns_finite (match o_qty o with Some n => Ok n | None => notional_quantity o q end)) as Hr.
    { destruct (o_qty o) as [n|] eqn:Hq; [eexists; split; [done|by apply qty_finite]|].
      by apply notional_quantity_returns. }
    run_finite Hr.
    run_finite (dsub_returns held (reserved_sell_qty s symbol) Hh
                  (default_dict_finite _ _ (proj1 (proj2 (proj2 dicts_finite))))).
    destruct (dgt_returns z z0) as [b ->]; simpl; eauto.
Qed.

Lemma strict_returns held :
  quote_usable o s = true → is_finite held = true →
  ∃ requested cover available strict,
    requested_sell_qty o (dict_get (quotes s) symbol) = Ok requested
    ∧ reserved_cover_qty s symbol (dict_get (quotes s) symbol) = Ok cover
    ∧ available_reduce_qty o s symbol held cover = Ok available
    ∧ strictly_reduce_only s requested available = Ok strict.
Proof.
  intros Hu Hh. unfold quote_usable in Hu. fold symbol in Hu.
  assert (∃ requested, requested_sell_qty o (dict_get (quotes s) symbol) = Ok requested
            ∧ is_nan requested = false) as (requested & Hr & Hrn).
  { unfold requested_sell_qty. destruct (o_qty o) as [n|] eqn:Hq.
    { eexists. split; [done|]. apply qty_finite in Hq. by destruct n. }
    destruct (dict_get (quotes s) symbol) as [q|]; [|by eexists]. rewrite Hu.
    destruct (notional_quantity_returns q Hu Hq) as (z & -> & Hz). eexists. split; [done|]. by destruct z. }
  assert (returns_finite (reserved_cover_qty s symbol (dict_get (quotes s) symbol))) as (cover & Hc & Hcf).
  { unfold reserved_cover_qty. destruct (dict_get (quotes s) symbol) as [q|]; [|by eexists]. rewrite Hu.
    destruct (quote_valid_finite q Hu) as (Hl & _ & Hz).
    apply ddiv_returns; [|done..]. apply default_dict_finite, dicts_finite. }
  assert (returns_finite (available_reduce_qty o s symbol held cover)) as (available & Ha & Haf).
  { unfold available_reduce_qty. destruct (o_side o).
    - match goal with |- context [dsub ?a ?b] => run_finite (dsub_returns a b
        ltac:(apply dneg_finite, position_quantity_finite) Hcf) end. by apply dmax_returns.
    - match goal with |- context [dsub ?a ?b] => run_finite (dsub_returns a b Hh
        ltac:(apply default_dict_finite, dicts_finite)) end. by apply dmax_returns. }
  assert (is_nan available = false) as Han by by destruct available.
  assert (∃ strict, strictly_reduce_only s requested available = Ok strict) as [strict Hs].
  { unfold strictly_reduce_only. destruct (broker_reconciled s && _); [|eauto].
    unfold dgt, dlt, dle, dordered. rewrite Hrn, Han. cbn [orb mbind outcome_bind is_nan dzero of_Z].
    destruct (dcmp_lt _ requested); eexists; reflexivity. }
  by exists requested, cover, available, strict.
Qed.

Lemma loss_returns : ∃ b, loss_limit_reached s cfg = Ok b.
Proof.
  unfold loss_limit_reached. case_match eqn:Hf; [|eauto]. unfold pnl_is_finite in Hf. reflect_bools.
  match goal with |- context [dadd ?a ?b] =>
    run_finite (dadd_returns a b ltac:(done) ltac:(done)) end.
  apply dle_returns; [done|]. apply dneg_finite, limits_finite. set_solver.
Qed.

Lemma drawdown_returns : ∃ b, drawdown_limit_reached s cfg = Ok b.
Proof.
  unfold drawdown_limit_reached, drawdown_pct. case_match eqn:Ha; [|eauto].
  apply account_usable_finite in Ha as (_ & He & Hh). pose proof (pos_finite_nonzero _ Hh) as Hz.
  apply pos_finite_finite in He, Hh.
  match goal with |- context [dsub ?a ?b] => run_finite (dsub_returns a b Hh He) end.
  match goal with |- context [ddiv ?a ?b] => run_finite (ddiv_returns a b ltac:(done) Hh Hz) end.
  match goal with |- context [dmul ?a ?b] => run_finite (dmul_returns a b ltac:(done) eq_refl) end.
  apply dle_returns; [|done]. apply limits_finite. set_solver.
Qed.

Lemma spread_returns : ∃ b, spread_exceeded s cfg symbol = Ok b.
Proof.
  unfold spread_exceeded. case_match eqn:Hs; [|eauto]. apply dgt_returns.
  - by eapply dict_get_finite; [exact (proj1 dicts_finite)|].
  - apply limits_finite. set_solver.
Qed.

Lemma warning_returns : quote_usable o s = true → ∃ l, warning_stage o s cfg = Ok l.
Proof.
  intros Hu. unfold warning_stage, check_cross_broker_concentration. case_match; [|eauto].
  destruct (reference_quote o s) as [q|] eqn:Hq; [|simpl; eauto].
  destruct (ticker_values_returns q (reference_quote_valid q Hu Hq)) as ([[c p]|] & -> & Hf);
    simpl; [|eauto]. destruct (Hf c p eq_refl) as [_ Hp].
  assert (is_finite (external_position_value s (upper (o_ticker o))) = true) as He.
  { unfold external_position_value. case_match eqn:Hx; [|done]. apply dabs_finite.
    by eapply dict_get_finite; [exact (proj2 (proj2 (proj2 dicts_finite)))|]. }
  match goal with |- context [dadd ?a ?b] => run_finite (dadd_returns a b Hp He) end.
  destruct (dgt_returns _ dzero He eq_refl) as [[] ->]; simpl; [|eauto].
  destruct (dgt_returns z (max_position_per_ticker cfg)) as [b ->]; simpl; eauto.
  apply limits_finite. set_solver.
Qed.

End Totality.

(** The check returns a verdict on finite inputs, for any quotes and positions: no invalid operation,
    no division by zero and no assertion escapes it.  The arithmetic of [PyDecimal] has no
    greatest exponent, so this says nothing of Python's [Overflow] signal, which magnitudes of
    10^999999 raise. *)
Theorem check_returns cfg o s : finite_inputs cfg o s → ∃ r, check cfg o s = Ok r.
Proof.
  intros Hin. destruct (quote_usable o s) eqn:Hu; [|eexists; by apply check_invalid_quote].
  destruct (dmax_returns _ dzero (position_quantity_finite o s) eq_refl) as (held & Hh & Hhf).
  destruct (strict_returns cfg o s Hin held Hu Hhf) as (req & cov & av & st & Hr & Hc & Ha & Hs).
  destruct (base_checks_returns cfg o s Hin Hu) as [base Hb].
  destruct (funds_stage_returns cfg o s Hin held Hu Hhf) as [funds Hfu].
  destruct (loss_returns cfg o s Hin) as [loss Hl], (drawdown_returns cfg o s Hin) as [dd Hd],
    (spread_returns cfg o s Hin) as [wide Hw], (warning_returns cfg o s Hin Hu) as [warns Hwa].
  unfold check. unfold quote_usable in Hu.
  assert ((match dict_get (quotes s) (upper (o_ticker o)) with
           | Some q => negb (quote_is_valid q) | None => false end) = false) as ->.
  { case_match; [by rewrite Hu|done]. }
  rewrite Hh. cbn [mbind outcome_bind]. rewrite Hr. cbn [mbind outcome_bind].
  rewrite Hc. cbn [mbind outcome_bind]. rewrite Ha. cbn [mbind outcome_bind].
  rewrite Hs. cbn [mbind outcome_bind]. rewrite Hb. cbn [mbind outcome_bind].
  destruct (stale_stage _ _). rewrite Hfu. cbn [mbind outcome_bind].
  rewrite Hl. cbn [mbind outcome_bind]. destruct (limit_stage loss _ _ _).
  rewrite Hd. cbn [mbind outcome_bind]. destruct (limit_stage dd _ _ _).
  rewrite Hw. cbn [mbind outcome_bind]. destruct (spread_stage _ _).
  rewrite Hwa. cbn [mbind outcome_bind]. eauto.
Qed.

(** * Concrete checks *)

Definition demo_config : RiskConfig := {|
  ticker_allowlist := ["AAPL"]; max_notional_per_order := of_Z 1000;
  max_position_per_ticker := of_Z 5000; max_portfolio_exposure := of_Z 20000;
  daily_realized_loss_limit := of_Z 200; price_sanity_pct := of_Z 5;
  reject_when_market_closed := true; proposal_ttl_minutes := 15;
  warn_on_cross_broker_concentration := true; per_trade_risk_pct := Fin 5 (-1);
  max_quote_age_seconds := of_Z 60; max_spread_pct := of_Z 1;
  max_daily_total_loss := of_Z 500; max_account_drawdown_pct := of_Z 10;
  require_broker_reconciled := true |}.

Definition demo_quote : Quote := {|
  q_ticker := "AAPL"; q_bid := Fin 999 (-1); q_ask := Fin 1001 (-1); q_last := of_Z 100;
  q_prev_close := None; q_as_of := None; q_book_as_of := None; q_trade_as_of := None |}.

(** A market sale of five of the ten shares held. *)
Definition demo_order : OrderRequest := {|
  o_ticker := "aapl"; o_side := SELL; o_order_type := MARKET; o_idempotency_key := "k1";
  o_qty := Some (of_Z 5); o_notional := None; o_limit_price := None; o_time_in_force := DAY |}.

Definition demo_snapshot (breakers : gset string) (unrealized : Decimal) : PortfolioSnapshot := {|
  positions := [("AAPL", mkPosition "AAPL" (of_Z 10) (of_Z 90) (of_Z 100) (Some dzero))];
  quotes := [("AAPL", demo_quote)]; buying_power := of_Z 10000; realized_pnl_today := dzero;
  cash := of_Z 10000; unrealized_pnl_today := unrealized; daily_pnl_complete := true;
  account_high_water_mark := of_Z 11000; account_equity := of_Z 11000; account_complete := true;
  quote_fresh := true; market_open := true; market_clock_complete := true;
  spread_pct_by_ticker := [("AAPL", Fin 2 (-1))]; pending_buy_notional_by_ticker := [];
  reserved_sell_qty_by_ticker := [("AAPL", of_Z 2)]; broker_reconciled := true;
  active_breakers := breakers; s_as_of := 0; external_positions := [];
  pending_signed_notional := []; pending_exposure_complete := true |}.

Definition demo_result : RiskResult := mkRiskResult true [] [] [] [].
Definition demo_tripped_result : RiskResult :=
  mkRiskResult true [] []
    [mkIntent (scope_loss EQUITY) "daily total-loss limit reached"]
    ["loss:equity"; "operator_global"].

Lemma demo_check : check demo_config demo_order (demo_snapshot ∅ dzero) = Ok demo_result.
Proof. vm_compute. reflexivity. Qed.

(** A reduce-only sale past an operator stop and a loss limit that it also trips. *)
Lemma demo_check_tripped :
  check demo_config demo_order (demo_snapshot {["operator_global"]} (of_Z (-600)))
  = Ok demo_tripped_result.
Proof. vm_compute. reflexivity. Qed.

(** Witness for C1. *)
Lemma check_approves_admissible_witness :
  admissible demo_config demo_order (demo_snapshot ∅ dzero).
Proof.
  apply (check_approves_admissible demo_config demo_order (demo_snapshot ∅ dzero) demo_result);
    [vm_compute; reflexivity | reflexivity].
Defined.

(** Witness for C2: the operator stop is passed by the reduce-only sale. *)
Lemma check_bypass_safe_witness :
  reduce_only demo_order (demo_snapshot {["operator_global"]} (of_Z (-600))) = Ok true.
Proof.
  apply (check_bypass_safe demo_config demo_order
           (demo_snapshot {["operator_global"]} (of_Z (-600))) demo_tripped_result "operator_global").
  - vm_compute. reflexivity.
  - right. left.
Defined.

(** Witness for C3: the reached loss limit is returned as a trip intent. *)
Lemma check_trips_every_breach_witness :
  mkIntent (scope_loss EQUITY) "daily total-loss limit reached" ∈ breaker_trips demo_tripped_result.
Proof.
  apply (check_trips_every_breach demo_config demo_order
           (demo_snapshot {["operator_global"]} (of_Z (-600))) demo_tripped_result);
    [vm_compute; reflexivity | vm_compute; reflexivity |].
  right. left. split; vm_compute; reflexivity.
Defined.

(** Witness for C4. *)
Lemma approved_sell_within_position_witness :
  dcmp_le (of_Z 5) (position_quantity (demo_snapshot ∅ dzero) "AAPL") = true.
Proof.
  apply (approved_sell_within_position demo_config demo_order (demo_snapshot ∅ dzero) demo_result);
    vm_compute; reflexivity.
Defined.

(** Witness for C5. *)
Lemma check_returns_witness :
  ∃ r, check demo_config demo_order (demo_snapshot ∅ dzero) = Ok r.
Proof.
  apply (check_returns demo_config demo_order (demo_snapshot ∅ dzero)).
  split; [| vm_compute; reflexivity | |]; vm_compute; repeat constructor.
Defined.
