(* ===== verification/Pnl.v ===== *)
(** Realized P&L by FIFO lot tracking, and the daily boundaries: [risk/pnl.py].

    [realized_events] replays the fills in [Decimal] arithmetic as the source does.
    The matching loop has fuel [2 + length book]: in the exact arithmetic of ledger
    fills every iteration consumes the front lot or the rest of the fill, and the
    theorems show the fuel is never exhausted.  The abstract replay [z_replay]
    works on integers (quantities and prices in units of 1e-9) and is the
    reference the decimal replay refines. *)

From S2P Require Import Prelude PyDecimal Assets BrokerModels.
From Stdlib Require Import Lia.
Local Open Scope Z_scope.

Record FillLike : Type := mkFill {
  f_ticker : string;
  f_side : string;
  f_qty : Decimal;
  f_price : Decimal;
  f_filled_at : time;
}.

Record Lot : Type := mkLot { lot_qty : Decimal; lot_price : Decimal }.

Abbreviation event := (time * Decimal)%type.

(** [sorted(fills, key=filled_at)]: a stable insertion sort. *)
Fixpoint insert_fill (f : FillLike) (l : list FillLike) : list FillLike :=
  match l with
  | [] => [f]
  | g :: l' => if f_filled_at f <=? f_filled_at g then f :: l else g :: insert_fill f l'
  end.

Fixpoint sort_fills (l : list FillLike) : list FillLike :=
  match l with [] => [] | f :: l' => insert_fill f (sort_fills l') end.

(** [x += close if x < 0 else -close]. *)
Definition shrink (x close : Decimal) : outcome Decimal :=
  neg ← dlt x dzero;
  dadd x (if neg : bool then close else dneg close).

(** The [while] loop of [_realized_events]. *)
Fixpoint close_lots (fuel : nat) (price : Decimal) (at_ : time) (delta : Decimal)
    (book : list Lot) (events : list event) : outcome (Decimal * list Lot * list event) :=
  match fuel with
  | O => Raise (OtherException "fuel exhausted")
  | S fuel' =>
      if deq delta dzero then Ok (delta, book, events)
      else match book with
      | [] => Ok (delta, book, events)
      | lot :: rest =>
          long ← dgt (lot_qty lot) dzero;
          rising ← dgt delta dzero;
          if Bool.eqb long rising then Ok (delta, book, events)
          else
            close_qty ← dmin (dabs (lot_qty lot)) (dabs delta);
            diff ← (if long : bool then dsub price (lot_price lot)
                    else dsub (lot_price lot) price);
            pnl ← dmul diff close_qty;
            lot_qty' ← shrink (lot_qty lot) close_qty;
            delta' ← shrink delta close_qty;
            let book' := if deq lot_qty' dzero then rest
                         else mkLot lot_qty' (lot_price lot) :: rest in
            close_lots fuel' price at_ delta' book' (events ++ [(at_, pnl)])
      end
  end.

Definition signed_delta (f : FillLike) : Decimal :=
  if bool_decide (f_side f = "buy") then f_qty f else dneg (f_qty f).

(** One pass of the [for fill in ordered] loop over (books, events). *)
Definition replay_fill (st : dict (list Lot) * list event) (f : FillLike)
    : outcome (dict (list Lot) * list event) :=
  let '(books, events) := st in
  let symbol := upper (f_ticker f) in
  let book := default [] (dict_get books symbol) in
  r ← close_lots (2 + length book) (f_price f) (f_filled_at f) (signed_delta f) book events;
  let '(delta, book', events') := r in
  let book'' := if negb (deq delta dzero) then book' ++ [mkLot delta (f_price f)] else book' in
  Ok (dict_set books symbol book'', events').

Definition replay (fills : list FillLike) : outcome (dict (list Lot) * list event) :=
  outcome_foldl replay_fill ([], []) (sort_fills fills).

Definition realized_events (fills : list FillLike) : outcome (list event) :=
  st ← replay fills; Ok st.2.

Definition realized_pnl (fills : list FillLike) (since : option time) : outcome Decimal :=
  events ← realized_events fills;
  outcome_foldl (λ total ev,
      if match since with None => true | Some t => t <=? ev.1 end
      then dadd total ev.2 else Ok total)
    dzero events.

(** * Daily boundaries *)

Definition second : Z := 1000000.
Definition day : Z := 86400 * second.

(** [most_recent_utc_midnight]. *)
Definition most_recent_utc_midnight (now : time) : time := now - now mod day.

(** [date.weekday()]: Monday is 0; the epoch was a Thursday. *)
Definition weekday (wall : Z) : Z := (wall / day + 3) mod 7.

(** 09:30 on a wall clock day. *)
Definition regular_open : Z := (9 * 3600 + 30 * 60) * second.

(** The loop rolling back over weekends; two steps always suffice. *)
Fixpoint roll_back_weekend (fuel : nat) (candidate : Z) : Z :=
  match fuel with
  | O => candidate
  | S f => if 5 <=? weekday candidate then roll_back_weekend f (candidate - day) else candidate
  end.

(** The wall-clock computation of [most_recent_regular_open], from the New York wall
    clock reading. *)
Definition regular_open_wall (local_ : Z) : Z :=
  let candidate := local_ - local_ mod day + regular_open in
  let candidate := if local_ <? candidate then candidate - day else candidate in
  roll_back_weekend 2 candidate.

Section NewYork.
(** The time-zone database: UTC instant to New York wall clock and back. *)
Context (astimezone_ny : time → Z) (wall_to_utc : Z → time).

Definition most_recent_regular_open (now : time) : time :=
  wall_to_utc (regular_open_wall (astimezone_ny now)).

Definition most_recent_daily_boundary (now : time) (asset_class : AssetClass) : time :=
  match asset_class with
  | CRYPTO => most_recent_utc_midnight now
  | EQUITY => most_recent_regular_open now
  end.

Definition realized_pnl_today_of (fills : list FillLike) (now : time) (asset_class : AssetClass)
    (boundary : option time) : outcome Decimal :=
  let since := match boundary with
               | Some b => b
               | None => most_recent_daily_boundary now asset_class
               end in
  realized_pnl fills (Some since).
End NewYork.

(** Wall-clock day [d] at 09:30. *)
Definition open_of_day (d : Z) : Z := d * day + regular_open.

Lemma open_of_day_div d : open_of_day d / day = d.
Proof.
  unfold open_of_day. rewrite Z.div_add_l by done.
  rewrite (Z.div_small regular_open) by done. lia.
Qed.

Lemma weekday_open d : weekday (open_of_day d) = (d + 3) mod 7.
Proof. unfold weekday. by rewrite open_of_day_div. Qed.

Lemma open_of_day_inv b : b mod day = regular_open → b = open_of_day (b / day).
Proof. intros H. unfold open_of_day. pose proof (Z.div_mod b day ltac:(done)). lia. Qed.

Lemma roll_back_weekend_day d :
  ∃ d', roll_back_weekend 2 (open_of_day d) = open_of_day d' ∧ d' ≤ d ∧ (d' + 3) mod 7 < 5
        ∧ ∀ e, e ≤ d → (e + 3) mod 7 < 5 → e ≤ d'.
Proof.
  assert (∀ e, open_of_day e - day = open_of_day (e - 1)) as Hsub by (intros; unfold open_of_day; lia).
  simpl. rewrite !Hsub, !weekday_open.
  destruct (Z.leb_spec 5 ((d + 3) mod 7)); [destruct (Z.leb_spec 5 ((d - 1 + 3) mod 7))|];
    eexists; (split; [reflexivity|]); split_and!; try (intros e ? ?);
    Z.to_euclidean_division_equations; lia.
Qed.

(** The session boundary is a weekday 09:30 no later than the observed wall
    clock, and no other weekday 09:30 lies between it and the observation. *)
Theorem regular_open_wall_most_recent local_ :
  let b := regular_open_wall local_ in
  b ≤ local_ ∧ b mod day = regular_open ∧ weekday b < 5
  ∧ ∀ b', b' mod day = regular_open → weekday b' < 5 → b' ≤ local_ → b' ≤ b.
Proof.
  unfold regular_open_wall. set (d := local_ / day).
  pose proof (Z.div_mod local_ day ltac:(done)) as Hdm. pose proof (Z.mod_pos_bound local_ day ltac:(done)).
  assert (local_ - local_ mod day + regular_open = open_of_day d) as -> by (unfold open_of_day, d; lia).
  assert (∃ c, (if local_ <? open_of_day d then open_of_day d - day else open_of_day d) = open_of_day c
               ∧ open_of_day c ≤ local_ < open_of_day (c + 1)) as (c & -> & Hc).
  { destruct (Z.ltb_spec local_ (open_of_day d)); [exists (d - 1)|exists d];
      unfold open_of_day, regular_open, d, day, second in *; lia. }
  destruct (roll_back_weekend_day c) as (d' & -> & Hle & Hwd & Hmax). simpl.
  split_and!.
  - unfold open_of_day in *. unfold day, second in *. lia.
  - unfold open_of_day. rewrite Z.add_comm, Z_mod_plus_full. by apply Z.mod_small.
  - by rewrite weekday_open.
  - intros b' Hb' Hw Hlt. rewrite (open_of_day_inv b' Hb') in Hw, Hlt |- *.
    rewrite weekday_open in Hw. apply Hmax in Hw.
    + unfold open_of_day, day, second in *. lia.
    + unfold open_of_day, day, second in *. lia.
Qed.

(** * The replay on integers *)

(** A ledger fill: signed side, quantity and price in units of 1e-9. *)
Record ZFill : Type := mkZFill {
  zf_ticker : string;
  zf_buy : bool;
  zf_qty : Z;
  zf_price : Z;
  zf_at : time;
}.

Abbreviation zlot := (Z * Z)%type.

Definition z_delta (f : ZFill) : Z := if zf_buy f then zf_qty f else - zf_qty f.

(** Move [x] towards zero by [c]. *)
Definition z_shrink (x c : Z) : Z := if x <? 0 then x + c else x - c.

Definition z_pnl (p lq lp c : Z) : Z := (if 0 <? lq then p - lp else lp - p) * c.

Fixpoint z_close (p delta : Z) (book : list zlot) : Z * list zlot * list Z :=
  match book with
  | [] => (delta, [], [])
  | (lq, lp) :: rest =>
      if delta =? 0 then (delta, book, [])
      else if Bool.eqb (0 <? lq) (0 <? delta) then (delta, book, [])
      else
        let c := Z.min (Z.abs lq) (Z.abs delta) in
        if z_shrink lq c =? 0 then
          let '(d, b, ev) := z_close p (z_shrink delta c) rest in (d, b, z_pnl p lq lp c :: ev)
        else (z_shrink delta c, (z_shrink lq c, lp) :: rest, [z_pnl p lq lp c])
  end.

Definition z_open (d p : Z) (book : list zlot) : list zlot :=
  if d =? 0 then book else book ++ [(d, p)].

Definition z_step (st : dict (list zlot) * list (time * Z)) (f : ZFill)
    : dict (list zlot) * list (time * Z) :=
  let symbol := upper (zf_ticker f) in
  let '(d, b, ev) := z_close (zf_price f) (z_delta f) (default [] (dict_get st.1 symbol)) in
  (dict_set st.1 symbol (z_open d (zf_price f) b), st.2 ++ map (pair (zf_at f)) ev).

Fixpoint z_insert (f : ZFill) (l : list ZFill) : list ZFill :=
  match l with
  | [] => [f]
  | g :: l' => if zf_at f <=? zf_at g then f :: l else g :: z_insert f l'
  end.

Fixpoint z_sort (l : list ZFill) : list ZFill :=
  match l with [] => [] | f :: l' => z_insert f (z_sort l') end.

Definition z_replay (fills : list ZFill) : dict (list zlot) * list (time * Z) :=
  foldl z_step ([], []) (z_sort fills).

(** ** Embedding into the decimal replay *)

Definition d9 (z : Z) : Decimal := Fin z (-9).

Definition embed_fill (f : ZFill) : FillLike :=
  mkFill (zf_ticker f) (if zf_buy f then "buy" else "sell") (d9 (zf_qty f)) (d9 (zf_price f)) (zf_at f).

Definition embed_lot (l : zlot) : Lot := mkLot (d9 l.1) (d9 l.2).
Definition embed_books (b : dict (list zlot)) : dict (list Lot) :=
  map (λ p, (p.1, map embed_lot p.2)) b.
Definition embed_event (e : time * Z) : event := (e.1, Fin e.2 (-18)).

Lemma deq_zero c e : deq (Fin c e) dzero = (c =? 0).
Proof.
  unfold deq, dzero, of_Z. simpl is_nan. rewrite (dcmp_align _ _ _ _ (Z.min e 0)) by lia.
  pose proof (pow10_pos (e - Z.min e 0) ltac:(lia)). simpl andb.
  destruct (Z.eqb_spec c 0) as [->|Hc]; [by rewrite !Z.mul_0_l|].
  destruct (Z.compare_spec (c * 10 ^ (e - Z.min e 0)) (0 * 10 ^ (0 - Z.min e 0))); try done. nia.
Qed.

Lemma dcmp_zero_lt c e : dcmp_lt dzero (Fin c e) = (0 <? c).
Proof.
  pose proof (pow10_pos (e - Z.min e 0) ltac:(lia)). unfold dzero, of_Z.
  destruct (Z.ltb_spec 0 c).
  - apply (dcmp_lt_align _ _ _ _ (Z.min e 0)); [lia..|nia].
  - apply (dcmp_lt_false _ _ _ _ (Z.min e 0)); [lia..|nia].
Qed.

Lemma dcmp_lt_zero c e : dcmp_lt (Fin c e) dzero = (c <? 0).
Proof.
  pose proof (pow10_pos (e - Z.min e 0) ltac:(lia)). unfold dzero, of_Z.
  destruct (Z.ltb_spec c 0).
  - apply (dcmp_lt_align _ _ _ _ (Z.min e 0)); [lia..|nia].
  - apply (dcmp_lt_false _ _ _ _ (Z.min e 0)); [lia..|nia].
Qed.

Lemma dmin_same_exp a b e : dmin (Fin a e) (Fin b e) = Ok (Fin (Z.min a b) e).
Proof.
  unfold dmin, dlt, dordered. simpl. unfold dcmp_lt. rewrite dcmp_same_exp.
  do 2 f_equal. destruct (Z.compare_spec b a); simpl; f_equal; lia.
Qed.

Lemma fits_le x y : Z.abs x ≤ y → y < 10 ^ 28 → fits x.
Proof. unfold fits, context_prec. lia. Qed.

Lemma dabs_d9 z : fits z → dabs (d9 z) = d9 (Z.abs z).
Proof. intros. simpl. apply dround_exact. unfold fits in *. lia. Qed.

Lemma dneg_d9 z : fits z → dneg (d9 z) = d9 (- z).
Proof. intros. simpl. apply dround_exact. unfold fits in *. lia. Qed.

Lemma shrink_d9 x c :
  fits x → fits c → fits (z_shrink x c) → shrink (d9 x) (d9 c) = Ok (d9 (z_shrink x c)).
Proof.
  intros Hx Hc Hs. unfold shrink, dlt. rewrite dordered_returns by done.
  rewrite (dcmp_lt_zero x (-9) : dcmp_lt (d9 x) dzero = _). cbn [mbind outcome_bind]. unfold z_shrink in *. destruct (x <? 0).
  - by apply dadd_exact.
  - rewrite dneg_d9 by done. by apply dadd_exact.
Qed.

(** ** Refinement of one fill *)

Fixpoint lots_total (book : list zlot) : Z :=
  match book with [] => 0 | l :: b => Z.abs l.1 + lots_total b end.

Definition lot_ok (P : Z) (l : zlot) : Prop := l.1 ≠ 0 ∧ 0 < l.2 ≤ P.

Lemma lots_total_nonneg book : 0 ≤ lots_total book.
Proof. induction book; simpl; lia. Qed.

Lemma dgt_zero_d9 z : dgt (d9 z) dzero = Ok (0 <? z).
Proof.
  unfold dgt, dlt. rewrite dordered_returns by done.
  by rewrite (dcmp_zero_lt z (-9) : dcmp_lt dzero (d9 z) = _).
Qed.

Lemma pnl_d18 p lq lp c :
  fits (p - lp) → fits (z_pnl p lq lp c) →
  (diff ← (if 0 <? lq then dsub (d9 p) (d9 lp) else dsub (d9 lp) (d9 p)); dmul diff (d9 c))
  = Ok (Fin (z_pnl p lq lp c) (-18)).
Proof.
  intros Hd Hf. unfold z_pnl in *. unfold d9.
  destruct (0 <? lq); rewrite dsub_exact by (unfold fits in *; lia); cbn [mbind outcome_bind];
    by rewrite dmul_exact.
Qed.

Lemma z_shrink_abs x c : 0 ≤ c ≤ Z.abs x → Z.abs (z_shrink x c) = Z.abs x - c.
Proof. unfold z_shrink. destruct (Z.ltb_spec x 0); lia. Qed.

(** ** Accounting of the integer replay *)

Fixpoint zsum (l : list Z) : Z := match l with [] => 0 | x :: l' => x + zsum l' end.

(** Net inventory and cost basis of a book. *)
Definition book_net (book : list zlot) : Z := zsum (map fst book).
Definition book_cost (book : list zlot) : Z := zsum (map (λ l, l.1 * l.2) book).
Definition one_sided (book : list zlot) : Prop :=
  Forall (λ l, 0 < l.1) book ∨ Forall (λ l, l.1 < 0) book.

Lemma zsum_app l k : zsum (l ++ k) = zsum l + zsum k.
Proof. induction l; simpl; lia. Qed.

Lemma lots_total_app b c : lots_total (b ++ c) = lots_total b + lots_total c.
Proof. induction b; simpl; lia. Qed.

(** Lot matching conserves inventory and cash, and leaves a one-sided book whose lots
    agree in sign with whatever of the fill is left. *)
Record close_post (P p delta : Z) (book : list zlot) (d : Z) (b : list zlot) (ev : list Z) : Prop := {
  cp_net : book_net b + d = book_net book + delta;
  cp_cash : zsum ev = book_cost b + d * p - book_cost book - delta * p;
  cp_total : zsum (map Z.abs ev) + P * (lots_total b + Z.abs d) ≤ P * (lots_total book + Z.abs delta);
  cp_ok : Forall (lot_ok P) b;
  cp_sided : one_sided b;
  cp_sign : d ≠ 0 → b = [] ∨ (∀ l, l ∈ b → (0 < l.1 ↔ 0 < d));
}.

Lemma one_sided_sign (book : list zlot) lq lp d :
  one_sided ((lq, lp) :: book) → d ≠ 0 → (0 <? lq) = (0 <? d) →
  ∀ l, l ∈ (lq, lp) :: book → (0 < l.1 ↔ 0 < d).
Proof.
  intros Hs Hd He l Hl. destruct Hs as [Hs|Hs]; rewrite Forall_forall in Hs;
    pose proof (Hs (lq, lp) (list_elem_of_here _ _)); pose proof (Hs l Hl); simpl in *;
    destruct (Z.ltb_spec 0 lq), (Z.ltb_spec 0 d); try done; lia.
Qed.

Lemma one_sided_cons lq lp book :
  one_sided ((lq, lp) :: book) → one_sided book.
Proof. intros [H|H]; apply Forall_cons in H as [_ H]; [left|right]; done. Qed.

Lemma z_close_post P p delta book :
  0 < p ≤ P → Forall (lot_ok P) book → one_sided book →
  let '(d, b, ev) := z_close p delta book in close_post P p delta book d b ev.
Proof.
  intros Hp. revert delta. induction book as [|[lq lp] rest IH]; intros delta Hok Hs.
  { simpl. split; simpl; try (unfold book_net, book_cost; simpl; lia); auto. }
  cbn [z_close]. destruct (Z.eqb_spec delta 0) as [->|Hdn].
  { split; simpl; auto; try lia. }
  destruct (Bool.eqb (0 <? lq) (0 <? delta)) eqn:Hsame.
  { apply Bool.eqb_prop in Hsame. split; auto; simpl; try lia.
    intros _. right. by apply (one_sided_sign rest lq lp). }
  apply eqb_false_iff in Hsame.
  apply Forall_cons in Hok as [[Hlq Hlp] Hok]. cbn [fst snd] in Hlq, Hlp.
  set (c := Z.min (Z.abs lq) (Z.abs delta)). assert (0 < c) as Hc by lia.
  assert (z_shrink lq c + z_shrink delta c = lq + delta) as Hnet.
  { unfold z_shrink. destruct (Z.ltb_spec 0 lq), (Z.ltb_spec 0 delta), (Z.ltb_spec lq 0), (Z.ltb_spec delta 0);
      try done; lia. }
  assert (z_pnl p lq lp c = z_shrink lq c * lp - lq * lp + (z_shrink delta c - delta) * p) as Hpnl.
  { unfold z_pnl, z_shrink in *. destruct (Z.ltb_spec 0 lq), (Z.ltb_spec 0 delta), (Z.ltb_spec lq 0), (Z.ltb_spec delta 0);
      try done; lia. }
  assert (Z.abs (z_pnl p lq lp c) ≤ P * c) as Habs
    by (unfold z_pnl; rewrite Z.abs_mul, (Z.abs_eq c) by lia; apply Z.mul_le_mono_nonneg_r;
        [lia|destruct (0 <? lq); lia]).
  pose proof (z_shrink_abs lq c ltac:(lia)) as Hla. pose proof (z_shrink_abs delta c ltac:(lia)) as Hda.
  assert (0 < P * c) by (apply Z.mul_pos_pos; lia).
  destruct (Z.eqb_spec (z_shrink lq c) 0) as [Hzero|Hnz].
  - specialize (IH (z_shrink delta c) Hok (one_sided_cons _ _ _ Hs)).
    destruct (z_close p (z_shrink delta c) rest) as [[d b] ev].
    destruct IH as [Inet Icash Itot Iok Isd Isg].
    split; auto; unfold book_net, book_cost in *; cbn [zsum map fst snd lots_total] in *;
      rewrite ?Hpnl, ?Hda in *; lia.
  - assert (z_shrink delta c = 0) as Hd0 by lia.
    split; unfold book_net, book_cost in *; cbn [zsum map fst snd lots_total] in *;
      try (rewrite ?Hla, ?Hda, ?Hpnl in *; lia).
    + constructor; [split; simpl; lia|done].
    + destruct Hs as [Hs|Hs]; apply Forall_cons in Hs as [H1 H2]; simpl in H1; [left|right];
        (constructor; [simpl|done]); unfold z_shrink in *; destruct (Z.ltb_spec lq 0); lia.
Qed.

Section Replay.
Context (P S : Z) (HP : 0 < P) (HPS : P * S < 10 ^ 28).

Lemma close_lots_refines p at_ book fuel delta evs :
  (length book + 2 ≤ fuel)%nat → 0 < p ≤ P → Z.abs delta ≤ S → lots_total book ≤ S →
  Forall (lot_ok P) book →
  close_lots fuel (d9 p) at_ (d9 delta) (map embed_lot book) evs
  = let '(d, b, ev) := z_close p delta book in
    Ok (d9 d, map embed_lot b, evs ++ map (λ x, embed_event (at_, x)) ev).
Proof.
  intros Hfuel Hp. revert fuel delta evs Hfuel.
  induction book as [|[lq lp] rest IH]; intros fuel delta evs Hfuel Hd Hb Hok;
    (destruct fuel as [|fuel]; [simpl in Hfuel; lia|]).
  { simpl. rewrite app_nil_r. by case_match. }
  assert (deq (d9 delta) dzero = (delta =? 0)) as Hz by apply deq_zero.
  cbn [close_lots map z_close]. rewrite Hz.
  destruct (Z.eqb_spec delta 0) as [|Hdn]; [simpl; rewrite app_nil_r; reflexivity|].
  change (lot_qty (embed_lot (lq, lp))) with (d9 lq). change (lot_price (embed_lot (lq, lp))) with (d9 lp).
  rewrite !dgt_zero_d9. cbn [mbind outcome_bind].
  destruct (Bool.eqb (0 <? lq) (0 <? delta)) eqn:Hsame; [simpl; rewrite app_nil_r; reflexivity|].
  apply Forall_cons in Hok as [[Hlq Hlp] Hok]. cbn [fst snd] in Hlq, Hlp.
  pose proof (lots_total_nonneg rest). cbn [lots_total fst] in Hb.
  set (c := Z.min (Z.abs lq) (Z.abs delta)).
  assert (0 < c ≤ S) as Hc by lia.
  assert (S < 10 ^ 28) as HS by nia.
  assert (fits lq ∧ fits delta ∧ fits c) as (Hflq & Hfd & Hfc) by (unfold fits, context_prec; lia).
  assert (fits (z_shrink lq c) ∧ fits (z_shrink delta c)) as (Hfs1 & Hfs2)
    by (unfold fits in *; rewrite !z_shrink_abs by lia; lia).
  assert (Z.abs (z_pnl p lq lp c) ≤ P * c) as Hpb
    by (unfold z_pnl; rewrite Z.abs_mul, (Z.abs_eq c) by lia; apply Z.mul_le_mono_nonneg_r;
        [lia|case_match; lia]).
  assert (P * c ≤ P * S) as HPc by (apply Z.mul_le_mono_nonneg_l; lia).
  rewrite !dabs_d9 by done.
  rewrite (dmin_same_exp _ _ _ : dmin (d9 (Z.abs lq)) (d9 (Z.abs delta)) = _). fold c.
  change (Fin c (-9)) with (d9 c). cbn [mbind outcome_bind].
  assert ((if 0 <? lq then dsub (d9 p) (d9 lp) else dsub (d9 lp) (d9 p))
          ≫= (λ diff, dmul diff (d9 c)) = Ok (Fin (z_pnl p lq lp c) (-18))) as Hpnl.
  { apply pnl_d18; [unfold fits, context_prec in *; nia|]. by apply (fits_le _ (P * S)); lia. }
  apply outcome_bind_Ok in Hpnl as (diff & Hdiff & Hmul).
  rewrite Hdiff. cbn [mbind outcome_bind]. rewrite Hmul. cbn [mbind outcome_bind].
  rewrite !shrink_d9 by done. cbn [mbind outcome_bind].
  rewrite (deq_zero (z_shrink lq c) (-9) : deq (d9 (z_shrink lq c)) dzero = _).
  destruct (Z.eqb_spec (z_shrink lq c) 0) as [Hzero|Hnz].
  - rewrite IH; [|simpl in Hfuel; lia|rewrite z_shrink_abs; lia|lia|done].
    destruct (z_close p (z_shrink delta c) rest) as [[d b] ev]. rewrite <- app_assoc. done.
  - assert (z_shrink delta c = 0) as Hd0.
    { unfold z_shrink in *. apply eqb_false_iff in Hsame.
      destruct (Z.ltb_spec 0 lq), (Z.ltb_spec 0 delta), (Z.ltb_spec lq 0), (Z.ltb_spec delta 0);
        try done; lia. }
    rewrite Hd0. destruct fuel as [|fuel]; [simpl in Hfuel; lia|]. simpl. done.
Qed.


(** ** The whole replay *)

(** A weight of books that ignores empty ones, summed over a dictionary. *)
Definition books_sum (w : list zlot → Z) (books : dict (list zlot)) : Z :=
  zsum (map (λ p, w p.2) books).

Lemma books_sum_set w books k b :
  w [] = 0 →
  books_sum w (dict_set books k b)
  = books_sum w books - w (default [] (dict_get books k)) + w b.
Proof.
  intros Hw. unfold books_sum. induction books as [|[k' v'] books IH]; simpl; [lia|].
  destruct (decide (k = k')); simpl; [lia|]. rewrite IH. lia.
Qed.

Lemma dict_get_embed books k :
  default [] (dict_get (embed_books books) k) = map embed_lot (default [] (dict_get books k)).
Proof. induction books as [|[k' v'] books IH]; simpl; [done|]. by destruct (decide (k = k')). Qed.

Lemma dict_set_embed books k b :
  dict_set (embed_books books) k (map embed_lot b) = embed_books (dict_set books k b).
Proof.
  induction books as [|[k' v'] books IH]; simpl; [done|].
  destruct (decide (k = k')); simpl; [done|]. by rewrite <- IH.
Qed.

Lemma sort_embed fills : sort_fills (map embed_fill fills) = map embed_fill (z_sort fills).
Proof.
  induction fills as [|f fills IH]; simpl; [done|]. rewrite IH. clear IH.
  induction (z_sort fills) as [|g l IH]; simpl; [done|].
  destruct (zf_at f <=? zf_at g); simpl; [done|]. by rewrite IH.
Qed.

Definition zfill_ok (f : ZFill) : Prop := 0 < zf_qty f ∧ 0 < zf_price f ≤ P.
Definition volume (fills : list ZFill) : Z := zsum (map zf_qty fills).

Definition book_good (book : list zlot) : Prop := Forall (lot_ok P) book ∧ one_sided book.

(** The state after the fills [done_], as the accounting identities see it. *)
Record replay_inv (done_ : list ZFill) (st : dict (list zlot) * list (time * Z)) : Prop := {
  ri_net : ∀ k, book_net (default [] (dict_get st.1 k))
                = zsum (map z_delta (filter (λ f, upper (zf_ticker f) = k) done_));
  ri_cash : zsum (map snd st.2)
            = books_sum book_cost st.1 - zsum (map (λ f, z_delta f * zf_price f) done_);
  ri_total : zsum (map Z.abs (map snd st.2)) + P * books_sum lots_total st.1 ≤ P * volume done_;
  ri_good : ∀ k, book_good (default [] (dict_get st.1 k));
  ri_nodup : NoDup (dict_keys st.1);
}.

Lemma dict_keys_set_NoDup {A} (d : dict A) k v : NoDup (dict_keys d) → NoDup (dict_keys (dict_set d k v)).
Proof.
  assert (∀ d' : dict A, ∀ x, x ∈ dict_keys (dict_set d' k v) → x = k ∨ x ∈ dict_keys d') as Hin.
  { unfold dict_keys. induction d' as [|[k' v'] d' IH]; intros x; simpl; [set_solver|].
    destruct (decide (k = k')); csimpl; rewrite !elem_of_cons; naive_solver. }
  unfold dict_keys in *. induction d as [|[k' v'] d IH]; csimpl; [intros; apply NoDup_singleton|].
  rewrite NoDup_cons. intros [Hn Hd]. destruct (decide (k = k')) as [->|Hne]; csimpl; apply NoDup_cons;
    (split; [|auto]); [done|]. intros [?|?]%Hin; [by apply Hne|done].
Qed.

Lemma z_delta_abs f : zfill_ok f → Z.abs (z_delta f) = zf_qty f.
Proof. intros [? _]. unfold z_delta. destruct (zf_buy f); lia. Qed.

Lemma book_net_open d p b : book_net (z_open d p b) = book_net b + d.
Proof.
  unfold z_open, book_net. destruct (Z.eqb_spec d 0); [lia|].
  rewrite map_app, zsum_app. simpl. lia.
Qed.

Lemma book_cost_open d p b : book_cost (z_open d p b) = book_cost b + d * p.
Proof.
  unfold z_open, book_cost. destruct (Z.eqb_spec d 0); [lia|].
  rewrite map_app, zsum_app. simpl. lia.
Qed.

Lemma lots_total_open d p b : lots_total (z_open d p b) = lots_total b + Z.abs d.
Proof. unfold z_open. destruct (Z.eqb_spec d 0); [lia|]. rewrite lots_total_app. simpl. lia. Qed.

Lemma z_open_good p delta book d b ev :
  0 < p ≤ P → close_post P p delta book d b ev → book_good (z_open d p b).
Proof.
  intros Hp [_ _ _ Hok Hsd Hsg]. unfold z_open. destruct (Z.eqb_spec d 0) as [|Hd]; [by split|].
  split; [by apply Forall_app; split; [|apply Forall_singleton]|].
  unfold one_sided. rewrite !Forall_app, !Forall_singleton, !Forall_forall. simpl.
  destruct (Hsg Hd) as [->|Hsig].
  - destruct (Z.lt_total 0 d) as [?|[?|?]]; [left|lia|right]; split; auto;
      by intros ? ?%elem_of_nil.
  - unfold one_sided in Hsd. rewrite !Forall_forall in Hsd.
    destruct (Z.lt_total 0 d) as [?|[?|?]]; [left|lia|right]; (split; [|lia]); intros l Hl.
    + by apply Hsig.
    + destruct Hsd as [Hp'|Hn]; [|by apply Hn]. pose proof (Hp' l Hl). apply Hsig in Hl. lia.
Qed.

Lemma map_snd_pair (t : time) (ev : list Z) : map snd (map (pair t) ev) = ev.
Proof. rewrite map_map. apply map_id. Qed.

Lemma z_step_inv done_ st f :
  zfill_ok f → replay_inv done_ st → replay_inv (done_ ++ [f]) (z_step st f).
Proof.
  intros Hf [Hnet Hcash Htot Hgood Hnd]. pose proof (z_delta_abs f Hf) as Habs.
  unfold z_step. set (k := upper (zf_ticker f)).
  destruct (Hgood k) as [Hok Hsd].
  pose proof (z_close_post P (zf_price f) (z_delta f) _ (proj2 Hf) Hok Hsd) as Hpost.
  destruct (z_close _ _ _) as [[d b] ev]. pose proof Hpost as [Pnet Pcash Ptot _ _ _].
  assert (∀ k', default [] (dict_get (dict_set st.1 k (z_open d (zf_price f) b)) k')
          = if decide (k = k') then z_open d (zf_price f) b else default [] (dict_get st.1 k')) as Hget.
  { intros k'. destruct (decide (k = k')) as [<-|]; [by rewrite dict_get_set_eq|by rewrite dict_get_set_ne]. }
  split; cbn [fst snd].
  - intros k'. rewrite Hget, filter_app, map_app, zsum_app, <- Hnet.
    rewrite filter_cons, filter_nil. fold k. destruct (decide (k = k')) as [<-|]; simpl; [|lia].
    rewrite book_net_open. lia.
  - rewrite !map_app, !zsum_app, map_snd_pair, books_sum_set, book_cost_open by done. simpl. lia.
  - rewrite !map_app, !zsum_app, map_snd_pair, books_sum_set, lots_total_open by done.
    unfold volume. rewrite map_app, zsum_app. simpl. fold (volume done_). lia.
  - intros k'. rewrite Hget. destruct (decide (k = k')); [|apply Hgood].
    eapply z_open_good; [apply Hf|apply Hpost].
  - by apply dict_keys_set_NoDup.
Qed.

Lemma books_total_book books k :
  lots_total (default [] (dict_get books k)) ≤ books_sum lots_total books.
Proof.
  unfold books_sum. induction books as [|[k' v'] books IH]; simpl; [lia|].
  assert (∀ bs : dict (list zlot), 0 ≤ zsum (map (λ p, lots_total p.2) bs)) as Hnn.
  { induction bs as [|q bs IHb]; simpl; [lia|]. pose proof (lots_total_nonneg q.2). lia. }
  pose proof (Hnn books). pose proof (lots_total_nonneg v'). destruct (decide (k = k')); simpl; lia.
Qed.

Lemma abs_sum_nonneg (l : list Z) : 0 ≤ zsum (map Z.abs l).
Proof. induction l; simpl; lia. Qed.

Lemma volume_app a b : volume (a ++ b) = volume a + volume b.
Proof. unfold volume. by rewrite map_app, zsum_app. Qed.

Lemma volume_nonneg l : Forall zfill_ok l → 0 ≤ volume l.
Proof. unfold volume. induction 1 as [|f l Hf _ IH]; simpl; [lia|]. destruct Hf. lia. Qed.

(** One decimal fill is one integer fill. *)
Lemma replay_fill_refines done_ st f :
  zfill_ok f → replay_inv done_ st → volume done_ + zf_qty f ≤ S →
  replay_fill (embed_books st.1, map embed_event st.2) (embed_fill f)
  = Ok (embed_books (z_step st f).1, map embed_event (z_step st f).2).
Proof.
  intros Hf [Hnet Hcash Htot Hgood _] Hvol. pose proof (z_delta_abs f Hf) as Habs.
  pose proof (abs_sum_nonneg (map snd st.2)). destruct Hf as [Hq Hp].
  assert (0 ≤ books_sum lots_total st.1 ≤ volume done_) as Hbooks.
  { pose proof (books_total_book st.1 "" ). pose proof (lots_total_nonneg (default [] (dict_get st.1 ""))).
    split; [lia|]. apply (Z.mul_le_mono_pos_l _ _ P); lia. }
  unfold replay_fill, z_step. set (k := upper (zf_ticker f)).
  change (upper (f_ticker (embed_fill f))) with k.
  pose proof (books_total_book st.1 k) as Hk. rewrite dict_get_embed, length_map.
  assert (signed_delta (embed_fill f) = d9 (z_delta f)) as ->.
  { unfold signed_delta, embed_fill, z_delta. cbn [f_side f_qty]. destruct (zf_buy f); [done|].
    rewrite bool_decide_eq_false_2 by done. apply dneg_d9. unfold fits, context_prec. nia. }
  change (f_price (embed_fill f)) with (d9 (zf_price f)). change (f_filled_at (embed_fill f)) with (zf_at f).
  rewrite close_lots_refines; [|lia|done|lia|lia|apply Hgood].
  destruct (z_close _ _ _) as [[d b] ev]. cbn [mbind outcome_bind fst snd].
  rewrite (deq_zero d (-9) : deq (d9 d) dzero = _), map_app, map_map. do 2 f_equal.
  rewrite <- dict_set_embed. f_equal. unfold z_open. destruct (d =? 0); simpl; [done|].
  by rewrite map_app.
Qed.

Lemma replay_refines_gen fills : ∀ done_ st,
  Forall zfill_ok fills → replay_inv done_ st → volume done_ + volume fills ≤ S →
  outcome_foldl replay_fill (embed_books st.1, map embed_event st.2) (map embed_fill fills)
  = Ok (embed_books (foldl z_step st fills).1, map embed_event (foldl z_step st fills).2)
  ∧ replay_inv (done_ ++ fills) (foldl z_step st fills).
Proof.
  induction fills as [|f fills IH]; intros done_ st Hok Hinv Hvol.
  { simpl. by rewrite app_nil_r. }
  apply Forall_cons in Hok as [Hf Hok]. pose proof (volume_nonneg fills Hok).
  change (volume (f :: fills)) with (zf_qty f + volume fills) in Hvol.
  cbn [outcome_foldl map foldl]. rewrite (replay_fill_refines done_) by (done || lia).
  cbn [mbind outcome_bind]. destruct (IH (done_ ++ [f]) (z_step st f)) as [IH1 IH2]; [done| |..].
  - by apply z_step_inv.
  - rewrite volume_app. unfold volume at 2. simpl. lia.
  - split; [exact IH1|]. by rewrite <- app_assoc in IH2.
Qed.

Lemma replay_inv_init : replay_inv [] ([], []).
Proof.
  split; try done; [|constructor]. intros k. split; [constructor|left; constructor].
Qed.

End Replay.

Lemma z_sort_perm fills : z_sort fills ≡ₚ fills.
Proof.
  induction fills as [|f fills IH]; [done|]. rewrite <- IH at 2. simpl. clear IH.
  induction (z_sort fills) as [|g l IH]; simpl; [done|].
  destruct (zf_at f <=? zf_at g); [done|]. rewrite IH. apply Permutation_swap.
Qed.

Lemma zsum_perm l k : l ≡ₚ k → zsum l = zsum k.
Proof. induction 1; simpl; lia. Qed.

(** The decimal replay of a ledger whose notional fits the context is the integer
    replay, with its accounting identities. *)
Lemma replay_refines P fills :
  Forall (zfill_ok P) fills → P * volume fills < 10 ^ 28 → 0 < P →
  replay (map embed_fill fills)
  = Ok (embed_books (z_replay fills).1, map embed_event (z_replay fills).2)
  ∧ replay_inv P fills (z_replay fills).
Proof.
  intros Hok Hvol HP. unfold replay, z_replay. rewrite sort_embed.
  assert (volume (z_sort fills) = volume fills) as Hv
    by (apply zsum_perm; by rewrite z_sort_perm).
  destruct (replay_refines_gen P (volume fills) HP Hvol (z_sort fills) [] ([], []))
    as [Heq [Hn Hc Ht Hg Hnd]].
  - by rewrite z_sort_perm.
  - apply replay_inv_init.
  - rewrite Hv. unfold volume at 1. simpl. lia.
  - split; [exact Heq|]. rewrite app_nil_l in *. split; auto.
    + intros k. rewrite Hn. apply zsum_perm. by rewrite z_sort_perm.
    + rewrite Hc. f_equal. apply zsum_perm. by rewrite z_sort_perm.
    + by rewrite Hv in Ht.
Qed.

(** ** Summing the events *)

Definition since_ok (since : option time) (t : time) : bool :=
  match since with None => true | Some s => s <=? t end.

Definition z_realized (since : option time) (evs : list (time * Z)) : Z :=
  zsum (map snd (filter (λ e, since_ok since e.1 = true) evs)).

Lemma sum_events since evs : ∀ a e,
  (e = -18 ∨ a = 0 ∧ e = 0) → Z.abs a + zsum (map Z.abs (map snd evs)) < 10 ^ 28 →
  ∃ e', outcome_foldl (λ total ev, if since_ok since ev.1 then dadd total ev.2 else Ok total)
          (Fin a e) (map embed_event evs)
        = Ok (Fin (a + z_realized since evs) e')
        ∧ (e' = -18 ∨ a + z_realized since evs = 0 ∧ e' = 0).
Proof.
  unfold z_realized. induction evs as [|[t x] evs IH]; intros a e He Hb; cbn [map outcome_foldl].
  { rewrite filter_nil. simpl. rewrite Z.add_0_r. eauto. }
  cbn [map zsum snd] in Hb. pose proof (abs_sum_nonneg (map snd evs)).
  rewrite filter_cons. cbn [embed_event fst snd]. destruct (since_ok since t) eqn:Hs.
  - rewrite decide_True by done. cbn [map zsum snd].
    assert (dadd (Fin a e) (Fin x (-18)) = Ok (Fin (a + x) (-18))) as ->.
    { destruct He as [->|[-> ->]].
      - apply dadd_exact. unfold fits, context_prec. lia.
      - cbn [dadd]. rewrite Z.mul_0_l. change (10 ^ (-18 - Z.min 0 (-18))) with 1.
        rewrite Z.mul_1_r. rewrite dround_exact by (unfold fits, context_prec; lia). done. }
    cbn [mbind outcome_bind]. rewrite Z.add_assoc. apply IH; [by left|lia].
  - rewrite decide_False by done. cbn [mbind outcome_bind]. apply IH; [done|lia].
Qed.

Lemma realized_pnl_refines P fills since :
  Forall (zfill_ok P) fills → P * volume fills < 10 ^ 28 → 0 < P →
  ∃ e, realized_pnl (map embed_fill fills) since
       = Ok (Fin (z_realized since (z_replay fills).2) e)
       ∧ (e = -18 ∨ z_realized since (z_replay fills).2 = 0).
Proof.
  intros Hok Hv HP. destruct (replay_refines P fills Hok Hv HP) as [Heq Hinv].
  unfold realized_pnl, realized_events. rewrite Heq. cbn [mbind outcome_bind snd].
  destruct (sum_events since (z_replay fills).2 0 0) as (e & He & Hex); [by right| |].
  - pose proof (ri_total P _ _ Hinv). unfold books_sum in *.
    assert (0 ≤ books_sum lots_total (z_replay fills).1) by
      (pose proof (books_total_book (z_replay fills).1 "");
       pose proof (lots_total_nonneg (default [] (dict_get (z_replay fills).1 ""))); lia).
    unfold books_sum in *. nia.
  - exists e. rewrite Z.add_0_l in *. split; [exact He|tauto].
Qed.

Lemma z_realized_None evs : z_realized None evs = zsum (map snd evs).
Proof.
  unfold z_realized. do 2 f_equal. induction evs as [|x evs IH]; [done|].
  rewrite filter_cons, decide_True by done. by rewrite IH.
Qed.

(** Cash received less cash paid. *)
Definition cash_flow (fills : list ZFill) : Z := - zsum (map (λ f, z_delta f * zf_price f) fills).

(** Signed position in one symbol. *)
Definition position_of (fills : list ZFill) (symbol : string) : Z :=
  zsum (map z_delta (filter (λ f, upper (zf_ticker f) = symbol) fills)).

(** Claim C27.  For fills whose total notional fits the 28-digit context, the replay of
    [_realized_events] returns, the realized P&L over all events is exactly the cash flow
    plus the cost basis of the lots left open, the open lots of each symbol sum to its
    signed position, and each book holds lots of one direction only. *)
Theorem realized_pnl_accounting P fills :
  Forall (zfill_ok P) fills → P * volume fills < 10 ^ 28 → 0 < P →
  ∃ books events pnl e,
    replay (map embed_fill fills) = Ok (embed_books books, map embed_event events)
    ∧ realized_pnl (map embed_fill fills) None = Ok (Fin pnl e) ∧ (e = -18 ∨ pnl = 0)
    ∧ pnl = cash_flow fills + books_sum book_cost books
    ∧ ∀ symbol, book_net (default [] (dict_get books symbol)) = position_of fills symbol
                ∧ one_sided (default [] (dict_get books symbol)).
Proof.
  intros Hok Hv HP. destruct (replay_refines P fills Hok Hv HP) as [Heq [Hn Hc _ Hg _]].
  destruct (realized_pnl_refines P fills None Hok Hv HP) as (e & Hr & He).
  rewrite z_realized_None in *. exists (z_replay fills).1, (z_replay fills).2. eexists _, e.
  split_and!; [done|exact Hr|exact He|unfold cash_flow; lia|].
  intros k. split; [apply Hn|apply Hg].
Qed.

Lemma one_sided_flat P book : book_good P book → book_net book = 0 → book = [].
Proof.
  intros [_ [H|H]]; destruct book as [|l book]; try done; apply Forall_cons in H as [Hl H];
    unfold book_net; simpl.
  - assert (0 ≤ zsum (map fst book)) by (induction H; simpl; lia). lia.
  - assert (zsum (map fst book) ≤ 0) by (induction H; simpl; lia). lia.
Qed.

Lemma dict_get_elem {A} (d : dict A) k v : NoDup (dict_keys d) → (k, v) ∈ d → dict_get d k = Some v.
Proof.
  unfold dict_keys. induction d as [|[k' v'] d IH]; csimpl; [by intros _ ?%elem_of_nil|].
  rewrite NoDup_cons, elem_of_cons. intros [Hn Hd] [Heq|Hin].
  - simplify_eq. by rewrite decide_True.
  - destruct (decide (k = k')) as [->|]; [|auto]. destruct Hn. by apply (list_elem_of_fmap_2 fst) in Hin.
Qed.

(** When every position is closed, realized P&L is sale proceeds minus
    purchase cost, whatever the order and partition of the fills. *)
Theorem realized_pnl_flat P fills :
  Forall (zfill_ok P) fills → P * volume fills < 10 ^ 28 → 0 < P →
  (∀ symbol, position_of fills symbol = 0) →
  ∃ e, realized_pnl (map embed_fill fills) None = Ok (Fin (cash_flow fills) e)
       ∧ (e = -18 ∨ cash_flow fills = 0).
Proof.
  intros Hok Hv HP Hflat. destruct (replay_refines P fills Hok Hv HP) as [_ [Hn Hc _ Hg Hnd]].
  destruct (realized_pnl_refines P fills None Hok Hv HP) as (e & Hr & He).
  rewrite z_realized_None in *.
  assert (books_sum book_cost (z_replay fills).1 = 0) as Hzero.
  { assert (∀ k v, (k, v) ∈ (z_replay fills).1 → v = []) as Hempty.
    { intros k v Hin. pose proof (Hg k) as Hgk. specialize (Hn k).
      rewrite (dict_get_elem _ k v Hnd Hin) in *. simpl in *.
      apply (one_sided_flat P); [done|]. rewrite Hn. apply Hflat. }
    unfold books_sum. clear -Hempty. induction (z_replay fills).1 as [|[k v] bs IH]; simpl; [done|].
    rewrite (Hempty k v) by (by left). simpl. apply IH. intros k' v' ?. apply (Hempty k'). by right. }
  exists e. assert (zsum (map snd (z_replay fills).2) = cash_flow fills) as <- by (unfold cash_flow; lia).
  done.
Qed.

(** ** A concrete ledger *)

Definition demo_fills : list ZFill :=
  [ mkZFill "NVDA" true (10 * 10 ^ 9) (100 * 10 ^ 9) 1;
    mkZFill "nvda" true (5 * 10 ^ 9) (110 * 10 ^ 9) 2;
    mkZFill "NVDA" false (12 * 10 ^ 9) (120 * 10 ^ 9) 4;
    mkZFill "BTC/USD" false (10 ^ 6) (150 * 10 ^ 9) 3 ].

Definition flat_fills : list ZFill :=
  demo_fills ++ [ mkZFill "NVDA" false (3 * 10 ^ 9) (90 * 10 ^ 9) 6;
                  mkZFill "BTC/USD" true (10 ^ 6) (140 * 10 ^ 9) 5 ].

Lemma realized_pnl_accounting_witness :
  ∃ books events pnl e,
    replay (map embed_fill demo_fills) = Ok (embed_books books, map embed_event events)
    ∧ realized_pnl (map embed_fill demo_fills) None = Ok (Fin pnl e) ∧ (e = -18 ∨ pnl = 0)
    ∧ pnl = cash_flow demo_fills + books_sum book_cost books
    ∧ ∀ symbol, book_net (default [] (dict_get books symbol)) = position_of demo_fills symbol
                ∧ one_sided (default [] (dict_get books symbol)).
Proof.
  apply (realized_pnl_accounting (150 * 10 ^ 9) demo_fills).
  - repeat constructor; vm_compute; congruence.
  - reflexivity.
  - reflexivity.
Defined.

Lemma realized_pnl_flat_witness :
  ∃ e, realized_pnl (map embed_fill flat_fills) None = Ok (Fin (cash_flow flat_fills) e)
       ∧ (e = -18 ∨ cash_flow flat_fills = 0).
Proof.
  apply (realized_pnl_flat (150 * 10 ^ 9) flat_fills).
  - repeat constructor; vm_compute; congruence.
  - reflexivity.
  - reflexivity.
  - intros symbol. unfold position_of, flat_fills, demo_fills. simpl app.
    destruct (decide ("NVDA" = symbol)) as [<-|H1]; [reflexivity|].
    destruct (decide ("BTC/USD" = symbol)) as [<-|H2]; [reflexivity|].
    rewrite !filter_cons, !decide_False by done. reflexivity.
Defined.

Example demo_realized :
  realized_pnl (map embed_fill demo_fills) None = Ok (Fin (220 * 10 ^ 18) (-18))
  ∧ realized_pnl (map embed_fill flat_fills) (Some 6) = Ok (Fin (-60 * 10 ^ 18) (-18)).
Proof. vm_compute. done. Qed.
