(* ===== verification/Database.v ===== *)
(** The durable state: the tables of [db/models.py] the order path reads and writes,
    the order state machine, and sessions.

    A table with an integer or text key is a finite map from that key; [proposals] is
    keyed by its unique [order_id].  The append-only tables [audit_events] and
    [risk_events] are lists in primary-key order, so a row's id is its position.
    Sensitive columns are modelled by their decrypted text, JSON columns by their
    parsed value, and the [created_at] default of an inserted row (the clock at flush)
    by [None].

    A session is a pair of the committed database and the transaction's view of it;
    an exception or an exit without [commit] leaves the committed database. *)

From S2P Require Import Prelude PyDecimal Assets BrokerModels.
From Stdlib Require Import Lia.
Local Open Scope Z_scope.

(** * JSON values *)

(** A parsed JSON value; [JTime] is the text [isoformat] gives a UTC timestamp. *)
Inductive json : Type :=
| JNull
| JBool (b : bool)
| JInt (z : Z)
| JStr (s : string)
| JTime (t : time)
| JList (l : list json)
| JObj (fields : list (string * json)).

Fixpoint json_eq_dec (x y : json) {struct x} : {x = y} + {x ≠ y}.
Proof.
  destruct x as [|a|a|a|a|l|l], y as [|b|b|b|b|k|k]; try (by right); try (by left).
  - destruct (decide (a = b)); [left|right]; congruence.
  - destruct (decide (a = b)); [left|right]; congruence.
  - destruct (decide (a = b)); [left|right]; congruence.
  - destruct (Z.eq_dec a b); [left|right]; congruence.
  - assert ({l = k} + {l ≠ k}) as [->|]; [|by left|right; congruence].
    revert k. induction l as [|u l IH]; intros [|v k]; [by left|by right|by right|].
    destruct (json_eq_dec u v); [|right; congruence].
    destruct (IH k); [left|right]; congruence.
  - assert ({l = k} + {l ≠ k}) as [->|]; [|by left|right; congruence].
    revert k. induction l as [|[m u] l IH]; intros [|[n v] k]; [by left|by right|by right|].
    destruct (decide (m = n)); [|right; congruence].
    destruct (json_eq_dec u v); [|right; congruence].
    destruct (IH k); [left|right]; congruence.
Defined.

#[export] Instance json_EqDecision : EqDecision json := json_eq_dec.

(** [value.get(key)] of an object, [None] for a missing key or another value. *)
Definition json_get (j : json) (key : string) : option json :=
  match j with JObj fields => dict_get fields key | _ => None end.

Definition json_opt {A} (f : A → json) (x : option A) : json :=
  match x with None => JNull | Some a => f a end.

(** * Tables *)

Record Order : Type := mkOrder {
  o_id : Z;
  o_idempotency_key : string;
  o_ticker : string;
  o_side : string;
  o_order_type : string;
  o_qty : option Decimal;
  o_notional : option Decimal;
  o_limit_price : option Decimal;
  o_status : string;
  o_broker_order_id : option string;
  o_approval_actor : option string;
  o_approval_reason : string;
  o_approved_at : option time;
  o_submission_kind : string;
  o_submission_payload_json : string;
  o_submission_attempt : Z;
  o_submission_started_at : option time;
  o_acceptance_state : string;
  o_last_reconciled_at : option time;
  o_last_error_code : string;
  o_plan_cancel_state : string;
  o_version : Z;
  o_created_at : time;
  o_updated_at : time;
}.

Definition set_o_status (v : string) (x : Order) : Order :=
  mkOrder (o_id x) (o_idempotency_key x) (o_ticker x) (o_side x) (o_order_type x) (o_qty x)
    (o_notional x) (o_limit_price x) v (o_broker_order_id x) (o_approval_actor x)
    (o_approval_reason x) (o_approved_at x) (o_submission_kind x) (o_submission_payload_json x)
    (o_submission_attempt x) (o_submission_started_at x) (o_acceptance_state x)
    (o_last_reconciled_at x) (o_last_error_code x) (o_plan_cancel_state x) (o_version x)
    (o_created_at x) (o_updated_at x).

Definition set_o_broker_order_id (v : option string) (x : Order) : Order :=
  mkOrder (o_id x) (o_idempotency_key x) (o_ticker x) (o_side x) (o_order_type x) (o_qty x)
    (o_notional x) (o_limit_price x) (o_status x) v (o_approval_actor x) (o_approval_reason x)
    (o_approved_at x) (o_submission_kind x) (o_submission_payload_json x) (o_submission_attempt x)
    (o_submission_started_at x) (o_acceptance_state x) (o_last_reconciled_at x)
    (o_last_error_code x) (o_plan_cancel_state x) (o_version x) (o_created_at x) (o_updated_at x).

Definition set_o_approval_actor (v : option string) (x : Order) : Order :=
  mkOrder (o_id x) (o_idempotency_key x) (o_ticker x) (o_side x) (o_order_type x) (o_qty x)
    (o_notional x) (o_limit_price x) (o_status x) (o_broker_order_id x) v (o_approval_reason x)
    (o_approved_at x) (o_submission_kind x) (o_submission_payload_json x) (o_submission_attempt x)
    (o_submission_started_at x) (o_acceptance_state x) (o_last_reconciled_at x)
    (o_last_error_code x) (o_plan_cancel_state x) (o_version x) (o_created_at x) (o_updated_at x).

Definition set_o_approval_reason (v : string) (x : Order) : Order :=
  mkOrder (o_id x) (o_idempotency_key x) (o_ticker x) (o_side x) (o_order_type x) (o_qty x)
    (o_notional x) (o_limit_price x) (o_status x) (o_broker_order_id x) (o_approval_actor x) v
    (o_approved_at x) (o_submission_kind x) (o_submission_payload_json x) (o_submission_attempt x)
    (o_submission_started_at x) (o_acceptance_state x) (o_last_reconciled_at x)
    (o_last_error_code x) (o_plan_cancel_state x) (o_version x) (o_created_at x) (o_updated_at x).

Definition set_o_approved_at (v : option time) (x : Order) : Order :=
  mkOrder (o_id x) (o_idempotency_key x) (o_ticker x) (o_side x) (o_order_type x) (o_qty x)
    (o_notional x) (o_limit_price x) (o_status x) (o_broker_order_id x) (o_approval_actor x)
    (o_approval_reason x) v (o_submission_kind x) (o_submission_payload_json x)
    (o_submission_attempt x) (o_submission_started_at x) (o_acceptance_state x)
    (o_last_reconciled_at x) (o_last_error_code x) (o_plan_cancel_state x) (o_version x)
    (o_created_at x) (o_updated_at x).

Definition set_o_submission_attempt (v : Z) (x : Order) : Order :=
  mkOrder (o_id x) (o_idempotency_key x) (o_ticker x) (o_side x) (o_order_type x) (o_qty x)
    (o_notional x) (o_limit_price x) (o_status x) (o_broker_order_id x) (o_approval_actor x)
    (o_approval_reason x) (o_approved_at x) (o_submission_kind x) (o_submission_payload_json x) v
    (o_submission_started_at x) (o_acceptance_state x) (o_last_reconciled_at x)
    (o_last_error_code x) (o_plan_cancel_state x) (o_version x) (o_created_at x) (o_updated_at x).

Definition set_o_submission_started_at (v : option time) (x : Order) : Order :=
  mkOrder (o_id x) (o_idempotency_key x) (o_ticker x) (o_side x) (o_order_type x) (o_qty x)
    (o_notional x) (o_limit_price x) (o_status x) (o_broker_order_id x) (o_approval_actor x)
    (o_approval_reason x) (o_approved_at x) (o_submission_kind x) (o_submission_payload_json x)
    (o_submission_attempt x) v (o_acceptance_state x) (o_last_reconciled_at x) (o_last_error_code x)
    (o_plan_cancel_state x) (o_version x) (o_created_at x) (o_updated_at x).

Definition set_o_acceptance_state (v : string) (x : Order) : Order :=
  mkOrder (o_id x) (o_idempotency_key x) (o_ticker x) (o_side x) (o_order_type x) (o_qty x)
    (o_notional x) (o_limit_price x) (o_status x) (o_broker_order_id x) (o_approval_actor x)
    (o_approval_reason x) (o_approved_at x) (o_submission_kind x) (o_submission_payload_json x)
    (o_submission_attempt x) (o_submission_started_at x) v (o_last_reconciled_at x)
    (o_last_error_code x) (o_plan_cancel_state x) (o_version x) (o_created_at x) (o_updated_at x).

Definition set_o_last_reconciled_at (v : option time) (x : Order) : Order :=
  mkOrder (o_id x) (o_idempotency_key x) (o_ticker x) (o_side x) (o_order_type x) (o_qty x)
    (o_notional x) (o_limit_price x) (o_status x) (o_broker_order_id x) (o_approval_actor x)
    (o_approval_reason x) (o_approved_at x) (o_submission_kind x) (o_submission_payload_json x)
    (o_submission_attempt x) (o_submission_started_at x) (o_acceptance_state x) v
    (o_last_error_code x) (o_plan_cancel_state x) (o_version x) (o_created_at x) (o_updated_at x).

Definition set_o_last_error_code (v : string) (x : Order) : Order :=
  mkOrder (o_id x) (o_idempotency_key x) (o_ticker x) (o_side x) (o_order_type x) (o_qty x)
    (o_notional x) (o_limit_price x) (o_status x) (o_broker_order_id x) (o_approval_actor x)
    (o_approval_reason x) (o_approved_at x) (o_submission_kind x) (o_submission_payload_json x)
    (o_submission_attempt x) (o_submission_started_at x) (o_acceptance_state x)
    (o_last_reconciled_at x) v (o_plan_cancel_state x) (o_version x) (o_created_at x)
    (o_updated_at x).

Definition set_o_plan_cancel_state (v : string) (x : Order) : Order :=
  mkOrder (o_id x) (o_idempotency_key x) (o_ticker x) (o_side x) (o_order_type x) (o_qty x)
    (o_notional x) (o_limit_price x) (o_status x) (o_broker_order_id x) (o_approval_actor x)
    (o_approval_reason x) (o_approved_at x) (o_submission_kind x) (o_submission_payload_json x)
    (o_submission_attempt x) (o_submission_started_at x) (o_acceptance_state x)
    (o_last_reconciled_at x) (o_last_error_code x) v (o_version x) (o_created_at x)
    (o_updated_at x).

Definition set_o_version (v : Z) (x : Order) : Order :=
  mkOrder (o_id x) (o_idempotency_key x) (o_ticker x) (o_side x) (o_order_type x) (o_qty x)
    (o_notional x) (o_limit_price x) (o_status x) (o_broker_order_id x) (o_approval_actor x)
    (o_approval_reason x) (o_approved_at x) (o_submission_kind x) (o_submission_payload_json x)
    (o_submission_attempt x) (o_submission_started_at x) (o_acceptance_state x)
    (o_last_reconciled_at x) (o_last_error_code x) (o_plan_cancel_state x) v (o_created_at x)
    (o_updated_at x).

Definition set_o_updated_at (v : time) (x : Order) : Order :=
  mkOrder (o_id x) (o_idempotency_key x) (o_ticker x) (o_side x) (o_order_type x) (o_qty x)
    (o_notional x) (o_limit_price x) (o_status x) (o_broker_order_id x) (o_approval_actor x)
    (o_approval_reason x) (o_approved_at x) (o_submission_kind x) (o_submission_payload_json x)
    (o_submission_attempt x) (o_submission_started_at x) (o_acceptance_state x)
    (o_last_reconciled_at x) (o_last_error_code x) (o_plan_cancel_state x) (o_version x)
    (o_created_at x) v.

Record Proposal : Type := mkProposal {
  p_id : Z;
  p_order_id : Z;
  p_source_rule_group_id : option Z;
  p_source_rule_id : option Z;
  p_plan_generation : Z;
  p_reasoning : string;
  p_ttl_minutes : Z;
  p_created_at : time;
  p_expires_at : time;
}.

Record RuleGroup : Type := mkRuleGroup {
  g_id : Z;
  g_group_key : string;
  g_state : string;
  g_lease_owner : option string;
  g_lease_expires_at : option time;
  g_terminal_rule_id : option Z;
  g_version : Z;
  g_reconciliation_required : bool;
  g_created_at : time;
  g_updated_at : time;
}.

Definition set_g_reconciliation_required (v : bool) (x : RuleGroup) : RuleGroup :=
  mkRuleGroup (g_id x) (g_group_key x) (g_state x) (g_lease_owner x) (g_lease_expires_at x)
    (g_terminal_rule_id x) (g_version x) v (g_created_at x) (g_updated_at x).

Definition set_g_updated_at (v : time) (x : RuleGroup) : RuleGroup :=
  mkRuleGroup (g_id x) (g_group_key x) (g_state x) (g_lease_owner x) (g_lease_expires_at x)
    (g_terminal_rule_id x) (g_version x) (g_reconciliation_required x) (g_created_at x) v.

Record Rule : Type := mkRule {
  ru_id : Z;
  ru_group_id : Z;
  ru_payload_version : Z;
  ru_ticker : string;
  ru_condition_json : string;
  ru_action_json : string;
  ru_state : string;
  ru_created_at : time;
  ru_plan_id : option Z;
  ru_kind : string;
  ru_fraction : option Decimal;
  ru_hwm : option Decimal;
  ru_deadline : option time;
  ru_pre_approved : bool;
  ru_activation : string;
  ru_terminal_on_trigger : bool;
}.

Definition set_ru_state (v : string) (x : Rule) : Rule :=
  mkRule (ru_id x) (ru_group_id x) (ru_payload_version x) (ru_ticker x) (ru_condition_json x) (ru_action_json x) v
    (ru_created_at x) (ru_plan_id x) (ru_kind x) (ru_fraction x) (ru_hwm x) (ru_deadline x) (ru_pre_approved x)
    (ru_activation x) (ru_terminal_on_trigger x).

Definition set_ru_hwm (v : option Decimal) (x : Rule) : Rule :=
  mkRule (ru_id x) (ru_group_id x) (ru_payload_version x) (ru_ticker x) (ru_condition_json x) (ru_action_json x)
    (ru_state x) (ru_created_at x) (ru_plan_id x) (ru_kind x) (ru_fraction x) v (ru_deadline x) (ru_pre_approved x)
    (ru_activation x) (ru_terminal_on_trigger x).

Record Fill : Type := mkFillRow {
  fl_id : Z;
  fl_order_id : option Z;
  fl_ticker : string;
  fl_side : string;
  fl_qty : Decimal;
  fl_price : Decimal;
  fl_broker_fill_id : option string;
  fl_reconciliation_state : string;
  fl_filled_at : time;
}.

Record RiskEvent : Type := mkRiskEvent {
  re_order_id : option Z;
  re_event_type : string;
  re_reason : string;
  re_created_at : option time;
}.

Record AuditEvent : Type := mkAuditEvent {
  a_actor : string;
  a_action : string;
  a_target_type : string;
  a_target_id : string;
  a_request_id : string;
  a_idempotency_key : string;
  a_reason : string;
  a_result_code : string;
  a_latency_ms : Z;
  a_detail : json;
  a_created_at : option time;
}.

Record CircuitBreakerState : Type := mkBreakerRow {
  cb_scope_key : string;
  cb_kind : string;
  cb_target : string;
  cb_tripped : bool;
  cb_reason : string;
  cb_actor : string;
  cb_generation : Z;
  cb_updated_at : time;
}.

Definition set_cb_reason (v : string) (x : CircuitBreakerState) : CircuitBreakerState :=
  mkBreakerRow (cb_scope_key x) (cb_kind x) (cb_target x) (cb_tripped x) v (cb_actor x)
    (cb_generation x) (cb_updated_at x).

Record PanicReceipt : Type := mkPanicReceipt {
  pr_account_scope : string;
  pr_request_id : string;
  pr_lease_generation : Z;
  pr_state : string;
  pr_response_json : option string;
  pr_started_at : time;
  pr_completed_at : option time;
  pr_expires_at : time;
}.

Record AccountRiskState : Type := mkAccountRisk {
  ar_asset_class : string;
  ar_high_water_mark : Decimal;
  ar_last_equity : Decimal;
  ar_updated_at : time;
}.

Record StartupReconciliationState : Type := mkStartup {
  su_broker : string;
  su_generation : Z;
  su_completed_generation : Z;
  su_status : string;
  su_actor : string;
  su_reason : string;
  su_request_id : string;
  su_evidence : json;
  su_started_at : time;
  su_completed_at : option time;
  su_updated_at : time;
}.

Record TradePlanRow : Type := mkTradePlan {
  tp_id : Z;
  tp_symbol : string;
  tp_action : string;
  tp_status : string;
  tp_entry_filled_qty : Decimal;
  tp_exit_filled_qty : Decimal;
  tp_residual_generation : Z;
}.

Definition set_tp_status (v : string) (x : TradePlanRow) : TradePlanRow :=
  mkTradePlan (tp_id x) (tp_symbol x) (tp_action x) v (tp_entry_filled_qty x) (tp_exit_filled_qty x)
    (tp_residual_generation x).

Definition set_tp_filled (entry exit_ : Decimal) (generation : Z) (x : TradePlanRow) : TradePlanRow :=
  mkTradePlan (tp_id x) (tp_symbol x) (tp_action x) (tp_status x) entry exit_ generation.

(** The high-water mark of a broker's activity stream, keyed by broker and stream. *)
Record ReconciliationCursor : Type := mkCursor {
  rc_broker : string;
  rc_stream : string;
  rc_last_activity_id : option string;
  rc_last_activity_at : option time;
  rc_version : Z;
}.

(** [Heartbeat] in id order. *)
Record Heartbeat : Type := mkHeartbeat { hb_source : string; hb_at : time }.

Record Db : Type := mkDb {
  db_orders : gmap Z Order;
  db_proposals : gmap Z Proposal;
  db_groups : gmap Z RuleGroup;
  db_rules : gmap Z Rule;
  db_fills : list Fill;
  db_audit : list AuditEvent;
  db_risk_events : list RiskEvent;
  db_breakers : gmap string CircuitBreakerState;
  db_receipts : gmap string PanicReceipt;
  db_heartbeats : list Heartbeat;
  db_account_risk : gmap string AccountRiskState;
  db_startup : gmap string StartupReconciliationState;
  db_plans : gmap Z TradePlanRow;
  db_cursors : gmap (string * string) ReconciliationCursor;
}.

Definition set_db_orders (v : gmap Z Order) (x : Db) : Db :=
  mkDb v (db_proposals x) (db_groups x) (db_rules x) (db_fills x) (db_audit x) (db_risk_events x)
    (db_breakers x) (db_receipts x) (db_heartbeats x)
    (db_account_risk x) (db_startup x) (db_plans x) (db_cursors x).

Definition set_db_proposals (v : gmap Z Proposal) (x : Db) : Db :=
  mkDb (db_orders x) v (db_groups x) (db_rules x) (db_fills x) (db_audit x) (db_risk_events x)
    (db_breakers x) (db_receipts x) (db_heartbeats x)
    (db_account_risk x) (db_startup x) (db_plans x) (db_cursors x).

Definition set_db_groups (v : gmap Z RuleGroup) (x : Db) : Db :=
  mkDb (db_orders x) (db_proposals x) v (db_rules x) (db_fills x) (db_audit x) (db_risk_events x)
    (db_breakers x) (db_receipts x) (db_heartbeats x)
    (db_account_risk x) (db_startup x) (db_plans x) (db_cursors x).

Definition set_db_rules (v : gmap Z Rule) (x : Db) : Db :=
  mkDb (db_orders x) (db_proposals x) (db_groups x) v (db_fills x) (db_audit x) (db_risk_events x)
    (db_breakers x) (db_receipts x) (db_heartbeats x)
    (db_account_risk x) (db_startup x) (db_plans x) (db_cursors x).

Definition set_db_audit (v : list AuditEvent) (x : Db) : Db :=
  mkDb (db_orders x) (db_proposals x) (db_groups x) (db_rules x) (db_fills x) v (db_risk_events x)
    (db_breakers x) (db_receipts x) (db_heartbeats x)
    (db_account_risk x) (db_startup x) (db_plans x) (db_cursors x).

Definition set_db_risk_events (v : list RiskEvent) (x : Db) : Db :=
  mkDb (db_orders x) (db_proposals x) (db_groups x) (db_rules x) (db_fills x) (db_audit x) v
    (db_breakers x) (db_receipts x) (db_heartbeats x)
    (db_account_risk x) (db_startup x) (db_plans x) (db_cursors x).

Definition set_db_breakers (v : gmap string CircuitBreakerState) (x : Db) : Db :=
  mkDb (db_orders x) (db_proposals x) (db_groups x) (db_rules x) (db_fills x) (db_audit x)
    (db_risk_events x) v (db_receipts x) (db_heartbeats x)
    (db_account_risk x) (db_startup x) (db_plans x) (db_cursors x).

Definition set_db_receipts (v : gmap string PanicReceipt) (x : Db) : Db :=
  mkDb (db_orders x) (db_proposals x) (db_groups x) (db_rules x) (db_fills x) (db_audit x)
    (db_risk_events x) (db_breakers x) v (db_heartbeats x)
    (db_account_risk x) (db_startup x) (db_plans x) (db_cursors x).

Definition set_db_account_risk (v : gmap string AccountRiskState) (x : Db) : Db :=
  mkDb (db_orders x) (db_proposals x) (db_groups x) (db_rules x) (db_fills x) (db_audit x)
    (db_risk_events x) (db_breakers x) (db_receipts x) (db_heartbeats x) v (db_startup x)
    (db_plans x) (db_cursors x).

Definition set_db_startup (v : gmap string StartupReconciliationState) (x : Db) : Db :=
  mkDb (db_orders x) (db_proposals x) (db_groups x) (db_rules x) (db_fills x) (db_audit x)
    (db_risk_events x) (db_breakers x) (db_receipts x) (db_heartbeats x) (db_account_risk x) v
    (db_plans x) (db_cursors x).

Definition set_db_plans (v : gmap Z TradePlanRow) (x : Db) : Db :=
  mkDb (db_orders x) (db_proposals x) (db_groups x) (db_rules x) (db_fills x) (db_audit x)
    (db_risk_events x) (db_breakers x) (db_receipts x) (db_heartbeats x) (db_account_risk x) (db_startup x) v
    (db_cursors x).

Definition set_db_fills (v : list Fill) (x : Db) : Db :=
  mkDb (db_orders x) (db_proposals x) (db_groups x) (db_rules x) v (db_audit x) (db_risk_events x)
    (db_breakers x) (db_receipts x) (db_heartbeats x) (db_account_risk x) (db_startup x) (db_plans x)
    (db_cursors x).

Definition set_db_cursors (v : gmap (string * string) ReconciliationCursor) (x : Db) : Db :=
  mkDb (db_orders x) (db_proposals x) (db_groups x) (db_rules x) (db_fills x) (db_audit x)
    (db_risk_events x) (db_breakers x) (db_receipts x) (db_heartbeats x) (db_account_risk x) (db_startup x)
    (db_plans x) v.

Definition FILL_RECONCILIATION_REQUIRED : string := "fill_reconcile_required".
Definition FILL_RECONCILIATION_TRUSTED : string := "trusted".
Definition FILL_RECONCILIATION_QUARANTINED : string := "quarantined".
Definition FILL_RECONCILIATION_SUPERSEDED : string := "superseded".

(** [Proposal.is_expired]. *)
Definition is_expired (p : Proposal) (now : time) : bool := p_expires_at p <=? now.

Definition fill_has_trusted_identity (f : Fill) : bool :=
  bool_decide (fl_reconciliation_state f = FILL_RECONCILIATION_TRUSTED)
  && match fl_broker_fill_id f with None => false | Some i => negb (blank i) end.

Definition fill_requires_reconciliation (f : Fill) : bool :=
  if bool_decide (fl_reconciliation_state f = FILL_RECONCILIATION_SUPERSEDED) then false
  else bool_decide (fl_reconciliation_state f = FILL_RECONCILIATION_QUARANTINED)
       || match fl_broker_fill_id f with None => true | Some i => blank i end.

(** * The order state machine *)

(** [list(OrderStatus)]. *)
Definition all_statuses : list OrderStatus :=
  [PROPOSED; APPROVED; APPROVAL_RECORDED; SUBMITTING; ACCEPTANCE_UNKNOWN; SUBMITTED;
   PARTIALLY_FILLED; FILLED; CANCELED; REJECTED; EXPIRED].

(** [OrderStatus(text)]. *)
Definition order_status_of (text : string) : outcome OrderStatus :=
  match list_find (λ s, order_status_value s = text) all_statuses with
  | Some p => Ok p.2
  | None => Raise (ValueError "not a valid OrderStatus")
  end.

Definition LEGAL_TRANSITIONS (s : OrderStatus) : list OrderStatus :=
  match s with
  | PROPOSED => [APPROVAL_RECORDED; REJECTED; EXPIRED; CANCELED]
  | APPROVAL_RECORDED => [SUBMITTING; EXPIRED; REJECTED]
  | SUBMITTING => [SUBMITTED; PARTIALLY_FILLED; FILLED; ACCEPTANCE_UNKNOWN; CANCELED; REJECTED; EXPIRED]
  | ACCEPTANCE_UNKNOWN => [SUBMITTED; PARTIALLY_FILLED; FILLED; REJECTED; CANCELED]
  | APPROVED => []
  | SUBMITTED => [PARTIALLY_FILLED; FILLED; CANCELED; REJECTED; EXPIRED]
  | PARTIALLY_FILLED => [PARTIALLY_FILLED; FILLED; CANCELED; EXPIRED]
  | FILLED | CANCELED | REJECTED | EXPIRED => []
  end.

Definition TERMINAL_STATES : list OrderStatus := [FILLED; CANCELED; REJECTED; EXPIRED].
Definition NONTERMINAL_STATES : list OrderStatus :=
  filter (λ s, s ∉ TERMINAL_STATES) all_statuses.

Definition can_transition (current new : OrderStatus) : bool :=
  bool_decide (new ∈ LEGAL_TRANSITIONS current).

(** The inner [for successor in ...] loop of [is_reachable]: [None] is the early
    return of [True]. *)
Fixpoint scan_successors (current : OrderStatus) (succ : list OrderStatus)
    (visited pending : list OrderStatus) : option (list OrderStatus * list OrderStatus) :=
  match succ with
  | [] => Some (visited, pending)
  | s :: succ' =>
      if bool_decide (s = current) then None
      else if bool_decide (s ∈ visited) then scan_successors current succ' visited pending
      else scan_successors current succ' (s :: visited) (s :: pending)
  end.

(** The worklist loop; every state enters [pending] at most once, so one more round
    than there are states is enough. *)
Fixpoint reach_loop (fuel : nat) (current : OrderStatus) (visited pending : list OrderStatus) : bool :=
  match fuel with
  | O => false
  | S fuel' =>
      match pending with
      | [] => false
      | state :: pending' =>
          match scan_successors current (LEGAL_TRANSITIONS state) visited pending' with
          | None => true
          | Some (v, p) => reach_loop fuel' current v p
          end
      end
  end.

Definition is_reachable (initial current : OrderStatus) : bool :=
  if bool_decide (initial = current) then true
  else reach_loop (S (length all_statuses)) current [initial] [initial].

(** [OrderStateMachine.transition]. *)
Definition transition (o : Order) (new : OrderStatus) (now : time) : outcome Order :=
  current ← order_status_of (o_status o);
  if can_transition current new
  then Ok (set_o_updated_at now (set_o_status (order_status_value new) o))
  else Raise (IllegalStateTransition
         ("illegal transition " +:+ order_status_value current +:+ " -> "
          +:+ order_status_value new +:+ " (order id=" +:+ pretty (o_id o) +:+ ")")).

(** * Sessions *)

Record Session : Type := mkSession { durable : Db; working : Db }.

Definition tx (A : Type) : Type := Session → outcome A * Session.

#[export] Instance tx_ret : MRet tx := λ A a s, (Ok a, s).
#[export] Instance tx_bind : MBind tx := λ A B f m s,
  match m s with (Ok a, s') => f a s' | (Raise e, s') => (Raise e, s') end.

Definition raise {A} (e : exn) : tx A := λ s, (Raise e, s).
Definition lift {A} (m : outcome A) : tx A := λ s, (m, s).
Definition read : tx Db := λ s, (Ok (working s), s).
Definition write (f : Db → Db) : tx () := λ s, (Ok (), mkSession (durable s) (f (working s))).
Definition commit : tx () := λ s, (Ok (), mkSession (working s) (working s)).
Definition rollback : tx () := λ s, (Ok (), mkSession (durable s) (durable s)).

(** [with self.session_factory() as session: body]. *)
Definition with_session {A} (body : tx A) (d : Db) : outcome A * Db :=
  let '(r, s) := body (mkSession d d) in (r, durable s).

(** A transaction function [f] of the caller's session run on its own view. *)
Fixpoint tx_iter {A} (f : A → tx ()) (l : list A) : tx () :=
  match l with [] => mret () | x :: l' => f x ≫= λ _, tx_iter f l' end.

(** A loop that accumulates a result. *)
Fixpoint tx_foldl {A B} (f : A → B → tx A) (acc : A) (l : list B) : tx A :=
  match l with [] => mret acc | x :: l' => f acc x ≫= λ acc', tx_foldl f acc' l' end.

(** [UPDATE orders SET ... WHERE id = ? AND pred]; the updated row if one matched. *)
Definition update_order (order_id : Z) (pred : Db → Order → bool) (f : Order → Order)
    : tx (option Order) :=
  d ← read;
  match db_orders d !! order_id with
  | Some o => if pred d o
              then write (set_db_orders (<[order_id := f o]> (db_orders d))) ≫= λ _, mret (Some (f o))
              else mret None
  | None => mret None
  end.

Definition insert_audit (e : AuditEvent) : tx () := write (λ d, set_db_audit (db_audit d ++ [e]) d).
Definition insert_risk_event (e : RiskEvent) : tx () :=
  write (λ d, set_db_risk_events (db_risk_events d ++ [e]) d).

(** [INTEGER PRIMARY KEY]: one more than the largest key. *)
Definition next_key (keys : list Z) : Z := 1 + foldr Z.max 0 keys.
Definition next_id {A} (m : gmap Z A) : Z := next_key (map fst (map_to_list m)).

(** * Theory of the state machine *)

Lemma order_status_value_inj s t : order_status_value s = order_status_value t → s = t.
Proof. destruct s, t; try done; discriminate. Qed.

#[export] Instance order_status_value_Inj : Inj (=) (=) order_status_value.
Proof. intros s t. apply order_status_value_inj. Qed.

Lemma order_status_of_value s : order_status_of (order_status_value s) = Ok s.
Proof. by destruct s. Qed.

Lemma order_status_of_Ok text s : order_status_of text = Ok s → text = order_status_value s.
Proof.
  unfold order_status_of. destruct (list_find _ _) as [[i t]|] eqn:E; [|done].
  apply list_find_Some in E as (_ & E & _). intros [= <-]. by rewrite E.
Qed.

Definition legal (s t : OrderStatus) : Prop := can_transition s t = true.

Lemma scan_successors_spec current succ : ∀ visited pending,
  match scan_successors current succ visited pending with
  | None => current ∈ succ
  | Some (v, p) =>
      current ∉ succ ∧ ∃ new, v = new ++ visited ∧ p = new ++ pending ∧ new ⊆ succ
      ∧ (∀ s, s ∈ succ → s ∈ v) ∧ (NoDup visited → NoDup v)
  end.
Proof.
  induction succ as [|s succ IH]; intros visited pending; simpl.
  { split; [by intros ?%elem_of_nil|]. exists []. split_and!; try done; set_solver. }
  destruct (decide (s = current)) as [->|Hne].
  { rewrite bool_decide_true by done. by left. }
  rewrite bool_decide_false by done. destruct (decide (s ∈ visited)) as [Hin|Hout].
  - rewrite bool_decide_true by done. specialize (IH visited pending).
    destruct (scan_successors _ _ _ _) as [[v p]|]; [|by right].
    destruct IH as (Hc & new & -> & -> & Hsub & Hall & Hnd). split; [set_solver|].
    exists new. split_and!; try done; set_solver.
  - rewrite bool_decide_false by done. specialize (IH (s :: visited) (s :: pending)).
    destruct (scan_successors _ _ _ _) as [[v p]|]; [|by right].
    destruct IH as (Hc & new & -> & -> & Hsub & Hall & Hnd). split; [set_solver|].
    exists (new ++ [s]). rewrite <- !app_assoc. split_and!; try done; [set_solver..|].
    intros Hv. apply Hnd. by constructor.
Qed.

Lemma all_statuses_complete s : s ∈ all_statuses.
Proof. destruct s; unfold all_statuses; set_solver. Qed.

Lemma NoDup_statuses_length (l : list OrderStatus) : NoDup l → (length l ≤ length all_statuses)%nat.
Proof. intros H. apply NoDup_incl_length; [by apply NoDup_ListNoDup|]. intros s _. apply list_elem_of_In, all_statuses_complete. Qed.

(** The worklist finds exactly the states reachable from the visited ones. *)
Lemma reach_loop_spec initial current : ∀ fuel visited pending,
  NoDup visited → pending ⊆ visited → current ∉ visited →
  (∀ s, s ∈ visited → rtc legal initial s) →
  (∀ s t, s ∈ visited → s ∉ pending → legal s t → t ∈ visited) →
  initial ∈ visited →
  (length all_statuses - length visited + length pending < fuel)%nat →
  reach_loop fuel current visited pending = true ↔ rtc legal initial current.
Proof.
  induction fuel as [|fuel IH]; intros visited pending Hnd Hsub Hcur Hreach Hclosed Hini Hfuel; [lia|].
  cbn [reach_loop]. destruct pending as [|state pending].
  { split; [done|]. intros Hr. destruct Hcur.
    revert Hini. clear -Hr Hclosed. induction Hr as [x|x y z Hxy Hr IHr]; intros Hin; [done|].
    apply IHr, (Hclosed x y); [done|apply not_elem_of_nil|done]. }
  assert (state ∈ visited) as Hstate by (apply Hsub; by left).
  pose proof (scan_successors_spec current (LEGAL_TRANSITIONS state) visited pending) as Hscan.
  destruct (scan_successors _ _ _ _) as [[v p]|].
  2: { split; [intros _|done]. eapply rtc_r; [by apply Hreach|]. by apply bool_decide_eq_true. }
  destruct Hscan as (Hc & new & -> & -> & Hnew & Hall & Hnodup).
  assert (NoDup (new ++ visited)) as Hnd' by auto.
  pose proof (NoDup_statuses_length _ Hnd') as Hlen. rewrite length_app in Hlen.
  apply IH; try done; rewrite ?length_app; simpl in *; try lia.
  - set_solver.
  - set_solver.
  - intros s [Hs|Hs]%elem_of_app; [|auto]. eapply rtc_r; [by apply (Hreach state)|].
    apply bool_decide_eq_true. by apply Hnew.
  - intros s t Hs Hns Hl. destruct (decide (s = state)) as [->|].
    + apply Hall. by apply bool_decide_eq_true in Hl.
    + apply elem_of_app in Hs as [Hs|Hs]; [set_solver|].
      apply elem_of_app. right. apply (Hclosed s); set_solver.
  - set_solver.
Qed.

(** [OrderStateMachine.is_reachable] decides reachability in the legal
    transition graph: the worklist terminates within its bound and answers [True]
    exactly for the reflexive transitive closure of [can_transition]. *)
Theorem is_reachable_iff initial current :
  is_reachable initial current = true ↔ rtc legal initial current.
Proof.
  unfold is_reachable. destruct (decide (initial = current)) as [->|Hne].
  { rewrite bool_decide_true by done. split; [intros; apply rtc_refl|done]. }
  rewrite bool_decide_false by done. apply reach_loop_spec.
  - apply NoDup_singleton.
  - done.
  - intros ->%list_elem_of_singleton. by destruct Hne.
  - intros s ->%list_elem_of_singleton. apply rtc_refl.
  - intros s t Hs Hn. by destruct Hn.
  - by apply list_elem_of_singleton.
  - simpl. lia.
Qed.

(** The states from which an order can still reach the broker, and those after. *)
Definition unsent (s : OrderStatus) : bool := bool_decide (s ∈ [PROPOSED; APPROVAL_RECORDED]).

Lemma legal_never_unsent s t : legal s t → unsent s = false → unsent t = false.
Proof. destruct s, t; done. Qed.

(** The freshly created database. *)
Definition empty_db : Db := mkDb ∅ ∅ ∅ ∅ [] [] [] ∅ ∅ [] ∅ ∅ ∅ ∅.

(** ** Running transactions backwards *)

Lemma next_key_above keys k : k ∈ keys → k < next_key keys.
Proof.
  unfold next_key. induction keys as [|x keys IH]; [by intros ?%elem_of_nil|]. intros [->|Hin]%elem_of_cons; cbn; [lia|].
  specialize (IH Hin). cbn in IH. lia.
Qed.

Lemma next_id_fresh {A} (m : gmap Z A) : m !! next_id m = None.
Proof.
  destruct (m !! next_id m) as [x|] eqn:E; [|done]. exfalso. assert (next_id m ∈ map fst (map_to_list m)) as Hin.
  { apply list_elem_of_fmap. exists (next_id m, x). split; [done|]. by apply elem_of_map_to_list. }
  apply next_key_above in Hin. unfold next_id in Hin. lia.
Qed.

Lemma tx_bind_Ok {A B} (m : tx A) (f : A → tx B) s b s' :
  (m ≫= f) s = (Ok b, s') ↔ ∃ a s1, m s = (Ok a, s1) ∧ f a s1 = (Ok b, s').
Proof.
  unfold mbind, tx_bind. destruct (m s) as [[a|e] s1]; split.
  - intros Hf. by exists a, s1.
  - by intros (a' & s1' & [= <- <-] & Hf).
  - done.
  - by intros (a' & s1' & [=] & _).
Qed.

Lemma with_session_Ok {A} (m : tx A) d a d' :
  with_session m d = (Ok a, d') ↔ ∃ s, m (mkSession d d) = (Ok a, s) ∧ durable s = d'.
Proof. unfold with_session. destruct (m _) as [r s]. naive_solver. Qed.

Lemma update_order_Ok id pred f s r s' :
  update_order id pred f s = (Ok r, s') →
  match r with
  | None => s' = s ∧ ∀ o, db_orders (working s) !! id = Some o → pred (working s) o = false
  | Some o' => ∃ o, db_orders (working s) !! id = Some o ∧ pred (working s) o = true ∧ o' = f o
      ∧ s' = mkSession (durable s) (set_db_orders (<[id := f o]> (db_orders (working s))) (working s))
  end.
Proof.
  unfold update_order, read, write, mbind, tx_bind, mret, tx_ret.
  destruct (db_orders (working s) !! id) as [o|] eqn:Ho.
  - destruct (pred (working s) o) eqn:Hp; intros [= <- <-]; [eauto|]. split; [done|]. congruence.
  - intros [= <- <-]. done.
Qed.
