(* ===== verification/Lifecycle.v ===== *)
(** Lifecycle proofs: [db/lifecycle_proofs.py].

    Every audited mutation stores a snapshot of its target; [lifecycle_proof_matches]
    compares the newest stored snapshot with the current rows.  The digest of a stored
    envelope is a parameter ([Digest]); nothing is assumed of it. *)

From S2P Require Import Prelude PyDecimal BrokerModels Database.
From Stdlib Require Import Ascii Lia.
Local Open Scope Z_scope.

(** [hashlib.sha256(value.encode()).hexdigest()]. *)
Class Digest : Type := sha256_hex : string → string.

Definition LIFECYCLE_PROOF_SCHEMA : Z := 1.
Definition SUPPORTED_TARGETS : list string := ["order"; "rule"; "rule_group"].

(** [text.rstrip(c)]. *)
Fixpoint rstrip_char (c : ascii) (s : string) : string :=
  match s with
  | EmptyString => EmptyString
  | String d s' =>
      match rstrip_char c s' with
      | EmptyString => if decide (d = c) then EmptyString else String d EmptyString
      | r => String d r
      end
  end.

(** [format(value, "f")] of a finite decimal. *)
Definition format_f (c e : Z) : string :=
  if 0 <=? e then sign_text c +:+ digits_of (c * 10 ^ e)
  else sign_text c +:+ plain_digits c e.

(** [_decimal]. *)
Definition decimal_text (value : option Decimal) : json :=
  match value with
  | None => JNull
  | Some (Fin c e) =>
      let rendered := format_f c e in
      let rendered := if contains_char "." rendered
                      then rstrip_char "." (rstrip_char "0" rendered) else rendered in
      JStr (if nonempty rendered then rendered else "0")
  | Some _ => JStr "invalid"
  end.

(** [_timestamp]. *)
Definition timestamp (value : option time) : json := json_opt JTime value.

Section Snapshots.
Context `{Digest}.

(** [_envelope_hash]. *)
Definition envelope_hash (value : string) : json := JStr (sha256_hex value).

Definition proposal_snapshot (p : Proposal) : json :=
  JObj [ ("id", JInt (p_id p));
         ("order_id", JInt (p_order_id p));
         ("source_rule_group_id", json_opt JInt (p_source_rule_group_id p));
         ("source_rule_id", json_opt JInt (p_source_rule_id p));
         ("plan_generation", JInt (p_plan_generation p));
         ("ttl_minutes", JInt (p_ttl_minutes p));
         ("created_at", timestamp (Some (p_created_at p)));
         ("expires_at", timestamp (Some (p_expires_at p)));
         ("reasoning_envelope_hash", envelope_hash (p_reasoning p)) ].

Definition fill_snapshot (f : Fill) : json :=
  JObj [ ("id", JInt (fl_id f));
         ("order_id", json_opt JInt (fl_order_id f));
         ("ticker", JStr (fl_ticker f));
         ("side", JStr (fl_side f));
         ("qty", decimal_text (Some (fl_qty f)));
         ("price", decimal_text (Some (fl_price f)));
         ("broker_fill_id", json_opt JStr (fl_broker_fill_id f));
         ("reconciliation_state", JStr (fl_reconciliation_state f));
         ("filled_at", timestamp (Some (fl_filled_at f))) ].

Definition order_columns (o : Order) : json :=
  JObj [ ("id", JInt (o_id o));
         ("idempotency_key", JStr (o_idempotency_key o));
         ("ticker", JStr (o_ticker o));
         ("side", JStr (o_side o));
         ("order_type", JStr (o_order_type o));
         ("qty", decimal_text (o_qty o));
         ("notional", decimal_text (o_notional o));
         ("limit_price", decimal_text (o_limit_price o));
         ("status", JStr (o_status o));
         ("broker_order_id", json_opt JStr (o_broker_order_id o));
         ("approval_actor", json_opt JStr (o_approval_actor o));
         ("approval_reason_envelope_hash", envelope_hash (o_approval_reason o));
         ("approved_at", timestamp (o_approved_at o));
         ("submission_kind", JStr (o_submission_kind o));
         ("submission_payload_json", JStr (o_submission_payload_json o));
         ("submission_attempt", JInt (o_submission_attempt o));
         ("submission_started_at", timestamp (o_submission_started_at o));
         ("acceptance_state", JStr (o_acceptance_state o));
         ("last_reconciled_at", timestamp (o_last_reconciled_at o));
         ("last_error_code", JStr (o_last_error_code o));
         ("plan_cancel_state", JStr (o_plan_cancel_state o));
         ("version", JInt (o_version o));
         ("created_at", timestamp (Some (o_created_at o)));
         ("updated_at", timestamp (Some (o_updated_at o))) ].

(** [proposals] holds at most one row per order (its unique constraint); [db_fills] is
    in id order. *)
Definition order_lifecycle_snapshot (d : Db) (order_id : Z) : option json :=
  match db_orders d !! order_id with
  | None => None
  | Some o =>
      Some (JObj [ ("order", order_columns o);
                   ("proposals", JList (option_list (option_map proposal_snapshot (db_proposals d !! order_id))));
                   ("fills", JList (map fill_snapshot
                      (filter (λ f, fl_order_id f = Some order_id) (db_fills d)))) ])
  end.

Definition rule_group_lifecycle_snapshot (d : Db) (group_id : Z) : option json :=
  match db_groups d !! group_id with
  | None => None
  | Some g =>
      Some (JObj [ ("id", JInt (g_id g));
                   ("group_key", JStr (g_group_key g));
                   ("state", JStr (g_state g));
                   ("lease_owner", json_opt JStr (g_lease_owner g));
                   ("lease_expires_at", timestamp (g_lease_expires_at g));
                   ("terminal_rule_id", json_opt JInt (g_terminal_rule_id g));
                   ("version", JInt (g_version g));
                   ("reconciliation_required", JBool (g_reconciliation_required g));
                   ("created_at", timestamp (Some (g_created_at g)));
                   ("updated_at", timestamp (Some (g_updated_at g))) ])
  end.

Definition rule_lifecycle_snapshot (d : Db) (rule_id : Z) : option json :=
  match db_rules d !! rule_id with
  | None => None
  | Some r =>
      Some (JObj [ ("id", JInt (ru_id r));
                   ("group_id", JInt (ru_group_id r));
                   ("payload_version", JInt (ru_payload_version r));
                   ("ticker", JStr (ru_ticker r));
                   ("condition_json", JStr (ru_condition_json r));
                   ("action_json", JStr (ru_action_json r));
                   ("state", JStr (ru_state r));
                   ("created_at", timestamp (Some (ru_created_at r)));
                   ("plan_id", json_opt JInt (ru_plan_id r));
                   ("kind", JStr (ru_kind r));
                   ("fraction", decimal_text (ru_fraction r));
                   ("hwm", decimal_text (ru_hwm r));
                   ("deadline", timestamp (ru_deadline r));
                   ("pre_approved", JBool (ru_pre_approved r));
                   ("activation", JStr (ru_activation r));
                   ("terminal_on_trigger", JBool (ru_terminal_on_trigger r)) ])
  end.

Definition lifecycle_snapshot (d : Db) (target_type : string) (target_id : Z) : option json :=
  if bool_decide (target_type = "order") then order_lifecycle_snapshot d target_id
  else if bool_decide (target_type = "rule_group") then rule_group_lifecycle_snapshot d target_id
  else if bool_decide (target_type = "rule") then rule_lifecycle_snapshot d target_id
  else None.

(** The stored proof object. *)
Definition lifecycle_proof (target_type : string) (target_id : Z) (snapshot : json) : json :=
  JObj [ ("schema", JInt LIFECYCLE_PROOF_SCHEMA);
         ("target_type", JStr target_type);
         ("target_id", JInt target_id);
         ("snapshot", snapshot) ].

Definition augment_lifecycle_detail (d : Db) (target_type : string) (target_id : Z)
    (detail : dict json) : dict json :=
  if negb (bool_decide (target_type ∈ SUPPORTED_TARGETS)) then detail
  else match lifecycle_snapshot d target_type target_id with
       | None => detail
       | Some snapshot =>
           dict_set detail "lifecycle_proof" (lifecycle_proof target_type target_id snapshot)
       end.

(** The checks on schema, target type and target id, made twice in the source. *)
Definition proof_names_target (proof : option json) (target_type : string) (target_id : Z) : bool :=
  match proof with
  | Some (JObj f) =>
      bool_decide (dict_get f "schema" = Some (JInt LIFECYCLE_PROOF_SCHEMA))
      && bool_decide (dict_get f "target_type" = Some (JStr target_type))
      && bool_decide (dict_get f "target_id" = Some (JInt target_id))
  | _ => false
  end.

(** [read_lifecycle_detail]: the decrypted, parsed detail when it is an object. *)
Definition read_lifecycle_detail (e : AuditEvent) : option (dict json) :=
  match a_detail e with JObj f => Some f | _ => None end.

(** The loop over the events of the target, newest first. *)
Fixpoint scan_lifecycle_events (events : list AuditEvent) (target_type : string) (target_id : Z)
    (action : option string) : option (AuditEvent * dict json) :=
  match events with
  | [] => None
  | e :: events' =>
      let detail := read_lifecycle_detail e in
      let proof := detail ≫= λ f, dict_get f "lifecycle_proof" in
      if proof_names_target proof target_type target_id
      then option_map (λ f, (e, f)) detail
      else match action with
           | Some _ => None
           | None => scan_lifecycle_events events' target_type target_id action
           end
  end.

Definition is_target_event (target_type : string) (target_id : Z) (action : option string)
    (e : AuditEvent) : Prop :=
  a_target_type e = target_type ∧ a_target_id e = pretty target_id
  ∧ match action with None => True | Some a => a_action e = a end.

#[export] Instance is_target_event_dec target_type target_id action e :
  Decision (is_target_event target_type target_id action e).
Proof. unfold is_target_event. destruct action; apply _. Defined.

Definition latest_lifecycle_event (d : Db) (target_type : string) (target_id : Z)
    (action : option string) : option (AuditEvent * dict json) :=
  scan_lifecycle_events
    (reverse (filter (is_target_event target_type target_id action) (db_audit d)))
    target_type target_id action.

Definition lifecycle_proof_matches (d : Db) (target_type : string) (target_id : Z) : bool :=
  match latest_lifecycle_event d target_type target_id None with
  | None => false
  | Some (_, detail) =>
      let proof := dict_get detail "lifecycle_proof" in
      proof_names_target proof target_type target_id
      && match lifecycle_snapshot d target_type target_id with
         | None => false
         | Some current => bool_decide (proof ≫= (λ p, json_get p "snapshot") = Some current)
         end
  end.

(** * What an audit row proves *)

(** Audit and risk-event rows, breakers and receipts are not part of a snapshot. *)
Lemma lifecycle_snapshot_ext d d' target_type target_id :
  db_orders d' !! target_id = db_orders d !! target_id →
  db_proposals d' = db_proposals d → db_fills d' = db_fills d →
  db_groups d' !! target_id = db_groups d !! target_id →
  db_rules d' = db_rules d →
  lifecycle_snapshot d' target_type target_id = lifecycle_snapshot d target_type target_id.
Proof.
  intros Ho Hp Hf Hg Hr. unfold lifecycle_snapshot, order_lifecycle_snapshot,
    rule_group_lifecycle_snapshot, rule_lifecycle_snapshot.
  by rewrite Ho, Hp, Hf, Hg, Hr.
Qed.

Lemma lifecycle_snapshot_supported d target_type target_id snap :
  lifecycle_snapshot d target_type target_id = Some snap → target_type ∈ SUPPORTED_TARGETS.
Proof.
  unfold lifecycle_snapshot, SUPPORTED_TARGETS. repeat case_bool_decide; subst; try done; set_solver.
Qed.

Lemma latest_lifecycle_event_app d target_type target_id e :
  is_target_event target_type target_id None e →
  proof_names_target (read_lifecycle_detail e ≫= λ f, dict_get f "lifecycle_proof")
    target_type target_id = true →
  latest_lifecycle_event (set_db_audit (db_audit d ++ [e]) d) target_type target_id None
  = option_map (λ f, (e, f)) (read_lifecycle_detail e).
Proof.
  intros Ht Hp. unfold latest_lifecycle_event. cbn [db_audit set_db_audit].
  rewrite filter_app, filter_cons, decide_True by done. rewrite filter_nil, reverse_app. simpl.
  by rewrite Hp.
Qed.

(** A row written with [augment_lifecycle_detail] from the current database matches it. *)
Lemma fresh_proof_matches d target_type target_id snap e detail :
  lifecycle_snapshot d target_type target_id = Some snap →
  a_target_type e = target_type → a_target_id e = pretty target_id →
  a_detail e = JObj (augment_lifecycle_detail d target_type target_id detail) →
  lifecycle_proof_matches (set_db_audit (db_audit d ++ [e]) d) target_type target_id = true.
Proof.
  intros Hs Ht Hi Hd.
  assert (read_lifecycle_detail e
          = Some (dict_set detail "lifecycle_proof" (lifecycle_proof target_type target_id snap))) as Hread.
  { unfold read_lifecycle_detail. rewrite Hd. unfold augment_lifecycle_detail.
    rewrite bool_decide_true by (by eapply lifecycle_snapshot_supported). simpl. by rewrite Hs. }
  assert (proof_names_target (Some (lifecycle_proof target_type target_id snap)) target_type target_id
          = true) as Hnames.
  { unfold proof_names_target, lifecycle_proof. simpl. by rewrite !bool_decide_true. }
  unfold lifecycle_proof_matches.
  rewrite latest_lifecycle_event_app; rewrite ?Hread; cbn [mbind option_bind option_map];
    rewrite ?dict_get_set_eq; [|by split_and!|done].
  rewrite Hnames. simpl. rewrite (lifecycle_snapshot_ext d) by done. rewrite Hs.
  by rewrite bool_decide_true.
Qed.

(** A row about another target leaves the match alone. *)
Lemma proof_matches_other_event d d' target_type target_id e :
  db_audit d' = db_audit d ++ [e] →
  lifecycle_snapshot d' target_type target_id = lifecycle_snapshot d target_type target_id →
  a_target_type e ≠ target_type ∨ a_target_id e ≠ pretty target_id →
  lifecycle_proof_matches d' target_type target_id = lifecycle_proof_matches d target_type target_id.
Proof.
  intros Ha Hs Hne. unfold lifecycle_proof_matches, latest_lifecycle_event.
  rewrite Ha, Hs, filter_app, filter_cons, decide_False, filter_nil, app_nil_r; [done|].
  unfold is_target_event. naive_solver.
Qed.

End Snapshots.
