(* ===== verification/SessionLogic.v ===== *)
(** Program logics for transactions that hold for every table layout: nothing is durable before
    a commit ([keeps_durable]), and a transaction moves its working copy along a preorder
    ([moves]). *)

From S2P Require Import Prelude Database.

Create HintDb keeps.
Create HintDb moves discriminated.

(** * Nothing is durable before the commit *)

Definition keeps_durable {A} (m : tx A) : Prop := ∀ s, durable (m s).2 = durable s.

Lemma keeps_ret {A} (a : A) : keeps_durable (mret a).
Proof. by intros s. Qed.
Lemma keeps_raise {A} e : keeps_durable (raise (A := A) e).
Proof. by intros s. Qed.
Lemma keeps_lift {A} (m : outcome A) : keeps_durable (lift m).
Proof. by intros s. Qed.
Lemma keeps_read : keeps_durable read.
Proof. by intros s. Qed.
Lemma keeps_write f : keeps_durable (write f).
Proof. by intros s. Qed.
Lemma keeps_rollback : keeps_durable rollback.
Proof. by intros s. Qed.
Lemma keeps_bind {A B} (m : tx A) (f : A → tx B) : keeps_durable m → (∀ a, keeps_durable (f a)) → keeps_durable (m ≫= f).
Proof.
  intros Hm Hf s. unfold mbind, tx_bind. specialize (Hm s). destruct (m s) as [[a|e] s']; [|done].
  rewrite (Hf a s'). exact Hm.
Qed.
Lemma keeps_iter {A} (f : A → tx ()) l : (∀ a, keeps_durable (f a)) → keeps_durable (tx_iter f l).
Proof. intros Hf. induction l as [|x l IH]; [apply keeps_ret|]. by apply keeps_bind. Qed.
#[export] Hint Resolve keeps_ret keeps_raise keeps_lift keeps_read keeps_write keeps_rollback keeps_bind keeps_iter : keeps.

(** Step through a transaction, closing the branches with the hints. *)
Ltac keeps := repeat (first [apply keeps_bind; [|intros ?] | apply keeps_iter; intros ? | case_match | solve [eauto with keeps]]).

(** * Moving the working copy *)

(** From [s], [m] keeps the durable copy and takes the working one along [R], whether it returns
    or raises. *)
Definition moves_at (R : Db → Db → Prop) {A} (m : tx A) (s : Session) : Prop :=
  durable (m s).2 = durable s ∧ R (working s) (working (m s).2).

Definition moves (R : Db → Db → Prop) {A} (m : tx A) : Prop := ∀ s, moves_at R m s.

Lemma moves_here (R : Db → Db → Prop) {A} (m : tx A) s : moves R m → moves_at R m s.
Proof. auto. Qed.

Section Moves.
Context (R : Db → Db → Prop) `{!PreOrder R}.

Lemma moves_ret {A} (a : A) : moves R (mret a).
Proof. by intros s. Qed.
Lemma moves_raise {A} e : moves R (raise (A := A) e).
Proof. by intros s. Qed.
Lemma moves_lift {A} (m : outcome A) : moves R (lift m).
Proof. by intros s. Qed.
Lemma moves_read : moves R read.
Proof. by intros s. Qed.
Lemma moves_write f : (∀ d, R d (f d)) → moves R (write f).
Proof. intros Hf s. split; [done|apply Hf]. Qed.
Lemma moves_at_bind {A B} (m : tx A) (f : A → tx B) s :
  moves_at R m s → (∀ a s', m s = (Ok a, s') → moves_at R (f a) s') → moves_at R (m ≫= f) s.
Proof.
  intros [H1 H2] Hf. unfold moves_at, mbind, tx_bind. destruct (m s) as [[a|e] s'] eqn:Hm; [|done].
  cbn in *. destruct (Hf a s' eq_refl) as [H3 H4]. split; [congruence|by etrans].
Qed.
Lemma moves_bind {A B} (m : tx A) (f : A → tx B) : moves R m → (∀ a, moves R (f a)) → moves R (m ≫= f).
Proof. intros Hm Hf s. apply moves_at_bind; [apply Hm|]. intros a s' _. apply Hf. Qed.
Lemma moves_at_lift {A B} (m : outcome A) (f : A → tx B) s :
  (∀ a, m = Ok a → moves_at R (f a) s) → moves_at R (lift m ≫= f) s.
Proof. intros Hf. apply moves_at_bind; [by apply moves_lift|]. intros a s' [= -> <-]. by apply Hf. Qed.
(** The view read is the working copy at that moment. *)
Lemma moves_at_read {A} (f : Db → tx A) s : moves_at R (f (working s)) s → moves_at R (read ≫= f) s.
Proof. done. Qed.
Lemma moves_at_write {A} f (k : () → tx A) s :
  R (working s) (f (working s)) → moves R (k ()) → moves_at R (write f ≫= k) s.
Proof. intros Hf Hk. apply moves_at_bind; [done|]. intros [] s' _. apply Hk. Qed.
Lemma moves_iter {A} (f : A → tx ()) l : (∀ a, moves R (f a)) → moves R (tx_iter f l).
Proof. intros Hf. induction l as [|x l IH]; [apply moves_ret|]. by apply moves_bind. Qed.
Lemma moves_foldl_in {A B} (f : A → B → tx A) l : (∀ a b, b ∈ l → moves R (f a b)) → ∀ a, moves R (tx_foldl f a l).
Proof.
  induction l as [|x l IH]; intros Hf a; [apply moves_ret|]. apply moves_bind; [apply Hf; left|].
  apply IH. intros ? ? ?. apply Hf. by right.
Qed.
Lemma moves_foldl {A B} (f : A → B → tx A) l : (∀ a b, moves R (f a b)) → ∀ a, moves R (tx_foldl f a l).
Proof. intros Hf. apply moves_foldl_in. auto. Qed.
Lemma moves_iter_in {A} (f : A → tx ()) l : (∀ a, a ∈ l → moves R (f a)) → moves R (tx_iter f l).
Proof.
  induction l as [|x l IH]; intros Hf; [apply moves_ret|]. apply moves_bind; [apply Hf; left|]. intros []. apply IH.
  intros ? ?. apply Hf. by right.
Qed.
End Moves.

Lemma moves_weaken (R S : Db → Db → Prop) {A} (m : tx A) : (∀ d d', R d d' → S d d') → moves R m → moves S m.
Proof. intros HRS Hm s. destruct (Hm s). split; auto. Qed.

#[export] Hint Resolve moves_ret moves_raise moves_lift moves_read : moves.

(** Step through a transaction, closing the leaves with the hints. *)
Ltac moves := repeat (first [solve [eauto with moves typeclass_instances] | apply moves_bind; [apply _| |intros ?]
  | apply moves_iter; [apply _|intros ?] | apply moves_foldl; [apply _|intros ? ?] | case_match]).
