(* ===== verification/BreakerStore.v ===== *)
(** Durable circuit breakers: the transactional part of [risk/breakers.py] and the
    legacy facade [risk/killswitch.py].

    [trip_in_session] and [reset_in_session] run in the caller's session;
    [breaker_trip] and [breaker_reset] are the [BreakerService] methods that own one.
    The process barrier they hold is the subject of [Barrier]. *)

From S2P Require Import Prelude PyDecimal Assets BrokerModels Breakers Database.
From Stdlib Require Import Ascii Lia.
Local Open Scope Z_scope.

Record BreakerState : Type := mkBreakerState {
  bs_scope : BreakerScope;
  bs_tripped : bool;
  bs_reason : string;
  bs_actor : string;
  bs_generation : Z;
  bs_updated_at : time;
}.

(** [_state]. *)
Definition breaker_state (row : CircuitBreakerState) : outcome BreakerState :=
  match breaker_kind_of (cb_kind row) with
  | None => Raise (ValueError "not a valid BreakerKind")
  | Some k => Ok (mkBreakerState (mkScope k (cb_target row)) (cb_tripped row) (cb_reason row)
                    (cb_actor row) (cb_generation row) (cb_updated_at row))
  end.

(** [_audit]. *)
Definition breaker_audit (scope : BreakerScope) (actor action reason result_code request_id : string)
    (detail : dict json) (now : time) : tx () :=
  insert_audit (mkAuditEvent actor action "circuit_breaker" (scope_key scope) request_id EmptyString
                  reason result_code 0 (JObj detail) (Some now)).

Definition put_breaker (scope : BreakerScope) (row : CircuitBreakerState) : tx () :=
  write (λ d, set_db_breakers (<[scope_key scope := row]> (db_breakers d)) d).

(** The row a trip writes over [row]. *)
Definition tripped_row (scope : BreakerScope) (reason actor : string) (timestamp : time)
    (row : option CircuitBreakerState) : CircuitBreakerState :=
  mkBreakerRow (scope_key scope) (breaker_kind_value (kind scope)) (target scope) true reason actor
    (match row with None => 1 | Some r => cb_generation r + 1 end) timestamp.

Definition trip_in_session (scope : BreakerScope) (reason actor request_id : string) (now : time)
    (audit_reason : option string) : tx (BreakerState * bool) :=
  let reason := strip reason in
  let actor := strip actor in
  let request_id := strip request_id in
  if negb (nonempty reason) || negb (nonempty actor) || negb (nonempty request_id)
  then raise (ValueError "breaker trip actor, reason, and request_id must be non-empty")
  else if match audit_reason with None => false | Some r => blank r end
  then raise (ValueError "breaker trip audit reason must be non-empty")
  else
    d ← read;
    let prior := db_breakers d !! scope_key scope in
    let row := tripped_row scope reason actor now prior in
    let changed := negb (match prior with None => false | Some r => cb_tripped r end) in
    put_breaker scope row ≫= λ _,
    breaker_audit scope actor "circuit_breaker.trip" (strip (default reason audit_reason))
      (if changed then "tripped" else "already_tripped") request_id
      [("generation", JInt (cb_generation row))] now ≫= λ _,
    state ← lift (breaker_state row);
    mret (state, changed).

(** The row the guarded [UPDATE] of a reset writes, before its reason is stored. *)
Definition reset_row (scope : BreakerScope) (actor : string) (timestamp : time)
    (row : CircuitBreakerState) : CircuitBreakerState :=
  mkBreakerRow (scope_key scope) (breaker_kind_value (kind scope)) (target scope) false
    (cb_reason row) actor (cb_generation row + 1) timestamp.

Definition reset_matches (expected_generation : Z) (row : CircuitBreakerState) : bool :=
  cb_tripped row && (cb_generation row =? expected_generation).

(** Deleting the completed panic receipts of the paper account (its primary key). *)
Definition delete_completed_receipts (receipts : gmap string PanicReceipt) : gmap string PanicReceipt :=
  match receipts !! "alpaca-paper" with
  | Some r => if bool_decide (pr_state r = "completed") then delete "alpaca-paper" receipts else receipts
  | None => receipts
  end.

Definition reset_conflict (scope : BreakerScope) (actor reason request_id : string)
    (prior_health : dict json) (expected_generation : Z) (now : time)
    (row : option CircuitBreakerState) : tx BreakerState :=
  current ← lift (match row with
                  | None => Ok None
                  | Some r => s ← breaker_state r; Ok (Some s)
                  end);
  breaker_audit scope actor "circuit_breaker.reset" reason "conflict" request_id
    [ ("expected_generation", JInt expected_generation);
      ("current_generation", json_opt JInt (option_map bs_generation current));
      ("current_tripped", json_opt JBool (option_map bs_tripped current));
      ("prior_health", JObj prior_health) ] now ≫= λ _,
  raise (BreakerResetConflict (scope_key scope) expected_generation
           (option_map (λ s, (bs_tripped s, bs_generation s)) current)).

Definition reset_in_session (scope : BreakerScope) (actor reason : string) (prior_health : dict json)
    (expected_generation : Z) (request_id : string) (now : time) : tx BreakerState :=
  let actor := strip actor in
  let reason := strip reason in
  let request_id := strip request_id in
  if negb (nonempty actor) then raise (ValueError "breaker reset actor must be non-empty")
  else if negb (nonempty reason) then raise (ValueError "breaker reset reason must be non-empty")
  else if negb (nonempty request_id) then raise (ValueError "breaker reset request_id must be non-empty")
  else if bool_decide (prior_health = []) then raise (ValueError "breaker reset prior health must be non-empty")
  else if expected_generation <? 1
  then raise (ValueError "breaker reset expected generation must be a positive integer")
  else
    d ← read;
    match db_breakers d !! scope_key scope with
    | Some row =>
        if reset_matches expected_generation row then
          let row' := set_cb_reason reason (reset_row scope actor now row) in
          put_breaker scope row' ≫= λ _,
          write (λ d, set_db_receipts (delete_completed_receipts (db_receipts d)) d) ≫= λ _,
          breaker_audit scope actor "circuit_breaker.reset" reason "reset" request_id
            [ ("expected_generation", JInt expected_generation);
              ("generation", JInt (cb_generation row'));
              ("prior_health", JObj prior_health) ] now ≫= λ _,
          lift (breaker_state row')
        else reset_conflict scope actor reason request_id prior_health expected_generation now (Some row)
    | None => reset_conflict scope actor reason request_id prior_health expected_generation now None
    end.

(** * [BreakerService] *)

Definition breaker_trip (scope : BreakerScope) (reason actor request_id : string) (now : time)
    (audit_reason : option string) (d : Db) : outcome BreakerState * Db :=
  with_session (
    st ← trip_in_session scope reason actor request_id now audit_reason;
    commit ≫= λ _, mret st.1) d.

Definition is_tripped (scope : BreakerScope) (d : Db) : bool :=
  match db_breakers d !! scope_key scope with None => false | Some r => cb_tripped r end.

Definition breaker_get (scope : BreakerScope) (d : Db) : outcome (option BreakerState) :=
  match db_breakers d !! scope_key scope with
  | None => Ok None
  | Some r => s ← breaker_state r; Ok (Some s)
  end.

(** [active_for_symbol]: the tripped rows of the relevant scopes, in key order. *)
Definition active_for_symbol (symbol : string) (d : Db) : outcome (list BreakerState) :=
  outcome_mapM breaker_state
    (filter (λ r, cb_tripped r = true)
       (omap (λ k, db_breakers d !! k)
          (sorted_strings (map scope_key (relevant_scopes_for_symbol symbol))))).

Definition breaker_reset (scope : BreakerScope) (actor reason : string) (prior_health : dict json)
    (expected_generation : Z) (request_id : string) (now : time) (d : Db) : outcome BreakerState * Db :=
  with_session (λ s,
    match reset_in_session scope actor reason prior_health expected_generation request_id now s with
    | (Raise (BreakerResetConflict k g c), s') =>
        (commit ≫= λ _, raise (BreakerResetConflict k g c)) s'
    | (Ok state, s') => (commit ≫= λ _, mret state) s'
    | r => r
    end) d.

(** * The legacy kill switch *)

(** [_scope]: an asset class, or the text of one, or [operator_global]. *)
Definition killswitch_scope (asset_class : string) : outcome BreakerScope :=
  if bool_decide (asset_class = "operator_global") then Ok scope_operator_global
  else if bool_decide (asset_class = asset_class_value EQUITY) then Ok (scope_loss EQUITY)
  else if bool_decide (asset_class = asset_class_value CRYPTO) then Ok (scope_loss CRYPTO)
  else Raise (ValueError "not a valid AssetClass").

Definition killswitch_is_tripped (asset_class : string) (d : Db) : outcome bool :=
  scope ← killswitch_scope asset_class; Ok (is_tripped scope d).

Definition killswitch_trip (in_transaction : bool) (reason asset_class actor request_id : string)
    (now : time) (d : Db) : outcome () * Db :=
  match killswitch_scope asset_class with
  | Raise e => (Raise e, d)
  | Ok scope =>
      if in_transaction
      then (Raise (RuntimeError "compatibility breaker writes reject an active transaction"), d)
      else with_session (
        st ← trip_in_session scope reason actor request_id now None;
        (if st.2 : bool
         then insert_risk_event (mkRiskEvent None "killswitch_trip"
                ("[" +:+ scope_key scope +:+ "] " +:+ reason) None)
         else mret ()) ≫= λ _, commit) d
  end.

Definition killswitch_reset (d : Db) : outcome () * Db :=
  (Raise (KillSwitchResetUnavailable "compatibility reset is unavailable; use TradingService.reset_killswitch"), d).

Definition evaluate_daily_loss (in_transaction : bool) (realized_pnl_today loss_limit : Decimal)
    (asset_class actor request_id : string) (now : time) (d : Db) : outcome bool * Db :=
  match dle realized_pnl_today (dneg (dabs loss_limit)) with
  | Raise e => (Raise e, d)
  | Ok false => (killswitch_is_tripped asset_class d, d)
  | Ok true =>
      match killswitch_trip in_transaction
              ("daily realized loss " +:+ dstr realized_pnl_today +:+ " breached limit -"
               +:+ dstr (dabs loss_limit)) asset_class actor request_id now d with
      | (Raise e, d') => (Raise e, d')
      | (Ok _, d') => (killswitch_is_tripped asset_class d', d')
      end
  end.

(** * Theory *)

Lemma breaker_kind_of_value k : breaker_kind_of (breaker_kind_value k) = Some k.
Proof. by destruct k. Qed.

Lemma breaker_state_tripped_row scope reason actor now prior :
  breaker_state (tripped_row scope reason actor now prior)
  = Ok (mkBreakerState scope true reason actor
          (match prior with None => 1 | Some r => cb_generation r + 1 end) now).
Proof. unfold breaker_state. simpl. rewrite breaker_kind_of_value. by destruct scope. Qed.

Definition trip_inputs_ok (reason actor request_id : string) (audit_reason : option string) : bool :=
  negb (blank reason) && negb (blank actor) && negb (blank request_id)
  && match audit_reason with None => true | Some r => negb (blank r) end.

(** The audit row of a trip. *)
Definition trip_event (scope : BreakerScope) (reason actor request_id : string) (now : time)
    (audit_reason : option string) (prior : option CircuitBreakerState) : AuditEvent :=
  mkAuditEvent (strip actor) "circuit_breaker.trip" "circuit_breaker" (scope_key scope)
    (strip request_id) EmptyString (strip (default (strip reason) audit_reason))
    (if match prior with None => false | Some r => cb_tripped r end then "already_tripped" else "tripped")
    0 (JObj [("generation", JInt (match prior with None => 1 | Some r => cb_generation r + 1 end))])
    (Some now).

(** The database after a trip. *)
Definition tripped_db (scope : BreakerScope) (reason actor request_id : string) (now : time)
    (audit_reason : option string) (d : Db) : Db :=
  let prior := db_breakers d !! scope_key scope in
  set_db_audit (db_audit d ++ [trip_event scope reason actor request_id now audit_reason prior])
    (set_db_breakers (<[scope_key scope := tripped_row scope (strip reason) (strip actor) now prior]>
       (db_breakers d)) d).

Definition next_generation (prior : option CircuitBreakerState) : Z :=
  match prior with None => 1 | Some r => cb_generation r + 1 end.

Lemma trip_in_session_ok scope reason actor request_id now audit_reason s :
  trip_inputs_ok reason actor request_id audit_reason = true →
  trip_in_session scope reason actor request_id now audit_reason s
  = (Ok (mkBreakerState scope true (strip reason) (strip actor)
           (next_generation (db_breakers (working s) !! scope_key scope)) now,
         negb (is_tripped scope (working s))),
     mkSession (durable s) (tripped_db scope reason actor request_id now audit_reason (working s))).
Proof.
  unfold trip_inputs_ok, blank. intros Hin.
  apply andb_true_iff in Hin as [Hin Ha]. apply andb_true_iff in Hin as [Hin Hq].
  apply andb_true_iff in Hin as [Hr Hac]. rewrite !negb_involutive in *.
  unfold trip_in_session. rewrite Hr, Hac, Hq. cbn [negb orb].
  assert (match audit_reason with None => false | Some r => blank r end = false) as ->.
  { destruct audit_reason; [|done]. by apply negb_true_iff in Ha. }
  unfold read, mbind, tx_bind, put_breaker, breaker_audit, insert_audit, write, lift, mret, tx_ret.
  cbn [fst snd]. rewrite breaker_state_tripped_row.
  apply (f_equal2 pair); [by unfold is_tripped|]. f_equal. unfold tripped_db. cbn. f_equal. unfold trip_event.
  destruct (db_breakers (working s) !! scope_key scope) as [r|]; [by destruct (cb_tripped r)|done].
Qed.

Lemma trip_in_session_bad scope reason actor request_id now audit_reason s :
  trip_inputs_ok reason actor request_id audit_reason = false →
  ∃ m, trip_in_session scope reason actor request_id now audit_reason s = (Raise (ValueError m), s).
Proof.
  unfold trip_inputs_ok, blank. intros Hin. unfold trip_in_session.
  destruct (nonempty (strip reason)), (nonempty (strip actor)), (nonempty (strip request_id));
    try (by eexists). cbn [negb orb andb] in *.
  destruct audit_reason as [r|]; [|done]. unfold blank.
  destruct (nonempty (strip r)); [done|by eexists].
Qed.

(** A breaker trip with non-blank actor, reason and request id always succeeds:
    the scope is tripped with a strictly newer generation, every other row is untouched and
    exactly one audit row is appended; with a blank input it raises [ValueError] and changes
    nothing. *)
Theorem breaker_trip_spec scope reason actor request_id now audit_reason d :
  match breaker_trip scope reason actor request_id now audit_reason d with
  | (Ok state, d') =>
      trip_inputs_ok reason actor request_id audit_reason = true
      ∧ is_tripped scope d' = true
      ∧ breaker_get scope d' = Ok (Some state) ∧ bs_tripped state = true ∧ bs_scope state = scope
      ∧ bs_generation state = next_generation (db_breakers d !! scope_key scope)
      ∧ (∀ k, k ≠ scope_key scope → db_breakers d' !! k = db_breakers d !! k)
      ∧ db_orders d' = db_orders d ∧ db_receipts d' = db_receipts d
      ∧ ∃ e, db_audit d' = db_audit d ++ [e] ∧ a_action e = "circuit_breaker.trip"
             ∧ a_target_id e = scope_key scope ∧ a_actor e = strip actor
  | (Raise e, d') =>
      trip_inputs_ok reason actor request_id audit_reason = false
      ∧ d' = d ∧ ∃ m, e = ValueError m
  end.
Proof.
  unfold breaker_trip, with_session, mbind, tx_bind.
  destruct (trip_inputs_ok reason actor request_id audit_reason) eqn:Hin.
  - rewrite trip_in_session_ok by done. cbn [commit mret tx_ret fst working durable].
    unfold tripped_db. split_and!; try done.
    + unfold is_tripped. cbn. by rewrite lookup_insert_eq.
    + unfold breaker_get. cbn. rewrite lookup_insert_eq. by rewrite breaker_state_tripped_row.
    + intros k Hk. cbn. by rewrite lookup_insert_ne.
    + eexists. split_and!; reflexivity.
  - destruct (trip_in_session_bad scope reason actor request_id now audit_reason (mkSession d d) Hin)
      as (m & ->). cbn. eauto.
Qed.

Definition reset_inputs_ok (actor reason request_id : string) (prior_health : dict json)
    (expected_generation : Z) : bool :=
  negb (blank actor) && negb (blank reason) && negb (blank request_id)
  && negb (bool_decide (prior_health = [])) && (1 <=? expected_generation).

(** Whether the guarded [UPDATE] of a reset finds its row. *)
Definition reset_hits (scope : BreakerScope) (expected_generation : Z) (d : Db) : bool :=
  match db_breakers d !! scope_key scope with
  | None => false
  | Some r => reset_matches expected_generation r
  end.

Lemma reset_in_session_bad scope actor reason health g request_id now s :
  reset_inputs_ok actor reason request_id health g = false →
  ∃ m, reset_in_session scope actor reason health g request_id now s = (Raise (ValueError m), s).
Proof.
  unfold reset_inputs_ok, blank. intros Hin. unfold reset_in_session.
  destruct (nonempty (strip actor)), (nonempty (strip reason)), (nonempty (strip request_id));
    try (by eexists). cbn [negb orb andb] in *.
  destruct (bool_decide (health = [])); [by eexists|]. cbn [negb andb] in *.
  rewrite Z.leb_antisym in Hin. apply negb_false_iff in Hin. rewrite Hin. by eexists.
Qed.

(** The database after a successful reset. *)
Definition reset_db (scope : BreakerScope) (actor reason request_id : string) (health : dict json)
    (g : Z) (now : time) (row : CircuitBreakerState) (d : Db) : Db :=
  let row' := set_cb_reason (strip reason) (reset_row scope (strip actor) now row) in
  set_db_audit (db_audit d ++
    [mkAuditEvent (strip actor) "circuit_breaker.reset" "circuit_breaker" (scope_key scope)
       (strip request_id) EmptyString (strip reason) "reset" 0
       (JObj [("expected_generation", JInt g); ("generation", JInt (g + 1)); ("prior_health", JObj health)])
       (Some now)])
   (set_db_receipts (delete_completed_receipts (db_receipts d))
    (set_db_breakers (<[scope_key scope := row']> (db_breakers d)) d)).

Lemma breaker_state_reset_row scope actor reason now row :
  breaker_state (set_cb_reason reason (reset_row scope actor now row))
  = Ok (mkBreakerState scope false reason actor (cb_generation row + 1) now).
Proof.
  unfold breaker_state, set_cb_reason, reset_row. cbn [cb_kind cb_target]. rewrite breaker_kind_of_value.
  by destruct scope.
Qed.

Section Reset.
Context (scope : BreakerScope) (actor reason : string) (health : dict json) (g : Z)
        (request_id : string) (now : time).
Context (Hin : reset_inputs_ok actor reason request_id health g = true).

(** With valid inputs the reset is the guarded update. *)
Lemma reset_in_session_valid s :
  reset_in_session scope actor reason health g request_id now s
  = match db_breakers (working s) !! scope_key scope with
    | Some row =>
        if reset_matches g row
        then (Ok (mkBreakerState scope false (strip reason) (strip actor) (g + 1) now),
              mkSession (durable s) (reset_db scope actor reason request_id health g now row (working s)))
        else reset_conflict scope (strip actor) (strip reason) (strip request_id) health g now (Some row) s
    | None => reset_conflict scope (strip actor) (strip reason) (strip request_id) health g now None s
    end.
Proof.
  revert Hin. unfold reset_inputs_ok, blank. rewrite !andb_true_iff, !negb_involutive, !negb_true_iff.
  intros ((((Ha & Hr) & Hq) & Hh) & Hg). unfold reset_in_session. rewrite Ha, Hr, Hq, Hh. cbn [negb].
  apply Z.leb_le in Hg. destruct (Z.ltb_spec g 1); [lia|].
  unfold read, mbind, tx_bind, put_breaker, breaker_audit, insert_audit, write, lift, mret, tx_ret.
  cbn [working durable]. destruct (db_breakers (working s) !! scope_key scope) as [row|]; [|done].
  destruct (reset_matches g row) eqn:Hm; [|done].
  apply andb_true_iff in Hm as [_ Hgen%Z.eqb_eq].
  rewrite breaker_state_reset_row, Hgen. unfold reset_db. cbn. by rewrite Hgen.
Qed.

Lemma reset_conflict_raises row s :
  ∃ e s', reset_conflict scope (strip actor) (strip reason) (strip request_id) health g now row s
          = (Raise e, s') ∧ durable s' = durable s
          ∧ db_breakers (working s') = db_breakers (working s)
          ∧ db_receipts (working s') = db_receipts (working s)
          ∧ db_orders (working s') = db_orders (working s)
          ∧ ((∃ c, e = BreakerResetConflict (scope_key scope) g c) ∨ ∃ m, e = ValueError m)
          ∧ ((∃ c, e = BreakerResetConflict (scope_key scope) g c) →
             ∃ ev, db_audit (working s') = db_audit (working s) ++ [ev] ∧ a_result_code ev = "conflict"
                   ∧ a_target_id ev = scope_key scope).
Proof.
  unfold reset_conflict, lift, mbind, tx_bind, breaker_audit, insert_audit, write, raise.
  destruct row as [r|]; [unfold breaker_state; destruct (breaker_kind_of (cb_kind r))|]; cbn;
    eexists _, _; split_and!; try reflexivity; eauto; naive_solver.
Qed.
End Reset.

(** A reset clears a breaker exactly when the row is tripped at the generation
    the operator observed (and the inputs are well formed); it then advances the generation,
    drops completed panic receipts and audits the reset.  Otherwise it raises and no breaker
    row, receipt or order changes, and a conflict is still audited durably. *)
Theorem breaker_reset_spec scope actor reason health g request_id now d :
  match breaker_reset scope actor reason health g request_id now d with
  | (Ok state, d') =>
      reset_inputs_ok actor reason request_id health g = true ∧ reset_hits scope g d = true
      ∧ bs_scope state = scope ∧ bs_tripped state = false ∧ bs_generation state = g + 1
      ∧ (∀ k, k ≠ scope_key scope → db_breakers d' !! k = db_breakers d !! k)
      ∧ is_tripped scope d' = false ∧ breaker_get scope d' = Ok (Some state)
      ∧ (∀ p, db_receipts d' !! "alpaca-paper" = Some p → pr_state p ≠ "completed")
      ∧ ∃ e, db_audit d' = db_audit d ++ [e] ∧ a_result_code e = "reset"
  | (Raise e, d') =>
      reset_inputs_ok actor reason request_id health g && reset_hits scope g d = false
      ∧ db_breakers d' = db_breakers d ∧ db_receipts d' = db_receipts d ∧ db_orders d' = db_orders d
      ∧ ((∃ c, e = BreakerResetConflict (scope_key scope) g c) →
         ∃ ev, db_audit d' = db_audit d ++ [ev] ∧ a_result_code ev = "conflict"
               ∧ a_target_id ev = scope_key scope)
  end.
Proof.
  unfold breaker_reset, with_session.
  destruct (reset_inputs_ok actor reason request_id health g) eqn:Hin.
  2: { destruct (reset_in_session_bad scope actor reason health g request_id now (mkSession d d) Hin)
         as (m & ->). cbn. split_and!; try done. by intros (c & [=]). }
  rewrite reset_in_session_valid by done. unfold reset_hits. cbn [working durable].
  destruct (db_breakers d !! scope_key scope) as [row|] eqn:Hrow;
    [destruct (reset_matches g row) eqn:Hm|].
  - unfold mbind, tx_bind, commit, mret, tx_ret, reset_db. cbn [durable working].
    split_and!; try done.
    + intros k Hk. cbn [db_breakers set_db_audit set_db_receipts set_db_breakers].
      by rewrite lookup_insert_ne.
    + unfold is_tripped. cbn [db_breakers set_db_audit set_db_receipts set_db_breakers].
      by rewrite lookup_insert_eq.
    + unfold breaker_get. cbn [db_breakers set_db_audit set_db_receipts set_db_breakers].
      rewrite lookup_insert_eq, breaker_state_reset_row.
      by apply andb_true_iff in Hm as [_ ->%Z.eqb_eq].
    + intros p. cbn [db_receipts set_db_audit set_db_receipts set_db_breakers].
      unfold delete_completed_receipts.
      destruct (db_receipts d !! "alpaca-paper") as [q|] eqn:Hq; [|by rewrite Hq].
      case_bool_decide; [by rewrite lookup_delete_eq|]. rewrite Hq. by intros [= <-].
    + by eexists.
  - destruct (reset_conflict_raises scope actor reason health g request_id now (Some row) (mkSession d d))
      as (e & s' & -> & Hd & Hb & Hr & Ho & He & Hau).
    destruct He as [[c ->]|[m ->]]; cbn; simpl in *; [split_and!; eauto|].
    rewrite Hd. split_and!; try done. by intros (c & [=]).
  - destruct (reset_conflict_raises scope actor reason health g request_id now None (mkSession d d))
      as (e & s' & -> & Hd & Hb & Hr & Ho & He & Hau).
    destruct He as [[c ->]|[m ->]]; cbn; simpl in *; [split_and!; eauto|].
    rewrite Hd. split_and!; try done. by intros (c & [=]).
Qed.

(** ** Sequences of breaker operations *)

Inductive breaker_op : Type :=
| OpTrip (scope : BreakerScope) (reason actor request_id : string) (now : time) (audit_reason : option string)
| OpReset (scope : BreakerScope) (actor reason : string) (health : dict json) (g : Z)
    (request_id : string) (now : time).

Definition run_breaker_op (op : breaker_op) (d : Db) : Db :=
  match op with
  | OpTrip scope reason actor request_id now audit_reason =>
      (breaker_trip scope reason actor request_id now audit_reason d).2
  | OpReset scope actor reason health g request_id now =>
      (breaker_reset scope actor reason health g request_id now d).2
  end.

(** The row of [key] is tripped at generation [g] or newer. *)
Definition tripped_since (key : string) (g : Z) (d : Db) : Prop :=
  ∃ r, db_breakers d !! key = Some r ∧ cb_tripped r = true ∧ g ≤ cb_generation r.

(** A reset aimed at a generation of [key] older than [g]. *)
Definition stale_for (key : string) (g : Z) (op : breaker_op) : Prop :=
  match op with
  | OpTrip _ _ _ _ _ _ => True
  | OpReset scope _ _ _ expected _ _ => scope_key scope = key → expected < g
  end.

Lemma run_breaker_op_breakers op d :
  db_breakers (run_breaker_op op d) = db_breakers d
  ∨ ∃ scope row, db_breakers (run_breaker_op op d) = <[scope_key scope := row]> (db_breakers d)
      ∧ cb_generation row = next_generation (db_breakers d !! scope_key scope)
      ∧ match op with
        | OpTrip s _ _ _ _ _ => s = scope ∧ cb_tripped row = true
        | OpReset s _ _ _ g _ _ => s = scope ∧ cb_tripped row = false ∧ reset_hits scope g d = true
        end.
Proof.
  destruct op as [scope reason actor request_id now audit_reason|scope actor reason health g request_id now]; simpl.
  - unfold breaker_trip, with_session, mbind, tx_bind.
    destruct (trip_inputs_ok reason actor request_id audit_reason) eqn:Hin.
    + rewrite trip_in_session_ok by done. right. by eexists scope, _.
    + destruct (trip_in_session_bad scope reason actor request_id now audit_reason (mkSession d d) Hin)
        as (m & ->). by left.
  - unfold breaker_reset, with_session.
    destruct (reset_inputs_ok actor reason request_id health g) eqn:Hin.
    2: { destruct (reset_in_session_bad scope actor reason health g request_id now (mkSession d d) Hin)
           as (m & ->). by left. }
    rewrite reset_in_session_valid by done. cbn [working].
    assert (∀ row, db_breakers (let '(r, s) := match reset_conflict scope (strip actor) (strip reason)
               (strip request_id) health g now row (mkSession d d) with
        | (Raise (BreakerResetConflict k g c), s') =>
            (commit ≫= λ _, raise (BreakerResetConflict k g c)) s'
        | (Ok state, s') => (commit ≫= λ _, mret (M := tx) state) s'
        | r => r end in (r, durable s)).2 = db_breakers d) as Hconf.
    { intros row.
      destruct (reset_conflict_raises scope actor reason health g request_id now row (mkSession d d))
        as (e & s' & -> & Hd & Hb & _ & _ & He & _).
      destruct He as [[c ->]|[m ->]]; cbn in *; [done|by rewrite Hd]. }
    unfold reset_hits. destruct (db_breakers d !! scope_key scope) as [row|] eqn:Hrow; [|left; apply Hconf].
    destruct (reset_matches g row) eqn:Hm; [|left; apply Hconf].
    right. eexists scope, _. split; [reflexivity|]. rewrite Hrow. by rewrite Hm.
Qed.

Lemma run_breaker_op_stale key g op d :
  stale_for key g op → tripped_since key g d → tripped_since key g (run_breaker_op op d).
Proof.
  intros Hst (r & Hr & Ht & Hg).
  destruct (run_breaker_op_breakers op d) as [Heq|(scope & row & Heq & Hgen & Hop)].
  { exists r. by rewrite Heq. }
  unfold tripped_since. rewrite Heq. destruct (decide (scope_key scope = key)) as [<-|Hne].
  2: { exists r. by rewrite lookup_insert_ne. }
  exists row. rewrite lookup_insert_eq. rewrite Hr in Hgen. simpl in Hgen.
  destruct op as [scope'|scope' a b c e]; [destruct Hop as [-> ?]; split_and!; [done..|lia]|].
  destruct Hop as (-> & _ & Hhit). unfold reset_hits, reset_matches in Hhit. rewrite Hr, Ht in Hhit.
  apply Z.eqb_eq in Hhit. specialize (Hst eq_refl). lia.
Qed.

(** Once a breaker is tripped at generation [g], no sequence of trips and
    resets in which every reset of that scope names an older generation clears it:
    a reset decided on an earlier observation never undoes a newer trip. *)
Theorem stale_resets_never_clear key g ops d :
  Forall (stale_for key g) ops → tripped_since key g d →
  tripped_since key g (foldl (λ d op, run_breaker_op op d) d ops).
Proof.
  intros Hops. revert d. induction Hops as [|op ops Hop _ IH]; intros d Hd; [done|].
  simpl. apply IH. by apply run_breaker_op_stale.
Qed.

Lemma blank_cons c s : is_space c = false → blank (String c s) = false.
Proof.
  intros Hc. unfold blank, strip. simpl. rewrite Hc. simpl.
  destruct (rstrip s); [by rewrite Hc|done].
Qed.

(** When the realized loss reaches the limit, [evaluate_daily_loss] on a fresh
    session returns [True] with the asset class's loss breaker durably tripped, and it
    records a kill-switch risk event exactly when the breaker was not tripped before. *)
Theorem evaluate_daily_loss_trips realized limit asset_class scope actor request_id now d :
  dle realized (dneg (dabs limit)) = Ok true → killswitch_scope asset_class = Ok scope →
  blank actor = false → blank request_id = false →
  ∃ d', evaluate_daily_loss false realized limit asset_class actor request_id now d = (Ok true, d')
        ∧ is_tripped scope d' = true
        ∧ length (db_risk_events d')
          = (length (db_risk_events d) + if is_tripped scope d then 0 else 1)%nat.
Proof.
  intros Hle Hsc Ha Hq. unfold evaluate_daily_loss. rewrite Hle. unfold killswitch_trip. rewrite Hsc.
  unfold with_session, mbind, tx_bind. rewrite trip_in_session_ok.
  2: { unfold trip_inputs_ok. rewrite Ha, Hq.
       assert (∀ s, blank ("daily realized loss " +:+ s) = false) as ->; [|done].
       intros s. by apply (blank_cons "d"%char). }
  unfold killswitch_is_tripped. rewrite Hsc. cbn [snd working durable mbind outcome_bind].
  destruct (is_tripped scope d); cbn [negb]; unfold mret, tx_ret, insert_risk_event, write, commit;
    eexists; (split; [apply (f_equal2 pair); [|reflexivity]; f_equal|split]); cbn [durable working];
    unfold is_tripped, tripped_db; cbn [db_breakers db_risk_events set_db_audit set_db_breakers set_db_risk_events];
    rewrite ?lookup_insert_eq, ?length_app; done || lia.
Qed.

(** ** Concrete runs *)

Definition demo_trips : list breaker_op :=
  [ OpTrip scope_broker_drift "drift" "monitor" "r1" 10 None;
    OpReset scope_broker_drift "operator" "cleared" [("broker", JStr "ok")] 1 "r2" 11;
    OpTrip scope_broker_drift "drift again" "monitor" "r3" 12 None ].

Definition demo_tripped_db : Db := foldl (λ d op, run_breaker_op op d) empty_db demo_trips.

Lemma stale_resets_never_clear_witness :
  tripped_since "broker_drift" 3
    (foldl (λ d op, run_breaker_op op d) demo_tripped_db
       [ OpReset scope_broker_drift "operator" "stale" [("broker", JStr "ok")] 1 "r4" 13;
         OpReset scope_operator_global "operator" "other" [("broker", JStr "ok")] 7 "r5" 14 ]).
Proof.
  apply (stale_resets_never_clear "broker_drift" 3).
  - repeat constructor; simpl; discriminate.
  - eexists. split_and!; [vm_compute; reflexivity|reflexivity|vm_compute; discriminate].
Defined.

Lemma evaluate_daily_loss_trips_witness :
  ∃ d', evaluate_daily_loss false (Fin (-500) 0) (Fin 300 0) "equity" "monitor" "r1" 5 empty_db = (Ok true, d')
        ∧ is_tripped (scope_loss EQUITY) d' = true
        ∧ length (db_risk_events d')
          = (length (db_risk_events empty_db) + if is_tripped (scope_loss EQUITY) empty_db then 0 else 1)%nat.
Proof.
  apply (evaluate_daily_loss_trips (Fin (-500) 0) (Fin 300 0) "equity" (scope_loss EQUITY));
    vm_compute; reflexivity.
Defined.

(** A reset with the observed generation goes through; a repeated one conflicts. *)
Example demo_reset_conflicts :
  (breaker_reset scope_broker_drift "operator" "cleared" [("broker", JStr "ok")] 3 "r4" 13 demo_tripped_db).1
  = Ok (mkBreakerState scope_broker_drift false "cleared" "operator" 4 13)
  ∧ (breaker_reset scope_broker_drift "operator" "cleared" [("broker", JStr "ok")] 1 "r4" 13 demo_tripped_db).1
  = Raise (BreakerResetConflict "broker_drift" 1 (Some (true, 3))).
Proof. vm_compute. done. Qed.

Lemma breaker_reset_orders scope actor reason health g request_id now d :
  db_orders (breaker_reset scope actor reason health g request_id now d).2 = db_orders d.
Proof.
  unfold breaker_reset, with_session.
  destruct (reset_inputs_ok actor reason request_id health g) eqn:Hin.
  2: { by destruct (reset_in_session_bad scope actor reason health g request_id now (mkSession d d) Hin)
         as (m & ->). }
  rewrite reset_in_session_valid by done. cbn [working].
  destruct (db_breakers d !! scope_key scope) as [row|]; [destruct (reset_matches g row)|]; [done|..].
  - destruct (reset_conflict_raises scope actor reason health g request_id now (Some row) (mkSession d d))
      as (e & s' & -> & Hd & _ & _ & Ho & He & _).
    destruct He as [[c ->]|[m ->]]; cbn in *; [done|by rewrite Hd].
  - destruct (reset_conflict_raises scope actor reason health g request_id now None (mkSession d d))
      as (e & s' & -> & Hd & _ & _ & Ho & He & _).
    destruct He as [[c ->]|[m ->]]; cbn in *; [done|by rewrite Hd].
Qed.
