(* ===== verification/OrderRepository.v ===== *)
(** The order outbox repository: [orders/repository.py], and the approval primitive
    [approve_proposed] of [db/models.py].

    Each method is one transaction of its own session ([with_session]); the
    [@serialized_writer] barrier that orders methods of different processes is the
    subject of [Barrier].  [time.perf_counter] only feeds [latency_ms], an argument
    here. *)

From S2P Require Import Prelude PyDecimal Assets BrokerModels Breakers RiskRules RiskEngine.
From S2P Require Import Database Lifecycle BreakerStore.
From Stdlib Require Import Lia.
Local Open Scope Z_scope.

Section Repository.
Context `{Digest}.

(** * Audit helpers *)

Definition require_context (actor reason request_id : string) : outcome (string * string * string) :=
  let actor := strip actor in
  let reason := strip reason in
  let request_id := strip request_id in
  if negb (nonempty actor) || negb (nonempty reason) || negb (nonempty request_id)
  then Raise (ValueError "order mutation actor, reason, and request_id must be non-empty")
  else Ok (actor, reason, request_id).

Definition audit_order_mutation (order_id : Z) (actor reason request_id action result_code : string)
    (detail : dict json) (idempotency_key : string) (latency_ms : Z) : tx () :=
  d ← read;
  insert_audit (mkAuditEvent actor action "order" (pretty order_id) request_id idempotency_key
    reason result_code latency_ms
    (JObj (augment_lifecycle_detail d "order" order_id detail)) None).

Definition audit_group_mutation (group_id : Z) (actor reason request_id action result_code : string) : tx () :=
  d ← read;
  insert_audit (mkAuditEvent actor action "rule_group" (pretty group_id) request_id EmptyString
    reason result_code 0
    (JObj (augment_lifecycle_detail d "rule_group" group_id [])) None).

(** The reconciliation latch of an order's source rule group: the same block in
    [claim_submission], [record_submission_result] and [record_invalid_broker_data]. *)
Definition latch_group (order_id : Z) (actor reason request_id : string) (now : time) : tx () :=
  d ← read;
  match db_proposals d !! order_id ≫= p_source_rule_group_id with
  | None => mret ()
  | Some group_id =>
      match db_groups d !! group_id with
      | None => mret ()
      | Some g =>
          write (set_db_groups
            (<[group_id := set_g_updated_at now (set_g_reconciliation_required true g)]> (db_groups d))) ≫= λ _,
          audit_group_mutation group_id actor reason request_id "rule_group.reconciliation_latch" "required"
      end
  end.

Definition trip_intents (intents : list BreakerTripIntent) (actor reason request_id : string) (now : time) : tx () :=
  tx_iter (λ i, trip_in_session (i_scope i) (i_reason i) actor request_id now (Some reason) ≫= λ _, mret ())
    intents.

Definition has_status (s : OrderStatus) (o : Order) : bool := bool_decide (o_status o = order_status_value s).

Definition bump (now : time) (o : Order) : Order :=
  set_o_version (o_version o + 1) (set_o_updated_at now o).

(** * Approval *)

Definition record_approval (order_id : Z) (actor reason request_id : string) (now : time)
    (latency_ms : Z) (d : Db) : outcome bool * Db :=
  match require_context actor reason request_id with
  | Raise e => (Raise e, d)
  | Ok (actor, reason, request_id) =>
      with_session (
        updated ← update_order order_id (λ _, has_status PROPOSED)
          (λ o, bump now (set_o_approved_at (Some now) (set_o_approval_actor (Some actor)
                  (set_o_status (order_status_value APPROVAL_RECORDED) o))));
        match updated with
        | None => rollback ≫= λ _, mret false
        | Some o =>
            update_order order_id (λ _ _, true) (set_o_approval_reason reason) ≫= λ _,
            audit_order_mutation order_id actor reason request_id "order.approve"
              (order_status_value APPROVAL_RECORDED) [] (o_idempotency_key o) latency_ms ≫= λ _,
            commit ≫= λ _, mret true
        end) d
  end.

(** [approve_proposed] of [db/models.py]: in the caller's session. *)
Definition approve_proposed (order_id : Z) (actor reason request_id : string) (now : time) : tx () :=
  if blank actor || blank reason || blank request_id
  then raise (ValueError "approval actor, reason, and request_id must be non-empty")
  else
    updated ← update_order order_id (λ _, has_status PROPOSED)
      (λ o, bump now (set_o_approved_at (Some now) (set_o_approval_actor (Some actor)
              (set_o_status (order_status_value APPROVAL_RECORDED) o))));
    match updated with
    | None => raise (ApprovalConflict ("order " +:+ pretty order_id
                +:+ " was not in PROPOSED state (already decided?)"))
    | Some o =>
        update_order order_id (λ _ _, true) (set_o_approval_reason reason) ≫= λ _,
        audit_order_mutation order_id actor reason request_id "order.approve"
          (order_status_value APPROVAL_RECORDED) [] (o_idempotency_key o) 0
    end.

(** * Claiming *)

(** The [WHERE] of the claim. *)
Definition claimable (now : time) (scope_keys : list string) (order_id : Z) (d : Db) (o : Order) : bool :=
  has_status APPROVAL_RECORDED o
  && match db_proposals d !! order_id with None => true | Some p => now <? p_expires_at p end
  && forallb (λ k, match db_breakers d !! k with None => true | Some r => negb (cb_tripped r) end) scope_keys.

Definition claim_submission (order_id : Z) (now : time) (breaker_scope_keys : list string)
    (breaker_trips : list BreakerTripIntent) (actor reason request_id : string) (d : Db) : outcome bool * Db :=
  match require_context actor reason request_id with
  | Raise e => (Raise e, d)
  | Ok (actor, reason, request_id) =>
      let scope_keys := dedup breaker_scope_keys in
      if bool_decide (scope_keys = []) || existsb (λ k, negb (nonempty k)) scope_keys
      then (Raise (ValueError "submission claim requires stable breaker scope keys"), d)
      else with_session (
        trip_intents breaker_trips actor reason request_id now ≫= λ _,
        updated ← update_order order_id (claimable now scope_keys order_id)
          (λ o, bump now (set_o_acceptance_state "pending" (set_o_submission_started_at (Some now)
                  (set_o_submission_attempt (o_submission_attempt o + 1)
                    (set_o_status (order_status_value SUBMITTING) o)))));
        match updated with
        | None => (if bool_decide (breaker_trips = []) then rollback else commit) ≫= λ _, mret false
        | Some _ =>
            latch_group order_id actor reason request_id now ≫= λ _,
            audit_order_mutation order_id actor reason request_id "order.submission_claim"
              (order_status_value SUBMITTING) [] EmptyString 0 ≫= λ _,
            commit ≫= λ _, mret true
        end) d
  end.

(** * Expiry *)

Definition expire_if_eligible (order_id : Z) (now : time) (actor reason request_id : string) (d : Db)
    : outcome (option OrderStatus) * Db :=
  match require_context actor reason request_id with
  | Raise e => (Raise e, d)
  | Ok (actor, reason, request_id) =>
      with_session (
        updated ← update_order order_id (λ _ o, has_status PROPOSED o || has_status APPROVAL_RECORDED o)
          (λ o, bump now (set_o_status (order_status_value EXPIRED) o));
        match updated with
        | Some o =>
            audit_order_mutation order_id actor reason request_id "order.expire"
              (order_status_value EXPIRED) [] EmptyString 0 ≫= λ _,
            commit ≫= λ _,
            s ← lift (order_status_of (o_status o)); mret (Some s)
        | None =>
            rollback ≫= λ _,
            d ← read;
            match db_orders d !! order_id with
            | None => mret None
            | Some o => s ← lift (order_status_of (o_status o)); mret (Some s)
            end
        end) d
  end.

Definition expire_approved (order_id : Z) (now : time) (actor reason request_id : string) (d : Db)
    : outcome bool * Db :=
  match require_context actor reason request_id with
  | Raise e => (Raise e, d)
  | Ok (actor, reason, request_id) =>
      with_session (
        updated ← update_order order_id
          (λ d o, has_status APPROVAL_RECORDED o
                  && match db_proposals d !! order_id with None => false | Some p => p_expires_at p <=? now end)
          (λ o, bump now (set_o_status (order_status_value EXPIRED) o));
        match updated with
        | None => rollback ≫= λ _, mret false
        | Some _ =>
            audit_order_mutation order_id actor reason request_id "order.expire_approved"
              (order_status_value EXPIRED) [] EmptyString 0 ≫= λ _,
            commit ≫= λ _, mret true
        end) d
  end.

(** * Fill arithmetic *)

(** The fills of the order with a trusted identity not synthesised from the broker order. *)
Definition counts_as_authoritative (order_id : Z) (broker_order_id : option string) (f : Fill) : bool :=
  bool_decide (fl_order_id f = Some order_id)
  && fill_has_trusted_identity f
  && match broker_order_id, fl_broker_fill_id f with
     | Some b, Some i => negb (startswith i (b +:+ ":"))
     | _, _ => true
     end.

Definition authoritative_fill_qty (d : Db) (order_id : Z) (broker_order_id : option string) : outcome Decimal :=
  dsum (map fl_qty (filter (λ f, counts_as_authoritative order_id broker_order_id f = true) (db_fills d))).

Definition requires_fill_reconciliation (status : OrderStatus) (filled_qty authoritative_qty : Decimal)
    : bool * bool * bool :=
  let relation := fill_quantity_relation filled_qty authoritative_qty in
  let invalid_cumulative := bool_decide (relation = None) in
  let remote_fill_ahead := bool_decide (relation = Some AHEAD) in
  let cumulative_contradiction := bool_decide (relation = Some BEHIND) in
  (bool_decide (status ∈ [PARTIALLY_FILLED; FILLED]) || invalid_cumulative || remote_fill_ahead
     || cumulative_contradiction,
   invalid_cumulative, cumulative_contradiction).

Definition option_text (x : option Decimal) : string := match x with None => "None" | Some q => dstr q end.

Definition exceeds_reason (order_id : Z) (authoritative_qty : Decimal) (requested_qty : option Decimal) : string :=
  "authoritative fill quantity " +:+ dstr authoritative_qty +:+ " for order " +:+ pretty order_id
  +:+ " exceeds requested quantity " +:+ option_text requested_qty.

Definition below_reason (order_id : Z) (filled_qty authoritative_qty : Decimal) : string :=
  "broker cumulative fill " +:+ dstr filled_qty +:+ " for order " +:+ pretty order_id
  +:+ " is below authoritative local quantity " +:+ dstr authoritative_qty.

(** * Submission results *)

Definition RESULT_STATUSES : list OrderStatus :=
  [SUBMITTED; PARTIALLY_FILLED; FILLED; ACCEPTANCE_UNKNOWN; CANCELED; REJECTED; EXPIRED].

Definition record_submission_result (order_id : Z) (status : OrderStatus) (broker_order_id : option string)
    (error_code : string) (now : time) (filled_qty : Decimal) (actor reason request_id : string) (d : Db)
    : outcome OrderStatus * Db :=
  let actor := strip actor in
  let reason := strip reason in
  let request_id := strip request_id in
  if negb (nonempty actor) || negb (nonempty reason) || negb (nonempty request_id)
  then (Raise (ValueError "submission result actor, reason, and request_id must be non-empty"), d)
  else if negb (bool_decide (status ∈ RESULT_STATUSES))
  then (Raise (ValueError ("invalid submission result " +:+ order_status_value status)), d)
  else with_session (
    d ← read;
    let requested_qty := db_orders d !! order_id ≫= o_qty in
    authoritative_qty ← lift (authoritative_fill_qty d order_id broker_order_id);
    let exact_fill_overflow := exact_fill_exceeds_order_quantity requested_qty authoritative_qty in
    let '(requires, invalid_cumulative, cumulative_contradiction) :=
      requires_fill_reconciliation status filled_qty authoritative_qty in
    let acceptance_state := if requires || exact_fill_overflow then FILL_RECONCILIATION_REQUIRED
                            else order_status_value status in
    let persisted_error_code :=
      if exact_fill_overflow then "fill_quantity_exceeds_order"
      else if invalid_cumulative then "invalid_cumulative_fill"
      else if cumulative_contradiction then "cumulative_fill_contradiction" else error_code in
    let drift := invalid_cumulative || cumulative_contradiction || exact_fill_overflow in
    let persisted_status := if drift then ACCEPTANCE_UNKNOWN else status in
    updated ← update_order order_id (λ _, has_status SUBMITTING)
      (λ o, bump now (set_o_last_error_code persisted_error_code (set_o_acceptance_state acceptance_state
              (set_o_broker_order_id broker_order_id (set_o_status (order_status_value persisted_status) o)))));
    match updated with
    | None => raise (RuntimeError ("order " +:+ pretty order_id +:+ " lost submission claim"))
    | Some _ =>
        (if drift then
           trip_in_session scope_broker_drift
             (if exact_fill_overflow then exceeds_reason order_id authoritative_qty requested_qty
              else if invalid_cumulative
              then "broker cumulative fill " +:+ dstr filled_qty +:+ " for order " +:+ pretty order_id +:+ " is invalid"
              else below_reason order_id filled_qty authoritative_qty)
             actor request_id now (Some reason) ≫= λ _, mret ()
         else mret ()) ≫= λ _,
        (if bool_decide (persisted_status = ACCEPTANCE_UNKNOWN)
         then latch_group order_id actor reason request_id now else mret ()) ≫= λ _,
        audit_order_mutation order_id actor reason request_id "order.submission_result"
          (order_status_value persisted_status) [("error_code", JStr persisted_error_code)] EmptyString 0 ≫= λ _,
        commit ≫= λ _, mret persisted_status
    end) d.

Definition record_invalid_broker_data (order_id : Z) (reason : string) (now : time)
    (broker_order_id : option string) (error_code actor context_reason request_id : string) (d : Db)
    : outcome () * Db :=
  let reason := strip reason in
  let actor := strip actor in
  let context_reason := strip context_reason in
  let request_id := strip request_id in
  if negb (nonempty reason) then (Raise (ValueError "invalid broker data reason must be non-empty"), d)
  else if negb (nonempty actor) || negb (nonempty context_reason) || negb (nonempty request_id)
  then (Raise (ValueError "invalid broker data actor, reason, and request_id must be non-empty"), d)
  else if negb (bool_decide (error_code ∈ ["invalid_broker_data"; "invalid_broker_identity"; "invalid_cumulative_fill"]))
  then (Raise (ValueError "unsupported broker data integrity error code"), d)
  else
    let trusted_broker_order_id :=
      match broker_order_id with
      | Some b => if nonempty (strip b) then Some (strip b) else None
      | None => None
      end in
    with_session (
      updated ← update_order order_id (λ _, has_status SUBMITTING)
        (λ o, bump now (set_o_last_error_code error_code (set_o_acceptance_state FILL_RECONCILIATION_REQUIRED
                (set_o_broker_order_id trusted_broker_order_id
                  (set_o_status (order_status_value ACCEPTANCE_UNKNOWN) o)))));
      match updated with
      | None => raise (RuntimeError ("order " +:+ pretty order_id +:+ " lost submission claim"))
      | Some _ =>
          latch_group order_id actor context_reason request_id now ≫= λ _,
          trip_in_session scope_broker_drift ("invalid broker submission data for order " +:+ pretty order_id)
            actor request_id now (Some context_reason) ≫= λ _,
          audit_order_mutation order_id actor context_reason request_id "order.submission_result"
            (order_status_value ACCEPTANCE_UNKNOWN) [("error_code", JStr error_code)] EmptyString 0 ≫= λ _,
          commit
      end) d.

Definition record_invalid_broker_identity (order_id : Z) (reason : string) (now : time)
    (actor context_reason request_id : string) (d : Db) : outcome () * Db :=
  record_invalid_broker_data order_id reason now None "invalid_broker_identity" actor context_reason request_id d.

(** * Acceptance resolution *)

Definition resolve_acceptance (order_id : Z) (broker_order_id : option string) (status : OrderStatus)
    (filled_qty : Decimal) (now : time) (actor reason request_id : string) (d : Db) : outcome bool * Db :=
  match require_context actor reason request_id with
  | Raise e => (Raise e, d)
  | Ok (actor, reason, request_id) =>
      if bool_decide (broker_order_id = None) then (Ok false, d) else
      with_session (
        d ← read;
        let requested_qty := db_orders d !! order_id ≫= o_qty in
        authoritative_qty ← lift (authoritative_fill_qty d order_id broker_order_id);
        let exact_fill_overflow := exact_fill_exceeds_order_quantity requested_qty authoritative_qty in
        let '(requires, invalid_cumulative, cumulative_contradiction) :=
          requires_fill_reconciliation status filled_qty authoritative_qty in
        let acceptance_state := if requires || exact_fill_overflow then FILL_RECONCILIATION_REQUIRED
                                else "accepted" in
        let last_error_code :=
          if exact_fill_overflow then "fill_quantity_exceeds_order"
          else if invalid_cumulative then "invalid_cumulative_fill"
          else if cumulative_contradiction then "cumulative_fill_contradiction" else EmptyString in
        let drift := cumulative_contradiction || exact_fill_overflow in
        updated ← update_order order_id (λ _ o, has_status SUBMITTING o || has_status ACCEPTANCE_UNKNOWN o)
          (λ o,
            let o' := bump now (set_o_last_error_code last_error_code (set_o_last_reconciled_at (Some now)
                        (set_o_acceptance_state acceptance_state (set_o_broker_order_id broker_order_id o)))) in
            if drift then o' else set_o_status (order_status_value status) o');
        match updated with
        | None => rollback ≫= λ _, mret false
        | Some _ =>
            (if drift then
               trip_in_session scope_broker_drift
                 (if exact_fill_overflow then exceeds_reason order_id authoritative_qty requested_qty
                  else below_reason order_id filled_qty authoritative_qty)
                 actor request_id now (Some reason) ≫= λ _, mret ()
             else mret ()) ≫= λ _,
            audit_order_mutation order_id actor reason request_id "order.reconcile"
              (if drift then order_status_value ACCEPTANCE_UNKNOWN else order_status_value status)
              [("changed_fields", JList (map JStr
                 ["acceptance_state"; "broker_order_id"; "last_error_code"; "last_reconciled_at"; "status"]))]
              EmptyString 0 ≫= λ _,
            commit ≫= λ _, mret (negb exact_fill_overflow)
        end) d
  end.

(** * Rejection before the send *)

Definition record_pre_submission_rejection (order_id : Z) (reasons : list string) (now : time)
    (breaker_trips : list BreakerTripIntent) (actor reason request_id : string) (d : Db) : outcome () * Db :=
  match require_context actor reason request_id with
  | Raise e => (Raise e, d)
  | Ok (actor, reason, request_id) =>
      with_session (
        updated ← update_order order_id (λ _, has_status APPROVAL_RECORDED)
          (λ o, bump now (set_o_last_error_code "risk_rejected" (set_o_status (order_status_value REJECTED) o)));
        match updated with
        | None => raise (RuntimeError ("order " +:+ pretty order_id +:+ " changed during risk rejection"))
        | Some _ =>
            insert_risk_event (mkRiskEvent (Some order_id) "rejection"
              ("execution-time: " +:+ join "; " reasons) None) ≫= λ _,
            trip_intents breaker_trips actor reason request_id now ≫= λ _,
            audit_order_mutation order_id actor reason request_id "order.reject_execution_risk"
              (order_status_value REJECTED) [] EmptyString 0 ≫= λ _,
            commit
        end) d
  end.

End Repository.
