(* ===== verification/RepositoryLogic.v ===== *)
(** A small program logic for repository transactions, and what every method keeps.

    [progress dirty d0 d] relates the database [d0] a method starts from to the
    transaction's view [d]: rows only move forward ([evolves]) and every target outside
    [dirty] whose row changed, or whose proof was current, has a current lifecycle proof.
    A triple [triple d0 dirty m dirty'] says [m] takes progress with [dirty] to progress
    with [dirty'], and that whatever is committed is clean. *)

From S2P Require Import Prelude PyDecimal Assets BrokerModels Breakers RiskRules RiskEngine.
From S2P Require Import Database Lifecycle BreakerStore OrderRepository.
From Stdlib Require Import Lia.
Local Open Scope Z_scope.

(** * How rows move *)

(** An edge of the transition table, or the one move outside it: [resolve_acceptance] stores
    whatever the broker reports, and an order of unknown acceptance may be reported expired. *)
Definition stored_move (s t : OrderStatus) : Prop := legal s t ∨ s = ACCEPTANCE_UNKNOWN ∧ t = EXPIRED.

Lemma stored_move_unsent s t : stored_move s t → unsent s = false → unsent t = false.
Proof. intros [Hl|[-> ->]]; [by apply legal_never_unsent|done]. Qed.

(** One such move between stored status texts. *)
Definition status_edge (a b : string) : Prop :=
  ∃ s t, a = order_status_value s ∧ b = order_status_value t ∧ stored_move s t.

(** An order still short of the broker has never been claimed, and none is claimed twice. *)
Definition attempts_ok (o : Order) : Prop :=
  0 ≤ o_submission_attempt o ≤ 1
  ∧ (has_status PROPOSED o || has_status APPROVAL_RECORDED o = true → o_submission_attempt o = 0).

Record order_evolves (o o' : Order) : Prop := {
  oe_id : o_id o' = o_id o;
  oe_key : o_idempotency_key o' = o_idempotency_key o;
  oe_terms : (o_ticker o', o_side o', o_order_type o', o_qty o', o_notional o', o_limit_price o')
             = (o_ticker o, o_side o, o_order_type o, o_qty o, o_notional o, o_limit_price o);
  oe_payload : (o_submission_kind o', o_submission_payload_json o')
               = (o_submission_kind o, o_submission_payload_json o);
  oe_status : rtc status_edge (o_status o) (o_status o');
  oe_version : o_version o ≤ o_version o';
  oe_attempts : attempts_ok o → attempts_ok o';
}.

#[export] Instance order_evolves_preorder : PreOrder order_evolves.
Proof.
  split.
  - intros o. by split.
  - intros x y z [] []. split; try congruence; [by etrans|lia|auto].
Qed.

(** A breaker row stays tripped and its generation never goes back. *)
Definition breaker_evolves (r r' : CircuitBreakerState) : Prop :=
  (cb_tripped r = true → cb_tripped r' = true) ∧ cb_generation r ≤ cb_generation r'.

Definition group_evolves (g g' : RuleGroup) : Prop :=
  g_state g' = g_state g ∧ g_version g' = g_version g
  ∧ (g_reconciliation_required g = true → g_reconciliation_required g' = true).

(** Rows are neither created nor deleted, and each moves by [R]. *)
Definition rows_move {K A} `{Countable K} (R : A → A → Prop) (m m' : gmap K A) : Prop :=
  ∀ k, match m !! k, m' !! k with Some x, Some y => R x y | None, None => True | _, _ => False end.

Lemma rows_move_refl {K A} `{Countable K} (R : A → A → Prop) `{!Reflexive R} (m : gmap K A) : rows_move R m m.
Proof. intros k. by destruct (m !! k). Qed.

Lemma rows_move_trans {K A} `{Countable K} (R : A → A → Prop) `{!Transitive R} (m1 m2 m3 : gmap K A) :
  rows_move R m1 m2 → rows_move R m2 m3 → rows_move R m1 m3.
Proof.
  intros H1 H2 k. specialize (H1 k). specialize (H2 k).
  destruct (m1 !! k), (m2 !! k), (m3 !! k); try done. by etrans.
Qed.

Lemma rows_move_insert {K A} `{Countable K} (R : A → A → Prop) `{!Reflexive R} (m : gmap K A) k x y :
  m !! k = Some x → R x y → rows_move R m (<[k := y]> m).
Proof.
  intros Hk HR j. destruct (decide (k = j)) as [<-|Hne].
  - by rewrite Hk, lookup_insert_eq.
  - rewrite lookup_insert_ne by done. by destruct (m !! j).
Qed.

Record evolves (d d' : Db) : Prop := {
  ev_orders : rows_move order_evolves (db_orders d) (db_orders d');
  ev_groups : rows_move group_evolves (db_groups d) (db_groups d');
  ev_proposals : db_proposals d' = db_proposals d;
  ev_fills : db_fills d' = db_fills d;
  ev_rules : db_rules d' = db_rules d;
  ev_receipts : db_receipts d' = db_receipts d;
  ev_breakers : ∀ k r, db_breakers d !! k = Some r →
                  ∃ r', db_breakers d' !! k = Some r' ∧ breaker_evolves r r';
  ev_audit : db_audit d `prefix_of` db_audit d';
}.

#[export] Instance group_evolves_preorder : PreOrder group_evolves.
Proof. split; [by intros g|]. intros x y z (?&?&?) (?&?&?). split_and!; [congruence..|auto]. Qed.

#[export] Instance evolves_preorder : PreOrder evolves.
Proof.
  split.
  - intros d. split; try done; [apply rows_move_refl, _..|]. intros k r Hr. exists r. by repeat split.
  - intros x y z [] []. split; try congruence; try (by eapply rows_move_trans; [apply _|..]); [|by etrans].
    intros k r Hr. edestruct ev_breakers0 as (r1 & H1 & [T1 G1]); [done|].
    edestruct ev_breakers1 as (r2 & H2 & [T2 G2]); [done|]. exists r2. split; [done|]. split; [auto|lia].
Qed.

(** * Lifecycle proofs *)

Abbreviation proof_target := (string * Z)%type.

Section Logic.
Context `{Digest}.

Definition proof_current (d : Db) (t : proof_target) : Prop := lifecycle_proof_matches d t.1 t.2 = true.
Definition snapshot_of (d : Db) (t : proof_target) : option json := lifecycle_snapshot d t.1 t.2.

Record progress (dirty : list proof_target) (d0 d : Db) : Prop := {
  pg_evolves : evolves d0 d;
  pg_proofs : ∀ t, t.1 = "order" ∨ t.1 = "rule_group" → t ∉ dirty →
                proof_current d0 t ∨ snapshot_of d t ≠ snapshot_of d0 t → proof_current d t;
}.

Lemma progress_refl d : progress [] d d.
Proof. split; [done|]. intros t _ _ [?|?]; done. Qed.

Definition triple {A} (d0 : Db) (dirty : list proof_target) (m : tx A) (dirty' : A → list proof_target) : Prop :=
  ∀ s, progress [] d0 (durable s) → progress dirty d0 (working s) →
    match m s with
    | (Ok a, s') => progress [] d0 (durable s') ∧ progress (dirty' a) d0 (working s')
    | (Raise _, s') => progress [] d0 (durable s')
    end.

Lemma triple_with_session {A} d (m : tx A) dirty' :
  triple d [] m dirty' → progress [] d (with_session m d).2.
Proof.
  intros Hm. unfold with_session. specialize (Hm (mkSession d d) (progress_refl d) (progress_refl d)).
  destruct (m _) as [[a|e] s']; simpl; tauto.
Qed.

Lemma triple_ret {A} d0 dirty (a : A) : triple d0 dirty (mret a) (λ _, dirty).
Proof. by intros s Hd Hw. Qed.

Lemma triple_bind {A B} d0 dirty (m : tx A) (f : A → tx B) dirty1 dirty2 :
  triple d0 dirty m dirty1 → (∀ a, triple d0 (dirty1 a) (f a) dirty2) →
  triple d0 dirty (m ≫= f) dirty2.
Proof.
  intros Hm Hf s Hd Hw. specialize (Hm s Hd Hw). unfold mbind, tx_bind.
  destruct (m s) as [[a|e] s']; [|done]. destruct Hm. by apply Hf.
Qed.

Lemma triple_read {A} d0 dirty (f : Db → tx A) dirty' :
  (∀ d, triple d0 dirty (f d) dirty') → triple d0 dirty (read ≫= f) dirty'.
Proof. intros Hf s Hd Hw. unfold mbind, tx_bind, read. by apply Hf. Qed.

Lemma triple_lift {A} d0 dirty (m : outcome A) : triple d0 dirty (lift m) (λ _, dirty).
Proof. intros s Hd Hw. unfold lift. by destruct m. Qed.

Lemma triple_raise {A} d0 dirty e dirty' : triple (A:=A) d0 dirty (raise e) dirty'.
Proof. by intros s Hd Hw. Qed.

Lemma triple_commit d0 : triple d0 [] commit (λ _, []).
Proof. by intros s Hd Hw. Qed.

Lemma triple_rollback d0 dirty : triple d0 dirty rollback (λ _, []).
Proof. by intros s Hd Hw. Qed.

Lemma triple_iter {A} d0 dirty (f : A → tx ()) l :
  (∀ a, triple d0 dirty (f a) (λ _, dirty)) → triple d0 dirty (tx_iter f l) (λ _, dirty).
Proof.
  intros Hf. induction l as [|a l IH]; [apply triple_ret|].
  simpl. eapply triple_bind; [apply Hf|]. intros []. apply IH.
Qed.

(** ** Moving the database *)

Lemma progress_evolve dirty d0 d d' :
  progress dirty d0 d → evolves d d' →
  (∀ t, t ∉ dirty → t.1 = "order" ∨ t.1 = "rule_group" →
        snapshot_of d' t = snapshot_of d t ∧ lifecycle_proof_matches d' t.1 t.2 = lifecycle_proof_matches d t.1 t.2) →
  progress dirty d0 d'.
Proof.
  intros [He Hp] Hev Hsame. split; [by etrans|]. intros t Ht Hn Hor. unfold proof_current in *.
  destruct (Hsame t Hn Ht) as [Hs Hm]. rewrite Hm. apply Hp; try done. by rewrite Hs in Hor.
Qed.

Lemma progress_weaken dirty dirty' d0 d : progress dirty d0 d → dirty ⊆ dirty' → progress dirty' d0 d.
Proof. intros [He Hp] Hsub. split; [done|]. intros t Ht Hn. apply Hp; set_solver. Qed.

(** Audit rows about anything but an order or a rule group. *)
Lemma same_proof_with_audit d d' evs t :
  db_audit d' = db_audit d ++ evs → snapshot_of d' t = snapshot_of d t →
  Forall (λ e, a_target_type e ≠ t.1 ∨ a_target_id e ≠ pretty t.2) evs →
  lifecycle_proof_matches d' t.1 t.2 = lifecycle_proof_matches d t.1 t.2.
Proof.
  intros Ha Hs Hev. unfold snapshot_of in Hs.
  unfold lifecycle_proof_matches, latest_lifecycle_event. rewrite Ha, Hs, filter_app.
  assert (filter (is_target_event t.1 t.2 None) evs = []) as ->; [|by rewrite app_nil_r].
  clear -Hev. induction Hev as [|e evs He _ IH]; [done|]. rewrite filter_cons, decide_False; [done|].
  unfold is_target_event. naive_solver.
Qed.
(** ** Rules for the primitives *)

Lemma evolves_audit d evs : evolves d (set_db_audit (db_audit d ++ evs) d).
Proof.
  split; try done; simpl; [apply rows_move_refl, _..| |by apply prefix_app_r].
  intros k r Hr. exists r. by repeat split.
Qed.

Lemma evolves_risk_event d evs : evolves d (set_db_risk_events evs d).
Proof. by split; try done; simpl; [apply rows_move_refl, _..|]; intros k r Hr; exists r. Qed.

Lemma evolves_order d id o o' :
  db_orders d !! id = Some o → order_evolves o o' →
  evolves d (set_db_orders (<[id := o']> (db_orders d)) d).
Proof.
  intros Hid Ho. split; try done; simpl; [by eapply rows_move_insert; [apply _|..]|apply rows_move_refl, _|].
  intros k r Hr. exists r. by repeat split.
Qed.

Lemma evolves_group d id g g' :
  db_groups d !! id = Some g → group_evolves g g' →
  evolves d (set_db_groups (<[id := g']> (db_groups d)) d).
Proof.
  intros Hid Hg. split; try done; simpl; [apply rows_move_refl, _|by eapply rows_move_insert; [apply _|..]|].
  intros k r Hr. exists r. by repeat split.
Qed.

Lemma evolves_breaker d key row :
  cb_tripped row = true → cb_generation row = next_generation (db_breakers d !! key) →
  evolves d (set_db_breakers (<[key := row]> (db_breakers d)) d).
Proof.
  intros Ht Hg. split; try done; simpl; [apply rows_move_refl, _..|].
  intros k r Hr. destruct (decide (key = k)) as [<-|Hne].
  - rewrite Hr in Hg. exists row. rewrite lookup_insert_eq. split; [done|]. split; [done|simpl in *; lia].
  - exists r. rewrite lookup_insert_ne by done. by repeat split.
Qed.

(** Absent rows stay absent, and have no current proof. *)
Lemma progress_absent dirty d0 d t :
  progress dirty d0 d → t.1 = "order" ∨ t.1 = "rule_group" → snapshot_of d t = None →
  ~ (proof_current d0 t ∨ snapshot_of d t ≠ snapshot_of d0 t).
Proof.
  intros [[Ho Hg _ _ _ _ _ _] _] Ht Hs.
  assert (snapshot_of d0 t = None) as Hs0.
  { destruct t as [tt id]. unfold snapshot_of, lifecycle_snapshot in *. simpl in *.
    destruct Ht as [->| ->]; simpl in *; [unfold order_lifecycle_snapshot in *; specialize (Ho id)
      |unfold rule_group_lifecycle_snapshot in *; specialize (Hg id)]; by repeat case_match. }
  unfold proof_current, lifecycle_proof_matches, snapshot_of in *. intros [Hp|Hp]; [|congruence].
  destruct (latest_lifecycle_event _ _ _ _) as [[? ?]|]; [|done]. rewrite Hs0 in Hp.
  by rewrite andb_false_r in Hp.
Qed.

Lemma progress_audit dirty d0 d t e detail :
  progress dirty d0 d → t.1 = "order" ∨ t.1 = "rule_group" →
  a_target_type e = t.1 → a_target_id e = pretty t.2 →
  a_detail e = JObj (augment_lifecycle_detail d t.1 t.2 detail) →
  progress (filter (λ u, u ≠ t) dirty) d0 (set_db_audit (db_audit d ++ [e]) d).
Proof.
  intros Hpg Ht He1 He2 He3. pose proof (evolves_audit d [e]) as Hev.
  split; [etrans; [apply Hpg|done]|]. intros u Hu Hn Hor.
  destruct (decide (u = t)) as [->|Hne].
  - destruct (snapshot_of d t) as [snap|] eqn:Hsnap.
    + by eapply fresh_proof_matches.
    + exfalso. eapply (progress_absent dirty d0 d t); try done.
  - rewrite list_elem_of_filter in Hn.
    assert (lifecycle_proof_matches (set_db_audit (db_audit d ++ [e]) d) u.1 u.2
            = lifecycle_proof_matches d u.1 u.2) as Heq.
    { apply (same_proof_with_audit _ _ [e]); [done..|]. constructor; [|constructor]. rewrite He1, He2.
      destruct t as [t1 t2], u as [u1 u2]. simpl. destruct (decide (t1 = u1)); [|by left]. right.
      intros ?%(inj pretty). congruence. }
    unfold proof_current. rewrite Heq. apply (pg_proofs _ _ _ Hpg u Hu); [tauto|exact Hor].
Qed.

Lemma triple_audit_order d0 dirty id actor reason request_id action code detail key latency :
  triple d0 dirty (audit_order_mutation id actor reason request_id action code detail key latency)
    (λ _, filter (λ u, u ≠ ("order", id)) dirty).
Proof.
  intros s Hd Hw. unfold audit_order_mutation, read, insert_audit, write, mbind, tx_bind. simpl.
  split; [done|]. eapply (progress_audit _ _ _ ("order", id)); try done. by left.
Qed.

Lemma triple_audit_group d0 dirty id actor reason request_id action code :
  triple d0 dirty (audit_group_mutation id actor reason request_id action code)
    (λ _, filter (λ u, u ≠ ("rule_group", id)) dirty).
Proof.
  intros s Hd Hw. unfold audit_group_mutation, read, insert_audit, write, mbind, tx_bind. simpl.
  split; [done|]. eapply (progress_audit _ _ _ ("rule_group", id)); try done. by right.
Qed.

Lemma progress_write_order dirty d0 d id o o' :
  progress dirty d0 d → db_orders d !! id = Some o → order_evolves o o' →
  progress (("order", id) :: dirty) d0 (set_db_orders (<[id := o']> (db_orders d)) d).
Proof.
  intros Hpg Hid Ho. eapply progress_evolve; [by apply (progress_weaken dirty); [|set_solver]|by eapply evolves_order|].
  intros [tt k] Hn Ht. assert (snapshot_of (set_db_orders (<[id := o']> (db_orders d)) d) (tt, k) = snapshot_of d (tt, k)) as Hs.
  { unfold snapshot_of, lifecycle_snapshot. simpl in *. destruct Ht as [->| ->]; simpl; [|done].
    unfold order_lifecycle_snapshot. simpl. rewrite lookup_insert_ne by (intros ->; set_solver). done. }
  split; [done|]. by apply (same_proof_with_audit _ _ []); [rewrite app_nil_r| |].
Qed.

Lemma triple_update_order d0 dirty id pred f :
  (∀ d o, pred d o = true → order_evolves o (f o)) →
  triple d0 dirty (update_order id pred f)
    (λ r, match r with Some _ => ("order", id) :: dirty | None => dirty end).
Proof.
  intros Hf s Hd Hw. unfold update_order, read, write, mbind, tx_bind, mret, tx_ret.
  destruct (db_orders (working s) !! id) as [o|] eqn:Hid; [|done].
  destruct (pred (working s) o) eqn:Hp; [|done]. simpl. split; [done|].
  eapply progress_write_order; eauto.
Qed.

Lemma triple_latch_group d0 dirty id actor reason request_id now :
  (∀ g, ("rule_group", g) ∉ dirty) →
  triple d0 dirty (latch_group id actor reason request_id now) (λ _, dirty).
Proof.
  intros Hng s Hd Hw. unfold latch_group. unfold read at 1. unfold mbind at 1, tx_bind at 1.
  destruct (db_proposals _ !! id ≫= _) as [gid|]; [|done].
  destruct (db_groups _ !! gid) as [g|] eqn:Hg; [|done].
  unfold write at 1. unfold mbind at 1, tx_bind at 1.
  set (g' := set_g_updated_at now (set_g_reconciliation_required true g)).
  set (d1 := set_db_groups _ _).
  assert (progress (("rule_group", gid) :: dirty) d0 d1) as Hd1.
  { eapply progress_evolve; [by apply (progress_weaken dirty); [|set_solver]|by eapply evolves_group|].
    intros [tt k] Hn Ht. assert (snapshot_of d1 (tt, k) = snapshot_of (working s) (tt, k)) as Hs.
    { unfold snapshot_of, lifecycle_snapshot. simpl in *. destruct Ht as [->| ->]; simpl; [done|].
      unfold rule_group_lifecycle_snapshot. simpl. rewrite lookup_insert_ne by (intros ->; set_solver). done. }
    split; [done|]. by apply (same_proof_with_audit _ _ []); [rewrite app_nil_r| |]. }
  pose proof (triple_audit_group d0 (("rule_group", gid) :: dirty) gid actor reason request_id
    "rule_group.reconciliation_latch" "required" (mkSession (durable s) d1) Hd Hd1) as Ht.
  destruct (audit_group_mutation _ _ _ _ _ _ _) as [[a|e] s']; [|done].
  destruct Ht as [Ht1 Ht2]. split; [done|]. eapply progress_weaken; [apply Ht2|].
  intros u Hu. apply list_elem_of_filter in Hu as [Hu1 Hu2]. set_solver.
Qed.

Lemma triple_trip d0 dirty scope reason actor request_id now audit_reason :
  triple d0 dirty (trip_in_session scope reason actor request_id now audit_reason) (λ _, dirty).
Proof.
  intros s Hd Hw. destruct (trip_inputs_ok reason actor request_id audit_reason) eqn:Hin.
  2: { by destruct (trip_in_session_bad scope reason actor request_id now audit_reason s Hin) as (m & ->). }
  rewrite trip_in_session_ok by done. split; [done|]. unfold tripped_db. simpl.
  eapply progress_evolve; [exact Hw| |].
  - etrans; [|apply (evolves_audit (set_db_breakers _ _))]. by apply evolves_breaker.
  - intros [tt k] _ Ht. split; [done|]. eapply same_proof_with_audit; [reflexivity|done|].
    constructor; [|constructor]. left. simpl in *. destruct Ht as [->| ->]; done.
Qed.

Lemma triple_risk_event d0 dirty e : triple d0 dirty (insert_risk_event e) (λ _, dirty).
Proof.
  intros s Hd Hw. split; [done|]. simpl. eapply progress_evolve; [exact Hw|apply evolves_risk_event|].
  intros [tt k] _ Ht. split; [done|]. by apply (same_proof_with_audit _ _ []); [rewrite app_nil_r| |].
Qed.

Lemma triple_trip_intents d0 dirty intents actor reason request_id now :
  triple d0 dirty (trip_intents intents actor reason request_id now) (λ _, dirty).
Proof.
  apply triple_iter. intros i. eapply triple_bind; [apply triple_trip|]. intros x. apply triple_ret.
Qed.

Lemma triple_consequence {A} d0 dirty (m : tx A) d1 d2 :
  triple d0 dirty m d1 → (∀ a, d1 a ⊆ d2 a) → triple d0 dirty m d2.
Proof.
  intros Hm Hsub s Hd Hw. specialize (Hm s Hd Hw). destruct (m s) as [[a|e] s']; [|done].
  destruct Hm. split; [done|]. by eapply progress_weaken.
Qed.

End Logic.
