(* ===== verification/RepositoryProofs.v ===== *)
(** Correctness of the order repository: every method moves rows along the order state
    machine and leaves current lifecycle proofs; claims are exclusive. *)

From S2P Require Import Prelude PyDecimal Assets BrokerModels Breakers RiskRules RiskEngine.
From S2P Require Import Database Lifecycle BreakerStore OrderRepository RepositoryLogic.
From Stdlib Require Import Lia.
Local Open Scope Z_scope.

Lemma has_status_true s o : has_status s o = true ↔ o_status o = order_status_value s.
Proof. apply bool_decide_eq_true. Qed.

(** An update that takes one such move and leaves the terms and the attempt count. *)
Lemma order_evolves_edge o o' s t :
  o_status o = order_status_value s → o_status o' = order_status_value t → stored_move s t →
  o_id o' = o_id o → o_idempotency_key o' = o_idempotency_key o →
  (o_ticker o', o_side o', o_order_type o', o_qty o', o_notional o', o_limit_price o')
    = (o_ticker o, o_side o, o_order_type o, o_qty o, o_notional o, o_limit_price o) →
  (o_submission_kind o', o_submission_payload_json o') = (o_submission_kind o, o_submission_payload_json o) →
  o_version o ≤ o_version o' →
  (o_submission_attempt o' = o_submission_attempt o ∧ (unsent t = true → unsent s = true)
   ∨ o_submission_attempt o' = o_submission_attempt o + 1 ∧ unsent s = true ∧ unsent t = false) →
  order_evolves o o'.
Proof.
  intros Hs Ht Hl Hid Hk Hte Hpa Hv Hat. split; try done.
  - apply rtc_once. by exists s, t.
  - unfold attempts_ok, has_status. rewrite Hs, Ht.
    assert (∀ u, bool_decide (order_status_value u = order_status_value PROPOSED)
                 || bool_decide (order_status_value u = order_status_value APPROVAL_RECORDED) = unsent u) as Hu
      by (by intros []).
    rewrite !Hu. destruct Hat as [[-> Hun]|(-> & Hun & ->)]; intros [Hr H0]; [tauto|].
    rewrite (H0 Hun). split; [lia|done].
Qed.

(** An update of bookkeeping columns only. *)
Lemma order_evolves_same_status o o' :
  o_status o' = o_status o →
  o_id o' = o_id o → o_idempotency_key o' = o_idempotency_key o →
  (o_ticker o', o_side o', o_order_type o', o_qty o', o_notional o', o_limit_price o')
    = (o_ticker o, o_side o, o_order_type o, o_qty o, o_notional o, o_limit_price o) →
  (o_submission_kind o', o_submission_payload_json o') = (o_submission_kind o, o_submission_payload_json o) →
  o_version o ≤ o_version o' → o_submission_attempt o' = o_submission_attempt o →
  order_evolves o o'.
Proof.
  intros Hs Hid Hk Hte Hpa Hv Hat. split; try done; [by rewrite Hs|].
  unfold attempts_ok, has_status. by rewrite Hs, Hat.
Qed.

Ltac edge s t :=
  eapply (order_evolves_edge _ _ s t); [by apply has_status_true|reflexivity|left; reflexivity|
    reflexivity|reflexivity|reflexivity|reflexivity|simpl; lia|].

Section Methods.
Context `{Digest}.

Lemma triple_audit_clean d0 id actor reason request_id action code detail key latency :
  triple d0 [("order", id)] (audit_order_mutation id actor reason request_id action code detail key latency)
    (λ _, []).
Proof.
  eapply triple_consequence; [apply triple_audit_order|]. intros [].
  rewrite filter_cons, decide_False by (intros Hn; by apply Hn). done.
Qed.

Lemma triple_bind_same {A B} d0 dirty (m : tx A) (f : A → tx B) dirty2 :
  triple d0 dirty m (λ _, dirty) → (∀ a, triple d0 dirty (f a) dirty2) → triple d0 dirty (m ≫= f) dirty2.
Proof. intros Hm Hf. by eapply triple_bind. Qed.

(** Stepping through a method body. *)
Ltac tx_step :=
  lazymatch goal with
  | |- triple _ _ (mret _) _ => apply triple_ret
  | |- triple _ _ (raise _) _ => apply triple_raise
  | |- triple _ _ commit _ => apply triple_commit
  | |- triple _ _ (read ≫= _) _ => apply triple_read; intros ?
  | |- triple _ _ (lift _ ≫= _) _ => eapply triple_bind; [apply triple_lift|intros ?]
  | |- triple _ _ (commit ≫= _) _ => eapply triple_bind; [apply triple_commit|intros ?]
  | |- triple _ _ (rollback ≫= _) _ => eapply triple_bind; [apply triple_rollback|intros ?]
  | |- triple _ _ (insert_risk_event _ ≫= _) _ => eapply triple_bind; [apply triple_risk_event|intros ?]
  | |- triple _ _ (trip_in_session _ _ _ _ _ _ ≫= _) _ => eapply triple_bind; [apply triple_trip|intros ?]
  | |- triple _ _ (trip_intents _ _ _ _ _ ≫= _) _ => eapply triple_bind; [apply triple_trip_intents|intros ?]
  | |- triple _ _ (latch_group _ _ _ _ _ ≫= _) _ =>
      eapply triple_bind; [apply triple_latch_group; set_solver|intros ?]
  | |- triple _ _ (latch_group _ _ _ _ _) _ => apply triple_latch_group; set_solver
  | |- triple _ _ (audit_order_mutation _ _ _ _ _ _ _ _ _ ≫= _) _ =>
      eapply triple_bind; [apply triple_audit_clean|intros ?]
  | |- triple _ _ ((if ?b then _ else _) ≫= _) _ =>
      apply triple_bind_same; [destruct b|intros ?]
  | |- triple _ _ (match ?x with None => _ | Some _ => _ end) _ => destruct x
  | |- triple _ _ (let '(_, _) := ?x in _) _ => destruct x as [[? ?] ?]
  | |- triple _ _ (update_order _ _ _ ≫= _) _ => eapply triple_bind; [eapply triple_update_order|intros [?|]]
  end; cbv beta.

Definition approve_update (actor : string) (now : time) (o : Order) : Order :=
  bump now (set_o_approved_at (Some now) (set_o_approval_actor (Some actor)
    (set_o_status (order_status_value APPROVAL_RECORDED) o))).

Lemma approve_update_evolves actor now o :
  has_status PROPOSED o = true → order_evolves o (approve_update actor now o).
Proof. intros Hs. edge PROPOSED APPROVAL_RECORDED. by left. Qed.

(** Writing the approval reason right after the guarded update. *)
Lemma triple_write_reason d0 id reason :
  triple d0 [("order", id)] (update_order id (λ _ _, true) (set_o_approval_reason reason))
    (λ _, [("order", id)]).
Proof.
  eapply triple_consequence; [apply triple_update_order|].
  - intros d o _. by apply order_evolves_same_status.
  - intros [?|]; set_solver.
Qed.

Lemma record_approval_progress id actor reason request_id now latency d :
  progress [] d (record_approval id actor reason request_id now latency d).2.
Proof.
  unfold record_approval. destruct (require_context _ _ _) as [[[a r] q]|e]; [|apply progress_refl].
  eapply (triple_with_session _ _ (λ _, [])). tx_step.
  - intros d' o. apply approve_update_evolves.
  - eapply triple_bind; [apply triple_write_reason|intros ?]. repeat tx_step.
  - repeat tx_step.
Qed.

Lemma claim_submission_progress id now keys trips actor reason request_id d :
  progress [] d (claim_submission id now keys trips actor reason request_id d).2.
Proof.
  unfold claim_submission. destruct (require_context _ _ _) as [[[a r] q]|e]; [|apply progress_refl].
  destruct (_ || _); [apply progress_refl|].
  eapply (triple_with_session _ _ (λ _, [])). do 2 tx_step.
  - unfold claimable. intros d' o Hc. apply andb_true_iff in Hc as [Hc _]. apply andb_true_iff in Hc as [Hc _].
    edge APPROVAL_RECORDED SUBMITTING. by right.
  - repeat tx_step.
  - destruct (bool_decide (trips = [])); repeat tx_step.
Qed.

Lemma expire_if_eligible_progress id now actor reason request_id d :
  progress [] d (expire_if_eligible id now actor reason request_id d).2.
Proof.
  unfold expire_if_eligible. destruct (require_context _ _ _) as [[[a r] q]|e]; [|apply progress_refl].
  eapply (triple_with_session _ _ (λ _, [])). tx_step.
  - intros d' o Hc. apply orb_true_iff in Hc as [Hc|Hc]; [edge PROPOSED EXPIRED|edge APPROVAL_RECORDED EXPIRED];
      by left.
  - repeat tx_step.
  - repeat tx_step.
Qed.

Lemma expire_approved_progress id now actor reason request_id d :
  progress [] d (expire_approved id now actor reason request_id d).2.
Proof.
  unfold expire_approved. destruct (require_context _ _ _) as [[[a r] q]|e]; [|apply progress_refl].
  eapply (triple_with_session _ _ (λ _, [])). tx_step.
  - intros d' o Hc. apply andb_true_iff in Hc as [Hc _]. edge APPROVAL_RECORDED EXPIRED. by left.
  - repeat tx_step.
  - repeat tx_step.
Qed.

Lemma record_submission_result_progress id status broker_id code now filled actor reason request_id d :
  progress [] d (record_submission_result id status broker_id code now filled actor reason request_id d).2.
Proof.
  unfold record_submission_result. destruct (_ || _); [apply progress_refl|].
  destruct (bool_decide (status ∈ RESULT_STATUSES)) eqn:Hst; [|apply progress_refl].
  apply bool_decide_eq_true in Hst. eapply (triple_with_session _ _ (λ _, [])). do 3 tx_step.
  set (ps := if _ || _ || _ then ACCEPTANCE_UNKNOWN else status).
  assert (legal SUBMITTING ps) as Hleg.
  { unfold ps. clear -Hst. destruct (_ || _ || _); [done|]. unfold RESULT_STATUSES in Hst.
    repeat (apply elem_of_cons in Hst as [->|Hst]; [done|]). by apply elem_of_nil in Hst. }
  assert (unsent ps = false) as Hun by (by destruct ps).
  tx_step.
  - intros d' o Hc. eapply (order_evolves_edge _ _ SUBMITTING ps); try done; [by apply has_status_true|by left|simpl; lia|].
    left. split; [done|]. by rewrite Hun.
  - repeat tx_step.
  - repeat tx_step.
Qed.

Lemma record_invalid_broker_data_progress id reason now broker_id code actor context request_id d :
  progress [] d (record_invalid_broker_data id reason now broker_id code actor context request_id d).2.
Proof.
  unfold record_invalid_broker_data. destruct (negb _); [apply progress_refl|].
  destruct (_ || _); [apply progress_refl|]. destruct (negb _); [apply progress_refl|].
  eapply (triple_with_session _ _ (λ _, [])). tx_step.
  - intros d' o Hc. edge SUBMITTING ACCEPTANCE_UNKNOWN. by left.
  - repeat tx_step.
  - repeat tx_step.
Qed.

Lemma resolve_acceptance_progress id broker_id status filled now actor reason request_id d :
  status ∈ REPORTED_STATUSES →
  progress [] d (resolve_acceptance id broker_id status filled now actor reason request_id d).2.
Proof.
  intros Hst. unfold resolve_acceptance.
  destruct (require_context _ _ _) as [[[a r] q]|e]; [|apply progress_refl].
  destruct (bool_decide _); [apply progress_refl|].
  assert (stored_move SUBMITTING status ∧ stored_move ACCEPTANCE_UNKNOWN status ∧ unsent status = false) as (Hl1 & Hl2 & Hu).
  { unfold REPORTED_STATUSES in Hst. clear -Hst.
    repeat (apply elem_of_cons in Hst as [->|Hst]; [split_and!; first [done|by left|by right]|]). by apply elem_of_nil in Hst. }
  eapply (triple_with_session _ _ (λ _, [])). do 4 tx_step.
  - intros d' o Hc. destruct (_ || exact_fill_exceeds_order_quantity _ _).
    + apply order_evolves_same_status; try done. simpl. lia.
    + apply orb_true_iff in Hc as [Hc|Hc]; apply has_status_true in Hc;
        [eapply (order_evolves_edge _ _ SUBMITTING status)|eapply (order_evolves_edge _ _ ACCEPTANCE_UNKNOWN status)];
        try done; try (simpl; lia); left; (split; [done|]); by rewrite Hu.
  - repeat tx_step.
  - repeat tx_step.
Qed.

Lemma record_pre_submission_rejection_progress id reasons now trips actor reason request_id d :
  progress [] d (record_pre_submission_rejection id reasons now trips actor reason request_id d).2.
Proof.
  unfold record_pre_submission_rejection.
  destruct (require_context _ _ _) as [[[a r] q]|e]; [|apply progress_refl].
  eapply (triple_with_session _ _ (λ _, [])). tx_step.
  - intros d' o Hc. edge APPROVAL_RECORDED REJECTED. by left.
  - repeat tx_step.
  - repeat tx_step.
Qed.

(** * All methods *)

Inductive repo_op : Type :=
| RecordApproval (id : Z) (actor reason request_id : string) (now : time) (latency : Z)
| ClaimSubmission (id : Z) (now : time) (keys : list string) (trips : list BreakerTripIntent)
    (actor reason request_id : string)
| ExpireIfEligible (id : Z) (now : time) (actor reason request_id : string)
| ExpireApproved (id : Z) (now : time) (actor reason request_id : string)
| RecordSubmissionResult (id : Z) (status : OrderStatus) (broker_id : option string) (code : string)
    (now : time) (filled : Decimal) (actor reason request_id : string)
| RecordInvalidBrokerData (id : Z) (data_reason : string) (now : time) (broker_id : option string)
    (code actor reason request_id : string)
| RecordInvalidBrokerIdentity (id : Z) (data_reason : string) (now : time) (actor reason request_id : string)
| ResolveAcceptance (id : Z) (broker_id : option string) (status : OrderStatus) (filled : Decimal)
    (now : time) (actor reason request_id : string)
| RecordPreSubmissionRejection (id : Z) (reasons : list string) (now : time)
    (trips : list BreakerTripIntent) (actor reason request_id : string).

Definition run_repo_op (d : Db) (op : repo_op) : Db :=
  match op with
  | RecordApproval id actor reason rq now latency => (record_approval id actor reason rq now latency d).2
  | ClaimSubmission id now keys trips actor reason rq => (claim_submission id now keys trips actor reason rq d).2
  | ExpireIfEligible id now actor reason rq => (expire_if_eligible id now actor reason rq d).2
  | ExpireApproved id now actor reason rq => (expire_approved id now actor reason rq d).2
  | RecordSubmissionResult id status bid code now filled actor reason rq =>
      (record_submission_result id status bid code now filled actor reason rq d).2
  | RecordInvalidBrokerData id dr now bid code actor reason rq =>
      (record_invalid_broker_data id dr now bid code actor reason rq d).2
  | RecordInvalidBrokerIdentity id dr now actor reason rq =>
      (record_invalid_broker_identity id dr now actor reason rq d).2
  | ResolveAcceptance id bid status filled now actor reason rq =>
      (resolve_acceptance id bid status filled now actor reason rq d).2
  | RecordPreSubmissionRejection id reasons now trips actor reason rq =>
      (record_pre_submission_rejection id reasons now trips actor reason rq d).2
  end.

(** The only constraint: a resolution names a status the broker adapter can report. *)
Definition repo_op_ok (op : repo_op) : Prop :=
  match op with ResolveAcceptance _ _ status _ _ _ _ _ => ∃ raw, status = map_status raw | _ => True end.

Lemma run_repo_op_progress op d : repo_op_ok op → progress [] d (run_repo_op d op).
Proof.
  destruct op; simpl; intros Hok;
    auto using record_approval_progress, claim_submission_progress, expire_if_eligible_progress,
      expire_approved_progress, record_submission_result_progress, record_invalid_broker_data_progress,
      record_pre_submission_rejection_progress.
  - apply record_invalid_broker_data_progress.
  - apply resolve_acceptance_progress. destruct Hok as [raw ->]. apply map_status_reported.
Qed.

Lemma run_repo_ops_evolves ops d : Forall repo_op_ok ops → evolves d (foldl run_repo_op d ops).
Proof.
  intros Hops. revert d. induction Hops as [|op ops Hop _ IH]; intros d; simpl; [done|].
  etrans; [|apply IH]. apply (pg_evolves [] d (run_repo_op d op)). by apply run_repo_op_progress.
Qed.

(** Claim C15.  Under any sequence of repository methods (successful or raising) rows are
    neither created nor deleted; each order keeps its identity and terms, its status follows
    a path of legal transitions, or of the one move outside the table that resolving an unknown
    acceptance makes (to expired), and its version never decreases; no tripped breaker is
    cleared; proposals, fills and rules are untouched; the audit log only grows.  A resolution
    stores a status the broker adapter maps a text to. *)
Theorem repository_follows_state_machine ops d :
  Forall repo_op_ok ops → evolves d (foldl run_repo_op d ops).
Proof. apply run_repo_ops_evolves. Qed.

(** After any repository method, an order or rule group whose lifecycle snapshot
    the method changed, or whose proof matched before, has a matching lifecycle proof: the
    audit row written last records exactly the stored rows. *)
Theorem repository_keeps_proofs_current op d target_type target_id :
  repo_op_ok op → target_type = "order" ∨ target_type = "rule_group" →
  lifecycle_proof_matches d target_type target_id = true
  ∨ lifecycle_snapshot (run_repo_op d op) target_type target_id ≠ lifecycle_snapshot d target_type target_id →
  lifecycle_proof_matches (run_repo_op d op) target_type target_id = true.
Proof.
  intros Hok Ht Hor. destruct (run_repo_op_progress op d Hok) as [_ Hp].
  by apply (Hp (target_type, target_id)); [|apply not_elem_of_nil|].
Qed.

(** * Claims *)

(** What the breaker trips of a claim may change. *)
Definition trips_only (d d' : Db) : Prop :=
  db_orders d' = db_orders d ∧ db_proposals d' = db_proposals d ∧ db_groups d' = db_groups d
  ∧ db_fills d' = db_fills d
  ∧ ∀ k r, db_breakers d !! k = Some r → cb_tripped r = true →
      ∃ r', db_breakers d' !! k = Some r' ∧ cb_tripped r' = true.

Lemma trips_only_refl d : trips_only d d.
Proof. unfold trips_only. eauto 10. Qed.

Lemma trips_only_trans d1 d2 d3 : trips_only d1 d2 → trips_only d2 d3 → trips_only d1 d3.
Proof.
  intros (H1&H2&H3&H4&H5) (G1&G2&G3&G4&G5). split_and!; try congruence.
  intros k r Hr Ht. destruct (H5 k r Hr Ht) as (r' & Hr' & Ht'). by apply (G5 k r').
Qed.

Lemma tripped_db_trips_only scope reason actor rq now ar d :
  trips_only d (tripped_db scope reason actor rq now ar d).
Proof.
  split_and!; try done. intros k r Hr Ht. unfold tripped_db. simpl.
  destruct (decide (scope_key scope = k)) as [<-|Hne].
  - eexists. by rewrite lookup_insert_eq.
  - exists r. by rewrite lookup_insert_ne.
Qed.

Lemma trip_intents_effect intents actor reason rq now : ∀ s,
  match trip_intents intents actor reason rq now s with
  | (Ok _, s') => durable s' = durable s ∧ trips_only (working s) (working s')
  | (Raise _, s') => durable s' = durable s
  end.
Proof.
  unfold trip_intents. induction intents as [|i intents IH]; intros s; simpl.
  { split; [done|apply trips_only_refl]. }
  unfold mbind, tx_bind.
  destruct (trip_inputs_ok (i_reason i) actor rq (Some reason)) eqn:Hin.
  2: { by destruct (trip_in_session_bad (i_scope i) (i_reason i) actor rq now (Some reason) s Hin) as (m & ->). }
  rewrite trip_in_session_ok by done. unfold mret at 1, tx_ret at 1.
  specialize (IH (mkSession (durable s)
    (tripped_db (i_scope i) (i_reason i) actor rq now (Some reason) (working s)))).
  destruct (tx_iter _ intents _) as [[a|e] s']; [|done].
  destruct IH as [H1 H2]. split; [done|]. eapply trips_only_trans; [apply tripped_db_trips_only|done].
Qed.

Lemma latch_group_effect id actor reason rq now s :
  ∃ s', latch_group id actor reason rq now s = (Ok (), s')
        ∧ durable s' = durable s ∧ db_orders (working s') = db_orders (working s)
        ∧ db_breakers (working s') = db_breakers (working s).
Proof.
  unfold latch_group. unfold read at 1. unfold mbind at 1, tx_bind at 1.
  destruct (db_proposals (working s) !! id ≫= p_source_rule_group_id) as [gid|]; [|by exists s].
  destruct (db_groups _ !! gid) as [g|]; [|by exists s].
  unfold audit_group_mutation, read, write, insert_audit, mbind, tx_bind. simpl. by eexists.
Qed.

Definition claimed_row (now : time) (o : Order) : Order :=
  bump now (set_o_acceptance_state "pending" (set_o_submission_started_at (Some now)
    (set_o_submission_attempt (o_submission_attempt o + 1)
      (set_o_status (order_status_value SUBMITTING) o)))).

Lemma dedup_elem {A} `{EqDecision A} (l : list A) x : x ∈ dedup l ↔ x ∈ l.
Proof.
  induction l as [|y l IH]; simpl; [done|]. rewrite !elem_of_cons, list_elem_of_filter, IH.
  destruct (decide (x = y)); tauto.
Qed.

(** A granted claim: the row was approved and live, and no listed breaker was tripped. *)
Lemma claim_submission_true_inv id now keys trips actor reason rq d d' :
  claim_submission id now keys trips actor reason rq d = (Ok true, d') →
  ∃ o, db_orders d !! id = Some o ∧ has_status APPROVAL_RECORDED o = true
    ∧ match db_proposals d !! id with None => True | Some p => now < p_expires_at p end
    ∧ (∀ k r, k ∈ keys → db_breakers d !! k = Some r → cb_tripped r = false)
    ∧ db_orders d' = <[id := claimed_row now o]> (db_orders d)
    ∧ (∀ k r, k ∈ keys → db_breakers d' !! k = Some r → cb_tripped r = false).
Proof.
  unfold claim_submission. destruct (require_context _ _ _) as [[[a r] q]|e]; [|done].
  destruct (_ || existsb _ _); [done|]. unfold with_session. unfold mbind at 1, tx_bind at 1.
  pose proof (trip_intents_effect trips a r q now (mkSession d d)) as Htr.
  destruct (trip_intents trips a r q now (mkSession d d)) as [[u|e] s1]; [|done].
  destruct Htr as (Hd1 & Ho1 & Hp1 & Hg1 & _ & Hb1). cbn [working durable] in *.
  unfold update_order, mbind, tx_bind, read. rewrite Ho1.
  destruct (db_orders d !! id) as [o|] eqn:Ho.
  2: { unfold mret, tx_ret. by destruct (bool_decide (trips = [])). }
  destruct (claimable _ _ _ _ o) eqn:Hc.
  2: { unfold mret, tx_ret. by destruct (bool_decide (trips = [])). }
  unfold write at 1. cbn [mret tx_ret]. unfold mret at 1, tx_ret at 1.
  destruct (latch_group_effect id a r q now (mkSession (durable s1)
    (set_db_orders (<[id := claimed_row now o]> (db_orders (working s1))) (working s1))))
    as (s2 & Hl & _ & Ho2 & Hb2).
  unfold claimed_row in Hl. rewrite Ho1 in Hl. cbn [set_db_orders] in Hl |- *. rewrite Hl. clear Hl.
  unfold audit_order_mutation, read, insert_audit, write, commit, mret, tx_ret, mbind, tx_bind.
  cbn. intros [= <-]. exists o. unfold claimable in Hc. rewrite Hp1 in Hc.
  apply andb_true_iff in Hc as [Hc Hk]. apply andb_true_iff in Hc as [Hst Hpr].
  assert (∀ k r, k ∈ keys → db_breakers (working s1) !! k = Some r → cb_tripped r = false) as Hkeys.
  { intros k r0 Hin Hr. rewrite forallb_forall in Hk. specialize (Hk k).
    rewrite <- list_elem_of_In, dedup_elem in Hk. specialize (Hk Hin). rewrite Hr in Hk.
    by apply negb_true_iff in Hk. }
  split_and!; try done.
  - destruct (db_proposals d !! id); [by apply Z.ltb_lt|done].
  - intros k r0 Hin Hr. destruct (cb_tripped r0) eqn:Ht; [|done].
    destruct (Hb1 k r0 Hr Ht) as (r1 & Hr1 & Ht1). rewrite (Hkeys k r1) in Ht1 by done. done.
  - cbn [db_orders set_db_audit]. rewrite Ho2. cbn [working db_orders set_db_orders]. by rewrite Ho1.
  - cbn [db_breakers set_db_audit]. rewrite Hb2. exact Hkeys.
Qed.

Lemma status_path_unsent a b :
  rtc status_edge a b → (∃ s, a = order_status_value s ∧ unsent s = false) →
  ∃ t, b = order_status_value t ∧ unsent t = false.
Proof.
  induction 1 as [|x y z (s & t & -> & -> & Hl) _ IH]; intros (u & Hu & Hun); [eauto|].
  apply (inj order_status_value) in Hu as ->. apply IH. exists t. split; [done|].
  by eapply stored_move_unsent.
Qed.

Lemma evolves_claimed id d d' o :
  evolves d d' → db_orders d !! id = Some o → o_status o = order_status_value SUBMITTING →
  ∃ o', db_orders d' !! id = Some o' ∧ has_status APPROVAL_RECORDED o' = false.
Proof.
  intros [Ho _ _ _ _ _ _ _] Hid Hs. specialize (Ho id). rewrite Hid in Ho.
  destruct (db_orders d' !! id) as [o'|]; [|done]. exists o'. split; [done|].
  destruct (status_path_unsent _ _ (oe_status _ _ Ho)) as (t & Ht & Hun); [by exists SUBMITTING|].
  apply bool_decide_eq_false. rewrite Ht. intros ?%(inj order_status_value). by subst.
Qed.

(** A claim is granted only for an approved order whose proposal has not expired
    and none of whose listed breakers is tripped, before or after the trips of the claim
    itself; it moves the order to [submitting] and counts one attempt.  Whatever repository
    methods run afterwards, no second claim of that order is ever granted. *)
Theorem claim_submission_once id now keys trips actor reason rq d d' :
  claim_submission id now keys trips actor reason rq d = (Ok true, d') →
  (∃ o, db_orders d !! id = Some o ∧ o_status o = order_status_value APPROVAL_RECORDED
     ∧ match db_proposals d !! id with None => True | Some p => is_expired p now = false end
     ∧ (∀ k r, k ∈ keys → db_breakers d !! k = Some r → cb_tripped r = false)
     ∧ (∀ k r, k ∈ keys → db_breakers d' !! k = Some r → cb_tripped r = false)
     ∧ ∃ o', db_orders d' !! id = Some o' ∧ o_status o' = order_status_value SUBMITTING
             ∧ o_submission_attempt o' = o_submission_attempt o + 1)
  ∧ ∀ ops now' keys' trips' actor' reason' rq', Forall repo_op_ok ops →
      (claim_submission id now' keys' trips' actor' reason' rq' (foldl run_repo_op d' ops)).1 ≠ Ok true.
Proof.
  intros Hcl. destruct (claim_submission_true_inv _ _ _ _ _ _ _ _ _ Hcl) as (o & Ho & Hs & Hp & Hk & Hd' & Hk').
  assert (db_orders d' !! id = Some (claimed_row now o)) as Hid by (by rewrite Hd', lookup_insert_eq).
  split.
  - exists o. split_and!; try done; [by apply has_status_true| |by eexists].
    destruct (db_proposals d !! id); [|done]. unfold is_expired. by apply Z.leb_gt.
  - intros ops now' keys' trips' actor' reason' rq' Hops Hsecond.
    destruct (evolves_claimed id d' (foldl run_repo_op d' ops) (claimed_row now o)) as (o2 & Ho2 & Hn);
      [by apply run_repo_ops_evolves|done|done|].
    destruct (claim_submission id now' keys' trips' actor' reason' rq' _) as [r2 d2] eqn:E. simpl in Hsecond.
    subst r2. apply claim_submission_true_inv in E as (o3 & Ho3 & Hs3 & _). congruence.
Qed.

(** * Post-send results *)

(** Broker and ledger disagree: the cumulative fill is malformed or below the
    authoritative local fills, or those exceed the order. *)
Definition fill_drift (filled authoritative : Decimal) (requested : option Decimal) : bool :=
  bool_decide (fill_quantity_relation filled authoritative = None)
  || bool_decide (fill_quantity_relation filled authoritative = Some BEHIND)
  || exact_fill_exceeds_order_quantity requested authoritative.

Definition result_row (persisted : OrderStatus) (broker_id : option string) (acceptance code : string)
    (now : time) (o : Order) : Order :=
  bump now (set_o_last_error_code code (set_o_acceptance_state acceptance
    (set_o_broker_order_id broker_id (set_o_status (order_status_value persisted) o)))).

(** What the latch writes. *)
Lemma latch_group_latches id actor reason rq now s s' :
  latch_group id actor reason rq now s = (Ok (), s') →
  ∀ p gid g, db_proposals (working s) !! id = Some p → p_source_rule_group_id p = Some gid →
    db_groups (working s') !! gid = Some g → g_reconciliation_required g = true.
Proof.
  unfold latch_group. unfold read at 1. unfold mbind at 1, tx_bind at 1. intros Hl p gid g Hp Hg Hg'.
  rewrite Hp in Hl. simpl in Hl. rewrite Hg in Hl. revert Hl.
  destruct (db_groups (working s) !! gid) as [g0|] eqn:Hg0.
  - unfold audit_group_mutation, read, write, insert_audit, mbind, tx_bind. simpl. intros [= <-].
    simpl in Hg'. rewrite lookup_insert_eq in Hg'. by simplify_eq.
  - unfold mret, tx_ret. intros [= <-]. congruence.
Qed.

(** The session steps after the guarded update: optional trip, optional latch. *)
Lemma drift_trip_effect (drift : bool) reason actor rq now audit s u s' :
  (if drift then trip_in_session scope_broker_drift reason actor rq now audit ≫= λ _, mret () else mret ()) s
  = (Ok u, s') →
  db_orders (working s') = db_orders (working s) ∧ db_proposals (working s') = db_proposals (working s)
  ∧ (drift = true → is_tripped scope_broker_drift (working s') = true).
Proof.
  destruct drift; [|by intros [= _ <-]]. unfold mbind, tx_bind.
  destruct (trip_inputs_ok reason actor rq audit) eqn:Hin.
  - rewrite trip_in_session_ok by done. unfold mret, tx_ret. intros [= _ <-]. simpl. split_and!; try done.
    intros _. unfold is_tripped. simpl. by rewrite lookup_insert_eq.
  - by destruct (trip_in_session_bad scope_broker_drift reason actor rq now audit s Hin) as (m & ->).
Qed.

(** The conditional latch of a result: it touches no order and no breaker, and on
    [acceptance_unknown] every group of the order's proposal ends up latched. *)
Lemma unknown_latch_effect ps id actor reason rq now s s' :
  (if bool_decide (ps = ACCEPTANCE_UNKNOWN) then latch_group id actor reason rq now else mret ()) s
    = (Ok (), s') →
  db_orders (working s') = db_orders (working s) ∧ db_breakers (working s') = db_breakers (working s)
  ∧ (ps = ACCEPTANCE_UNKNOWN → ∀ p gid g, db_proposals (working s) !! id = Some p →
       p_source_rule_group_id p = Some gid → db_groups (working s') !! gid = Some g →
       g_reconciliation_required g = true).
Proof.
  destruct (decide (ps = ACCEPTANCE_UNKNOWN)) as [Hps|Hps].
  2: { rewrite bool_decide_false by done. by intros [= <-]. }
  rewrite bool_decide_true by done. intros Hlatch.
  pose proof (latch_group_latches _ _ _ _ _ _ _ Hlatch).
  destruct (latch_group_effect id actor reason rq now s) as (s3' & Heq & _ & ? & ?).
  rewrite Hlatch in Heq. injection Heq as <-. eauto.
Qed.

(** Recording a broker result fails safe.  It succeeds only for a claimed order.
    When the broker's cumulative fill is malformed, behind the ledger or over the order, the
    order becomes [acceptance_unknown], the broker-drift breaker is tripped and its rule group
    latched for reconciliation, in the same commit; otherwise the reported status is stored.
    Any fill that still has to be matched leaves [fill_reconcile_required]. *)
Theorem submission_result_fails_safe id status bid code now filled actor reason rq d st d' q :
  authoritative_fill_qty d id bid = Ok q →
  record_submission_result id status bid code now filled actor reason rq d = (Ok st, d') →
  ∃ o o', db_orders d !! id = Some o ∧ o_status o = order_status_value SUBMITTING
    ∧ db_orders d' !! id = Some o' ∧ o_status o' = order_status_value st
    ∧ st = (if fill_drift filled q (o_qty o) then ACCEPTANCE_UNKNOWN else status)
    ∧ (fill_drift filled q (o_qty o) = true → is_tripped scope_broker_drift d' = true)
    ∧ (fill_drift filled q (o_qty o) = true ∨ fill_quantity_relation filled q = Some AHEAD
       ∨ status ∈ [PARTIALLY_FILLED; FILLED] → o_acceptance_state o' = FILL_RECONCILIATION_REQUIRED)
    ∧ (st = ACCEPTANCE_UNKNOWN → ∀ p gid g, db_proposals d !! id = Some p →
         p_source_rule_group_id p = Some gid → db_groups d' !! gid = Some g →
         g_reconciliation_required g = true).
Proof.
  intros Hq. unfold record_submission_result. destruct (_ || _); [done|]. destruct (negb _); [done|].
  unfold requires_fill_reconciliation. cbv zeta. intros (s & Hrun & <-)%with_session_Ok.
  apply tx_bind_Ok in Hrun as (d1 & s1 & [= <- <-] & Hrun). cbn [working] in Hrun.
  apply tx_bind_Ok in Hrun as (q1 & s1 & [= Hq1 <-] & Hrun). rewrite Hq in Hq1. injection Hq1 as <-.
  apply tx_bind_Ok in Hrun as (up & s1 & Hup & Hrun). apply update_order_Ok in Hup.
  destruct up as [o1|]; [|done]. destruct Hup as (o & Ho & Hst & -> & ->). cbn [working durable] in *.
  rewrite Ho in Hrun. change (Some o ≫= o_qty) with (o_qty o) in Hrun.
  set (drift := fill_drift filled q (o_qty o)).
  fold (fill_drift filled q (o_qty o)) in Hrun. fold drift in Hrun.
  set (ps := if drift then ACCEPTANCE_UNKNOWN else status) in *.
  apply tx_bind_Ok in Hrun as ([] & s2 & Htrip & Hrun).
  apply drift_trip_effect in Htrip as (Ho2 & Hp2 & Hd2). cbn [working db_orders set_db_orders db_proposals] in Ho2, Hp2.
  apply tx_bind_Ok in Hrun as ([] & s3 & Hlatch & Hrun).
  apply unknown_latch_effect in Hlatch as (Ho3 & Hb3 & Hl3). rewrite Hp2 in Hl3.
  apply tx_bind_Ok in Hrun as ([] & s4 & Haudit & Hrun). injection Haudit as <-.
  apply tx_bind_Ok in Hrun as ([] & s5 & Hcommit & Hrun). injection Hcommit as <-. injection Hrun as <- <-.
  set (req := bool_decide (status ∈ [PARTIALLY_FILLED; FILLED])
              || bool_decide (fill_quantity_relation filled q = None)
              || bool_decide (fill_quantity_relation filled q = Some AHEAD)
              || bool_decide (fill_quantity_relation filled q = Some BEHIND)
              || exact_fill_exceeds_order_quantity (o_qty o) q).
  assert (db_orders (working s3) !! id
          = Some (result_row ps bid
              (if req then FILL_RECONCILIATION_REQUIRED else order_status_value status)
              (if exact_fill_exceeds_order_quantity (o_qty o) q then "fill_quantity_exceeds_order"
               else if bool_decide (fill_quantity_relation filled q = None) then "invalid_cumulative_fill"
               else if bool_decide (fill_quantity_relation filled q = Some BEHIND)
               then "cumulative_fill_contradiction" else code) now o)) as Ho3'.
  { rewrite Ho3, Ho2, lookup_insert_eq. reflexivity. }
  exists o. eexists. split_and!; [done|by apply has_status_true|exact Ho3'|reflexivity|reflexivity| | |exact Hl3].
  - intros Hd. unfold is_tripped. cbn [durable working db_breakers set_db_audit]. rewrite Hb3. by apply Hd2.
  - intros Hor. assert (req = true) as ->; [|reflexivity].
    unfold drift, fill_drift in Hor. unfold req.
    rewrite !orb_true_iff, !bool_decide_eq_true in *. tauto.
Qed.

End Methods.

(** * Concrete runs *)

#[local] Instance demo_digest : Digest := λ s, s.

(** A market sale of five shares in the given status, proposed under rule group 5. *)
Definition demo_row (status : OrderStatus) (attempt : Z) : Order :=
  mkOrder 1 "key-1" "AAPL" "sell" "market" (Some (Fin 5 0)) None None (order_status_value status)
    None None EmptyString None "simple" "{}" attempt None "not_started" None EmptyString "none" 0 100 100.

Definition demo_proposal : Proposal := mkProposal 1 1 (Some 5) None 0 "reasoning" 15 100 1000.
Definition demo_group : RuleGroup := mkRuleGroup 5 "group" "active" None None None 0 false 100 100.

Definition demo_db (status : OrderStatus) (attempt : Z) : Db :=
  mkDb {[ 1 := demo_row status attempt ]} {[ 1 := demo_proposal ]} {[ 5 := demo_group ]} ∅ [] [] [] ∅ ∅ [] ∅ ∅ ∅ ∅.

Definition demo_keys : list string := map scope_key (relevant_scopes_for_symbol "AAPL").

(** Approve, claim, and record an accepted send. *)
Definition demo_ops : list repo_op :=
  [ RecordApproval 1 "alice" "looks good" "r1" 200 3;
    ClaimSubmission 1 300 demo_keys [] "alice" "send" "r2";
    RecordSubmissionResult 1 SUBMITTED (Some "b-1") EmptyString 301 dzero "alice" "send" "r2" ].

Definition demo_resolution : list repo_op := [ResolveAcceptance 1 (Some "b-1") EXPIRED dzero 400 "monitor" "reconcile" "r3"].

Lemma repository_follows_state_machine_witness :
  evolves (demo_db PROPOSED 0) (foldl run_repo_op (demo_db PROPOSED 0) demo_ops)
  ∧ evolves (demo_db ACCEPTANCE_UNKNOWN 1) (foldl run_repo_op (demo_db ACCEPTANCE_UNKNOWN 1) demo_resolution)
  ∧ o_status <$> db_orders (foldl run_repo_op (demo_db ACCEPTANCE_UNKNOWN 1) demo_resolution) !! 1 = Some "expired".
Proof.
  split; [|split; [|by vm_compute]]; apply repository_follows_state_machine; repeat constructor. by exists "expired".
Defined.

Lemma repository_keeps_proofs_current_witness :
  lifecycle_proof_matches
    (run_repo_op (demo_db PROPOSED 0) (RecordApproval 1 "alice" "looks good" "r1" 200 3)) "order" 1 = true.
Proof.
  apply repository_keeps_proofs_current; [exact I|by left|].
  right. vm_compute. discriminate.
Defined.

Lemma claim_submission_once_witness :
  ∃ d', claim_submission 1 300 demo_keys [] "alice" "send" "r2" (demo_db APPROVAL_RECORDED 0) = (Ok true, d')
  ∧ ∀ ops now' keys' trips' actor' reason' rq', Forall repo_op_ok ops →
      (claim_submission 1 now' keys' trips' actor' reason' rq' (foldl run_repo_op d' ops)).1 ≠ Ok true.
Proof.
  eexists. split; [vm_compute; reflexivity|].
  eapply (claim_submission_once 1 300 demo_keys [] "alice" "send" "r2" (demo_db APPROVAL_RECORDED 0)).
  vm_compute. reflexivity.
Defined.

(** A broker report of fifteen filled shares on an order for five is stored as unknown. *)
Definition overfilled_db : Db :=
  let d := demo_db SUBMITTING 1 in
  mkDb (db_orders d) (db_proposals d) (db_groups d) (db_rules d)
    [ mkFillRow 1 (Some 1) "AAPL" "sell" (Fin 15 0) (Fin 100 0) (Some "fill-1") "trusted" 250 ]
    (db_audit d) (db_risk_events d) (db_breakers d) (db_receipts d) [] ∅ ∅ ∅ ∅.

Lemma submission_result_fails_safe_witness :
  ∃ st d',
    record_submission_result 1 FILLED (Some "b-1") EmptyString 301 (Fin 15 0) "alice" "send" "r2" overfilled_db
    = (Ok st, d') ∧ st = ACCEPTANCE_UNKNOWN ∧ is_tripped scope_broker_drift d' = true.
Proof.
  eexists _, _. split; [vm_compute; reflexivity|].
  edestruct (submission_result_fails_safe 1 FILLED (Some "b-1") EmptyString 301 (Fin 15 0)
    "alice" "send" "r2" overfilled_db) as (o & o' & Ho & _ & _ & _ & Hst & Htrip & _).
  - vm_compute. reflexivity.
  - vm_compute. reflexivity.
  - vm_compute in Ho. injection Ho as <-. split; [reflexivity|]. apply Htrip. vm_compute. reflexivity.
Defined.

(** Resolving an unknown acceptance with the broker status [expired] stores a move that
    the transition table forbids. *)
Example resolve_acceptance_leaves_table :
  can_transition ACCEPTANCE_UNKNOWN EXPIRED = false
  ∧ let r := resolve_acceptance 1 (Some "b-1") EXPIRED dzero 400 "monitor" "reconcile" "r3"
               (demo_db ACCEPTANCE_UNKNOWN 1) in
    r.1 = Ok true ∧ option_map o_status (db_orders r.2 !! 1) = Some (order_status_value EXPIRED).
Proof. vm_compute. done. Qed.
