(* ===== verification/Approval.v ===== *)
(** Human approval: [orders/application.py].

    [approve] reads the order in one session and acts in another, so it is the
    composition of [approve_decide] and [approve_act]; other writers may run between the
    two (see [OrderSystem]). *)

From S2P Require Import Prelude PyDecimal Assets BrokerModels Breakers RiskRules RiskEngine.
From S2P Require Import Database Lifecycle BreakerStore OrderRepository RepositoryLogic.
From S2P Require Import RepositoryProofs.
From Stdlib Require Import Lia.
Local Open Scope Z_scope.

Record ApprovalCommand : Type := mkApprovalCommand {
  ac_order_id : Z;
  ac_actor : string;
  ac_reason : string;
  ac_now : time;
  ac_request_id : string;
}.

(** [ApprovalCommand.__post_init__]. *)
Definition approval_command (c : ApprovalCommand) : outcome ApprovalCommand :=
  if blank (ac_actor c) || blank (ac_reason c) || blank (ac_request_id c)
  then Raise (ValueError "approval actor, reason, and request_id must be non-empty")
  else Ok c.

Record ApprovalResult : Type := mkApprovalResult { ar_order_id : Z; ar_status : OrderStatus }.

Section Approval.
Context `{Digest}.

Definition not_found (id : Z) : exn := KeyError ("order " +:+ pretty id +:+ " not found").

(** Whether the proposal the command names has expired. *)
Definition approve_decide (c : ApprovalCommand) (d : Db) : outcome bool :=
  match db_orders d !! ac_order_id c with
  | None => Raise (not_found (ac_order_id c))
  | Some _ => Ok (match db_proposals d !! ac_order_id c with
                  | None => false
                  | Some p => is_expired p (ac_now c)
                  end)
  end.

Definition approve_act (c : ApprovalCommand) (latency_ms : Z) (expired : bool) (d : Db)
    : outcome ApprovalResult * Db :=
  let id := ac_order_id c in
  if expired then
    match expire_if_eligible id (ac_now c) (ac_actor c) (ac_reason c) (ac_request_id c) d with
    | (Raise e, d') => (Raise e, d')
    | (Ok None, d') => (Raise (not_found id), d')
    | (Ok (Some EXPIRED), d') => (Ok (mkApprovalResult id EXPIRED), d')
    | (Ok (Some s), d') =>
        (Raise (ApprovalConflict ("order " +:+ pretty id +:+ " approval already consumed ("
                  +:+ order_status_value s +:+ ")")), d')
    end
  else
    match record_approval id (ac_actor c) (ac_reason c) (ac_request_id c) (ac_now c) latency_ms d with
    | (Raise e, d') => (Raise e, d')
    | (Ok false, d') =>
        (Raise (ApprovalConflict ("order " +:+ pretty id +:+ " approval already consumed")), d')
    | (Ok true, d') => (Ok (mkApprovalResult id APPROVAL_RECORDED), d')
    end.

Definition approve (c : ApprovalCommand) (latency_ms : Z) (d : Db) : outcome ApprovalResult * Db :=
  match approve_decide c d with
  | Raise e => (Raise e, d)
  | Ok expired => approve_act c latency_ms expired d
  end.

(** * Behaviour *)

Lemma require_context_ok actor reason rq :
  blank actor || blank reason || blank rq = false →
  require_context actor reason rq = Ok (strip actor, strip reason, strip rq).
Proof.
  unfold blank, require_context. intros Hb. by rewrite Hb.
Qed.

Lemma update_order_hit id pred f s o :
  db_orders (working s) !! id = Some o → pred (working s) o = true →
  update_order id pred f s
  = (Ok (Some (f o)), mkSession (durable s) (set_db_orders (<[id := f o]> (db_orders (working s))) (working s))).
Proof.
  intros Ho Hp. unfold update_order, read, write, mbind, tx_bind, mret, tx_ret. by rewrite Ho, Hp.
Qed.

Lemma update_order_miss id pred f s :
  (∀ o, db_orders (working s) !! id = Some o → pred (working s) o = false) →
  update_order id pred f s = (Ok None, s).
Proof.
  intros Hp. unfold update_order, read, write, mbind, tx_bind, mret, tx_ret.
  destruct (db_orders (working s) !! id) as [o|]; [|done]. by rewrite Hp.
Qed.

Definition approved_row (actor reason : string) (now : time) (o : Order) : Order :=
  set_o_approval_reason (strip reason) (approve_update (strip actor) now o).

Lemma record_approval_eval id actor reason rq now latency d o :
  blank actor || blank reason || blank rq = false → db_orders d !! id = Some o →
  if has_status PROPOSED o
  then ∃ d', record_approval id actor reason rq now latency d = (Ok true, d')
         ∧ db_orders d' = <[id := approved_row actor reason now o]> (db_orders d)
         ∧ ∃ e, db_audit d' = db_audit d ++ [e] ∧ a_action e = "order.approve" ∧ a_actor e = strip actor
                ∧ a_target_id e = pretty id
  else record_approval id actor reason rq now latency d = (Ok false, d).
Proof.
  intros Hb Ho. unfold record_approval. rewrite require_context_ok by done. unfold with_session.
  destruct (has_status PROPOSED o) eqn:Hs.
  - unfold mbind at 1, tx_bind at 1. rewrite (update_order_hit _ _ _ _ o) by done.
    cbn [working durable]. unfold mbind at 1, tx_bind at 1.
    erewrite update_order_hit; [|cbn; by rewrite lookup_insert_eq|done].
    unfold audit_order_mutation, read, insert_audit, write, commit, mret, tx_ret, mbind, tx_bind.
    cbn [working durable set_db_orders db_orders]. eexists. split; [reflexivity|]. split.
    + cbn [db_orders set_db_audit set_db_orders]. by rewrite insert_insert_eq.
    + eexists. split; [reflexivity|done].
  - unfold mbind at 1, tx_bind at 1. rewrite update_order_miss; [done|].
    cbn. intros o' [= <-]%(eq_trans (eq_sym Ho)). done.
Qed.

Lemma expire_if_eligible_eval id now actor reason rq d o :
  blank actor || blank reason || blank rq = false → db_orders d !! id = Some o →
  if has_status PROPOSED o || has_status APPROVAL_RECORDED o
  then ∃ d', expire_if_eligible id now actor reason rq d = (Ok (Some EXPIRED), d')
         ∧ db_orders d' = <[id := bump now (set_o_status (order_status_value EXPIRED) o)]> (db_orders d)
  else expire_if_eligible id now actor reason rq d
       = (match order_status_of (o_status o) with Ok s => Ok (Some s) | Raise e => Raise e end, d).
Proof.
  intros Hb Ho. unfold expire_if_eligible. rewrite require_context_ok by done. unfold with_session.
  destruct (has_status PROPOSED o || has_status APPROVAL_RECORDED o) eqn:Hs.
  - unfold mbind at 1, tx_bind at 1. rewrite (update_order_hit _ _ _ _ o) by done.
    unfold audit_order_mutation, read, insert_audit, write, commit, lift, mret, tx_ret, mbind, tx_bind.
    eexists. split; [reflexivity|done].
  - unfold mbind at 1, tx_bind at 1. rewrite update_order_miss.
    2: { cbn. intros o' [= <-]%(eq_trans (eq_sym Ho)). done. }
    unfold rollback, read, lift, mret, tx_ret, mbind, tx_bind. cbn [durable working]. rewrite Ho.
    by destruct (order_status_of (o_status o)).
Qed.
(** [approve] decides every case.  A live proposal still [proposed] is approved:
    the row records the actor and one approval audit row is appended.  An expired proposal
    not yet claimed is expired instead.  An unknown order raises [KeyError].  In every other
    case the approval has been consumed and nothing changes: an already expired row is
    reported as such, anything else raises. *)
Theorem approve_spec c latency d :
  approval_command c = Ok c →
  let id := ac_order_id c in
  match db_orders d !! id with
  | None => approve c latency d = (Raise (not_found id), d)
  | Some o =>
      let live := match db_proposals d !! id with None => true | Some p => negb (is_expired p (ac_now c)) end in
      if live && has_status PROPOSED o then
        ∃ d', approve c latency d = (Ok (mkApprovalResult id APPROVAL_RECORDED), d')
          ∧ db_orders d' = <[id := approved_row (ac_actor c) (ac_reason c) (ac_now c) o]> (db_orders d)
          ∧ ∃ e, db_audit d' = db_audit d ++ [e] ∧ a_action e = "order.approve"
                 ∧ a_actor e = strip (ac_actor c) ∧ a_target_id e = pretty id
      else if negb live && (has_status PROPOSED o || has_status APPROVAL_RECORDED o) then
        ∃ d', approve c latency d = (Ok (mkApprovalResult id EXPIRED), d')
          ∧ db_orders d' = <[id := bump (ac_now c) (set_o_status (order_status_value EXPIRED) o)]> (db_orders d)
      else
        (approve c latency d).2 = d
        ∧ ((approve c latency d).1 = Ok (mkApprovalResult id EXPIRED) ∧ live = false ∧ has_status EXPIRED o = true
           ∨ ∃ e, (approve c latency d).1 = Raise e)
  end.
Proof.
  unfold approval_command. intros Hc. destruct (_ || _) eqn:Hb; [done|]. clear Hc.
  unfold approve, approve_decide, approve_act. cbv zeta.
  destruct (db_orders d !! ac_order_id c) as [o|] eqn:Ho; [|done].
  set (expired := match db_proposals d !! ac_order_id c with None => false | Some p => is_expired p (ac_now c) end).
  assert (match db_proposals d !! ac_order_id c with None => true | Some p => negb (is_expired p (ac_now c)) end
          = negb expired) as -> by (unfold expired; by destruct (db_proposals d !! ac_order_id c)).
  rewrite negb_involutive. destruct expired; cbn [negb andb].
  - pose proof (expire_if_eligible_eval (ac_order_id c) (ac_now c) _ _ _ d o Hb Ho) as Hx.
    destruct (_ || has_status APPROVAL_RECORDED o).
    + destruct Hx as (d' & -> & Hd'). eauto.
    + rewrite Hx. destruct (order_status_of (o_status o)) as [s|e] eqn:Hs; [|by eauto].
      destruct s; simpl; try by eauto. split; [done|]. left. split_and!; try done.
      by apply has_status_true, order_status_of_Ok.
  - pose proof (record_approval_eval (ac_order_id c) _ _ _ (ac_now c) latency d o Hb Ho) as Hx.
    destruct (has_status PROPOSED o).
    + destruct Hx as (d' & -> & Hd' & Hau). eauto.
    + rewrite Hx. eauto.
Qed.

End Approval.

Lemma approve_spec_witness :
  ∃ d', approve (H := λ s, s) (mkApprovalCommand 1 "alice" "looks good" 200 "r1") 3 (demo_db PROPOSED 0)
        = (Ok (mkApprovalResult 1 APPROVAL_RECORDED), d').
Proof.
  pose proof (approve_spec (H := λ s, s) (mkApprovalCommand 1 "alice" "looks good" 200 "r1") 3
    (demo_db PROPOSED 0) eq_refl) as (d' & Hd & _). exists d'. exact Hd.
Defined.
