(* ===== verification/Submission.v ===== *)
(** Submission orchestration: [orders/submission.py], against the broker interface of
    [broker/base.py] and its in-memory implementation [broker/mock.py].

    [submit] reads and parses the order ([submit_prepare]), then repeats one barrier hold
    ([submit_iteration]) until the risk evaluation is current.  What a hold observes of the
    rest of the world is its environment: the snapshot service, the claim gate's answer, the
    clock readings and the two optional callbacks. *)

From S2P Require Import Prelude PyDecimal Assets BrokerModels Breakers RiskRules RiskEngine.
From S2P Require Import Database Lifecycle BreakerStore OrderRepository RepositoryLogic.
From S2P Require Import RepositoryProofs Approval.
From Stdlib Require Import Lia.
Local Open Scope Z_scope.

(** * The broker interface *)

(** A call returns a result, or raises one of the exceptions [submit] tells apart. *)
Inductive broker_reply : Type :=
| Reply (r : OrderResult)
| SubmissionRejected (stable_code : string)
| DataIntegrityError (broker_order_id : option string)
| OtherFailure.

Class Broker (B : Type) : Type := {
  submit_order : OrderRequest → B → broker_reply * B;
  submit_bracket : OrderRequest → Decimal → Decimal → B → broker_reply * B;
  get_order_by_client_id : string → B → option OrderResult;
}.

(** The contract of [BrokerClient]: an already seen idempotency key creates nothing and
    returns the existing order, and an accepted order can be found by its key. *)
Class IdempotentBroker (B : Type) `{!Broker B} : Prop := {
  submit_seen : ∀ (o : OrderRequest) (b : B) r,
    get_order_by_client_id (BrokerModels.o_idempotency_key o) b = Some r →
    submit_order o b = (Reply r, b);
  submit_recorded : ∀ (o : OrderRequest) (b b' : B) r,
    submit_order o b = (Reply r, b') →
    get_order_by_client_id (BrokerModels.o_idempotency_key o) b' = Some r;
  submit_keeps : ∀ (o : OrderRequest) (b : B) k r,
    get_order_by_client_id k b = Some r →
    get_order_by_client_id k (submit_order o b).2 = Some r;
}.

(** ** [MockBroker] *)

Record MockBroker : Type := mkMockBroker {
  mb_by_key : dict OrderResult;
  mb_by_id : dict OrderResult;
  mb_counter : Z;
  mb_brackets : list (OrderRequest * Decimal * Decimal);
  mb_now : time;
}.

Definition broker_order_type_of (t : OrderType) : BrokerOrderType :=
  match t with MARKET => BMARKET | LIMIT => BLIMIT end.

Definition mock_submit_order (o : OrderRequest) (b : MockBroker) : broker_reply * MockBroker :=
  match dict_get (mb_by_key b) (BrokerModels.o_idempotency_key o) with
  | Some existing => (Reply existing, b)
  | None =>
      let broker_id := "mock-" +:+ pretty (mb_counter b) in
      let result := mkOrderResult (BrokerModels.o_idempotency_key o) (Some broker_id) SUBMITTED dzero None
        (mb_now b) (Some (BrokerModels.o_ticker o)) (Some (BrokerModels.o_side o))
        (Some (broker_order_type_of (BrokerModels.o_order_type o))) (BrokerModels.o_limit_price o)
        (BrokerModels.o_qty o) (BrokerModels.o_notional o) in
      (Reply result,
       mkMockBroker (dict_set (mb_by_key b) (BrokerModels.o_idempotency_key o) result)
         (dict_set (mb_by_id b) broker_id result) (mb_counter b + 1) (mb_brackets b) (mb_now b))
  end.

Definition mock_submit_bracket (o : OrderRequest) (take_profit stop_loss : Decimal) (b : MockBroker)
    : broker_reply * MockBroker :=
  let '(r, b') := mock_submit_order o b in
  (r, mkMockBroker (mb_by_key b') (mb_by_id b') (mb_counter b')
        (mb_brackets b' ++ [(o, take_profit, stop_loss)]) (mb_now b')).

Definition mock_get_open_orders (b : MockBroker) : list OrderResult :=
  filter (λ r, r_status r ∈ [SUBMITTED; PARTIALLY_FILLED]) (dict_values (mb_by_id b)).

Definition mock_get_order_status (order_id : string) (b : MockBroker) : outcome OrderResult :=
  match dict_get (mb_by_id b) order_id with
  | Some r => Ok r
  | None => Raise (KeyError ("unknown order id: " +:+ order_id))
  end.

Definition mock_cancel_order (order_id : string) (b : MockBroker) : outcome OrderResult * MockBroker :=
  match mock_get_order_status order_id b with
  | Raise e => (Raise e, b)
  | Ok r =>
      let canceled := mkOrderResult (r_idempotency_key r) (r_broker_order_id r) CANCELED (r_filled_qty r)
        (r_avg_fill_price r) (mb_now b) (r_ticker r) (r_side r) (r_order_type r) (r_limit_price r)
        (r_requested_qty r) (r_requested_notional r) in
      (Ok canceled,
       mkMockBroker (dict_set (mb_by_key b) (r_idempotency_key r) canceled)
         (dict_set (mb_by_id b) order_id canceled) (mb_counter b) (mb_brackets b) (mb_now b))
  end.

#[export] Instance mock_broker : Broker MockBroker := {
  submit_order := mock_submit_order;
  submit_bracket := mock_submit_bracket;
  get_order_by_client_id := λ k b, dict_get (mb_by_key b) k;
}.

(** [MockBroker] honours the [BrokerClient] contract: resubmitting a seen key
    returns the recorded order and changes nothing, an accepted order is found by its key,
    and no submission disturbs another key. *)
Theorem mock_broker_idempotent : IdempotentBroker MockBroker.
Proof.
  split; simpl; unfold mock_submit_order.
  - intros o b r Hr. by rewrite Hr.
  - intros o b b' r. destruct (dict_get (mb_by_key b) _) as [e|] eqn:He; intros [= <- <-]; [done|].
    simpl. by rewrite dict_get_set_eq.
  - intros o b k r Hr. destruct (dict_get (mb_by_key b) (BrokerModels.o_idempotency_key o)) as [e|] eqn:He; [done|].
    simpl. rewrite dict_get_set_ne; [done|]. congruence.
Qed.

(** * Requests from stored rows *)

(** [json.loads] (no value when the text is not JSON) and [Decimal(str(value))]. *)
Class Parsers : Type := {
  json_loads : string → option json;
  decimal_of_json : json → option Decimal;
}.

Section Requests.
Context `{Parsers}.

Definition time_in_force_of (raw : json) : option OrderTimeInForce :=
  match raw with
  | JStr s => if bool_decide (s = "day") then Some DAY else if bool_decide (s = "gtc") then Some GTC else None
  | _ => None
  end.

Definition order_side_of (text : string) : outcome OrderSide :=
  if bool_decide (text = "buy") then Ok BUY else if bool_decide (text = "sell") then Ok SELL
  else Raise (ValueError "not a valid OrderSide").

Definition order_type_of (text : string) : outcome OrderType :=
  if bool_decide (text = "market") then Ok MARKET else if bool_decide (text = "limit") then Ok LIMIT
  else Raise (ValueError "not a valid OrderType").

Definition stored_time_in_force (o : Order) : option OrderTimeInForce :=
  match json_loads (o_submission_payload_json o) with
  | Some (JObj payload) =>
      let raw := default (JStr "day") (dict_get payload "time_in_force") in
      if existsb (λ k, negb (bool_decide (k = "time_in_force"))) (dict_keys payload) then
        if bool_decide (o_submission_kind o = "simple") then None else time_in_force_of (JStr "day")
      else time_in_force_of raw
  | _ => None
  end.

Definition order_to_request (o : Order) : outcome OrderRequest :=
  match stored_time_in_force o with
  | None => Raise (ValueError "invalid order time in force")
  | Some tif =>
      side ← order_side_of (o_side o);
      type ← order_type_of (o_order_type o);
      order_request (mkOrderRequest (o_ticker o) side type (o_idempotency_key o) (o_qty o) (o_notional o)
                       (o_limit_price o) tif)
  end.

Definition bracket_prices (o : Order) : outcome (Decimal * Decimal) :=
  match json_loads (o_submission_payload_json o) with
  | Some (JObj payload) =>
      let keys := dict_keys payload in
      if bool_decide ("take_profit" ∈ keys) && bool_decide ("stop_loss" ∈ keys)
         && forallb (λ k, bool_decide (k ∈ ["take_profit"; "stop_loss"])) keys then
        match dict_get payload "take_profit" ≫= decimal_of_json,
              dict_get payload "stop_loss" ≫= decimal_of_json with
        | Some take_profit, Some stop_loss =>
            tp ← dle take_profit dzero;
            sl ← (if tp : bool then Ok true else dle stop_loss dzero);
            if sl : bool then Raise (ValueError "bracket prices must be positive")
            else Ok (take_profit, stop_loss)
        | _, _ => Raise (ValueError "invalid bracket submission payload")
        end
      else Raise (ValueError "invalid bracket submission payload")
  | _ => Raise (ValueError "invalid bracket submission payload")
  end.
End Requests.

(** * Submission *)

Record SubmissionResult : Type := mkSubmissionResult {
  sr_order_id : Z;
  sr_status : OrderStatus;
  sr_broker_order_id : option string;
  sr_risk_reasons : list string;
}.

Definition DEFINITIVE_BROKER_STATUSES : list OrderStatus :=
  [SUBMITTED; PARTIALLY_FILLED; FILLED; CANCELED; REJECTED; EXPIRED].

(** What [submit] carries into the barrier. *)
Record Prepared : Type := mkPrepared {
  pp_order_id : Z;
  pp_request : OrderRequest;
  pp_bracket : option (Decimal * Decimal);
  pp_now : time;
  pp_actor : string;
  pp_reason : string;
  pp_request_id : string;
}.

(** The database, the broker, and the log of calls that reached the broker. *)
Record World (B : Type) : Type := mkWorld {
  w_db : Db;
  w_broker : B;
  w_sent : list (Z * OrderRequest);
}.
Arguments mkWorld {B}.
Arguments w_db {B}.
Arguments w_broker {B}.
Arguments w_sent {B}.

(** What one barrier hold observes. *)
Record Env : Type := mkEnv {
  (* [assemble_for_execution], by ticker and excluded order; it stores the high-water mark *)
  e_assemble : string → Z → Db → outcome PortfolioSnapshot * Db;
  (* the configuration of [risk_for_symbol] *)
  e_config : string → RiskConfig;
  e_validate_plan_exit : option (Db → outcome (option string) * Db);
  e_risk_is_current : bool;
  e_claim_now : time;
  e_record_now : time;
  e_reconcile_immediate_fill : option (Decimal → Db → outcome bool * Db);
}.

Section Submission.
Context `{Digest} `{Parsers} {B : Type} `{!Broker B}.

Abbreviation step A := (World B → outcome A * World B).

(** A repository call on the world's database. *)
Definition on_db {A} (f : Db → outcome A * Db) : step A :=
  λ w, let '(r, d) := f (w_db w) in (r, mkWorld d (w_broker w) (w_sent w)).

Definition submit_prepare (order_id : Z) (actor reason request_id : string) (now : time) (d : Db)
    : outcome (SubmissionResult + Prepared) * Db :=
  let actor := strip actor in
  let reason := strip reason in
  let request_id := strip request_id in
  if negb (nonempty actor) || negb (nonempty reason) || negb (nonempty request_id)
  then (Raise (ValueError "submission actor, reason, and request_id must be non-empty"), d)
  else match db_orders d !! order_id with
  | None => (Raise (not_found order_id), d)
  | Some o =>
      match order_status_of (o_status o) with
      | Raise e => (Raise e, d)
      | Ok current =>
          if negb (bool_decide (current = APPROVAL_RECORDED))
          then (Ok (inl (mkSubmissionResult order_id current (o_broker_order_id o) [])), d)
          else
            let expired := match db_proposals d !! order_id with None => false | Some p => is_expired p now end in
            match order_to_request o with
            | Raise e => (Raise e, d)
            | Ok request =>
                if expired then
                  match expire_approved order_id now actor reason request_id d with
                  | (Raise e, d') => (Raise e, d')
                  | (Ok _, d') => (Ok (inl (mkSubmissionResult order_id EXPIRED None [])), d')
                  end
                else if bool_decide (o_submission_kind o = "bracket") then
                  match bracket_prices o with
                  | Raise e => (Raise e, d)
                  | Ok prices => (Ok (inr (mkPrepared order_id request (Some prices) now actor reason request_id)), d)
                  end
                else (Ok (inr (mkPrepared order_id request None now actor reason request_id)), d)
            end
      end
  end.

(** [_risk_check]. *)
Definition risk_check (env : Env) (request : OrderRequest) (order_id : Z) (d : Db)
    : outcome RiskResult * Db :=
  let ticker := BrokerModels.o_ticker request in
  let '(snapshot, d') := e_assemble env ticker order_id d in
  (snapshot ≫= check (e_config env ticker) request, d').

(** The rejection branches: record it and return [REJECTED]. *)
Definition reject (p : Prepared) (reasons : list string) (trips : list BreakerTripIntent)
    : step (option SubmissionResult) := λ w,
  match on_db (record_pre_submission_rejection (pp_order_id p) reasons (pp_now p) trips
          (pp_actor p) (pp_reason p) (pp_request_id p)) w with
  | (Raise e, w') => (Raise e, w')
  | (Ok _, w') => (Ok (Some (mkSubmissionResult (pp_order_id p) REJECTED None reasons)), w')
  end.

(** The broker call; every call that is made is logged. *)
Definition send (p : Prepared) (w : World B) : broker_reply * World B :=
  let '(reply, b) := match pp_bracket p with
                     | Some (take_profit, stop_loss) => submit_bracket (pp_request p) take_profit stop_loss (w_broker w)
                     | None => submit_order (pp_request p) (w_broker w)
                     end in
  (reply, mkWorld (w_db w) b (w_sent w ++ [(pp_order_id p, pp_request p)])).

(** Storing the outcome of the call. *)
Definition record_reply (env : Env) (p : Prepared) (reply : broker_reply) : step SubmissionResult := λ w,
  let id := pp_order_id p in
  let now := e_record_now env in
  match reply with
  | SubmissionRejected code =>
      match on_db (record_submission_result id REJECTED None code now dzero
                     (pp_actor p) (pp_reason p) (pp_request_id p)) w with
      | (Raise e, w') => (Raise e, w')
      | (Ok _, w') => (Ok (mkSubmissionResult id REJECTED None []), w')
      end
  | DataIntegrityError broker_order_id =>
      match on_db (record_invalid_broker_data id "invalid broker submission payload" now broker_order_id
                     "invalid_broker_data" (pp_actor p) (pp_reason p) (pp_request_id p)) w with
      | (Raise e, w') => (Raise e, w')
      | (Ok _, w') => (Ok (mkSubmissionResult id ACCEPTANCE_UNKNOWN broker_order_id []), w')
      end
  | OtherFailure =>
      match on_db (record_submission_result id ACCEPTANCE_UNKNOWN None "broker_submission_unknown" now dzero
                     (pp_actor p) (pp_reason p) (pp_request_id p)) w with
      | (Raise e, w') => (Raise e, w')
      | (Ok _, w') => (Ok (mkSubmissionResult id ACCEPTANCE_UNKNOWN None []), w')
      end
  | Reply result =>
      match order_result_identity_error result (BrokerModels.o_idempotency_key (pp_request p))
              (Some (BrokerModels.o_ticker (pp_request p))) with
      | Some identity_error =>
          match on_db (record_invalid_broker_identity id identity_error now
                         (pp_actor p) (pp_reason p) (pp_request_id p)) w with
          | (Raise e, w') => (Raise e, w')
          | (Ok _, w') => (Ok (mkSubmissionResult id ACCEPTANCE_UNKNOWN None []), w')
          end
      | None =>
          let definitive := bool_decide (r_status result ∈ DEFINITIVE_BROKER_STATUSES) in
          let status := if definitive then r_status result else ACCEPTANCE_UNKNOWN in
          let error_code := if definitive then EmptyString else "invalid_broker_submission_status" in
          match on_db (record_submission_result id status (r_broker_order_id result) error_code now
                         (r_filled_qty result) (pp_actor p) (pp_reason p) (pp_request_id p)) w with
          | (Raise e, w') => (Raise e, w')
          | (Ok persisted, w') =>
              match e_reconcile_immediate_fill env with
              | Some reconcile =>
                  if bool_decide (status ∈ [PARTIALLY_FILLED; FILLED]) then
                    match on_db (reconcile (r_filled_qty result)) w' with
                    | (Raise e, w'') => (Raise e, w'')
                    | (Ok false, w'') =>
                        (Ok (mkSubmissionResult id ACCEPTANCE_UNKNOWN (r_broker_order_id result) []), w'')
                    | (Ok true, w'') => (Ok (mkSubmissionResult id persisted (r_broker_order_id result) []), w'')
                    end
                  else (Ok (mkSubmissionResult id persisted (r_broker_order_id result) []), w')
              | None => (Ok (mkSubmissionResult id persisted (r_broker_order_id result) []), w')
              end
          end
      end
  end.

(** The claim, and what follows when it is refused. *)
Definition claim_keys (p : Prepared) (risk : RiskResult) : list string :=
  filter (λ k, k ∉ bypassed_breakers risk)
    (map scope_key (relevant_scopes_for_symbol (BrokerModels.o_ticker (pp_request p)))).

Definition claim_and_send (env : Env) (p : Prepared) (risk : RiskResult) : step SubmissionResult := λ w,
  let id := pp_order_id p in
  match on_db (claim_submission id (e_claim_now env) (claim_keys p risk) (breaker_trips risk)
                 (pp_actor p) (pp_reason p) (pp_request_id p)) w with
  | (Raise e, w1) => (Raise e, w1)
  | (Ok true, w1) => let '(reply, w2) := send p w1 in record_reply env p reply w2
  | (Ok false, w1) =>
      match on_db (expire_approved id (e_claim_now env) (pp_actor p) (pp_reason p) (pp_request_id p)) w1 with
      | (Raise e, w2) => (Raise e, w2)
      | (Ok true, w2) => (Ok (mkSubmissionResult id EXPIRED None []), w2)
      | (Ok false, w2) =>
          match db_orders (w_db w2) !! id with
          | None => (Raise (not_found id), w2)
          | Some o => (s ← order_status_of (o_status o);
                       Ok (mkSubmissionResult id s (o_broker_order_id o) []), w2)
          end
      end
  end.

(** One hold of the submission barrier; no result means the evaluation was stale. *)
Definition submit_iteration (env : Env) (p : Prepared) : step (option SubmissionResult) := λ w,
  match on_db (risk_check env (pp_request p) (pp_order_id p)) w with
  | (Raise e, w0) => (Raise e, w0)
  | (Ok risk, w0) =>
      if rejected risk then reject p (reasons risk) (breaker_trips risk) w0
      else
        match match e_validate_plan_exit env with
              | None => (Ok None, w0)
              | Some validate => on_db validate w0
              end with
        | (Raise e, w1) => (Raise e, w1)
        | (Ok (Some plan_error), w1) => reject p ["plan execution guard: " +:+ plan_error] [] w1
        | (Ok None, w1) =>
            if e_risk_is_current env then
              match claim_and_send env p risk w1 with
              | (Raise e, w2) => (Raise e, w2)
              | (Ok r, w2) => (Ok (Some r), w2)
              end
            else (Ok None, w1)
        end
  end.

(** The loop over barrier holds; [None] when the environments run out. *)
Fixpoint submit_loop (envs : list Env) (p : Prepared) (w : World B)
    : option (outcome SubmissionResult) * World B :=
  match envs with
  | [] => (None, w)
  | env :: envs' =>
      match submit_iteration env p w with
      | (Raise e, w') => (Some (Raise e), w')
      | (Ok (Some r), w') => (Some (Ok r), w')
      | (Ok None, w') => submit_loop envs' p w'
      end
  end.

Definition submit (order_id : Z) (actor reason request_id : string) (now : time) (envs : list Env)
    (w : World B) : option (outcome SubmissionResult) * World B :=
  match on_db (submit_prepare order_id actor reason request_id now) w with
  | (Raise e, w') => (Some (Raise e), w')
  | (Ok (inl r), w') => (Some (Ok r), w')
  | (Ok (inr p), w') => submit_loop envs p w'
  end.

End Submission.
