(* ===== verification/SubmissionProofs.v ===== *)
(** Safety of submission: what a broker call implies, and that the loop returns. *)

From S2P Require Import Prelude PyDecimal Assets BrokerModels Breakers RiskRules RiskEngine.
From S2P Require Import Database Lifecycle BreakerStore OrderRepository RepositoryLogic.
From S2P Require Import RepositoryProofs Approval Submission.
From Stdlib Require Import Lia.
Local Open Scope Z_scope.

Section Safety.
Context `{Digest} `{Parsers} {B : Type} `{!Broker B}.

Lemma on_db_sent {A} (f : Db → outcome A * Db) (w : World B) : w_sent (on_db f w).2 = w_sent w.
Proof. unfold on_db. by destruct (f (w_db w)). Qed.

Lemma on_db_eq {A} (f : Db → outcome A * Db) (w : World B) :
  on_db f w = ((f (w_db w)).1, mkWorld (f (w_db w)).2 (w_broker w) (w_sent w)).
Proof. unfold on_db. by destruct (f (w_db w)). Qed.

Lemma reject_sent p reasons trips (w : World B) : w_sent (reject p reasons trips w).2 = w_sent w.
Proof. unfold reject. rewrite on_db_eq. by destruct (record_pre_submission_rejection _ _ _ _ _ _ _ _) as [[]]. Qed.

Lemma record_reply_sent env p reply (w : World B) : w_sent (record_reply env p reply w).2 = w_sent w.
Proof.
  unfold record_reply. destruct reply as [r|code|bid|]; rewrite ?on_db_eq.
  - destruct (order_result_identity_error _ _ _); rewrite ?on_db_eq.
    + by destruct (record_invalid_broker_identity _ _ _ _ _ _ _) as [[]].
    + destruct (record_submission_result _ _ _ _ _ _ _ _ _ _) as [[st|e] d']; [|done]. simpl.
      destruct (e_reconcile_immediate_fill env) as [f|]; [|done].
      destruct (bool_decide (_ ∈ [PARTIALLY_FILLED; FILLED])); [|done]. rewrite on_db_eq. simpl.
      by destruct (f _ _) as [[[]|] ?].
  - by destruct (record_submission_result _ _ _ _ _ _ _ _ _ _) as [[]].
  - by destruct (record_invalid_broker_data _ _ _ _ _ _ _ _ _) as [[]].
  - by destruct (record_submission_result _ _ _ _ _ _ _ _ _ _) as [[]].
Qed.

Lemma send_sent p (w : World B) :
  w_db (send p w).2 = w_db w ∧ w_sent (send p w).2 = w_sent w ++ [(pp_order_id p, pp_request p)].
Proof. unfold send. destruct (pp_bracket p) as [[tp sl]|];
  [by destruct (submit_bracket _ tp sl (w_broker w))|by destruct (submit_order _ (w_broker w))]. Qed.

(** A call reaches the broker exactly when the claim is granted. *)
Lemma claim_and_send_sent env p risk (w : World B) :
  let claim := claim_submission (pp_order_id p) (e_claim_now env) (claim_keys p risk) (breaker_trips risk)
                 (pp_actor p) (pp_reason p) (pp_request_id p) (w_db w) in
  w_sent (claim_and_send env p risk w).2
  = w_sent w ++ (if decide (claim.1 = Ok true) then [(pp_order_id p, pp_request p)] else []).
Proof.
  unfold claim_and_send. cbv zeta. rewrite on_db_eq.
  destruct (claim_submission _ _ _ _ _ _ _ _) as [[[]|e] d1]; cbn [fst snd].
  - rewrite decide_True by done.
    destruct (send p _) as [reply w2] eqn:Hs. pose proof (send_sent p (mkWorld d1 (w_broker w) (w_sent w))) as [_ Hsent].
    rewrite Hs in Hsent. by rewrite record_reply_sent.
  - rewrite decide_False, app_nil_r by done. rewrite on_db_eq.
    destruct (expire_approved _ _ _ _ _ _) as [[[]|e] d2]; cbn [fst snd]; try done.
    cbn [w_db]. by destruct (db_orders d2 !! pp_order_id p).
  - by rewrite decide_False, app_nil_r by done.
Qed.

(** The database after the snapshot was assembled. *)
Definition assembled_db (env : Env) (p : Prepared) (d : Db) : Db :=
  (e_assemble env (BrokerModels.o_ticker (pp_request p)) (pp_order_id p) d).2.

(** The database the claim sees: after the optional plan-exit validation. *)
Definition validated_db (env : Env) (p : Prepared) (d : Db) : Db :=
  match e_validate_plan_exit env with
  | None => assembled_db env p d
  | Some f => (f (assembled_db env p d)).2
  end.

(** When a hold lets a call through. *)
Definition call_authorised (env : Env) (p : Prepared) (d : Db) : Prop :=
  let id := pp_order_id p in
  let ticker := BrokerModels.o_ticker (pp_request p) in
  let d1 := validated_db env p d in
  e_risk_is_current env = true
  ∧ ∃ snapshot risk o,
      (e_assemble env ticker id d).1 = Ok snapshot
      ∧ check (e_config env ticker) (pp_request p) snapshot = Ok risk
      ∧ admissible (e_config env ticker) (pp_request p) snapshot
      ∧ db_orders d1 !! id = Some o ∧ o_status o = order_status_value APPROVAL_RECORDED
      ∧ match db_proposals d1 !! id with None => True | Some pr => is_expired pr (e_claim_now env) = false end
      ∧ ∀ sc, sc ∈ relevant_scopes_for_symbol ticker → is_tripped sc d1 = true →
          reduce_only (pp_request p) snapshot = Ok true
          ∧ (kind sc = OPERATOR_GLOBAL ∨ kind sc = LOSS ∨ kind sc = DRAWDOWN).

Lemma risk_check_db env p d :
  (risk_check env (pp_request p) (pp_order_id p) d).2 = assembled_db env p d.
Proof. unfold risk_check, assembled_db. by destruct (e_assemble _ _ _ _). Qed.

(** The world after the risk check, when it did not already settle the iteration. *)
Lemma submit_iteration_sent_inv env p (w : World B) :
  w_sent (submit_iteration env p w).2 ≠ w_sent w →
  ∃ risk, (risk_check env (pp_request p) (pp_order_id p) (w_db w)).1 = Ok risk ∧ approved risk = true
    ∧ e_risk_is_current env = true
    ∧ w_sent (submit_iteration env p w).2
      = w_sent (claim_and_send env p risk (mkWorld (validated_db env p (w_db w)) (w_broker w) (w_sent w))).2.
Proof.
  unfold submit_iteration, validated_db. rewrite on_db_eq, risk_check_db.
  destruct (risk_check _ _ _ _).1 as [risk|e] eqn:Hr; [|done].
  unfold rejected. destruct (approved risk) eqn:Ha; cbn [negb]; [|by rewrite reject_sent].
  set (d0 := assembled_db env p (w_db w)). set (w0 := mkWorld d0 (w_broker w) (w_sent w)).
  assert ((match e_validate_plan_exit env with None => (Ok None, w0) | Some f => on_db f w0 end).2
    = mkWorld (match e_validate_plan_exit env with None => d0 | Some f => (f d0).2 end)
        (w_broker w) (w_sent w)) as Hv.
  { destruct (e_validate_plan_exit env); [by rewrite on_db_eq|done]. }
  destruct (match e_validate_plan_exit env with None => _ | Some _ => _ end) as [[[err|]|e] w1];
    cbn [snd] in Hv; subst w1; [by rewrite reject_sent| |done].
  destruct (e_risk_is_current env); [|done]. intros _. exists risk. split_and!; try done.
  by destruct (claim_and_send _ _ _ _) as [[]].
Qed.

Lemma is_tripped_lookup sc d :
  is_tripped sc d = true ↔ ∃ r, db_breakers d !! scope_key sc = Some r ∧ cb_tripped r = true.
Proof. unfold is_tripped. destruct (db_breakers d !! scope_key sc); naive_solver. Qed.

(** The claim keys cover every relevant scope that the check did not report as bypassed. *)
Lemma claim_keys_spec p risk sc :
  sc ∈ relevant_scopes_for_symbol (BrokerModels.o_ticker (pp_request p)) →
  scope_key sc ∉ bypassed_breakers risk → scope_key sc ∈ claim_keys p risk.
Proof.
  intros Hsc Hb. unfold claim_keys. apply list_elem_of_filter. split; [done|].
  apply list_elem_of_fmap. by exists sc.
Qed.

Lemma call_authorised_of_sent env p (w : World B) :
  w_sent (submit_iteration env p w).2 ≠ w_sent w →
  w_sent (submit_iteration env p w).2 = w_sent w ++ [(pp_order_id p, pp_request p)]
  ∧ call_authorised env p (w_db w).
Proof.
  intros Hne. destruct (submit_iteration_sent_inv env p w Hne) as (risk & Hrisk & Happ & Hcur & Heq).
  rewrite claim_and_send_sent in Heq. cbn [w_sent w_db] in Heq. rewrite Heq in Hne |- *.
  destruct (decide _) as [Hcl|]; [|by rewrite app_nil_r in Hne]. split; [done|].
  destruct (claim_submission _ _ _ _ _ _ _ _) as [r d'] eqn:Hclaim. cbn [fst] in Hcl. subst r.
  apply claim_submission_true_inv in Hclaim as (o & Ho & Hst & Hp & Hk & _ & _).
  unfold risk_check in Hrisk.
  destruct (e_assemble env _ _ _) as [assembled d0] eqn:Has. cbn [fst] in Hrisk.
  apply outcome_bind_Ok in Hrisk as (snapshot & Hs & Hch). subst assembled.
  split; [done|]. exists snapshot, risk, o. split_and!; try done.
  - by rewrite Has.
  - by apply (check_admissible_iff _ _ _ risk).
  - by apply has_status_true.
  - destruct (db_proposals (validated_db env p (w_db w)) !! pp_order_id p); [|done]. unfold is_expired. by apply Z.leb_gt.
  - intros sc Hsc (r & Hr & Ht)%is_tripped_lookup.
    destruct (decide (scope_key sc ∈ bypassed_breakers risk)) as [Hby|Hby].
    + destruct (check_bypass_keys _ _ _ _ _ Hch Hby) as (Hro & _ & Hkind). split; [done|]. by apply Hkind.
    + rewrite (Hk (scope_key sc) r) in Ht; [done|by apply claim_keys_spec|done].
Qed.

(** Claim C6.  A hold of the submission barrier makes at most one broker call, for the
    prepared order, and only when: the snapshot assembled in that hold passed the risk check
    and no writer announced itself since; the stored order is approved and its proposal not
    expired at claim time; and every tripped breaker relevant to the symbol is one the check
    lets a proven strictly reduce-only order bypass. *)
Theorem broker_call_authorised env p (w : World B) :
  w_sent (submit_iteration env p w).2 = w_sent w
  ∨ w_sent (submit_iteration env p w).2 = w_sent w ++ [(pp_order_id p, pp_request p)]
    ∧ call_authorised env p (w_db w).
Proof.
  destruct (decide (w_sent (submit_iteration env p w).2 = w_sent w)) as [?|Hne]; [by left|right].
  by apply call_authorised_of_sent.
Qed.

(** ** The loop returns *)

Lemma submit_iteration_settles env p (w : World B) :
  e_risk_is_current env = true → (submit_iteration env p w).1 ≠ Ok None.
Proof.
  intros Hc. unfold submit_iteration. destruct (on_db _ w) as [[risk|e] w0]; [|done].
  assert (∀ rs ts (w : World B), (reject p rs ts w).1 ≠ Ok None) as Hrej.
  { intros rs ts w1. unfold reject. by destruct (on_db _ w1) as [[]]. }
  destruct (rejected risk); [apply Hrej|].
  destruct (match e_validate_plan_exit env with None => _ | Some _ => _ end) as [[[err|]|e] w1];
    [apply Hrej| |done].
  rewrite Hc. by destruct (claim_and_send _ _ _ _) as [[]].
Qed.

Lemma submit_loop_returns envs p : ∀ w : World B,
  Exists (λ env, e_risk_is_current env = true) envs → (submit_loop envs p w).1 ≠ None.
Proof.
  induction envs as [|env envs IH]; intros w Hex; [by apply Exists_nil in Hex|].
  simpl. destruct (submit_iteration env p w) as [[[r|]|e] w'] eqn:E; try done.
  apply Exists_cons in Hex as [Hc|Hex]; [|by apply IH].
  apply (submit_iteration_settles env p w) in Hc. rewrite E in Hc. done.
Qed.

(** Submission returns: as soon as one hold of the barrier is not invalidated by
    an announced writer, [submit] produces a result or an exception, whatever the broker, the
    snapshot service and the callbacks do. *)
Theorem submit_returns order_id actor reason rq now envs (w : World B) :
  Exists (λ env, e_risk_is_current env = true) envs →
  ∃ r, (submit order_id actor reason rq now envs w).1 = Some r.
Proof.
  intros Hex. unfold submit. destruct (on_db _ w) as [[[r|p]|e] w']; [by eexists| |by eexists].
  pose proof (submit_loop_returns envs p w' Hex). destruct (submit_loop envs p w') as [[r|] ?]; [by eexists|done].
Qed.

End Safety.
