(* ===== verification/OrderSystem.v ===== *)
(** The order system as a whole: any interleaving of approvals, repository calls, breaker
    operations, other components and submissions.

    A submission thread that has prepared its request stays in [pending] and may enter the
    barrier any number of times; a barrier hold is one step (see [Barrier] for why nothing
    interleaves with it).  [SOther] stands for every component not modelled here; all it is
    assumed to respect is that stored orders move forward. *)

From S2P Require Import Prelude PyDecimal Assets BrokerModels Breakers RiskRules RiskEngine.
From S2P Require Import Database Lifecycle BreakerStore OrderRepository RepositoryLogic.
From S2P Require Import RepositoryProofs Approval Submission SubmissionProofs.
From Stdlib Require Import Lia.
Local Open Scope Z_scope.

(** Existing orders move forward; new ones may appear. *)
Definition orders_forward (d d' : Db) : Prop :=
  ∀ id o, db_orders d !! id = Some o → ∃ o', db_orders d' !! id = Some o' ∧ order_evolves o o'.

#[export] Instance orders_forward_preorder : PreOrder orders_forward.
Proof.
  split.
  - intros d id o Ho. by exists o.
  - intros x y z H1 H2 id o Ho. destruct (H1 id o Ho) as (o1 & Ho1 & E1).
    destruct (H2 id o1 Ho1) as (o2 & Ho2 & E2). exists o2. split; [done|by etrans].
Qed.

Lemma evolves_forward d d' : evolves d d' → orders_forward d d'.
Proof.
  intros [Ho _ _ _ _ _ _ _] id o Hid. specialize (Ho id). rewrite Hid in Ho.
  destruct (db_orders d' !! id) as [o'|]; [eauto|done].
Qed.

Lemma same_orders_forward d d' : db_orders d' = db_orders d → orders_forward d d'.
Proof. intros He id o Ho. rewrite He. by exists o. Qed.

Section System.
Context `{Digest} `{Parsers} {B : Type} `{!Broker B}.

Record State : Type := mkState { st_world : World B; st_pending : list Prepared }.

(** The snapshot service and the callbacks of a hold respect the state machine. *)
Definition env_ok (env : Env) : Prop :=
  (∀ ticker id d, orders_forward d (e_assemble env ticker id d).2)
  ∧ (∀ f, e_validate_plan_exit env = Some f → ∀ d, orders_forward d (f d).2)
  ∧ (∀ f, e_reconcile_immediate_fill env = Some f → ∀ q d, orders_forward d (f q d).2).

Definition set_db (w : World B) (d : Db) : World B := mkWorld d (w_broker w) (w_sent w).

Inductive sys_step : State → State → Prop :=
| SRepo op w ps : repo_op_ok op → sys_step (mkState w ps) (mkState (set_db w (run_repo_op (w_db w) op)) ps)
| SBreaker op w ps : sys_step (mkState w ps) (mkState (set_db w (run_breaker_op op (w_db w))) ps)
| SApprove c latency expired w ps :
    sys_step (mkState w ps) (mkState (set_db w (approve_act c latency expired (w_db w)).2) ps)
| SOther d' w ps : orders_forward (w_db w) d' → sys_step (mkState w ps) (mkState (set_db w d') ps)
| SPrepare order_id actor reason rq now w ps p d' :
    submit_prepare order_id actor reason rq now (w_db w) = (Ok (inr p), d') →
    sys_step (mkState w ps) (mkState (set_db w d') (p :: ps))
| SPrepareEnd order_id actor reason rq now w ps :
    sys_step (mkState w ps) (mkState (set_db w (submit_prepare order_id actor reason rq now (w_db w)).2) ps)
| SHold env p w ps :
    env_ok env → p ∈ ps → sys_step (mkState w ps) (mkState (submit_iteration env p w).2 ps).

(** ** Every step moves orders forward *)

Lemma repo_op_forward op d : repo_op_ok op → orders_forward d (run_repo_op d op).
Proof. intros Hok. apply evolves_forward. by apply (pg_evolves []), run_repo_op_progress. Qed.

Lemma breaker_op_forward op d : orders_forward d (run_breaker_op op d).
Proof.
  apply same_orders_forward. destruct op as [sc r a q n ar|sc a r hl g q n]; simpl.
  - unfold breaker_trip, with_session, mbind, tx_bind. destruct (trip_inputs_ok r a q ar) eqn:Hin.
    + by rewrite trip_in_session_ok.
    + by destruct (trip_in_session_bad sc r a q n ar (mkSession d d) Hin) as (m & ->).
  - pose proof (breaker_reset_orders sc a r hl g q n d) as Ho. exact Ho.
Qed.

Lemma approve_act_forward c latency expired d : orders_forward d (approve_act c latency expired d).2.
Proof.
  apply evolves_forward. unfold approve_act. destruct expired.
  - pose proof (pg_evolves [] _ _ (expire_if_eligible_progress (ac_order_id c) (ac_now c)
      (ac_actor c) (ac_reason c) (ac_request_id c) d)) as He.
    by destruct (expire_if_eligible _ _ _ _ _ d) as [[[[]|]|] d'].
  - pose proof (pg_evolves [] _ _ (record_approval_progress (ac_order_id c)
      (ac_actor c) (ac_reason c) (ac_request_id c) (ac_now c) latency d)) as He.
    by destruct (record_approval _ _ _ _ _ _ d) as [[[]|] d'].
Qed.

Lemma submit_prepare_forward order_id actor reason rq now d :
  orders_forward d (submit_prepare order_id actor reason rq now d).2.
Proof.
  unfold submit_prepare. destruct (_ || _); [done|]. destruct (db_orders d !! order_id) as [o|]; [|done].
  destruct (order_status_of (o_status o)) as [cur|]; [|done]. destruct (negb _); [done|].
  destruct (order_to_request o) as [req|]; [|done].
  destruct (match db_proposals d !! order_id with None => false | Some p => is_expired p now end).
  - pose proof (pg_evolves [] _ _ (expire_approved_progress order_id now (strip actor) (strip reason) (strip rq) d))
      as He. apply evolves_forward in He. by destruct (expire_approved _ _ _ _ _ d) as [[] d'].
  - destruct (bool_decide _); [|done]. by destruct (bracket_prices o).
Qed.

Lemma record_reply_forward env p reply (w : World B) :
  env_ok env → orders_forward (w_db w) (w_db (record_reply env p reply w).2).
Proof.
  intros (_ & _ & Hrec). unfold record_reply.
  assert (∀ st bid code now q, orders_forward (w_db w) (record_submission_result (pp_order_id p) st bid code now q
            (pp_actor p) (pp_reason p) (pp_request_id p) (w_db w)).2) as Hres.
  { intros. apply evolves_forward, (pg_evolves []), record_submission_result_progress. }
  assert (∀ r now bid code, orders_forward (w_db w) (record_invalid_broker_data (pp_order_id p) r now bid code
            (pp_actor p) (pp_reason p) (pp_request_id p) (w_db w)).2) as Hinv.
  { intros. apply evolves_forward, (pg_evolves []), record_invalid_broker_data_progress. }
  destruct reply as [r|code|bid|]; rewrite ?on_db_eq.
  - destruct (order_result_identity_error _ _ _); rewrite ?on_db_eq.
    + unfold record_invalid_broker_identity.
      match goal with |- context [record_invalid_broker_data ?a ?b ?c ?e ?f _ _ _ _] => specialize (Hinv b c e f) end.
      by destruct (record_invalid_broker_data _ _ _ _ _ _ _ _ _) as [[]].
    + match goal with |- context [record_submission_result _ ?a ?b ?c ?e ?f _ _ _ _] => specialize (Hres a b c e f) end.
      destruct (record_submission_result _ _ _ _ _ _ _ _ _ _) as [[st|e] d']; [|done]. simpl in Hres |- *.
      destruct (e_reconcile_immediate_fill env) as [f|]; [|done].
      destruct (bool_decide (_ ∈ [PARTIALLY_FILLED; FILLED])); [|done]. rewrite on_db_eq. simpl.
      specialize (Hrec f eq_refl (r_filled_qty r) d').
      destruct (f _ _) as [[[]|] ?]; simpl in *; by etrans.
  - match goal with |- context [record_submission_result _ ?a ?b ?c ?e ?f _ _ _ _] => specialize (Hres a b c e f) end.
    by destruct (record_submission_result _ _ _ _ _ _ _ _ _ _) as [[]].
  - match goal with |- context [record_invalid_broker_data ?a ?b ?c ?e ?f _ _ _ _] => specialize (Hinv b c e f) end.
    by destruct (record_invalid_broker_data _ _ _ _ _ _ _ _ _) as [[]].
  - match goal with |- context [record_submission_result _ ?a ?b ?c ?e ?f _ _ _ _] => specialize (Hres a b c e f) end.
    by destruct (record_submission_result _ _ _ _ _ _ _ _ _ _) as [[]].
Qed.

Lemma reject_forward p reasons trips (w : World B) : orders_forward (w_db w) (w_db (reject p reasons trips w).2).
Proof.
  unfold reject. rewrite on_db_eq.
  pose proof (pg_evolves [] _ _ (record_pre_submission_rejection_progress (pp_order_id p) reasons (pp_now p) trips
    (pp_actor p) (pp_reason p) (pp_request_id p) (w_db w))) as He. apply evolves_forward in He.
  by destruct (record_pre_submission_rejection _ _ _ _ _ _ _ _) as [[]].
Qed.

(** A granted claim leaves the order past the point of sending. *)
Definition settled (d : Db) (id : Z) : Prop :=
  ∃ o s, db_orders d !! id = Some o ∧ o_status o = order_status_value s ∧ unsent s = false.

Lemma settled_forward d d' id : orders_forward d d' → settled d id → settled d' id.
Proof.
  intros Hf (o & s & Ho & Hs & Hu). destruct (Hf id o Ho) as (o' & Ho' & He).
  destruct (status_path_unsent _ _ (oe_status _ _ He)) as (t & Ht & Hut); [by exists s|].
  by exists o', t.
Qed.

Lemma claim_and_send_forward env p risk (w : World B) :
  env_ok env →
  orders_forward (w_db w) (w_db (claim_and_send env p risk w).2)
  ∧ (w_sent (claim_and_send env p risk w).2 ≠ w_sent w →
     ~ settled (w_db w) (pp_order_id p) ∧ settled (w_db (claim_and_send env p risk w).2) (pp_order_id p)).
Proof.
  intros Hok. pose proof (claim_and_send_sent env p risk w) as Hsent. cbv zeta in Hsent. rewrite Hsent. clear Hsent.
  unfold claim_and_send. rewrite on_db_eq.
  pose proof (pg_evolves [] _ _ (claim_submission_progress (pp_order_id p) (e_claim_now env) (claim_keys p risk)
    (breaker_trips risk) (pp_actor p) (pp_reason p) (pp_request_id p) (w_db w))) as Hcf. apply evolves_forward in Hcf.
  destruct (claim_submission _ _ _ _ _ _ _ _) as [[[]|e] d1] eqn:Hcl; cbn [fst snd] in *.
  - rewrite decide_True by done.
    destruct (send p (mkWorld d1 (w_broker w) (w_sent w))) as [reply w2] eqn:Hs.
    destruct (send_sent p (mkWorld d1 (w_broker w) (w_sent w))) as [Hdb _]. rewrite Hs in Hdb. cbn in Hdb.
    pose proof (record_reply_forward env p reply w2 Hok) as Hrf. rewrite Hdb in Hrf.
    split; [by etrans|]. intros _.
    apply claim_submission_true_inv in Hcl as (o & Ho & Hst & _ & _ & Hd1 & _). split.
    + intros (o1 & s1 & Ho1 & Hs1 & Hu1). rewrite Ho in Ho1. injection Ho1 as <-.
      apply has_status_true in Hst. rewrite Hs1 in Hst. apply (inj order_status_value) in Hst. by subst.
    + eapply settled_forward; [exact Hrf|]. exists (claimed_row (e_claim_now env) o), SUBMITTING.
      by rewrite Hd1, lookup_insert_eq.
  - rewrite decide_False, app_nil_r by done. split; [|done]. rewrite on_db_eq. cbn [w_db].
    pose proof (pg_evolves [] _ _ (expire_approved_progress (pp_order_id p) (e_claim_now env)
      (pp_actor p) (pp_reason p) (pp_request_id p) d1)) as Hef. apply evolves_forward in Hef.
    destruct (expire_approved _ _ _ _ _ _) as [[[]|e] d2]; cbn [fst snd w_db] in *; try (by etrans).
    destruct (db_orders d2 !! pp_order_id p); by etrans.
  - rewrite decide_False, app_nil_r by done. by split.
Qed.

Lemma submit_iteration_forward env p (w : World B) :
  env_ok env →
  orders_forward (w_db w) (w_db (submit_iteration env p w).2)
  ∧ (w_sent (submit_iteration env p w).2 ≠ w_sent w →
     ~ settled (w_db w) (pp_order_id p) ∧ settled (w_db (submit_iteration env p w).2) (pp_order_id p)).
Proof.
  intros Hok. unfold submit_iteration. rewrite on_db_eq, risk_check_db.
  set (d0 := assembled_db env p (w_db w)).
  assert (orders_forward (w_db w) d0) as Hf0 by apply Hok.
  destruct (risk_check _ _ _ _).1 as [risk|e]; [|done].
  destruct (rejected risk).
  { split; [etrans; [exact Hf0|apply (reject_forward p _ _ (set_db w d0))]|]. by rewrite reject_sent. }
  assert (∃ d1 r, match e_validate_plan_exit env with None => (Ok None, set_db w d0) | Some f => on_db f (set_db w d0) end
          = (r, set_db w d1) ∧ orders_forward (w_db w) d1) as (d1 & r & Hv & Hf1).
  { destruct (e_validate_plan_exit env) as [f|] eqn:Ef.
    - rewrite on_db_eq. exists (f d0).2, (f d0).1. split; [done|]. etrans; [exact Hf0|]. by apply Hok.
    - by exists d0, (Ok None). }
  unfold set_db in Hv at 1 2. rewrite Hv. clear Hv.
  destruct r as [[err|]|e].
  - split; [etrans; [exact Hf1|apply (reject_forward p _ _ (set_db w d1))]|]. by rewrite reject_sent.
  - destruct (e_risk_is_current env); [|done].
    destruct (claim_and_send_forward env p risk (set_db w d1) Hok) as [Hf2 Hs2].
    destruct (claim_and_send env p risk (set_db w d1)) as [r w2]. cbn [snd fst w_sent w_db set_db] in *.
    assert ((match r with Ok r0 => (Ok (Some r0), w2) | Raise e => (Raise e, w2) end).2 = w2) as -> by (by destruct r).
    split; [by etrans|]. intros Hne. destruct (Hs2 Hne) as [Hn Hy]. split; [|done].
    intros Hset. apply Hn. by eapply settled_forward.
  - by split.
Qed.

(** ** The system invariant *)

(** The request of a thread is the one its stored order spells out. *)
Definition request_stored (d : Db) (id : Z) (req : OrderRequest) : Prop :=
  ∃ o, db_orders d !! id = Some o ∧ order_to_request o = Ok req.

Lemma order_to_request_evolves o o' : order_evolves o o' → order_to_request o' = order_to_request o.
Proof.
  intros [_ Hk Ht Hp _ _ _]. injection Ht as H1 H2 H3 H4 H5 H6. injection Hp as H7 H8.
  unfold order_to_request, stored_time_in_force. by rewrite Hk, H1, H2, H3, H4, H5, H6, H7, H8.
Qed.

Lemma request_stored_forward d d' id req :
  orders_forward d d' → request_stored d id req → request_stored d' id req.
Proof.
  intros Hf (o & Ho & Hr). destruct (Hf id o Ho) as (o' & Ho' & He). exists o'. split; [done|].
  by rewrite (order_to_request_evolves o o').
Qed.

Record sys_inv (st : State) : Prop := {
  si_once : NoDup (w_sent (st_world st)).*1;
  si_sent : ∀ id req, (id, req) ∈ w_sent (st_world st) →
              settled (w_db (st_world st)) id ∧ request_stored (w_db (st_world st)) id req;
  si_pending : ∀ p, p ∈ st_pending st → request_stored (w_db (st_world st)) (pp_order_id p) (pp_request p);
}.

Lemma sys_inv_forward w d' ps :
  orders_forward (w_db w) d' → sys_inv (mkState w ps) → sys_inv (mkState (set_db w d') ps).
Proof.
  intros Hf [Ho Hs Hp]. split; [done| |].
  - intros id req Hin. destruct (Hs id req Hin). split; [by eapply settled_forward|by eapply request_stored_forward].
  - intros p Hin. eapply request_stored_forward; [done|by apply Hp].
Qed.

Lemma submit_prepare_request order_id actor reason rq now d p d' :
  submit_prepare order_id actor reason rq now d = (Ok (inr p), d') →
  request_stored d (pp_order_id p) (pp_request p).
Proof.
  unfold submit_prepare. destruct (_ || _); [done|]. destruct (db_orders d !! order_id) as [o|] eqn:Ho; [|done].
  destruct (order_status_of (o_status o)) as [cur|]; [|done]. destruct (negb _); [done|].
  destruct (order_to_request o) as [req|] eqn:Hreq; [|done].
  destruct (match db_proposals d !! order_id with None => false | Some p => is_expired p now end).
  - by destruct (expire_approved _ _ _ _ _ d) as [[] ?].
  - destruct (bool_decide _); [destruct (bracket_prices o); [|done]|]; intros [= <- <-]; by exists o.
Qed.

Lemma sys_step_inv st st' : sys_step st st' → sys_inv st → sys_inv st'.
Proof.
  destruct 1 as [op w ps Hop|op w ps|c l x w ps|d' w ps Hf|id a r q n w ps p d' Hprep|id a r q n w ps|env p w ps Hok Hin];
    intros Hinv.
  - by apply sys_inv_forward; [apply repo_op_forward|].
  - by apply sys_inv_forward; [apply breaker_op_forward|].
  - by apply sys_inv_forward; [apply approve_act_forward|].
  - by apply sys_inv_forward.
  - pose proof (submit_prepare_forward id a r q n (w_db w)) as Hf. rewrite Hprep in Hf.
    destruct (sys_inv_forward _ _ _ Hf Hinv) as [Ho Hs Hp]. split; [done..|].
    intros p' [->|Hp']%elem_of_cons; [|by apply Hp].
    eapply request_stored_forward; [exact Hf|]. by eapply submit_prepare_request.
  - by apply sys_inv_forward; [apply submit_prepare_forward|].
  - destruct Hinv as [Ho Hs Hp]. cbn [st_world st_pending] in *.
    destruct (submit_iteration_forward env p w Hok) as [Hf Hsend].
    assert (∀ id req, (id, req) ∈ w_sent w → settled (w_db (submit_iteration env p w).2) id
              ∧ request_stored (w_db (submit_iteration env p w).2) id req) as Hold.
    { intros id req Hid. destruct (Hs id req Hid).
      split; [by eapply settled_forward|by eapply request_stored_forward]. }
    assert (∀ p', p' ∈ ps → request_stored (w_db (submit_iteration env p w).2) (pp_order_id p') (pp_request p')) as Hpend.
    { intros p' Hp'. eapply request_stored_forward; [exact Hf|by apply Hp]. }
    destruct (decide (w_sent (submit_iteration env p w).2 = w_sent w)) as [Heq|Hne].
    + split; cbn [st_world st_pending]; rewrite ?Heq; done.
    + destruct (Hsend Hne) as [Hns Hset]. destruct (call_authorised_of_sent env p w Hne) as [Happ _].
      split; cbn [st_world st_pending]; rewrite ?Happ; [|..|done].
      * rewrite fmap_app. apply NoDup_app. split_and!; [done| |apply NoDup_singleton].
        intros id (q & -> & Hq)%list_elem_of_fmap Hx. apply list_elem_of_singleton in Hx. destruct q as [id req].
        simpl in Hx. subst id. apply Hns. by destruct (Hs _ _ Hq).
      * intros id req [Hid|Hid]%elem_of_app; [by apply Hold|].
        apply list_elem_of_singleton in Hid as [= -> ->]. split; [done|by apply Hpend].
Qed.

(** Claim C2.  In every interleaving of approvals, repository and breaker operations, other
    components that respect the order state machine, and submission attempts (each prepared
    thread may enter the barrier any number of times, against any broker), no order is handed
    to the broker twice, and every request that reached the broker is exactly the one its
    stored row spells out. *)
Theorem at_most_once_submission d (b : B) st :
  rtc sys_step (mkState (mkWorld d b []) []) st →
  NoDup (w_sent (st_world st)).*1
  ∧ ∀ id req, (id, req) ∈ w_sent (st_world st) →
      ∃ o, db_orders (w_db (st_world st)) !! id = Some o ∧ order_to_request o = Ok req
           ∧ o_status o ≠ order_status_value PROPOSED ∧ o_status o ≠ order_status_value APPROVAL_RECORDED.
Proof.
  intros Hreach. assert (sys_inv st) as [Hnd Hs _].
  { remember (mkState (mkWorld d b []) []) as st0. assert (sys_inv st0) as Hinv.
    { subst. split; simpl; [constructor|by intros ? ? ?%elem_of_nil|by intros ? ?%elem_of_nil]. }
    clear Heqst0. induction Hreach; [done|]. apply IHHreach. by eapply sys_step_inv. }
  split; [done|]. intros id req Hin. destruct (Hs id req Hin) as [(o & s & Ho & Hst & Hu) (o' & Ho' & Hr)].
  rewrite Ho in Ho'. injection Ho' as <-. exists o. rewrite Hst.
  split_and!; try done; intros ->%(inj order_status_value); done.
Qed.

End System.

(** ** A concrete run *)

#[local] Instance demo_digest : Digest := λ s, s.

(** A parser for the payloads of the demo order. *)
#[local] Instance demo_parsers : Parsers := {
  json_loads := λ s, if bool_decide (s = "{}") then Some (JObj []) else None;
  decimal_of_json := λ _, None;
}.

Definition demo_env (current : bool) : Env :=
  mkEnv (λ _ _ d, (Ok (demo_snapshot ∅ dzero), d)) (λ _, demo_config) None current 300 301 None.

Definition demo_mock : MockBroker := mkMockBroker [] [] 1 [] 301.

Definition demo_world : World MockBroker := mkWorld (demo_db APPROVAL_RECORDED 0) demo_mock [].

(** A stale hold is retried, the next one sends the order and stores the broker's answer. *)
Example demo_submission :
  let r := submit 1 "alice" "send" "r2" 300 [demo_env false; demo_env true] demo_world in
  r.1 = Some (Ok (mkSubmissionResult 1 SUBMITTED (Some "mock-1") []))
  ∧ (w_sent r.2).*1 = [1]
  ∧ option_map o_status (db_orders (w_db r.2) !! 1) = Some (order_status_value SUBMITTED).
Proof. vm_compute. done. Qed.

Lemma submit_returns_witness :
  ∃ r, (submit 1 "alice" "send" "r2" 300 [demo_env false; demo_env true] demo_world).1 = Some r.
Proof. apply submit_returns. apply Exists_cons_tl, Exists_cons_hd. reflexivity. Defined.

Definition demo_prepared : Prepared :=
  mkPrepared 1 (mkOrderRequest "AAPL" SELL MARKET "key-1" (Some (Fin 5 0)) None None DAY) None 300
    "alice" "send" "r2".

Lemma at_most_once_submission_witness :
  let st := mkState (submit_iteration (demo_env true) demo_prepared demo_world).2 [demo_prepared] in
  (w_sent (st_world st)).*1 = [1] ∧ NoDup (w_sent (st_world st)).*1.
Proof.
  split; [vm_compute; reflexivity|].
  apply (at_most_once_submission (demo_db APPROVAL_RECORDED 0) demo_mock).
  eapply rtc_l; [eapply (SPrepare 1 "alice" "send" "r2" 300); vm_compute; reflexivity|].
  apply rtc_once. apply SHold; [split; [done|split; intros f Hf; discriminate Hf]|apply list_elem_of_here].
Defined.
