(* ===== verification/Barrier.v ===== *)
(** The submission barrier: [risk/submission_barrier.py].

    Three advisory file locks order risk writers and submissions across processes.  A thread
    is its program counter in [hold_writer], [hold_submission] or [claim_if_current]; which
    locks it holds is a function of that counter, and [flock] grants a request when no other
    descriptor holds a conflicting lock.  The committed database is abstracted to its number
    of commits, and a broker call is logged with the commit number its snapshot was read at
    and the one it was claimed at.  A crash releases every lock a thread holds. *)

From S2P Require Import Prelude.
From Stdlib Require Import Lia.

Inductive pc : Type :=
| Idle
(* [hold_writer] *)
| WGate                (* gate shared *)
| WIntent              (* gate and intent shared: announced *)
| WMain                (* and main exclusive: writing *)
| WCommitted           (* commit done, locks still held *)
| WRelIntent           (* main released *)
| WRelGate             (* main and intent released *)
(* [hold_submission] *)
| SProbe               (* main exclusive, about to probe the intent lock *)
| SProbing             (* main and intent exclusive, inside the probe *)
| SHold                (* main exclusive, intent found clear *)
| SEval (v : nat)      (* snapshot read at commit [v], risk evaluated *)
| SWait                (* about to wait for announced writers *)
| SWaitHeld            (* gate exclusive *)
(* [claim_if_current] *)
| SClaim (v : nat)     (* main and intent exclusive *)
| SSent                (* claimed and sent, outcome not yet stored *)
| SDone                (* intent released, main still held *).

#[export] Instance pc_eq_dec : EqDecision pc.
Proof. solve_decision. Defined.

Definition holds_main (p : pc) : bool :=
  match p with
  | WMain | WCommitted | SProbe | SProbing | SHold | SEval _ | SClaim _ | SSent | SDone => true
  | _ => false
  end.

Definition holds_intent_ex (p : pc) : bool :=
  match p with SProbing | SClaim _ | SSent => true | _ => false end.
Definition holds_intent_sh (p : pc) : bool :=
  match p with WIntent | WMain | WCommitted | WRelIntent => true | _ => false end.

Definition holds_gate_ex (p : pc) : bool := match p with SWaitHeld => true | _ => false end.
Definition holds_gate_sh (p : pc) : bool :=
  match p with WGate | WIntent | WMain | WCommitted | WRelIntent | WRelGate => true | _ => false end.

Record bstate : Type := mkB {
  threads : list pc;
  commits : nat;
  calls : list (nat * nat);
}.

(** No thread holds the lock in a conflicting mode. *)
Definition main_free (s : bstate) : Prop := Forall (λ p, holds_main p = false) (threads s).
Definition intent_free_sh (s : bstate) : Prop := Forall (λ p, holds_intent_ex p = false) (threads s).
Definition intent_free_ex (s : bstate) : Prop :=
  Forall (λ p, holds_intent_ex p = false ∧ holds_intent_sh p = false) (threads s).
Definition gate_free_sh (s : bstate) : Prop := Forall (λ p, holds_gate_ex p = false) (threads s).
Definition gate_free_ex (s : bstate) : Prop :=
  Forall (λ p, holds_gate_ex p = false ∧ holds_gate_sh p = false) (threads s).

(** One step of a thread at [p]: its next counter, and whether it commits or calls.  Before
    its snapshot a submission may commit the account's high-water mark ([t_mark]). *)
Inductive effect : Type := NoEffect | Commit | CommitAndCall (snapshot : nat).

Inductive thread_step (s : bstate) : pc → pc → effect → Prop :=
| t_gate : gate_free_sh s → thread_step s Idle WGate NoEffect
| t_intent : intent_free_sh s → thread_step s WGate WIntent NoEffect
| t_main : main_free s → thread_step s WIntent WMain NoEffect
| t_write : thread_step s WMain WMain Commit
| t_commit : thread_step s WMain WCommitted NoEffect
| t_unmain : thread_step s WCommitted WRelIntent NoEffect
| t_unintent : thread_step s WRelIntent WRelGate NoEffect
| t_ungate : thread_step s WRelGate Idle NoEffect
| t_submit : main_free s → thread_step s Idle SProbe NoEffect
| t_probe : intent_free_ex s → thread_step s SProbe SProbing NoEffect
| t_busy : ¬ intent_free_ex s → thread_step s SProbe SWait NoEffect
| t_clear : thread_step s SProbing SHold NoEffect
| t_mark : thread_step s SHold SHold Commit
| t_snapshot : thread_step s SHold (SEval (commits s)) NoEffect
| t_failed : thread_step s SHold SDone NoEffect
| t_reject v : thread_step s (SEval v) SDone Commit
| t_stale v : ¬ intent_free_ex s → thread_step s (SEval v) SWait NoEffect
| t_claim v : intent_free_ex s → thread_step s (SEval v) (SClaim v) NoEffect
| t_raised v : thread_step s (SEval v) SDone NoEffect
| t_refused v : thread_step s (SClaim v) SDone NoEffect
| t_expired v : thread_step s (SClaim v) SDone Commit
| t_send v : thread_step s (SClaim v) SSent (CommitAndCall v)
| t_store : thread_step s SSent SDone Commit
| t_release : thread_step s SDone Idle NoEffect
| t_wait : gate_free_ex s → thread_step s SWait SWaitHeld NoEffect
| t_waited : thread_step s SWaitHeld Idle NoEffect.

Definition apply_effect (s : bstate) (e : effect) (ts : list pc) : bstate :=
  match e with
  | NoEffect => mkB ts (commits s) (calls s)
  | Commit => mkB ts (S (commits s)) (calls s)
  | CommitAndCall v => mkB ts (S (commits s)) (calls s ++ [(v, commits s)])
  end.

Inductive bstep (s : bstate) : bstate → Prop :=
| b_thread i p p' e : threads s !! i = Some p → thread_step s p p' e →
    bstep s (apply_effect s e (<[i := p']> (threads s)))
| b_crash i p : threads s !! i = Some p → bstep s (mkB (<[i := Idle]> (threads s)) (commits s) (calls s)).

Definition initial (n : nat) : bstate := mkB (replicate n Idle) 0 [].

(** * Mutual exclusion and freshness *)

(** At most one thread holds the main lock, and an exclusive intent holder excludes every
    announced writer. *)
Record barrier_inv (s : bstate) : Prop := {
  bi_main : ∀ i j p q, threads s !! i = Some p → threads s !! j = Some q →
              holds_main p = true → holds_main q = true → i = j;
  bi_intent : ∀ i j p q, threads s !! i = Some p → threads s !! j = Some q →
                holds_intent_ex p = true → holds_intent_sh q = false;
  bi_fresh : ∀ i p v, threads s !! i = Some p → p = SEval v ∨ p = SClaim v → v = commits s;
  bi_calls : Forall (λ c, c.1 = c.2) (calls s);
}.

Lemma Forall_lookup_thread (P : pc → Prop) s j q : Forall P (threads s) → threads s !! j = Some q → P q.
Proof. intros Hf Hj. eapply Forall_lookup_1; eauto. Qed.

(** Replacing one counter. *)
Lemma lookup_threads (ts : list pc) i p p' j q :
  ts !! i = Some p → <[i := p']> ts !! j = Some q → (j = i ∧ q = p') ∨ (j ≠ i ∧ ts !! j = Some q).
Proof.
  intros Hi Hj. destruct (decide (j = i)) as [->|Hne].
  - rewrite list_lookup_insert_eq in Hj by (by eapply lookup_lt_Some). left. naive_solver.
  - rewrite list_lookup_insert_ne in Hj by done. by right.
Qed.

(** A thread acquires a lock only when it is free: the two exclusion clauses survive any
    change of one counter that respects the lock requests. *)
Lemma exclusion_update s i p p' :
  barrier_inv s → threads s !! i = Some p →
  (holds_main p' = true → holds_main p = true ∨ main_free s) →
  (holds_intent_ex p' = true → holds_intent_ex p = true ∨ intent_free_ex s) →
  (holds_intent_sh p' = true → holds_intent_sh p = true ∨ intent_free_sh s) →
  (holds_intent_ex p' = true → holds_intent_sh p' = false) →
  (∀ j k a b, <[i := p']> (threads s) !! j = Some a → <[i := p']> (threads s) !! k = Some b →
     holds_main a = true → holds_main b = true → j = k)
  ∧ (∀ j k a b, <[i := p']> (threads s) !! j = Some a → <[i := p']> (threads s) !! k = Some b →
     holds_intent_ex a = true → holds_intent_sh b = false).
Proof.
  intros [Hm Hx _ _] Hi Gm Gx Gs Gself. split; intros j k a b Hj Hk Ha; [intros Hb|].
  - destruct (lookup_threads _ _ _ _ _ _ Hi Hj) as [[-> ->]|[Hji Hj']],
      (lookup_threads _ _ _ _ _ _ Hi Hk) as [[-> ->]|[Hki Hk']]; try done.
    + destruct (Gm Ha) as [Hp|Hfree]; [by apply (Hm i k p b)|].
      rewrite (Forall_lookup_thread _ _ _ _ Hfree Hk') in Hb. done.
    + destruct (Gm Hb) as [Hp|Hfree]; [by apply (Hm j i a p)|].
      rewrite (Forall_lookup_thread _ _ _ _ Hfree Hj') in Ha. done.
    + by apply (Hm j k a b).
  - destruct (lookup_threads _ _ _ _ _ _ Hi Hj) as [[-> ->]|[Hji Hj']],
      (lookup_threads _ _ _ _ _ _ Hi Hk) as [[-> ->]|[Hki Hk']].
    + by apply Gself.
    + destruct (Gx Ha) as [Hp|Hfree]; [by apply (Hx i k p b)|].
      by destruct (Forall_lookup_thread _ _ _ _ Hfree Hk').
    + destruct (holds_intent_sh p') eqn:E; [|done]. destruct (Gs eq_refl) as [Hp|Hfree].
      * rewrite (Hx j i a p) in Hp by done. done.
      * rewrite (Forall_lookup_thread _ _ _ _ Hfree Hj') in Ha. done.
    + by apply (Hx j k a b).
Qed.

(** Only the holder of the main lock commits, so a snapshot held under it stays current. *)
Lemma fresh_update s i p p' e :
  barrier_inv s → threads s !! i = Some p → thread_step s p p' e →
  ∀ j q v, <[i := p']> (threads s) !! j = Some q → q = SEval v ∨ q = SClaim v →
    v = commits (apply_effect s e (<[i := p']> (threads s))).
Proof.
  intros [Hm _ Hf _] Hi Hstep j q v Hj Hq.
  destruct (lookup_threads _ _ _ _ _ _ Hi Hj) as [[-> ->]|[Hne Hj']].
  - inversion Hstep; subst; destruct Hq as [Hq|Hq]; simplify_eq; simpl; try done; by eapply Hf; eauto.
  - assert (v = commits s) as -> by (eapply Hf; eauto).
    assert (holds_main q = true) as Hqm by (by destruct Hq as [->| ->]).
    assert (e = NoEffect ∨ holds_main p = true) as [->|Hpm] by (inversion Hstep; subst; auto); [done|].
    destruct Hne. by apply (Hm j i q p).
Qed.

Lemma bstep_inv s s' : bstep s s' → barrier_inv s → barrier_inv s'.
Proof.
  intros Hstep Hinv. destruct Hstep as [i p p' e Hi Hstep|i p Hi].
  - assert (threads (apply_effect s e (<[i := p']> (threads s))) = <[i := p']> (threads s)) as Hth by (by destruct e).
    destruct (exclusion_update s i p p' Hinv Hi) as [Hm Hx];
      [inversion Hstep; subst; simpl; auto..|].
    split; rewrite ?Hth; [done..| |].
    + by apply (fresh_update s i p p' e).
    + destruct Hinv as [_ _ Hf Hc]. destruct e as [| |v]; simpl; [done..|].
      apply Forall_app. split; [done|]. apply Forall_singleton. simpl.
      inversion Hstep; subst. eapply Hf; [exact Hi|by right].
  - destruct (exclusion_update s i p Idle Hinv Hi) as [Hm Hx]; [done..|].
    destruct Hinv as [_ _ Hf Hc]. split; simpl; [done..| |done].
    intros j q v Hj Hq. destruct (lookup_threads _ _ _ _ _ _ Hi Hj) as [[-> ->]|[_ Hj']]; [naive_solver|eauto].
Qed.

Lemma reachable_inv n s : rtc bstep (initial n) s → barrier_inv s.
Proof.
  intros Hr. assert (barrier_inv (initial n)) as Hi.
  { assert (∀ i p, threads (initial n) !! i = Some p → p = Idle) as Hidle.
    { intros i p Hp. by apply lookup_replicate in Hp as [-> _]. }
    split; simpl; [..|constructor].
    - intros i j p q Hp Hq ?. by rewrite (Hidle i p) in * by done.
    - intros i j p q Hp Hq. by rewrite (Hidle i p) by done.
    - intros i p v Hp. rewrite (Hidle i p) by done. naive_solver. }
  induction Hr as [|x y z Hs _ IH]; [done|]. apply IH. by eapply bstep_inv.
Qed.

(** Claim C14.  With any number of writer and submission threads, in any interleaving and
    with crashes, every broker call is claimed at the very commit its risk snapshot was read
    at: no write is committed in between.  While a submission claims, no other thread is
    inside the main section and no writer has announced itself. *)
Theorem calls_use_current_snapshot n s :
  rtc bstep (initial n) s →
  Forall (λ c, c.1 = c.2) (calls s)
  ∧ ∀ i v, threads s !! i = Some (SClaim v) →
      v = commits s
      ∧ ∀ j q, threads s !! j = Some q → j ≠ i → holds_main q = false ∧ holds_intent_sh q = false.
Proof.
  intros Hr. destruct (reachable_inv n s Hr) as [Hm Hx Hf Hc]. split; [done|]. intros i v Hi. split.
  - eapply Hf; [exact Hi|by right].
  - intros j q Hj Hne. split; [|by apply (Hx i j (SClaim v) q)].
    destruct (holds_main q) eqn:E; [|done]. destruct Hne. by apply (Hm j i q (SClaim v)).
Qed.

(** * No deadlock *)

(** A thread that has started and not returned. *)
Definition busy (p : pc) : bool := negb (bool_decide (p = Idle)).

Definition can_step (s : bstate) (p : pc) : Prop := ∃ p' e, thread_step s p p' e.

#[local] Instance intent_free_ex_dec s : Decision (intent_free_ex s).
Proof. unfold intent_free_ex. apply _. Defined.

(** Inside the main section nothing blocks: the intent lock is only tried. *)
Lemma main_holder_steps s p : holds_main p = true → can_step s p.
Proof.
  unfold can_step. destruct p; try done; intros _; try (by eexists _, _; constructor).
  destruct (decide (intent_free_ex s)); eexists _, _; by constructor.
Qed.

Lemma Forall_dec_ex (f : pc → bool) (ts : list pc) :
  Forall (λ p, f p = false) ts ∨ ∃ i p, ts !! i = Some p ∧ f p = true.
Proof.
  induction ts as [|p ts [IH|(i & q & Hi & Hq)]]; [by left| |right; by exists (S i), q].
  destruct (f p) eqn:E; [right; by exists O, p|left; by constructor].
Qed.

(** A writer past the gate always leads to a step when the main section is empty. *)
Lemma gate_holder_steps s p : main_free s → holds_gate_sh p = true → holds_main p = false → can_step s p.
Proof.
  intros Hm Hg Hn. unfold can_step. destruct p; try done; try (by eexists _, _; constructor).
  eexists _, _. constructor. unfold main_free, intent_free_sh in *.
  eapply Forall_impl; [exact Hm|]. intros q. by destruct q.
Qed.

(** The lock protocol cannot deadlock: in every state in which some thread is
    inside a barrier operation, some such thread can take its next step. *)
Theorem barrier_never_deadlocks s :
  Exists (λ p, busy p = true) (threads s) →
  ∃ i p, threads s !! i = Some p ∧ busy p = true ∧ can_step s p.
Proof.
  intros Hbusy. destruct (Forall_dec_ex holds_main (threads s)) as [Hm|(i & p & Hi & Hp)].
  2: { exists i, p. split_and!; [done|by destruct p|by apply main_holder_steps]. }
  destruct (Forall_dec_ex holds_gate_sh (threads s)) as [Hg|(i & p & Hi & Hp)].
  2: { exists i, p. split_and!; [done|by destruct p|].
       apply gate_holder_steps; [done..|]. by apply (Forall_lookup_thread _ _ _ _ Hm Hi). }
  destruct (Forall_dec_ex holds_gate_ex (threads s)) as [Hx|(i & p & Hi & Hp)].
  2: { exists i, p. split_and!; [done|by destruct p|]. destruct p; try done. eexists _, _. constructor. }
  apply Exists_exists in Hbusy as (p & Hin & Hb). apply list_elem_of_lookup in Hin as [i Hi].
  exists i, p. split_and!; [done..|].
  pose proof (Forall_lookup_thread _ _ _ _ Hm Hi). pose proof (Forall_lookup_thread _ _ _ _ Hg Hi).
  destruct p; try done; try (by eexists _, _; constructor).
  eexists _, _. constructor. unfold gate_free_ex. apply Forall_and. by split.
Qed.

(** ** Concrete runs *)

(** A writer announces itself while a submission evaluates: the submission finds the intent
    lock taken, lets the writer in, and claims on a fresh snapshot. *)
Lemma calls_use_current_snapshot_witness :
  let s := mkB [SClaim 1; Idle] 1 [] in
  Forall (λ c, c.1 = c.2) (calls s)
  ∧ ∀ i v, threads s !! i = Some (SClaim v) →
      v = commits s
      ∧ ∀ j q, threads s !! j = Some q → j ≠ i → holds_main q = false ∧ holds_intent_sh q = false.
Proof.
  apply (calls_use_current_snapshot 2).
  assert (∀ s i p p' e s', threads s !! i = Some p → thread_step s p p' e →
            s' = apply_effect s e (<[i := p']> (threads s)) → bstep s s') as run
    by (intros; subst; econstructor; eauto).
  eapply rtc_l; [eapply (run _ 0%nat Idle SProbe); [done|constructor; repeat constructor|done]|]. simpl.
  eapply rtc_l; [eapply (run _ 0%nat SProbe SProbing); [done|constructor; repeat constructor|done]|]. simpl.
  eapply rtc_l; [eapply (run _ 0%nat SProbing SHold); [done|constructor|done]|]. simpl.
  eapply rtc_l; [eapply (run _ 0%nat SHold (SEval 0)); [done|apply (t_snapshot (mkB _ 0 _))|done]|]. simpl.
  eapply rtc_l; [eapply (run _ 1%nat Idle WGate); [done|constructor; repeat constructor|done]|]. simpl.
  eapply rtc_l; [eapply (run _ 1%nat WGate WIntent); [done|constructor; repeat constructor|done]|]. simpl.
  eapply rtc_l; [eapply (run _ 0%nat (SEval 0) SWait); [done|apply t_stale; intros Hf; inversion_clear Hf as [|? ? _ H2]; inversion_clear H2 as [|? ? [_ H3] _]; discriminate H3|done]|]. simpl.
  eapply rtc_l; [eapply (run _ 1%nat WIntent WMain); [done|constructor; repeat constructor|done]|]. simpl.
  eapply rtc_l; [eapply (run _ 1%nat WMain WMain); [done|constructor|done]|]. simpl.
  eapply rtc_l; [eapply (run _ 1%nat WMain WCommitted); [done|constructor|done]|]. simpl.
  eapply rtc_l; [eapply (run _ 1%nat WCommitted WRelIntent); [done|constructor|done]|]. simpl.
  eapply rtc_l; [eapply (run _ 1%nat WRelIntent WRelGate); [done|constructor|done]|]. simpl.
  eapply rtc_l; [eapply (run _ 1%nat WRelGate Idle); [done|constructor|done]|]. simpl.
  eapply rtc_l; [eapply (run _ 0%nat SWait SWaitHeld); [done|constructor; repeat constructor|done]|]. simpl.
  eapply rtc_l; [eapply (run _ 0%nat SWaitHeld Idle); [done|constructor|done]|]. simpl.
  eapply rtc_l; [eapply (run _ 0%nat Idle SProbe); [done|constructor; repeat constructor|done]|]. simpl.
  eapply rtc_l; [eapply (run _ 0%nat SProbe SProbing); [done|constructor; repeat constructor|done]|]. simpl.
  eapply rtc_l; [eapply (run _ 0%nat SProbing SHold); [done|constructor|done]|]. simpl.
  eapply rtc_l; [eapply (run _ 0%nat SHold (SEval 1)); [done|apply (t_snapshot (mkB _ 1 _))|done]|]. simpl.
  apply rtc_once. eapply (run _ 0%nat (SEval 1) (SClaim 1)); [done|constructor; repeat constructor|done].
Defined.

Lemma barrier_never_deadlocks_witness :
  ∃ i p, threads (mkB [SWait; WGate; Idle] 0 []) !! i = Some p ∧ busy p = true
         ∧ can_step (mkB [SWait; WGate; Idle] 0 []) p.
Proof. apply (barrier_never_deadlocks (mkB [SWait; WGate; Idle] 0 [])). by apply Exists_cons_hd. Defined.
