(* ===== verification/SafetyState.v ===== *)
(** Truthful enumeration of durable safety state: [orders/safety_state.py].

    Every category is read by its own query; [reads_fail] says which of them raise.  A failed
    read becomes an unknown category, never an empty confirmed one.  The clock reading that
    bounds the snapshot is the argument [observed_at]. *)

From S2P Require Import Prelude PyDecimal Assets BrokerModels Breakers Database BreakerStore.
From Stdlib Require Import Ascii Lia.
Local Open Scope Z_scope.

Definition LOCAL_SAFETY_CATEGORIES : list string :=
  ["live_or_unknown_orders"; "latched_orders"; "unsafe_fills"; "active_rules"; "unsafe_rule_groups"].
Definition ACTIVE_BREAKERS_CATEGORY : string := "active_breakers".
Definition HEARTBEAT_CATEGORY : string := "heartbeat".
Definition OPERATOR_GLOBAL_SCOPE : string := "operator_global".
Definition TARGETED_BREAKER_KINDS : list string := ["loss"; "drawdown"; "data"; "liquidity"].
Definition UNTARGETED_BREAKER_KINDS : list string := ["broker_drift"; "operator_global"].

Definition LIVE_OR_UNKNOWN_ORDER_STATUSES : list string :=
  map order_status_value
    [APPROVED; APPROVAL_RECORDED; SUBMITTING; ACCEPTANCE_UNKNOWN; SUBMITTED; PARTIALLY_FILLED].

Definition SAFETY_LATCH_ERROR_CODES : list string :=
  ["broker_submission_unknown"; "cumulative_fill_contradiction"; "fill_quantity_exceeds_order";
   "indeterminate_cancel"; "invalid_broker_data"; "invalid_broker_identity"; "invalid_cumulative_fill";
   "legacy_unidentified_fill"; "legacy_unverified_fill"; "remote_fill_ahead"; "waiting_for_exact_fill"].

(** * Local state *)

Record UnsafeLocalState : Type := mkUnsafe {
  live_or_unknown_order_ids : list Z;
  latched_order_ids : list Z;
  unsafe_fill_ids : list Z;
  active_rule_ids : list Z;
  unsafe_rule_group_ids : list Z;
  unknown_categories : list string;
}.

Definition enumeration (u : UnsafeLocalState) : string :=
  if bool_decide (unknown_categories u = []) then "confirmed" else "unknown".

Definition sorted_ids (l : list Z) : list Z := merge_sort Z.le l.

(** [sorted(set(live) | set(latched))]. *)
Definition unsafe_order_ids (u : UnsafeLocalState) : list Z :=
  sorted_ids (dedup (live_or_unknown_order_ids u ++ latched_order_ids u)).

Definition has_unsafe_state (u : UnsafeLocalState) : bool :=
  negb (bool_decide (unknown_categories u = []))
  || negb (bool_decide (live_or_unknown_order_ids u = []))
  || negb (bool_decide (latched_order_ids u = []))
  || negb (bool_decide (unsafe_fill_ids u = []))
  || negb (bool_decide (active_rule_ids u = []))
  || negb (bool_decide (unsafe_rule_group_ids u = [])).

(** SQL [trim(x) = '']: only spaces. *)
Definition sql_blank (s : string) : bool := string_forall (λ c, bool_decide (c = " "%char)) s.

Definition order_is_live (o : Order) : bool := bool_decide (o_status o ∈ LIVE_OR_UNKNOWN_ORDER_STATUSES).
Definition order_is_latched (o : Order) : bool :=
  bool_decide (o_acceptance_state o = FILL_RECONCILIATION_REQUIRED)
  || bool_decide (o_last_error_code o ∈ SAFETY_LATCH_ERROR_CODES).
Definition fill_is_unsafe (f : Fill) : bool :=
  bool_decide (fl_order_id f = None)
  || bool_decide (fl_reconciliation_state f = FILL_RECONCILIATION_QUARANTINED)
  || (negb (bool_decide (fl_reconciliation_state f = FILL_RECONCILIATION_SUPERSEDED))
      && match fl_broker_fill_id f with None => true | Some i => sql_blank i end).
Definition rule_is_active (r : Rule) : bool := bool_decide (ru_state r ∈ ["pending"; "active"; "processing"]).
Definition group_is_unsafe (g : RuleGroup) : bool :=
  bool_decide (g_state g ∈ ["pending"; "active"]) || g_reconciliation_required g.

(** [SELECT id WHERE pred ORDER BY id]. *)
Definition select_ids {A} (pred : A → bool) (m : gmap Z A) : list Z :=
  sorted_ids (map fst (filter (λ p, pred p.2 = true) (map_to_list m))).

(** [query_ids]: a failed query yields no ids and an unknown category. *)
Definition query_ids (reads_fail : string → bool) (category : string) (ids : list Z) : list Z :=
  if reads_fail category then [] else ids.

Definition enumerate_unsafe_local_state_in_session (reads_fail : string → bool) (d : Db) : UnsafeLocalState :=
  mkUnsafe
    (query_ids reads_fail "live_or_unknown_orders" (select_ids order_is_live (db_orders d)))
    (query_ids reads_fail "latched_orders" (select_ids order_is_latched (db_orders d)))
    (query_ids reads_fail "unsafe_fills" (map fl_id (filter (λ f, fill_is_unsafe f = true) (db_fills d))))
    (query_ids reads_fail "active_rules" (select_ids rule_is_active (db_rules d)))
    (query_ids reads_fail "unsafe_rule_groups" (select_ids group_is_unsafe (db_groups d)))
    (filter (λ c, reads_fail c = true) LOCAL_SAFETY_CATEGORIES).

(** The session itself may be unusable. *)
Definition enumerate_unsafe_local_state (opens : bool) (reads_fail : string → bool) (d : Db) : UnsafeLocalState :=
  if opens then enumerate_unsafe_local_state_in_session reads_fail d
  else mkUnsafe [] [] [] [] [] LOCAL_SAFETY_CATEGORIES.

(** * Persisted truth *)

Record BreakerTruth : Type := mkBreakerTruth {
  bt_scope : string;
  bt_kind : string;
  bt_target : string;
  bt_tripped : bool;
  bt_generation : Z;
}.

Record PersistedSafetyTruth : Type := mkTruth {
  pst_observed_at : time;
  pst_state : string;
  pst_complete : bool;
  pst_heartbeat_at : option time;
  pst_operator_global_tripped : option bool;
  pst_operator_global_generation : option Z;
  pst_breakers : list BreakerTruth;
  pst_unsafe_local_state : UnsafeLocalState;
  pst_unknown_categories : list string;
}.

Definition truth_active_breakers (t : PersistedSafetyTruth) : list BreakerTruth :=
  filter (λ b, bt_tripped b = true) (pst_breakers t).

(** [_breaker_row_is_canonical]; the type tests are the typing of the row. *)
Definition breaker_row_is_canonical (row : CircuitBreakerState) : bool :=
  if (cb_generation row <? 0) || cb_tripped row && (cb_generation row <? 1)
     || negb (nonempty (cb_scope_key row)) then false
  else if bool_decide (cb_kind row ∈ TARGETED_BREAKER_KINDS) then
    nonempty (cb_target row) && bool_decide (cb_scope_key row = cb_kind row +:+ ":" +:+ cb_target row)
  else if bool_decide (cb_kind row ∈ UNTARGETED_BREAKER_KINDS) then
    bool_decide (cb_target row = EmptyString) && bool_decide (cb_scope_key row = cb_kind row)
  else false.

Definition breaker_truth (row : CircuitBreakerState) : BreakerTruth :=
  mkBreakerTruth (cb_scope_key row) (cb_kind row) (cb_target row) (cb_tripped row) (cb_generation row).

(** [SELECT ... ORDER BY scope_key]. *)
Definition breaker_rows (d : Db) : list CircuitBreakerState :=
  omap (λ k, db_breakers d !! k) (sorted_strings (map fst (map_to_list (db_breakers d)))).

(** The newest heartbeat of the daemon. *)
Definition latest_heartbeat (d : Db) : option time :=
  fold_right (λ h acc, if bool_decide (hb_source h = "daemon")
                       then Some (match acc with None => hb_at h | Some t => Z.max t (hb_at h) end)
                       else acc) None (db_heartbeats d).

Definition read_persisted_safety_truth_in_session (reads_fail : string → bool) (observed_at : time) (d : Db)
    : PersistedSafetyTruth :=
  let local_state := enumerate_unsafe_local_state_in_session reads_fail d in
  let breaker_unknown := reads_fail ACTIVE_BREAKERS_CATEGORY in
  let rows := if breaker_unknown then [] else breaker_rows d in
  let read_heartbeat := if reads_fail HEARTBEAT_CATEGORY then None else latest_heartbeat d in
  let in_future := match read_heartbeat with None => false | Some t => observed_at <? t end in
  let heartbeat_unknown := reads_fail HEARTBEAT_CATEGORY || in_future in
  let heartbeat_at := if in_future then None else read_heartbeat in
  let breakers := map breaker_truth rows in
  let operator_row := list_find (λ r, cb_scope_key r = OPERATOR_GLOBAL_SCOPE) rows in
  let unknown :=
    unknown_categories local_state
    ++ (if breaker_unknown || existsb (λ r, negb (breaker_row_is_canonical r)) rows
        then [ACTIVE_BREAKERS_CATEGORY] else [])
    ++ (if heartbeat_unknown then [HEARTBEAT_CATEGORY] else []) in
  let known_unsafe :=
    existsb bt_tripped breakers
    || negb (bool_decide (live_or_unknown_order_ids local_state = []))
    || negb (bool_decide (latched_order_ids local_state = []))
    || negb (bool_decide (unsafe_fill_ids local_state = []))
    || negb (bool_decide (active_rule_ids local_state = []))
    || negb (bool_decide (unsafe_rule_group_ids local_state = [])) in
  mkTruth observed_at
    (if known_unsafe then "unsafe" else if bool_decide (unknown = []) then "locally_clear" else "unknown")
    (bool_decide (unknown = []))
    heartbeat_at
    (if breaker_unknown then None
     else Some (match operator_row with None => false | Some p => cb_tripped p.2 end))
    (if breaker_unknown then None
     else Some (match operator_row with None => 0 | Some p => cb_generation p.2 end))
    breakers local_state unknown.

Definition unknown_persisted_safety_truth (observed_at : time) : PersistedSafetyTruth :=
  mkTruth observed_at "unknown" false None None None []
    (mkUnsafe [] [] [] [] [] LOCAL_SAFETY_CATEGORIES)
    (LOCAL_SAFETY_CATEGORIES ++ [ACTIVE_BREAKERS_CATEGORY; HEARTBEAT_CATEGORY]).

Definition read_persisted_safety_truth (opens : bool) (reads_fail : string → bool) (observed_at : time) (d : Db)
    : PersistedSafetyTruth :=
  if opens then read_persisted_safety_truth_in_session reads_fail observed_at d
  else unknown_persisted_safety_truth observed_at.

(** * What a clear report means *)

Lemma sorted_ids_nil l : sorted_ids l = [] ↔ l = [].
Proof.
  unfold sorted_ids. pose proof (merge_sort_Permutation Z.le l) as Hp. split.
  - intros E. rewrite E in Hp. by apply Permutation_nil in Hp.
  - intros ->. done.
Qed.

Lemma select_ids_nil {A} (pred : A → bool) (m : gmap Z A) :
  select_ids pred m = [] ↔ ∀ k x, m !! k = Some x → pred x = false.
Proof.
  unfold select_ids. rewrite sorted_ids_nil. split.
  - intros Hn k x Hx. destruct (pred x) eqn:E; [|done].
    assert ((k, x) ∈ filter (λ p, pred p.2 = true) (map_to_list m)) as Hin.
    { apply list_elem_of_filter. split; [done|]. by apply elem_of_map_to_list. }
    apply map_eq_nil in Hn. rewrite Hn in Hin. by apply elem_of_nil in Hin.
  - intros Hall. destruct (filter _ _) as [|[k x] l] eqn:E; [done|].
    assert ((k, x) ∈ filter (λ p, pred p.2 = true) (map_to_list m)) as Hin by (rewrite E; by left).
    apply list_elem_of_filter in Hin as [Hp Hin]. apply elem_of_map_to_list in Hin.
    simpl in Hp. rewrite (Hall k x) in Hp by done. done.
Qed.

Lemma fill_ids_nil l :
  map fl_id (filter (λ f, fill_is_unsafe f = true) l) = [] ↔ Forall (λ f, fill_is_unsafe f = false) l.
Proof.
  induction l as [|f l IH]; [done|]. rewrite filter_cons, Forall_cons, <- IH.
  destruct (decide (fill_is_unsafe f = true)) as [->|Hf]; simpl; [naive_solver|].
  apply not_true_is_false in Hf. tauto.
Qed.

Lemma breaker_rows_elem d r : r ∈ breaker_rows d ↔ ∃ k, db_breakers d !! k = Some r.
Proof.
  unfold breaker_rows. rewrite list_elem_of_omap. split.
  - intros (k & _ & Hk). eauto.
  - intros (k & Hk). exists k. split; [|done]. unfold sorted_strings.
    rewrite merge_sort_Permutation. apply list_elem_of_fmap. exists (k, r).
    split; [done|]. by apply elem_of_map_to_list.
Qed.

Lemma breaker_rows_forall (P : CircuitBreakerState → bool) d :
  existsb P (breaker_rows d) = false ↔ ∀ k r, db_breakers d !! k = Some r → P r = false.
Proof.
  rewrite <- not_true_iff_false, existsb_exists. split.
  - intros Hn k r Hr. destruct (P r) eqn:E; [|done]. destruct Hn. exists r.
    rewrite <- list_elem_of_In, breaker_rows_elem. eauto.
  - intros Hall (r & Hin & Hp). rewrite <- list_elem_of_In, breaker_rows_elem in Hin.
    destruct Hin as [k Hk]. rewrite (Hall k r Hk) in Hp. done.
Qed.

Lemma reads_all_ok (reads_fail : string → bool) :
  filter (λ c, reads_fail c = true) LOCAL_SAFETY_CATEGORIES = []
  ↔ ∀ c, c ∈ LOCAL_SAFETY_CATEGORIES → reads_fail c = false.
Proof.
  induction LOCAL_SAFETY_CATEGORIES as [|c l IH]; [by split; [intros _ ? ?%elem_of_nil|]|].
  rewrite filter_cons. destruct (decide (reads_fail c = true)) as [E|E].
  - split; [done|]. intros Hall. rewrite (Hall c) in E by (by left). done.
  - apply not_true_is_false in E. rewrite IH. setoid_rewrite elem_of_cons. naive_solver.
Qed.

(** No durable row that would make acting unsafe. *)
Record clear_database (d : Db) : Prop := {
  cd_breakers : ∀ k r, db_breakers d !! k = Some r → cb_tripped r = false ∧ breaker_row_is_canonical r = true;
  cd_orders : ∀ id o, db_orders d !! id = Some o → order_is_live o = false ∧ order_is_latched o = false;
  cd_fills : Forall (λ f, fill_is_unsafe f = false) (db_fills d);
  cd_rules : ∀ id r, db_rules d !! id = Some r → rule_is_active r = false;
  cd_groups : ∀ id g, db_groups d !! id = Some g → group_is_unsafe g = false;
}.

(** Every read succeeded and the heartbeat is not ahead of the snapshot. *)
Definition reads_complete (reads_fail : string → bool) (observed_at : time) (d : Db) : Prop :=
  (∀ c, c ∈ LOCAL_SAFETY_CATEGORIES ++ [ACTIVE_BREAKERS_CATEGORY; HEARTBEAT_CATEGORY] → reads_fail c = false)
  ∧ ∀ t, latest_heartbeat d = Some t → t ≤ observed_at.

Lemma existsb_map_truth rows : existsb bt_tripped (map breaker_truth rows) = existsb cb_tripped rows.
Proof. induction rows as [|r rows IH]; simpl; [done|]. by rewrite IH. Qed.

Lemma report_clear (ku : bool) (unknown : list string) :
  (if ku then "unsafe" else if bool_decide (unknown = []) then "locally_clear" else "unknown") = "locally_clear"
  ↔ unknown = [] ∧ ku = false.
Proof. destruct ku; [naive_solver|]. destruct (decide (unknown = [])) as [->|Hn]; simpl; [naive_solver|].
  rewrite bool_decide_false by done. naive_solver. Qed.

Lemma if_nil (b : bool) (c : string) : (if b then [c] else []) = [] ↔ b = false.
Proof. by destruct b. Qed.

Lemma negb_empty {A} `{EqDecision A} (l : list A) : negb (bool_decide (l = [])) = false ↔ l = [].
Proof. rewrite negb_false_iff. apply bool_decide_eq_true. Qed.

(** When every category could be read, nothing unsafe was found exactly in a clear database. *)
Lemma nothing_unsafe_iff reads_fail d :
  (∀ c, c ∈ LOCAL_SAFETY_CATEGORIES → reads_fail c = false) →
  let u := enumerate_unsafe_local_state_in_session reads_fail d in
  existsb (λ r, negb (breaker_row_is_canonical r)) (breaker_rows d) = false
  ∧ existsb cb_tripped (breaker_rows d) = false
  ∧ live_or_unknown_order_ids u = [] ∧ latched_order_ids u = [] ∧ unsafe_fill_ids u = []
  ∧ active_rule_ids u = [] ∧ unsafe_rule_group_ids u = []
  ↔ clear_database d.
Proof.
  intros Hok u. unfold u, enumerate_unsafe_local_state_in_session, query_ids.
  cbn [live_or_unknown_order_ids latched_order_ids unsafe_fill_ids active_rule_ids unsafe_rule_group_ids].
  rewrite !Hok by (unfold LOCAL_SAFETY_CATEGORIES; set_solver).
  rewrite !select_ids_nil, fill_ids_nil, !breaker_rows_forall. split.
  - intros (Hc & Ht & Hl & Hla & Hf & Hr & Hg). split; auto.
    + intros k r Hk. split; [by eapply Ht|]. apply negb_false_iff. by eapply Hc.
    + intros id o Ho. split; [by eapply Hl|by eapply Hla].
  - intros [Hb Ho Hf Hr Hg]. split_and!; auto.
    + intros k r Hk. apply negb_false_iff. by apply (Hb k).
    + intros k r Hk. by apply (Hb k).
    + intros id o Hid. by apply (Ho id).
    + intros id o Hid. by apply (Ho id).
Qed.

(** A safety report says [locally_clear] exactly when every required category
    was actually read, the heartbeat is not in the future, every breaker row is canonical and
    untripped, and no order, fill, rule or rule group is in an unsafe state: a failed or
    partial read is never reported as clear. *)
Theorem locally_clear_iff opens reads_fail observed_at d :
  pst_state (read_persisted_safety_truth opens reads_fail observed_at d) = "locally_clear"
  ↔ opens = true ∧ reads_complete reads_fail observed_at d ∧ clear_database d.
Proof.
  unfold read_persisted_safety_truth. destruct opens; [|by split; [|intros [? _]]].
  unfold read_persisted_safety_truth_in_session. cbn [pst_state].
  rewrite report_clear, !app_nil, !if_nil, !orb_false_iff, !negb_empty, existsb_map_truth.
  change (unknown_categories (enumerate_unsafe_local_state_in_session reads_fail d))
    with (filter (λ c, reads_fail c = true) LOCAL_SAFETY_CATEGORIES).
  rewrite reads_all_ok. unfold reads_complete. split.
  - intros ((Hloc & (Hbu & Hcan) & Hhb & Hfut) & ((((Htr & Hl) & Hla) & Hf) & Hr) & Hg).
    rewrite Hbu in Hcan, Htr. rewrite Hhb in Hfut. split_and!; [done| | |].
    + intros c [Hc|Hc]%elem_of_app; [by apply Hloc|]. rewrite !elem_of_cons in Hc.
      destruct Hc as [->|[->|Hc]]; [done..|by apply elem_of_nil in Hc].
    + intros t Ht. rewrite Ht in Hfut. by apply Z.ltb_ge.
    + by apply (nothing_unsafe_iff reads_fail).
  - intros (_ & [Hok Hhb] & Hclear).
    assert (∀ c, c ∈ LOCAL_SAFETY_CATEGORIES → reads_fail c = false) as Hloc
      by (intros c Hc; apply Hok, elem_of_app; by left).
    assert (reads_fail ACTIVE_BREAKERS_CATEGORY = false) as -> by (apply Hok; set_solver).
    assert (reads_fail HEARTBEAT_CATEGORY = false) as -> by (apply Hok; set_solver).
    apply (nothing_unsafe_iff reads_fail d Hloc) in Hclear as (Hcan & Htr & Hl & Hla & Hf & Hr & Hg).
    split_and!; try done. destruct (latest_heartbeat d) as [t|]; [|done].
    apply Z.ltb_ge. by apply Hhb.
Qed.

(** A fill the ledger helper still counts as unmatched, in the eyes of the report: the query
    trims spaces only, the helper any white space. *)
Definition tab_fill : Fill :=
  mkFillRow 1 (Some 1) "AAPL" "buy" (Fin 1 0) (Fin 100 0) (Some (String "009"%char EmptyString)) "trusted" 5.

Example tab_identity_reported_clear :
  fill_requires_reconciliation tab_fill = true ∧ fill_has_trusted_identity tab_fill = false
  ∧ fill_is_unsafe tab_fill = false.
Proof. vm_compute. done. Qed.
