(* ===== verification/MarketClock.v ===== *)
(** Market clocks and quote freshness: [risk/clock.py], [risk/market_hours.py] and
    [risk/staleness.py].  Instants are UTC microseconds; [at or now()] has been resolved. *)

From S2P Require Import Prelude PyDecimal BrokerModels Pnl.
From Stdlib Require Import Lia.
Local Open Scope Z_scope.

Record MarketClockObservation : Type := mkObservation {
  ob_is_open : bool;
  ob_most_recent_open : time;
}.

(** The [MarketClock] protocol. *)
Class MarketClock (C : Type) : Type := {
  observe : C → time → MarketClockObservation;
  is_open : C → time → bool;
  next_open : C → time → time;
  next_close : C → time → time;
  most_recent_open : C → time → time;
}.

(** What consumers rely on: an observation agrees with the separate readings and its session
    started no later than the observed instant. *)
Class LawfulClock (C : Type) `{!MarketClock C} : Prop := {
  observe_open : ∀ c t, ob_is_open (observe c t) = is_open c t;
  observe_recent : ∀ c t, ob_most_recent_open (observe c t) = most_recent_open c t;
  recent_past : ∀ c t, most_recent_open c t ≤ t;
}.

Inductive CryptoClock : Type := mkCryptoClock.

(** [datetime(9999, 1, 1)]. *)
Definition far_future : time := 253370764800 * second.

Definition crypto_observe (at_ : time) : MarketClockObservation :=
  mkObservation true (most_recent_utc_midnight at_).

#[export] Instance crypto_clock : MarketClock CryptoClock := {
  observe := λ _ at_, crypto_observe at_;
  is_open := λ _ _, true;
  next_open := λ _ at_, at_;
  next_close := λ _ _, far_future;
  most_recent_open := λ _ at_, most_recent_utc_midnight at_;
}.

Record FakeClock : Type := mkFakeClock {
  fc_open : bool;
  fc_next_open : time;
  fc_next_close : time;
  fc_most_recent_open : option time;
}.

Definition set_open (value : bool) (c : FakeClock) : FakeClock :=
  mkFakeClock value (fc_next_open c) (fc_next_close c) (fc_most_recent_open c).

Definition fake_most_recent_open (c : FakeClock) (at_ : time) : time :=
  match fc_most_recent_open c with Some t => t | None => at_ - day end.

#[export] Instance fake_clock : MarketClock FakeClock := {
  observe := λ c at_, mkObservation (fc_open c) (fake_most_recent_open c at_);
  is_open := λ c _, fc_open c;
  next_open := λ c _, fc_next_open c;
  next_close := λ c _, fc_next_close c;
  most_recent_open := fake_most_recent_open;
}.

Definition is_market_open {C} `{MarketClock C} (clock : C) (at_ : time) : bool := is_open clock at_.

(** [is_stale]: absent, older than the limit or further ahead than the allowed skew.  The
    age in seconds is compared exactly with the limits. *)
Definition is_stale (quote_as_of : option time) (now : time)
    (max_age_seconds max_future_skew_seconds : Decimal) : bool :=
  match quote_as_of with
  | None => true
  | Some t =>
      let age := Fin (now - t) (-6) in
      dcmp_lt max_age_seconds age || dcmp_lt age (copy_negate max_future_skew_seconds)
  end.

Definition DEFAULT_MAX_AGE_SECONDS : Decimal := of_Z 60.
Definition DEFAULT_MAX_FUTURE_SKEW_SECONDS : Decimal := of_Z 5.

(** The 24/7 clock satisfies the clock protocol's laws: it is always open, its
    observation is coherent, and its session started at the UTC midnight at or before the
    observed instant and less than a day earlier. *)
Theorem crypto_clock_lawful :
  LawfulClock CryptoClock
  ∧ ∀ c (t : time), is_market_open (C := CryptoClock) c t = true
      ∧ t - day < most_recent_open c t ≤ t ∧ most_recent_open c t mod day = 0.
Proof.
  assert (∀ t : time, t - day < most_recent_utc_midnight t ≤ t ∧ most_recent_utc_midnight t mod day = 0) as Hm.
  { intros t. unfold most_recent_utc_midnight. pose proof (Z.mod_pos_bound t day ltac:(done)).
    split; [lia|]. rewrite Zminus_mod_idemp_r, Z.sub_diag. done. }
  split.
  - split; try done. intros c t. apply Hm.
  - intros c t. split; [done|]. apply Hm.
Qed.

(** With limits in whole seconds, a quote is fresh exactly when it carries a source time in
    the window the limits describe. *)
Lemma is_stale_window quote_as_of now max_age skew :
  is_stale quote_as_of now (of_Z max_age) (of_Z skew) = false
  ↔ ∃ t, quote_as_of = Some t ∧ now - max_age * second ≤ t ≤ now + skew * second.
Proof.
  unfold is_stale. destruct quote_as_of as [t|]; [|naive_solver].
  rewrite orb_false_iff. unfold dcmp_lt, dcmp, of_Z, copy_negate, second.
  change (Z.min 0 (-6)) with (-6). change (Z.min (-6) 0) with (-6).
  change (10 ^ (0 - -6)) with 1000000. change (10 ^ (-6 - -6)) with 1.
  destruct (Z.compare_spec (max_age * 1000000) ((now - t) * 1)),
    (Z.compare_spec ((now - t) * 1) (- skew * 1000000));
    (split; [intros [? ?]|intros (t' & [= <-] & Ht)]); try done; try lia;
    exists t; (split; [done|lia]).
Qed.
