(* ===== verification/Startup.v ===== *)
(** The process-start reconciliation latch: [orders/startup.py].

    [require] opens a new generation and invalidates every earlier proof; [complete] and
    [fail] act only on the generation they were given.  A row is typed, so the tests of
    [validate_startup_reconciliation_snapshot] on the types of its arguments are the typing
    of the record; instants are aware timestamps.  The writer barrier around each method is
    the subject of [Barrier]. *)

From S2P Require Import Prelude PyDecimal BrokerModels Database.
From Stdlib Require Import Ascii Lia.
Local Open Scope Z_scope.

(** * Validation *)

Record StartupReconciliationValidation : Type := mkValidation {
  v_valid : bool;
  v_current : bool;
  v_started_at : time;
  v_completed_at : option time;
  v_updated_at : time;
}.

Definition startup_statuses : list string := ["required"; "current"; "failed"].

(** The columns [started <= completed <= updated] compares. *)
Definition between (lo x hi : time) : bool := (lo <=? x) && (x <=? hi).

Definition validate_startup_reconciliation_snapshot (r : StartupReconciliationState)
    (observed_at : time) (expected_generation : option Z) : StartupReconciliationValidation :=
  let invalid := mkValidation false false (su_started_at r) (su_completed_at r) (su_updated_at r) in
  if (su_generation r <=? 0)
     || (su_completed_generation r <? 0)
     || (su_generation r <? su_completed_generation r)
     || bool_decide (su_status r ∉ startup_statuses)
     || negb (between (su_started_at r) (su_updated_at r) observed_at)
     || match expected_generation with
        | None => false
        | Some g => (g <=? 0) || negb (su_generation r =? g)
        end
  then invalid
  else if bool_decide (su_status r = "current") then
    if negb (su_completed_generation r =? su_generation r)
       || match su_completed_at r with
          | None => true
          | Some c => negb (between (su_started_at r) c (su_updated_at r))
          end
    then invalid
    else mkValidation true true (su_started_at r) (su_completed_at r) (su_updated_at r)
  else if (su_generation r <=? su_completed_generation r) || bool_decide (su_completed_at r ≠ None)
  then invalid
  else mkValidation true false (su_started_at r) None (su_updated_at r).

(** [_context]. *)
Definition startup_context (actor reason request_id : string) : outcome (string * string * string) :=
  let actor := strip actor in
  let reason := strip reason in
  let request_id := strip request_id in
  if negb (nonempty actor) || negb (nonempty reason) || negb (nonempty request_id)
  then Raise (ValueError "startup reconciliation actor, reason, and request_id must be non-empty")
  else Ok (actor, reason, request_id).

Definition is_lower (c : ascii) : bool :=
  let n := nat_of_ascii c in (97 <=? n)%nat && (n <=? 122)%nat.
Definition is_digit (c : ascii) : bool :=
  let n := nat_of_ascii c in (48 <=? n)%nat && (n <=? 57)%nat.

Fixpoint code_tail (s : string) : bool :=
  match s with
  | EmptyString => true
  | String c s' => (is_lower c || is_digit c || bool_decide (c = "_"%char)) && code_tail s'
  end.

(** [_FAILURE_CODE.fullmatch]: a lower-case letter and 2 to 63 more characters. *)
Definition failure_code_fullmatch (s : string) : bool :=
  match s with
  | EmptyString => false
  | String c s' => is_lower c && code_tail s' && (2 <=? String.length s')%nat && (String.length s' <=? 63)%nat
  end.

(** * [StartupReconciliationGate] *)

Section Gate.
Context (broker_key : string) (enabled : bool).

Definition put_startup (row : StartupReconciliationState) : tx () :=
  write (λ d, set_db_startup (<[broker_key := row]> (db_startup d)) d).

Definition startup_audit (actor action request_id result_code reason : string) (detail : json) : tx () :=
  insert_audit (mkAuditEvent actor action "broker" broker_key request_id EmptyString reason
                  result_code 0 detail None).

Definition require (actor reason request_id : string) (now : time) (d : Db) : outcome Z * Db :=
  match startup_context actor reason request_id with
  | Raise e => (Raise e, d)
  | Ok (actor, reason, request_id) =>
      if negb enabled then (Raise (RuntimeError "startup reconciliation gate is disabled"), d)
      else with_session (
        d ← read;
        let '(generation, completed_generation) :=
          match db_startup d !! broker_key with
          | None => (1, 0)
          | Some state => (su_generation state + 1, su_completed_generation state)
          end in
        put_startup (mkStartup broker_key generation completed_generation "required" actor reason
                       request_id (JObj []) now None now) ≫= λ _,
        startup_audit actor "startup_reconciliation.require" request_id "required" reason
          (JObj [("generation", JInt generation)]) ≫= λ _,
        commit ≫= λ _, mret generation) d
  end.

Definition complete (generation : Z) (evidence : dict json) (actor reason request_id : string)
    (now : time) (d : Db) : outcome bool * Db :=
  match startup_context actor reason request_id with
  | Raise e => (Raise e, d)
  | Ok (actor, reason, request_id) =>
      if generation <=? 0
      then (Raise (ValueError "startup reconciliation generation must be positive"), d)
      else if negb enabled then (Ok true, d)
      else with_session (
        d ← read;
        match db_startup d !! broker_key with
        | None => mret false
        | Some state =>
            if negb (su_generation state =? generation) then mret false
            else if bool_decide (su_status state = "current")
                    && (su_completed_generation state =? generation) then mret true
            else
              put_startup (mkStartup (su_broker state) (su_generation state) generation "current" actor
                             reason request_id (JObj evidence) (su_started_at state) (Some now) now)
                ≫= λ _,
              startup_audit actor "startup_reconciliation.complete" request_id "current" reason
                (JObj evidence) ≫= λ _,
              commit ≫= λ _, mret true
        end) d
  end.

Definition fail_ (generation : Z) (failure_code : string) (evidence : dict json)
    (actor reason request_id : string) (now : time) (d : Db) : outcome bool * Db :=
  match startup_context actor reason request_id with
  | Raise e => (Raise e, d)
  | Ok (actor, reason, request_id) =>
      let failure_code := strip failure_code in
      if negb (failure_code_fullmatch failure_code)
      then (Raise (ValueError "startup reconciliation failure code is invalid"), d)
      else if negb enabled then (Ok false, d)
      else
        let detail := JObj (dict_set evidence "failure_code" (JStr failure_code)) in
        with_session (
          d ← read;
          match db_startup d !! broker_key with
          | None => rollback ≫= λ _, mret false
          | Some state =>
              if negb (su_generation state =? generation)
                 || (generation <=? su_completed_generation state)
              then rollback ≫= λ _, mret false
              else
                put_startup (mkStartup (su_broker state) (su_generation state)
                               (su_completed_generation state) "failed" actor failure_code request_id
                               detail (su_started_at state) None now) ≫= λ _,
                startup_audit actor "startup_reconciliation.fail" request_id "failed" reason detail
                  ≫= λ _,
                commit ≫= λ _, mret true
          end) d
  end.

Record Posture : Type := mkPosture {
  po_status : string;
  po_generation : Z;
  po_completed_generation : Z;
  po_failure_code : option string;
}.

Definition posture (d : Db) : Posture :=
  if negb enabled then mkPosture "not_required" 0 0 None
  else match db_startup d !! broker_key with
       | None => mkPosture "required" 0 0 None
       | Some r => mkPosture (su_status r) (su_generation r) (su_completed_generation r)
                     (if bool_decide (su_status r = "failed") then Some (su_reason r) else None)
       end.

Definition current_generation (d : Db) : Z :=
  if negb enabled then 0
  else match db_startup d !! broker_key with None => 0 | Some r => su_generation r end.

(** [read_fails]: the query or the decoding of the row raises. *)
Definition is_current (generation : option Z) (read_fails : bool) (observed_at : time) (d : Db) : bool :=
  if negb enabled then true
  else if read_fails then false
  else match db_startup d !! broker_key with
       | None => false
       | Some r => let v := validate_startup_reconciliation_snapshot r observed_at generation in
                   v_valid v && v_current v
       end.

End Gate.

(** * The abstract latch

    A latch holds the newest generation and what is known of it; [None] before the first
    [require]. *)

Inductive phase : Type := Pending | Failed | Proven.
Definition latch : Type := option (Z * phase).

Inductive gate_op : Type :=
| GRequire (actor reason request_id : string)
| GComplete (generation : Z) (evidence : dict json) (actor reason request_id : string)
| GFail (generation : Z) (code : string) (evidence : dict json) (actor reason request_id : string).

(** The calls that do not raise on their arguments. *)
Definition gate_op_valid (op : gate_op) : bool :=
  match op with
  | GRequire a r q | GComplete _ _ a r q => is_ok (startup_context a r q)
  | GFail _ code _ a r q => is_ok (startup_context a r q) && failure_code_fullmatch (strip code)
  end.

Definition latch_step (op : gate_op) (s : latch) : latch :=
  if gate_op_valid op then
    match op, s with
    | GRequire _ _ _, None => Some (1, Pending)
    | GRequire _ _ _, Some (g, _) => Some (g + 1, Pending)
    | GComplete g' _ _ _ _, Some (g, p) => if g' =? g then Some (g, Proven) else s
    | GFail g' _ _ _ _ _, Some (g, Proven) => s
    | GFail g' _ _ _ _ _, Some (g, _) => if g' =? g then Some (g, Failed) else s
    | _, None => s
    end
  else s.

Definition latch_run (ops : list (time * gate_op)) (s : latch) : latch :=
  foldl (λ s x, latch_step x.2 s) s ops.

Definition latch_current (s : latch) (expected : option Z) : bool :=
  match s with
  | Some (g, Proven) => match expected with None => true | Some e => e =? g end
  | _ => false
  end.

Definition latch_generation (s : latch) : Z := match s with None => 0 | Some (g, _) => g end.

Definition phase_status (p : phase) : string :=
  match p with Pending => "required" | Failed => "failed" | Proven => "current" end.

Section Refinement.
Context (key : string).

Definition run_gate_op (now : time) (op : gate_op) (d : Db) : Db :=
  match op with
  | GRequire a r q => (require key true a r q now d).2
  | GComplete g ev a r q => (complete key true g ev a r q now d).2
  | GFail g code ev a r q => (fail_ key true g code ev a r q now d).2
  end.

Definition run_gate_ops (ops : list (time * gate_op)) (d : Db) : Db :=
  foldl (λ d x, run_gate_op x.1 x.2 d) d ops.

(** ** What a call leaves in the row *)

(** The three rows the gate writes. *)
Definition required_row (g c : Z) (a r q : string) (now : time) : StartupReconciliationState :=
  mkStartup key g c "required" a r q (JObj []) now None now.

Lemma run_require a r q now d :
  is_ok (startup_context a r q) = true →
  let '(g, c) := match db_startup d !! key with
                 | None => (1, 0) | Some s => (su_generation s + 1, su_completed_generation s) end in
  (require key true a r q now d).1 = Ok g
  ∧ ∃ a' r' q', db_startup (require key true a r q now d).2 !! key = Some (required_row g c a' r' q' now).
Proof.
  unfold require. destruct (startup_context a r q) as [[[a' r'] q']|]; [intros _|done].
  unfold with_session, mbind, tx_bind, read. cbn [working negb].
  destruct (db_startup d !! key) as [s|]; (split; [reflexivity|]);
    exists a', r', q'; apply lookup_insert_eq.
Qed.

(** The row after [complete]: unchanged, or the proof of its own generation. *)
Lemma run_complete g ev a r q now d :
  let d' := (complete key true g ev a r q now d).2 in
  (d' = d ∧ ∀ s, is_ok (startup_context a r q) = true → db_startup d !! key = Some s →
              su_generation s = g → 0 < g → su_status s = "current" ∧ su_completed_generation s = g)
  ∨ ∃ s a' r' q', is_ok (startup_context a r q) = true ∧ db_startup d !! key = Some s
      ∧ su_generation s = g
      ∧ db_startup d' !! key = Some (mkStartup (su_broker s) g g "current" a' r' q' (JObj ev)
                                       (su_started_at s) (Some now) now).
Proof.
  simpl. unfold complete. destruct (startup_context a r q) as [[[a' r'] q']|]; [|by left].
  destruct (Z.leb_spec g 0); [left; split; [done|lia]|].
  unfold with_session, mbind, tx_bind, read. cbn [working negb].
  destruct (db_startup d !! key) as [s|] eqn:Hs; [|by left].
  destruct (Z.eqb_spec (su_generation s) g) as [Hg|]; [|left; split; naive_solver]. cbn [negb].
  destruct (bool_decide (su_status s = "current") && (su_completed_generation s =? g)) eqn:Hc.
  { left. split; [done|]. reflect_bools. intros ? _ [= <-]. split; [done|]. by apply Z.eqb_eq. }
  right. exists s, a', r', q'. split_and!; try done. subst g. apply lookup_insert_eq.
Qed.

(** The row after [fail]: unchanged, or the failure of its own, unproven generation. *)
Lemma run_fail g code ev a r q now d :
  let d' := (fail_ key true g code ev a r q now d).2 in
  (d' = d ∧ ∀ s, gate_op_valid (GFail g code ev a r q) = true → db_startup d !! key = Some s →
              su_generation s = g → g ≤ su_completed_generation s)
  ∨ ∃ s a' r' q' e, gate_op_valid (GFail g code ev a r q) = true ∧ db_startup d !! key = Some s
      ∧ su_generation s = g ∧ su_completed_generation s < g
      ∧ db_startup d' !! key = Some (mkStartup (su_broker s) g (su_completed_generation s) "failed"
                                       a' r' q' e (su_started_at s) None now).
Proof.
  simpl. unfold fail_. destruct (startup_context a r q) as [[[a' r'] q']|]; [|by left].
  destruct (failure_code_fullmatch (strip code)); [|by left]. cbn [negb].
  unfold with_session, mbind, tx_bind, read. cbn [working].
  destruct (db_startup d !! key) as [s|] eqn:Hs; [|by left].
  destruct (Z.eqb_spec (su_generation s) g) as [Hg|]; [|left; split; naive_solver]. cbn [negb orb].
  destruct (Z.leb_spec g (su_completed_generation s)); [left; split; naive_solver|].
  right. exists s, a', (strip code), q'. eexists. split_and!; try done. subst g. apply lookup_insert_eq.
Qed.

Lemma run_require_bad a r q now d :
  is_ok (startup_context a r q) = false → (require key true a r q now d).2 = d.
Proof. unfold require. by destruct (startup_context a r q) as [[[]]|]. Qed.

(** ** The latch holds until its own generation is proven *)

Definition latched (g : Z) (d : Db) : Prop :=
  ∃ r, db_startup d !! key = Some r ∧ g ≤ su_generation r ∧ su_status r ≠ "current".

(** A completion of generation [g] or a later one. *)
Definition completes_from (g : Z) (op : gate_op) : bool :=
  match op with GComplete g' _ _ _ _ => g <=? g' | _ => false end.

Lemma run_gate_op_latched g now op d :
  completes_from g op = false → latched g d → latched g (run_gate_op now op d).
Proof.
  intros Hop (row & Hrow & Hg & Hst). destruct op as [a r q|g' ev a r q|g' code ev a r q]; simpl in *.
  - destruct (is_ok (startup_context a r q)) eqn:E; [|rewrite run_require_bad by done; by exists row].
    pose proof (run_require a r q now d E) as H. rewrite Hrow in H. destruct H as (_ & a' & r' & q' & H).
    eexists. split; [exact H|]. simpl. split; [lia|done].
  - destruct (run_complete g' ev a r q now d) as [[-> _]|(s & ? & ? & ? & _ & Hs & Hgen & _)]; [by exists row|].
    simplify_eq. apply Z.leb_gt in Hop. lia.
  - destruct (run_fail g' code ev a r q now d) as [[-> _]|(s & ? & ? & ? & ? & _ & Hs & Hgen & _ & H)];
      [by exists row|].
    simplify_eq. eexists. split; [exact H|]. simpl. split; [lia|done].
Qed.

Lemma run_gate_ops_latched g ops : ∀ d,
  Forall (λ x : time * gate_op, completes_from g x.2 = false) ops → latched g d →
  latched g (run_gate_ops ops d).
Proof.
  induction ops as [|[now op] ops IH]; intros d Hops Hd; [done|].
  apply Forall_cons in Hops as [Hop Hops]. apply (IH (run_gate_op now op d)); [done|].
  by apply run_gate_op_latched.
Qed.

Lemma latched_not_current g d expected rf t : latched g d → is_current key true expected rf t d = false.
Proof.
  intros (r & Hr & _ & Hst). unfold is_current. cbn [negb]. destruct rf; [done|]. rewrite Hr.
  unfold validate_startup_reconciliation_snapshot. cbv zeta.
  rewrite (bool_decide_false (su_status r = "current")) by done.
  repeat match goal with |- context [if ?b then _ else _] => destruct b end; done.
Qed.

(** Requiring reconciliation latches.  [require] returns the next generation, and from then
    on the gate never reports itself current, whatever stored row it started from, whatever
    calls for older generations, failures and further requirements follow and whatever the
    clock says, until that generation or a later one is completed. *)
Theorem startup_latch_holds a r q now d g d' ops expected rf t :
  require key true a r q now d = (Ok g, d') →
  Forall (λ x : time * gate_op, completes_from g x.2 = false) ops →
  g = current_generation key true d + 1
  ∧ is_current key true expected rf t (run_gate_ops ops d') = false.
Proof.
  intros Hreq Hops.
  destruct (is_ok (startup_context a r q)) eqn:E.
  2: { unfold require in Hreq. by destruct (startup_context a r q) as [[[]]|]. }
  pose proof (run_require a r q now d E) as H. rewrite Hreq in H. simpl in H. unfold current_generation. cbn [negb].
  destruct (db_startup d !! key) as [s|]; destruct H as (Hg & a' & r' & q' & H); injection Hg as ->;
    (split; [done|]); eapply latched_not_current, run_gate_ops_latched; try exact Hops;
    eexists; (split; [exact H|]); simpl; (split; [lia|done]).
Qed.

(** ** The stored row implements the latch *)

(** The rows the gate keeps for generation [g] in phase [p], written at or before [now]. *)
Record row_is (now g : Z) (p : phase) (r : StartupReconciliationState) : Prop := {
  ri_generation : su_generation r = g;
  ri_positive : 0 < g;
  ri_completed : 0 ≤ su_completed_generation r;
  ri_times : su_started_at r ≤ su_updated_at r ≤ now;
  ri_status : su_status r = phase_status p;
  ri_phase : match p with
             | Proven => su_completed_generation r = g
                 ∧ ∃ c, su_completed_at r = Some c ∧ su_started_at r ≤ c ≤ su_updated_at r
             | _ => su_completed_generation r < g ∧ su_completed_at r = None
             end;
}.

Definition simulates (now : Z) (d : Db) (s : latch) : Prop :=
  match db_startup d !! key, s with
  | None, None => True
  | Some r, Some (g, p) => row_is now g p r
  | _, _ => False
  end.

Lemma row_is_later now now' g p r : now ≤ now' → row_is now g p r → row_is now' g p r.
Proof. intros ? []. constructor; try done. lia. Qed.

Lemma simulates_later now now' d s : now ≤ now' → simulates now d s → simulates now' d s.
Proof.
  unfold simulates. intros Hn. destruct (db_startup d !! key), s as [[]|]; try done.
  by apply row_is_later.
Qed.

Lemma simulates_row now d g p r :
  db_startup d !! key = Some r → row_is now g p r → simulates now d (Some (g, p)).
Proof. intros Hr ?. unfold simulates. by rewrite Hr. Qed.

Lemma row_proven_iff now g p r :
  row_is now g p r → (su_status r = "current" ∧ su_completed_generation r = g) ↔ p = Proven.
Proof.
  intros [_ _ _ _ -> Hp]. destruct p; cbn [phase_status]; (split; [by intros [? ?]|]); try done.
  intros _. split; [done|apply Hp].
Qed.

Lemma run_gate_op_simulates now op d s :
  simulates now d s → simulates now (run_gate_op now op d) (latch_step op s).
Proof.
  intros Hsim. unfold latch_step.
  destruct op as [a r q|g ev a r q|g code ev a r q]; unfold run_gate_op.
  - cbn [gate_op_valid]. destruct (is_ok (startup_context a r q)) eqn:E; [|by rewrite run_require_bad].
    pose proof (run_require a r q now d E) as H. unfold simulates in Hsim.
    destruct (db_startup d !! key) as [row|], s as [[g p]|]; try done;
      destruct H as (_ & a' & r' & q' & H); apply (simulates_row _ _ _ _ _ H).
    + destruct Hsim as [<- ? ? ? _ Hp]. constructor; simpl; try done; try lia. split; [|done].
      destruct p; lia.
    + constructor; simpl; try done; lia.
  - cbn [gate_op_valid]. destruct (run_complete g ev a r q now d) as [[-> Hno]|(row & ? & ? & ? & -> & Hrow & Hg & H)].
    + destruct (is_ok (startup_context a r q)) eqn:E; [|done]. unfold simulates in *.
      destruct (db_startup d !! key) as [row|] eqn:Hrow, s as [[g' p]|]; try done.
      destruct (Z.eqb_spec g g') as [->|]; [|done].
      destruct (Hno row) as [? ?]; [done|done|apply Hsim|apply Hsim|].
      assert (p = Proven) as -> by (by apply (row_proven_iff _ _ _ _ Hsim)). done.
    + unfold simulates in Hsim. rewrite Hrow in Hsim. destruct s as [[g' p]|]; [|done].
      pose proof (ri_generation _ _ _ _ Hsim). subst g'. rewrite Hg, Z.eqb_refl.
      apply (simulates_row _ _ _ _ _ H). destruct Hsim as [_ ? ? ? _ _].
      constructor; simpl; try done; try lia. split; [done|]. eexists. split; [done|lia].
  - destruct (run_fail g code ev a r q now d) as [[-> Hno]|(row & ? & ? & ? & ? & -> & Hrow & Hg & Hlt & H)].
    + destruct (gate_op_valid _) eqn:E; [|done]. unfold simulates in *.
      destruct (db_startup d !! key) as [row|] eqn:Hrow, s as [[g' p]|]; try done.
      destruct p; try done; (destruct (Z.eqb_spec g g') as [->|]; [|done]);
        (assert (g' ≤ su_completed_generation row) by (apply (Hno row); [done|done|apply Hsim]));
        destruct Hsim as [_ _ _ _ _ [? _]]; lia.
    + unfold simulates in Hsim. rewrite Hrow in Hsim. destruct s as [[g' p]|]; [|done].
      pose proof (ri_generation _ _ _ _ Hsim). subst g'. rewrite Hg, Z.eqb_refl.
      destruct Hsim as [_ ? ? ? _ Hp].
      destruct p; [| |destruct Hp; lia]; apply (simulates_row _ _ _ _ _ H); constructor; simpl; try done; lia.
Qed.

(** Each call reads a clock that does not go back. *)
Fixpoint clocked (now : time) (ops : list (time * gate_op)) : Prop :=
  match ops with
  | [] => True
  | (t, _) :: ops' => now ≤ t ∧ clocked t ops'
  end.

Fixpoint last_clock (now : time) (ops : list (time * gate_op)) : time :=
  match ops with [] => now | (t, _) :: ops' => last_clock t ops' end.

Lemma run_gate_ops_simulates ops : ∀ now d s,
  clocked now ops → simulates now d s →
  simulates (last_clock now ops) (run_gate_ops ops d) (latch_run ops s).
Proof.
  induction ops as [|[t op] ops IH]; intros now d s Hc Hsim; [done|]. destruct Hc as [Hle Hc].
  apply (IH t); [done|]. apply run_gate_op_simulates. by eapply simulates_later.
Qed.

Lemma row_validates now g p r t expected :
  row_is now g p r → now ≤ t →
  let v := validate_startup_reconciliation_snapshot r t expected in
  v_valid v && v_current v = latch_current (Some (g, p)) expected.
Proof.
  intros [<- Hpos Hcomp Ht Hst Hp] Hnow. unfold validate_startup_reconciliation_snapshot, between. cbv zeta.
  rewrite (proj2 (Z.leb_gt _ _) Hpos), (proj2 (Z.ltb_ge _ _) Hcomp).
  assert (su_generation r <? su_completed_generation r = false) as ->
    by (apply Z.ltb_ge; destruct p; lia).
  rewrite (bool_decide_false (su_status r ∉ startup_statuses))
    by (rewrite Hst; destruct p; vm_compute; intros H; apply H; repeat constructor).
  rewrite !(proj2 (Z.leb_le _ _)) by lia. rewrite Hst. cbn [orb negb andb].
  assert (match expected with None => false | Some e => (e <=? 0) || negb (su_generation r =? e) end
          = match expected with None => false | Some e => negb (e =? su_generation r) end) as ->.
  { destruct expected as [e|]; [|done]. rewrite (Z.eqb_sym (su_generation r)).
    destruct (Z.eqb_spec e (su_generation r)) as [->|]; cbn [negb]; [|by rewrite orb_true_r].
    rewrite orb_false_r. by apply Z.leb_gt. }
  assert (∀ b : bool, match expected with None => false | Some e => negb (e =? su_generation r) end = b →
    latch_current (Some (su_generation r, Proven)) expected = negb b) as Hl.
  { intros b <-. destruct expected; simpl; [by rewrite negb_involutive|done]. }
  destruct (match expected with None => false | Some _ => _ end) eqn:E.
  { destruct p; try done. by rewrite (Hl true). }
  destruct p; cbn [phase_status].
  - destruct Hp as [? ->]. rewrite (proj2 (Z.leb_gt _ _)) by lia. done.
  - destruct Hp as [? ->]. rewrite (proj2 (Z.leb_gt _ _)) by lia. done.
  - destruct Hp as (-> & c & -> & ?). rewrite Z.eqb_refl, !(proj2 (Z.leb_le _ _)) by lia.
    by rewrite (Hl false).
Qed.

(** Claim C16.  The stored latch implements the abstract one.  From a database without a row, after any
    calls on a clock that does not go back, the gate reports itself current (for a given
    generation or for any) exactly when the newest required generation has been completed,
    and its generation and status are those of the abstract latch: completions and failures
    of older generations and failures after a completion change nothing. *)
Theorem startup_gate_refines ops now d expected t :
  db_startup d !! key = None → clocked now ops → last_clock now ops ≤ t →
  let s := latch_run ops None in
  is_current key true expected false t (run_gate_ops ops d) = latch_current s expected
  ∧ current_generation key true (run_gate_ops ops d) = latch_generation s
  ∧ po_status (posture key true (run_gate_ops ops d))
    = match s with None => "required" | Some (_, p) => phase_status p end.
Proof.
  intros Hd Hc Ht s. pose proof (run_gate_ops_simulates ops now d None Hc) as Hsim.
  unfold simulates in Hsim at 1. rewrite Hd in Hsim. specialize (Hsim I). fold s in Hsim.
  unfold simulates in Hsim. unfold is_current, current_generation, posture. cbn [negb].
  destruct (db_startup (run_gate_ops ops d) !! key) as [r|], s as [[g p]|]; try done.
  split_and!; [by eapply row_validates|apply Hsim|apply Hsim].
Qed.

End Refinement.

(** * Concrete runs *)

(** Two starts: the first one's completion arrives after the second began. *)
Definition demo_gate_ops : list (time * gate_op) :=
  [ (10, GRequire "svc" "start" "r1"); (20, GRequire "svc" "start" "r2");
    (30, GComplete 1 [] "svc" "late" "r3"); (40, GFail 2 "broker_down" [] "svc" "late" "r4") ].

Lemma startup_latch_holds_witness :
  ∃ d', require "alpaca" true "svc" "start" "r1" 10 empty_db = (Ok 1, d')
    ∧ is_current "alpaca" true None false 50
        (run_gate_ops "alpaca" [(20, GComplete 0 [] "svc" "late" "r2")] d') = false.
Proof.
  eexists. split; [vm_compute; reflexivity|].
  eapply (startup_latch_holds "alpaca" "svc" "start" "r1" 10 empty_db 1); [vm_compute; reflexivity|].
  repeat constructor.
Defined.

Lemma startup_gate_refines_witness :
  is_current "alpaca" true None false 60
    (run_gate_ops "alpaca" (demo_gate_ops ++ [(50, GComplete 2 [] "svc" "done" "r5")]) empty_db) = true
  ∧ is_current "alpaca" true None false 60 (run_gate_ops "alpaca" demo_gate_ops empty_db) = false.
Proof.
  split.
  - rewrite (proj1 (startup_gate_refines "alpaca" (demo_gate_ops ++ [(50, GComplete 2 [] "svc" "done" "r5")])
      0 empty_db None 60 eq_refl ltac:(simpl; lia) ltac:(simpl; lia))).
    vm_compute. reflexivity.
  - rewrite (proj1 (startup_gate_refines "alpaca" demo_gate_ops
      0 empty_db None 60 eq_refl ltac:(simpl; lia) ltac:(simpl; lia))).
    vm_compute. reflexivity.
Defined.
