(* ===== verification/Snapshot.v ===== *)
(** Assembly of the risk snapshot: [orders/snapshot.py].

    What one assembly observes of the outside (the broker, the clock, external holdings, and
    which local reads fail) is a [Providers] record; the local state is the database.  The
    account high-water mark is the only row an assembly writes.  [stored_numeric] is what the
    database returns for a value written to a [Numeric(20, 6)] column. *)

From S2P Require Import Prelude PyDecimal Assets BrokerModels Breakers RiskRules RiskEngine.
From S2P Require Import Pnl MarketClock Database Lifecycle BreakerStore OrderRepository.
From S2P Require Import Submission SafetyState Startup.
From Stdlib Require Import Lia.
Local Open Scope Z_scope.

Definition PENDING_STATUSES : list string :=
  map order_status_value [APPROVAL_RECORDED; SUBMITTING; ACCEPTANCE_UNKNOWN; SUBMITTED; PARTIALLY_FILLED].
Definition UNRECONCILED_STATUSES : list string := map order_status_value [SUBMITTING; ACCEPTANCE_UNKNOWN].
Definition MAX_RECENT_MARKET_OPEN_AGE : Z := 15 * day.

(** The outside world during one assembly. *)
Record Providers : Type := mkProviders {
  pv_now : time;
  pv_account : outcome Account;
  pv_positions : outcome (list Position);
  pv_external : outcome (dict Decimal);
  pv_observe : AssetClass → time → outcome MarketClockObservation;
  pv_quote : string → outcome Quote;
  pv_discovery_fails : bool;
  pv_local_fails : bool;
}.

(** * Positions *)

Definition set_p_ticker (t : string) (p : Position) : Position :=
  mkPosition t (p_qty p) (avg_entry_price p) (current_price p) (unrealized_intraday_pnl p).

(** The comprehension over [local_crypto_symbols] for one broker symbol. *)
Fixpoint matching_local (broker_symbol : string) (locals : list string) : outcome (list string) :=
  match locals with
  | [] => Ok []
  | l :: ls =>
      m ← broker_symbol_matches_local broker_symbol l;
      rest ← matching_local broker_symbol ls;
      Ok (if m : bool then l :: rest else rest)
  end.

(** One pass of the loop over (seen, canonical_positions, complete). *)
Definition canonical_step (locals : list string) (st : list string * list Position * bool)
    (x : Position * string) : outcome (list string * list Position * bool) :=
  let '(seen, canonical_positions, complete) := st in
  let '(position, broker_symbol) := x in
  matching ← matching_local broker_symbol locals;
  let canonical_symbol := match matching with [l] => l | _ => broker_symbol end in
  Ok (if (1 <? length matching)%nat || bool_decide (canonical_symbol ∈ seen)
      then (seen, canonical_positions, false)
      else (seen ++ [canonical_symbol],
            canonical_positions ++ [set_p_ticker canonical_symbol position], complete)).

Definition canonical_positions (positions : list Position) (local_symbols : list string)
    : outcome (list Position * bool) :=
  normalized ← outcome_mapM (λ p, canonicalize_broker_symbol (p_ticker p) None None) positions;
  locals ← outcome_mapM (λ s, canonicalize_broker_symbol s None None)
             (filter (λ s, has_slash s = true)
                (local_symbols ++ filter (λ s, has_slash s = true) normalized));
  st ← outcome_foldl (canonical_step (dedup locals)) ([], [], true) (zip positions normalized);
  Ok (st.1.2, st.2).

(** * Quotes and the clock *)

Fixpoint fetch_quotes (get_quote : string → outcome Quote) (required : bool)
    (quotes : dict Quote) (symbols : list string) : outcome (dict Quote) :=
  match symbols with
  | [] => Ok quotes
  | s :: rest =>
      match dict_get quotes s with
      | Some _ => fetch_quotes get_quote required quotes rest
      | None =>
          match get_quote s with
          | Ok q => fetch_quotes get_quote required (dict_set quotes s q) rest
          | Raise _ => if required then Raise RequiredQuoteUnavailable
                       else fetch_quotes get_quote required quotes rest
          end
      end
  end.

Definition fetch_missing_quotes (pv : Providers) (quotes : dict Quote) (wanted : gset string)
    (required : bool) : outcome (dict Quote) :=
  fetch_quotes (pv_quote pv) required quotes (sorted_strings (elements wanted)).

(** (market_open, market_clock_complete, boundary). *)
Definition market_clock_values (pv : Providers) (asset_class : AssetClass) (captured_at : time)
    (required_dependencies : bool) : outcome (bool * bool * option time) :=
  match (observation ← pv_observe pv asset_class captured_at;
         let boundary_age := captured_at - ob_most_recent_open observation in
         if (boundary_age <? 0) || (MAX_RECENT_MARKET_OPEN_AGE <? boundary_age)
         then Raise (ValueError "inconsistent market session boundary")
         else Ok observation) with
  | Ok observation => Ok (ob_is_open observation, true, Some (ob_most_recent_open observation))
  | Raise _ => if required_dependencies then Raise RequiredDependencyUnavailable
               else Ok (false, false, None)
  end.

Definition max_quote_age (config_for_asset : option (AssetClass → RiskConfig)) (a : AssetClass) : Decimal :=
  match config_for_asset with None => of_Z 60 | Some f => max_quote_age_seconds (f a) end.

Definition quote_is_fresh (config_for_asset : option (AssetClass → RiskConfig)) (q : Quote)
    (captured_at : time) (a : AssetClass) : bool :=
  quote_is_valid q
  && forallb (λ t, negb (is_stale t captured_at (max_quote_age config_for_asset a)
                           DEFAULT_MAX_FUTURE_SKEW_SECONDS))
       [q_book_as_of q; q_trade_as_of q].

(** The result of [_provider_values]. *)
Record ProviderValues : Type := mkProviderValues {
  pr_account : Account;
  pr_positions : list Position;
  pr_exposure_complete : bool;
  pr_external : dict Decimal;
  pr_quotes : dict Quote;
  pr_wanted : gset string;
  pr_market_open : bool;
  pr_clock_complete : bool;
  pr_boundary : option time;
}.

Definition upper_keys {A} (d : dict A) : dict A :=
  foldl (λ acc x, dict_set acc (upper x.1) x.2) [] d.

Definition provider_values (pv : Providers) (tickers : list string) (asset_class : AssetClass)
    (captured_at : time) (quote_overrides : dict Quote) (required : bool) : outcome ProviderValues :=
  '(account, positions) ←
    match (account ← pv_account pv;
           positions ← pv_positions pv;
           if existsb (λ p, negb (risk_values_valid p)) positions
           then Raise (ValueError "invalid broker position payload")
           else Ok (account, positions)) with
    | Ok x => Ok x
    | Raise e => if required then Raise RequiredDependencyUnavailable else Raise e
    end;
  '(positions, exposure_complete) ← canonical_positions positions tickers;
  external ← pv_external pv;
  '(market_open, clock_complete, boundary) ← market_clock_values pv asset_class captured_at required;
  let wanted : gset string := list_to_set (map upper tickers) ∪ list_to_set (map (upper ∘ p_ticker) positions) in
  quotes ← fetch_missing_quotes pv (upper_keys quote_overrides) wanted required;
  Ok (mkProviderValues account positions exposure_complete external quotes wanted
        market_open clock_complete boundary).

(** * Local state *)

Definition is_pending (exclude : option Z) (o : Order) : bool :=
  bool_decide (o_status o ∈ PENDING_STATUSES) && bool_decide (exclude ≠ Some (o_id o)).

(** The pending orders in primary-key order. *)
Definition pending_orders (d : Db) (exclude : option Z) : list Order :=
  omap (λ id, db_orders d !! id) (select_ids (is_pending exclude) (db_orders d)).

Definition pending_symbols (pv : Providers) (d : Db) (exclude : option Z) : gset string * bool :=
  if pv_discovery_fails pv then (∅, false)
  else (list_to_set (map (upper ∘ o_ticker) (pending_orders d exclude)), true).

(** ** The account high-water mark *)

Section HighWaterMark.
Context (stored_numeric : Decimal → Decimal).

(** The upsert's row; [func.max] keeps the stored mark on a tie. *)
Definition raised_mark (old : option AccountRiskState) (asset_class : AssetClass) (equity : Decimal)
    (now : time) : AccountRiskState :=
  let equity := stored_numeric equity in
  mkAccountRisk (asset_class_value asset_class)
    (match old with
     | None => equity
     | Some r => if dcmp_lt (ar_high_water_mark r) equity then equity else ar_high_water_mark r
     end) equity now.

Definition account_high_water_mark_of (asset_class : AssetClass) (account : Account) (captured_at : time)
    (d : Db) : Decimal * Db :=
  let key := asset_class_value asset_class in
  let row := db_account_risk d !! key in
  if negb (account_is_valid account)
  then (match row with None => dzero | Some r => ar_high_water_mark r end, d)
  else
    let row' := raised_mark row asset_class (a_equity account) captured_at in
    (ar_high_water_mark row', set_db_account_risk (<[key := row']> (db_account_risk d)) d).
End HighWaterMark.

Definition observed_account_high_water_mark (asset_class : AssetClass) (account : Account) (d : Db)
    : outcome Decimal :=
  let persisted := match db_account_risk d !! asset_class_value asset_class with
                   | None => dzero
                   | Some r => if pos_finite (ar_high_water_mark r) then ar_high_water_mark r else dzero
                   end in
  if account_is_valid account then dmax persisted (a_equity account) else Ok persisted.

(** ** Pending exposure *)

Definition add_to (dct : dict Decimal) (symbol : string) (x : Decimal) : outcome (dict Decimal) :=
  total ← dadd (default dzero (dict_get dct symbol)) x;
  Ok (dict_set dct symbol total).

(** (remaining_notional, remaining_qty) of a pending order with its recorded fills. *)
Definition remaining_of (o : Order) (q : Quote) (fills : list Fill) : outcome (Decimal * Decimal) :=
  recorded_qty ← dsum (map fl_qty fills);
  notionals ← outcome_mapM (λ f, dmul (fl_qty f) (fl_price f)) fills;
  recorded_notional ← dsum notionals;
  match o_qty o with
  | Some qty =>
      left_ ← dsub qty recorded_qty;
      remaining_qty ← dmax left_ dzero;
      price ← (if bool_decide (o_side o = order_side_value BUY)
               then type ← order_type_of (o_order_type o);
                    conservative_buy_price type (o_limit_price o) q
               else Ok (q_last q));
      remaining_notional ← dmul remaining_qty price;
      Ok (remaining_notional, remaining_qty)
  | None =>
      let notional := match o_notional o with
                      | Some n => if deq n dzero then dzero else n
                      | None => dzero
                      end in
      left_ ← dsub notional recorded_notional;
      remaining_notional ← dmax left_ dzero;
      remaining_qty ← ddiv remaining_notional (q_last q);
      Ok (remaining_notional, remaining_qty)
  end.

Record Exposure : Type := mkExposure {
  x_buy : dict Decimal;
  x_sell : dict Decimal;
  x_complete : bool;
}.

Definition fills_of (fills : list Fill) (o : Order) : list Fill :=
  filter (λ f, fl_order_id f = Some (o_id o)) fills.

Definition pending_step (quotes : dict Quote) (fills : list Fill) (x : Exposure) (o : Order)
    : outcome Exposure :=
  let symbol := upper (o_ticker o) in
  match dict_get quotes symbol with
  | None => Ok (mkExposure (x_buy x) (x_sell x) false)
  | Some q =>
      if negb (quote_is_valid q) then Ok (mkExposure (x_buy x) (x_sell x) false)
      else
        '(remaining_notional, remaining_qty) ← remaining_of o q (fills_of fills o);
        if bool_decide (o_side o = order_side_value BUY)
        then b ← add_to (x_buy x) symbol remaining_notional; Ok (mkExposure b (x_sell x) (x_complete x))
        else s ← add_to (x_sell x) symbol remaining_qty; Ok (mkExposure (x_buy x) s (x_complete x))
  end.

(** ** The local part of the snapshot *)

(** The variables the guarded block assigns. *)
Record LocalState : Type := mkLocalState {
  ls_exposure : Exposure;
  ls_daily_pnl_complete : bool;
  ls_broker_reconciled : bool;
  ls_realized : Decimal;
}.

Definition startup_reconciled (key : option string) (captured_at : time) (d : Db) : bool :=
  match key with
  | None => true
  | Some k =>
      match db_startup d !! k with
      | None => false
      | Some r => let v := validate_startup_reconciliation_snapshot r captured_at None in
                  v_valid v && v_current v
      end
  end.

Definition legacy_fill_reconciliation_required (d : Db) : bool :=
  existsb fill_requires_reconciliation (db_fills d).

Definition fill_reconciliation_required (d : Db) : bool :=
  negb (bool_decide (select_ids (λ o, bool_decide (o_acceptance_state o = FILL_RECONCILIATION_REQUIRED))
                       (db_orders d) = []))
  || legacy_fill_reconciliation_required d.

Definition broker_reconciled_of (startup_key : option string) (exposure_complete drift_active : bool)
    (captured_at : time) (d : Db) : bool :=
  startup_reconciled startup_key captured_at d
  && exposure_complete
  && bool_decide (select_ids (λ o, bool_decide (o_status o ∈ UNRECONCILED_STATUSES)) (db_orders d) = [])
  && negb (fill_reconciliation_required d)
  && negb drift_active
  && bool_decide (select_ids g_reconciliation_required (db_groups d) = []).

Definition fill_like (f : Fill) : FillLike :=
  mkFill (fl_ticker f) (fl_side f) (fl_qty f) (fl_price f) (fl_filled_at f).

(** The guarded block of [_assemble_local]; with a boundary, [realized_pnl_today] is
    [realized_pnl] since it. *)
Definition local_state (startup_key : option string) (asset_class : AssetClass) (exclude : option Z)
    (exposure_complete : bool) (quotes : dict Quote) (boundary : option time) (captured_at : time)
    (drift_active discovery_complete daily_pnl_complete : bool) (d : Db) : outcome LocalState :=
  let fills := filter (λ f, fill_has_trusted_identity f = true) (db_fills d) in
  exposure ← outcome_foldl (pending_step quotes fills)
    (mkExposure [] [] (discovery_complete && exposure_complete
                       && negb (legacy_fill_reconciliation_required d)))
    (pending_orders d exclude);
  let class_fills := map fill_like (filter (λ f, for_symbol (fl_ticker f) = asset_class) fills) in
  '(realized, daily) ←
    match boundary with
    | None => Ok (dzero, false)
    | Some b => r ← realized_pnl class_fills (Some b); Ok (r, daily_pnl_complete)
    end;
  let '(realized, daily) := if is_finite realized then (realized, daily) else (dzero, false) in
  Ok (mkLocalState exposure (daily && negb (fill_reconciliation_required d))
        (broker_reconciled_of startup_key exposure_complete drift_active captured_at d) realized).

Definition failed_local_state : LocalState := mkLocalState (mkExposure [] [] false) false false dzero.

Definition spread_pct (q : Quote) : outcome Decimal :=
  width ← dsub (q_ask q) (q_bid q); ratio ← ddiv width (q_last q); dmul ratio (of_Z 100).

Definition assemble_local (config_for_asset : option (AssetClass → RiskConfig)) (startup_key : option string)
    (local_fails : bool) (asset_class : AssetClass) (exclude : option Z) (v : ProviderValues)
    (quotes : dict Quote) (wanted : gset string) (captured_at : time) (high_water_mark : Decimal)
    (active_breakers : gset string) (discovery_complete : bool) (d : Db) : outcome PortfolioSnapshot :=
  let positions := pr_positions v in
  let account := pr_account v in
  let pos_map := foldl (λ m p, dict_set m (upper (p_ticker p)) p) [] positions in
  spreads ← outcome_mapM (λ x, s ← spread_pct x.2; Ok (x.1, s))
              (filter (λ x, quote_is_valid x.2 = true) quotes);
  let fresh := forallb (λ s, match dict_get quotes s with
                             | None => false
                             | Some q => quote_is_fresh config_for_asset q captured_at asset_class
                             end) (elements wanted) in
  let relevant := filter (λ p, for_symbol (p_ticker p) = asset_class) positions in
  let drift_active := bool_decide (scope_key scope_broker_drift ∈ active_breakers) in
  let finite_unrealized := filter (λ x, is_finite x = true) (omap unrealized_intraday_pnl relevant) in
  let daily_pnl_complete := pr_clock_complete v && pr_exposure_complete v
    && (length finite_unrealized =? length relevant)%nat && negb drift_active in
  unrealized ← dsum finite_unrealized;
  let ls :=
    match (if local_fails then Raise (OtherException "database") else
           local_state startup_key asset_class exclude (pr_exposure_complete v) quotes (pr_boundary v)
             captured_at drift_active discovery_complete daily_pnl_complete d) with
    | Ok ls => ls
    | Raise _ => failed_local_state
    end in
  let x := ls_exposure ls in
  Ok (mkSnapshot pos_map quotes (a_buying_power account) (ls_realized ls) (a_cash account) unrealized
        (ls_daily_pnl_complete ls) high_water_mark (a_equity account)
        (account_is_valid account && pos_finite high_water_mark) fresh (pr_market_open v)
        (pr_clock_complete v) spreads (x_buy x) (x_sell x) (ls_broker_reconciled ls) active_breakers
        captured_at (pr_external v) (x_buy x) (x_complete x)).

(** * [assemble_for_execution] and [assemble_for_confirmation] *)

Section Assemble.
Context (stored_numeric : Decimal → Decimal).
Context (config_for_asset : option (AssetClass → RiskConfig)) (startup_key : option string).

Definition assemble_required_snapshot (pv : Providers) (ticker : string) (exclude : option Z)
    (persist_account_state : bool) (d : Db) : outcome PortfolioSnapshot * Db :=
  let captured_at := pv_now pv in
  let asset_class := for_symbol ticker in
  match (v ← provider_values pv [ticker] asset_class captured_at [] true;
         let '(pending, discovery_complete) := pending_symbols pv d exclude in
         let wanted := pr_wanted v ∪ pending in
         quotes ← fetch_missing_quotes pv (pr_quotes v) wanted true;
         Ok (v, quotes, wanted, discovery_complete)) with
  | Raise e => (Raise e, d)
  | Ok (v, quotes, wanted, discovery_complete) =>
      let '(mark, d1) :=
        if persist_account_state
        then let '(m, d1) := account_high_water_mark_of stored_numeric asset_class (pr_account v) captured_at d
             in (Ok m, d1)
        else (observed_account_high_water_mark asset_class (pr_account v) d, d) in
      (high_water_mark ← mark;
       active ← active_for_symbol ticker d1;
       snapshot ← assemble_local config_for_asset startup_key (pv_local_fails pv) asset_class exclude v quotes
         wanted captured_at high_water_mark (list_to_set (map (scope_key ∘ bs_scope) active))
         discovery_complete d1;
       if quote_fresh snapshot then Ok snapshot else Raise RequiredQuoteUnavailable, d1)
  end.

Definition assemble_for_execution (pv : Providers) (ticker : string) (exclude : option Z) (d : Db)
    : outcome PortfolioSnapshot * Db :=
  assemble_required_snapshot pv ticker exclude true d.

Definition assemble_for_confirmation (pv : Providers) (ticker : string) (exclude : option Z) (d : Db)
    : outcome PortfolioSnapshot * Db :=
  assemble_required_snapshot pv ticker exclude false d.

(** [assemble] in the caller's session. *)
Definition assemble (pv : Providers) (tickers : list string) (asset_class : AssetClass)
    (exclude : option Z) (quote_overrides : dict Quote) (required : bool) (d : Db)
    : outcome PortfolioSnapshot * Db :=
  let captured_at := pv_now pv in
  match (v ← provider_values pv tickers asset_class captured_at quote_overrides required;
         let '(pending, discovery_complete) := pending_symbols pv d exclude in
         let wanted := pr_wanted v ∪ pending in
         quotes ← fetch_missing_quotes pv (pr_quotes v) wanted required;
         Ok (v, quotes, wanted, discovery_complete)) with
  | Raise e => (Raise e, d)
  | Ok (v, quotes, wanted, discovery_complete) =>
      let '(high_water_mark, d1) :=
        account_high_water_mark_of stored_numeric asset_class (pr_account v) captured_at d in
      match head tickers with
      | None => (Raise (OtherException "IndexError"), d1)
      | Some ticker =>
          (active ← active_for_symbol ticker d1;
           snapshot ← assemble_local config_for_asset startup_key (pv_local_fails pv) asset_class exclude v
             quotes wanted captured_at high_water_mark (list_to_set (map (scope_key ∘ bs_scope) active))
             discovery_complete d1;
           if required && negb (quote_fresh snapshot) then Raise RequiredQuoteUnavailable else Ok snapshot, d1)
      end
  end.
End Assemble.
