(* ===== verification/SnapshotProofs.v ===== *)
(** What an assembled snapshot is evidence of.

    An assembly that fails to read something says so in its completeness flags, and an order
    is approved only on a complete one.  Combined with the submission theorems: no order is
    sent while another one's fate at the broker is unknown. *)

From S2P Require Import Prelude PyDecimal Assets BrokerModels Breakers RiskRules RiskEngine.
From S2P Require Import Pnl MarketClock Database Lifecycle BreakerStore OrderRepository RepositoryLogic.
From S2P Require Import RepositoryProofs Approval Submission SubmissionProofs OrderSystem.
From S2P Require Import SafetyState Startup Snapshot.
From Stdlib Require Import Lia.
Local Open Scope Z_scope.

(** * What an assembly did *)

Section Evidence.
Context (stored_numeric : Decimal → Decimal).
Context (config_for_asset : option (AssetClass → RiskConfig)) (startup_key : option string).

Abbreviation assembled := (assemble_for_execution stored_numeric config_for_asset startup_key).

(** The values an assembly went through, and the database after its only write. *)
Record assembly (pv : Providers) (ticker : string) (exclude : option Z) (d : Db)
    (s : PortfolioSnapshot) (d1 : Db) (v : ProviderValues) (quotes : dict Quote) : Prop := {
  as_values : provider_values pv [ticker] (for_symbol ticker) (pv_now pv) [] true = Ok v;
  as_quotes : fetch_missing_quotes pv (pr_quotes v) (pr_wanted v ∪ (pending_symbols pv d exclude).1) true
              = Ok quotes;
  as_marked : d1 = (account_high_water_mark_of stored_numeric (for_symbol ticker) (pr_account v) (pv_now pv) d).2;
  as_fresh : quote_fresh s = true;
  as_local : ∃ hwm active, active_for_symbol ticker d1 = Ok active
     ∧ assemble_local config_for_asset startup_key (pv_local_fails pv) (for_symbol ticker) exclude v quotes
         (pr_wanted v ∪ (pending_symbols pv d exclude).1) (pv_now pv) hwm
         (list_to_set (map (scope_key ∘ bs_scope) active)) (pending_symbols pv d exclude).2 d1 = Ok s;
}.

Lemma assemble_inv pv ticker exclude d s d1 :
  assembled pv ticker exclude d = (Ok s, d1) → ∃ v quotes, assembly pv ticker exclude d s d1 v quotes.
Proof.
  unfold assemble_for_execution, assemble_required_snapshot. cbv zeta.
  destruct (provider_values _ _ _ _ _ _) as [v|] eqn:Hv; [|done].
  destruct (pending_symbols pv d exclude) as [pending dc] eqn:Hp. unfold mbind at 1, outcome_bind at 1.
  destruct (fetch_missing_quotes _ _ _ _) as [quotes|] eqn:Hq; [|done].
  unfold mbind at 1, outcome_bind at 1.
  destruct (account_high_water_mark_of _ _ _ _ _) as [m d'] eqn:Hm.
  intros [= Hs <-].
  apply outcome_bind_Ok in Hs as (active & Ha & Hs). apply outcome_bind_Ok in Hs as (s' & Hl & Hs).
  destruct (quote_fresh s') eqn:Hf; [|done]. injection Hs as <-.
  exists v, quotes. split; rewrite ?Hp; try done.
  - by rewrite Hm.
  - by exists m, active.
Qed.

(** The write touches the account risk table only. *)
Lemma mark_elsewhere a account now d :
  let d1 := (account_high_water_mark_of stored_numeric a account now d).2 in
  db_orders d1 = db_orders d ∧ db_fills d1 = db_fills d ∧ db_groups d1 = db_groups d
  ∧ db_startup d1 = db_startup d ∧ db_breakers d1 = db_breakers d ∧ db_proposals d1 = db_proposals d.
Proof. unfold account_high_water_mark_of. by destruct (account_is_valid account). Qed.

(** A complete exposure or a reconciled broker is only reported by a guarded block that ran
    to its end. *)
Lemma assemble_local_flags cfg key fails a exclude v quotes wanted now hwm active dc d s :
  assemble_local cfg key fails a exclude v quotes wanted now hwm active dc d = Ok s →
  pending_exposure_complete s = true ∨ broker_reconciled s = true →
  fails = false
  ∧ ∃ ls daily, local_state key a exclude (pr_exposure_complete v) quotes (pr_boundary v) now
        (bool_decide (scope_key scope_broker_drift ∈ active)) dc daily d = Ok ls
      ∧ BrokerModels.quotes s = quotes
      ∧ reserved_sell_qty_by_ticker s = x_sell (ls_exposure ls)
      ∧ pending_buy_notional_by_ticker s = x_buy (ls_exposure ls)
      ∧ pending_exposure_complete s = x_complete (ls_exposure ls)
      ∧ broker_reconciled s = ls_broker_reconciled ls.
Proof.
  unfold assemble_local. cbv zeta. rewrite outcome_bind_Ok. intros (spreads & _ & Hs).
  apply outcome_bind_Ok in Hs as (unrealized & _ & Hs). injection Hs as <-.
  cbn [BrokerModels.quotes pending_exposure_complete broker_reconciled reserved_sell_qty_by_ticker pending_buy_notional_by_ticker].
  destruct fails; [by intros [?|?]|]. destruct (local_state _ _ _ _ _ _ _ _ _ _ _) as [ls|] eqn:Hl; [|by intros [?|?]].
  intros _. split; [done|]. eexists ls, _. split; [exact Hl|]. done.
Qed.

Lemma local_state_inv key a exclude ec quotes b now drift dc daily d ls :
  local_state key a exclude ec quotes b now drift dc daily d = Ok ls →
  outcome_foldl (pending_step quotes (filter (λ f, fill_has_trusted_identity f = true) (db_fills d)))
    (mkExposure [] [] (dc && ec && negb (legacy_fill_reconciliation_required d))) (pending_orders d exclude)
    = Ok (ls_exposure ls)
  ∧ ls_broker_reconciled ls = broker_reconciled_of key ec drift now d.
Proof.
  unfold local_state. cbv zeta. rewrite outcome_bind_Ok. intros (x & Hx & Hs).
  apply outcome_bind_Ok in Hs as ([realized daily'] & _ & Hs).
  destruct (is_finite realized); injection Hs as <-; done.
Qed.

(** * Nothing to reconcile *)

(** The stored state carries no open question about the broker. *)
Record nothing_to_reconcile (now : time) (d : Db) : Prop := {
  nr_orders : ∀ id o, db_orders d !! id = Some o →
    o_status o ≠ order_status_value SUBMITTING ∧ o_status o ≠ order_status_value ACCEPTANCE_UNKNOWN
    ∧ o_acceptance_state o ≠ FILL_RECONCILIATION_REQUIRED;
  nr_fills : ∀ f, f ∈ db_fills d → fill_requires_reconciliation f = false;
  nr_groups : ∀ id g, db_groups d !! id = Some g → g_reconciliation_required g = false;
  nr_startup : ∀ k, startup_key = Some k → is_current k true None false now d = true;
  nr_drift : ∀ r, db_breakers d !! scope_key scope_broker_drift = Some r →
    cb_kind r = breaker_kind_value BROKER_DRIFT → cb_target r = target scope_broker_drift →
    cb_tripped r = false;
}.

(** A tripped, well-formed drift row is reported among the active breakers. *)
Lemma drift_reported ticker d active r :
  active_for_symbol ticker d = Ok active → db_breakers d !! scope_key scope_broker_drift = Some r →
  cb_kind r = breaker_kind_value BROKER_DRIFT → cb_target r = target scope_broker_drift →
  cb_tripped r = true → scope_key scope_broker_drift ∈ map (scope_key ∘ bs_scope) active.
Proof.
  unfold active_for_symbol. intros Ha Hr Hk Ht Htr.
  assert (r ∈ filter (λ r, cb_tripped r = true) (omap (λ k, db_breakers d !! k)
    (sorted_strings (map scope_key (relevant_scopes_for_symbol ticker))))) as Hin.
  { apply list_elem_of_filter. split; [done|]. apply list_elem_of_omap.
    exists (scope_key scope_broker_drift). split; [|done]. unfold sorted_strings.
    rewrite merge_sort_Permutation. apply list_elem_of_fmap. exists scope_broker_drift. split; [done|].
    unfold relevant_scopes_for_symbol. by right; left. }
  revert active Ha Hin. generalize (filter (λ r, cb_tripped r = true) (omap (λ k, db_breakers d !! k)
    (sorted_strings (map scope_key (relevant_scopes_for_symbol ticker))))) as rows.
  induction rows as [|x rows IH]; intros active Ha Hin; [by apply elem_of_nil in Hin|].
  simpl in Ha. apply outcome_bind_Ok in Ha as (y & Hy & Ha). apply outcome_bind_Ok in Ha as (ys & Hys & Ha).
  injection Ha as <-. apply elem_of_cons in Hin as [->|Hin]; [|right; by apply IH].
  unfold breaker_state in Hy. rewrite Hk in Hy. cbn in Hy. injection Hy as <-.
  apply elem_of_cons. left. simpl. by rewrite Ht.
Qed.

Lemma reconciled_of_sound ticker active ec now d :
  active_for_symbol ticker d = Ok active →
  broker_reconciled_of startup_key ec
    (bool_decide (scope_key scope_broker_drift ∈ (list_to_set (map (scope_key ∘ bs_scope) active) : gset string)))
    now d = true →
  ec = true ∧ nothing_to_reconcile now d.
Proof.
  intros Ha. unfold broker_reconciled_of, fill_reconciliation_required, legacy_fill_reconciliation_required.
  rewrite !andb_true_iff, !negb_true_iff, orb_false_iff, negb_false_iff, !bool_decide_eq_true,
    bool_decide_eq_false, !select_ids_nil.
  intros (((((Hst & Hec) & Hun) & Hacc & Hfill) & Hdrift) & Hgr).
  split; [done|]. split.
  - intros id o Ho. split_and!.
    + intros E. specialize (Hun id o Ho). apply bool_decide_eq_false_1 in Hun. rewrite E in Hun. apply Hun. vm_compute. by left.
    + intros E. specialize (Hun id o Ho). apply bool_decide_eq_false_1 in Hun. rewrite E in Hun. apply Hun. vm_compute. by right; left.
    + intros E. specialize (Hacc id o Ho). by apply bool_decide_eq_false_1 in Hacc.
  - intros f Hf. destruct (fill_requires_reconciliation f) eqn:E; [|done].
    assert (existsb fill_requires_reconciliation (db_fills d) = true) as Hx; [|congruence].
    apply existsb_exists. exists f. by rewrite <- list_elem_of_In.
  - done.
  - intros k ->. exact Hst.
  - intros r Hr Hk Ht. destruct (cb_tripped r) eqn:E; [|done]. exfalso.
    pose proof (drift_reported _ _ _ _ Ha Hr Hk Ht E) as Hin. set_solver.
Qed.

Lemma nothing_to_reconcile_marked a account now t d :
  nothing_to_reconcile t (account_high_water_mark_of stored_numeric a account now d).2 →
  nothing_to_reconcile t d.
Proof.
  destruct (mark_elsewhere a account now d) as (Ho & Hf & Hg & Hs & Hb & _).
  intros [H1 H2 H3 H4 H5]. rewrite Ho in H1. rewrite Hf in H2. rewrite Hg in H3. rewrite Hb in H5.
  split; try done. intros k Hk. specialize (H4 k Hk). unfold is_current in *. by rewrite Hs in H4.
Qed.

Lemma reconciled_snapshot_sound pv ticker exclude d s d1 :
  assembled pv ticker exclude d = (Ok s, d1) → broker_reconciled s = true →
  nothing_to_reconcile (pv_now pv) d.
Proof.
  intros (v & quotes & [_ _ Hd1 _ (hwm & active & Ha & Hl)])%assemble_inv Hrec.
  destruct (assemble_local_flags _ _ _ _ _ _ _ _ _ _ _ _ _ _ Hl (or_intror Hrec))
    as (_ & ls & daily & Hls & _ & _ & _ & _ & Hr).
  apply local_state_inv in Hls as [_ Hls]. rewrite Hrec, Hls in Hr.
  destruct (reconciled_of_sound ticker active _ _ _ Ha (eq_sym Hr)) as [_ Hn].
  rewrite Hd1 in Hn. by apply nothing_to_reconcile_marked in Hn.
Qed.

(** * Complete evidence *)

(** The symbols whose quotes an assembly needs. *)
Definition needed (ticker : string) (exclude : option Z) (cs : list Position) (d : Db) (sym : string) : Prop :=
  sym = upper ticker ∨ (∃ c, c ∈ cs ∧ sym = upper (p_ticker c))
  ∨ ∃ id o, db_orders d !! id = Some o ∧ is_pending exclude o = true ∧ sym = upper (o_ticker o).

Lemma elem_of_pending_orders d exclude o :
  o ∈ pending_orders d exclude ↔ ∃ id, db_orders d !! id = Some o ∧ is_pending exclude o = true.
Proof.
  unfold pending_orders, select_ids, sorted_ids. rewrite list_elem_of_omap.
  setoid_rewrite merge_sort_Permutation. split.
  - intros (id & Hid & Ho). apply list_elem_of_fmap in Hid as ([id' o'] & -> & Hin).
    apply list_elem_of_filter in Hin as [Hp Hin]. apply elem_of_map_to_list in Hin. simpl in *.
    rewrite Ho in Hin. simplify_eq. by exists id'.
  - intros (id & Ho & Hp). exists id. split; [|done]. apply list_elem_of_fmap. exists (id, o).
    split; [done|]. apply list_elem_of_filter. split; [done|]. by apply elem_of_map_to_list.
Qed.

Lemma provider_values_inv pv ticker now v :
  provider_values pv [ticker] (for_symbol ticker) now [] true = Ok v →
  ∃ ps, pv_positions pv = Ok ps ∧ forallb risk_values_valid ps = true
    ∧ canonical_positions ps [ticker] = Ok (pr_positions v, pr_exposure_complete v)
    ∧ pr_wanted v = list_to_set [upper ticker] ∪ list_to_set (map (upper ∘ p_ticker) (pr_positions v)).
Proof.
  unfold provider_values. cbv zeta. rewrite outcome_bind_Ok. intros ([account ps] & Hp & Hs).
  destruct (pv_account pv) as [acc|]; [|done]. destruct (pv_positions pv) as [ps'|]; [|done]. cbn [mbind outcome_bind] in Hp.
  destruct (existsb _ ps') eqn:Hex; [done|]. injection Hp as <- <-.
  apply outcome_bind_Ok in Hs as ([cs ec] & Hc & Hs). apply outcome_bind_Ok in Hs as (ext & _ & Hs).
  apply outcome_bind_Ok in Hs as ([[mo cc] b] & _ & Hs). apply outcome_bind_Ok in Hs as (qs & _ & Hs).
  injection Hs as <-. exists ps'. split_and!; try done.
  apply forallb_forall. intros x Hx. destruct (risk_values_valid x) eqn:E; [done|].
  assert (existsb (λ p, negb (risk_values_valid p)) ps' = true) as Ht; [|congruence].
  apply existsb_exists. exists x. by rewrite E.
Qed.

(** The exposure loop never restores completeness. *)
Lemma pending_complete_init quotes fills x0 os x :
  outcome_foldl (pending_step quotes fills) x0 os = Ok x → x_complete x = true → x_complete x0 = true.
Proof.
  intros Hf Hx. destruct (x_complete x0) eqn:E; [done|].
  assert (x_complete x = false); [|congruence].
  eapply (outcome_foldl_inv (λ x, x_complete x = false)); [|exact E|exact Hf].
  intros a o a' _ Ha. unfold pending_step. cbv zeta.
  destruct (dict_get quotes (upper (o_ticker o))) as [q|]; [|by intros [= <-]].
  destruct (negb _); [by intros [= <-]|]. rewrite outcome_bind_Ok. intros ([rn rq] & _ & Hs).
  destruct (bool_decide _); apply outcome_bind_Ok in Hs as (? & _ & Hs); by injection Hs as <-.
Qed.

Lemma assemble_local_fresh cfg key fails a exclude v quotes wanted now hwm active dc d s sym :
  assemble_local cfg key fails a exclude v quotes wanted now hwm active dc d = Ok s →
  quote_fresh s = true → sym ∈ wanted →
  ∃ q, dict_get (BrokerModels.quotes s) sym = Some q ∧ quote_is_fresh cfg q now a = true.
Proof.
  unfold assemble_local. cbv zeta. rewrite outcome_bind_Ok. intros (spreads & _ & Hs).
  apply outcome_bind_Ok in Hs as (unrealized & _ & Hs). injection Hs as <-.
  cbn [quote_fresh BrokerModels.quotes]. intros Hf Hsym. rewrite forallb_forall in Hf.
  specialize (Hf sym). destruct (dict_get quotes sym) as [q|]; [exists q; split; [done|]|];
    (lapply Hf; [done|]); apply list_elem_of_In; by apply elem_of_elements.
Qed.

(** An order is approved only on complete evidence.  If [check] approves an order on a
    snapshot assembled for execution, then every local read succeeded, every broker position
    was valid and kept under a canonical symbol of its own, no stored fill awaits
    reconciliation, and the order's symbol, every held symbol and every symbol with another
    pending order has a quote that is valid and fresh at the time of the assembly. *)
Theorem approved_on_complete_evidence pv ticker exclude d s d1 cfg o r :
  assembled pv ticker exclude d = (Ok s, d1) → check cfg o s = Ok r → approved r = true →
  pv_discovery_fails pv = false ∧ pv_local_fails pv = false
  ∧ (∀ f, f ∈ db_fills d → fill_requires_reconciliation f = false)
  ∧ ∃ ps cs, pv_positions pv = Ok ps ∧ forallb risk_values_valid ps = true
      ∧ canonical_positions ps [ticker] = Ok (cs, true)
      ∧ ∀ sym, needed ticker exclude cs d sym →
          ∃ q, dict_get (BrokerModels.quotes s) sym = Some q
               ∧ quote_is_fresh config_for_asset q (pv_now pv) (for_symbol ticker) = true.
Proof.
  intros (v & quotes & [Hv _ Hd1 Hfresh (hwm & active & _ & Hl)])%assemble_inv Hch Happ.
  apply (check_admissible_iff _ _ _ _ Hch) in Happ. pose proof (adm_exposure_known _ _ _ Happ) as Hpc.
  destruct (assemble_local_flags _ _ _ _ _ _ _ _ _ _ _ _ _ _ Hl (or_introl Hpc))
    as (Hlf & ls & daily & Hls & _ & _ & _ & Hx & _).
  apply local_state_inv in Hls as [Hfold _]. rewrite Hpc in Hx.
  apply pending_complete_init in Hfold; [|done]. cbn [x_complete] in Hfold.
  apply andb_true_iff in Hfold as [[Hdc Hec]%andb_true_iff Hleg%negb_true_iff].
  destruct (pv_discovery_fails pv) eqn:Hdf; [by unfold pending_symbols in Hdc; rewrite Hdf in Hdc|].
  split_and!; try done.
  - intros f Hf. destruct (fill_requires_reconciliation f) eqn:E; [|done].
    destruct (mark_elsewhere (for_symbol ticker) (pr_account v) (pv_now pv) d) as (_ & Hfl & _).
    assert (legacy_fill_reconciliation_required d1 = true) as Ht; [|congruence].
    unfold legacy_fill_reconciliation_required. rewrite Hd1, Hfl. apply existsb_exists.
    exists f. by rewrite <- list_elem_of_In.
  - destruct (provider_values_inv _ _ _ _ Hv) as (ps & Hps & Hval & Hcan & Hw). rewrite Hec in Hcan.
    exists ps, (pr_positions v). split_and!; try done. intros sym Hn.
    eapply assemble_local_fresh; [exact Hl|exact Hfresh|]. rewrite Hw. unfold pending_symbols. rewrite Hdf.
    cbn [fst]. rewrite !elem_of_union, !elem_of_list_to_set. destruct Hn as [->|[(c & Hc & ->)|(id & o' & Ho & Hp & ->)]].
    + left. left. apply list_elem_of_here.
    + left. right. apply list_elem_of_fmap. by exists c.
    + right. apply list_elem_of_fmap. exists o'. split; [done|]. apply elem_of_pending_orders. by exists id.
Qed.

End Evidence.

(** * Submission against the snapshot service *)

Section Composition.
Context `{Digest} `{Parsers} {B : Type} `{!Broker B}.
Context (stored_numeric : Decimal → Decimal).
Context (config_for_asset : option (AssetClass → RiskConfig)) (startup_key : option string).

(** The hold assembles its snapshot with this service. *)
Definition snapshot_env (pv : Providers) (env : Env) : Prop :=
  ∀ ticker id d, e_assemble env ticker id d
    = assemble_for_execution stored_numeric config_for_asset startup_key pv ticker (Some id) d.

(** The service discharges what [OrderSystem] asks of an assembler: it moves no order. *)
Lemma assemble_keeps_orders pv ticker exclude d :
  db_orders (assemble_for_execution stored_numeric config_for_asset startup_key pv ticker exclude d).2
  = db_orders d.
Proof.
  unfold assemble_for_execution, assemble_required_snapshot. cbv zeta.
  destruct (_ ≫= _) as [[[[v quotes] wanted] dc]|]; [|done].
  destruct (mark_elsewhere stored_numeric (for_symbol ticker) (pr_account v) (pv_now pv) d) as (Ho & _).
  by destruct (account_high_water_mark_of _ _ _ _ _) as [m d1].
Qed.

Lemma snapshot_env_ok pv env :
  snapshot_env pv env →
  (∀ f, e_validate_plan_exit env = Some f → ∀ d, orders_forward d (f d).2) →
  (∀ f, e_reconcile_immediate_fill env = Some f → ∀ q d, orders_forward d (f q d).2) →
  env_ok env.
Proof.
  intros Henv H1 H2. split_and!; try done. intros ticker id d. rewrite Henv.
  apply same_orders_forward, assemble_keeps_orders.
Qed.

(** Claim C7.  No order is sent while the fate of another is unknown.  When the risk configuration
    requires a reconciled broker, a barrier hold that calls the broker started from a
    database in which no order is being submitted or of unknown acceptance, no order or fill
    awaits reconciliation, no rule group is latched, the drift breaker is not tripped and
    the startup gate was current at the time of the snapshot. *)
Theorem no_send_while_unreconciled pv env p (w : World B) :
  snapshot_env pv env →
  require_broker_reconciled (e_config env (BrokerModels.o_ticker (pp_request p))) = true →
  w_sent (submit_iteration env p w).2 ≠ w_sent w →
  nothing_to_reconcile startup_key (pv_now pv) (w_db w).
Proof.
  intros Henv Hreq Hsent. apply call_authorised_of_sent in Hsent as [_ (_ & s & r & o & Has & _ & Hadm & _)].
  rewrite Henv in Has. destruct (assemble_for_execution _ _ _ _ _ _ _) as [res d1] eqn:E. cbn [fst] in Has. subst res.
  eapply reconciled_snapshot_sound; [exact E|]. by apply (adm_reconciled _ _ _ Hadm).
Qed.

End Composition.

(** * Canonical positions *)

(** A position kept under a local spelling of its broker symbol. *)
Definition respelled (p c : Position) : Prop :=
  c = set_p_ticker (p_ticker c) p ∧ broker_symbol_matches_local (p_ticker p) (p_ticker c) = Ok true.

Lemma matching_local_sound b ls : ∀ ms,
  matching_local b ls = Ok ms → Forall (λ m, broker_symbol_matches_local b m = Ok true) ms.
Proof.
  induction ls as [|l ls IH]; intros ms; simpl; [intros [= <-]; constructor|].
  intros (m & Hm & Hs)%outcome_bind_Ok. apply outcome_bind_Ok in Hs as (rest & Hr & Hs). injection Hs as <-.
  destruct m; [constructor; [done|]|]; by apply IH.
Qed.

Lemma respelled_intro p b t :
  normalized_symbol (p_ticker p) = Ok b → broker_symbol_matches_local b t = Ok true →
  respelled p (set_p_ticker t p).
Proof.
  intros Hb Ht. split; [done|]. simpl. unfold broker_symbol_matches_local in *.
  rewrite (normalized_symbol_idemp _ _ Hb) in Ht. by rewrite Hb.
Qed.

(** One pass keeps the tickers distinct; it keeps the position unless it reports it. *)
Lemma canonical_step_spec locals seen acc complete p b st' :
  normalized_symbol (p_ticker p) = Ok b →
  canonical_step locals (seen, acc, complete) (p, b) = Ok st' →
  (st' = (seen, acc, false)
   ∨ ∃ t, (t ∉ seen) ∧ respelled p (set_p_ticker t p)
       ∧ st' = (seen ++ [t], acc ++ [set_p_ticker t p], complete)).
Proof.
  intros Hb. unfold canonical_step. intros (ms & Hms & Hs)%outcome_bind_Ok. injection Hs as <-.
  apply matching_local_sound in Hms.
  destruct ((1 <? length ms)%nat || _) eqn:E; [by left|right].
  apply orb_false_iff in E as [_ E%bool_decide_eq_false_1]. eexists. split_and!; [exact E| |done].
  apply (respelled_intro _ _ _ Hb).
  destruct ms as [|m [|m' ms]]; [|by apply Forall_cons in Hms as [? _]|];
    (apply matches_self; by apply (normalized_symbol_idemp (p_ticker p))).
Qed.

Lemma canonical_fold_spec locals xs : ∀ seen acc complete seen' acc' complete',
  Forall (λ x : Position * string, normalized_symbol (p_ticker x.1) = Ok x.2) xs →
  seen = map p_ticker acc → NoDup seen →
  outcome_foldl (canonical_step locals) (seen, acc, complete) xs = Ok (seen', acc', complete') →
  NoDup (map p_ticker acc')
  ∧ ∃ new, acc' = acc ++ new
      ∧ (∀ c, c ∈ new → ∃ p, p ∈ xs.*1 ∧ respelled p c)
      ∧ (complete' = true → complete = true ∧ Forall2 respelled xs.*1 new).
Proof.
  induction xs as [|[p b] xs IH]; intros seen acc complete seen' acc' complete' Hxs Hseen Hnd; simpl.
  { intros [= <- <- <-]. split; [by rewrite <- Hseen|]. exists []. rewrite app_nil_r.
    split_and!; [done|by intros c ?%elem_of_nil|done]. }
  apply Forall_cons in Hxs as [Hb Hxs]. intros (st & Hst & Hf)%outcome_bind_Ok.
  destruct (canonical_step_spec _ _ _ _ _ _ _ Hb Hst) as [->|(t & Ht & Hr & ->)].
  - destruct (IH _ _ _ _ _ _ Hxs Hseen Hnd Hf) as (Hn & new & -> & Hin & Hc). split; [done|].
    exists new. split_and!; [done| |intros Hc'; by destruct (Hc Hc')].
    intros c Hcin. destruct (Hin c Hcin) as (p' & ? & ?). exists p'. split; [by right|done].
  - assert (seen ++ [t] = map p_ticker (acc ++ [set_p_ticker t p])) as Hs' by (by rewrite map_app, Hseen).
    assert (NoDup (seen ++ [t])) as Hnd'.
    { apply NoDup_app. split_and!; [done| |apply NoDup_singleton].
      intros x Hx Hx'. apply list_elem_of_singleton in Hx'. by subst. }
    destruct (IH _ _ _ _ _ _ Hxs Hs' Hnd' Hf) as (Hn & new & -> & Hin & Hc). split; [done|].
    exists (set_p_ticker t p :: new). split_and!; [by rewrite <- app_assoc| |].
    + intros c [->|Hcin]%elem_of_cons; [exists p; split; [left|done]|].
      destruct (Hin c Hcin) as (p' & ? & ?). exists p'. split; [by right|done].
    + intros Hc'. destruct (Hc Hc'). split; [done|by constructor].
Qed.

Lemma normalized_of_mapM ps : ∀ ns,
  outcome_mapM (λ p, canonicalize_broker_symbol (p_ticker p) None None) ps = Ok ns →
  Forall (λ x : Position * string, normalized_symbol (p_ticker x.1) = Ok x.2) (zip ps ns)
  ∧ (zip ps ns).*1 = ps.
Proof.
  induction ps as [|p ps IH]; intros ns; simpl; [intros [= <-]; split; [constructor|done]|].
  intros (n & Hn & Hs)%outcome_bind_Ok. apply outcome_bind_Ok in Hs as (rest & Hr & Hs). injection Hs as <-.
  destruct (IH _ Hr) as [Hf Hz]. split; [|by rewrite <- Hz at 2]. constructor; [|done]. simpl.
  unfold canonicalize_broker_symbol in Hn. apply outcome_bind_Ok in Hn as (m & Hm & Hn).
  change (Ok m = Ok n) in Hn. by injection Hn as <-.
Qed.

(** Broker positions become canonical ones soundly.  The tickers of the canonical positions
    are distinct; each comes from a broker position whose spelling the reconciliation match
    accepts, with its values unchanged; and unless the result is reported incomplete, every
    broker position is there, in order. *)
Theorem canonical_positions_spec ps local_symbols cs complete :
  canonical_positions ps local_symbols = Ok (cs, complete) →
  NoDup (map p_ticker cs)
  ∧ (∀ c, c ∈ cs → ∃ p, p ∈ ps ∧ respelled p c)
  ∧ (complete = true → Forall2 respelled ps cs).
Proof.
  unfold canonical_positions. intros (ns & Hns & Hs)%outcome_bind_Ok.
  apply outcome_bind_Ok in Hs as (locals & _ & Hs). apply outcome_bind_Ok in Hs as ([[seen acc] comp] & Hf & Hs).
  injection Hs as <- <-. destruct (normalized_of_mapM _ _ Hns) as [Hn Hz].
  destruct (canonical_fold_spec _ _ [] [] true _ _ _ Hn eq_refl ltac:(constructor) Hf)
    as (Hnd & new & -> & Hin & Hc).
  rewrite Hz in *. split_and!; [done|done|]. intros Hcomp. by destruct (Hc Hcomp).
Qed.

(** * Pending sales are reserved *)

(** The values the reservation loop adds up: zero or positive, at the context's precision. *)
Definition amount (x : Decimal) : Prop :=
  x = Inf false ∨ representable x ∧ dcmp_le dzero x = true.

Lemma amount_zero : amount dzero.
Proof. right. split; [|done]. unfold dzero, of_Z, representable, fits, context_prec. lia. Qed.

Lemma amount_round c e : 0 ≤ c → amount (dround c e).
Proof.
  intros Hc. right. split; [apply dround_representable|].
  pose proof (dround_ge_rep c e 0 e ltac:(lia) ltac:(unfold fits, context_prec; lia) ltac:(lia)) as H.
  destruct (dround c e) as [c' e'| |] eqn:E; try done.
  apply (dcmp_le_align _ _ _ _ (Z.min 0 (Z.min e e'))) in H; [|lia..].
  apply (dcmp_le_align _ _ _ _ (Z.min 0 (Z.min e e'))); lia.
Qed.

Lemma amount_coeff c e : amount (Fin c e) → 0 ≤ c.
Proof.
  intros [?|[_ H]]; [done|]. apply (dcmp_le_align _ _ _ _ (Z.min 0 e)) in H; [|lia..].
  pose proof (pow10_pos (e - Z.min 0 e)). nia.
Qed.

Lemma amount_le_trans x y z :
  amount y → dcmp_le x y = true → dcmp_le y z = true → dcmp_le x z = true.
Proof.
  intros [->|[Hr _]] Hxy Hyz.
  - destruct z as [| [] |]; try done; by destruct x as [|[]|].
  - by apply (dcmp_le_trans x y); [destruct y|..].
Qed.

Lemma amount_add x y z :
  amount x → amount y → dadd x y = Ok z →
  amount z ∧ dcmp_le x z = true ∧ dcmp_le y z = true.
Proof.
  intros Hx Hy Hz. destruct x as [c1 e1|b1|], y as [c2 e2|b2|];
    try (by destruct Hx as [?|[? ?]]); try (by destruct Hy as [?|[? ?]]).
  - pose proof (amount_coeff _ _ Hx). pose proof (amount_coeff _ _ Hy).
    destruct Hx as [?|[Hx _]], Hy as [?|[Hy _]]; try done. unfold dadd in Hz. injection Hz as <-.
    set (m := Z.min e1 e2). pose proof (pow10_pos (e1 - m)). pose proof (pow10_pos (e2 - m)).
    split_and!; [apply amount_round; nia|apply dround_ge_rep; [lia|done|nia]|apply dround_ge_rep; [lia|done|nia]].
  - destruct Hy as [[= ->]|[? _]]; [|done]. injection Hz as <-. split; [by left|done].
  - destruct Hx as [[= ->]|[? _]]; [|done]. injection Hz as <-. split; [by left|done].
  - destruct Hx as [[= ->]|[? _]], Hy as [[= ->]|[? _]]; try done. injection Hz as <-. split; [by left|done].
Qed.

(** What [max(x, 0)] of a difference is. *)
Lemma amount_max x y d z : dsub x y = Ok d → dmax d dzero = Ok z → amount z.
Proof.
  intros Hd Hz. destruct (dmax_ge _ _ _ Hz) as [_ Hz0]. destruct (dmax_cases _ _ _ Hz) as [-> | ->]; [|apply amount_zero].
  destruct d as [c e|[]|]; [|done|by left|].
  - right. split; [|done]. unfold dsub, dadd in Hd. destruct x as [| |], y as [| |]; simpl in Hd; try done.
    + injection Hd as Hd. rewrite <- Hd. apply dround_representable.
    + by destruct (Bool.eqb _ _).
  - by unfold dmax, dgt, dlt, dordered in Hz.
Qed.

Lemma drop_zeros_nonneg fuel : ∀ c e ideal, 0 ≤ c → 0 ≤ (drop_zeros fuel c e ideal).1.
Proof.
  induction fuel as [|f IH]; intros c e ideal Hc; [done|]. simpl. destruct (_ && _); [|done].
  apply IH. apply Z.div_pos; lia.
Qed.

Lemma ddiv_coeff_nonneg a ea b eb : 0 ≤ a → 0 < b → 0 ≤ (ddiv_coeff a ea b eb).1.
Proof.
  intros Ha Hb. unfold ddiv_coeff. cbv zeta. set (shift := ndigits b - ndigits a + context_prec + 1).
  pose proof (pow10_pos shift). pose proof (pow10_pos (- shift)).
  set (num := if 0 <=? shift then a * 10 ^ shift else a).
  set (den := if 0 <=? shift then b else b * 10 ^ (- shift)).
  assert (0 ≤ num / den) as Hq.
  { apply Z.div_pos; unfold num, den; destruct (Z.leb_spec 0 shift); try lia; try nia. }
  destruct (_ =? 0); [by apply drop_zeros_nonneg|]. destruct (_ =? 0); simpl; lia.
Qed.

Lemma amount_div x y z : amount x → pos_finite y = true → ddiv x y = Ok z → amount z.
Proof.
  intros Hx Hy Hz. destruct y as [c2 e2| |]; try done.
  assert (0 < c2) as Hc2.
  { apply andb_true_iff in Hy as [_ Hy]. apply (dcmp_lt_align _ _ _ _ (Z.min 0 e2)) in Hy; [|lia..].
    pose proof (pow10_pos (e2 - Z.min 0 e2)). nia. }
  unfold ddiv in Hz. destruct x as [c1 e1|b|].
  - pose proof (amount_coeff _ _ Hx). destruct (Z.eqb_spec c2 0); [lia|].
    destruct (Z.eqb_spec c1 0); [injection Hz as <-; right; split;
      [unfold representable, fits, context_prec; lia|apply (dcmp_le_align _ _ _ _ (Z.min 0 (e1 - e2))); lia]|].
    pose proof (ddiv_coeff_nonneg (Z.abs c1) e1 (Z.abs c2) e2 ltac:(lia) ltac:(lia)) as Hq.
    destruct (ddiv_coeff _ _ _ _) as [q e]. injection Hz as <-.
    rewrite !(proj2 (Z.ltb_ge _ _)) by lia. by apply amount_round.
  - destruct Hx as [[= ->]|[? _]]; [|done]. rewrite (proj2 (Z.ltb_ge _ _)) in Hz by lia.
    injection Hz as <-. by left.
  - by destruct Hx as [?|[? ?]].
Qed.

Lemma remaining_amount o q fills rn rq :
  quote_is_valid q = true → remaining_of o q fills = Ok (rn, rq) → amount rq.
Proof.
  intros Hq. assert (pos_finite (q_last q) = true) as Hlast by (by apply quote_valid_last).
  unfold remaining_of. intros (rec & _ & Hs)%outcome_bind_Ok.
  apply outcome_bind_Ok in Hs as (ns & _ & Hs). apply outcome_bind_Ok in Hs as (recn & _ & Hs).
  destruct (o_qty o) as [qty|].
  - apply outcome_bind_Ok in Hs as (l & Hl & Hs). apply outcome_bind_Ok in Hs as (rem & Hrem & Hs).
    apply outcome_bind_Ok in Hs as (price & _ & Hs). apply outcome_bind_Ok in Hs as (n & _ & Hs).
    injection Hs as <- <-. by eapply amount_max.
  - cbv zeta in Hs. apply outcome_bind_Ok in Hs as (l & Hl & Hs). apply outcome_bind_Ok in Hs as (n & Hn & Hs).
    apply outcome_bind_Ok in Hs as (rem & Hrem & Hs). injection Hs as <- <-.
    eapply amount_div; [by eapply amount_max|exact Hlast|exact Hrem].
Qed.

(** The reservation for a symbol. *)
Definition reserved (x : Exposure) (symbol : string) : Decimal := default dzero (dict_get (x_sell x) symbol).

(** What one pass does to the reservations: a pending sale is added to its symbol, and
    nothing shrinks. *)
Lemma pending_step_reserves quotes fills x o x' :
  (∀ sym, amount (reserved x sym)) → pending_step quotes fills x o = Ok x' → x_complete x' = true →
  (∀ sym, amount (reserved x' sym) ∧ dcmp_le (reserved x sym) (reserved x' sym) = true)
  ∧ x_complete x = true
  ∧ (o_side o ≠ order_side_value BUY → ∃ q rn rq, dict_get quotes (upper (o_ticker o)) = Some q
       ∧ remaining_of o q (fills_of fills o) = Ok (rn, rq)
       ∧ amount rq ∧ dcmp_le rq (reserved x' (upper (o_ticker o))) = true).
Proof.
  intros Hx. unfold pending_step. cbv zeta. set (sym := upper (o_ticker o)).
  destruct (dict_get quotes sym) as [q|]; [|by intros [= <-]].
  destruct (quote_is_valid q) eqn:Hv; [|by intros [= <-]]. cbn [negb].
  intros ([rn rq] & Hrem & Hs)%outcome_bind_Ok. destruct (decide (o_side o = order_side_value BUY)) as [Hb|Hb].
  - rewrite bool_decide_true in Hs by done. apply outcome_bind_Ok in Hs as (b & _ & Hs). injection Hs as <-.
    intros Hc. split_and!; [|done|done]. intros s. split; [apply Hx|apply dcmp_le_refl].
  - rewrite bool_decide_false in Hs by done. apply outcome_bind_Ok in Hs as (sl & Hadd & Hs). injection Hs as <-.
    intros Hc. unfold add_to in Hadd. apply outcome_bind_Ok in Hadd as (total & Hadd & Hsl). injection Hsl as <-.
    pose proof (remaining_amount _ _ _ _ _ Hv Hrem) as Hrq.
    destruct (amount_add _ _ _ (Hx sym) Hrq Hadd) as (Ht & H1 & H2).
    assert (∀ s, reserved (mkExposure (x_buy x) (dict_set (x_sell x) sym total) (x_complete x)) s
                 = if decide (s = sym) then total else reserved x s) as Hres.
    { intros s. unfold reserved. cbn [x_sell]. destruct (decide (s = sym)) as [->|Hne];
        [by rewrite dict_get_set_eq|by rewrite dict_get_set_ne]. }
    split_and!; [|done|intros _; exists q, rn, rq; rewrite Hres, decide_True by done; done].
    intros s. rewrite Hres. destruct (decide (s = sym)) as [->|Hne]; [done|]. split; [apply Hx|apply dcmp_le_refl].
Qed.

Lemma pending_fold_reserves quotes fills os : ∀ x x',
  (∀ sym, amount (reserved x sym)) → outcome_foldl (pending_step quotes fills) x os = Ok x' →
  x_complete x' = true →
  (∀ sym, dcmp_le (reserved x sym) (reserved x' sym) = true)
  ∧ ∀ o, o ∈ os → o_side o ≠ order_side_value BUY →
      ∃ q rn rq, dict_get quotes (upper (o_ticker o)) = Some q
        ∧ remaining_of o q (fills_of fills o) = Ok (rn, rq)
        ∧ amount rq ∧ dcmp_le rq (reserved x' (upper (o_ticker o))) = true.
Proof.
  induction os as [|o os IH]; intros x x' Hx; simpl.
  { intros [= <-] _. split; [intros; apply dcmp_le_refl|by intros o ?%elem_of_nil]. }
  intros (x1 & Hs & Hf)%outcome_bind_Ok Hc. pose proof (pending_complete_init _ _ _ _ _ Hf Hc) as Hc1.
  destruct (pending_step_reserves _ _ _ _ _ Hx Hs Hc1) as (Hx1 & _ & Ho).
  destruct (IH x1 x' (λ sym, proj1 (Hx1 sym)) Hf Hc) as [Hle Hos]. split.
  - intros sym. by apply (amount_le_trans _ (reserved x1 sym)); [apply Hx1|apply Hx1|].
  - intros o' [->|Ho']%elem_of_cons Hb; [|by apply Hos].
    destruct (Ho Hb) as (q & rn & rq & Hq & Hrem & Hrq & Hr). exists q, rn, rq. split_and!; try done.
    by apply (amount_le_trans _ (reserved x1 (upper (o_ticker o)))); [apply Hx1|..].
Qed.

(** No pending sale is forgotten.  On a snapshot whose exposure is complete, for every
    stored order that is pending (any but the excluded one) and sells, what is still unfilled
    of it by the trusted fills is computed with a known quote and is at most the quantity the
    snapshot reserves for its symbol. *)
Theorem pending_sells_reserved stored_numeric cfg key pv ticker exclude d s d1 id o :
  assemble_for_execution stored_numeric cfg key pv ticker exclude d = (Ok s, d1) →
  pending_exposure_complete s = true →
  db_orders d !! id = Some o → is_pending exclude o = true → o_side o ≠ order_side_value BUY →
  ∃ q rn rq, dict_get (BrokerModels.quotes s) (upper (o_ticker o)) = Some q
    ∧ remaining_of o q (fills_of (filter (λ f, fill_has_trusted_identity f = true) (db_fills d)) o) = Ok (rn, rq)
    ∧ dcmp_le dzero rq = true
    ∧ dcmp_le rq (reserved_sell_qty s (upper (o_ticker o))) = true.
Proof.
  intros (v & quotes & [_ _ Hd1 _ (hwm & active & _ & Hl)])%assemble_inv Hc Ho Hp Hb.
  destruct (assemble_local_flags _ _ _ _ _ _ _ _ _ _ _ _ _ _ Hl (or_introl Hc))
    as (_ & ls & daily & Hls & Hquotes & Hsell & _ & Hcomp & _).
  apply local_state_inv in Hls as [Hf _]. rewrite Hc in Hcomp.
  destruct (mark_elsewhere stored_numeric (for_symbol ticker) (pr_account v) (pv_now pv) d) as (Ho1 & Hf1 & _).
  assert (o ∈ pending_orders d1 exclude) as Hin.
  { apply elem_of_pending_orders. exists id. by rewrite Hd1, Ho1. }
  destruct (pending_fold_reserves _ _ _ _ _ (λ sym, amount_zero : amount (reserved (mkExposure [] [] _) sym)) Hf (eq_sym Hcomp)) as [_ Hall].
  destruct (Hall o Hin Hb) as (q & rn & rq & Hq & Hrem & Hrq & Hle).
  rewrite Hd1, Hf1 in Hrem. exists q, rn, rq. unfold reserved_sell_qty. rewrite Hquotes, Hsell.
  split_and!; try done. by destruct Hrq as [->|[_ ?]].
Qed.

(** * The high-water mark *)

Section Marks.
Context (stored_numeric : Decimal → Decimal).
Hypothesis stored_finite : ∀ x, is_finite x = true → is_finite (stored_numeric x) = true.

(** One account observation. *)
Definition observe_account (d : Db) (x : AssetClass * Account * time) : Db :=
  let '(a, account, now) := x in (account_high_water_mark_of stored_numeric a account now d).2.

(** The class has a finite mark of at least [bound]. *)
Definition mark_at_least (a : AssetClass) (bound : Decimal) (d : Db) : Prop :=
  ∃ r, db_account_risk d !! asset_class_value a = Some r ∧ is_finite (ar_high_water_mark r) = true
       ∧ dcmp_le bound (ar_high_water_mark r) = true.

Definition marks_finite (d : Db) : Prop :=
  ∀ k r, db_account_risk d !! k = Some r → is_finite (ar_high_water_mark r) = true.

Lemma asset_class_value_inj a b : asset_class_value a = asset_class_value b → a = b.
Proof. by destruct a, b. Qed.

Lemma account_valid_equity account : account_is_valid account = true → is_finite (a_equity account) = true.
Proof. unfold account_is_valid, pos_finite. simpl. intros. by reflect_bools. Qed.

Lemma raised_mark_spec old a equity now :
  is_finite equity = true → (∀ r, old = Some r → is_finite (ar_high_water_mark r) = true) →
  let m := ar_high_water_mark (raised_mark stored_numeric old a equity now) in
  is_finite m = true ∧ dcmp_le (stored_numeric equity) m = true
  ∧ ∀ r, old = Some r → dcmp_le (ar_high_water_mark r) m = true.
Proof.
  intros He Hold. pose proof (stored_finite _ He) as Hs. unfold raised_mark. cbv zeta. cbn [ar_high_water_mark].
  destruct old as [r|]; [|split_and!; [done|apply dcmp_le_refl|done]]. specialize (Hold r eq_refl).
  destruct (dcmp_lt _ _) eqn:E.
  - split_and!; [done|apply dcmp_le_refl|]. intros r' [= <-]. by apply dcmp_lt_le.
  - split_and!; [done| |intros r' [= <-]; apply dcmp_le_refl].
    unfold dcmp_lt in E. unfold dcmp_le. rewrite dcmp_antisym. by destruct (dcmp (ar_high_water_mark r) _).
Qed.

Lemma observe_account_spec d a account now :
  marks_finite d →
  let d' := observe_account d (a, account, now) in
  marks_finite d'
  ∧ (∀ b bound, mark_at_least b bound d → mark_at_least b bound d')
  ∧ (account_is_valid account = true → mark_at_least a (stored_numeric (a_equity account)) d')
  ∧ (account_is_valid account = false → d' = d).
Proof.
  intros Hd. unfold observe_account, account_high_water_mark_of. cbv zeta.
  destruct (account_is_valid account) eqn:Hv; [|by split_and!]. cbn [negb snd].
  set (row := raised_mark stored_numeric (db_account_risk d !! asset_class_value a) a (a_equity account) now).
  destruct (raised_mark_spec (db_account_risk d !! asset_class_value a) a (a_equity account) now
    (account_valid_equity _ Hv) (Hd (asset_class_value a))) as (Hf & Hge & Hold). fold row in Hf, Hge, Hold.
  split_and!; [| |intros _; exists row; split; [apply lookup_insert_eq|done]|done].
  - intros k r. cbn. intros [[<- <-]|[_ Hk]]%lookup_insert_Some; [done|by apply (Hd k)].
  - intros b bound (r & Hr & Hrf & Hb). unfold mark_at_least. cbn [db_account_risk set_db_account_risk].
    destruct (decide (b = a)) as [->|Hne].
    + exists row. split_and!; [apply lookup_insert_eq|done|].
      by apply (dcmp_le_trans _ (ar_high_water_mark r)); [..|apply Hold].
    + exists r. rewrite lookup_insert_ne by (by intros ?%asset_class_value_inj). done.
Qed.

Lemma observations_keep obs : ∀ d, marks_finite d →
  marks_finite (foldl observe_account d obs)
  ∧ ∀ a bound, mark_at_least a bound d → mark_at_least a bound (foldl observe_account d obs).
Proof.
  induction obs as [|[[a0 acc0] now0] obs IH]; intros d Hd; simpl; [done|].
  destruct (observe_account_spec d a0 acc0 now0 Hd) as (Hd1 & Hkeep & _).
  destruct (IH _ Hd1) as [Hf Hk]. split; [done|]. intros a bound Hb. by apply Hk, Hkeep.
Qed.

Lemma observations_bound obs : ∀ d, marks_finite d → ∀ a account now,
  (a, account, now) ∈ obs → account_is_valid account = true →
  mark_at_least a (stored_numeric (a_equity account)) (foldl observe_account d obs).
Proof.
  induction obs as [|[[a0 acc0] now0] obs IH]; intros d Hd a account now; simpl; [by intros ?%elem_of_nil|].
  destruct (observe_account_spec d a0 acc0 now0 Hd) as (Hd1 & _ & Hnew & _).
  intros [[= -> -> ->]|Hin]%elem_of_cons Hv; [|by apply (IH _ Hd1 a account now)].
  apply (observations_keep obs _ Hd1). by apply Hnew.
Qed.

(** The high-water mark never falls.  After any sequence of account observations, of any
    classes, the stored mark of a class is at least what it was before and at least the
    equity of every valid observation of that class; observations of an invalid account store
    nothing, and the mark an observation returns is the one stored. *)
Theorem high_water_mark_never_falls obs d :
  marks_finite d →
  let d' := foldl observe_account d obs in
  (∀ a bound, mark_at_least a bound d → mark_at_least a bound d')
  ∧ (∀ a account now, (a, account, now) ∈ obs → account_is_valid account = true →
       mark_at_least a (stored_numeric (a_equity account)) d')
  ∧ (Forall (λ x : AssetClass * Account * time, account_is_valid x.1.2 = false) obs → d' = d)
  ∧ ∀ a account now r, let '(m, d'') := account_high_water_mark_of stored_numeric a account now d' in
       db_account_risk d'' !! asset_class_value a = Some r → m = ar_high_water_mark r.
Proof.
  intros Hd d'. split_and!.
  - intros a bound. apply (observations_keep obs d Hd).
  - intros a account now. apply (observations_bound obs d Hd).
  - intros Hobs. subst d'. revert d Hd. induction Hobs as [|[[a0 acc0] now0] obs Hi _ IH]; intros d Hd; [done|].
    cbn [foldl]. destruct (observe_account_spec d a0 acc0 now0 Hd) as (_ & _ & _ & Hsame).
    rewrite (Hsame Hi). by apply IH.
  - intros a account now r. unfold account_high_water_mark_of. destruct (account_is_valid account); simpl.
    + rewrite lookup_insert_eq. by intros [= <-].
    + by intros ->.
Qed.

End Marks.

(** * A concrete assembly *)

#[local] Existing Instance OrderSystem.demo_digest.
#[local] Existing Instance OrderSystem.demo_parsers.

Definition demo_quote_at (t : time) : Quote :=
  mkQuote "AAPL" (Fin 9990 (-2)) (Fin 10010 (-2)) (Fin 100 0) None (Some t) (Some t) (Some t).

Definition demo_providers (fails : bool) : Providers :=
  mkProviders 300
    (Ok (mkAccount (Fin 50000 0) (Fin 100000 0) (Fin 50000 0)))
    (Ok [mkPosition "aapl" (Fin 20 0) (Fin 90 0) (Fin 100 0) (Some (Fin 5 0))])
    (Ok []) (λ _ t, Ok (mkObservation true t)) (λ _, Ok (demo_quote_at 300)) false fails.

(** The approved sale of five shares, and a submitted sale of three more. *)
Definition demo_pending_row : Order :=
  mkOrder 2 "key-2" "AAPL" "sell" "market" (Some (Fin 3 0)) None None (order_status_value SUBMITTED)
    (Some "b-2") None EmptyString None "simple" "{}" 1 None "accepted" None EmptyString "none" 0 100 100.

Definition demo_assembly_db : Db :=
  set_db_orders {[ 1 := demo_row APPROVAL_RECORDED 0; 2 := demo_pending_row ]} (demo_db APPROVAL_RECORDED 0).

Definition demo_assemble (fails : bool) : Db → outcome PortfolioSnapshot * Db :=
  assemble_for_execution (λ x, x) None None (demo_providers fails) "AAPL" (Some 1).

Example demo_assembly :
  let '(r, d) := demo_assemble false demo_assembly_db in
  match r with
  | Ok s => broker_reconciled s && pending_exposure_complete s && quote_fresh s && account_complete s
            && bool_decide (reserved_sell_qty_by_ticker s = [("AAPL", Fin 3 0)])
  | Raise _ => false
  end = true
  ∧ option_map ar_high_water_mark (db_account_risk d !! "equity") = Some (Fin 100000 0).
Proof. vm_compute. done. Qed.

Definition demo_hold : Env :=
  mkEnv (λ ticker id d, assemble_for_execution (λ x, x) None None (demo_providers false) ticker (Some id) d)
    (λ _, demo_config) None true 300 301 None.

Definition demo_assembly_world : World MockBroker := mkWorld demo_assembly_db demo_mock [].

Lemma no_send_while_unreconciled_witness :
  w_sent (submit_iteration demo_hold demo_prepared demo_assembly_world).2 ≠ []
  ∧ nothing_to_reconcile None 300 demo_assembly_db.
Proof.
  split; [vm_compute; discriminate|].
  apply (no_send_while_unreconciled (λ x, x) None None (demo_providers false) demo_hold demo_prepared
    demo_assembly_world); [done|reflexivity|vm_compute; discriminate].
Defined.

(** The request of the approved order. *)
Definition demo_request : OrderRequest := pp_request demo_prepared.

(** The snapshot of the demo assembly. *)
Definition demo_assembled : PortfolioSnapshot :=
  match (demo_assemble false demo_assembly_db).1 with Ok s => s | Raise _ => demo_snapshot ∅ dzero end.

Definition demo_marked_db : Db := (demo_assemble false demo_assembly_db).2.

Lemma approved_on_complete_evidence_witness :
  ∃ q, dict_get (BrokerModels.quotes demo_assembled) "AAPL" = Some q ∧ quote_is_fresh None q 300 EQUITY = true.
Proof.
  destruct (approved_on_complete_evidence (λ x, x) None None (demo_providers false) "AAPL" (Some 1)
    demo_assembly_db demo_assembled demo_marked_db demo_config demo_request demo_result)
    as (_ & _ & _ & ps & cs & _ & _ & _ & Hq); [vm_compute; reflexivity..|].
  apply (Hq "AAPL"). by left.
Defined.

Lemma pending_sells_reserved_witness :
  ∃ q rn rq, remaining_of demo_pending_row q [] = Ok (rn, rq)
    ∧ dcmp_le rq (reserved_sell_qty demo_assembled "AAPL") = true.
Proof.
  destruct (pending_sells_reserved (λ x, x) None None (demo_providers false) "AAPL" (Some 1)
    demo_assembly_db demo_assembled demo_marked_db 2 demo_pending_row)
    as (q & rn & rq & _ & Hrem & _ & Hle); [vm_compute; reflexivity..|vm_compute; discriminate|].
  exists q, rn, rq. split; [exact Hrem|exact Hle].
Defined.

Lemma canonical_positions_spec_witness :
  ∃ cs, canonical_positions
      [mkPosition "BTCUSD" (Fin 1 0) (Fin 90 0) (Fin 100 0) None;
       mkPosition "AAPL" (Fin 2 0) (Fin 90 0) (Fin 100 0) None] ["BTC/USD"] = Ok (cs, true)
    ∧ map p_ticker cs = ["BTC/USD"; "AAPL"] ∧ NoDup (map p_ticker cs).
Proof.
  eexists. split; [vm_compute; reflexivity|]. split; [reflexivity|].
  eapply (canonical_positions_spec
    [mkPosition "BTCUSD" (Fin 1 0) (Fin 90 0) (Fin 100 0) None;
     mkPosition "AAPL" (Fin 2 0) (Fin 90 0) (Fin 100 0) None] ["BTC/USD"]).
  vm_compute. reflexivity.
Defined.

Lemma high_water_mark_never_falls_witness :
  mark_at_least EQUITY (of_Z 100)
    (foldl (observe_account (λ x, x)) empty_db
       [ (EQUITY, mkAccount (of_Z 10) (of_Z 100) (of_Z 10), 1);
         (EQUITY, mkAccount (of_Z 10) (of_Z 90) (of_Z 10), 2);
         (CRYPTO, mkAccount (of_Z 10) (of_Z 0) (of_Z 10), 3) ]).
Proof.
  destruct (high_water_mark_never_falls (λ x, x) (λ x H, H)
    [ (EQUITY, mkAccount (of_Z 10) (of_Z 100) (of_Z 10), 1);
      (EQUITY, mkAccount (of_Z 10) (of_Z 90) (of_Z 10), 2);
      (CRYPTO, mkAccount (of_Z 10) (of_Z 0) (of_Z 10), 3) ] empty_db ltac:(by intros k r Hk))
    as (_ & Hb & _).
  apply (Hb EQUITY (mkAccount (of_Z 10) (of_Z 100) (of_Z 10)) 1); [apply list_elem_of_here|reflexivity].
Defined.
