(* ===== verification/RuleRepository.v ===== *)
(** Rule-group leases and claims: the lease protocol of [rules/repository.py] and the state
    and kind names of [rules/models.py].

    A worker leases a group, reads its rules and either releases the lease or spends it on one
    claim.  Every write is a compare-and-swap on the group's owner and version.  Methods that
    accept the caller's session are transactions [tx]; without one they run in their own.
    The validation of a high-water mark (pydantic) is a parameter. *)

From S2P Require Import Prelude PyDecimal BrokerModels Breakers Database Lifecycle.
From Stdlib Require Import Ascii Lia.
Local Open Scope Z_scope.

Inductive RuleKind : Type := PRICE | ENTRY | TARGET | STOP | TRAILING | TIME.

Definition rule_kind_value (k : RuleKind) : string :=
  match k with
  | PRICE => "price" | ENTRY => "entry" | TARGET => "target" | STOP => "stop"
  | TRAILING => "trailing" | TIME => "time"
  end.

Inductive RuleState : Type := RS_PENDING | RS_ACTIVE | RS_PROCESSING | RS_TRIGGERED | RS_CANCELED | RS_FAILED.

#[export] Instance rule_state_eq_dec : EqDecision RuleState.
Proof. solve_decision. Defined.

Definition rule_state_value (s : RuleState) : string :=
  match s with
  | RS_PENDING => "pending" | RS_ACTIVE => "active" | RS_PROCESSING => "processing"
  | RS_TRIGGERED => "triggered" | RS_CANCELED => "canceled" | RS_FAILED => "failed"
  end.

#[export] Instance rule_state_value_Inj : Inj (=) (=) rule_state_value.
Proof. intros s t. destruct s, t; try done; discriminate. Qed.

Definition EXIT_KINDS : list string := map rule_kind_value [TARGET; STOP; TRAILING; TIME].
Definition LIVE_RULE_STATES : list string := map rule_state_value [RS_PENDING; RS_ACTIVE; RS_PROCESSING].

Definition in_states (states : list RuleState) (text : string) : bool := bool_decide (text ∈ map rule_state_value states).

Definition NONTERMINAL_ORDER_STATES : list string := map order_status_value NONTERMINAL_STATES.

Record RuleGroupLease : Type := mkGroupLease {
  rl_group_id : Z;
  rl_owner : string;
  rl_expires_at : time;
  rl_version : Z;
}.

Definition rule_context (actor reason request_id : string) : outcome (string * string * string) :=
  let actor := strip actor in
  let reason := strip reason in
  let request_id := strip request_id in
  if negb (nonempty actor) || negb (nonempty reason) || negb (nonempty request_id)
  then Raise (ValueError "rule mutation actor, reason, and request_id must be non-empty")
  else Ok (actor, reason, request_id).

(** Ids of the rows a [WHERE] selects. *)
Definition matching_ids {A} (pred : A → bool) (m : gmap Z A) : list Z :=
  map fst (filter (λ x, pred x.2 = true) (map_to_list m)).

(** [UPDATE rule_groups SET ... WHERE id = ? AND pred]; the updated row if one matched. *)
Definition update_group (group_id : Z) (pred : RuleGroup → bool) (f : RuleGroup → RuleGroup) : tx (option RuleGroup) :=
  d ← read;
  match db_groups d !! group_id with
  | Some g => if pred g
              then write (set_db_groups (<[group_id := f g]> (db_groups d))) ≫= λ _, mret (Some (f g))
              else mret None
  | None => mret None
  end.

(** [UPDATE ... SET ... WHERE pred RETURNING id]. *)
Definition update_groups (pred : RuleGroup → bool) (f : RuleGroup → RuleGroup) : tx (list Z) :=
  d ← read;
  write (set_db_groups ((λ g, if pred g then f g else g) <$> db_groups d)) ≫= λ _,
  mret (matching_ids pred (db_groups d)).
Definition update_rules (pred : Rule → bool) (f : Rule → Rule) : tx (list Z) :=
  d ← read;
  write (set_db_rules ((λ r, if pred r then f r else r) <$> db_rules d)) ≫= λ _,
  mret (matching_ids pred (db_rules d)).

Definition free_lease (now : time) (g : RuleGroup) : RuleGroup :=
  mkRuleGroup (g_id g) (g_group_key g) (g_state g) None None (g_terminal_rule_id g) (g_version g + 1)
    (g_reconciliation_required g) (g_created_at g) now.

Definition end_group (state : RuleState) (terminal_rule_id : option Z) (now : time) (g : RuleGroup) : RuleGroup :=
  mkRuleGroup (g_id g) (g_group_key g) (rule_state_value state) None None terminal_rule_id (g_version g + 1)
    (g_reconciliation_required g) (g_created_at g) now.

Definition take_lease (owner : string) (expires_at now : time) (g : RuleGroup) : RuleGroup :=
  mkRuleGroup (g_id g) (g_group_key g) (g_state g) (Some owner) (Some expires_at) (g_terminal_rule_id g)
    (g_version g + 1) (g_reconciliation_required g) (g_created_at g) now.

(** The compare-and-swap condition of every use of a lease. *)
Definition lease_current (lease : RuleGroupLease) (g : RuleGroup) : bool :=
  bool_decide (g_state g = rule_state_value RS_ACTIVE) && bool_decide (g_lease_owner g = Some (rl_owner lease))
  && (g_version g =? rl_version lease).

(** ... and of the claims, which a reconciliation latch also blocks. *)
Definition claim_current (lease : RuleGroupLease) (g : RuleGroup) : bool :=
  lease_current lease g && negb (g_reconciliation_required g).

(** The orders proposed from rules of a group that satisfy [pred]. *)
Definition group_has_order (group_id : Z) (pred : Order → bool) (d : Db) : bool :=
  existsb (λ x, bool_decide (p_source_rule_group_id x.2 = Some group_id)
                && match db_orders d !! x.1 with Some o => pred o | None => false end)
    (map_to_list (db_proposals d)).

Definition order_unresolved (o : Order) : bool :=
  bool_decide (o_status o ∈ map order_status_value [SUBMITTING; ACCEPTANCE_UNKNOWN]).
Definition order_outstanding (o : Order) : bool :=
  bool_decide (o_status o ∈ NONTERMINAL_ORDER_STATES)
  || bool_decide (o_acceptance_state o = FILL_RECONCILIATION_REQUIRED).

Section Rules.
Context `{Digest} (validate_hwm : Decimal → outcome Decimal).

Definition rule_audit (actor reason request_id action target_type : string) (target_id : Z) (result_code : string) : tx () :=
  d ← read;
  insert_audit (mkAuditEvent actor action target_type (pretty target_id) request_id EmptyString reason result_code 0
    (JObj (augment_lifecycle_detail d target_type target_id [])) None).

Definition active_group_ids (d : Db) : list Z :=
  merge_sort Z.le (matching_ids (λ g, bool_decide (g_state g = rule_state_value RS_ACTIVE)) (db_groups d)).

(** * Leasing *)

Definition lease_group (owner : string) (group_id : Z) (now : time) (ttl : Z) (actor reason request_id : string) (d : Db)
    : outcome (option RuleGroupLease) * Db :=
  match rule_context actor reason request_id with
  | Raise e => (Raise e, d)
  | Ok (actor, reason, request_id) =>
      if ttl <=? 0 then (Raise (ValueError "rule lease ttl must be positive"), d)
      else
        let expires_at := now + ttl in
        with_session (
          d0 ← read;
          match db_groups d0 !! group_id with
          | None => rollback ≫= λ _, mret None
          | Some group =>
              if (now <? g_created_at group) || (now <? g_updated_at group)
              then rollback ≫= λ _, raise (RuleLeaseChronologyError "rule lease now precedes durable group state")
              else
                latch ← update_group group_id
                  (λ g, (g_created_at g <=? now) && (g_updated_at g <=? now) && negb (g_reconciliation_required g)
                        && group_has_order group_id order_unresolved d0)
                  (λ g, set_g_updated_at now (set_g_reconciliation_required true g));
                match latch with
                | Some _ => rule_audit actor reason request_id "rule_group.reconciliation_latch" "rule_group" group_id "required"
                | None => mret ()
                end ≫= λ _,
                leased ← update_group group_id
                  (λ g, (g_created_at g <=? now) && (g_updated_at g <=? now)
                        && bool_decide (g_state g = rule_state_value RS_ACTIVE) && negb (g_reconciliation_required g)
                        && match g_lease_expires_at g with None => true | Some e => e <=? now end)
                  (take_lease owner expires_at now);
                match leased with
                | None => commit ≫= λ _, mret None
                | Some g =>
                    rule_audit actor reason request_id "rule_group.lease" "rule_group" group_id "leased" ≫= λ _,
                    commit ≫= λ _, mret (Some (mkGroupLease group_id owner expires_at (g_version g)))
                end
          end) d
  end.

(** The rows [load_rules] decodes, in id order. *)
Definition load_rules (lease : RuleGroupLease) (d : Db) : list Rule :=
  match db_groups d !! rl_group_id lease with
  | Some g =>
      if claim_current lease g
      then omap (λ id, db_rules d !! id)
             (merge_sort Z.le (matching_ids (λ r, bool_decide (ru_group_id r = rl_group_id lease)
                                                  && in_states [RS_ACTIVE] (ru_state r)) (db_rules d)))
      else []
  | None => []
  end.

Definition opt_hwm (hwm : option Decimal) (r : Rule) : Rule :=
  match hwm with Some v => set_ru_hwm (Some v) r | None => r end.

Definition validate_opt_hwm (hwm : option Decimal) : outcome (option Decimal) :=
  match hwm with None => Ok None | Some v => v' ← validate_hwm v; Ok (Some v') end.

(** * Releasing *)

Definition store_hwm (lease : RuleGroupLease) (actor reason request_id : string) (x : Z * Decimal) : tx () :=
  let '(rule_id, hwm) := x in
  changed ← update_rules (λ r, (ru_id r =? rule_id) && (ru_group_id r =? rl_group_id lease)
                               && in_states [RS_ACTIVE; RS_PROCESSING] (ru_state r)
                               && match ru_hwm r with Some v => negb (deq v hwm) | None => true end)
              (set_ru_hwm (Some hwm));
  match changed with
  | [] => mret ()
  | _ => rule_audit actor reason request_id "rule.high_water_mark" "rule" rule_id "updated"
  end.

Definition release_group (lease : RuleGroupLease) (now : time) (high_water_marks : list (Z * Decimal))
    (actor reason request_id : string) (d : Db) : outcome bool * Db :=
  match rule_context actor reason request_id with
  | Raise e => (Raise e, d)
  | Ok (actor, reason, request_id) =>
      match outcome_mapM (λ x, v ← validate_hwm x.2; Ok (x.1, v)) high_water_marks with
      | Raise e => (Raise e, d)
      | Ok marks =>
          with_session (
            released ← update_group (rl_group_id lease) (lease_current lease) (free_lease now);
            match released with
            | None => rollback ≫= λ _, mret false
            | Some _ =>
                rule_audit actor reason request_id "rule_group.release" "rule_group" (rl_group_id lease) "released" ≫= λ _,
                tx_iter (store_hwm lease actor reason request_id) marks ≫= λ _,
                commit ≫= λ _, mret true
            end) d
      end
  end.

(** * Claims *)

(** A claim in the caller's session; an exception rolls that session back. *)
Definition guarded {A} (body : tx A) : tx A := λ s,
  match body s with (Raise e, s') => (Raise e, mkSession (durable s') (durable s')) | r => r end.

(** The rows of one rule update with the expected count of one. *)
Definition update_one_rule (pred : Rule → bool) (f : Rule → Rule) (ok : tx bool) : tx bool :=
  ids ← update_rules pred f;
  match ids with
  | [_] => ok
  | _ => rollback ≫= λ _, mret false
  end.

Definition claim_proposal_in (lease : RuleGroupLease) (rule_id : Z) (now : time) (hwm : option Decimal)
    (actor reason request_id : string) : tx bool :=
  lift (rule_context actor reason request_id) ≫= λ c,
  let '(actor, reason, request_id) := c in
  lift (validate_opt_hwm hwm) ≫= λ hwm,
  guarded (
    d ← read;
    if group_has_order (rl_group_id lease) order_outstanding d then rollback ≫= λ _, mret false
    else
      claimed ← update_group (rl_group_id lease) (claim_current lease) (free_lease now);
      match claimed with
      | None => rollback ≫= λ _, mret false
      | Some _ =>
          update_one_rule
            (λ r, (ru_id r =? rule_id) && (ru_group_id r =? rl_group_id lease)
                  && bool_decide (ru_plan_id r ≠ None) && in_states [RS_ACTIVE] (ru_state r))
            (λ r, opt_hwm hwm (set_ru_state (rule_state_value RS_PROCESSING) r))
            (rule_audit actor reason request_id "rule_group.proposal_pending" "rule_group" (rl_group_id lease)
               (rule_state_value RS_ACTIVE) ≫= λ _,
             rule_audit actor reason request_id "rule.proposal_pending" "rule" rule_id
               (rule_state_value RS_PROCESSING) ≫= λ _,
             mret true)
      end).

(** The rules of a terminal claim after the winner: siblings first. *)
Definition cancel_rules (pred : Rule → bool) (actor reason request_id : string) : tx (list Z) :=
  ids ← update_rules (λ r, pred r && bool_decide (ru_state r ∈ LIVE_RULE_STATES))
          (set_ru_state (rule_state_value RS_CANCELED));
  tx_iter (λ id, rule_audit actor reason request_id "rule.cancel" "rule" id (rule_state_value RS_CANCELED)) ids ≫= λ _,
  mret ids.

Definition cancel_groups (ids : list Z) (now : time) (actor reason request_id : string) : tx () :=
  canceled ← update_groups (λ g, bool_decide (g_id g ∈ ids) && in_states [RS_PENDING; RS_ACTIVE] (g_state g))
               (end_group RS_CANCELED None now);
  tx_iter (λ id, rule_audit actor reason request_id "rule_group.cancel" "rule_group" id (rule_state_value RS_CANCELED))
    canceled.

(** Proposed orders of the plan's groups are canceled. *)
Definition cancel_proposed_orders (group_ids : list Z) (now : time) (actor reason request_id : string) : tx () :=
  d ← read;
  let from_groups (order_id : Z) (o : Order) :=
    bool_decide (o_status o = order_status_value PROPOSED)
    && match db_proposals d !! order_id ≫= p_source_rule_group_id with
       | Some g => bool_decide (g ∈ group_ids)
       | None => false
       end in
  write (set_db_orders (map_imap (λ id o, Some (if from_groups id o
           then set_o_updated_at now (set_o_status (order_status_value CANCELED) o) else o)) (db_orders d))) ≫= λ _,
  tx_iter (λ id, rule_audit actor reason request_id "order.cancel" "order" id (order_status_value CANCELED))
    (map fst (filter (λ x, from_groups x.1 x.2 = true) (map_to_list (db_orders d)))).

(** A triggered exit of a plan ends the plan's other groups. *)
Definition end_plan (lease : RuleGroupLease) (plan_id : Z) (now : time) (actor reason request_id : string) : tx () :=
  d ← read;
  let plan_group_ids := dedup (map (λ x, ru_group_id x.2)
        (filter (λ x, ru_plan_id x.2 = Some plan_id) (map_to_list (db_rules d)))) in
  let other_group_ids := filter (λ g, g ≠ rl_group_id lease) plan_group_ids in
  match other_group_ids with
  | [] => mret ()
  | _ =>
      cancel_groups other_group_ids now actor reason request_id ≫= λ _,
      cancel_rules (λ r, bool_decide (ru_group_id r ∈ other_group_ids)) actor reason request_id ≫= λ _, mret ()
  end ≫= λ _,
  cancel_proposed_orders plan_group_ids now actor reason request_id.

Definition claim_terminal_in (lease : RuleGroupLease) (winning_rule_id : Z) (now : time) (terminal_state : RuleState)
    (hwm : option Decimal) (actor reason request_id : string) : tx bool :=
  lift (rule_context actor reason request_id) ≫= λ c,
  let '(actor, reason, request_id) := c in
  if bool_decide (terminal_state ∉ [RS_TRIGGERED; RS_CANCELED; RS_FAILED])
  then raise (ValueError "winning rule must transition to a terminal state")
  else
    lift (validate_opt_hwm hwm) ≫= λ hwm,
    guarded (
      d ← read;
      match db_rules d !! winning_rule_id with
      | None => rollback ≫= λ _, mret false
      | Some winning_rule =>
          if negb (ru_group_id winning_rule =? rl_group_id lease) then rollback ≫= λ _, mret false
          else
            claimed ← update_group (rl_group_id lease) (claim_current lease)
                        (end_group terminal_state (Some winning_rule_id) now);
            match claimed with
            | None => rollback ≫= λ _, mret false
            | Some _ =>
                rule_audit actor reason request_id "rule_group.terminal" "rule_group" (rl_group_id lease)
                  (rule_state_value terminal_state) ≫= λ _,
                update_one_rule
                  (λ r, (ru_id r =? winning_rule_id) && (ru_group_id r =? rl_group_id lease)
                        && in_states [RS_ACTIVE; RS_PROCESSING] (ru_state r))
                  (λ r, opt_hwm hwm (set_ru_state (rule_state_value terminal_state) r))
                  (rule_audit actor reason request_id "rule.terminal" "rule" winning_rule_id
                     (rule_state_value terminal_state) ≫= λ _,
                   cancel_rules (λ r, (ru_group_id r =? rl_group_id lease) && negb (ru_id r =? winning_rule_id))
                     actor reason request_id ≫= λ _,
                   match ru_plan_id winning_rule with
                   | Some plan_id =>
                       if bool_decide (terminal_state = RS_TRIGGERED) && bool_decide (ru_kind winning_rule ∈ EXIT_KINDS)
                       then end_plan lease plan_id now actor reason request_id
                       else mret ()
                   | None => mret ()
                   end ≫= λ _,
                   mret true)
            end
      end).

Definition claim_progress_in (lease : RuleGroupLease) (winning_rule_id : Z) (now : time) (rule_state : RuleState)
    (hwm : option Decimal) (actor reason request_id : string) : tx bool :=
  lift (rule_context actor reason request_id) ≫= λ c,
  let '(actor, reason, request_id) := c in
  if bool_decide (rule_state ∉ [RS_TRIGGERED; RS_FAILED])
  then raise (ValueError "progressing rule must become triggered or failed")
  else
    lift (validate_opt_hwm hwm) ≫= λ hwm,
    guarded (
      claimed ← update_group (rl_group_id lease) (claim_current lease) (free_lease now);
      match claimed with
      | None => rollback ≫= λ _, mret false
      | Some _ =>
          update_one_rule
            (λ r, (ru_id r =? winning_rule_id) && (ru_group_id r =? rl_group_id lease)
                  && in_states [RS_ACTIVE; RS_PROCESSING] (ru_state r))
            (λ r, opt_hwm hwm (set_ru_state (rule_state_value rule_state) r))
            (rule_audit actor reason request_id "rule_group.progress" "rule_group" (rl_group_id lease)
               (rule_state_value RS_ACTIVE) ≫= λ _,
             rule_audit actor reason request_id "rule.terminal" "rule" winning_rule_id
               (rule_state_value rule_state) ≫= λ _,
             mret true)
      end).

(** Without a session of the caller's, a claim that returns [True] commits its own. *)
Definition own_session (body : tx bool) : Db → outcome bool * Db :=
  with_session (ok ← body; if ok : bool then commit ≫= λ _, mret true else mret false).

Definition claim_proposal (lease : RuleGroupLease) (rule_id : Z) (now : time) (hwm : option Decimal)
    (actor reason request_id : string) : Db → outcome bool * Db :=
  own_session (claim_proposal_in lease rule_id now hwm actor reason request_id).
Definition claim_terminal (lease : RuleGroupLease) (winning_rule_id : Z) (now : time) (terminal_state : RuleState)
    (hwm : option Decimal) (actor reason request_id : string) : Db → outcome bool * Db :=
  own_session (claim_terminal_in lease winning_rule_id now terminal_state hwm actor reason request_id).
Definition claim_progress (lease : RuleGroupLease) (winning_rule_id : Z) (now : time) (rule_state : RuleState)
    (hwm : option Decimal) (actor reason request_id : string) : Db → outcome bool * Db :=
  own_session (claim_progress_in lease winning_rule_id now rule_state hwm actor reason request_id).

End Rules.
