(* ===== verification/RuleProofs.v ===== *)
(** Rule leases are single use, and a terminal claim settles its group. *)

From S2P Require Import Prelude PyDecimal Assets BrokerModels Breakers RiskRules RiskEngine.
From S2P Require Import Database Lifecycle BreakerStore OrderRepository RepositoryLogic SessionLogic RuleRepository.
From Stdlib Require Import Ascii Lia.
Local Open Scope Z_scope.

(** * Running the transactions backwards *)

(** The session after some audit rows. *)
Definition log (evs : list AuditEvent) (s : Session) : Session :=
  mkSession (durable s) (set_db_audit (db_audit (working s) ++ evs) (working s)).

Lemma log_app e1 e2 s : log e2 (log e1 s) = log (e1 ++ e2) s.
Proof. unfold log. cbn. by rewrite app_assoc. Qed.

Lemma log_nil s : log [] s = s.
Proof. unfold log. rewrite app_nil_r. by destruct s as [d0 []]. Qed.

Section Proofs.
Context `{Digest} (validate_hwm : Decimal → outcome Decimal).

Lemma rule_audit_run actor reason request_id action tt tid code s :
  ∃ e, rule_audit actor reason request_id action tt tid code s = (Ok (), log [e] s).
Proof. eexists. reflexivity. Qed.

Lemma iter_audit_run actor reason request_id action tt code ids : ∀ s,
  ∃ evs, tx_iter (λ id, rule_audit actor reason request_id action tt id code) ids s = (Ok (), log evs s).
Proof.
  induction ids as [|id ids IH]; intros s; [exists []; by rewrite log_nil|].
  cbn [tx_iter]. unfold mbind at 1, tx_bind. destruct (rule_audit_run actor reason request_id action tt id code s) as [e ->].
  destruct (IH (log [e] s)) as [evs ->]. exists (e :: evs). by rewrite log_app.
Qed.

Lemma update_group_run gid pred f s :
  update_group gid pred f s
  = match db_groups (working s) !! gid with
    | Some g => if pred g then (Ok (Some (f g)), mkSession (durable s)
                    (set_db_groups (<[gid := f g]> (db_groups (working s))) (working s)))
                else (Ok None, s)
    | None => (Ok None, s)
    end.
Proof.
  unfold update_group. unfold mbind, tx_bind, read. destruct (db_groups (working s) !! gid) as [g|]; [|done].
  by destruct (pred g).
Qed.

(** ** Nothing is durable before the commit *)

Lemma keeps_guarded {A} (m : tx A) : keeps_durable m → keeps_durable (guarded m).
Proof. intros Hm s. unfold guarded. specialize (Hm s). by destruct (m s) as [[a|e] s']. Qed.
#[local] Hint Resolve keeps_guarded : keeps.

Lemma keeps_rule_audit actor reason request_id action tt tid code :
  keeps_durable (rule_audit actor reason request_id action tt tid code).
Proof. unfold rule_audit, insert_audit. keeps. Qed.
Lemma keeps_update_group gid pred f : keeps_durable (update_group gid pred f).
Proof. unfold update_group. keeps. Qed.
Lemma keeps_update_rules pred f : keeps_durable (update_rules pred f).
Proof. unfold update_rules. keeps. Qed.
Lemma keeps_update_groups pred f : keeps_durable (update_groups pred f).
Proof. unfold update_groups. keeps. Qed.
#[local] Hint Resolve keeps_rule_audit keeps_update_group keeps_update_rules keeps_update_groups : keeps.

Lemma keeps_update_one pred f ok : keeps_durable ok → keeps_durable (update_one_rule pred f ok).
Proof. intros Hok. unfold update_one_rule. keeps. Qed.
#[local] Hint Resolve keeps_update_one : keeps.

Lemma keeps_end_plan lease plan_id now actor reason request_id :
  keeps_durable (end_plan lease plan_id now actor reason request_id).
Proof. unfold end_plan, cancel_groups, cancel_rules, cancel_proposed_orders. keeps. Qed.
#[local] Hint Resolve keeps_end_plan : keeps.

Lemma keeps_claim_proposal lease rule_id now hwm actor reason request_id :
  keeps_durable (claim_proposal_in validate_hwm lease rule_id now hwm actor reason request_id).
Proof. unfold claim_proposal_in. keeps; apply keeps_guarded; keeps. Qed.
Lemma keeps_claim_terminal lease rule_id now st hwm actor reason request_id :
  keeps_durable (claim_terminal_in validate_hwm lease rule_id now st hwm actor reason request_id).
Proof. unfold claim_terminal_in, cancel_rules. keeps; apply keeps_guarded; keeps. Qed.
Lemma keeps_claim_progress lease rule_id now st hwm actor reason request_id :
  keeps_durable (claim_progress_in validate_hwm lease rule_id now st hwm actor reason request_id).
Proof. unfold claim_progress_in. keeps; apply keeps_guarded; keeps. Qed.

(** A claim in its own session commits exactly when it returns [True]. *)
Lemma own_session_spec (body : tx bool) d r d' :
  keeps_durable body → own_session body d = (r, d') →
  (r = Ok true ∧ ∃ s', body (mkSession d d) = (Ok true, s') ∧ d' = working s') ∨ (r ≠ Ok true ∧ d' = d).
Proof.
  intros Hk. unfold own_session, with_session, mbind, tx_bind. specialize (Hk (mkSession d d)).
  destruct (body (mkSession d d)) as [[[]|e] s']; cbn; intros [= <- <-]; [left|right..]; split; try done. by exists s'.
Qed.

(** ** What a successful claim did *)

(** The update of exactly one rule, by the row it hit. *)
Definition upd_rules (pred : Rule → bool) (f : Rule → Rule) (d : Db) : Db :=
  set_db_rules ((λ r, if pred r then f r else r) <$> db_rules d) d.

Lemma update_rules_run pred f s :
  update_rules pred f s = (Ok (matching_ids pred (db_rules (working s))), mkSession (durable s) (upd_rules pred f (working s))).
Proof. reflexivity. Qed.

Lemma update_one_rule_true pred f ok s s' :
  update_one_rule pred f ok s = (Ok true, s') →
  ok (mkSession (durable s) (upd_rules pred f (working s))) = (Ok true, s')
  ∧ ∃ id, matching_ids pred (db_rules (working s)) = [id].
Proof.
  unfold update_one_rule. unfold mbind at 1, tx_bind. rewrite update_rules_run.
  destruct (matching_ids _ _) as [|id [|]]; cbn; try done. intros Hok. split; [done|by exists id].
Qed.

Lemma matching_ids_elem {A} (pred : A → bool) (m : gmap Z A) id :
  id ∈ matching_ids pred m ↔ ∃ x, m !! id = Some x ∧ pred x = true.
Proof.
  unfold matching_ids. rewrite list_elem_of_fmap. split.
  - intros ([i x] & -> & Hin). apply list_elem_of_filter in Hin as [Hp Hin%elem_of_map_to_list]. by exists x.
  - intros (x & Hx & Hp). exists (id, x). split; [done|]. apply list_elem_of_filter. split; [done|]. by apply elem_of_map_to_list.
Qed.

Lemma guarded_Ok {A} (m : tx A) s a s' : guarded m s = (Ok a, s') → m s = (Ok a, s').
Proof. unfold guarded. by destruct (m s) as [[?|?] ?]. Qed.

Lemma rollback_false s s' : (rollback ≫= λ _, mret false) s = (Ok true, s') → False.
Proof. done. Qed.

Lemma claim_group_run lease f s g' s1 :
  update_group (rl_group_id lease) (claim_current lease) f s = (Ok (Some g'), s1) →
  ∃ g, db_groups (working s) !! rl_group_id lease = Some g ∧ claim_current lease g = true ∧ g' = f g
       ∧ s1 = mkSession (durable s) (set_db_groups (<[rl_group_id lease := f g]> (db_groups (working s))) (working s)).
Proof.
  rewrite update_group_run. destruct (db_groups (working s) !! rl_group_id lease) as [g|]; [|done].
  destruct (claim_current lease g) eqn:Hc; [|done]. intros [= <- <-]. by exists g.
Qed.

(** The two audit rows that close a claim touch no table. *)
Lemma two_audits_run a1 a2 t1 t2 i1 i2 c1 c2 actor reason request_id s s' :
  (rule_audit actor reason request_id a1 t1 i1 c1 ≫= λ _, rule_audit actor reason request_id a2 t2 i2 c2 ≫= λ _, mret true) s
  = (Ok true, s') → ∃ evs, s' = log evs s.
Proof. intros [= <-]. eexists [_; _]. unfold log. cbn. by rewrite <- app_assoc. Qed.

Lemma one_rule_matched pred (m : gmap Z Rule) id : matching_ids pred m = [id] → ∃ r, m !! id = Some r ∧ pred r = true.
Proof. intros Hid. apply matching_ids_elem. rewrite Hid. left. Qed.

Lemma claim_proposal_true lease rule_id now hwm actor reason request_id d s' :
  claim_proposal_in validate_hwm lease rule_id now hwm actor reason request_id (mkSession d d) = (Ok true, s') →
  ∃ g, db_groups d !! rl_group_id lease = Some g ∧ claim_current lease g = true
    ∧ group_has_order (rl_group_id lease) order_outstanding d = false
    ∧ db_groups (working s') = <[rl_group_id lease := free_lease now g]> (db_groups d)
    ∧ db_orders (working s') = db_orders d.
Proof.
  unfold claim_proposal_in. intros Hrun.
  apply tx_bind_Ok in Hrun as ([[a b] c] & s1 & H1 & Hrun). apply tx_bind_Ok in Hrun as (h & s2 & H2 & Hrun).
  unfold lift in H1, H2. simplify_eq. apply guarded_Ok in Hrun. apply tx_bind_Ok in Hrun as (w & s3 & H3 & Hrun).
  unfold read in H3. simplify_eq. cbn [working] in Hrun.
  destruct (group_has_order _ _ _) eqn:Ho; [by apply rollback_false in Hrun|].
  apply tx_bind_Ok in Hrun as ([g'|] & s4 & H4 & Hrun); [|by apply rollback_false in Hrun].
  apply claim_group_run in H4 as (g & Hg & Hc & -> & ->). cbn [working durable] in *.
  apply update_one_rule_true in Hrun as [Hok _]. apply two_audits_run in Hok as [evs ->]. exists g. by cbn.
Qed.

Lemma claim_progress_true lease rule_id now st hwm actor reason request_id d s' :
  claim_progress_in validate_hwm lease rule_id now st hwm actor reason request_id (mkSession d d) = (Ok true, s') →
  ∃ g, db_groups d !! rl_group_id lease = Some g ∧ claim_current lease g = true
    ∧ db_groups (working s') = <[rl_group_id lease := free_lease now g]> (db_groups d)
    ∧ db_orders (working s') = db_orders d.
Proof.
  unfold claim_progress_in. intros Hrun. apply tx_bind_Ok in Hrun as ([[a b] c] & s1 & H1 & Hrun).
  unfold lift in H1. simplify_eq. destruct (bool_decide _); [done|]. apply tx_bind_Ok in Hrun as (h & s2 & H2 & Hrun).
  unfold lift in H2. simplify_eq. apply guarded_Ok in Hrun.
  apply tx_bind_Ok in Hrun as ([g'|] & s4 & H4 & Hrun); [|by apply rollback_false in Hrun].
  apply claim_group_run in H4 as (g & Hg & Hc & -> & ->). cbn [working durable] in *.
  apply update_one_rule_true in Hrun as [Hok _]. apply two_audits_run in Hok as [evs ->]. exists g. by cbn.
Qed.

(** ** The terminal claim *)

Definition live_rule (r : Rule) : bool := bool_decide (ru_state r ∈ LIVE_RULE_STATES).

(** A rule row moved by a cancellation: same rule, and not live again once settled. *)
Definition rule_settles (r r' : Rule) : Prop :=
  ru_id r' = ru_id r ∧ ru_group_id r' = ru_group_id r ∧ ru_plan_id r' = ru_plan_id r
  ∧ (live_rule r = false → live_rule r' = false).

Definition cancel_rule (pred : Rule → bool) (r : Rule) : Rule :=
  if pred r && live_rule r then set_ru_state (rule_state_value RS_CANCELED) r else r.

Lemma cancel_rule_settles pred r : rule_settles r (cancel_rule pred r) ∧ (pred r = true → live_rule (cancel_rule pred r) = false).
Proof.
  unfold cancel_rule, rule_settles. destruct (pred r) eqn:Hp, (live_rule r) eqn:Hl; cbn; split_and!; try done.
Qed.

Lemma cancel_rules_run pred actor reason request_id s :
  ∃ evs, cancel_rules pred actor reason request_id s
    = (Ok (matching_ids (λ r, pred r && live_rule r) (db_rules (working s))),
       log evs (mkSession (durable s) (set_db_rules (cancel_rule pred <$> db_rules (working s)) (working s)))).
Proof.
  unfold cancel_rules. unfold mbind at 1, tx_bind at 1. rewrite update_rules_run. unfold mbind, tx_bind.
  match goal with |- context [tx_iter _ ?l ?s0] =>
    destruct (iter_audit_run actor reason request_id "rule.cancel" "rule" (rule_state_value RS_CANCELED) l s0) as [evs ->] end.
  by exists evs.
Qed.

Definition cancel_group (ids : list Z) (now : time) (g : RuleGroup) : RuleGroup :=
  if bool_decide (g_id g ∈ ids) && in_states [RS_PENDING; RS_ACTIVE] (g_state g) then end_group RS_CANCELED None now g else g.

Lemma cancel_groups_run ids now actor reason request_id s :
  ∃ evs, cancel_groups ids now actor reason request_id s
    = (Ok (), log evs (mkSession (durable s) (set_db_groups (cancel_group ids now <$> db_groups (working s)) (working s)))).
Proof.
  unfold cancel_groups. unfold mbind at 1, tx_bind at 1, update_groups. cbn [read]. apply iter_audit_run.
Qed.

(** Canceling the proposed orders of some groups leaves none of them proposed. *)
Lemma cancel_proposed_run gids now actor reason request_id s :
  ∃ evs orders, cancel_proposed_orders gids now actor reason request_id s
    = (Ok (), log evs (mkSession (durable s) (set_db_orders orders (working s))))
    ∧ (∀ id o, orders !! id = Some o → ∀ p gid, db_proposals (working s) !! id = Some p →
         p_source_rule_group_id p = Some gid → gid ∈ gids → o_status o ≠ order_status_value PROPOSED).
Proof.
  unfold cancel_proposed_orders. unfold mbind at 1, tx_bind at 1, read. cbv zeta.
  set (orders := map_imap _ _). unfold mbind at 1, tx_bind at 1, write. cbn [working durable].
  match goal with |- context [tx_iter ?f ?l ?s1] => destruct (iter_audit_run actor reason request_id "order.cancel" "order" (order_status_value CANCELED) l s1) as [evs Hevs] end.
  exists evs, orders. split; [exact Hevs|]. intros id o Ho p gid Hp Hg Hin. unfold orders in Ho. rewrite map_lookup_imap in Ho.
  destruct (db_orders (working s) !! id) as [o0|]; [|done]. cbn in Ho. rewrite Hp in Ho. cbn in Ho. rewrite Hg, (bool_decide_true (gid ∈ gids)) in Ho by done.
  rewrite andb_true_r in Ho. case_bool_decide; injection Ho as <-; [cbn; discriminate|done].
Qed.

(** The groups with a rule of the plan. *)
Definition plan_group (plan_id : Z) (d : Db) (gid : Z) : Prop :=
  ∃ id r, db_rules d !! id = Some r ∧ ru_plan_id r = Some plan_id ∧ ru_group_id r = gid.

Definition plan_group_ids (plan_id : Z) (d : Db) : list Z :=
  dedup (map (λ x, ru_group_id x.2) (filter (λ x, ru_plan_id x.2 = Some plan_id) (map_to_list (db_rules d)))).

Lemma plan_group_ids_elem plan_id d gid : gid ∈ plan_group_ids plan_id d ↔ plan_group plan_id d gid.
Proof.
  unfold plan_group_ids, plan_group. rewrite elem_of_dedup, list_elem_of_fmap. split.
  - intros ([id r] & -> & Hin). apply list_elem_of_filter in Hin as [Hp Hin%elem_of_map_to_list]. by exists id, r.
  - intros (id & r & Hr & Hp & <-). exists (id, r). split; [done|]. apply list_elem_of_filter. split; [done|].
    by apply elem_of_map_to_list.
Qed.

Lemma cancel_group_nil now g : cancel_group [] now g = g.
Proof. unfold cancel_group. by rewrite bool_decide_false by (by intros ?%elem_of_nil). Qed.

Lemma cancel_rule_false r : cancel_rule (λ _, false) r = r.
Proof. done. Qed.

(** Ending the plan: its other groups and their rules are canceled, and so are the proposed
    orders of all its groups. *)
Lemma end_plan_run lease plan_id now actor reason request_id s :
  let others := filter (λ g, g ≠ rl_group_id lease) (plan_group_ids plan_id (working s)) in
  ∃ s' orders, end_plan lease plan_id now actor reason request_id s = (Ok (), s')
    ∧ db_groups (working s') = cancel_group others now <$> db_groups (working s)
    ∧ db_rules (working s') = cancel_rule (λ r, bool_decide (ru_group_id r ∈ others)) <$> db_rules (working s)
    ∧ db_orders (working s') = orders
    ∧ (∀ id o, orders !! id = Some o → ∀ p gid, db_proposals (working s) !! id = Some p →
         p_source_rule_group_id p = Some gid → plan_group plan_id (working s) gid → o_status o ≠ order_status_value PROPOSED).
Proof.
  intros others. unfold end_plan. unfold mbind at 1, tx_bind at 1, read. cbv zeta.
  fold (plan_group_ids plan_id (working s)). fold others.
  assert (∃ s1, (match others with [] => mret () | _ :: _ =>
              cancel_groups others now actor reason request_id ≫= λ _,
              cancel_rules (λ r, bool_decide (ru_group_id r ∈ others)) actor reason request_id ≫= λ _, mret () end) s = (Ok (), s1)
            ∧ db_groups (working s1) = cancel_group others now <$> db_groups (working s)
            ∧ db_rules (working s1) = cancel_rule (λ r, bool_decide (ru_group_id r ∈ others)) <$> db_rules (working s)
            ∧ db_proposals (working s1) = db_proposals (working s)) as (s1 & H1 & Hg & Hr & Hp).
  { destruct others as [|g0 gs].
    - exists s. split_and!; try done; apply map_eq; intros i; rewrite lookup_fmap;
        [destruct (db_groups (working s) !! i)|destruct (db_rules (working s) !! i)]; cbn; done.
    - unfold mbind at 1, tx_bind at 1.
      destruct (cancel_groups_run (g0 :: gs) now actor reason request_id s) as [e1 ->].
      unfold mbind, tx_bind.
      match goal with |- context [cancel_rules ?p _ _ _ ?s1] => destruct (cancel_rules_run p actor reason request_id s1) as [e2 ->] end.
      eexists. split; [reflexivity|]. by cbn. }
  unfold mbind at 1, tx_bind at 1. rewrite H1.
  destruct (cancel_proposed_run (plan_group_ids plan_id (working s)) now actor reason request_id s1) as (evs & orders & -> & Hord).
  eexists _, orders. split; [reflexivity|]. cbn. split_and!; try done. intros id o Ho p gid Hpr Hsrc Hpg.
  eapply Hord; [done|by rewrite Hp|done|]. by apply plan_group_ids_elem.
Qed.
(** Rows are stored under their own ids. *)
Definition keyed (d : Db) : Prop :=
  (∀ id r, db_rules d !! id = Some r → ru_id r = id) ∧ (∀ id g, db_groups d !! id = Some g → g_id g = id).

(** Everything a terminal claim of [lease] for rule [w] settled between [d] and [d']. *)
Record settled_by (lease : RuleGroupLease) (w : Z) (now : time) (st : RuleState) (d d' : Db) : Prop := {
  sb_group : ∃ g, db_groups d !! rl_group_id lease = Some g ∧ claim_current lease g = true
                  ∧ db_groups d' !! rl_group_id lease = Some (end_group st (Some w) now g);
  sb_winner : ∃ r r', db_rules d !! w = Some r ∧ ru_group_id r = rl_group_id lease
                      ∧ in_states [RS_ACTIVE; RS_PROCESSING] (ru_state r) = true
                      ∧ db_rules d' !! w = Some r' ∧ ru_state r' = rule_state_value st;
  sb_siblings : ∀ id r', db_rules d' !! id = Some r' → ru_group_id r' = rl_group_id lease → live_rule r' = false;
  sb_plan : ∀ r plan_id gid, db_rules d !! w = Some r → ru_plan_id r = Some plan_id → ru_kind r ∈ EXIT_KINDS →
    st = RS_TRIGGERED → plan_group plan_id d gid →
    (∀ id r', db_rules d' !! id = Some r' → ru_group_id r' = gid → live_rule r' = false)
    ∧ (∀ g', db_groups d' !! gid = Some g' → in_states [RS_PENDING; RS_ACTIVE] (g_state g') = false)
    ∧ (∀ id o p, db_orders d' !! id = Some o → db_proposals d !! id = Some p → p_source_rule_group_id p = Some gid →
         o_status o ≠ order_status_value PROPOSED);
}.

(** The rule update of the winner. *)
Definition win_rule (lease : RuleGroupLease) (w : Z) (st : RuleState) (hwm : option Decimal) (r : Rule) : Rule :=
  if (ru_id r =? w) && (ru_group_id r =? rl_group_id lease) && in_states [RS_ACTIVE; RS_PROCESSING] (ru_state r)
  then opt_hwm hwm (set_ru_state (rule_state_value st) r) else r.

(** A successful terminal claim, as the functions it applied to the tables. *)
Lemma claim_terminal_run lease w now st hwm actor reason request_id d s' :
  claim_terminal_in validate_hwm lease w now st hwm actor reason request_id (mkSession d d) = (Ok true, s') →
  ∃ g wr hwm' id,
    st ∈ [RS_TRIGGERED; RS_CANCELED; RS_FAILED]
    ∧ db_groups d !! rl_group_id lease = Some g ∧ claim_current lease g = true
    ∧ db_rules d !! w = Some wr ∧ ru_group_id wr = rl_group_id lease
    ∧ matching_ids (λ r, (ru_id r =? w) && (ru_group_id r =? rl_group_id lease)
                         && in_states [RS_ACTIVE; RS_PROCESSING] (ru_state r)) (db_rules d) = [id]
    ∧ let groups1 := <[rl_group_id lease := end_group st (Some w) now g]> (db_groups d) in
      let rules1 := cancel_rule (λ r, (ru_group_id r =? rl_group_id lease) && negb (ru_id r =? w))
                    <$> (win_rule lease w st hwm' <$> db_rules d) in
      let ends := bool_decide (st = RS_TRIGGERED) && bool_decide (ru_kind wr ∈ EXIT_KINDS) in
      match ru_plan_id wr with
      | Some plan_id =>
          if ends then
            let others := filter (λ g, g ≠ rl_group_id lease) (plan_group_ids plan_id (set_db_rules rules1 d)) in
            db_groups (working s') = cancel_group others now <$> groups1
            ∧ db_rules (working s') = cancel_rule (λ r, bool_decide (ru_group_id r ∈ others)) <$> rules1
            ∧ (∀ id o p gid, db_orders (working s') !! id = Some o → db_proposals d !! id = Some p →
                 p_source_rule_group_id p = Some gid → plan_group plan_id (set_db_rules rules1 d) gid →
                 o_status o ≠ order_status_value PROPOSED)
          else db_groups (working s') = groups1 ∧ db_rules (working s') = rules1
      | None => db_groups (working s') = groups1 ∧ db_rules (working s') = rules1
      end.
Proof.
  unfold claim_terminal_in. intros Hrun. apply tx_bind_Ok in Hrun as ([[a b] c] & s1 & H1 & Hrun).
  unfold lift in H1. simplify_eq. destruct (bool_decide_reflect (st ∉ [RS_TRIGGERED; RS_CANCELED; RS_FAILED])) as [|Hst]; [done|].
  apply tx_bind_Ok in Hrun as (h & s2 & H2 & Hrun). unfold lift in H2. simplify_eq. apply guarded_Ok in Hrun.
  apply tx_bind_Ok in Hrun as (wd & s3 & H3 & Hrun). injection H3 as <- <-. cbn [working] in Hrun.
  destruct (db_rules d !! w) as [wr|] eqn:Hw; [|by apply rollback_false in Hrun].
  destruct (Z.eqb_spec (ru_group_id wr) (rl_group_id lease)) as [Hwg|]; [|by apply rollback_false in Hrun]. cbn [negb] in Hrun.
  apply tx_bind_Ok in Hrun as ([g'|] & s4 & H4 & Hrun); [|by apply rollback_false in Hrun].
  apply claim_group_run in H4 as (g & Hg & Hc & -> & ->). cbn [working durable] in *.
  apply tx_bind_Ok in Hrun as ([] & s5 & H5 & Hrun). destruct (rule_audit_run a b c "rule_group.terminal" "rule_group" (rl_group_id lease)
    (rule_state_value st) (mkSession d (set_db_groups (<[rl_group_id lease:=end_group st (Some w) now g]> (db_groups d)) d))) as [e1 E1].
  rewrite E1 in H5. injection H5 as <-. apply update_one_rule_true in Hrun as [Hok [id Hid]]. cbn [working durable log] in *.
  apply tx_bind_Ok in Hok as ([] & s6 & [= <-] & Hok).
  apply tx_bind_Ok in Hok as (cids & s7 & H7 & Hok).
  match type of H7 with cancel_rules ?p ?x ?y ?z ?s0 = _ => destruct (cancel_rules_run p x y z s0) as [e2 E2] end.
  rewrite E2 in H7. injection H7 as _ <-. apply tx_bind_Ok in Hok as ([] & s8 & H8 & [= <-]).
  exists g, wr, h, id. split_and!; try done. { by apply dec_stable. }
  cbv zeta. destruct (ru_plan_id wr) as [plan_id|]; [|injection H8 as <-; by cbn].
  destruct (bool_decide (st = RS_TRIGGERED) && _); [|injection H8 as <-; by cbn].
  match type of H8 with end_plan ?l ?p ?n ?x ?y ?z ?s0 = _ =>
    destruct (end_plan_run l p n x y z s0) as (s9 & orders & E9 & F1 & F2 & F3 & F4) end.
  rewrite E9 in H8. injection H8 as <-. cbn in F1, F2, F4. split_and!; [exact F1|exact F2|].
  intros oid o p gid Ho Hp Hs Hpg. rewrite F3 in Ho. by eapply F4.
Qed.

Lemma opt_hwm_fields hwm r :
  ru_id (opt_hwm hwm r) = ru_id r ∧ ru_group_id (opt_hwm hwm r) = ru_group_id r ∧ ru_plan_id (opt_hwm hwm r) = ru_plan_id r
  ∧ ru_state (opt_hwm hwm r) = ru_state r.
Proof. by destruct hwm. Qed.

Lemma win_rule_fields lease w st hwm r :
  ru_id (win_rule lease w st hwm r) = ru_id r ∧ ru_group_id (win_rule lease w st hwm r) = ru_group_id r
  ∧ ru_plan_id (win_rule lease w st hwm r) = ru_plan_id r.
Proof. unfold win_rule. destruct (_ && _); [|done]. destruct (opt_hwm_fields hwm (set_ru_state (rule_state_value st) r)) as (-> & -> & -> & _). done. Qed.

Lemma terminal_not_live st r :
  st ∈ [RS_TRIGGERED; RS_CANCELED; RS_FAILED] → ru_state r = rule_state_value st → live_rule r = false.
Proof.
  intros Hst Hr. unfold live_rule. rewrite Hr.
  repeat (apply elem_of_cons in Hst as [->|Hst]; [done|]). by apply elem_of_nil in Hst.
Qed.

(** The rule table after the winner and the siblings: same identities, and nothing of the
    group left live. *)
Definition after_win (lease : RuleGroupLease) (w : Z) (st : RuleState) (hwm : option Decimal) (r : Rule) : Rule :=
  cancel_rule (λ r, (ru_group_id r =? rl_group_id lease) && negb (ru_id r =? w)) (win_rule lease w st hwm r).

Lemma after_win_fields lease w st hwm r :
  ru_id (after_win lease w st hwm r) = ru_id r ∧ ru_group_id (after_win lease w st hwm r) = ru_group_id r
  ∧ ru_plan_id (after_win lease w st hwm r) = ru_plan_id r.
Proof.
  unfold after_win. destruct (cancel_rule_settles (λ r, (ru_group_id r =? rl_group_id lease) && negb (ru_id r =? w)) (win_rule lease w st hwm r))
    as [(-> & -> & -> & _) _]. apply win_rule_fields.
Qed.

Lemma after_win_dead lease w st hwm r :
  st ∈ [RS_TRIGGERED; RS_CANCELED; RS_FAILED] → ru_group_id r = rl_group_id lease →
  (ru_id r = w → in_states [RS_ACTIVE; RS_PROCESSING] (ru_state r) = true) →
  live_rule (after_win lease w st hwm r) = false.
Proof.
  intros Hst Hg Hw. unfold after_win. destruct (win_rule_fields lease w st hwm r) as (Hid & Hgr & _).
  destruct (Z.eqb_spec (ru_id r) w) as [E|E].
  - unfold cancel_rule. rewrite Hid, Hgr, E, !Z.eqb_refl, Hg, Z.eqb_refl. cbn [negb andb].
    apply (terminal_not_live st); [done|]. unfold win_rule. rewrite E, Z.eqb_refl, Hg, Z.eqb_refl, (Hw E). cbn [andb].
    by rewrite (proj2 (proj2 (proj2 (opt_hwm_fields hwm _)))).
  - apply cancel_rule_settles. rewrite Hid, Hgr, Hg, Z.eqb_refl. by rewrite (proj2 (Z.eqb_neq _ _)) by done.
Qed.

Lemma plan_group_fmap (f : Rule → Rule) plan_id d gid :
  (∀ r, ru_plan_id (f r) = ru_plan_id r ∧ ru_group_id (f r) = ru_group_id r) →
  plan_group plan_id d gid → plan_group plan_id (set_db_rules (f <$> db_rules d) d) gid.
Proof.
  intros Hf (id & r & Hr & Hp & Hg). exists id, (f r). cbn. rewrite lookup_fmap, Hr. destruct (Hf r) as [-> ->]. done.
Qed.

Lemma after_win_winner lease w st hwm r :
  ru_id r = w → ru_group_id r = rl_group_id lease → in_states [RS_ACTIVE; RS_PROCESSING] (ru_state r) = true →
  ru_state (after_win lease w st hwm r) = rule_state_value st.
Proof.
  intros Hid Hg Hst. unfold after_win, cancel_rule. destruct (win_rule_fields lease w st hwm r) as (-> & -> & _).
  rewrite Hid, Hg, !Z.eqb_refl. cbn [negb andb]. unfold win_rule. rewrite Hid, Hg, !Z.eqb_refl, Hst. cbn [andb].
  by rewrite (proj2 (proj2 (proj2 (opt_hwm_fields hwm _)))).
Qed.

Lemma cancel_group_other ids now gid g :
  g_id g = gid → gid ∉ ids → cancel_group ids now g = g.
Proof. intros <- Hn. unfold cancel_group. by rewrite bool_decide_false. Qed.

Lemma cancel_group_dead ids now g :
  g_id g ∈ ids → in_states [RS_PENDING; RS_ACTIVE] (g_state (cancel_group ids now g)) = false.
Proof.
  intros Hin. unfold cancel_group. rewrite bool_decide_true by done. destruct (in_states _ (g_state g)) eqn:E; [done|exact E].
Qed.

Lemma cancel_rule_dead pred r : live_rule r = false → cancel_rule pred r = r.
Proof. intros Hl. unfold cancel_rule. by rewrite Hl, andb_false_r. Qed.

(** The claim was current and [W] is what it does to the rules before the plan is ended. *)
Record winning (lease : RuleGroupLease) (w : Z) (st : RuleState) (d : Db) (g : RuleGroup) (wr : Rule) (W : Rule → Rule) : Prop := {
  wn_group : db_groups d !! rl_group_id lease = Some g;
  wn_current : claim_current lease g = true;
  wn_rule : db_rules d !! w = Some wr;
  wn_member : ru_group_id wr = rl_group_id lease;
  wn_live : in_states [RS_ACTIVE; RS_PROCESSING] (ru_state wr) = true;
  wn_state : ru_state (W wr) = rule_state_value st;
  wn_dead : ∀ i x, db_rules d !! i = Some x → ru_group_id x = rl_group_id lease → live_rule (W x) = false;
  wn_fields : ∀ x, ru_plan_id (W x) = ru_plan_id x ∧ ru_group_id (W x) = ru_group_id x;
}.

Lemma winning_intro lease w st hwm d g wr id :
  keyed d → st ∈ [RS_TRIGGERED; RS_CANCELED; RS_FAILED] →
  db_groups d !! rl_group_id lease = Some g → claim_current lease g = true → db_rules d !! w = Some wr →
  ru_group_id wr = rl_group_id lease →
  matching_ids (λ r, (ru_id r =? w) && (ru_group_id r =? rl_group_id lease)
                     && in_states [RS_ACTIVE; RS_PROCESSING] (ru_state r)) (db_rules d) = [id] →
  winning lease w st d g wr (after_win lease w st hwm).
Proof.
  intros [Hkr _] Hst Hg Hc Hw Hwg Hid. apply one_rule_matched in Hid as (r0 & Hr0 & Hp).
  rewrite !andb_true_iff, !Z.eqb_eq in Hp. destruct Hp as ((Hw0 & _) & Hlive).
  assert (id = w) as -> by (by rewrite <- Hw0; symmetry; apply Hkr). rewrite Hw in Hr0. injection Hr0 as <-.
  split; try done.
  - by apply after_win_winner.
  - intros i x Hx Hgx. apply after_win_dead; [done|done|]. intros Hix. rewrite (Hkr i x Hx) in Hix. subst i. by simplify_eq.
  - intros x. destruct (after_win_fields lease w st hwm x) as (_ & ? & ?). done.
Qed.

Lemma settled_group_only lease w now st d d' g wr W :
  winning lease w st d g wr W →
  db_groups d' = <[rl_group_id lease := end_group st (Some w) now g]> (db_groups d) → db_rules d' = W <$> db_rules d →
  ¬ (∃ plan_id, ru_plan_id wr = Some plan_id ∧ ru_kind wr ∈ EXIT_KINDS ∧ st = RS_TRIGGERED) →
  settled_by lease w now st d d'.
Proof.
  intros [Hg Hc Hw Hwg Hl Hs Hd Hf] Eg Er Hno. split.
  - exists g. by rewrite Eg, lookup_insert_eq.
  - exists wr, (W wr). by rewrite Er, lookup_fmap, Hw.
  - rewrite Er. intros i x'. rewrite lookup_fmap. destruct (db_rules d !! i) as [x|] eqn:Hx; [|done]. cbn. intros [= <-].
    destruct (Hf x) as [_ ->]. by eapply Hd.
  - intros x plan_id gid Hx Hp Hk Ht _. simplify_eq. destruct Hno. by exists plan_id.
Qed.

Lemma settled_plan lease w now st d d' g wr W plan_id :
  keyed d → winning lease w st d g wr W → ru_plan_id wr = Some plan_id → st = RS_TRIGGERED →
  let d1 := set_db_rules (W <$> db_rules d) d in
  let others := filter (λ g, g ≠ rl_group_id lease) (plan_group_ids plan_id d1) in
  db_groups d' = cancel_group others now <$> <[rl_group_id lease := end_group st (Some w) now g]> (db_groups d) →
  db_rules d' = cancel_rule (λ r, bool_decide (ru_group_id r ∈ others)) <$> (W <$> db_rules d) →
  (∀ id o p gid, db_orders d' !! id = Some o → db_proposals d !! id = Some p → p_source_rule_group_id p = Some gid →
     plan_group plan_id d1 gid → o_status o ≠ order_status_value PROPOSED) →
  settled_by lease w now st d d'.
Proof.
  intros [_ Hkg] [Hg Hc Hw Hwg Hl Hs Hd Hf] Hplan Ht d1 others Eg Er Hord.
  assert (∀ gid, plan_group plan_id d gid → plan_group plan_id d1 gid) as Hd1 by (intros gid; by apply plan_group_fmap).
  assert (∀ gid, plan_group plan_id d gid → gid = rl_group_id lease ∨ gid ∈ others) as Hothers.
  { intros gid Hpg. destruct (decide (gid = rl_group_id lease)); [by left|right]. apply list_elem_of_filter. split; [done|].
    by apply plan_group_ids_elem, Hd1. }
  assert (rl_group_id lease ∉ others) as Hself by (by intros [? _]%list_elem_of_filter).
  assert (∀ i x', db_rules d' !! i = Some x' → ∃ x, db_rules d !! i = Some x ∧ ru_group_id x = ru_group_id x'
            ∧ (live_rule (W x) = false → live_rule x' = false) ∧ (ru_group_id x ∈ others → live_rule x' = false)) as Hrules.
  { intros i x' Hx'. rewrite Er, lookup_fmap, lookup_fmap in Hx'. destruct (db_rules d !! i) as [x|] eqn:Hx; [|done].
    injection Hx' as <-. exists x. destruct (cancel_rule_settles (λ r, bool_decide (ru_group_id r ∈ others)) (W x)) as [(_ & -> & _ & H1) H2].
    destruct (Hf x) as [_ ->]. split_and!; try done. intros Hin. apply H2. apply bool_decide_eq_true. destruct (Hf x) as [_ E]. by rewrite E. }
  split.
  - exists g. split_and!; try done. rewrite Eg, lookup_fmap, lookup_insert_eq. cbn. f_equal.
    apply (cancel_group_other _ _ (rl_group_id lease)); [|done]. exact (Hkg _ _ Hg).
  - exists wr, (W wr). split_and!; try done. rewrite Er, lookup_fmap, lookup_fmap, Hw. cbn. f_equal. apply cancel_rule_dead. by apply (Hd w).
  - intros i x' Hx' Hgx. destruct (Hrules i x' Hx') as (x & Hx & Ex & H1 & _). apply H1, (Hd i); congruence.
  - intros x plan_id' gid Hx Hp _ _ Hpg. simplify_eq. split_and!.
    + intros i x' Hx' Hgx. destruct (Hrules i x' Hx') as (x0 & Hx0 & Ex & H1 & H2).
      destruct (Hothers _ Hpg) as [E|Hin]; [apply H1, (Hd i); congruence|apply H2; congruence].
    + intros g' Hg'. rewrite Eg, lookup_fmap in Hg'. destruct (decide (gid = rl_group_id lease)) as [->|Hne].
      * rewrite lookup_insert_eq in Hg'. injection Hg' as <-. rewrite (cancel_group_other _ _ (rl_group_id lease)); [done|exact (Hkg _ _ Hg)|done].
      * destruct (Hothers _ Hpg) as [?|Hin]; [done|]. rewrite lookup_insert_ne in Hg' by done.
        destruct (db_groups d !! gid) as [g0|] eqn:Hg0; [|done]. injection Hg' as <-. apply cancel_group_dead. by rewrite (Hkg gid g0 Hg0).
    + intros oid o p Ho Hpr Hsrc. eapply Hord; [done|done|done|]. by apply Hd1.
Qed.

(** Claim C30.  One exit wins.  When a terminal claim returns [True] the group is terminal
    with that rule as its winner and its lease gone, the winner is in the claimed state, no other rule of
    the group is live, and a triggered exit of a plan also leaves no live rule, no active group and no
    proposed order anywhere in the plan.  A claim that does not return [True] changes nothing. *)
Theorem terminal_claim_settles lease w now st hwm actor reason request_id d r d' :
  keyed d → claim_terminal validate_hwm lease w now st hwm actor reason request_id d = (r, d') →
  (r = Ok true ∧ settled_by lease w now st d d') ∨ (r ≠ Ok true ∧ d' = d).
Proof.
  intros Hkey Hrun. apply own_session_spec in Hrun as [(-> & s' & Hs & ->)|?]; [left; split; [done|]|by right|apply keeps_claim_terminal].
  apply claim_terminal_run in Hs as (g & wr & h & id & Hst & Hg & Hc & Hw & Hwg & Hid & Hpost). cbv zeta in Hpost.
  pose proof (winning_intro lease w st h d g wr id Hkey Hst Hg Hc Hw Hwg Hid) as Hwin.
  rewrite <- map_fmap_compose in Hpost. change (_ ∘ win_rule lease w st h) with (after_win lease w st h) in Hpost.
  destruct (ru_plan_id wr) as [plan_id|] eqn:Hplan;
    [|destruct Hpost; eapply settled_group_only; [done..|by intros (? & E & _); rewrite Hplan in E]].
  destruct (bool_decide_reflect (st = RS_TRIGGERED)) as [Ht|Ht];
    [|destruct Hpost; eapply settled_group_only; [done..|by intros (? & _ & _ & ?)]].
  destruct (bool_decide_reflect (ru_kind wr ∈ EXIT_KINDS)) as [Hk|Hk];
    [|destruct Hpost; eapply settled_group_only; [done..|by intros (? & _ & ? & _)]].
  destruct Hpost as (Eg & Er & Hord). by eapply settled_plan.
Qed.

(** ** Leases *)

(** A group that a worker may lease. *)
Definition leasable (now : time) (g : RuleGroup) : bool :=
  bool_decide (g_state g = rule_state_value RS_ACTIVE) && negb (g_reconciliation_required g)
  && match g_lease_expires_at g with None => true | Some e => e <=? now end.

Lemma rollback_none {A} s : (rollback ≫= λ _, mret (None (A := A))) s = (Ok None, mkSession (durable s) (durable s)).
Proof. reflexivity. Qed.

(** Who gets a lease.  For a group whose stored times are not in the caller's
    future: while an order of the group is in flight or of unknown acceptance, the request is refused
    and the group is left latched for reconciliation; otherwise it is granted exactly when the group is active,
    not latched and not held, and then the row carries the lease under the next version.  Nothing else
    in the tables changes. *)
Theorem lease_group_spec owner gid now ttl actor reason request_id d g c :
  rule_context actor reason request_id = Ok c → 0 < ttl → db_groups d !! gid = Some g →
  g_created_at g ≤ now → g_updated_at g ≤ now →
  let '(r, d') := lease_group owner gid now ttl actor reason request_id d in
  db_rules d' = db_rules d ∧ db_orders d' = db_orders d ∧ (∀ k, k ≠ gid → db_groups d' !! k = db_groups d !! k)
  ∧ if group_has_order gid order_unresolved d
    then r = Ok None ∧ ∃ g', db_groups d' !! gid = Some g' ∧ g_reconciliation_required g' = true ∧ g_version g' = g_version g
    else if leasable now g
    then let lease := mkGroupLease gid owner (now + ttl) (g_version g + 1) in
         r = Ok (Some lease) ∧ db_groups d' !! gid = Some (take_lease owner (now + ttl) now g)
         ∧ claim_current lease (take_lease owner (now + ttl) now g) = true
    else r = Ok None ∧ db_groups d' !! gid = Some g.
Proof.
  intros Hc Httl Hg Hcr Hup. unfold lease_group. rewrite Hc. destruct c as [[a b] q].
  rewrite (proj2 (Z.leb_gt ttl 0)) by lia. cbv zeta. unfold with_session. unfold mbind at 1, tx_bind at 1, read at 1. cbn [working].
  rewrite Hg, (proj2 (Z.ltb_ge _ _) Hcr), (proj2 (Z.ltb_ge _ _) Hup). cbn [orb].
  unfold mbind at 1, tx_bind at 1. rewrite update_group_run. cbn [working]. rewrite Hg, (proj2 (Z.leb_le _ _) Hcr), (proj2 (Z.leb_le _ _) Hup). cbn [andb].
  destruct (group_has_order gid order_unresolved d) eqn:Ho; destruct (g_reconciliation_required g) eqn:Hq; cbn [negb andb].
  - unfold mbind at 1, tx_bind at 1, mret, tx_ret. unfold mbind at 1, tx_bind at 1. rewrite update_group_run. cbn [working]. rewrite Hg, Hq. cbn [negb].
    rewrite !andb_false_r. cbn. split_and!; try done. exists g. done.
  - unfold mbind at 1, tx_bind at 1.
    match goal with |- context [rule_audit ?x ?y ?z ?w ?t ?k ?m ?s0] => destruct (rule_audit_run x y z w t k m s0) as [e ->] end.
    unfold mbind at 1, tx_bind at 1. rewrite update_group_run. cbn [working durable log db_groups set_db_groups set_db_audit]. rewrite lookup_insert_eq.
    cbn [g_reconciliation_required set_g_updated_at set_g_reconciliation_required negb]. rewrite !andb_false_r. cbn.
    split_and!; [done|done| |done|].
    + intros k Hk. cbn. by rewrite lookup_insert_ne.
    + eexists. split; [cbn; apply lookup_insert_eq|done].
  - unfold mbind at 1, tx_bind at 1, mret, tx_ret. unfold mbind at 1, tx_bind at 1. rewrite update_group_run. cbn [working]. rewrite Hg, Hq. cbn [negb].
    unfold leasable. rewrite Hq. rewrite !andb_false_r. cbn. split_and!; try done.
  - unfold mbind at 1, tx_bind at 1, mret, tx_ret. unfold mbind at 1, tx_bind at 1. rewrite update_group_run. cbn [working]. rewrite Hg, Hq, (proj2 (Z.leb_le _ _) Hcr), (proj2 (Z.leb_le _ _) Hup). cbn [andb negb].
    unfold leasable. rewrite Hq. cbn [negb]. rewrite andb_true_r. destruct (_ && _) eqn:Hl; [|cbn; split_and!; done].
    split_and!; [done|done| |done| |].
    { intros k Hk. cbn. by rewrite lookup_insert_ne. } { cbn. apply lookup_insert_eq. }
    unfold claim_current, lease_current. cbn. rewrite Hq, Z.eqb_refl, (bool_decide_true (Some owner = Some owner)) by done.
    apply andb_true_iff in Hl as [Hl _]. apply bool_decide_eq_true in Hl. rewrite Hl. done.
Qed.

(** ** A lease is single use *)

(** Group rows are never deleted and their versions never go back. *)
Definition grows (d d' : Db) : Prop :=
  ∀ k g, db_groups d !! k = Some g → ∃ g', db_groups d' !! k = Some g' ∧ g_version g ≤ g_version g'.

#[export] Instance grows_preorder : PreOrder grows.
Proof.
  split; [intros d k g Hg; exists g; split; [done|lia]|].
  intros d1 d2 d3 H1 H2 k g Hg. destruct (H1 k g Hg) as (g1 & Hg1 & ?). destruct (H2 k g1 Hg1) as (g2 & ? & ?). exists g2. split; [done|lia].
Qed.

(** Every method of the order repository is such a step. *)
Lemma evolves_grows d d' : evolves d d' → grows d d'.
Proof.
  intros He k g Hg. pose proof (ev_groups _ _ He k) as Hk. rewrite Hg in Hk. destruct (db_groups d' !! k) as [g'|]; [|done].
  exists g'. destruct Hk as (_ & -> & _). split; [done|lia].
Qed.

Lemma grows_insert d d' k g g' :
  db_groups d !! k = Some g → g_version g ≤ g_version g' → db_groups d' = <[k := g']> (db_groups d) → grows d d'.
Proof.
  intros Hg Hv E j x Hx. rewrite E. destruct (decide (j = k)) as [->|Hne].
  - rewrite Hg in Hx. injection Hx as <-. exists g'. by rewrite lookup_insert_eq.
  - rewrite lookup_insert_ne by done. exists x. split; [done|lia].
Qed.

Lemma cancel_group_version ids now g : g_version g ≤ g_version (cancel_group ids now g).
Proof. unfold cancel_group. destruct (_ && _); cbn; lia. Qed.

(** What the holder of a lease can do with it. *)
Inductive lease_use : Type :=
| URelease (now : time) (high_water_marks : list (Z * Decimal))
| UProposal (rule_id : Z) (now : time) (hwm : option Decimal)
| UTerminal (winning_rule_id : Z) (now : time) (terminal_state : RuleState) (hwm : option Decimal)
| UProgress (winning_rule_id : Z) (now : time) (rule_state : RuleState) (hwm : option Decimal).

Definition use_lease (lease : RuleGroupLease) (u : lease_use) (actor reason request_id : string) : Db → outcome bool * Db :=
  match u with
  | URelease now marks => release_group validate_hwm lease now marks actor reason request_id
  | UProposal rule_id now hwm => claim_proposal validate_hwm lease rule_id now hwm actor reason request_id
  | UTerminal w now st hwm => claim_terminal validate_hwm lease w now st hwm actor reason request_id
  | UProgress w now st hwm => claim_progress validate_hwm lease w now st hwm actor reason request_id
  end.

Lemma store_hwm_run lease actor reason request_id x s :
  ∃ s', store_hwm lease actor reason request_id x s = (Ok (), s') ∧ db_groups (working s') = db_groups (working s).
Proof.
  destruct x as [rule_id hwm]. unfold store_hwm. unfold mbind, tx_bind. rewrite update_rules_run.
  destruct (matching_ids _ _); [by eexists|].
  match goal with |- context [rule_audit ?x ?y ?z ?w ?t ?k ?m ?s0] => destruct (rule_audit_run x y z w t k m s0) as [e ->] end. by eexists.
Qed.

Lemma store_marks_run lease actor reason request_id marks : ∀ s,
  ∃ s', tx_iter (store_hwm lease actor reason request_id) marks s = (Ok (), s') ∧ db_groups (working s') = db_groups (working s).
Proof.
  induction marks as [|x marks IH]; intros s; [by eexists|]. cbn [tx_iter]. unfold mbind at 1, tx_bind.
  destruct (store_hwm_run lease actor reason request_id x s) as (s1 & -> & E1). destruct (IH s1) as (s2 & -> & E2).
  exists s2. split; [done|congruence].
Qed.

(** The lease was current, and its version is gone. *)
Definition spends (lease : RuleGroupLease) (d d' : Db) : Prop :=
  ∃ g g', db_groups d !! rl_group_id lease = Some g ∧ lease_current lease g = true
    ∧ db_groups d' !! rl_group_id lease = Some g' ∧ g_version g' = g_version g + 1 ∧ grows d d'.

Lemma spends_insert lease f d d' g :
  db_groups d !! rl_group_id lease = Some g → lease_current lease g = true → g_version (f g) = g_version g + 1 →
  db_groups d' = <[rl_group_id lease := f g]> (db_groups d) → spends lease d d'.
Proof.
  intros Hg Hc Hv E. exists g, (f g). split_and!; [done|done|by rewrite E, lookup_insert_eq|done|].
  eapply grows_insert; [done| |done]. lia.
Qed.

Lemma claim_lease_current lease g : claim_current lease g = true → lease_current lease g = true.
Proof. by intros [? _]%andb_true_iff. Qed.

Lemma release_group_spec lease now marks actor reason request_id d r d' :
  release_group validate_hwm lease now marks actor reason request_id d = (r, d') →
  (r = Ok true ∧ spends lease d d') ∨ (r ≠ Ok true ∧ d' = d).
Proof.
  unfold release_group. destruct (rule_context _ _ _) as [[[a b] c]|e]; [|intros [= <- <-]; by right].
  destruct (outcome_mapM _ _) as [ms|e]; [|intros [= <- <-]; by right].
  unfold with_session. unfold mbind at 1, tx_bind at 1. rewrite update_group_run. cbn [working durable].
  destruct (db_groups d !! rl_group_id lease) as [g|] eqn:Hg; [|intros [= <- <-]; by right].
  destruct (lease_current lease g) eqn:Hc; [|intros [= <- <-]; by right].
  unfold mbind at 1, tx_bind at 1.
  match goal with |- context [rule_audit ?x ?y ?z ?w ?t ?k ?m ?s0] => destruct (rule_audit_run x y z w t k m s0) as [e ->] end.
  unfold mbind at 1, tx_bind at 1.
  match goal with |- context [tx_iter ?f ?l ?s0] => destruct (store_marks_run lease a b c l s0) as (s1 & -> & E1) end.
  intros [= <- <-]. left. split; [done|]. by eapply (spends_insert lease (free_lease now)).
Qed.

Lemma terminal_spends lease w now st hwm actor reason request_id d s' :
  claim_terminal_in validate_hwm lease w now st hwm actor reason request_id (mkSession d d) = (Ok true, s') →
  spends lease d (working s').
Proof.
  intros (g & wr & h & id & Hst & Hg & Hc%claim_lease_current & _ & _ & _ & Hpost)%claim_terminal_run. cbv zeta in Hpost.
  set (f := end_group st (Some w) now) in *.
  assert (db_groups (working s') = <[rl_group_id lease := f g]> (db_groups d) → spends lease d (working s')) as Hsimple
    by (intros E; by eapply (spends_insert lease f)).
  destruct (ru_plan_id wr) as [plan_id|]; [|by apply Hsimple, Hpost]. destruct (_ && _); [|by apply Hsimple, Hpost].
  destruct Hpost as (E & _). exists g, (f g). split_and!; [done|done| |done|].
  - rewrite E, lookup_fmap, lookup_insert_eq. cbn. f_equal. unfold cancel_group. replace (in_states _ _) with false; [by rewrite andb_false_r|].
    unfold f. cbn. repeat (apply elem_of_cons in Hst as [->|Hst]; [done|]). by apply elem_of_nil in Hst.
  - intros k x Hx. destruct (grows_insert d (set_db_groups (<[rl_group_id lease := f g]> (db_groups d)) d) _ g (f g) Hg ltac:(cbn; lia) eq_refl k x Hx)
      as (y & Hy & Hv). cbn in Hy. exists (cancel_group (filter (λ g, g ≠ rl_group_id lease) (plan_group_ids plan_id (set_db_rules
      (cancel_rule (λ r, (ru_group_id r =? rl_group_id lease) && negb (ru_id r =? w)) <$> (win_rule lease w st h <$> db_rules d)) d))) now y).
    rewrite E, lookup_fmap, Hy. split; [done|]. etrans; [done|apply cancel_group_version].
Qed.

(** Every use of a lease is a compare-and-swap. *)
Lemma use_spec lease u actor reason request_id d r d' :
  use_lease lease u actor reason request_id d = (r, d') →
  (r = Ok true ∧ spends lease d d') ∨ (r ≠ Ok true ∧ d' = d).
Proof.
  destruct u; cbn [use_lease].
  - apply release_group_spec.
  - intros [(-> & s' & Hs & ->)|?]%own_session_spec; [left; split; [done|]|by right|apply keeps_claim_proposal].
    apply claim_proposal_true in Hs as (g & Hg & Hc%claim_lease_current & _ & E & _). by eapply (spends_insert lease (free_lease now)).
  - intros [(-> & s' & Hs & ->)|?]%own_session_spec; [left; split; [done|]|by right|apply keeps_claim_terminal]. by eapply terminal_spends.
  - intros [(-> & s' & Hs & ->)|?]%own_session_spec; [left; split; [done|]|by right|apply keeps_claim_progress].
    apply claim_progress_true in Hs as (g & Hg & Hc%claim_lease_current & E & _). by eapply (spends_insert lease (free_lease now)).
Qed.

(** The effect of a lease request on the group table. *)
Lemma lease_group_run owner gid now ttl actor reason request_id d r d' :
  lease_group owner gid now ttl actor reason request_id d = (r, d') →
  (d' = d ∧ ∀ l, r ≠ Ok (Some l))
  ∨ ∃ g g', db_groups d !! gid = Some g ∧ db_groups d' = <[gid := g']> (db_groups d)
      ∧ match r with
        | Ok (Some l) => l = mkGroupLease gid owner (now + ttl) (g_version g') ∧ g_version g' = g_version g + 1
        | _ => g_version g' = g_version g
        end.
Proof.
  unfold lease_group. destruct (rule_context _ _ _) as [[[a b] q]|e]; [|intros [= <- <-]; by left].
  destruct (ttl <=? 0); [intros [= <- <-]; by left|]. cbv zeta. unfold with_session. unfold mbind at 1, tx_bind at 1, read at 1. cbn [working].
  destruct (db_groups d !! gid) as [g|] eqn:Hg; [|intros [= <- <-]; by left]. destruct (_ || _); [intros [= <- <-]; by left|].
  unfold mbind at 1, tx_bind at 1. rewrite update_group_run. cbn [working]. rewrite Hg. destruct (_ && group_has_order _ _ _).
  - unfold mbind at 1, tx_bind at 1.
    match goal with |- context [rule_audit ?x ?y ?z ?w ?t ?k ?m ?s0] => destruct (rule_audit_run x y z w t k m s0) as [e ->] end.
    unfold mbind at 1, tx_bind at 1. rewrite update_group_run. cbn [working durable log db_groups set_db_groups set_db_audit]. rewrite lookup_insert_eq.
    cbn [g_reconciliation_required set_g_updated_at set_g_reconciliation_required negb]. rewrite !andb_false_r.
    intros [= <- <-]. right. exists g. eexists. split_and!; [done|reflexivity|done].
  - unfold mbind at 1, tx_bind at 1, mret, tx_ret. unfold mbind at 1, tx_bind at 1. rewrite update_group_run. cbn [working]. rewrite Hg.
    destruct (_ && _); intros [= <- <-]; [right|by left]. exists g. eexists. split_and!; [done|reflexivity|done|done].
Qed.

(** Steps of the system: rule workers, and anything else that lets the group table grow. *)
Inductive rule_step : Db → Db → Prop :=
| step_lease owner gid now ttl actor reason request_id d :
    rule_step d (lease_group owner gid now ttl actor reason request_id d).2
| step_use lease u actor reason request_id d : rule_step d (use_lease lease u actor reason request_id d).2
| step_other d d' : grows d d' → rule_step d d'.

Lemma lease_group_grows owner gid now ttl actor reason request_id d r d' :
  lease_group owner gid now ttl actor reason request_id d = (r, d') → grows d d'.
Proof.
  intros [[-> _]|(g & g' & Hg & E & Hv)]%lease_group_run; [done|]. eapply grows_insert; [done| |done].
  destruct r as [[l|]|e]; lia.
Qed.

Lemma rule_step_grows d d' : rule_step d d' → grows d d'.
Proof.
  intros [owner gid now ttl actor reason request_id d0|lease u actor reason request_id d0|d0 d1 Hg]; [| |done].
  - by eapply lease_group_grows, surjective_pairing.
  - destruct (use_lease lease u actor reason request_id d0) as [r d1] eqn:E.
    apply use_spec in E as [(_ & (_ & _ & _ & _ & _ & _ & ?))|[_ ->]]; done.
Qed.

Lemma rule_steps_grow d d' : rtc rule_step d d' → grows d d'.
Proof. induction 1 as [|d1 d2 d3 H12 _ IH]; [done|]. etrans; [by apply rule_step_grows|done]. Qed.

(** What ends a lease: a successful use, or a later lease of the same group. *)
Inductive ends_lease (lease : RuleGroupLease) : Db → Db → Prop :=
| ends_used u actor reason request_id d d' :
    use_lease lease u actor reason request_id d = (Ok true, d') → ends_lease lease d d'
| ends_taken owner now ttl actor reason request_id d l d' g :
    db_groups d !! rl_group_id lease = Some g → rl_version lease ≤ g_version g →
    lease_group owner (rl_group_id lease) now ttl actor reason request_id d = (Ok (Some l), d') → ends_lease lease d d'.

Definition outlived (lease : RuleGroupLease) (d : Db) : Prop :=
  ∃ g, db_groups d !! rl_group_id lease = Some g ∧ rl_version lease < g_version g.

Lemma ends_outlived lease d d' : ends_lease lease d d' → outlived lease d'.
Proof.
  intros [u actor reason request_id d0 d1 Hu|owner now ttl actor reason request_id d0 l d1 g Hg Hv Hl].
  - apply use_spec in Hu as [(_ & g & g' & Hg & Hc & Hg' & Hv & _)|[? _]]; [|done]. exists g'. split; [done|].
    unfold lease_current in Hc. rewrite !andb_true_iff, Z.eqb_eq in Hc. lia.
  - apply lease_group_run in Hl as [[_ Hn]|(g0 & g' & Hg0 & E & _ & Hv')]; [by destruct (Hn l)|]. simplify_eq.
    exists g'. rewrite E, lookup_insert_eq. split; [done|lia].
Qed.

Lemma outlived_not_current lease d g : outlived lease d → db_groups d !! rl_group_id lease = Some g → lease_current lease g = false.
Proof.
  intros (g' & Hg' & Hv) Hg. simplify_eq. unfold lease_current. rewrite (proj2 (Z.eqb_neq _ _)) by lia. by rewrite andb_false_r.
Qed.

(** Claim C31.  A rule lease is single use and fenced.  Once a use of it succeeded, or another
    lease of its group was granted, then whatever rule workers and other writers do next, no release or
    claim with it succeeds or changes a row, and it reads no rules: the owner's stale copy is harmless. *)
Theorem lease_spent_once lease d d1 d2 u actor reason request_id :
  ends_lease lease d d1 → rtc rule_step d1 d2 →
  let '(r, d3) := use_lease lease u actor reason request_id d2 in
  r ≠ Ok true ∧ d3 = d2 ∧ load_rules lease d2 = [].
Proof.
  intros He%ends_outlived Hs%rule_steps_grow.
  assert (outlived lease d2) as Ho. { destruct He as (g & Hg & Hv). destruct (Hs _ _ Hg) as (g' & Hg' & ?). exists g'. split; [done|lia]. }
  destruct (use_lease lease u actor reason request_id d2) as [r d3] eqn:Hu.
  assert (load_rules lease d2 = []) as Hl.
  { unfold load_rules. destruct (db_groups d2 !! rl_group_id lease) as [g|] eqn:Hg; [|done]. unfold claim_current.
    by rewrite (outlived_not_current lease d2 g Ho Hg). }
  apply use_spec in Hu as [(_ & g & _ & Hg & Hc & _)|[? ->]]; [|done]. by rewrite (outlived_not_current lease d2 g Ho Hg) in Hc.
Qed.
End Proofs.

(** * Concrete runs *)

#[local] Instance rule_demo_digest : Digest := λ s, s.

Definition plan_rule (id gid : Z) (kind : RuleKind) : Rule :=
  mkRule id gid 1 "AAPL" "{}" "{}" "active" 100 (Some 7) (rule_kind_value kind) None None None false "immediate" true.
Definition plan_group_row (gid : Z) : RuleGroup := mkRuleGroup gid "group" "active" None None None 0 false 100 100.

(** A plan with a target and a stop in group 5 and an entry in group 6, whose order 1 is still
    proposed. *)
Definition plan_db (status : OrderStatus) : Db :=
  mkDb {[ 1 := mkOrder 1 "key-1" "AAPL" "buy" "market" (Some (Fin 5 0)) None None (order_status_value status)
                 None None EmptyString None "simple" "{}" 0 None "not_started" None EmptyString "none" 0 100 100 ]}
    {[ 1 := mkProposal 1 1 (Some 6) (Some 3) 0 "reasoning" 15 100 1000 ]}
    {[ 5 := plan_group_row 5; 6 := plan_group_row 6 ]}
    {[ 1 := plan_rule 1 5 TARGET; 2 := plan_rule 2 5 STOP; 3 := plan_rule 3 6 ENTRY ]} [] [] [] ∅ ∅ [] ∅ ∅ ∅ ∅.

Lemma plan_db_keyed status : keyed (plan_db status).
Proof.
  split; intros id r; cbn.
  - rewrite !lookup_insert_Some, lookup_singleton_Some. naive_solver.
  - rewrite lookup_insert_Some, lookup_singleton_Some. naive_solver.
Qed.

Definition demo_lease : RuleGroupLease := mkGroupLease 5 "worker-1" 260 1.

Definition leased_db : Db := (lease_group "worker-1" 5 200 60 "worker" "poll" "r1" (plan_db PROPOSED)).2.
Definition settled_db : Db := (claim_terminal Ok demo_lease 1 210 RS_TRIGGERED None "worker" "target hit" "r2" leased_db).2.

Lemma leased_db_keyed : keyed leased_db.
Proof.
  split; intros id r; unfold leased_db.
  - change (db_rules _) with (db_rules (plan_db PROPOSED)). apply plan_db_keyed.
  - intros Hr. assert (db_groups leased_db = <[5 := take_lease "worker-1" 260 200 (plan_group_row 5)]> (db_groups (plan_db PROPOSED))) as E
      by (vm_compute; reflexivity).
    unfold leased_db in E. rewrite E, lookup_insert_Some in Hr. destruct Hr as [[<- <-]|[_ Hr]]; [done|].
    by apply (plan_db_keyed PROPOSED).
Qed.

Lemma terminal_claim_settles_witness :
  claim_terminal Ok demo_lease 1 210 RS_TRIGGERED None "worker" "target hit" "r2" leased_db = (Ok true, settled_db)
  ∧ settled_by demo_lease 1 210 RS_TRIGGERED leased_db settled_db.
Proof.
  assert (claim_terminal Ok demo_lease 1 210 RS_TRIGGERED None "worker" "target hit" "r2" leased_db = (Ok true, settled_db)) as Hrun
    by (vm_compute; reflexivity).
  split; [exact Hrun|].
  destruct (terminal_claim_settles Ok demo_lease 1 210 RS_TRIGGERED None "worker" "target hit" "r2" leased_db (Ok true) settled_db
    leased_db_keyed Hrun) as [[_ Hs]|[Hn _]]; [exact Hs|destruct Hn; reflexivity].
Defined.

Lemma lease_group_spec_witness :
  (lease_group "worker-1" 5 200 60 "worker" "poll" "r1" (plan_db PROPOSED)).1 = Ok (Some demo_lease)
  ∧ ∃ g', db_groups (lease_group "worker-1" 6 200 60 "worker" "poll" "r1" (plan_db SUBMITTING)).2 !! 6 = Some g'
          ∧ g_reconciliation_required g' = true.
Proof.
  split.
  - pose proof (lease_group_spec "worker-1" 5 200 60 "worker" "poll" "r1" (plan_db PROPOSED) (plan_group_row 5)
      ("worker", "poll", "r1") eq_refl ltac:(lia) ltac:(reflexivity) ltac:(cbn; lia) ltac:(cbn; lia)) as Hl.
    destruct (lease_group _ _ _ _ _ _ _ _) as [r d']. destruct Hl as (_ & _ & _ & Hl). vm_compute in Hl. apply Hl.
  - pose proof (lease_group_spec "worker-1" 6 200 60 "worker" "poll" "r1" (plan_db SUBMITTING) (plan_group_row 6)
      ("worker", "poll", "r1") eq_refl ltac:(lia) ltac:(reflexivity) ltac:(cbn; lia) ltac:(cbn; lia)) as Hl.
    destruct (lease_group _ _ _ _ _ _ _ _) as [r d']. destruct Hl as (_ & _ & _ & Hl).
    replace (group_has_order _ _ _) with true in Hl by (vm_compute; reflexivity). destruct Hl as (_ & g' & Hg & Hq & _). exists g'. split; [exact Hg|exact Hq].
Defined.

(** The stop of the same group triggers a moment later, in the hands of the same worker. *)
Lemma lease_spent_once_witness :
  let '(r, d') := use_lease Ok demo_lease (UTerminal 2 211 RS_TRIGGERED None) "worker" "stop hit" "r3" settled_db in
  r ≠ Ok true ∧ d' = settled_db ∧ load_rules demo_lease settled_db = [].
Proof.
  apply (lease_spent_once Ok demo_lease leased_db settled_db settled_db); [|apply rtc_refl].
  apply (ends_used Ok demo_lease (UTerminal 1 210 RS_TRIGGERED None) "worker" "target hit" "r2"). vm_compute. reflexivity.
Defined.
