(* ===== verification/PlanTruth.v ===== *)
(** What trusted fills say about a plan: [_plan_execution_truth], the checks made before a plan
    exit is sent, and the cancellation of a plan ([rules/repository.py]). *)

From S2P Require Import Prelude PyDecimal BrokerModels Breakers Database Lifecycle BreakerStore SafetyState RuleRepository.
From Stdlib Require Import Ascii Lia.
Local Open Scope Z_scope.

Definition PLAN_CANCEL_REQUESTED : string := "requested".
Definition PLAN_CANCEL_INDETERMINATE : string := "indeterminate".

Definition LOCAL_CANCELABLE_ORDER_STATES : list string := map order_status_value [PROPOSED; APPROVAL_RECORDED].
Definition BROKER_CANCELABLE_ORDER_STATES : list string :=
  map order_status_value [APPROVED; SUBMITTING; ACCEPTANCE_UNKNOWN; SUBMITTED; PARTIALLY_FILLED].

Definition is_entry (r : Rule) : bool := bool_decide (ru_kind r = rule_kind_value ENTRY).
Definition is_exit (r : Rule) : bool := bool_decide (ru_kind r ∈ EXIT_KINDS).
Definition locally_cancelable (o : Order) : bool := bool_decide (o_status o ∈ LOCAL_CANCELABLE_ORDER_STATES).

Record PlanExecutionTruth : Type := mkTruth {
  entry_filled_qty : Decimal;
  exit_filled_qty : Decimal;
  residual_qty : Decimal;
  unresolved_order_ids : list Z;
  untrusted_fill_order_ids : list Z;
  reconciliation_required : bool;
}.

(** A row of [SELECT Proposal, Order, Rule] joined over the order and the source rule. *)
Record PlanRow : Type := mkPlanRow { pr_proposal : Proposal; pr_order : Order; pr_rule : Rule }.

(** All rows of the join, in order id order. *)
Definition joined_rows (d : Db) : list PlanRow :=
  omap (λ id, o ← db_orders d !! id; p ← db_proposals d !! id; rule_id ← p_source_rule_id p;
              r ← db_rules d !! rule_id; Some (mkPlanRow p o r))
    (select_ids (λ _, true) (db_orders d)).

Definition plan_rows (plan_id : Z) (d : Db) : list PlanRow :=
  filter (λ x, ru_plan_id (pr_rule x) = Some plan_id) (joined_rows d).

(** * Fill quantities *)

Definition fills_in (order_ids : list Z) (fills : list Fill) : list Fill :=
  filter (λ f, match fl_order_id f with Some id => bool_decide (id ∈ order_ids) | None => false end = true) fills.

Definition add_fill (acc : gmap Z Decimal) (f : Fill) : outcome (gmap Z Decimal) :=
  match fl_order_id f with
  | Some id =>
      if fill_has_trusted_identity f
      then q ← dadd (default dzero (acc !! id)) (fl_qty f); Ok (<[id := q]> acc)
      else Ok acc
  | None => Ok acc
  end.

Definition fill_qty_by_order (fills : list Fill) : outcome (gmap Z Decimal) := outcome_foldl add_fill ∅ fills.

(** The orders with a fill that has no trusted identity. *)
Definition untrusted_orders (fills : list Fill) : list Z :=
  sorted_ids (dedup (omap (λ f, if fill_has_trusted_identity f then None else fl_order_id f) fills)).

Definition add_row (qty_of : gmap Z Decimal) (acc : Decimal * Decimal) (x : PlanRow) : outcome (Decimal * Decimal) :=
  let '(entry, exit_) := acc in
  let qty := default dzero (qty_of !! o_id (pr_order x)) in
  if is_entry (pr_rule x) then e ← dadd entry qty; Ok (e, exit_)
  else if is_exit (pr_rule x) then e ← dadd exit_ qty; Ok (entry, e)
  else Ok acc.

Definition plan_execution_truth (plan_id : Z) (d : Db) : outcome PlanExecutionTruth :=
  let rows := plan_rows plan_id d in
  let fills := fills_in (map (λ x, o_id (pr_order x)) rows) (db_fills d) in
  qty_of ← fill_qty_by_order fills;
  let untrusted := untrusted_orders fills in
  totals ← outcome_foldl (add_row qty_of) (dzero, dzero) rows;
  let '(entry, exit_) := totals in
  let unresolved := map (λ x, o_id (pr_order x)) (filter (λ x, order_outstanding (pr_order x) = true) rows) in
  let latched := existsb (λ x, match db_groups d !! ru_group_id (pr_rule x) with
                               | Some g => g_reconciliation_required g
                               | None => false
                               end) rows in
  residual ← dsub entry exit_;
  Ok (mkTruth entry exit_ residual (sorted_ids (dedup (unresolved ++ untrusted))) untrusted
        (negb (bool_decide (untrusted = [])) || latched)).

Definition plan_allocation_is_exact (d : Db) (truth : PlanExecutionTruth) : outcome bool :=
  if reconciliation_required truth then Ok false
  else
    negative ← dlt (residual_qty truth) dzero;
    if negative : bool then Ok false
    else Ok (forallb (λ id, negb (bool_decide (id ∈ untrusted_fill_order_ids truth))
                            && match db_orders d !! id with
                               | Some o => locally_cancelable o
                                           && negb (bool_decide (o_acceptance_state o = FILL_RECONCILIATION_REQUIRED))
                               | None => false
                               end) (unresolved_order_ids truth)).

(** * Queries *)

Definition plan_order_ids (pred : PlanRow → bool) (d : Db) : list Z :=
  map (λ x, o_id (pr_order x)) (filter (λ x, pred x = true) (joined_rows d)).

Definition plan_cancellation_intent_order_ids (d : Db) : list Z :=
  plan_order_ids (λ x, bool_decide (ru_plan_id (pr_rule x) ≠ None)
                       && bool_decide (o_plan_cancel_state (pr_order x) ∈ [PLAN_CANCEL_REQUESTED; PLAN_CANCEL_INDETERMINATE])) d.

Definition plan_nonterminal_order_ids (plan_id : Z) (d : Db) : list Z :=
  plan_order_ids (λ x, bool_decide (ru_plan_id (pr_rule x) = Some plan_id) && order_outstanding (pr_order x)) d.

Definition plan_entry_nonterminal_order_ids (plan_id : Z) (d : Db) : list Z :=
  plan_order_ids (λ x, bool_decide (ru_plan_id (pr_rule x) = Some plan_id) && is_entry (pr_rule x)
                       && order_outstanding (pr_order x)) d.

Definition is_plan_exit_order (order_id : Z) (d : Db) : bool :=
  match (p ← db_proposals d !! order_id; rule_id ← p_source_rule_id p; db_rules d !! rule_id) with
  | Some r => bool_decide (ru_plan_id r ≠ None) && is_exit r
  | None => false
  end.

(** [plan_order_ids_requiring_broker_cancel]: live broker orders of plans an exit has filled. *)
Definition plan_totals (rows : list PlanRow) (qty_of : gmap Z Decimal) (plan_id : Z) : outcome (Decimal * Decimal) :=
  outcome_foldl (add_row qty_of) (dzero, dzero) (filter (λ x, ru_plan_id (pr_rule x) = Some plan_id) rows).

Definition requires_broker_cancel (d : Db) (rows : list PlanRow) (qty_of : gmap Z Decimal) (x : PlanRow) : outcome bool :=
  match ru_plan_id (pr_rule x) with
  | None => Ok false
  | Some plan_id =>
      totals ← plan_totals rows qty_of plan_id;
      match db_plans d !! plan_id with
      | None => Ok true
      | Some plan =>
          let '(entry, exit_) := totals in
          remaining ← dsub entry exit_;
          exited ← dgt exit_ dzero;
          if is_entry (pr_rule x) && exited then Ok true
          else
            flat ← (if exited : bool then dle remaining dzero else Ok false);
            if flat : bool then Ok true
            else Ok (is_exit (pr_rule x) && (p_plan_generation (pr_proposal x) <? tp_residual_generation plan))
      end
  end.

Definition plan_order_ids_requiring_broker_cancel (d : Db) : outcome (list Z) :=
  let live := filter (λ x, ru_plan_id (pr_rule x) ≠ None
                           ∧ o_status (pr_order x) ∈ BROKER_CANCELABLE_ORDER_STATES) (joined_rows d) in
  let plan_ids := omap (λ x, ru_plan_id (pr_rule x)) live in
  let rows := filter (λ x, match ru_plan_id (pr_rule x) with Some p => bool_decide (p ∈ plan_ids) | None => false end = true)
                (joined_rows d) in
  qty_of ← fill_qty_by_order (fills_in (map (λ x, o_id (pr_order x)) rows) (db_fills d));
  picked ← outcome_mapM (λ x, b ← requires_broker_cancel d rows qty_of x; Ok (b, o_id (pr_order x))) live;
  Ok (sorted_ids (dedup (omap (λ x : bool * Z, if x.1 then Some x.2 else None) picked))).

(** * Plan exits *)

(** The plans whose quantity a position of [symbol] has to cover. *)
Definition owning_plan (symbol action : string) (plan : TradePlanRow) : bool :=
  bool_decide (tp_symbol plan = symbol) && bool_decide (tp_action plan = action)
  && bool_decide (tp_status plan ∈ ["approved"; "protection_required"]).

Definition add_allocation (d : Db) (acc : Decimal * bool) (plan_id : Z) : outcome (Decimal * bool) :=
  let '(allocated, ok) := acc in
  if negb ok then Ok acc
  else
    truth ← plan_execution_truth plan_id d;
    exact_ ← plan_allocation_is_exact d truth;
    if exact_ : bool then total ← dadd allocated (residual_qty truth); Ok (total, true)
    else Ok (allocated, false).

(** The allocated quantity and whether it is exact; the loop stops at the first plan that is not. *)
Definition allocation (symbol action : string) (d : Db) : outcome (Decimal * bool) :=
  outcome_foldl (add_allocation d) (dzero, true) (select_ids (owning_plan symbol action) (db_plans d)).

Definition plan_allocation_truth (symbol exit_side : string) (d : Db) : outcome (Decimal * bool) :=
  if bool_decide (exit_side = "sell") then allocation (upper symbol) "buy" d
  else if bool_decide (exit_side = "buy") then allocation (upper symbol) "sell" d
  else Ok (dzero, false).

(** The row of [validate_plan_exit_submission]'s five-way join. *)
Definition exit_row (order_id : Z) (d : Db) : option (Proposal * Rule * RuleGroup * TradePlanRow * Order) :=
  p ← db_proposals d !! order_id; o ← db_orders d !! order_id; rule_id ← p_source_rule_id p;
  r ← db_rules d !! rule_id; g ← db_groups d !! ru_group_id r; plan_id ← ru_plan_id r;
  plan ← db_plans d !! plan_id; Some (p, r, g, plan, o).

Definition has_sibling_intent (group_id order_id : Z) (d : Db) : bool :=
  existsb (λ x, negb (x.1 =? order_id) && bool_decide (p_source_rule_group_id x.2 = Some group_id)
                && match db_orders d !! x.1 with Some o => order_outstanding o | None => false end)
    (map_to_list (db_proposals d)).

Definition available_position (side : string) (broker_position_qty : Decimal) : outcome Decimal :=
  if bool_decide (side = "sell") then dmax broker_position_qty dzero else dmax (dneg broker_position_qty) dzero.

Definition exit_quantity_check (d : Db) (plan_id : Z) (plan : TradePlanRow) (o : Order) (requested_qty : option Decimal)
    (broker_position_qty : Decimal) : outcome (option string) :=
  truth ← plan_execution_truth plan_id d;
  negative ← dlt (residual_qty truth) dzero;
  if negative : bool then Ok (Some "plan has negative trusted residual quantity")
  else if deq (residual_qty truth) dzero then Ok (Some "plan has no trusted residual quantity")
  else
    excess ← match requested_qty with None => Ok true | Some q => dgt q (residual_qty truth) end;
    if excess : bool then Ok (Some "exit quantity exceeds trusted plan residual")
    else
      total ← allocation (tp_symbol plan) (tp_action plan) d;
      let '(allocated, exact_) := total in
      if negb exact_ then Ok (Some "plan allocation cannot be proven from reconciled fill truth")
      else
        available ← available_position (o_side o) broker_position_qty;
        over ← dgt allocated available;
        if over : bool then Ok (Some "plan allocation exceeds reconciled broker position") else Ok None.

Definition validate_plan_exit_submission (order_id : Z) (requested_qty : option Decimal) (broker_position_qty : Decimal)
    (d : Db) : outcome (option string) :=
  match exit_row order_id d with
  | None => Ok None
  | Some (p, r, g, plan, o) =>
      if negb (is_exit r) then Ok None
      else if negb (bool_decide (tp_status plan ∈ ["approved"; "protection_required"]))
              || negb (bool_decide (ru_state r = rule_state_value RS_PROCESSING))
              || negb (bool_decide (g_state g = rule_state_value RS_ACTIVE)) || g_reconciliation_required g
      then Ok (Some "plan exit lifecycle is not execution-ready")
      else if negb (p_plan_generation p =? tp_residual_generation plan)
      then Ok (Some "plan exit intent uses a stale residual generation")
      else if has_sibling_intent (g_id g) order_id d then Ok (Some "another plan exit intent is still nonterminal")
      else if existsb (λ x, bool_decide (ru_plan_id (pr_rule x) = ru_plan_id r) && is_entry (pr_rule x)
                            && order_outstanding (pr_order x)) (joined_rows d)
      then Ok (Some "plan entry order is still nonterminal")
      else match ru_plan_id r with
           | Some plan_id => exit_quantity_check d plan_id plan o requested_qty broker_position_qty
           | None => Ok None
           end
  end.

Section Plans.
Context `{Digest}.

(** * Canceling a plan *)

Record PlanCancellationResult : Type := mkPlanCancellation {
  pc_canceled : bool;
  pc_status : option string;
  pc_rules_canceled : Z;
  pc_error : option string;
}.

Definition refused (status : option string) (error : string) : PlanCancellationResult :=
  mkPlanCancellation false status 0 (Some error).

(** Over-exited plans trip the drift breaker and are not canceled. *)
Definition refuse_over_exit (plan_id : Z) (status : string) (now : time) (actor reason request_id : string)
    : tx PlanCancellationResult :=
  trip_in_session scope_broker_drift ("plan " +:+ pretty plan_id +:+ " trusted exit fills exceed trusted entry fills")
    actor request_id now (Some reason) ≫= λ _,
  commit ≫= λ _, mret (refused (Some status) "over_exit").

Definition plan_cancellation_blocker (plan_id : Z) (now : time) (actor reason request_id : string) (d : Db)
    : outcome (option PlanCancellationResult) * Db :=
  match rule_context actor reason request_id with
  | Raise e => (Raise e, d)
  | Ok (actor, reason, request_id) =>
      with_session (
        d0 ← read;
        match db_plans d0 !! plan_id with
        | None => mret (Some (refused None "not_found"))
        | Some plan =>
            if bool_decide (tp_status plan = rule_state_value RS_CANCELED) then mret None
            else if negb (bool_decide (tp_status plan ∈ ["proposed"; "approved"]))
            then mret (Some (refused (Some (tp_status plan)) "invalid_state"))
            else
              truth ← lift (plan_execution_truth plan_id d0);
              if reconciliation_required truth
                 || existsb (λ id, match db_orders d0 !! id with
                                   | Some o => bool_decide (o_acceptance_state o = FILL_RECONCILIATION_REQUIRED)
                                   | None => false
                                   end) (unresolved_order_ids truth)
              then mret (Some (refused (Some (tp_status plan)) "reconciliation_required"))
              else
                open_ ← lift (dgt (residual_qty truth) dzero);
                if open_ : bool then mret (Some (refused (Some (tp_status plan)) "position_open"))
                else
                  over ← lift (dlt (residual_qty truth) dzero);
                  if over : bool
                  then r ← refuse_over_exit plan_id (tp_status plan) now actor reason request_id; mret (Some r)
                  else mret None
        end) d
  end.

Definition cancel_plan_rows (plan_id : Z) (status : string) (now : time) (actor reason request_id : string)
    : tx PlanCancellationResult :=
  d ← read;
  let group_ids := dedup (map (λ x, ru_group_id x.2)
        (filter (λ x, ru_plan_id x.2 = Some plan_id) (map_to_list (db_rules d)))) in
  if negb (bool_decide (plan_nonterminal_order_ids plan_id d = [])) then mret (refused (Some status) "orders_live")
  else
    let cancelable := matching_ids (λ g, bool_decide (g_id g ∈ group_ids)
                                         && in_states [RS_PENDING; RS_ACTIVE] (g_state g)) (db_groups d) in
    cancel_groups cancelable now actor reason request_id ≫= λ _,
    canceled_rule_ids ← cancel_rules (λ r, bool_decide (ru_group_id r ∈ cancelable)) actor reason request_id;
    cancel_proposed_orders group_ids now actor reason request_id ≫= λ _,
    d1 ← read;
    match db_plans d1 !! plan_id with
    | Some plan =>
        if bool_decide (tp_status plan = status)
        then write (set_db_plans (<[plan_id := set_tp_status (rule_state_value RS_CANCELED) plan]> (db_plans d1))) ≫= λ _,
             rule_audit actor reason request_id "plan.cancel" "trade_plan" plan_id (rule_state_value RS_CANCELED) ≫= λ _,
             commit ≫= λ _,
             mret (mkPlanCancellation true (Some (rule_state_value RS_CANCELED)) (Z.of_nat (length canceled_rule_ids)) None)
        else rollback ≫= λ _, mret (refused (Some status) "plan_conflict")
    | None => rollback ≫= λ _, mret (refused (Some status) "plan_conflict")
    end.

Definition cancel_plan (plan_id : Z) (now : time) (actor reason request_id : string) (d : Db)
    : outcome PlanCancellationResult * Db :=
  match rule_context actor reason request_id with
  | Raise e => (Raise e, d)
  | Ok (actor, reason, request_id) =>
      with_session (
        d0 ← read;
        match db_plans d0 !! plan_id with
        | None => mret (refused None "not_found")
        | Some plan =>
            if bool_decide (tp_status plan = rule_state_value RS_CANCELED)
            then mret (mkPlanCancellation true (Some (tp_status plan)) 0 None)
            else if negb (bool_decide (tp_status plan ∈ ["proposed"; "approved"]))
            then mret (refused (Some (tp_status plan)) "invalid_state")
            else
              truth ← lift (plan_execution_truth plan_id d0);
              if reconciliation_required truth then mret (refused (Some (tp_status plan)) "reconciliation_required")
              else
                open_ ← lift (dgt (residual_qty truth) dzero);
                if open_ : bool then mret (refused (Some (tp_status plan)) "position_open")
                else
                  over ← lift (dlt (residual_qty truth) dzero);
                  if over : bool then refuse_over_exit plan_id (tp_status plan) now actor reason request_id
                  else cancel_plan_rows plan_id (tp_status plan) now actor reason request_id
        end) d
  end.

End Plans.
