(* ===== verification/PlanTruthProofs.v ===== *)
(** A plan exit never sells more than the broker holds for the plans, and a plan is canceled only
    when it is flat and nothing of it is live. *)

From S2P Require Import Prelude PyDecimal Assets BrokerModels Breakers RiskRules RiskEngine.
From S2P Require Import Database Lifecycle SessionLogic BreakerStore SafetyState RuleRepository RuleProofs PlanTruth.
From Stdlib Require Import Ascii Lia.
Local Open Scope Z_scope.

(** * Allocation *)

(** A nonnegative amount as the arithmetic produces it. *)
Definition amount_ok (x : Decimal) : Prop :=
  match x with Fin c _ => fits c ∧ 0 ≤ c | Inf neg => neg = false | NaN => False end.

Lemma dcmp_le_trans_num x y z : is_nan y = false → dcmp_le x y = true → dcmp_le y z = true → dcmp_le x z = true.
Proof.
  intros Hy Hxy Hyz. destruct (is_finite y) eqn:Hf; [by eapply dcmp_le_trans|].
  destruct x as [c1 e1|[]|], y as [c2 e2|[]|], z as [c3 e3|[]|]; done.
Qed.

Lemma dadd_amounts x y : amount_ok x → amount_ok y →
  ∃ z, dadd x y = Ok z ∧ amount_ok z ∧ dcmp_le x z = true ∧ dcmp_le y z = true.
Proof.
  destruct x as [c1 e1|n1|], y as [c2 e2|n2|]; try done; cbn.
  - intros [F1 P1] [F2 P2]. set (m := Z.min e1 e2). eexists. split; [reflexivity|].
    pose proof (pow10_pos (e1 - m) ltac:(lia)). pose proof (pow10_pos (e2 - m) ltac:(lia)).
    assert (dcmp_le (Fin c1 e1) (dround (c1 * 10 ^ (e1 - m) + c2 * 10 ^ (e2 - m)) m) = true) as L1
      by (apply dround_ge_rep; [lia|done|nia]).
    assert (dcmp_le (Fin c2 e2) (dround (c1 * 10 ^ (e1 - m) + c2 * 10 ^ (e2 - m)) m) = true) as L2
      by (apply dround_ge_rep; [lia|done|nia]).
    split_and!; [|done|done].
    pose proof (dround_representable (c1 * 10 ^ (e1 - m) + c2 * 10 ^ (e2 - m)) m) as Hr.
    destruct (dround _ m) as [c e| |]; try done. split; [exact Hr|].
    apply (dcmp_le_align _ _ _ _ (Z.min e1 e)) in L1; [|lia..].
    pose proof (pow10_pos (e1 - Z.min e1 e) ltac:(lia)). pose proof (pow10_pos (e - Z.min e1 e) ltac:(lia)). nia.
  - intros _ ->. by exists (Inf false).
  - intros -> _. by exists (Inf false).
  - intros -> ->. by exists (Inf false).
Qed.

(** A difference that is not negative. *)
Lemma dsub_amount x y r : dsub x y = Ok r → dlt r dzero = Ok false → amount_ok r.
Proof.
  unfold dsub. intros Hr Hn.
  assert (match r with Fin c _ => fits c | _ => True end) as Hrep.
  { destruct x as [c1 e1|n1|], y as [c2 e2|n2|]; cbn in Hr; repeat case_match; try done; simplify_eq; try done.
    all: match goal with H : dround ?c ?m = _ |- _ => pose proof (dround_representable c m) as Hd; by rewrite H in Hd end. }
  destruct r as [c e|n|]; cbn in *; [split; [done|]|by destruct n|done].
  unfold dlt, dordered in Hn. cbn in Hn. injection Hn as Hn.
  apply (dcmp_lt_false _ _ _ _ (Z.min 0 e)) in Hn; [|lia..]. pose proof (pow10_pos (e - Z.min 0 e) ltac:(lia)). nia.
Qed.

Lemma exact_residual d plan_id truth :
  plan_execution_truth plan_id d = Ok truth → plan_allocation_is_exact d truth = Ok true → amount_ok (residual_qty truth).
Proof.
  unfold plan_execution_truth, plan_allocation_is_exact. intros Ht He.
  apply outcome_bind_Ok in Ht as (qs & _ & Ht). apply outcome_bind_Ok in Ht as ([entry exit_] & _ & Ht).
  apply outcome_bind_Ok in Ht as (res & Hr & [= <-]). cbn [residual_qty reconciliation_required] in *.
  destruct (_ || _); [done|]. apply outcome_bind_Ok in He as ([] & Hn & He); [done|]. by eapply dsub_amount.
Qed.

(** The allocation covers the residual quantity of every plan it counted. *)
Lemma allocation_from d ids : ∀ acc total,
  amount_ok acc → outcome_foldl (add_allocation d) (acc, true) ids = Ok (total, true) →
  amount_ok total ∧ dcmp_le acc total = true
  ∧ ∀ id, id ∈ ids → ∃ truth, plan_execution_truth id d = Ok truth ∧ plan_allocation_is_exact d truth = Ok true
                             ∧ dcmp_le (residual_qty truth) total = true.
Proof.
  induction ids as [|id ids IH]; intros acc total Hacc; cbn [outcome_foldl].
  { intros [= <-]. split_and!; [done|apply dcmp_le_refl|]. by intros ? ?%elem_of_nil. }
  intros Hrun. apply outcome_bind_Ok in Hrun as ([a ok] & Ha & Hrun).
  unfold add_allocation in Ha. cbn [negb] in Ha. apply outcome_bind_Ok in Ha as (truth & Ht & Ha).
  apply outcome_bind_Ok in Ha as ([] & He & Ha).
  2: { injection Ha as <- <-. exfalso. clear -Hrun. revert Hrun. generalize acc. induction ids as [|x ids IH]; intros a; cbn; [done|apply IH]. }
  pose proof (exact_residual d id truth Ht He) as Hres.
  destruct (dadd_amounts acc (residual_qty truth) Hacc Hres) as (z & Hz & Hzok & L1 & L2).
  rewrite Hz in Ha. cbn in Ha. injection Ha as <- <-. destruct (IH z total Hzok Hrun) as (Htot & L3 & Hall).
  assert (is_nan z = false) by (by destruct z).
  split_and!; [done|by eapply dcmp_le_trans_num|]. intros i [->|Hi]%elem_of_cons; [|by apply Hall].
  exists truth. split_and!; [done|done|by eapply dcmp_le_trans_num].
Qed.

Lemma sorted_ids_elem l x : x ∈ sorted_ids l ↔ x ∈ l.
Proof. unfold sorted_ids. by rewrite (merge_sort_Permutation Z.le l). Qed.

Lemma select_ids_elem {A} (pred : A → bool) (m : gmap Z A) id :
  id ∈ select_ids pred m ↔ ∃ x, m !! id = Some x ∧ pred x = true.
Proof. unfold select_ids. rewrite sorted_ids_elem. apply matching_ids_elem. Qed.

Lemma dgt_false_num x y : dgt x y = Ok false → is_nan x = false ∧ is_nan y = false ∧ dcmp_le x y = true.
Proof.
  intros Hg. split_and!; [| |by apply dgt_false_le]; unfold dgt, dlt, dordered in Hg;
    destruct (is_nan x), (is_nan y); done.
Qed.

(** What [exit_quantity_check] established when it finds nothing to object to. *)
Lemma exit_quantity_check_ok d plan_id plan o q pos :
  db_plans d !! plan_id = Some plan → tp_status plan ∈ ["approved"; "protection_required"] →
  exit_quantity_check d plan_id plan o q pos = Ok None →
  ∃ x truth available, q = Some x ∧ plan_execution_truth plan_id d = Ok truth
    ∧ available_position (o_side o) pos = Ok available ∧ plan_allocation_is_exact d truth = Ok true
    ∧ dcmp_le x (residual_qty truth) = true ∧ dcmp_le (residual_qty truth) available = true ∧ dcmp_le x available = true.
Proof.
  intros Hplan Hst Hc. unfold exit_quantity_check in Hc.
  apply outcome_bind_Ok in Hc as (truth & Ht & Hc). apply outcome_bind_Ok in Hc as ([] & Hn & Hc); [done|].
  destruct (deq _ _); [done|]. apply outcome_bind_Ok in Hc as ([] & Hx & Hc); [done|].
  destruct q as [x|]; [|done]. apply outcome_bind_Ok in Hc as ([total ex] & Ha & Hc). destruct ex; [|done]. cbn [negb] in Hc.
  apply outcome_bind_Ok in Hc as (available & Hav & Hc). apply outcome_bind_Ok in Hc as ([] & Hover & Hc); [done|].
  apply dgt_false_num in Hx as (_ & Hnr & Hle). apply dgt_false_num in Hover as (Hnt & _ & Hle').
  unfold allocation in Ha. apply allocation_from in Ha as (_ & _ & Hall); [|by cbn].
  destruct (Hall plan_id) as (truth' & Ht' & He & Hr).
  { apply select_ids_elem. exists plan. split; [done|]. unfold owning_plan. by rewrite !andb_true_iff, !bool_decide_eq_true. }
  rewrite Ht in Ht'. injection Ht' as <-.
  assert (dcmp_le (residual_qty truth) available = true) by exact (dcmp_le_trans_num _ _ _ Hnt Hr Hle').
  exists x, truth, available. split_and!; try done. by apply (dcmp_le_trans_num x (residual_qty truth)).
Qed.

(** Claim C28.  A plan exit stays within what the plan owns and the broker holds.  When the
    validation of a plan exit finds nothing to object to, the order names a quantity that is at most the
    trusted residual of its plan, and the residuals of all live plans of the symbol together, hence that
    quantity, are at most the broker position on the side being closed; the intent carries the current residual
    generation of an executable plan, no other intent of its group and no entry of the plan is outstanding. *)
Theorem exit_within_position order_id q pos d p r g plan o :
  exit_row order_id d = Some (p, r, g, plan, o) → is_exit r = true →
  validate_plan_exit_submission order_id q pos d = Ok None →
  p_plan_generation p = tp_residual_generation plan
  ∧ ru_state r = rule_state_value RS_PROCESSING ∧ g_reconciliation_required g = false
  ∧ has_sibling_intent (g_id g) order_id d = false
  ∧ (∀ x, x ∈ joined_rows d → ru_plan_id (pr_rule x) = ru_plan_id r → is_entry (pr_rule x) = true →
          order_outstanding (pr_order x) = false)
  ∧ ∃ plan_id x truth available, ru_plan_id r = Some plan_id ∧ q = Some x ∧ plan_execution_truth plan_id d = Ok truth
      ∧ available_position (o_side o) pos = Ok available ∧ plan_allocation_is_exact d truth = Ok true
      ∧ dcmp_le x (residual_qty truth) = true ∧ dcmp_le (residual_qty truth) available = true ∧ dcmp_le x available = true.
Proof.
  intros Hrow Hexit Hv. unfold validate_plan_exit_submission in Hv. rewrite Hrow, Hexit in Hv. cbn [negb] in Hv.
  destruct (_ || g_reconciliation_required g) eqn:Hready; [done|].
  rewrite !orb_false_iff, !negb_false_iff, !bool_decide_eq_true in Hready. destruct Hready as [[[Hst Hpr] Hact] Hrec].
  destruct (Z.eqb_spec (p_plan_generation p) (tp_residual_generation plan)) as [Hgen|]; [|done]. cbn [negb] in Hv.
  destruct (has_sibling_intent _ _ _) eqn:Hsib; [done|]. destruct (existsb _ (joined_rows d)) eqn:Hentry; [done|].
  assert (∃ plan_id, ru_plan_id r = Some plan_id ∧ db_plans d !! plan_id = Some plan) as (plan_id & Hpid & Hplan).
  { unfold exit_row in Hrow. repeat (apply bind_Some in Hrow as (? & ? & Hrow)). simplify_eq. eauto. }
  rewrite Hpid in Hv. split_and!; try done.
  - intros x Hx Hxp Hxe. apply not_true_is_false. intros Ho.
    assert (existsb (λ x, bool_decide (ru_plan_id (pr_rule x) = ru_plan_id r) && is_entry (pr_rule x)
                          && order_outstanding (pr_order x)) (joined_rows d) = true) as E; [|congruence].
    apply existsb_exists. exists x. split; [by apply list_elem_of_In|]. by rewrite bool_decide_true, Hxe, Ho by done.
  - exists plan_id. destruct (exit_quantity_check_ok _ _ _ _ _ _ Hplan Hst Hv) as (x & truth & available & ?).
    exists x, truth, available. tauto.
Qed.

(** * Canceling a plan *)

Section Cancel.
Context `{Digest}.

(** Everything the cancellation of a plan rested on and did. *)
Record plan_canceled (plan_id : Z) (d d' : Db) : Prop := {
  pcd_flat : ∃ truth, plan_execution_truth plan_id d = Ok truth ∧ reconciliation_required truth = false
                      ∧ deq (residual_qty truth) dzero = true;
  pcd_quiet : plan_nonterminal_order_ids plan_id d = [];
  pcd_plan : ∃ plan, db_plans d !! plan_id = Some plan ∧ tp_status plan ∈ ["proposed"; "approved"]
                     ∧ db_plans d' = <[plan_id := set_tp_status (rule_state_value RS_CANCELED) plan]> (db_plans d);
  pcd_groups : ∀ gid g', plan_group plan_id d gid → db_groups d' !! gid = Some g' →
                 in_states [RS_PENDING; RS_ACTIVE] (g_state g') = false;
  pcd_rules : ∀ id r' g, db_rules d' !! id = Some r' → plan_group plan_id d (ru_group_id r') →
                db_groups d !! ru_group_id r' = Some g → in_states [RS_PENDING; RS_ACTIVE] (g_state g) = true →
                live_rule r' = false;
  pcd_orders : ∀ id o p gid, db_orders d' !! id = Some o → db_proposals d !! id = Some p →
                 p_source_rule_group_id p = Some gid → plan_group plan_id d gid → o_status o ≠ order_status_value PROPOSED;
}.

Lemma cancel_plan_rows_run plan_id plan now actor reason request_id d :
  keyed d → db_plans d !! plan_id = Some plan →
  (plan_nonterminal_order_ids plan_id d ≠ []
   ∧ cancel_plan_rows plan_id (tp_status plan) now actor reason request_id (mkSession d d)
     = (Ok (refused (Some (tp_status plan)) "orders_live"), mkSession d d))
  ∨ ∃ n d', plan_nonterminal_order_ids plan_id d = []
      ∧ cancel_plan_rows plan_id (tp_status plan) now actor reason request_id (mkSession d d)
        = (Ok (mkPlanCancellation true (Some (rule_state_value RS_CANCELED)) n None), mkSession d' d')
      ∧ db_plans d' = <[plan_id := set_tp_status (rule_state_value RS_CANCELED) plan]> (db_plans d)
      ∧ (∀ gid g', plan_group plan_id d gid → db_groups d' !! gid = Some g' →
           in_states [RS_PENDING; RS_ACTIVE] (g_state g') = false)
      ∧ (∀ id r' g, db_rules d' !! id = Some r' → plan_group plan_id d (ru_group_id r') →
           db_groups d !! ru_group_id r' = Some g → in_states [RS_PENDING; RS_ACTIVE] (g_state g) = true → live_rule r' = false)
      ∧ (∀ id o p gid, db_orders d' !! id = Some o → db_proposals d !! id = Some p →
           p_source_rule_group_id p = Some gid → plan_group plan_id d gid → o_status o ≠ order_status_value PROPOSED).
Proof.
  intros [_ Hkg] Hplan. set (cancelable := matching_ids (λ g, bool_decide (g_id g ∈ plan_group_ids plan_id d)
                                         && in_states [RS_PENDING; RS_ACTIVE] (g_state g)) (db_groups d)).
  destruct (decide (plan_nonterminal_order_ids plan_id d = [])) as [Hq|Hq]; [right|left; split; [done|]].
  2: { unfold cancel_plan_rows. unfold mbind at 1, tx_bind at 1, read. cbn [working]. by rewrite bool_decide_false. }
  assert (∀ gid g, db_groups d !! gid = Some g → plan_group plan_id d gid → in_states [RS_PENDING; RS_ACTIVE] (g_state g) = true → gid ∈ cancelable) as Hcan.
  { intros gid g Hg Hpg Hst. apply matching_ids_elem. exists g. split; [done|]. rewrite Hst, (Hkg _ _ Hg), andb_true_r.
    by apply bool_decide_eq_true, plan_group_ids_elem. }
  destruct (cancel_groups_run cancelable now actor reason request_id (mkSession d d)) as [e1 H1].
  match type of H1 with _ = (_, ?s1) => destruct (cancel_rules_run (λ r, bool_decide (ru_group_id r ∈ cancelable)) actor reason request_id s1) as [e2 H2] end.
  match type of H2 with _ = (_, ?s2) => destruct (cancel_proposed_run (plan_group_ids plan_id d) now actor reason request_id s2) as (e3 & orders & H3 & Hord) end.
  eexists _, _. split_and!; [done| | |..].
  { unfold cancel_plan_rows. unfold mbind at 1, tx_bind at 1, read at 1. cbn [working]. cbv zeta. rewrite bool_decide_true by done. cbn [negb].
    fold (plan_group_ids plan_id d). fold cancelable. unfold mbind at 1, tx_bind at 1. rewrite H1.
    unfold mbind at 1, tx_bind at 1. rewrite H2. unfold mbind at 1, tx_bind at 1. rewrite H3. unfold mbind at 1, tx_bind at 1, read at 1.
    cbn [working durable log db_plans set_db_plans set_db_audit set_db_rules set_db_groups set_db_orders].
    rewrite Hplan, bool_decide_true by done. reflexivity. }
  { reflexivity. }
  all: cbn.
  - intros gid g' Hpg Hg'. rewrite lookup_fmap in Hg'. destruct (db_groups d !! gid) as [g|] eqn:Hg; [|done].
    injection Hg' as <-. destruct (in_states [RS_PENDING; RS_ACTIVE] (g_state g)) eqn:Hst.
    + apply cancel_group_dead. rewrite (Hkg _ _ Hg). by eapply Hcan.
    + unfold cancel_group. by rewrite Hst, andb_false_r.
  - intros id r' g Hr' Hpg Hg Hst. rewrite lookup_fmap in Hr'. destruct (db_rules d !! id) as [r|]; [|done]. injection Hr' as <-.
    destruct (cancel_rule_settles (λ r, bool_decide (ru_group_id r ∈ cancelable)) r) as [(_ & E & _) Hdead].
    rewrite E in Hpg, Hg. apply Hdead. apply bool_decide_eq_true. by eapply Hcan.
  - intros id o p gid Ho Hp Hsrc Hpg. eapply Hord; [done|exact Hp|done|]. by apply plan_group_ids_elem.
Qed.

Lemma refuse_over_exit_run plan_id status now actor reason request_id s r s' :
  refuse_over_exit plan_id status now actor reason request_id s = (r, s') →
  (∃ e, r = Raise e ∧ durable s' = durable s)
  ∨ (r = Ok (refused (Some status) "over_exit") ∧ is_tripped scope_broker_drift (durable s') = true
     ∧ db_orders (durable s') = db_orders (working s) ∧ db_groups (durable s') = db_groups (working s)
     ∧ db_rules (durable s') = db_rules (working s) ∧ db_plans (durable s') = db_plans (working s)).
Proof.
  unfold refuse_over_exit. unfold mbind at 1, tx_bind at 1.
  destruct (trip_inputs_ok ("plan " +:+ pretty plan_id +:+ " trusted exit fills exceed trusted entry fills") actor request_id (Some reason)) eqn:Hin.
  - rewrite trip_in_session_ok by done. intros [= <- <-]. right. split_and!; try done. unfold is_tripped. cbn. by rewrite lookup_insert_eq.
  - destruct (trip_in_session_bad scope_broker_drift _ actor request_id now (Some reason) s Hin) as [m ->]. intros [= <- <-]. left. by exists (ValueError m).
Qed.

Lemma not_gt_not_lt_zero x : dgt x dzero = Ok false → dlt x dzero = Ok false → deq x dzero = true.
Proof.
  intros (Hn & _ & Hle)%dgt_false_num Hlt. unfold dlt, dordered in Hlt. rewrite Hn in Hlt. cbn in Hlt. injection Hlt as Hlt.
  unfold deq. rewrite Hn. cbn [orb negb andb is_nan dzero of_Z]. unfold dcmp_le, dcmp_lt in *. by destruct (dcmp x dzero).
Qed.

(** A plan is canceled only when it is flat and quiet.  A cancellation that reports success either
    found the plan canceled already or: trusted fills prove it flat, none of its orders is outstanding, and now the plan is
    canceled, none of its groups is pending or active, no rule of a group it closed is live and no order of its groups is
    proposed.  A refusal or an exception leaves orders, groups, rules and plans alone, and an over-exited plan trips the
    drift breaker. *)
Theorem cancel_plan_spec plan_id now actor reason request_id d r d' :
  keyed d → cancel_plan plan_id now actor reason request_id d = (r, d') →
  match r with
  | Raise _ => d' = d
  | Ok c =>
      if pc_canceled c
      then ((∃ plan, db_plans d !! plan_id = Some plan ∧ tp_status plan = rule_state_value RS_CANCELED) ∧ d' = d)
           ∨ plan_canceled plan_id d d'
      else db_orders d' = db_orders d ∧ db_groups d' = db_groups d ∧ db_rules d' = db_rules d ∧ db_plans d' = db_plans d
           ∧ (if bool_decide (pc_error c = Some "over_exit") then is_tripped scope_broker_drift d' = true else d' = d)
  end.
Proof.
  intros Hkey. unfold cancel_plan. destruct (rule_context _ _ _) as [[[a b] q]|e]; [|by intros [= <- <-]].
  unfold with_session. unfold mbind at 1, tx_bind at 1, read. cbn [working].
  destruct (db_plans d !! plan_id) as [plan|] eqn:Hplan; [|by intros [= <- <-]].
  case_bool_decide as Hst; [intros [= <- <-]; cbn; left; eauto|]. destruct (bool_decide_reflect (tp_status plan ∈ ["proposed"; "approved"])) as [Hok|]; [|by intros [= <- <-]].
  cbn [negb]. unfold mbind at 1, tx_bind at 1, lift at 1. destruct (plan_execution_truth plan_id d) as [truth|e] eqn:Ht; [|by intros [= <- <-]].
  destruct (reconciliation_required truth) eqn:Hrec; [by intros [= <- <-]|].
  unfold mbind at 1, tx_bind at 1, lift at 1. destruct (dgt (residual_qty truth) dzero) as [[]|e] eqn:Hgt; [by intros [= <- <-]| |by intros [= <- <-]].
  unfold mbind at 1, tx_bind at 1, lift at 1. destruct (dlt (residual_qty truth) dzero) as [[]|e] eqn:Hlt; [| |by intros [= <- <-]].
  - destruct (refuse_over_exit _ _ _ _ _ _ _) as [r0 s0] eqn:Hr. intros [= <- <-].
    apply refuse_over_exit_run in Hr as [(e & -> & ->)|(-> & Htrip & -> & -> & -> & ->)]; [done|]. cbn. done.
  - destruct (cancel_plan_rows_run plan_id plan now a b q d Hkey Hplan) as [(Hq & ->)|(n & d1 & Hq & -> & Hp & Hg & Hr & Ho)]; intros [= <- <-]; cbn; [done|].
    right. split; try done; [|by exists plan]. exists truth. split_and!; try done. by apply not_gt_not_lt_zero.
Qed.
End Cancel.

(** * Concrete runs *)

#[local] Instance truth_demo_digest : Digest := λ s, s.

(** Plan 7 owns ten shares bought by order 1; its stop is proposed as order 2. *)
Definition truth_db (stop : RuleState) (stop_order : OrderStatus) (fills : list Fill) : Db :=
  mkDb {[ 1 := mkOrder 1 "key-1" "AAPL" "buy" "market" (Some (Fin 10 0)) None None "filled" None None EmptyString None
                 "simple" "{}" 1 None "accepted" None EmptyString "none" 0 100 100;
          2 := mkOrder 2 "key-2" "AAPL" "sell" "market" (Some (Fin 10 0)) None None (order_status_value stop_order) None None EmptyString None
                 "simple" "{}" 0 None "not_started" None EmptyString "none" 0 100 100 ]}
    {[ 1 := mkProposal 1 1 (Some 6) (Some 3) 0 "entry" 15 100 1000; 2 := mkProposal 2 2 (Some 5) (Some 1) 1 "stop" 15 100 1000 ]}
    {[ 5 := plan_group_row 5 ]}
    {[ 1 := set_ru_state (rule_state_value stop) (plan_rule 1 5 STOP); 3 := set_ru_state "triggered" (plan_rule 3 6 ENTRY) ]}
    fills [] [] ∅ ∅ [] ∅ ∅ {[ 7 := mkTradePlan 7 "AAPL" "buy" "approved" (Fin 10 0) (Fin 0 0) 1 ]} ∅.

Definition truth_entry : Fill := mkFillRow 1 (Some 1) "AAPL" "buy" (Fin 10 0) (Fin 100 0) (Some "fill-1") "trusted" 200.

Lemma truth_db_keyed stop stop_order fills : keyed (truth_db stop stop_order fills).
Proof.
  split; intros id r; cbn; [rewrite lookup_insert_Some|]; rewrite lookup_singleton_Some; naive_solver.
Qed.

Lemma exit_within_position_witness :
  validate_plan_exit_submission 2 (Some (Fin 10 0)) (Fin 12 0) (truth_db RS_PROCESSING PROPOSED [truth_entry]) = Ok None
  ∧ ∃ x, Some (Fin 10 0) = Some x ∧ dcmp_le x (Fin 12 0) = true.
Proof.
  assert (validate_plan_exit_submission 2 (Some (Fin 10 0)) (Fin 12 0) (truth_db RS_PROCESSING PROPOSED [truth_entry]) = Ok None) as Hv
    by (vm_compute; reflexivity).
  split; [exact Hv|]. edestruct (exit_within_position 2 (Some (Fin 10 0)) (Fin 12 0) (truth_db RS_PROCESSING PROPOSED [truth_entry]))
    as (_ & _ & _ & _ & _ & plan_id & x & truth & available & _ & Hx & _ & Hav & _ & _ & _ & Hle);
    [vm_compute; reflexivity|vm_compute; reflexivity|exact Hv|].
  vm_compute in Hav. injection Hav as <-. exists x. split; [exact Hx|exact Hle].
Defined.

(** A plan without fills whose stop was never sent is canceled with its rules. *)
Lemma cancel_plan_spec_witness :
  plan_canceled 7 (truth_db RS_ACTIVE CANCELED []) (cancel_plan 7 300 "operator" "stop trading" "r1" (truth_db RS_ACTIVE CANCELED [])).2.
Proof.
  assert (∃ n, (cancel_plan 7 300 "operator" "stop trading" "r1" (truth_db RS_ACTIVE CANCELED [])).1
               = Ok (mkPlanCancellation true (Some "canceled") n None)) as [n Hr] by (eexists; vm_compute; reflexivity).
  pose proof (cancel_plan_spec 7 300 "operator" "stop trading" "r1" (truth_db RS_ACTIVE CANCELED [])
    (cancel_plan 7 300 "operator" "stop trading" "r1" (truth_db RS_ACTIVE CANCELED [])).1
    (cancel_plan 7 300 "operator" "stop trading" "r1" (truth_db RS_ACTIVE CANCELED [])).2 (truth_db_keyed _ _ _) (surjective_pairing _)) as Hs.
  rewrite Hr in Hs. cbn [pc_canceled] in Hs. destruct Hs as [[(plan & Hp & Hst) _]|Hs]; [|exact Hs].
  vm_compute in Hp. injection Hp as <-. discriminate Hst.
Defined.
