(* ===== verification/PlanLifecycle.v ===== *)
(** The plan lifecycle of [rules/repository.py]: [reconcile_plan_lifecycle_in_session] settles plan
    rules from trusted fills inside the caller's transaction.

    Each stage of the source's loop body over one plan is a definition.  Row objects of the session
    are their rows in the working copy, read again at every use, as the identity map shares
    them.  Rewriting a stored exit action to a new quantity (JSON and pydantic) is a parameter. *)

From S2P Require Import Prelude PyDecimal BrokerModels Breakers Database Lifecycle BreakerStore SafetyState RuleRepository PlanTruth.
From Stdlib Require Import Ascii Lia.
Local Open Scope Z_scope.

(** * Numbers *)

(** [x.to_integral_value(rounding=ROUND_DOWN)]. *)
Definition dtrunc (x : Decimal) : Decimal :=
  match x with
  | Fin c e => if 0 <=? e then x else Fin (Z.quot c (10 ^ (- e))) 0
  | _ => x
  end.

(** A positive computed value rounded down to six places; [None] when nothing is left. *)
Definition normalize_computed_order_decimal (value : Decimal) : outcome (option Decimal) :=
  match value with
  | Fin c e =>
      if c <=? 0 then Raise (ValueError "computed order value must be finite and positive")
      else
        let whole_digits := match dround c e with Fin c1 e1 => Z.max (ndigits c1 + e1) 0 | _ => 0 end in
        if 14 <? whole_digits then Raise (ValueError "computed order value exceeds persisted precision")
        else
          let q := if -6 <=? e then c * 10 ^ (e + 6) else c / 10 ^ (-6 - e) in
          if q =? 0 then Ok None else Ok (Some (Fin q (-6)))
  | _ => Raise (ValueError "computed order value must be finite and positive")
  end.

Record FillActivationResult : Type := mkActivation {
  groups_activated : Z;
  rules_activated : Z;
  rules_resized : Z;
  rules_settled : Z;
  plans_completed : Z;
}.

Definition no_activation : FillActivationResult := mkActivation 0 0 0 0 0.
Definition count_group (b : bool) (x : FillActivationResult) : FillActivationResult :=
  mkActivation (groups_activated x + if b then 1 else 0) (rules_activated x) (rules_resized x) (rules_settled x) (plans_completed x).
Definition count_active (b : bool) (x : FillActivationResult) : FillActivationResult :=
  mkActivation (groups_activated x) (rules_activated x + if b then 1 else 0) (rules_resized x) (rules_settled x) (plans_completed x).
Definition count_resized (b : bool) (x : FillActivationResult) : FillActivationResult :=
  mkActivation (groups_activated x) (rules_activated x) (rules_resized x + if b then 1 else 0) (rules_settled x) (plans_completed x).
Definition count_settled (b : bool) (x : FillActivationResult) : FillActivationResult :=
  mkActivation (groups_activated x) (rules_activated x) (rules_resized x) (rules_settled x + if b then 1 else 0) (plans_completed x).
Definition count_completed (b : bool) (x : FillActivationResult) : FillActivationResult :=
  mkActivation (groups_activated x) (rules_activated x) (rules_resized x) (rules_settled x) (plans_completed x + if b then 1 else 0).

Definition set_ru_action (v : string) (x : Rule) : Rule :=
  mkRule (ru_id x) (ru_group_id x) (ru_payload_version x) (ru_ticker x) (ru_condition_json x) v (ru_state x)
    (ru_created_at x) (ru_plan_id x) (ru_kind x) (ru_fraction x) (ru_hwm x) (ru_deadline x) (ru_pre_approved x)
    (ru_activation x) (ru_terminal_on_trigger x).

(** * The rows of one plan *)

(** What the loop body loads before it changes anything: the ids of the plan's rules and groups, its
    proposals with their order and rule in proposal order, and the trusted fills. *)
Record PlanView : Type := mkPlanView {
  pv_plan_id : Z;
  pv_rules : list Z;
  pv_groups : list Z;
  pv_proposals : list (Proposal * Z * Z);
  pv_fills : list Fill;
}.

Definition proposal_le (p q : Proposal) : Prop := p_id p ≤ p_id q.
#[export] Instance proposal_le_dec : RelDecision proposal_le.
Proof. intros p q. unfold proposal_le. apply _. Defined.

Definition proposals_by_id (d : Db) : list Proposal :=
  merge_sort proposal_le (map snd (map_to_list (db_proposals d))).

Definition plan_view (plan_id : Z) (d : Db) : PlanView :=
  let rules := select_ids (λ r, bool_decide (ru_plan_id r = Some plan_id)) (db_rules d) in
  let group_ids := omap (λ id, ru_group_id <$> db_rules d !! id) rules in
  let groups := select_ids (λ g, bool_decide (g_id g ∈ group_ids)) (db_groups d) in
  let proposals := omap (λ p, o ← db_orders d !! p_order_id p; rule_id ← p_source_rule_id p;
                              if bool_decide (rule_id ∈ rules) then Some (p, o_id o, rule_id) else None) (proposals_by_id d) in
  mkPlanView plan_id rules groups proposals (fills_in (map (λ x, x.1.2) proposals) (db_fills d)).

(** The orders proposed from a rule. *)
Definition orders_by_rule (v : PlanView) (rule_id : Z) : list Z :=
  omap (λ x, if x.2 =? rule_id then Some x.1.2 else None) (pv_proposals v).

Definition rule_fill_qty (qty_of : gmap Z Decimal) (v : PlanView) (rule_id : Z) : outcome Decimal :=
  dsum (map (λ id, default dzero (qty_of !! id)) (orders_by_rule v rule_id)).

(** The filled quantity of every rule of the plan. *)
Definition fill_qty_by_rule (qty_of : gmap Z Decimal) (v : PlanView) : outcome (gmap Z Decimal) :=
  rows ← outcome_mapM (λ id, q ← rule_fill_qty qty_of v id; Ok (id, q)) (pv_rules v);
  Ok (list_to_map rows).

(** The rules of the plan that satisfy [pred], as rows of [d]. *)
Definition rules_of (v : PlanView) (pred : Rule → bool) (d : Db) : list Z :=
  filter (λ id, match db_rules d !! id with Some r => pred r | None => false end = true) (pv_rules v).

Definition total_filled (filled : gmap Z Decimal) (ids : list Z) : outcome Decimal :=
  dsum (map (λ id, default dzero (filled !! id)) ids).

(** The quantities the stages share. *)
Record PlanTotals : Type := mkPlanTotals {
  pt_filled : gmap Z Decimal;
  pt_entry : Decimal;
  pt_exit : Decimal;
  pt_signed : Decimal;
  pt_over_exited : bool;
  pt_remaining : Decimal;
}.

Definition filled_of (t : PlanTotals) (rule_id : Z) : Decimal := default dzero (pt_filled t !! rule_id).

Definition plan_filled (v : PlanView) : outcome (gmap Z Decimal) :=
  qty_of ← fill_qty_by_order (pv_fills v);
  fill_qty_by_rule qty_of v.

Definition plan_quantities (filled : gmap Z Decimal) (entry_rules exit_rules : list Z) : outcome PlanTotals :=
  entry ← total_filled filled entry_rules;
  exit_ ← total_filled filled exit_rules;
  signed ← dsub entry exit_;
  over ← dlt signed dzero;
  remaining ← dmax signed dzero;
  Ok (mkPlanTotals filled entry exit_ signed over remaining).

(** * Row updates *)

Section Plan.
Context `{Digest} (resize_action : string → Decimal → option string).
Context (now clock : time) (actor reason request_id : string).

Definition get_rule (id : Z) : tx Rule :=
  d ← read; match db_rules d !! id with Some r => mret r | None => raise (KeyError (pretty id)) end.
Definition get_group (id : Z) : tx RuleGroup :=
  d ← read; match db_groups d !! id with Some g => mret g | None => raise (KeyError (pretty id)) end.
Definition get_order (id : Z) : tx Order :=
  d ← read; match db_orders d !! id with Some o => mret o | None => raise (KeyError (pretty id)) end.

Definition put_rule (id : Z) (r : Rule) : tx () := write (λ d, set_db_rules (<[id := r]> (db_rules d)) d).
Definition put_group (id : Z) (g : RuleGroup) : tx () := write (λ d, set_db_groups (<[id := g]> (db_groups d)) d).
Definition put_order (id : Z) (o : Order) : tx () := write (λ d, set_db_orders (<[id := o]> (db_orders d)) d).
Definition put_plan (id : Z) (p : TradePlanRow) : tx () := write (λ d, set_db_plans (<[id := p]> (db_plans d)) d).

Abbreviation audit := (rule_audit actor reason request_id).

Definition set_rule_state (id : Z) (state : RuleState) : tx bool :=
  r ← get_rule id;
  if bool_decide (ru_state r = rule_state_value state) then mret false
  else
    put_rule id (set_ru_state (rule_state_value state) r) ≫= λ _,
    audit "rule.lifecycle" "rule" id (rule_state_value state) ≫= λ _, mret true.

Definition set_group_state (id : Z) (state : RuleState) (terminal_rule_id : option Z) : tx bool :=
  g ← get_group id;
  if bool_decide (g_state g = rule_state_value state) && bool_decide (g_terminal_rule_id g = terminal_rule_id)
     && bool_decide (g_lease_owner g = None) && bool_decide (g_lease_expires_at g = None)
  then mret false
  else
    put_group id (end_group state terminal_rule_id now g) ≫= λ _,
    audit "rule_group.lifecycle" "rule_group" id (rule_state_value state) ≫= λ _, mret true.

Definition set_group_required (id : Z) (required : bool) : tx bool :=
  g ← get_group id;
  if Bool.eqb (g_reconciliation_required g) required then mret false
  else
    put_group id (set_g_updated_at now (set_g_reconciliation_required required g)) ≫= λ _,
    audit "rule_group.reconciliation_required" "rule_group" id (if required then "required" else "cleared") ≫= λ _,
    mret true.

Definition trip_plan (scope : BreakerScope) (detail : string) : tx () :=
  trip_in_session scope detail actor request_id now (Some reason) ≫= λ _, mret ().

(** * The stages of the loop body *)

Definition latch_untrusted (v : PlanView) : tx () :=
  match untrusted_orders (pv_fills v) with
  | [] => mret ()
  | ids =>
      tx_iter (λ g, set_group_required g true ≫= λ _, mret ()) (pv_groups v) ≫= λ _,
      trip_plan scope_broker_drift ("plan " +:+ pretty (pv_plan_id v) +:+ " has untrusted fill truth for orders "
        +:+ join "," (map pretty ids))
  end.

Definition store_totals (v : PlanView) (t : PlanTotals) : tx () :=
  d ← read;
  match db_plans d !! pv_plan_id v with
  | None => raise (ValueError ("plan-linked rules reference missing plan " +:+ pretty (pv_plan_id v)))
  | Some plan =>
      if deq (tp_entry_filled_qty plan) (pt_entry t) && deq (tp_exit_filled_qty plan) (pt_exit t) then mret ()
      else
        let generation := tp_residual_generation plan + 1 in
        put_plan (pv_plan_id v) (set_tp_filled (pt_entry t) (pt_exit t) generation plan) ≫= λ _,
        audit "plan.residual_generation" "trade_plan" (tp_id plan) (pretty generation)
  end.

Definition trip_over_exit (v : PlanView) (t : PlanTotals) : tx () :=
  if pt_over_exited t
  then trip_plan scope_broker_drift ("plan " +:+ pretty (pv_plan_id v) +:+ " trusted exit fills " +:+ dstr (pt_exit t)
         +:+ " exceed trusted entry fills " +:+ dstr (pt_entry t))
  else mret ().

(** Whether every order of the rule is settled, and there is one. *)
Definition linked_settled (v : PlanView) (rule_id : Z) (d : Db) : bool :=
  negb (bool_decide (orders_by_rule v rule_id = []))
  && forallb (λ id, match db_orders d !! id with Some o => negb (order_outstanding o) | None => true end) (orders_by_rule v rule_id).

Definition entry_target (v : PlanView) (t : PlanTotals) (rule_id : Z) (d : Db) : outcome RuleState :=
  filled ← dgt (filled_of t rule_id) dzero;
  if filled : bool then Ok RS_TRIGGERED
  else Ok (if existsb (λ id, match db_orders d !! id with
                             | Some o => bool_decide (o_last_error_code o ∈ ["plan_exit_entry_cancel"; "plan_cancel"])
                             | None => false
                             end) (orders_by_rule v rule_id)
           then RS_CANCELED else RS_FAILED).

Definition settle_entry (v : PlanView) (t : PlanTotals) (acc : FillActivationResult) (rule_id : Z) : tx FillActivationResult :=
  r ← get_rule rule_id;
  d ← read;
  if negb (bool_decide (ru_state r = rule_state_value RS_PROCESSING)) || negb (linked_settled v rule_id d) then mret acc
  else
    target ← lift (entry_target v t rule_id d);
    changed ← set_rule_state rule_id target;
    set_group_state (ru_group_id r) target (Some rule_id) ≫= λ _,
    mret (count_settled changed acc).

Definition get_plan (plan_id : Z) : tx TradePlanRow :=
  d ← read; match db_plans d !! plan_id with Some p => mret p | None => raise (KeyError (pretty plan_id)) end.

(** Local intents that an exit fill or a new residual generation made obsolete. *)
Definition should_cancel (t : PlanTotals) (plan : TradePlanRow) (p : Proposal) (r : Rule) : outcome bool :=
  let stale_exit_intent := is_exit r && (p_plan_generation p <? tp_residual_generation plan) in
  superseded_entry ← (if is_entry r then dgt (pt_exit t) dzero else Ok false);
  Ok (superseded_entry || stale_exit_intent).

Definition withdraw_intent (v : PlanView) (t : PlanTotals) (acc : FillActivationResult) (x : Proposal * Z * Z)
    : tx FillActivationResult :=
  let '(p, order_id, rule_id) := x in
  r ← get_rule rule_id;
  plan ← get_plan (pv_plan_id v);
  o ← get_order order_id;
  cancel ← lift (should_cancel t plan p r);
  if negb cancel || negb (locally_cancelable o) then mret acc
  else
    let target := if bool_decide (o_status o = order_status_value PROPOSED) then CANCELED else REJECTED in
    o' ← lift (transition o target clock);
    put_order order_id (set_o_last_error_code "plan_exit_entry_cancel" o') ≫= λ _,
    audit "order.plan_entry_cancel" "order" order_id (order_status_value target) ≫= λ _,
    if is_entry r
    then changed ← set_rule_state rule_id RS_CANCELED;
         set_group_state (ru_group_id r) RS_CANCELED (Some rule_id) ≫= λ _,
         mret (count_settled changed acc)
    else mret acc.

(** ** Late fills on a terminal plan *)

Definition is_protective (r : Rule) : bool := bool_decide (ru_kind r ∈ map rule_kind_value [STOP; TRAILING; TIME]).

Definition rearm_rule (required : bool) (acc : FillActivationResult) (rule_id : Z) : tx FillActivationResult :=
  r ← get_rule rule_id;
  if negb (is_protective r) then mret acc
  else
    changed ← set_rule_state rule_id RS_ACTIVE;
    set_group_required (ru_group_id r) required ≫= λ _,
    set_group_state (ru_group_id r) RS_ACTIVE None ≫= λ _,
    mret (count_active changed acc).

Definition late_residual (v : PlanView) (t : PlanTotals) (exit_rules : list Z) (required : bool) (acc : FillActivationResult)
    : tx FillActivationResult :=
  plan ← get_plan (pv_plan_id v);
  open_ ← lift (dgt (pt_remaining t) dzero);
  if open_ && bool_decide (tp_status plan ∈ ["completed"; "canceled"])
  then
    let failure_reason := "terminal plan " +:+ pretty (pv_plan_id v) +:+ " received late trusted fills and now has residual quantity "
                          +:+ dstr (pt_remaining t) in
    trip_plan scope_broker_drift failure_reason ≫= λ _,
    trip_plan scope_operator_global failure_reason ≫= λ _,
    put_plan (pv_plan_id v) (set_tp_status "protection_required" plan) ≫= λ _,
    audit "plan.protection_required" "trade_plan" (tp_id plan) "protection_required" ≫= λ _,
    tx_foldl (rearm_rule required) acc exit_rules
  else mret acc.

(** ** Exits whose orders are settled *)

Definition settle_exit (v : PlanView) (t : PlanTotals) (nonterminal : bool) (acc : FillActivationResult) (rule_id : Z)
    : tx FillActivationResult :=
  r ← get_rule rule_id;
  d ← read;
  if negb (bool_decide (ru_state r = rule_state_value RS_PROCESSING)) || negb (linked_settled v rule_id d) then mret acc
  else
    filled ← lift (dgt (filled_of t rule_id) dzero);
    if filled && deq (pt_remaining t) dzero && negb nonterminal then mret acc
    else
      let partial_target := filled && bool_decide (ru_kind r = rule_kind_value TARGET) && negb (ru_terminal_on_trigger r) in
      changed ← set_rule_state rule_id (if partial_target then RS_TRIGGERED else RS_ACTIVE);
      let acc := count_settled changed acc in
      if partial_target then mret acc
      else
        set_group_state (ru_group_id r) RS_ACTIVE None ≫= λ _,
        trip_plan scope_operator_global ("plan " +:+ pretty (pv_plan_id v) +:+ " protective exit rule " +:+ pretty rule_id
          +:+ " ended without flattening confirmed plan quantity and was re-armed") ≫= λ _,
        mret acc.

(** ** Protection follows the open quantity *)

Definition desired_qty (t : PlanTotals) (r : Rule) (rule_id : Z) : outcome Decimal :=
  if bool_decide (ru_kind r = rule_kind_value TARGET) && negb (ru_terminal_on_trigger r)
  then
    let fraction := match ru_fraction r with Some f => if dis_zero f then dzero else f | None => dzero end in
    product ← dmul (pt_entry t) fraction;
    rest ← dsub (dtrunc product) (filled_of t rule_id);
    capped ← dmax rest dzero;
    dmin capped (pt_remaining t)
  else Ok (pt_remaining t).

Definition resize_rule (t : PlanTotals) (acc : FillActivationResult * list Z) (rule_id : Z) : tx (FillActivationResult * list Z) :=
  let '(counts, touched) := acc in
  r ← get_rule rule_id;
  if negb (in_states [RS_PENDING; RS_ACTIVE] (ru_state r)) then mret acc
  else
    desired ← lift (desired_qty t r rule_id);
    none ← lift (dle desired dzero);
    if none : bool then mret acc
    else
      normalized ← lift (normalize_computed_order_decimal desired);
      match normalized with
      | None => mret acc
      | Some qty =>
          match resize_action (ru_action_json r) qty with
          | None => raise (ValueError ("invalid persisted exit action for rule " +:+ pretty rule_id))
          | Some encoded =>
              let was_pending := bool_decide (ru_state r = rule_state_value RS_PENDING) in
              let changed_payload := negb (bool_decide (encoded = ru_action_json r)) in
              if was_pending || changed_payload
              then
                put_rule rule_id (set_ru_action encoded (if was_pending then set_ru_state (rule_state_value RS_ACTIVE) r else r)) ≫= λ _,
                audit (if was_pending then "rule.activate" else "rule.resize") "rule" rule_id (rule_state_value RS_ACTIVE) ≫= λ _,
                mret (if was_pending then count_active true counts else count_resized true counts, ru_group_id r :: touched)
              else mret acc
          end
      end.

Definition activate_group (acc : FillActivationResult) (group_id : Z) : tx FillActivationResult :=
  g ← get_group group_id;
  if bool_decide (g_state g = rule_state_value RS_PENDING)
  then set_group_state group_id RS_ACTIVE None ≫= λ _, mret (count_group true acc)
  else mret acc.

Definition protect (t : PlanTotals) (exit_rules : list Z) (acc : FillActivationResult) : tx FillActivationResult :=
  open_ ← lift (dgt (pt_remaining t) dzero);
  if open_ : bool
  then
    resized ← tx_foldl (resize_rule t) (acc, []) exit_rules;
    let '(acc, touched) := resized in
    tx_foldl activate_group acc (sorted_ids (dedup touched))
  else mret acc.

(** ** Completion *)

Definition winning_rule (t : PlanTotals) (exit_rules : list Z) : outcome Z :=
  winners ← outcome_mapM (λ id, b ← dgt (filled_of t id) dzero; Ok (b : bool, id)) exit_rules;
  match omap (λ x : bool * Z, if x.1 then Some x.2 else None) winners with
  | [] => Raise (ValueError "max() iterable argument is empty")
  | w :: ws => Ok (foldl Z.max w ws)
  end.

Definition complete_rule (winner : Z) (acc : FillActivationResult) (rule_id : Z) : tx FillActivationResult :=
  r ← get_rule rule_id;
  if rule_id =? winner then changed ← set_rule_state rule_id RS_TRIGGERED; mret (count_settled changed acc)
  else if in_states [RS_PENDING; RS_ACTIVE; RS_PROCESSING] (ru_state r)
  then changed ← set_rule_state rule_id RS_CANCELED; mret (count_settled changed acc)
  else mret acc.

Definition complete_group (winner winner_group : Z) (group_id : Z) : tx () :=
  g ← get_group group_id;
  if group_id =? winner_group then set_group_state group_id RS_TRIGGERED (Some winner) ≫= λ _, mret ()
  else if bool_decide (g_state g = rule_state_value RS_TRIGGERED) then mret ()
  else set_group_state group_id RS_CANCELED None ≫= λ _, mret ().

Definition complete_plan (v : PlanView) (t : PlanTotals) (exit_rules : list Z) (nonterminal required : bool)
    (acc : FillActivationResult) : tx FillActivationResult :=
  entered ← lift (dgt (pt_entry t) dzero);
  exited ← lift (dgt (pt_exit t) dzero);
  if entered && exited && deq (pt_signed t) dzero && negb (pt_over_exited t) && negb nonterminal && negb required
  then
    winner ← lift (winning_rule t exit_rules);
    w ← get_rule winner;
    acc ← tx_foldl (complete_rule winner) acc (pv_rules v);
    tx_iter (complete_group winner (ru_group_id w)) (pv_groups v) ≫= λ _,
    plan ← get_plan (pv_plan_id v);
    if bool_decide (tp_status plan ∈ ["approved"; "protection_required"])
    then
      put_plan (pv_plan_id v) (set_tp_status "completed" plan) ≫= λ _,
      audit "plan.complete" "trade_plan" (tp_id plan) "completed" ≫= λ _,
      mret (count_completed true acc)
    else mret acc
  else mret acc.

(** * One plan, and all of them *)

Definition plan_nonterminal (v : PlanView) (d : Db) : bool :=
  existsb (λ x, match db_orders d !! x.1.2 with Some o => order_outstanding o | None => false end) (pv_proposals v).

Definition plan_latched (v : PlanView) (d : Db) : bool :=
  existsb (λ id, match db_groups d !! id with Some g => g_reconciliation_required g | None => false end) (pv_groups v).

Definition reconcile_plan (acc : FillActivationResult) (plan_id : Z) : tx FillActivationResult :=
  d0 ← read;
  let v := plan_view plan_id d0 in
  if bool_decide (pv_rules v = []) then mret acc
  else
    filled ← lift (plan_filled v);
    let entry_rules := rules_of v is_entry d0 in
    let exit_rules := rules_of v is_exit d0 in
    latch_untrusted v ≫= λ _,
    t ← lift (plan_quantities filled entry_rules exit_rules);
    store_totals v t ≫= λ _,
    trip_over_exit v t ≫= λ _,
    acc ← tx_foldl (settle_entry v t) acc entry_rules;
    acc ← tx_foldl (withdraw_intent v t) acc (pv_proposals v);
    d1 ← read;
    let nonterminal := plan_nonterminal v d1 in
    let required := plan_latched v d1 in
    acc ← late_residual v t exit_rules required acc;
    acc ← tx_foldl (settle_exit v t nonterminal) acc exit_rules;
    acc ← protect t exit_rules acc;
    complete_plan v t exit_rules nonterminal required acc.

Definition plan_ids (d : Db) : list Z :=
  dedup (omap (λ id, r ← db_rules d !! id; ru_plan_id r) (select_ids (λ _, true) (db_rules d))).

Definition reconcile_plans : tx FillActivationResult :=
  d ← read; tx_foldl reconcile_plan no_activation (plan_ids d).

End Plan.

Section Lifecycle.
Context `{Digest} (resize_action : string → Decimal → option string).

Definition reconcile_plan_lifecycle_in_session (now clock : time) (actor reason request_id : string) : tx FillActivationResult :=
  c ← lift (rule_context actor reason request_id);
  let '(actor, reason, request_id) := c in
  reconcile_plans resize_action now clock actor reason request_id.

Definition refresh_fill_activated_rules (now clock : time) (actor reason request_id : string) (d : Db)
    : outcome FillActivationResult * Db :=
  match rule_context actor reason request_id with
  | Raise e => (Raise e, d)
  | Ok (actor, reason, request_id) =>
      with_session (
        result ← reconcile_plan_lifecycle_in_session now clock actor reason request_id;
        commit ≫= λ _, mret result) d
  end.

Definition expire_proposal (now clock : time) (actor reason request_id : string) (order_id : Z) : tx () :=
  o ← get_order order_id;
  o' ← lift (transition o EXPIRED clock);
  put_order order_id (set_o_version (o_version o + 1) (set_o_updated_at now o')) ≫= λ _,
  rule_audit actor reason request_id "order.expire_ttl" "order" order_id (order_status_value EXPIRED).

(** Proposed or approved orders whose proposal has run out, in order id order. *)
Definition stale_orders (now : time) (d : Db) : list Z :=
  filter (λ id, match db_orders d !! id, db_proposals d !! id with
                | Some o, Some p => locally_cancelable o && is_expired p now
                | _, _ => false
                end = true) (select_ids (λ _, true) (db_orders d)).

Definition expire_stale_proposals (now clock : time) (actor reason request_id : string) (d : Db) : outcome Z * Db :=
  match rule_context actor reason request_id with
  | Raise e => (Raise e, d)
  | Ok (actor, reason, request_id) =>
      with_session (
        d0 ← read;
        let rows := stale_orders now d0 in
        tx_iter (expire_proposal now clock actor reason request_id) rows ≫= λ _,
        match rows with
        | [] => mret ()
        | _ => reconcile_plan_lifecycle_in_session now clock actor reason request_id ≫= λ _, mret ()
        end ≫= λ _,
        commit ≫= λ _, mret (Z.of_nat (length rows))) d
  end.

End Lifecycle.
