(* ===== verification/PlanLifecycleLogic.v ===== *)
(** How the stages of the plan lifecycle move the tables: identities and terms stay, orders only
    settle, versions and generations only grow, breakers are never cleared ([plan_moves]), and each
    stage stays within the rows of its plan ([within]). *)

From S2P Require Import Prelude PyDecimal Assets BrokerModels Breakers RiskRules RiskEngine.
From S2P Require Import Database Lifecycle SessionLogic BreakerStore OrderRepository RepositoryLogic SafetyState.
From S2P Require Import RuleRepository RuleProofs PlanTruth PlanLifecycle.
From Stdlib Require Import Ascii Lia.
Local Open Scope Z_scope.

(** * Rows *)

(** An order changes only by leaving the local states, and then needs no more than before. *)
Record order_settles (o o' : Order) : Prop := {
  os_evolves : order_evolves o o';
  os_local : locally_cancelable o' = true → o' = o;
  os_outstanding : order_outstanding o' = true → order_outstanding o = true;
  os_proposal : o_acceptance_state o' = o_acceptance_state o;
}.

#[export] Instance order_settles_preorder : PreOrder order_settles.
Proof.
  split; [by intros o|]. intros x y z [E1 L1 O1 P1] [E2 L2 O2 P2]. split; [by etrans| |by auto|congruence].
  intros Hz. pose proof (L2 Hz). subst z. auto.
Qed.

(** Only the state and the action of a rule change. *)
Definition rule_keeps (r r' : Rule) : Prop := r' = set_ru_action (ru_action_json r') (set_ru_state (ru_state r') r).

#[export] Instance rule_keeps_preorder : PreOrder rule_keeps.
Proof.
  split; [by intros []|]. unfold rule_keeps. intros x y z Hy Hz. rewrite Hz at 1. rewrite Hy. cbn. by destruct x.
Qed.

Lemma rule_keeps_fields r r' : rule_keeps r r' →
  ru_id r' = ru_id r ∧ ru_group_id r' = ru_group_id r ∧ ru_plan_id r' = ru_plan_id r ∧ ru_kind r' = ru_kind r
  ∧ ru_fraction r' = ru_fraction r ∧ ru_terminal_on_trigger r' = ru_terminal_on_trigger r.
Proof. unfold rule_keeps. intros ->. by destruct r. Qed.

Definition group_grows (g g' : RuleGroup) : Prop :=
  g_id g' = g_id g ∧ g_group_key g' = g_group_key g ∧ g_created_at g' = g_created_at g ∧ g_version g ≤ g_version g'.

#[export] Instance group_grows_preorder : PreOrder group_grows.
Proof. split; [by intros g|]. intros x y z (?&?&?&?) (?&?&?&?). repeat split; try congruence. lia. Qed.

Definition plan_forward (p p' : TradePlanRow) : Prop :=
  tp_id p' = tp_id p ∧ tp_symbol p' = tp_symbol p ∧ tp_action p' = tp_action p
  ∧ tp_residual_generation p ≤ tp_residual_generation p'.

#[export] Instance plan_forward_preorder : PreOrder plan_forward.
Proof. split; [by intros p|]. intros x y z (?&?&?&?) (?&?&?&?). repeat split; try congruence. lia. Qed.

(** * Databases *)

Record plan_moves (d d' : Db) : Prop := {
  pm_orders : rows_move order_settles (db_orders d) (db_orders d');
  pm_rules : rows_move rule_keeps (db_rules d) (db_rules d');
  pm_groups : rows_move group_grows (db_groups d) (db_groups d');
  pm_plans : rows_move plan_forward (db_plans d) (db_plans d');
  pm_proposals : db_proposals d' = db_proposals d;
  pm_fills : db_fills d' = db_fills d;
  pm_breakers : ∀ k r, db_breakers d !! k = Some r → ∃ r', db_breakers d' !! k = Some r' ∧ breaker_evolves r r';
  pm_audit : db_audit d `prefix_of` db_audit d';
  pm_cursors : db_cursors d' = db_cursors d;
  pm_startup : db_startup d' = db_startup d;
}.

#[export] Instance plan_moves_preorder : PreOrder plan_moves.
Proof.
  split.
  - intros d. split; try done; [apply rows_move_refl, _..|]. intros k r Hr. exists r. by repeat split.
  - intros x y z [] []. split; try congruence; try (by eapply rows_move_trans; [apply _|..]); [|by etrans].
    intros k r Hr. edestruct pm_breakers0 as (r1 & H1 & [T1 G1]); [done|].
    edestruct pm_breakers1 as (r2 & H2 & [T2 G2]); [done|]. exists r2. split; [done|]. split; [auto|lia].
Qed.

Definition generation_of (id : Z) (d : Db) : option Z := tp_residual_generation <$> db_plans d !! id.

Definition latched (id : Z) (d : Db) : Prop := ∃ g, db_groups d !! id = Some g ∧ g_reconciliation_required g = true.

(** The rows a stage may change: orders, rules, plans, the generation of plans, and whether it may
    lift a reconciliation latch. *)
Record scope : Type := mkStage {
  sc_orders : Z → Prop;
  sc_rules : Z → Prop;
  sc_plans : Z → Prop;
  sc_generations : Z → Prop;
  sc_unlatch : Prop;
}.

(** ... changing only the rows in scope. *)
Record within (S : scope) (d d' : Db) : Prop := {
  wi_moves : plan_moves d d';
  wi_orders : ∀ id, ¬ sc_orders S id → db_orders d' !! id = db_orders d !! id;
  wi_rules : ∀ id, ¬ sc_rules S id → db_rules d' !! id = db_rules d !! id;
  wi_plans : ∀ id, ¬ sc_plans S id → db_plans d' !! id = db_plans d !! id;
  wi_generations : ∀ id, ¬ sc_generations S id → generation_of id d' = generation_of id d;
  wi_latches : ¬ sc_unlatch S → ∀ id, latched id d → latched id d';
}.

#[export] Instance within_preorder S : PreOrder (within S).
Proof.
  split; [intros d; by split|]. intros x y z [M1 O1 R1 P1 G1 L1] [M2 O2 R2 P2 G2 L2]. split; [by etrans|..].
  - intros id Hid. by rewrite O2, O1.
  - intros id Hid. by rewrite R2, R1.
  - intros id Hid. by rewrite P2, P1.
  - intros id Hid. by rewrite G2, G1.
  - intros Hn id Hl. auto.
Qed.

Definition nothing : scope := mkStage (λ _, False) (λ _, False) (λ _, False) (λ _, False) False.

Definition among (l : list Z) (x : Z) : Prop := x ∈ l.
Definition only (k x : Z) : Prop := x = k.

(** ** One write *)

Section Writes.
Context (S : scope).

Lemma within_audit d evs : within S d (set_db_audit (db_audit d ++ evs) d).
Proof.
  split; try done. split; try done; cbn; [apply rows_move_refl, _..| |by apply prefix_app_r].
  intros k r Hr. exists r. by repeat split.
Qed.

Lemma within_rule d id r r' :
  sc_rules S id → db_rules d !! id = Some r → rule_keeps r r' → within S d (set_db_rules (<[id := r']> (db_rules d)) d).
Proof.
  intros HR Hr Hk. split; try done; cbn; [|intros k Hn; rewrite lookup_insert_ne; [done|by intros ->]].
  split; try done; cbn; [apply rows_move_refl, _|by eapply rows_move_insert; [apply _|..]|apply rows_move_refl, _..|].
  intros k x Hx. exists x. by repeat split.
Qed.

Lemma within_order d id o o' :
  sc_orders S id → db_orders d !! id = Some o → order_settles o o' → within S d (set_db_orders (<[id := o']> (db_orders d)) d).
Proof.
  intros HO Ho Hk. split; try done; cbn; [|intros k Hn; rewrite lookup_insert_ne; [done|by intros ->]].
  split; try done; cbn; [by eapply rows_move_insert; [apply _|..]|apply rows_move_refl, _..|].
  intros k x Hx. exists x. by repeat split.
Qed.

Lemma within_group d id g g' :
  db_groups d !! id = Some g → group_grows g g' →
  sc_unlatch S ∨ (g_reconciliation_required g = true → g_reconciliation_required g' = true) →
  within S d (set_db_groups (<[id := g']> (db_groups d)) d).
Proof.
  intros Hg Hk Hl. split; try done; cbn.
  - split; try done; cbn; [apply rows_move_refl, _..|by eapply rows_move_insert; [apply _|..]|apply rows_move_refl, _|].
    intros k x Hx. exists x. by repeat split.
  - intros Hn k (x & Hx & Hq). destruct (decide (k = id)) as [->|Hne]; [|exists x; cbn; by rewrite lookup_insert_ne].
    exists g'. cbn. rewrite lookup_insert_eq. simplify_eq. naive_solver.
Qed.

Lemma within_plan d id p p' :
  sc_plans S id → db_plans d !! id = Some p → plan_forward p p' →
  sc_generations S id ∨ tp_residual_generation p' = tp_residual_generation p →
  within S d (set_db_plans (<[id := p']> (db_plans d)) d).
Proof.
  intros HP Hp Hk Hg. split; try done; cbn; [|intros k Hn; rewrite lookup_insert_ne; [done|by intros ->]|].
  - split; try done; cbn; [apply rows_move_refl, _..|by eapply rows_move_insert; [apply _|..]|].
    intros k x Hx. exists x. by repeat split.
  - intros k Hn. unfold generation_of. cbn. destruct (decide (k = id)) as [->|Hne]; [|by rewrite lookup_insert_ne].
    rewrite lookup_insert_eq, Hp. cbn. f_equal. naive_solver.
Qed.

Lemma within_trip d scope reason actor request_id now audit_reason :
  within S d (tripped_db scope reason actor request_id now audit_reason d).
Proof.
  unfold tripped_db. split; try done. split; try done; cbn; [apply rows_move_refl, _..| |by apply prefix_app_r].
  intros k r Hr. destruct (decide (scope_key scope = k)) as [<-|Hne].
  - eexists. rewrite lookup_insert_eq, Hr. split; [reflexivity|]. split; [done|cbn; lia].
  - exists r. rewrite lookup_insert_ne by done. by repeat split.
Qed.
End Writes.

(** * Transactions *)

Lemma get_rule_Ok id s r s' : get_rule id s = (Ok r, s') → db_rules (working s) !! id = Some r ∧ s' = s.
Proof. unfold get_rule, mbind, tx_bind, read. destruct (db_rules (working s) !! id); [by intros [= <- <-]|done]. Qed.
Lemma get_group_Ok id s g s' : get_group id s = (Ok g, s') → db_groups (working s) !! id = Some g ∧ s' = s.
Proof. unfold get_group, mbind, tx_bind, read. destruct (db_groups (working s) !! id); [by intros [= <- <-]|done]. Qed.
Lemma get_order_Ok id s o s' : get_order id s = (Ok o, s') → db_orders (working s) !! id = Some o ∧ s' = s.
Proof. unfold get_order, mbind, tx_bind, read. destruct (db_orders (working s) !! id); [by intros [= <- <-]|done]. Qed.
Lemma get_plan_Ok id s p s' : get_plan id s = (Ok p, s') → db_plans (working s) !! id = Some p ∧ s' = s.
Proof. unfold get_plan, mbind, tx_bind, read. destruct (db_plans (working s) !! id); [by intros [= <- <-]|done]. Qed.

Section Stages.
Context `{Digest} (now clock : time) (actor reason request_id : string).

Section Rows.
Context (S : scope).

Lemma moves_rule_audit action tt tid code : moves (within S) (rule_audit actor reason request_id action tt tid code).
Proof. intros s. split; [done|]. apply within_audit. Qed.

Lemma moves_trip scope detail : moves (within S) (trip_plan now actor reason request_id scope detail).
Proof.
  unfold trip_plan. apply moves_bind; [apply _| |intros a; apply moves_ret, _]. intros s.
  destruct (trip_inputs_ok detail actor request_id (Some reason)) eqn:Hin.
  - unfold moves_at. rewrite trip_in_session_ok by done. split; [done|]. apply within_trip.
  - destruct (trip_in_session_bad scope detail actor request_id now (Some reason) s Hin) as [m E]. unfold moves_at. by rewrite E.
Qed.

(** Reading a row: the continuation starts from that row. *)
Lemma moves_at_get_rule {A} id (f : Rule → tx A) s :
  (∀ r, db_rules (working s) !! id = Some r → moves_at (within S) (f r) s) → moves_at (within S) (get_rule id ≫= f) s.
Proof.
  intros Hf. unfold get_rule, moves_at, mbind, tx_bind, read in *. destruct (db_rules (working s) !! id) as [r|]; [by apply Hf|done].
Qed.
Lemma moves_at_get_group {A} id (f : RuleGroup → tx A) s :
  (∀ g, db_groups (working s) !! id = Some g → moves_at (within S) (f g) s) → moves_at (within S) (get_group id ≫= f) s.
Proof.
  intros Hf. unfold get_group, moves_at, mbind, tx_bind, read in *. destruct (db_groups (working s) !! id) as [r|]; [by apply Hf|done].
Qed.
Lemma moves_at_get_order {A} id (f : Order → tx A) s :
  (∀ o, db_orders (working s) !! id = Some o → moves_at (within S) (f o) s) → moves_at (within S) (get_order id ≫= f) s.
Proof.
  intros Hf. unfold get_order, moves_at, mbind, tx_bind, read in *. destruct (db_orders (working s) !! id) as [r|]; [by apply Hf|done].
Qed.
Lemma moves_at_get_plan {A} id (f : TradePlanRow → tx A) s :
  (∀ p, db_plans (working s) !! id = Some p → moves_at (within S) (f p) s) → moves_at (within S) (get_plan id ≫= f) s.
Proof.
  intros Hf. unfold get_plan, moves_at, mbind, tx_bind, read in *. destruct (db_plans (working s) !! id) as [r|]; [by apply Hf|done].
Qed.

Lemma rule_keeps_state st r : rule_keeps r (set_ru_state st r).
Proof. by destruct r. Qed.
Lemma rule_keeps_action act st r : rule_keeps r (set_ru_action act (set_ru_state st r)).
Proof. by destruct r. Qed.
Lemma group_grows_end st t g : group_grows g (end_group st t now g).
Proof. repeat split. cbn. lia. Qed.

Lemma moves_set_rule_state id st : sc_rules S id → moves (within S) (set_rule_state actor reason request_id id st).
Proof.
  intros HR s. apply moves_at_get_rule. intros r Hr. case_bool_decide; [by apply moves_ret, _|].
  apply moves_at_write; [apply _|by eapply within_rule; [..|apply rule_keeps_state]|].
  apply moves_bind; [apply _|apply moves_rule_audit|intros ?; apply moves_ret, _].
Qed.

Lemma moves_set_group_state id st t : moves (within S) (set_group_state now actor reason request_id id st t).
Proof.
  intros s. apply moves_at_get_group. intros g Hg. destruct (_ && _); [by apply moves_ret, _|].
  apply moves_at_write; [apply _|eapply within_group; [done|apply group_grows_end|by right]|].
  apply moves_bind; [apply _|apply moves_rule_audit|intros ?; apply moves_ret, _].
Qed.

Lemma moves_set_group_required id b : sc_unlatch S ∨ b = true → moves (within S) (set_group_required now actor reason request_id id b).
Proof.
  intros Hb s. apply moves_at_get_group. intros g Hg. destruct (Bool.eqb _ _); [by apply moves_ret, _|].
  apply moves_at_write; [apply _|eapply within_group; [done|done|naive_solver]|].
  apply moves_bind; [apply _|apply moves_rule_audit|intros ?; apply moves_ret, _].
Qed.
End Rows.

#[local] Hint Resolve moves_rule_audit moves_trip moves_set_rule_state moves_set_group_state moves_set_group_required : moves.
#[local] Hint Resolve within_preorder : moves.

Lemma moves_latch_untrusted S v : moves (within S) (latch_untrusted now actor reason request_id v).
Proof. unfold latch_untrusted. moves. Qed.

Lemma moves_trip_over_exit S v t : moves (within S) (trip_over_exit now actor reason request_id v t).
Proof. unfold trip_over_exit. moves. Qed.

(** Ending an order through the state machine. *)
Lemma transition_settles o t o' o'' :
  t ∈ [CANCELED; REJECTED; EXPIRED] → transition o t clock = Ok o' →
  order_evolves o' o'' → o_status o'' = o_status o' → o_acceptance_state o'' = o_acceptance_state o' → order_settles o o''.
Proof.
  intros Ht Htr He Hst Hacc. unfold transition in Htr. apply outcome_bind_Ok in Htr as (st & Hs & Htr).
  apply order_status_of_Ok in Hs. destruct (can_transition st t) eqn:Hcan; [|done]. injection Htr as <-. cbn in Hst, Hacc.
  assert (order_evolves o (set_o_updated_at clock (set_o_status (order_status_value t) o))) as Hev.
  { split; try done; cbn.
    - apply rtc_once. exists st, t. split_and!; [done|done|by left].
    - intros [Ha _]. split; [done|]. cbn. unfold has_status. cbn.
      repeat (apply elem_of_cons in Ht as [->|Ht]; [done|]). by apply elem_of_nil in Ht. }
  split; [by etrans| | |done].
  - unfold locally_cancelable. rewrite Hst. repeat (apply elem_of_cons in Ht as [->|Ht]; [done|]). by apply elem_of_nil in Ht.
  - unfold order_outstanding. rewrite Hst, Hacc. intros Ho. apply orb_true_iff in Ho as [Ho|Ho]; [|by rewrite Ho, orb_true_r].
    repeat (apply elem_of_cons in Ht as [->|Ht]; [done|]). by apply elem_of_nil in Ht.
Qed.

Lemma trip_keeps_plan scope detail s s' id :
  trip_plan now actor reason request_id scope detail s = (Ok (), s') → db_plans (working s') !! id = db_plans (working s) !! id.
Proof.
  intros Ht. destruct (moves_trip nothing scope detail s) as [_ Hw]. rewrite Ht in Hw. apply (wi_plans _ _ _ Hw). by intros [].
Qed.

Section Stage.
Context (S : scope).

Lemma moves_store_totals v t : sc_plans S (pv_plan_id v) → sc_generations S (pv_plan_id v) → moves (within S) (store_totals actor reason request_id v t).
Proof.
  intros HP HG s. apply moves_at_read. destruct (db_plans (working s) !! pv_plan_id v) as [plan|] eqn:Hp; [|by apply moves_raise, _].
  destruct (_ && _); [by apply moves_ret, _|]. apply moves_at_write; [apply _|eapply within_plan; [done|done| |by left]|apply moves_rule_audit].
  repeat split. cbn. lia.
Qed.

Lemma moves_settle_entry v t acc id : sc_rules S id → moves (within S) (settle_entry now actor reason request_id v t acc id).
Proof.
  intros HR s. apply moves_at_get_rule. intros r Hr. apply moves_at_read. destruct (_ || _); [by apply moves_ret, _|].
  apply moves_at_lift; [apply _|]. intros target _. apply moves_here. moves.
Qed.

Lemma moves_withdraw v t acc x : sc_orders S x.1.2 → sc_rules S x.2 → moves (within S) (withdraw_intent now clock actor reason request_id v t acc x).
Proof.
  destruct x as [[p oid] rid]. cbn. intros HO HR s. apply moves_at_get_rule. intros r Hr. apply moves_at_get_plan. intros plan Hp.
  apply moves_at_get_order. intros o Ho. apply moves_at_lift; [apply _|]. intros b _.
  destruct (negb b || negb (locally_cancelable o)) eqn:Hb; [by apply moves_ret, _|]. apply orb_false_iff in Hb as [_ Hl%negb_false_iff].
  apply moves_at_lift; [apply _|]. intros o' Ho'. apply moves_at_write; [apply _| |moves].
  eapply within_order; [done..|]. eapply transition_settles; [|done|by split|done|done]. case_bool_decide; set_solver.
Qed.

Lemma moves_rearm req acc id : sc_rules S id → sc_unlatch S ∨ req = true → moves (within S) (rearm_rule now actor reason request_id req acc id).
Proof. intros HR HL. unfold rearm_rule. intros s. apply moves_at_get_rule. intros r Hr. apply moves_here. moves. Qed.

Lemma moves_late_residual v t ids req acc : sc_plans S (pv_plan_id v) → (∀ id, id ∈ ids → sc_rules S id) → sc_unlatch S ∨ req = true →
  moves (within S) (late_residual now actor reason request_id v t ids req acc).
Proof.
  intros HP HR HL s. apply moves_at_get_plan. intros plan Hp. apply moves_at_lift; [apply _|]. intros b _.
  destruct (_ && _); [|by apply moves_ret, _].
  apply moves_at_bind; [apply _|apply moves_trip|]. intros [] s1 H1. apply trip_keeps_plan with (id := pv_plan_id v) in H1. rewrite Hp in H1.
  apply moves_at_bind; [apply _|apply moves_trip|]. intros [] s2 H2. apply trip_keeps_plan with (id := pv_plan_id v) in H2. rewrite H1 in H2.
  apply moves_at_write; [apply _|eapply within_plan; [done|done|done|by right]|].
  apply moves_bind; [apply _|apply moves_rule_audit|intros _]. apply moves_foldl_in; [apply _|]. intros. apply moves_rearm; auto.
Qed.

Lemma moves_settle_exit v t nt acc id : sc_rules S id → moves (within S) (settle_exit now actor reason request_id v t nt acc id).
Proof.
  intros HR s. apply moves_at_get_rule. intros r Hr. apply moves_at_read. destruct (_ || _); [by apply moves_ret, _|].
  apply moves_here. moves.
Qed.

Lemma moves_resize resize_action t acc id : sc_rules S id → moves (within S) (resize_rule resize_action actor reason request_id t acc id).
Proof.
  intros HR s. destruct acc as [counts touched]. apply moves_at_get_rule. intros r Hr. destruct (negb _); [by apply moves_ret, _|].
  apply moves_at_lift; [apply _|]. intros desired _. apply moves_at_lift; [apply _|]. intros [] _; [by apply moves_ret, _|].
  apply moves_at_lift; [apply _|]. intros [q|] _; [|by apply moves_ret, _].
  destruct (resize_action _ _) as [enc|]; [|by apply moves_raise, _]. cbv zeta. destruct (_ || _); [|by apply moves_ret, _].
  apply moves_at_write; [apply _|eapply within_rule; [done..|]|moves]. case_bool_decide; [apply rule_keeps_action|]. by destruct r.
Qed.

Lemma moves_activate acc id : moves (within S) (activate_group now actor reason request_id acc id).
Proof. intros s. apply moves_at_get_group. intros g _. apply moves_here. moves. Qed.

Lemma moves_protect resize_action t ids acc : (∀ id, id ∈ ids → sc_rules S id) → moves (within S) (protect resize_action now actor reason request_id t ids acc).
Proof.
  intros HR s. apply moves_at_lift; [apply _|]. intros [] _; apply moves_here; [|by apply moves_ret, _].
  apply moves_bind; [apply _| |intros [acc' touched]].
  - apply moves_foldl_in; [apply _|]. intros. by apply moves_resize, HR.
  - apply moves_foldl; [apply _|]. intros. apply moves_activate.
Qed.

Lemma moves_complete_rule w acc id : sc_rules S id → moves (within S) (complete_rule actor reason request_id w acc id).
Proof. intros HR s. apply moves_at_get_rule. intros r _. apply moves_here. moves. Qed.

Lemma moves_complete_group w wg id : moves (within S) (complete_group now actor reason request_id w wg id).
Proof. intros s. apply moves_at_get_group. intros r _. apply moves_here. moves. Qed.

Lemma moves_complete_plan v t ids nt req acc : sc_plans S (pv_plan_id v) → (∀ id, id ∈ pv_rules v → sc_rules S id) →
  moves (within S) (complete_plan now actor reason request_id v t ids nt req acc).
Proof.
  intros HP HR s. apply moves_at_lift; [apply _|]. intros b1 _. apply moves_at_lift; [apply _|]. intros b2 _.
  destruct (_ && _); [|by apply moves_ret, _]. apply moves_at_lift; [apply _|]. intros w _. apply moves_at_get_rule. intros r _.
  apply moves_here. apply moves_bind; [apply _| |intros acc'].
  { apply moves_foldl_in; [apply _|]. intros. by apply moves_complete_rule, HR. }
  apply moves_bind; [apply _|apply moves_iter; [apply _|intros; apply moves_complete_group]|intros []]. intros s'.
  apply moves_at_get_plan. intros plan Hp. case_bool_decide; [|by apply moves_ret, _].
  apply moves_at_write; [apply _|eapply within_plan; [done|done|done|by right]|moves].
Qed.
End Stage.
End Stages.
