(* ===== verification/PlanLifecycleProofs.v ===== *)
(** The plan lifecycle follows the state machine, withdraws obsolete intents, sizes protection to
    the trusted open quantity and completes a plan only when it is flat. *)

From S2P Require Import Prelude PyDecimal Assets BrokerModels Breakers RiskRules RiskEngine.
From S2P Require Import Database Lifecycle SessionLogic BreakerStore OrderRepository RepositoryLogic SafetyState.
From S2P Require Import RuleRepository RuleProofs PlanTruth PlanTruthProofs PlanLifecycle PlanLifecycleLogic.
From Stdlib Require Import Ascii Lia.
Local Open Scope Z_scope.

(** * The view of a plan is stable *)

Lemma select_ids_NoDup {A} (pred : A → bool) (m : gmap Z A) : NoDup (select_ids pred m).
Proof.
  unfold select_ids, sorted_ids. rewrite (merge_sort_Permutation Z.le).
  eapply sublist_NoDup; [apply (NoDup_fst_map_to_list m)|]. apply (fmap_sublist fst), sublist_filter.
Qed.

Lemma select_ids_move {A} (R : A → A → Prop) (pred pred' : A → bool) (m m' : gmap Z A) :
  rows_move R m m' → (∀ x y, R x y → pred' y = pred x) → select_ids pred' m' = select_ids pred m.
Proof.
  intros Hm Hp. apply (Sorted_unique Z.le); [apply Sorted_merge_sort, _..|].
  apply NoDup_Permutation; [apply select_ids_NoDup..|]. intros id. rewrite !select_ids_elem. specialize (Hm id).
  destruct (m !! id) as [x|], (m' !! id) as [y|]; try done; [|naive_solver].
  specialize (Hp x y Hm). split; intros (z & [= <-] & Hz); eexists; split; [done|congruence|done|congruence].
Qed.

Lemma omap_ext {A B} (f g : A → option B) (l : list A) : (∀ x, f x = g x) → omap f l = omap g l.
Proof. intros Hfg. induction l as [|x l IH]; [done|]. cbn. by rewrite Hfg, IH. Qed.

Lemma rows_move_fmap {A B} (R : A → A → Prop) (f : A → B) (m m' : gmap Z A) k :
  rows_move R m m' → (∀ x y, R x y → f y = f x) → f <$> m' !! k = f <$> m !! k.
Proof. intros Hm Hf. specialize (Hm k). destruct (m !! k), (m' !! k); try done. cbn. f_equal. by apply Hf. Qed.

Lemma plan_view_stable p d d' : plan_moves d d' → plan_view p d' = plan_view p d.
Proof.
  intros M. unfold plan_view.
  assert (∀ q, select_ids (λ r, bool_decide (ru_plan_id r = Some q)) (db_rules d') = select_ids (λ r, bool_decide (ru_plan_id r = Some q)) (db_rules d)) as Hr.
  { intros q. eapply select_ids_move; [apply M|]. intros x y (_ & _ & -> & _)%rule_keeps_fields. done. }
  rewrite Hr. set (rules := select_ids _ (db_rules d)).
  assert (omap (λ id, ru_group_id <$> db_rules d' !! id) rules = omap (λ id, ru_group_id <$> db_rules d !! id) rules) as Hg.
  { apply omap_ext. intros id. eapply rows_move_fmap; [apply M|]. by intros x y (_ & ? & _)%rule_keeps_fields. }
  rewrite Hg. set (gids := omap _ rules).
  assert (select_ids (λ g, bool_decide (g_id g ∈ gids)) (db_groups d') = select_ids (λ g, bool_decide (g_id g ∈ gids)) (db_groups d)) as Hs.
  { eapply select_ids_move; [apply M|]. by intros x y (-> & _). }
  rewrite Hs. unfold proposals_by_id. rewrite (pm_proposals _ _ M), (pm_fills _ _ M).
  match goal with |- mkPlanView _ _ _ ?a _ = mkPlanView _ _ _ ?b _ => assert (a = b) as -> end; [|done].
  apply omap_ext. intros pr. assert (o_id <$> db_orders d' !! p_order_id pr = o_id <$> db_orders d !! p_order_id pr) as Ho.
  { eapply rows_move_fmap; [apply M|]. by intros x y [[]]. }
  destruct (db_orders d' !! p_order_id pr) as [o'|], (db_orders d !! p_order_id pr) as [o|]; try done. cbn in *. injection Ho as ->. done.
Qed.

Lemma rules_of_stable v pred d d' :
  plan_moves d d' → (∀ x y, ru_kind y = ru_kind x → pred y = pred x) → rules_of v pred d' = rules_of v pred d.
Proof.
  intros M Hp. unfold rules_of. induction (pv_rules v) as [|id l IH]; [done|]. rewrite !filter_cons, IH.
  pose proof (pm_rules _ _ M id) as Hid. destruct (db_rules d !! id) as [x|], (db_rules d' !! id) as [y|]; try done.
  rewrite (Hp x y); [done|]. by apply rule_keeps_fields.
Qed.

(** What the plan's trusted fills amount to. *)
Definition plan_totals_of (p : Z) (d : Db) : outcome PlanTotals :=
  filled ← plan_filled (plan_view p d);
  plan_quantities filled (rules_of (plan_view p d) is_entry d) (rules_of (plan_view p d) is_exit d).

Lemma is_entry_kind x y : ru_kind y = ru_kind x → is_entry y = is_entry x.
Proof. unfold is_entry. by intros ->. Qed.
Lemma is_exit_kind x y : ru_kind y = ru_kind x → is_exit y = is_exit x.
Proof. unfold is_exit. by intros ->. Qed.

Lemma plan_totals_stable p d d' : plan_moves d d' → plan_totals_of p d' = plan_totals_of p d.
Proof.
  intros M. unfold plan_totals_of. rewrite (plan_view_stable p d d' M).
  rewrite (rules_of_stable _ is_entry d d' M is_entry_kind), (rules_of_stable _ is_exit d d' M is_exit_kind). done.
Qed.

Lemma rules_of_sub v pred d id : id ∈ rules_of v pred d → id ∈ pv_rules v.
Proof. unfold rules_of. by intros [_ ?]%list_elem_of_filter. Qed.

Lemma proposal_rule p d x : x ∈ pv_proposals (plan_view p d) → x.2 ∈ pv_rules (plan_view p d).
Proof.
  unfold plan_view. cbn. intros (pr & _ & Hx)%list_elem_of_omap.
  apply bind_Some in Hx as (o & _ & Hx). apply bind_Some in Hx as (rid & _ & Hx). case_bool_decide; [|done]. by simplify_eq.
Qed.

Lemma plan_rule_of p d id : id ∈ pv_rules (plan_view p d) ↔ ∃ r, db_rules d !! id = Some r ∧ ru_plan_id r = Some p.
Proof. unfold plan_view. cbn. rewrite select_ids_elem. by setoid_rewrite bool_decide_eq_true. Qed.

(** * One plan *)

Section Proofs.
Context `{Digest} (resize_action : string → Decimal → option string).

(** The rows a plan may change. *)
Definition plan_orders (v : PlanView) : list Z := map (λ x, x.1.2) (pv_proposals v).
Definition in_plan (v : PlanView) : Db → Db → Prop := within (mkStage (among (plan_orders v)) (among (pv_rules v)) (only (pv_plan_id v)) (only (pv_plan_id v)) True).

#[local] Instance in_plan_preorder v : PreOrder (in_plan v).
Proof. unfold in_plan. apply _. Qed.

Section Plan.
Context (now clock : time) (actor reason request_id : string).

Abbreviation reconcile := (reconcile_plan resize_action now clock actor reason request_id).

Lemma withdraw_in_plan p d v t acc x :
  v = plan_view p d → x ∈ pv_proposals v → moves (in_plan v) (withdraw_intent now clock actor reason request_id v t acc x).
Proof.
  intros -> Hx. unfold in_plan. apply moves_withdraw; [|by apply proposal_rule]. apply list_elem_of_fmap. by exists x.
Qed.

(** The successful run of one plan, stage by stage. *)
Record plan_run (p : Z) (s s' : Session) (v : PlanView) (t : PlanTotals) : Prop := {
  pr_view : v = plan_view p (working s);
  pr_totals : plan_totals_of p (working s) = Ok t;
  pr_stages : ∃ s1 s2 s3 s4 s5 s6 s7 s8 a4 a5 a6 a7 a8 acc acc',
    let entry_rules := rules_of v is_entry (working s) in
    let exit_rules := rules_of v is_exit (working s) in
    latch_untrusted now actor reason request_id v s = (Ok (), s1)
    ∧ store_totals actor reason request_id v t s1 = (Ok (), s2)
    ∧ trip_over_exit now actor reason request_id v t s2 = (Ok (), s3)
    ∧ tx_foldl (settle_entry now actor reason request_id v t) acc entry_rules s3 = (Ok a4, s4)
    ∧ tx_foldl (withdraw_intent now clock actor reason request_id v t) a4 (pv_proposals v) s4 = (Ok a5, s5)
    ∧ late_residual now actor reason request_id v t exit_rules (plan_latched v (working s5)) a5 s5 = (Ok a6, s6)
    ∧ tx_foldl (settle_exit now actor reason request_id v t (plan_nonterminal v (working s5))) a6 exit_rules s6 = (Ok a7, s7)
    ∧ protect resize_action now actor reason request_id t exit_rules a7 s7 = (Ok a8, s8)
    ∧ complete_plan now actor reason request_id v t exit_rules (plan_nonterminal v (working s5)) (plan_latched v (working s5)) a8 s8
      = (Ok acc', s');
}.

Lemma reconcile_plan_inv acc p s acc' s' :
  pv_rules (plan_view p (working s)) ≠ [] → reconcile acc p s = (Ok acc', s') →
  ∃ t, plan_run p s s' (plan_view p (working s)) t.
Proof.
  intros Hne Hrun. unfold reconcile_plan in Hrun. apply tx_bind_Ok in Hrun as (d0 & s0 & [= <- <-] & Hrun). cbv zeta in Hrun.
  rewrite bool_decide_false in Hrun by done.
  apply tx_bind_Ok in Hrun as (filled & s0 & Hf & Hrun). unfold lift in Hf. injection Hf as Hf <-.
  apply tx_bind_Ok in Hrun as ([] & s1 & H1 & Hrun). apply tx_bind_Ok in Hrun as (t & s1' & Ht & Hrun). unfold lift in Ht. injection Ht as Ht <-.
  apply tx_bind_Ok in Hrun as ([] & s2 & H2 & Hrun). apply tx_bind_Ok in Hrun as ([] & s3 & H3 & Hrun).
  apply tx_bind_Ok in Hrun as (a4 & s4 & H4 & Hrun). apply tx_bind_Ok in Hrun as (a5 & s5 & H5 & Hrun).
  apply tx_bind_Ok in Hrun as (d1 & s5' & [= <- <-] & Hrun). cbv zeta in Hrun.
  apply tx_bind_Ok in Hrun as (a6 & s6 & H6 & Hrun). apply tx_bind_Ok in Hrun as (a7 & s7 & H7 & Hrun).
  apply tx_bind_Ok in Hrun as (a8 & s8 & H8 & Hrun).
  exists t. split; [done|by unfold plan_totals_of; rewrite Hf|].
  exists s1, s2, s3, s4, s5, s6, s7, s8, a4, a5, a6, a7, a8, acc, acc'. cbv zeta. split_and!; done.
Qed.

Lemma moves_reconcile_plan acc p s : moves_at (in_plan (plan_view p (working s))) (reconcile acc p) s.
Proof.
  unfold reconcile_plan. apply moves_at_read. cbv zeta. set (v := plan_view p (working s)). case_bool_decide; [by apply moves_ret, _|].
  apply moves_here. apply moves_bind; [apply _|by apply moves_lift, _|intros filled].
  apply moves_bind; [apply _|apply moves_latch_untrusted|intros []]. apply moves_bind; [apply _|by apply moves_lift, _|intros t].
  apply moves_bind; [apply _|by apply moves_store_totals|intros []]. apply moves_bind; [apply _|apply moves_trip_over_exit|intros []].
  assert (∀ pred id, id ∈ rules_of v pred (working s) → among (pv_rules v) id) as Hsub by (intros ? ?; apply rules_of_sub).
  apply moves_bind; [apply _| |intros a4]. { apply moves_foldl_in; [apply _|]. intros. eapply moves_settle_entry, Hsub. done. }
  apply moves_bind; [apply _| |intros a5]. { apply moves_foldl_in; [apply _|]. intros. by eapply withdraw_in_plan. }
  apply moves_bind; [apply _|by apply moves_read, _|intros d1].
  apply moves_bind; [apply _| |intros a6]. { apply moves_late_residual; [done| |by left]. intros. by eapply Hsub. }
  apply moves_bind; [apply _| |intros a7]. { apply moves_foldl_in; [apply _|]. intros. eapply moves_settle_exit, Hsub. done. }
  apply moves_bind; [apply _| |intros a8]. { apply moves_protect. intros. by eapply Hsub. }
  by apply moves_complete_plan.
Qed.

Lemma moves_reconcile acc p : moves plan_moves (reconcile acc p).
Proof. intros s. destruct (moves_reconcile_plan acc p s) as [? [? _ _ _ _ _]]. done. Qed.

Lemma moves_reconcile_plans : moves plan_moves (reconcile_plans resize_action now clock actor reason request_id).
Proof.
  unfold reconcile_plans. apply moves_bind; [apply _|by apply moves_read, _|intros d]. apply moves_foldl; [apply _|]. intros. apply moves_reconcile.
Qed.
End Plan.

(** * Sessions *)

Lemma session_moves {A B} (R : Db → Db → Prop) `{!PreOrder R} (m : tx A) (f : A → B) d r d' :
  moves R m → with_session (x ← m; commit ≫= λ _, mret (f x)) d = (r, d') →
  R d d' ∧ match r with
           | Ok b => ∃ a s', m (mkSession d d) = (Ok a, s') ∧ b = f a ∧ d' = working s'
           | Raise _ => d' = d
           end.
Proof.
  intros Hm. unfold with_session, mbind, tx_bind. destruct (Hm (mkSession d d)) as [H1 H2].
  destruct (m (mkSession d d)) as [[a|e] s'] eqn:E; cbn in *; intros [= <- <-]; [|by subst].
  split; [done|]. by exists a, s'.
Qed.

Lemma moves_reconcile_in_session now clock actor reason request_id :
  moves plan_moves (reconcile_plan_lifecycle_in_session resize_action now clock actor reason request_id).
Proof.
  unfold reconcile_plan_lifecycle_in_session. apply moves_bind; [apply _|by apply moves_lift, _|]. intros [[a b] c]. apply moves_reconcile_plans.
Qed.

Lemma moves_expire_proposal now clock actor reason request_id id :
  moves plan_moves (expire_proposal now clock actor reason request_id id).
Proof.
  apply (moves_weaken (within (mkStage (λ _, True) (λ _, False) (λ _, False) (λ _, False) False))); [by intros d d' [? _ _ _ _ _]|]. intros s.
  apply moves_at_get_order. intros o Ho. apply moves_at_lift; [apply _|]. intros o' Ho'.
  apply moves_at_write; [apply _| |apply moves_rule_audit]. eapply within_order; [done..|].
  eapply transition_settles; [|exact Ho'|split; try done|done|done]; [set_solver|]. cbn. unfold transition in Ho'.
  apply outcome_bind_Ok in Ho' as (st & _ & Ho'). destruct (can_transition _ _); [|done]. injection Ho' as <-. cbn. lia.
Qed.

Lemma refresh_moves now clock actor reason request_id d r d' :
  refresh_fill_activated_rules resize_action now clock actor reason request_id d = (r, d') →
  plan_moves d d' ∧ match r with
                    | Ok acc => ∃ a b c s', rule_context actor reason request_id = Ok (a, b, c)
                        ∧ reconcile_plan_lifecycle_in_session resize_action now clock a b c (mkSession d d) = (Ok acc, s') ∧ d' = working s'
                    | Raise _ => d' = d
                    end.
Proof.
  unfold refresh_fill_activated_rules. destruct (rule_context _ _ _) as [[[a b] c]|e]; [|by intros [= <- <-]].
  intros [HR Hr]%(session_moves plan_moves _ id); [|apply moves_reconcile_in_session]. split; [done|].
  destruct r as [acc|e]; [|done]. destruct Hr as (acc0 & s' & Hs & -> & ->). by exists a, b, c, s'.
Qed.

Lemma expire_moves now clock actor reason request_id d r d' :
  expire_stale_proposals resize_action now clock actor reason request_id d = (r, d') → plan_moves d d'.
Proof.
  unfold expire_stale_proposals. destruct (rule_context _ _ _) as [[[a b] c]|e]; [|by intros [= <- <-]].
  unfold with_session. intros Hrun.
  set (m := tx_iter (expire_proposal now clock a b c) (stale_orders now d) ≫= λ _,
        match stale_orders now d with
        | [] => mret ()
        | _ => reconcile_plan_lifecycle_in_session resize_action now clock a b c ≫= λ _, mret ()
        end).
  assert (moves plan_moves m) as Hm.
  { apply moves_bind; [apply _|apply moves_iter; [apply _|intros; apply moves_expire_proposal]|intros []].
    destruct (stale_orders now d); [by apply moves_ret, _|]. apply moves_bind; [apply _|apply moves_reconcile_in_session|intros; apply moves_ret, _]. }
  destruct (session_moves plan_moves m (λ _, Z.of_nat (length (stale_orders now d))) d r d' Hm) as [HR _]; [|done].
  rewrite <- Hrun. unfold with_session, m, mbind, tx_bind, read. cbn [working]. destruct (tx_iter _ _ _) as [[[]|e] s1]; [|done].
  destruct (stale_orders now d); [done|]. by destruct (reconcile_plan_lifecycle_in_session _ _ _ _ _ _ s1) as [[?|?] ?].
Qed.

Lemma plan_moves_grows d d' : plan_moves d d' → grows d d'.
Proof.
  intros M k g Hg. pose proof (pm_groups _ _ M k) as Hk. rewrite Hg in Hk. destruct (db_groups d' !! k) as [g'|]; [|done].
  exists g'. split; [done|]. apply Hk.
Qed.

(** The plan lifecycle follows the state machine.  Refreshing the plans and expiring stale
    proposals, whatever they return: orders keep identity and terms, move along legal transitions and only out of the
    local states; rules change only in state and action; group versions, plan generations and breaker generations never
    go back, no tripped breaker clears, fills and proposals stay, audit rows are only appended.  Group versions grow, so
    rule leases stay fenced. *)
Theorem lifecycle_follows_state_machine now clock actor reason request_id d :
  let refreshed := (refresh_fill_activated_rules resize_action now clock actor reason request_id d).2 in
  let expired := (expire_stale_proposals resize_action now clock actor reason request_id d).2 in
  plan_moves d refreshed ∧ grows d refreshed ∧ plan_moves d expired ∧ grows d expired.
Proof.
  cbv zeta. destruct (refresh_fill_activated_rules _ _ _ _ _ _ _) as [r1 d1] eqn:H1. apply refresh_moves in H1 as [M1 _].
  destruct (expire_stale_proposals _ _ _ _ _ _ _) as [r2 d2] eqn:H2. apply expire_moves in H2.
  split_and!; auto using plan_moves_grows.
Qed.
End Proofs.
