(* ===== verification/PlanTheorems.v ===== *)
(** What a successful pass of the plan lifecycle leaves behind for every plan: no obsolete intent,
    protection sized to the open quantity, completion only when flat, and a tripped drift breaker
    on every contradiction. *)

From S2P Require Import Prelude PyDecimal Assets BrokerModels Breakers RiskRules RiskEngine.
From S2P Require Import Database Lifecycle SessionLogic BreakerStore OrderRepository RepositoryLogic SafetyState.
From S2P Require Import RuleRepository RuleProofs PlanTruth PlanTruthProofs PlanLifecycle PlanLifecycleLogic PlanLifecycleProofs.
From Stdlib Require Import Ascii Lia.
Local Open Scope Z_scope.

(** * Other plans leave a plan alone *)

Record frame (p : Z) (d d' : Db) : Prop := {
  fr_moves : plan_moves d d';
  fr_plan : db_plans d' !! p = db_plans d !! p;
  fr_rules : ∀ id r, db_rules d !! id = Some r → ru_plan_id r = Some p → db_rules d' !! id = Some r;
}.

#[export] Instance frame_preorder p : PreOrder (frame p).
Proof.
  split; [intros d; by split|]. intros x y z [M1 P1 R1] [M2 P2 R2]. split; [by etrans|congruence|auto].
Qed.

Lemma in_plan_frame p q d d' : q ≠ p → in_plan (plan_view q d) d d' → frame p d d'.
Proof.
  intros Hne [M _ HR HP _ _]. split; [done| |].
  - apply HP. by intros ->.
  - intros id r Hr Hp. rewrite HR; [done|]. cbn. intros (r' & Hr' & Hq)%plan_rule_of. congruence.
Qed.

Section Theorems.
Context `{Digest} (resize_action : string → Decimal → option string).

Section Loop.
Context (now clock : time) (actor reason request_id : string).
Abbreviation reconcile := (reconcile_plan resize_action now clock actor reason request_id).

Lemma reconcile_frame p q acc s r s' : q ≠ p → reconcile acc q s = (r, s') → frame p (working s) (working s').
Proof.
  intros Hne Hr. destruct (moves_reconcile_plan resize_action now clock actor reason request_id acc q s) as [_ Hw]. rewrite Hr in Hw.
  by eapply in_plan_frame.
Qed.

Lemma loop_frame p ids : ∀ acc s r s', p ∉ ids → tx_foldl reconcile acc ids s = (r, s') → frame p (working s) (working s').
Proof.
  induction ids as [|q ids IH]; intros acc s r s' Hp; cbn [tx_foldl]; [by intros [= <- <-]|].
  apply not_elem_of_cons in Hp as [Hne Hp]. unfold mbind, tx_bind. destruct (reconcile acc q s) as [[a|e] s1] eqn:H1.
  - intros H2. etrans; [by eapply reconcile_frame|]. by eapply IH.
  - intros [= <- <-]. by eapply reconcile_frame.
Qed.

(** The turn of plan [p] in a successful pass. *)
Lemma loop_turn p ids : ∀ acc s acc' s', NoDup ids → p ∈ ids → tx_foldl reconcile acc ids s = (Ok acc', s') →
  ∃ s1 a1 s2 a2, frame p (working s) (working s1) ∧ reconcile a1 p s1 = (Ok a2, s2) ∧ frame p (working s2) (working s').
Proof.
  induction ids as [|q ids IH]; intros acc s acc' s' Hnd Hp; [by apply elem_of_nil in Hp|].
  apply NoDup_cons in Hnd as [Hq Hnd]. cbn [tx_foldl]. intros (a & s0 & H1 & H2)%tx_bind_Ok.
  destruct (decide (q = p)) as [->|Hne].
  - exists s, acc, s0, a. split_and!; [done|done|]. by eapply loop_frame.
  - apply elem_of_cons in Hp as [->|Hp]; [done|]. destruct (IH a s0 acc' s' Hnd Hp H2) as (s1 & a1 & s2 & a2 & F1 & Hr & F2).
    exists s1, a1, s2, a2. split_and!; [|done|done]. etrans; [by eapply reconcile_frame|done].
Qed.

(** A plan has a rule. *)
Definition has_plan (p : Z) (d : Db) : Prop := ∃ id r, db_rules d !! id = Some r ∧ ru_plan_id r = Some p.

Lemma plan_ids_elem p d : p ∈ plan_ids d ↔ has_plan p d.
Proof.
  unfold plan_ids, has_plan. rewrite elem_of_dedup, list_elem_of_omap. split.
  - intros (id & _ & Hr). apply bind_Some in Hr as (r & Hr & Hp). by exists id, r.
  - intros (id & r & Hr & Hp). exists id. rewrite Hr. split; [|done]. apply select_ids_elem. by exists r.
Qed.

End Loop.

(** The turn of a plan in a refresh that returned. *)
Record turn (p : Z) (d d' : Db) (t : PlanTotals) (s s' : Session) (now clock : time) (actor reason request_id : string) : Prop := {
  tn_before : frame p d (working s);
  tn_run : plan_run resize_action now clock actor reason request_id p s s' (plan_view p d) t;
  tn_after : frame p (working s') d';
}.

Lemma refresh_turn now clock actor reason request_id d acc d' p :
  refresh_fill_activated_rules resize_action now clock actor reason request_id d = (Ok acc, d') → has_plan p d →
  ∃ t s s' a b c, turn p d d' t s s' now clock a b c ∧ plan_totals_of p d = Ok t.
Proof.
  intros [_ (a & b & c & s' & Hc & Hrun & ->)]%refresh_moves Hp. unfold reconcile_plan_lifecycle_in_session in Hrun.
  apply tx_bind_Ok in Hrun as ([[a' b'] c'] & s0 & Hl & Hrun). unfold lift in Hl. injection Hl as _ <-.
  unfold reconcile_plans in Hrun. apply tx_bind_Ok in Hrun as (d0 & s0 & [= <- <-] & Hrun).
  apply (loop_turn now clock a' b' c' p) in Hrun as (s1 & a1 & s2 & a2 & F1 & Hr & F2); [|apply NoDup_dedup|by apply plan_ids_elem].
  pose proof (plan_view_stable p _ _ (fr_moves _ _ _ F1)) as Hv. cbn [working] in *.
  destruct (reconcile_plan_inv resize_action now clock a' b' c' a1 p s1 a2 s2) as [t Ht]; [|done|].
  - rewrite Hv. destruct Hp as (id & r & Hr0 & Hp). assert (id ∈ pv_rules (plan_view p d)) as Hin by (apply plan_rule_of; eauto).
    intros E. rewrite E in Hin. by apply elem_of_nil in Hin.
  - rewrite Hv in Ht. exists t, s1, s2, a', b', c'. split; [by split|]. destruct Ht as [_ Ht _].
    by rewrite (plan_totals_stable p _ _ (fr_moves _ _ _ F1)) in Ht.
Qed.

(** * Obsolete intents *)

Lemma moves_run (R : Db → Db → Prop) {A} (m : tx A) s a s' : moves R m → m s = (Ok a, s') → R (working s) (working s').
Proof. intros Hm E. destruct (Hm s) as [_ HR]. by rewrite E in HR. Qed.

(** A loop establishes for every element what one turn does, if no turn undoes it. *)
Lemma foldl_establishes {A B} (Q : Db → B → Prop) (f : A → B → tx A) l :
  (∀ a x s a' s' b, x ∈ l → f a x s = (Ok a', s') → Q (working s) b → Q (working s') b) →
  (∀ a b s a' s', b ∈ l → f a b s = (Ok a', s') → Q (working s') b) →
  ∀ a s a' s', tx_foldl f a l s = (Ok a', s') → ∀ b, b ∈ l → Q (working s') b.
Proof.
  intros Hk Hest. induction l as [|x l IH]; intros a s a' s' Hrun b Hb; [by apply elem_of_nil in Hb|].
  cbn [tx_foldl] in Hrun. apply tx_bind_Ok in Hrun as (a1 & s1 & H1 & H2).
  assert (∀ l' a1 s1 b', l' ⊆ x :: l → tx_foldl f a1 l' s1 = (Ok a', s') → Q (working s1) b' → Q (working s') b') as Hrest.
  { clear -Hk. induction l' as [|y l' IH]; intros a1 s1 b' Hsub; cbn [tx_foldl]; [by intros [= <- <-]|].
    intros (a2 & s2 & H1 & H2)%tx_bind_Ok HQ. eapply IH; [set_solver|done|]. eapply Hk; [|done|done]. set_solver. }
  apply elem_of_cons in Hb as [->|Hb].
  - eapply (Hrest l a1 s1); [set_solver|done|]. eapply Hest; [left|done].
  - eapply IH; try done; [intros; eapply Hk; [by right|done..]|intros; eapply Hest; [by right|done]].
Qed.

(** The intent needs no withdrawal. *)
Definition intent_current (t : PlanTotals) (p : Z) (d : Db) (x : Proposal * Z * Z) : Prop :=
  ∀ o r plan, db_orders d !! x.1.2 = Some o → locally_cancelable o = true → db_rules d !! x.2 = Some r →
    db_plans d !! p = Some plan → should_cancel t plan x.1.1 r = Ok false.

Lemma intent_current_stable t p d d' x :
  plan_moves d d' → generation_of p d' = generation_of p d → intent_current t p d x → intent_current t p d' x.
Proof.
  intros M Hg Hw o' r' plan' Ho' Hl Hr' Hp'.
  pose proof (pm_orders _ _ M x.1.2) as Ho. rewrite Ho' in Ho. destruct (db_orders d !! x.1.2) as [o|] eqn:Eo; [|done].
  pose proof (os_local _ _ Ho Hl). subst o'.
  pose proof (pm_rules _ _ M x.2) as Hr. rewrite Hr' in Hr. destruct (db_rules d !! x.2) as [r|] eqn:Er; [|done].
  apply rule_keeps_fields in Hr as (_ & _ & _ & Hk & _).
  unfold generation_of in Hg. rewrite Hp' in Hg. destruct (db_plans d !! p) as [plan|] eqn:Ep; [|done]. injection Hg as Hg.
  rewrite <- (Hw o r plan Eo Hl Er Ep). unfold should_cancel. by rewrite (is_entry_kind r r' Hk), (is_exit_kind r r' Hk), Hg.
Qed.

Definition withdraw_scope : scope := mkStage (λ _, True) (λ _, True) (λ _, False) (λ _, False) False.
Definition quiet_scope : scope := mkStage (λ _, False) (λ _, True) (λ _, True) (λ _, False) True.

Section Stages.
Context (now clock : time) (actor reason request_id : string).

Lemma withdraw_step v t acc x s a s' :
  withdraw_intent now clock actor reason request_id v t acc x s = (Ok a, s') → intent_current t (pv_plan_id v) (working s') x.
Proof.
  destruct x as [[pr oid] rid]. cbn [withdraw_intent]. intros Hrun o r plan Ho Hl Hr Hp. cbn in *.
  unfold withdraw_intent in Hrun. apply tx_bind_Ok in Hrun as (r0 & s1 & H1 & Hrun).
  apply tx_bind_Ok in Hrun as (plan0 & s2 & H2 & Hrun). apply tx_bind_Ok in Hrun as (o0 & s3 & H3 & Hrun).
  apply get_rule_Ok in H1 as [H1 ->]. apply get_plan_Ok in H2 as [H2 ->]. apply get_order_Ok in H3 as [H3 ->].
  apply tx_bind_Ok in Hrun as (b & s4 & H4 & Hrun). unfold lift in H4. injection H4 as H4 <-.
  destruct b; cbn [negb orb] in Hrun.
  2: { injection Hrun as <- <-. by simplify_eq. }
  destruct (locally_cancelable o0) eqn:Hl0; cbn [negb] in Hrun; [|injection Hrun as <- <-; simplify_eq; congruence].
  exfalso. cbv zeta in Hrun. apply tx_bind_Ok in Hrun as (o1 & s5 & H5 & Hrun). unfold lift in H5. injection H5 as H5 <-.
  apply tx_bind_Ok in Hrun as ([] & s6 & [= <-] & Hrun).
  assert (within quiet_scope (set_db_orders (<[oid := set_o_last_error_code "plan_exit_entry_cancel" o1]> (db_orders (working s))) (working s)) (working s')) as Hw.
  { refine (moves_run _ _ _ _ _ _ Hrun). clear. apply moves_bind; [apply _|apply moves_rule_audit|intros []].
    destruct (is_entry r0); [|by apply moves_ret, _]. apply moves_bind; [apply _|by apply moves_set_rule_state|intros ?].
    apply moves_bind; [apply _|apply moves_set_group_state|intros ?]. apply moves_ret, _. }
  rewrite (wi_orders _ _ _ Hw) in Ho by (by intros []). cbn in Ho. rewrite lookup_insert_eq in Ho. injection Ho as <-.
  unfold transition in H5. apply outcome_bind_Ok in H5 as (st & _ & H5). destruct (can_transition _ _); [|done]. injection H5 as <-.
  revert Hl. unfold locally_cancelable. cbn. by case_bool_decide.
Qed.

Lemma withdraw_stage v t acc s a s' :
  tx_foldl (withdraw_intent now clock actor reason request_id v t) acc (pv_proposals v) s = (Ok a, s') →
  ∀ x, x ∈ pv_proposals v → intent_current t (pv_plan_id v) (working s') x.
Proof.
  apply foldl_establishes.
  - intros a0 x s0 a1 s1 b _ Hs. apply (moves_run (within withdraw_scope)) in Hs as [M _ _ _ HG _]; [|by apply moves_withdraw].
    apply intent_current_stable; [done|]. apply HG. by intros [].
  - intros. by eapply withdraw_step.
Qed.

(** After the withdrawals orders and generations stay. *)
Lemma late_stages_quiet v t exit_rules nt req a5 s5 a6 s6 a7 s7 a8 s8 acc' s' :
  late_residual now actor reason request_id v t exit_rules req a5 s5 = (Ok a6, s6) →
  tx_foldl (settle_exit now actor reason request_id v t nt) a6 exit_rules s6 = (Ok a7, s7) →
  protect resize_action now actor reason request_id t exit_rules a7 s7 = (Ok a8, s8) →
  complete_plan now actor reason request_id v t exit_rules nt req a8 s8 = (Ok acc', s') →
  within quiet_scope (working s5) (working s').
Proof.
  intros H6 H7 H8 H9. etrans; [eapply moves_run; [|exact H6]; apply moves_late_residual; [done|done|by left]|].
  etrans; [eapply moves_run; [|exact H7]; apply moves_foldl; [apply _|intros; by apply moves_settle_exit]|].
  etrans; [eapply moves_run; [|exact H8]; by apply moves_protect|]. eapply moves_run; [|exact H9]. by apply moves_complete_plan.
Qed.
End Stages.

(** Obsolete intents are withdrawn.  After a refresh that returned, a plan's order that is still only
    local (proposed or approved) is current: an exit was proposed under the plan's present residual generation or a later
    one, and an entry only while no trusted exit fill exists. *)
Theorem obsolete_intents_withdrawn now clock actor reason request_id d acc d' p pr oid rid o r plan t :
  refresh_fill_activated_rules resize_action now clock actor reason request_id d = (Ok acc, d') →
  plan_totals_of p d = Ok t → (pr, oid, rid) ∈ pv_proposals (plan_view p d) →
  db_orders d' !! oid = Some o → locally_cancelable o = true → db_rules d' !! rid = Some r → db_plans d' !! p = Some plan →
  (is_exit r = true → tp_residual_generation plan ≤ p_plan_generation pr)
  ∧ (is_entry r = true → dgt (pt_exit t) dzero = Ok false).
Proof.
  intros Hrun Ht Hx Ho Hl Hr Hp.
  assert (has_plan p d) as Hhas. { apply proposal_rule, plan_rule_of in Hx as (r0 & ? & ?). by exists rid, r0. }
  destruct (refresh_turn _ _ _ _ _ _ _ _ _ Hrun Hhas) as (t' & s & s' & a & b & c & [F1 [_ _ Hst] F2] & Ht'). rewrite Ht in Ht'. injection Ht' as <-.
  destruct Hst as (s1 & s2 & s3 & s4 & s5 & s6 & s7 & s8 & a4 & a5 & a6 & a7 & a8 & acc0 & acc1 & H1 & H2 & H3 & H4 & H5 & H6 & H7 & H8 & H9).
  assert (intent_current t p (working s') (pr, oid, rid)) as Hw.
  { destruct (late_stages_quiet _ _ _ _ _ _ _ _ _ _ _ _ _ _ _ _ _ _ _ H6 H7 H8 H9) as [M _ _ _ HG _].
    eapply intent_current_stable; [exact M|apply HG; by intros []|]. exact (withdraw_stage _ _ _ _ _ _ _ _ _ _ _ H5 _ Hx). }
  assert (intent_current t p d' (pr, oid, rid)) as Hw'.
  { eapply intent_current_stable; [apply F2| |exact Hw]. unfold generation_of. by rewrite (fr_plan _ _ _ F2). }
  specialize (Hw' o r plan Ho Hl Hr Hp). unfold should_cancel in Hw'. cbn in Hw'.
  apply outcome_bind_Ok in Hw' as (b1 & Hb1 & [= Hb2]). apply orb_false_iff in Hb2 as [-> Hb2].
  split; intros Hk.
  - rewrite Hk in Hb2. cbn in Hb2. apply Z.ltb_ge in Hb2. lia.
  - by rewrite Hk in Hb1.
Qed.

(** * Protection *)

(** An open exit rule is active and its stored action carries the quantity the plan needs from it. *)
Definition sized (t : PlanTotals) (d : Db) (rid : Z) : Prop :=
  ∀ r want qty, db_rules d !! rid = Some r → in_states [RS_PENDING; RS_ACTIVE] (ru_state r) = true →
    desired_qty t r rid = Ok want → dle want dzero = Ok false → normalize_computed_order_decimal want = Ok (Some qty) →
    ru_state r = rule_state_value RS_ACTIVE ∧ ∃ old, resize_action old qty = Some (ru_action_json r).

Lemma sized_same t d d' rid : db_rules d' !! rid = db_rules d !! rid → sized t d rid → sized t d' rid.
Proof. intros E Hs r want qty Hr. rewrite E in Hr. by apply Hs. Qed.

Lemma desired_qty_keeps t r r' rid : rule_keeps r r' → desired_qty t r' rid = desired_qty t r rid.
Proof. unfold rule_keeps. intros ->. by destruct r. Qed.

Definition rules_scope (R : Z → Prop) : scope := mkStage (λ _, False) R (λ _, False) (λ _, False) False.

Section Protection.
Context (now clock : time) (actor reason request_id : string).

Lemma not_pending_active st : in_states [RS_PENDING; RS_ACTIVE] st = true → bool_decide (st = rule_state_value RS_PENDING) = false →
  st = rule_state_value RS_ACTIVE.
Proof.
  intros [Hin|[Hin|Hin%elem_of_nil]%elem_of_cons]%bool_decide_eq_true%elem_of_cons Hp; [|done|done]. by apply bool_decide_eq_false in Hp.
Qed.

Lemma resize_step t acc rid s a s' :
  resize_rule resize_action actor reason request_id t acc rid s = (Ok a, s') → sized t (working s') rid.
Proof.
  destruct acc as [counts touched]. intros Hrun r want qty Hr Hst Hw Hpos Hq.
  assert (rows_move rule_keeps (db_rules (working s)) (db_rules (working s'))) as M.
  { apply (moves_run (within (rules_scope (λ _, True)))) in Hrun as [M _ _ _ _ _]; [apply M|by apply moves_resize]. }
  unfold resize_rule in Hrun.
  apply tx_bind_Ok in Hrun as (r0 & s1 & (H1 & ->)%get_rule_Ok & Hrun).
  destruct (in_states [RS_PENDING; RS_ACTIVE] (ru_state r0)) eqn:Hst0; cbn [negb] in Hrun; [|injection Hrun as <- <-; simplify_eq; congruence].
  assert (rule_keeps r0 r) as Hkeep. { specialize (M rid). by rewrite H1, Hr in M. }
  rewrite (desired_qty_keeps t r0 r rid Hkeep) in Hw.
  apply tx_bind_Ok in Hrun as (want0 & s2 & H2 & Hrun). unfold lift in H2. injection H2 as H2 <-. rewrite H2 in Hw. injection Hw as ->.
  apply tx_bind_Ok in Hrun as (b & s3 & H3 & Hrun). unfold lift in H3. injection H3 as H3 <-. rewrite H3 in Hpos. injection Hpos as ->.
  apply tx_bind_Ok in Hrun as (n & s4 & H4 & Hrun). unfold lift in H4. injection H4 as H4 <-. rewrite H4 in Hq. injection Hq as ->.
  destruct (resize_action (ru_action_json r0) qty) as [enc|] eqn:Henc; [|done]. cbv zeta in Hrun.
  destruct (bool_decide (ru_state r0 = rule_state_value RS_PENDING)) eqn:Hp; cbn [orb] in Hrun.
  - injection Hrun as _ <-. cbn in Hr. rewrite lookup_insert_eq in Hr. injection Hr as <-. split; [done|]. by exists (ru_action_json r0).
  - destruct (bool_decide_reflect (enc = ru_action_json r0)) as [->|Hne]; cbn [negb] in Hrun.
    + injection Hrun as _ <-. simplify_eq. split; [by apply not_pending_active|]. by eexists.
    + injection Hrun as _ <-. cbn in Hr. rewrite lookup_insert_eq in Hr. injection Hr as <-. split; [by apply not_pending_active|]. by eexists.
Qed.

Lemma protect_sizes t exit_rules acc s a s' :
  dgt (pt_remaining t) dzero = Ok true → protect resize_action now actor reason request_id t exit_rules acc s = (Ok a, s') →
  ∀ rid, rid ∈ exit_rules → sized t (working s') rid.
Proof.
  intros Hopen Hrun rid Hin. unfold protect in Hrun. apply tx_bind_Ok in Hrun as (b & s1 & H1 & Hrun). unfold lift in H1. injection H1 as H1 <-.
  rewrite Hopen in H1. injection H1 as <-. apply tx_bind_Ok in Hrun as ([acc1 touched] & s2 & H2 & H3).
  assert (within (rules_scope (λ _, False)) (working s2) (working s')) as Hw.
  { refine (moves_run _ _ _ _ _ _ H3). apply moves_foldl; [apply _|]. intros. apply moves_activate. }
  eapply sized_same; [apply (wi_rules _ _ _ Hw); by intros []|]. revert rid Hin. eapply (foldl_establishes (sized t)); [| |exact H2].
  - intros a0 x s0 a1 s1 b _ Hs Hb. destruct (decide (b = x)) as [->|Hne]; [by eapply resize_step|].
    eapply sized_same; [|done]. apply (moves_run (within (rules_scope (only x)))) in Hs; [|by apply moves_resize].
    by apply (wi_rules _ _ _ Hs).
  - intros. by eapply resize_step.
Qed.
End Protection.

Lemma quantities_open filled er xr t :
  plan_quantities filled er xr = Ok t → dgt (pt_remaining t) dzero = Ok true → deq (pt_signed t) dzero = false.
Proof.
  unfold plan_quantities. intros Hq Hgt. apply outcome_bind_Ok in Hq as (en & _ & Hq). apply outcome_bind_Ok in Hq as (ex & _ & Hq).
  apply outcome_bind_Ok in Hq as (sg & _ & Hq). apply outcome_bind_Ok in Hq as (ov & _ & Hq). apply outcome_bind_Ok in Hq as (rem & Hm & [= <-]).
  cbn in *. destruct (dmax_cases _ _ _ Hm) as [->| ->]; [|done]. apply dgt_ok in Hgt. symmetry in Hgt. unfold dcmp_lt in Hgt. rewrite dcmp_antisym in Hgt.
  unfold deq. destruct (dcmp sg dzero); cbn in *; try done. by rewrite andb_false_r.
Qed.

Lemma totals_quantities p d t : plan_totals_of p d = Ok t →
  ∃ filled, plan_quantities filled (rules_of (plan_view p d) is_entry d) (rules_of (plan_view p d) is_exit d) = Ok t.
Proof. unfold plan_totals_of. intros (filled & _ & ?)%outcome_bind_Ok. by exists filled. Qed.

(** The completion stage does nothing, or its conditions held. *)
Lemma complete_plan_cases now actor reason request_id v t ids nt req acc s acc' s' :
  complete_plan now actor reason request_id v t ids nt req acc s = (Ok acc', s') →
  s' = s ∨ (dgt (pt_entry t) dzero = Ok true ∧ dgt (pt_exit t) dzero = Ok true ∧ deq (pt_signed t) dzero = true
            ∧ pt_over_exited t = false ∧ nt = false ∧ req = false).
Proof.
  unfold complete_plan. intros Hrun. apply tx_bind_Ok in Hrun as (b1 & s1 & H1 & Hrun). unfold lift in H1. injection H1 as H1 <-.
  apply tx_bind_Ok in Hrun as (b2 & s2 & H2 & Hrun). unfold lift in H2. injection H2 as H2 <-.
  destruct (_ && negb req) eqn:Hc; [right|by injection Hrun; auto].
  rewrite !andb_true_iff, !negb_true_iff in Hc. destruct Hc as (((((-> & ->) & ?) & ?) & ?) & ?). done.
Qed.

(** Protection follows the open quantity.  After a refresh that returned, while trusted fills leave a
    plan quantity open, an exit rule of the plan that is pending or active is active, and its stored action is the rewriting to the
    quantity the plan needs from that rule; for everything but a partial target that is the whole open quantity. *)
Theorem protection_sized now clock actor reason request_id d acc d' p t rid r want qty :
  refresh_fill_activated_rules resize_action now clock actor reason request_id d = (Ok acc, d') →
  plan_totals_of p d = Ok t → dgt (pt_remaining t) dzero = Ok true →
  db_rules d' !! rid = Some r → ru_plan_id r = Some p → is_exit r = true →
  in_states [RS_PENDING; RS_ACTIVE] (ru_state r) = true →
  desired_qty t r rid = Ok want → dle want dzero = Ok false → normalize_computed_order_decimal want = Ok (Some qty) →
  ru_state r = rule_state_value RS_ACTIVE ∧ (∃ old, resize_action old qty = Some (ru_action_json r))
  ∧ (is_protective r = true → want = pt_remaining t).
Proof.
  intros Hrun Ht Hopen Hr Hplan Hexit Hst Hw Hpos Hq.
  pose proof (refresh_moves _ _ _ _ _ _ _ _ _ Hrun) as [M _].
  assert (∃ r0, db_rules d !! rid = Some r0 ∧ rule_keeps r0 r) as (r0 & Hr0 & Hk).
  { pose proof (pm_rules _ _ M rid) as Hm. rewrite Hr in Hm. destruct (db_rules d !! rid) as [r0|]; [|done]. by exists r0. }
  pose proof (rule_keeps_fields _ _ Hk) as (_ & _ & Ep & Ek & _).
  assert (has_plan p d) as Hhas by (exists rid, r0; split; [done|congruence]).
  destruct (refresh_turn _ _ _ _ _ _ _ _ _ Hrun Hhas) as (t' & s & s' & a & b & c & [F1 [_ _ Hstages] F2] & Ht'). rewrite Ht in Ht'. injection Ht' as <-.
  destruct Hstages as (s1 & s2 & s3 & s4 & s5 & s6 & s7 & s8 & a4 & a5 & a6 & a7 & a8 & acc0 & acc1 & _ & _ & _ & _ & _ & _ & _ & H8 & H9).
  destruct (totals_quantities p d t Ht) as [filled Hqs].
  apply complete_plan_cases in H9 as [->|(_ & _ & Hz & _)]; [|by rewrite (quantities_open _ _ _ _ Hqs Hopen) in Hz].
  assert (rid ∈ rules_of (plan_view p d) is_exit (working s)) as Hin.
  { rewrite (rules_of_stable _ _ _ _ (fr_moves _ _ _ F1) is_exit_kind). apply list_elem_of_filter. rewrite Hr0.
    split; [by rewrite <- (is_exit_kind r0 r)|]. apply plan_rule_of. exists r0. split; [done|congruence]. }
  pose proof (protect_sizes _ _ _ _ _ _ _ _ _ _ Hopen H8 rid Hin) as Hsz.
  assert (sized t d' rid) as Hsz'.
  { destruct (db_rules (working s8) !! rid) as [r8|] eqn:Hr8.
    - eapply sized_same; [|exact Hsz]. rewrite Hr8. eapply (fr_rules _ _ _ F2); [done|].
      pose proof (pm_rules _ _ (fr_moves _ _ _ F2) rid) as Hm. rewrite Hr8, Hr in Hm. apply rule_keeps_fields in Hm as (_ & _ & E & _). congruence.
    - pose proof (pm_rules _ _ (fr_moves _ _ _ F2) rid) as Hm. by rewrite Hr8, Hr in Hm. }
  destruct (Hsz' r want qty Hr Hst Hw Hpos Hq) as [H1 H2]. split_and!; [done|done|].
  intros Hprot. unfold desired_qty in Hw. rewrite bool_decide_false in Hw; [by injection Hw|].
  unfold is_protective in Hprot. intros E. rewrite E in Hprot. by apply bool_decide_eq_true in Hprot; set_solver.
Qed.

(** * Contradictions *)

Lemma iter_foldl {A} (f : A → tx ()) l s : tx_iter f l s = tx_foldl (λ _ x, f x) () l s.
Proof.
  revert s. induction l as [|x l IH]; intros s; [done|]. cbn. unfold mbind, tx_bind. by destruct (f x s) as [[[]|e] s1].
Qed.

Lemma tripped_moves scope d d' : plan_moves d d' → is_tripped scope d = true → is_tripped scope d' = true.
Proof.
  intros M. unfold is_tripped. destruct (db_breakers d !! scope_key scope) as [r|] eqn:Hr; [|done].
  destruct (pm_breakers _ _ M _ _ Hr) as (r' & -> & Ht & _). exact Ht.
Qed.

Section Contradictions.
Context (now clock : time) (actor reason request_id : string).

Lemma trip_plan_trips scope detail s s' :
  trip_plan now actor reason request_id scope detail s = (Ok (), s') → is_tripped scope (working s') = true.
Proof.
  unfold trip_plan. unfold mbind, tx_bind. destruct (trip_inputs_ok detail actor request_id (Some reason)) eqn:Hin.
  - rewrite trip_in_session_ok by done. intros [= <-]. unfold is_tripped. cbn. by rewrite lookup_insert_eq.
  - destruct (trip_in_session_bad scope detail actor request_id now (Some reason) s Hin) as [m ->]. done.
Qed.

Lemma set_required_latches id s a s' : set_group_required now actor reason request_id id true s = (Ok a, s') → latched id (working s').
Proof.
  unfold set_group_required. intros (g & s1 & [Hg ->]%get_group_Ok & Hrun)%tx_bind_Ok.
  destruct (g_reconciliation_required g) eqn:Hq; cbn in Hrun.
  - injection Hrun as _ <-. by exists g.
  - injection Hrun as _ <-. eexists. cbn. by rewrite lookup_insert_eq.
Qed.

Lemma latch_untrusted_run v s s' :
  latch_untrusted now actor reason request_id v s = (Ok (), s') → untrusted_orders (pv_fills v) ≠ [] →
  is_tripped scope_broker_drift (working s') = true ∧ ∀ gid, gid ∈ pv_groups v → latched gid (working s').
Proof.
  unfold latch_untrusted. destruct (untrusted_orders (pv_fills v)) as [|x l]; [done|]. intros Hrun _.
  apply tx_bind_Ok in Hrun as ([] & s1 & H1 & H2). split; [by eapply trip_plan_trips|]. intros gid Hin.
  assert (within nothing (working s1) (working s')) as Hw by (eapply moves_run; [|exact H2]; apply moves_trip).
  eapply (wi_latches _ _ _ Hw); [by intros []|]. rewrite iter_foldl in H1. revert gid Hin.
  eapply (foldl_establishes (λ d g, latched g d)); [| |exact H1].
  - intros a0 g s0 [] s2 b _ Hs Hb. apply (moves_run (within nothing)) in Hs; [|].
    + eapply (wi_latches _ _ _ Hs); [by intros []|done].
    + apply moves_bind; [apply _|apply moves_set_group_required; by right|intros; apply moves_ret, _].
  - intros a0 g s0 [] s2 _ (b & s3 & Hs & [= <-])%tx_bind_Ok. by eapply set_required_latches.
Qed.

Lemma over_exit_trips v t s s' :
  trip_over_exit now actor reason request_id v t s = (Ok (), s') → pt_over_exited t = true → is_tripped scope_broker_drift (working s') = true.
Proof. unfold trip_over_exit. intros Hrun Ho. rewrite Ho in Hrun. by eapply trip_plan_trips. Qed.
End Contradictions.

(** The stages up to the withdrawals lift no latch. *)
Definition early_scope : scope := mkStage (λ _, True) (λ _, True) (λ _, True) (λ _, True) False.

Lemma entry_stages now clock actor reason request_id v t er acc s3 s4 s5 a4 a5 :
  tx_foldl (settle_entry now actor reason request_id v t) acc er s3 = (Ok a4, s4) →
  tx_foldl (withdraw_intent now clock actor reason request_id v t) a4 (pv_proposals v) s4 = (Ok a5, s5) →
  within early_scope (working s3) (working s5).
Proof.
  intros H4 H5. etrans; [eapply moves_run; [|exact H4]; apply moves_foldl; [apply _|intros; by apply moves_settle_entry]|].
  eapply moves_run; [|exact H5]. apply moves_foldl; [apply _|]. intros. by apply moves_withdraw.
Qed.

Lemma totals_stages now actor reason request_id v t s1 s2 s3 :
  store_totals actor reason request_id v t s1 = (Ok (), s2) → trip_over_exit now actor reason request_id v t s2 = (Ok (), s3) →
  within early_scope (working s1) (working s3).
Proof.
  intros H2 H3. etrans; [eapply moves_run; [|exact H2]; by apply moves_store_totals|].
  eapply moves_run; [|exact H3]. apply moves_trip_over_exit.
Qed.

(** Contradictory fills trip the drift breaker.  After a refresh that returned, the broker-drift
    breaker is tripped whenever a plan has a fill without trusted identity, or more trusted exits than entries. *)
Theorem contradictions_trip_drift now clock actor reason request_id d acc d' p t :
  refresh_fill_activated_rules resize_action now clock actor reason request_id d = (Ok acc, d') → has_plan p d →
  plan_totals_of p d = Ok t → untrusted_orders (pv_fills (plan_view p d)) ≠ [] ∨ pt_over_exited t = true →
  is_tripped scope_broker_drift d' = true.
Proof.
  intros Hrun Hhas Ht Hc.
  destruct (refresh_turn _ _ _ _ _ _ _ _ _ Hrun Hhas) as (t' & s & s' & a & b & c & [F1 [_ _ Hst] F2] & Ht'). rewrite Ht in Ht'. injection Ht' as <-.
  destruct Hst as (s1 & s2 & s3 & s4 & s5 & s6 & s7 & s8 & a4 & a5 & a6 & a7 & a8 & acc0 & acc1 & H1 & H2 & H3 & H4 & H5 & H6 & H7 & H8 & H9).
  pose proof (late_stages_quiet _ _ _ _ _ _ _ _ _ _ _ _ _ _ _ _ _ _ _ H6 H7 H8 H9) as [M2 _ _ _ _ _].
  pose proof (entry_stages _ _ _ _ _ _ _ _ _ _ _ _ _ _ H4 H5) as [M1 _ _ _ _ _].
  eapply tripped_moves; [apply F2|]. eapply tripped_moves; [exact M2|]. eapply tripped_moves; [exact M1|]. destruct Hc as [Hu|Ho].
  - pose proof (totals_stages _ _ _ _ _ _ _ _ _ H2 H3) as [M0 _ _ _ _ _]. eapply tripped_moves; [exact M0|].
    by apply (latch_untrusted_run _ _ _ _ _ _ _ H1).
  - by eapply over_exit_trips.
Qed.

(** * Completion *)

Definition status_of (p : Z) (d : Db) : option string := tp_status <$> db_plans d !! p.

Lemma within_status S p d d' : within S d d' → ¬ sc_plans S p → status_of p d' = status_of p d.
Proof. intros Hw Hn. unfold status_of. by rewrite (wi_plans _ _ _ Hw). Qed.

Definition no_plan_scope : scope := mkStage (λ _, True) (λ _, True) (λ _, False) (λ _, False) True.

Section Completion.
Context (now clock : time) (actor reason request_id : string).

Lemma store_totals_status v t s s' p : store_totals actor reason request_id v t s = (Ok (), s') → status_of p (working s') = status_of p (working s).
Proof.
  unfold store_totals. intros (d0 & s0 & [= <- <-] & Hrun)%tx_bind_Ok. destruct (db_plans (working s) !! pv_plan_id v) as [plan|] eqn:Hp; [|done].
  destruct (_ && _); [by injection Hrun as <-|]. cbv zeta in Hrun. injection Hrun as <-. unfold status_of. cbn.
  destruct (decide (p = pv_plan_id v)) as [->|Hne]; [by rewrite lookup_insert_eq, Hp|by rewrite lookup_insert_ne].
Qed.

Lemma late_residual_status v t ids req acc s a s' :
  late_residual now actor reason request_id v t ids req acc s = (Ok a, s') →
  status_of (pv_plan_id v) (working s') = status_of (pv_plan_id v) (working s)
  ∨ status_of (pv_plan_id v) (working s') = Some "protection_required".
Proof.
  unfold late_residual. intros (plan & s1 & [Hp ->]%get_plan_Ok & Hrun)%tx_bind_Ok.
  apply tx_bind_Ok in Hrun as (b & s1 & H1 & Hrun). unfold lift in H1. injection H1 as H1 <-.
  destruct (_ && _); [right|left; by injection Hrun as _ <-].
  apply tx_bind_Ok in Hrun as ([] & s2 & _ & Hrun). apply tx_bind_Ok in Hrun as ([] & s3 & _ & Hrun).
  apply tx_bind_Ok in Hrun as ([] & s4 & [= <-] & Hrun).
  apply (moves_run (within no_plan_scope)) in Hrun.
  - rewrite (within_status _ _ _ _ Hrun) by (by intros []). unfold status_of. cbn. by rewrite lookup_insert_eq.
  - apply moves_bind; [apply _|apply moves_rule_audit|intros []]. apply moves_foldl; [apply _|]. intros. apply moves_rearm; [done|by left].
Qed.

Definition dead (d : Db) (rid : Z) : Prop := ∀ r, db_rules d !! rid = Some r → live_rule r = false.

Lemma set_rule_state_sets rid st s b s' : set_rule_state actor reason request_id rid st s = (Ok b, s') →
  ∃ r, db_rules (working s') !! rid = Some r ∧ ru_state r = rule_state_value st.
Proof.
  unfold set_rule_state. intros (r & s1 & [Hr ->]%get_rule_Ok & Hrun)%tx_bind_Ok. case_bool_decide as Hst.
  - injection Hrun as _ <-. by exists r.
  - injection Hrun as _ <-. eexists. cbn. rewrite lookup_insert_eq. done.
Qed.

Lemma complete_rule_dead w acc rid s a s' : complete_rule actor reason request_id w acc rid s = (Ok a, s') → dead (working s') rid.
Proof.
  unfold complete_rule. intros (r & s1 & [Hr ->]%get_rule_Ok & Hrun)%tx_bind_Ok r' Hr'.
  destruct (rid =? w).
  - apply tx_bind_Ok in Hrun as (b & s2 & (r2 & Hr2 & Hst)%set_rule_state_sets & [= _ <-]). simplify_eq. by unfold live_rule; rewrite Hst.
  - destruct (in_states _ _) eqn:Hl.
    + apply tx_bind_Ok in Hrun as (b & s2 & (r2 & Hr2 & Hst)%set_rule_state_sets & [= _ <-]). simplify_eq. by unfold live_rule; rewrite Hst.
    + injection Hrun as _ <-. simplify_eq. exact Hl.
Qed.

Lemma complete_plan_dead v t ids acc s acc' s' :
  dgt (pt_entry t) dzero = Ok true → dgt (pt_exit t) dzero = Ok true → deq (pt_signed t) dzero = true → pt_over_exited t = false →
  complete_plan now actor reason request_id v t ids false false acc s = (Ok acc', s') →
  ∀ rid, rid ∈ pv_rules v → dead (working s') rid.
Proof.
  intros He Hx Hz Ho Hrun rid Hin. unfold complete_plan in Hrun.
  apply tx_bind_Ok in Hrun as (b1 & s1 & H1 & Hrun). unfold lift in H1. rewrite He in H1. injection H1 as <- <-.
  apply tx_bind_Ok in Hrun as (b2 & s2 & H2 & Hrun). unfold lift in H2. rewrite Hx in H2. injection H2 as <- <-.
  rewrite Hz, Ho in Hrun. cbn [andb negb] in Hrun.
  apply tx_bind_Ok in Hrun as (w & s3 & H3 & Hrun). unfold lift in H3. injection H3 as H3 <-.
  apply tx_bind_Ok in Hrun as (wr & s4 & [_ ->]%get_rule_Ok & Hrun).
  apply tx_bind_Ok in Hrun as (acc1 & s5 & H5 & Hrun).
  assert (dead (working s5) rid) as Hdead.
  { revert rid Hin. eapply (foldl_establishes dead); [| |exact H5]; [|intros; by eapply complete_rule_dead].
    intros a0 x s0 a1 s6 b _ Hs Hb. destruct (decide (b = x)) as [->|Hne]; [by eapply complete_rule_dead|].
    intros r Hr. apply Hb. apply (moves_run (within (rules_scope (only x)))) in Hs; [|by apply moves_complete_rule].
    rewrite <- Hr. symmetry. by apply (wi_rules _ _ _ Hs). }
  apply (moves_run (within (mkStage (λ _, False) (λ _, False) (λ _, True) (λ _, True) False))) in Hrun as Hw.
  - intros r Hr. apply Hdead. rewrite <- Hr. symmetry. apply (wi_rules _ _ _ Hw). by intros [].
  - clear. apply moves_bind; [apply _|apply moves_iter; [apply _|intros; apply moves_complete_group]|intros []]. intros s.
    apply moves_at_get_plan. intros plan Hp. case_bool_decide; [|by apply moves_ret, _].
    apply moves_at_write; [apply _|by eapply within_plan; [done|done|done|left]|].
    apply moves_bind; [apply _|apply moves_rule_audit|intros; apply moves_ret, _].
Qed.
End Completion.

(** Rows carry their ids and the group of every rule exists. *)
Definition linked (d : Db) : Prop := keyed d ∧ ∀ id r, db_rules d !! id = Some r → is_Some (db_groups d !! ru_group_id r).

Lemma untrusted_group p d : linked d → untrusted_orders (pv_fills (plan_view p d)) ≠ [] → ∃ gid, gid ∈ pv_groups (plan_view p d).
Proof.
  intros [[_ Hkg] Hlink] Hu. destruct (untrusted_orders (pv_fills (plan_view p d))) as [|oid l] eqn:Eu; [done|].
  assert (oid ∈ untrusted_orders (pv_fills (plan_view p d))) as Ho by (rewrite Eu; left).
  unfold untrusted_orders in Ho. apply sorted_ids_elem, elem_of_dedup, list_elem_of_omap in Ho as (f & Hf & _).
  assert (∃ x, x ∈ pv_proposals (plan_view p d)) as [x Hx].
  { unfold plan_view in Hf |- *. cbn [pv_fills pv_proposals] in *. unfold fills_in in Hf. apply list_elem_of_filter in Hf as [Hf _].
    destruct (fl_order_id f) as [k|]; [|done]. apply bool_decide_eq_true in Hf. apply list_elem_of_fmap in Hf as (x & _ & Hx). by exists x. }
  apply proposal_rule in Hx. pose proof Hx as (r & Hr & Hp)%plan_rule_of. destruct (Hlink _ _ Hr) as [g Hg].
  exists (ru_group_id r). unfold plan_view in Hx |- *. cbn [pv_groups pv_rules] in *. apply select_ids_elem. exists g. split; [done|].
  apply bool_decide_eq_true, list_elem_of_omap. exists x.2. split; [done|]. rewrite Hr. cbn. by rewrite (Hkg _ _ Hg).
Qed.

Lemma plan_latched_elem v d gid : gid ∈ pv_groups v → latched gid d → plan_latched v d = true.
Proof.
  intros Hin (g & Hg & Hq). unfold plan_latched. apply existsb_exists. exists gid. split; [by apply list_elem_of_In|]. by rewrite Hg.
Qed.

(** Before the completion stage nothing marks a plan completed. *)
Lemma status_before_completion now clock a b c p d s s1 s2 s3 s4 s5 s6 s7 s8 t acc a4 a5 a6 a7 a8 er xr nt req :
  let v := plan_view p d in
  latch_untrusted now a b c v s = (Ok (), s1) → store_totals a b c v t s1 = (Ok (), s2) → trip_over_exit now a b c v t s2 = (Ok (), s3) →
  tx_foldl (settle_entry now a b c v t) acc er s3 = (Ok a4, s4) →
  tx_foldl (withdraw_intent now clock a b c v t) a4 (pv_proposals v) s4 = (Ok a5, s5) →
  late_residual now a b c v t xr req a5 s5 = (Ok a6, s6) → tx_foldl (settle_exit now a b c v t nt) a6 xr s6 = (Ok a7, s7) →
  protect resize_action now a b c t xr a7 s7 = (Ok a8, s8) →
  status_of p (working s8) = status_of p (working s) ∨ status_of p (working s8) = Some "protection_required".
Proof.
  intros v H1 H2 H3 H4 H5 H6 H7 H8.
  assert (status_of p (working s5) = status_of p (working s)) as E5.
  { transitivity (status_of p (working s1));
      [|eapply within_status; [eapply moves_run; [|exact H1]; apply (moves_latch_untrusted now a b c nothing)|by intros []]].
    transitivity (status_of p (working s2)); [|by eapply store_totals_status].
    eapply (within_status no_plan_scope); [|by intros []]. etrans; [eapply moves_run; [|exact H3]; apply moves_trip_over_exit|].
    etrans; [eapply moves_run; [|exact H4]; apply moves_foldl; [apply _|intros; by apply moves_settle_entry]|].
    eapply moves_run; [|exact H5]. apply moves_foldl; [apply _|]. intros. by apply moves_withdraw. }
  assert (status_of p (working s8) = status_of p (working s6)) as ->.
  { eapply (within_status no_plan_scope); [|by intros []].
    etrans; [eapply moves_run; [|exact H7]; apply moves_foldl; [apply _|intros; by apply moves_settle_exit]|].
    eapply moves_run; [|exact H8]. by apply moves_protect. }
  destruct (late_residual_status _ _ _ _ _ _ _ _ _ _ _ _ H6) as [E|E]; cbn in E; rewrite E; [by left|by right].
Qed.

(** A turn that completes its plan. *)
Record completion (p : Z) (d : Db) (t : PlanTotals) (d' : Db) : Prop := {
  co_entered : dgt (pt_entry t) dzero = Ok true;
  co_exited : dgt (pt_exit t) dzero = Ok true;
  co_flat : deq (pt_signed t) dzero = true;
  co_trusted : linked d → untrusted_orders (pv_fills (plan_view p d)) = [];
  co_orders : ∀ x o, x ∈ pv_proposals (plan_view p d) → db_orders d' !! x.1.2 = Some o → order_outstanding o = false;
  co_rules : ∀ rid, rid ∈ pv_rules (plan_view p d) → dead d' rid;
}.

Lemma turn_completes now clock a b c p d d' t s s' :
  turn p d d' t s s' now clock a b c → status_of p d ≠ Some "completed" → status_of p d' = Some "completed" → completion p d t (working s').
Proof.
  intros [F1 [_ _ Hst] F2] Hn Hy.
  destruct Hst as (s1 & s2 & s3 & s4 & s5 & s6 & s7 & s8 & a4 & a5 & a6 & a7 & a8 & acc0 & acc1 & H1 & H2 & H3 & H4 & H5 & H6 & H7 & H8 & H9).
  assert (status_of p (working s8) ≠ Some "completed") as Hn8.
  { destruct (status_before_completion _ _ _ _ _ _ _ _ _ _ _ _ _ _ _ _ _ _ _ _ _ _ _ _ _ _ _ H1 H2 H3 H4 H5 H6 H7 H8) as [-> | ->]; [|done].
    unfold status_of in *. by rewrite (fr_plan _ _ _ F1). }
  assert (status_of p (working s') = Some "completed") as Hy' by (unfold status_of in *; by rewrite <- (fr_plan _ _ _ F2)).
  pose proof (complete_plan_cases _ _ _ _ _ _ _ _ _ _ _ _ _ H9) as [->|(He & Hx & Hz & Ho & Hnt & Hreq)]; [done|].
  pose proof (late_stages_quiet _ _ _ _ _ _ _ _ _ _ _ _ _ _ _ _ _ _ _ H6 H7 H8 H9) as W.
  rewrite Hnt, Hreq in H9. split; try done.
  - intros Hlink. destruct (decide (untrusted_orders (pv_fills (plan_view p d)) = [])) as [|Hu]; [done|exfalso].
    destruct (untrusted_group p d Hlink Hu) as [gid Hg]. destruct (latch_untrusted_run _ _ _ _ _ _ _ H1 Hu) as [_ Hl].
    enough (plan_latched (plan_view p d) (working s5) = true) by congruence. eapply plan_latched_elem; [done|].
    apply (wi_latches _ _ _ (entry_stages _ _ _ _ _ _ _ _ _ _ _ _ _ _ H4 H5)); [by intros []|].
    apply (wi_latches _ _ _ (totals_stages _ _ _ _ _ _ _ _ _ H2 H3)); [by intros []|]. by apply Hl.
  - intros x o Hx' Hox. apply not_true_is_false. intros Hout.
    enough (plan_nonterminal (plan_view p d) (working s5) = true) by congruence. rewrite (wi_orders _ _ _ W) in Hox by (by intros []).
    unfold plan_nonterminal. apply existsb_exists. exists x. split; [by apply list_elem_of_In|]. by rewrite Hox.
  - intros rid Hrid. exact (complete_plan_dead _ _ _ _ _ _ _ _ _ _ _ He Hx Hz Ho H9 rid Hrid).
Qed.

(** A plan without rules is not visited. *)
Lemma refresh_unvisited now clock actor reason request_id d acc d' p :
  refresh_fill_activated_rules resize_action now clock actor reason request_id d = (Ok acc, d') → ¬ has_plan p d → frame p d d'.
Proof.
  intros [_ (a & b & c & s' & _ & Hr & ->)]%refresh_moves Hp.
  unfold reconcile_plan_lifecycle_in_session in Hr. apply tx_bind_Ok in Hr as ([[a' b'] c'] & s0 & Hl & Hr). unfold lift in Hl. injection Hl as _ <-.
  unfold reconcile_plans in Hr. apply tx_bind_Ok in Hr as (d0 & s0 & [= <- <-] & Hr).
  apply (loop_frame now clock a' b' c' p) in Hr; [done|]. by rewrite plan_ids_elem.
Qed.

(** Claim C29.  A plan completes only when it is flat.  If a refresh that returned leaves a plan completed that was not
    before, its trusted entry and exit fills are positive and equal, none of its fills lacks a trusted identity, none of its
    orders is outstanding and none of its rules is live. *)
Theorem plan_completes_only_flat now clock actor reason request_id d acc d' p :
  linked d → refresh_fill_activated_rules resize_action now clock actor reason request_id d = (Ok acc, d') →
  status_of p d ≠ Some "completed" → status_of p d' = Some "completed" →
  ∃ t, plan_totals_of p d = Ok t
    ∧ dgt (pt_entry t) dzero = Ok true ∧ dgt (pt_exit t) dzero = Ok true ∧ deq (pt_signed t) dzero = true
    ∧ untrusted_orders (pv_fills (plan_view p d)) = []
    ∧ (∀ x o, x ∈ pv_proposals (plan_view p d) → db_orders d' !! x.1.2 = Some o → order_outstanding o = false)
    ∧ (∀ rid r, db_rules d' !! rid = Some r → ru_plan_id r = Some p → live_rule r = false).
Proof.
  intros Hlink Hrun Hn Hy. destruct (decide (p ∈ plan_ids d)) as [Hin%plan_ids_elem|Hnin].
  2: { rewrite plan_ids_elem in Hnin. destruct (refresh_unvisited _ _ _ _ _ _ _ _ _ Hrun Hnin) as [_ E _]. unfold status_of in *. by rewrite E in Hy. }
  destruct (refresh_turn _ _ _ _ _ _ _ _ _ Hrun Hin) as (t & s & s' & a & b & c & Hturn & Ht).
  pose proof (tn_after _ _ _ _ _ _ _ _ _ _ _ Hturn) as F2.
  destruct (turn_completes _ _ _ _ _ _ _ _ _ _ _ Hturn Hn Hy) as [He Hx Hz Hu Hord Hdead]. exists t. split_and!; auto.
  - intros x o Hx' Hox. apply not_true_is_false. intros Hout.
    pose proof (pm_orders _ _ (fr_moves _ _ _ F2) x.1.2) as Hm. rewrite Hox in Hm.
    destruct (db_orders (working s') !! x.1.2) as [o5|] eqn:Ho5; [|done]. apply (os_outstanding _ _ Hm) in Hout. by rewrite (Hord x o5 Hx' Ho5) in Hout.
  - intros rid r Hr Hp. pose proof (refresh_moves _ _ _ _ _ _ _ _ _ Hrun) as [M _].
    pose proof (pm_rules _ _ M rid) as Hm. rewrite Hr in Hm. destruct (db_rules d !! rid) as [r0|] eqn:Hr0; [|done].
    apply rule_keeps_fields in Hm as (_ & _ & Ep & _).
    pose proof (pm_rules _ _ (fr_moves _ _ _ F2) rid) as Hm'. rewrite Hr in Hm'. destruct (db_rules (working s') !! rid) as [r1|] eqn:Hr1; [|done].
    pose proof (rule_keeps_fields _ _ Hm') as (_ & _ & Ep' & _).
    assert (db_rules d' !! rid = Some r1) as E by (eapply (fr_rules _ _ _ F2); [done|congruence]). rewrite Hr in E. injection E as ->.
    apply (Hdead rid); [|done]. apply plan_rule_of. exists r0. split; [done|congruence].
Qed.
End Theorems.

(** * Concrete runs *)

#[local] Instance plan_demo_digest : Digest := λ s, s.

Definition demo_resize (old : string) (qty : Decimal) : option string := Some ("qty=" +:+ dstr qty).

Definition demo_order (id : Z) (side : string) (status : OrderStatus) : Order :=
  mkOrder id ("key-" +:+ pretty id) "AAPL" side "market" (Some (Fin 10 0)) None None (order_status_value status)
    None None EmptyString None "simple" "{}" 0 None "not_started" None EmptyString "none" 0 100 100.
Definition demo_fill (id order_id : Z) (side : string) (trusted : bool) : Fill :=
  mkFillRow id (Some order_id) "AAPL" side (Fin 10 0) (Fin 100 0) (if trusted then Some ("fill-" +:+ pretty id) else None) "trusted" 200.
Definition demo_plan_rule (id gid : Z) (kind : RuleKind) (state : RuleState) : Rule :=
  mkRule id gid 1 "AAPL" "{}" "{}" (rule_state_value state) 100 (Some 7) (rule_kind_value kind) None None None false "fill" true.
Definition demo_plan_group (id : Z) (state : RuleState) : RuleGroup :=
  mkRuleGroup id ("group-" +:+ pretty id) (rule_state_value state) None None None 0 false 100 100.

(** Plan 7 bought ten shares through order 1 under rule 3; rule 1 is its stop, proposed as order 2. *)
Definition lifecycle_db (stop : RuleState) (stop_order : OrderStatus) (fills : list Fill) : Db :=
  mkDb {[ 1 := demo_order 1 "buy" FILLED; 2 := demo_order 2 "sell" stop_order ]}
    {[ 1 := mkProposal 1 1 (Some 6) (Some 3) 0 "entry" 15 100 1000; 2 := mkProposal 2 2 (Some 5) (Some 1) 1 "stop" 15 100 1000 ]}
    {[ 5 := demo_plan_group 5 RS_ACTIVE; 6 := demo_plan_group 6 RS_TRIGGERED ]}
    {[ 1 := demo_plan_rule 1 5 STOP stop; 3 := demo_plan_rule 3 6 ENTRY RS_TRIGGERED ]}
    fills [] [] ∅ ∅ [] ∅ ∅ {[ 7 := mkTradePlan 7 "AAPL" "buy" "approved" (Fin 10 0) (Fin 0 0) 1 ]} ∅.

Definition refreshed (d : Db) : outcome FillActivationResult * Db :=
  refresh_fill_activated_rules demo_resize 300 301 "monitor" "fills" "r1" d.

Definition entered : Db := lifecycle_db RS_PROCESSING PROPOSED [demo_fill 1 1 "buy" true].
Definition unprotected : Db := lifecycle_db RS_PENDING CANCELED [demo_fill 1 1 "buy" true].
Definition exited : Db := lifecycle_db RS_PROCESSING FILLED [demo_fill 1 1 "buy" true; demo_fill 2 2 "sell" true].
Definition contradicted : Db := lifecycle_db RS_PROCESSING FILLED [demo_fill 1 1 "buy" true; demo_fill 2 2 "sell" false].

Lemma lifecycle_db_linked stop stop_order fills : linked (lifecycle_db stop stop_order fills).
Proof.
  split; [split|]; intros id r; cbn.
  - rewrite lookup_insert_Some, lookup_singleton_Some. naive_solver.
  - rewrite lookup_insert_Some, lookup_singleton_Some. naive_solver.
  - rewrite lookup_insert_Some, lookup_singleton_Some. intros [[_ <-]|[_ [_ <-]]]; vm_compute; by eexists.
Qed.

(** The stop proposed under the current generation survives. *)
Lemma obsolete_intents_withdrawn_witness :
  option_map o_status (db_orders (refreshed entered).2 !! 2) = Some "proposed" ∧ 1 ≤ p_plan_generation (mkProposal 2 2 (Some 5) (Some 1) 1 "stop" 15 100 1000).
Proof.
  split; [vm_compute; reflexivity|].
  refine (proj1 (obsolete_intents_withdrawn demo_resize 300 301 "monitor" "fills" "r1" entered
    (mkActivation 0 0 0 0 0) (refreshed entered).2 7 (mkProposal 2 2 (Some 5) (Some 1) 1 "stop" 15 100 1000) 2 1
    (demo_order 2 "sell" PROPOSED) (demo_plan_rule 1 5 STOP RS_PROCESSING) (mkTradePlan 7 "AAPL" "buy" "approved" (Fin 10 0) (Fin 0 0) 1)
    (mkPlanTotals {[ 1 := Fin 0 0; 3 := Fin 10 0 ]} (Fin 10 0) (Fin 0 0) (Fin 10 0) false (Fin 10 0)) _ _ _ _ _ _ _) _);
    try (vm_compute; reflexivity).
  replace (pv_proposals (plan_view 7 entered)) with [(mkProposal 1 1 (Some 6) (Some 3) 0 "entry" 15 100 1000, 1, 3);
    (mkProposal 2 2 (Some 5) (Some 1) 1 "stop" 15 100 1000, 2, 1)] by (vm_compute; reflexivity). right. left.
Defined.

Lemma protection_sized_witness :
  option_map ru_action_json (db_rules (refreshed unprotected).2 !! 1) = Some "qty=10.000000".
Proof.
  destruct (protection_sized demo_resize 300 301 "monitor" "fills" "r1" unprotected
    (mkActivation 0 1 0 0 0) (refreshed unprotected).2 7
    (mkPlanTotals {[ 1 := Fin 0 0; 3 := Fin 10 0 ]} (Fin 10 0) (Fin 0 0) (Fin 10 0) false (Fin 10 0)) 1
    (set_ru_action "qty=10.000000" (demo_plan_rule 1 5 STOP RS_ACTIVE)) (Fin 10 0) (Fin 10000000 (-6))) as (_ & [old Hold] & _);
    try (vm_compute; reflexivity).
Defined.

Lemma contradictions_trip_drift_witness : is_tripped scope_broker_drift (refreshed contradicted).2 = true.
Proof.
  assert (∃ acc, refreshed contradicted = (Ok acc, (refreshed contradicted).2)) as [acc Hr] by (eexists; vm_compute; reflexivity).
  assert (∃ t, plan_totals_of 7 contradicted = Ok t) as [t Ht] by (eexists; vm_compute; reflexivity).
  apply (contradictions_trip_drift demo_resize 300 301 "monitor" "fills" "r1" contradicted acc _ 7 t Hr).
  - exists 1, (demo_plan_rule 1 5 STOP RS_PROCESSING). split; reflexivity.
  - exact Ht.
  - left. vm_compute. discriminate.
Defined.

Lemma plan_completes_only_flat_witness :
  ∃ t, plan_totals_of 7 exited = Ok t ∧ deq (pt_signed t) dzero = true.
Proof.
  assert (∃ acc, refreshed exited = (Ok acc, (refreshed exited).2)) as [acc Hr] by (eexists; vm_compute; reflexivity).
  destruct (plan_completes_only_flat demo_resize 300 301 "monitor" "fills" "r1" exited acc (refreshed exited).2 7) as (t & Ht & _ & _ & Hz & _).
  - apply lifecycle_db_linked.
  - exact Hr.
  - vm_compute. discriminate.
  - vm_compute. reflexivity.
  - exists t. split; [exact Ht|exact Hz].
Defined.
