(* ===== verification/ReconcileSession.v ===== *)
(** Audited sessions of [orders/reconciliation.py]: the [before_flush] listener that queues
    an audit row for every order, fill and cursor a reconciliation session writes, and
    [_commit_reconciliation_mutations], which runs the plan lifecycle, flushes, stores the
    queued rows with fresh lifecycle proofs and commits.

    A session of this module remembers the database as of its last flush; a flush compares
    it with the working copy.  The session autoflushes before a query, so a definition calls
    [flush] where the source queries.  SQLAlchemy keeps [session.dirty] as an unordered set:
    the model audits its rows by table and primary key.  A clock reading takes the next
    element of the stream [r_clock]. *)

From S2P Require Import Prelude PyDecimal Assets BrokerModels Breakers.
From S2P Require Import Database Lifecycle SessionLogic BreakerStore SafetyState RuleRepository PlanLifecycle.
From Stdlib Require Import Lia.
Local Open Scope Z_scope.

(** * Context and audit rows *)

(** [_require_context]. *)
Definition reconcile_context (actor reason request_id : string) : outcome (string * string * string) :=
  let actor := strip actor in
  let reason := strip reason in
  let request_id := strip request_id in
  if negb (nonempty actor) || negb (nonempty reason) || negb (nonempty request_id)
  then Raise (ValueError "reconciliation actor, reason, and request_id must be non-empty")
  else Ok (actor, reason, request_id).

(** [target_id]: the text of a row id, or a key that is not the text of an integer. *)
Inductive audit_target : Type := IdTarget (id : Z) | KeyTarget (key : string).

Definition target_text (t : audit_target) : string :=
  match t with IdTarget id => pretty id | KeyTarget key => key end.

Definition audit_reconciliation_mutation `{Digest} (actor reason request_id action target_type : string)
    (target : audit_target) (result_code : string) (detail : dict json) : tx () :=
  d ← read;
  insert_audit (mkAuditEvent actor action target_type (target_text target) request_id EmptyString reason
    result_code 0
    (JObj (match target with
           | IdTarget id => augment_lifecycle_detail d target_type id detail
           | KeyTarget _ => detail
           end)) None).

(** * What a flush writes *)

Definition changed {A} `{EqDecision A} (name : string) (x y : A) : list string :=
  if decide (x = y) then [] else [name].

(** [_changed_columns] of an order, by name.  Quantities are stored and normalized at the
    scale of their column, so equal amounts have equal representations. *)
Definition order_changes (o o' : Order) : list string :=
  changed "acceptance_state" (o_acceptance_state o) (o_acceptance_state o')
  ++ changed "approval_actor" (o_approval_actor o) (o_approval_actor o')
  ++ changed "approval_reason" (o_approval_reason o) (o_approval_reason o')
  ++ changed "approved_at" (o_approved_at o) (o_approved_at o')
  ++ changed "broker_order_id" (o_broker_order_id o) (o_broker_order_id o')
  ++ changed "created_at" (o_created_at o) (o_created_at o')
  ++ changed "id" (o_id o) (o_id o')
  ++ changed "idempotency_key" (o_idempotency_key o) (o_idempotency_key o')
  ++ changed "last_error_code" (o_last_error_code o) (o_last_error_code o')
  ++ changed "last_reconciled_at" (o_last_reconciled_at o) (o_last_reconciled_at o')
  ++ changed "limit_price" (o_limit_price o) (o_limit_price o')
  ++ changed "notional" (o_notional o) (o_notional o')
  ++ changed "order_type" (o_order_type o) (o_order_type o')
  ++ changed "plan_cancel_state" (o_plan_cancel_state o) (o_plan_cancel_state o')
  ++ changed "qty" (o_qty o) (o_qty o')
  ++ changed "side" (o_side o) (o_side o')
  ++ changed "status" (o_status o) (o_status o')
  ++ changed "submission_attempt" (o_submission_attempt o) (o_submission_attempt o')
  ++ changed "submission_kind" (o_submission_kind o) (o_submission_kind o')
  ++ changed "submission_payload_json" (o_submission_payload_json o) (o_submission_payload_json o')
  ++ changed "submission_started_at" (o_submission_started_at o) (o_submission_started_at o')
  ++ changed "ticker" (o_ticker o) (o_ticker o')
  ++ changed "updated_at" (o_updated_at o) (o_updated_at o')
  ++ changed "version" (o_version o) (o_version o').

Definition fill_changes (f f' : Fill) : list string :=
  changed "broker_fill_id" (fl_broker_fill_id f) (fl_broker_fill_id f')
  ++ changed "filled_at" (fl_filled_at f) (fl_filled_at f')
  ++ changed "id" (fl_id f) (fl_id f')
  ++ changed "order_id" (fl_order_id f) (fl_order_id f')
  ++ changed "price" (fl_price f) (fl_price f')
  ++ changed "qty" (fl_qty f) (fl_qty f')
  ++ changed "reconciliation_state" (fl_reconciliation_state f) (fl_reconciliation_state f')
  ++ changed "side" (fl_side f) (fl_side f')
  ++ changed "ticker" (fl_ticker f) (fl_ticker f').

Definition cursor_changes (c c' : ReconciliationCursor) : list string :=
  changed "broker" (rc_broker c) (rc_broker c')
  ++ changed "last_activity_at" (rc_last_activity_at c) (rc_last_activity_at c')
  ++ changed "last_activity_id" (rc_last_activity_id c) (rc_last_activity_id c')
  ++ changed "stream" (rc_stream c) (rc_stream c')
  ++ changed "version" (rc_version c) (rc_version c').

(** One entry of the audit queue; [detail] holds only [changed_fields]. *)
Record PendingAudit : Type := mkPending {
  pa_action : string;
  pa_target_type : string;
  pa_target : audit_target;
  pa_result_code : string;
  pa_changed_fields : list string;
}.

Definition find_fill (id : Z) (fills : list Fill) : option Fill :=
  snd <$> list_find (λ f, fl_id f = id) fills.

Definition pending_order (id : Z) (o o' : Order) : list PendingAudit :=
  let fields := order_changes o o' in
  if decide (fields = []) then [] else [mkPending "order.reconcile" "order" (IdTarget id) (o_status o') fields].

Definition pending_fill (result_code : string) (fields : list string) (f : Fill) : PendingAudit :=
  mkPending "fill.reconcile" "fill" (IdTarget (fl_id f)) result_code fields.

Definition pending_cursor (fields : list string) (k : string * string) : PendingAudit :=
  mkPending "reconciliation_cursor.advance" "reconciliation_cursor" (KeyTarget (k.1 +:+ ":" +:+ k.2)) "advanced" fields.

(** The row as of the last flush is [None] for a new row; unchanged rows are not modified. *)
Definition dirty_fill (old : option Fill) (f : Fill) : option (list string) :=
  match old with
  | None => None
  | Some f0 => let fields := fill_changes f0 f in if decide (fields = []) then None else Some fields
  end.

Definition dirty_cursor (old : option ReconciliationCursor) (c : ReconciliationCursor) : option (list string) :=
  match old with
  | None => None
  | Some c0 => let fields := cursor_changes c0 c in if decide (fields = []) then None else Some fields
  end.

Definition new_fills (old new : Db) : list Fill := filter (λ f, find_fill (fl_id f) (db_fills old) = None) (db_fills new).
Definition deleted_fills (old new : Db) : list Fill := new_fills new old.
Definition dirty_fills (old new : Db) : list Fill :=
  filter (λ f, is_Some (dirty_fill (find_fill (fl_id f) (db_fills old)) f)) (db_fills new).

(** [_audit_reconciliation_flush]: rows of [session.new], [session.dirty] and
    [session.deleted]. *)
Definition flush_pending (old new : Db) : list PendingAudit :=
  map (pending_fill "inserted" ["insert"]) (new_fills old new)
  ++ map (pending_cursor ["insert"])
       (map fst (filter (λ p, db_cursors old !! p.1 = None) (map_to_list (db_cursors new))))
  ++ concat (map (λ id, match db_orders old !! id, db_orders new !! id with
                        | Some o, Some o' => pending_order id o o'
                        | _, _ => []
                        end) (select_ids (λ _, true) (db_orders new)))
  ++ map (λ f, pending_fill (fl_reconciliation_state f)
                 (default [] (dirty_fill (find_fill (fl_id f) (db_fills old)) f)) f) (dirty_fills old new)
  ++ omap (λ p, option_map (λ fields, pending_cursor fields p.1) (dirty_cursor (db_cursors old !! p.1) p.2))
       (map_to_list (db_cursors new))
  ++ map (pending_fill "deleted" ["delete"]) (deleted_fills old new).

(** [_fill_parent_order_ids]: the current parent and, of a moved row, the previous one. *)
Definition fill_parent_order_ids (old : option Fill) (f : Fill) : list Z :=
  filter (λ id, 0 < id) (option_list (fl_order_id f) ++ option_list (old ≫= fl_order_id)).

Definition flush_parents (old new : Db) : list Z :=
  concat (map (fill_parent_order_ids None) (new_fills old new))
  ++ concat (map (λ f, fill_parent_order_ids (find_fill (fl_id f) (db_fills old)) f) (dirty_fills old new))
  ++ concat (map (fill_parent_order_ids None) (deleted_fills old new)).

(** * Sessions *)

Definition Clock : Type := nat → time.

Record RSession : Type := mkR {
  r_session : Session;
  r_flushed : Db;
  r_pending : list PendingAudit;
  r_parents : list Z;
  r_clock : Clock;
}.

Definition rtx (A : Type) : Type := RSession → outcome A * RSession.

#[export] Instance rtx_ret : MRet rtx := λ A a s, (Ok a, s).
#[export] Instance rtx_bind : MBind rtx := λ A B f m s,
  match m s with (Ok a, s') => f a s' | (Raise e, s') => (Raise e, s') end.

(** A statement on the session itself. *)
Definition on_session {A} (m : tx A) : rtx A := λ s,
  let '(r, s') := m (r_session s) in
  (r, mkR s' (r_flushed s) (r_pending s) (r_parents s) (r_clock s)).

(** [datetime.now(timezone.utc)]. *)
Definition now : rtx time := λ s,
  (Ok (r_clock s 0%nat),
   mkR (r_session s) (r_flushed s) (r_pending s) (r_parents s) (λ n, r_clock s (S n))).

Definition flush : rtx () := λ s,
  let new := working (r_session s) in
  (Ok (), mkR (r_session s) new (r_pending s ++ flush_pending (r_flushed s) new)
            (r_parents s ++ flush_parents (r_flushed s) new) (r_clock s)).

(** A query: the session flushes, then answers from the working copy. *)
Definition query {A} (f : Db → A) : rtx A := flush ≫= λ _, d ← on_session read; mret (f d).

Fixpoint rtx_iter {A} (f : A → rtx ()) (l : list A) : rtx () :=
  match l with [] => mret () | x :: l' => f x ≫= λ _, rtx_iter f l' end.

Fixpoint rtx_foldl {A B} (f : A → B → rtx A) (acc : A) (l : list B) : rtx A :=
  match l with [] => mret acc | x :: l' => f acc x ≫= λ acc', rtx_foldl f acc' l' end.

Section Commit.
Context `{Digest} (resize_action : string → Decimal → option string).

(** [_persist_pending_reconciliation_audits]. *)
Definition directly_audited (pending : list PendingAudit) : list Z :=
  omap (λ p, if bool_decide (pa_target_type p = "order")
             then match pa_target p with IdTarget id => Some id | KeyTarget _ => None end
             else None) pending.

Definition audit_pending (actor reason request_id : string) (p : PendingAudit) : tx () :=
  audit_reconciliation_mutation actor reason request_id (pa_action p) (pa_target_type p) (pa_target p)
    (pa_result_code p) [("changed_fields", JList (map JStr (pa_changed_fields p)))].

Definition audit_parent (actor reason request_id : string) (order_id : Z) : tx () :=
  audit_reconciliation_mutation actor reason request_id "order.fill_reconcile" "order" (IdTarget order_id)
    "fills_reconciled" [("changed_fields", JList [JStr "fills"])].

Definition persist_pending_reconciliation_audits (actor reason request_id : string) : rtx () := λ s,
  let pending := r_pending s in
  let parents := sorted_ids (filter (λ id, id ∉ directly_audited pending) (dedup (r_parents s))) in
  on_session (tx_iter (audit_pending actor reason request_id) pending ≫= λ _,
              tx_iter (audit_parent actor reason request_id) parents)
    (mkR (r_session s) (r_flushed s) [] [] (r_clock s)).

(** [_commit_reconciliation_mutations].  The lifecycle pass starts with a query, and changes
    an order at most once. *)
Definition commit_reconciliation_mutations (actor reason request_id : string) : rtx () :=
  t ← now;
  flush ≫= λ _,
  clock ← now;
  on_session (reconcile_plan_lifecycle_in_session resize_action t clock actor reason request_id) ≫= λ _,
  flush ≫= λ _,
  persist_pending_reconciliation_audits actor reason request_id ≫= λ _,
  on_session commit.

End Commit.

(** [with self.session_factory() as session: body], with the clock readings it leaves. *)
Definition with_rsession {A} (body : rtx A) (d : Db) (c : Clock) : outcome A * Db * Clock :=
  let '(r, s) := body (mkR (mkSession d d) d [] [] c) in (r, durable (r_session s), r_clock s).
