(* ===== verification/FillImport.v ===== *)
(** Fills in [orders/reconciliation.py]: latching an order, the quarantine of legacy fills,
    the checks on a broker's fill activity and the import of a batch of activities with its
    cursor, as audited sessions ([ReconcileSession]). *)

From S2P Require Import Prelude PyDecimal Assets BrokerModels Breakers.
From S2P Require Import Database Lifecycle SessionLogic BreakerStore SafetyState MarketClock RuleRepository PlanLifecycle.
From S2P Require Import ReconcileSession.
From Stdlib Require Import Ascii Lia.
Local Open Scope Z_scope.

(** * Text *)

(** [repr] of a [str]: single quotes unless the text has one and no double quote. *)
Definition hex_digit (n : nat) : ascii :=
  ascii_of_nat (if decide (n < 10)%nat then 48 + n else 87 + n).

Definition repr_char (quote c : ascii) : string :=
  let n := nat_of_ascii c in
  if decide (c = quote ∨ c = "\"%char) then String "\" (String c EmptyString)
  else if decide (n = 9)%nat then "\t" else if decide (n = 10)%nat then "\n" else if decide (n = 13)%nat then "\r"
  else if decide (n < 32 ∨ n = 127)%nat
  then "\x" +:+ String (hex_digit (n / 16)) (String (hex_digit (n mod 16)) EmptyString)
  else String c EmptyString.

Fixpoint repr_chars (quote : ascii) (s : string) : string :=
  match s with EmptyString => EmptyString | String c s' => repr_char quote c +:+ repr_chars quote s' end.

Definition single_quote : ascii := "'"%char.
Definition double_quote : ascii := ascii_of_nat 34.

Definition py_repr (s : string) : string :=
  let quote := if contains_char single_quote s && negb (contains_char double_quote s)
               then double_quote else single_quote in
  String quote (repr_chars quote s +:+ String quote EmptyString).

Definition decimal_repr (x : Decimal) : string := "Decimal('" +:+ dstr x +:+ "')".
Definition opt_text (x : option string) : string := default "None" x.
Definition ids_text (l : list Z) : string := "[" +:+ join ", " (map pretty l) +:+ "]".

(** SQLite [LIKE]: [%] matches any text, [_] one character, letters match in either case. *)
Fixpoint sql_like (pattern s : string) : bool :=
  match pattern with
  | EmptyString => match s with EmptyString => true | _ => false end
  | String c p =>
      if bool_decide (c = "%"%char)
      then (fix any (s : string) : bool :=
              sql_like p s || match s with EmptyString => false | String _ s' => any s' end) s
      else match s with
           | EmptyString => false
           | String x s' => (bool_decide (c = "_"%char) || bool_decide (ascii_lower c = ascii_lower x)) && sql_like p s'
           end
  end.

(** * Rows *)

(** [BrokerFill]: an execution as the broker's activity ledger reports it. *)
Record BrokerFill : Type := mkBrokerFill {
  bf_broker_fill_id : string;
  bf_broker_order_id : string;
  bf_ticker : string;
  bf_side : string;
  bf_qty : Decimal;
  bf_price : Decimal;
  bf_filled_at : time;
}.

Definition set_bf_ticker (v : string) (x : BrokerFill) : BrokerFill :=
  mkBrokerFill (bf_broker_fill_id x) (bf_broker_order_id x) v (bf_side x) (bf_qty x) (bf_price x) (bf_filled_at x).
Definition set_bf_amounts (qty price : Decimal) (x : BrokerFill) : BrokerFill :=
  mkBrokerFill (bf_broker_fill_id x) (bf_broker_order_id x) (bf_ticker x) (bf_side x) qty price (bf_filled_at x).

Definition set_fl_state (order_id : option Z) (state : string) (f : Fill) : Fill :=
  mkFillRow (fl_id f) order_id (fl_ticker f) (fl_side f) (fl_qty f) (fl_price f) (fl_broker_fill_id f) state (fl_filled_at f).

Definition put_fill (f' : Fill) : tx () :=
  write (λ d, set_db_fills (map (λ f, if decide (fl_id f = fl_id f') then f' else f) (db_fills d)) d).

(** [session.add(Fill(...))]: the next row id, after every stored row. *)
Definition next_fill_id (d : Db) : Z := 1 + foldr Z.max 0 (map fl_id (db_fills d)).
Definition add_fill_row (order_id : Z) (ticker side : string) (qty price : Decimal) (broker_fill_id : string) (filled_at : time)
    : tx () :=
  write (λ d, set_db_fills (db_fills d ++
    [mkFillRow (next_fill_id d) (Some order_id) ticker side qty price (Some broker_fill_id)
       FILL_RECONCILIATION_TRUSTED filled_at]) d).

Definition order_fills (order_id : Z) (d : Db) : list Fill := filter (λ f, fl_order_id f = Some order_id) (db_fills d).

(** [select(Order.id).where(pred)]. *)
Definition order_ids_where (pred : Order → bool) (d : Db) : list Z := select_ids pred (db_orders d).
Definition has_broker_id (b : string) (o : Order) : bool := bool_decide (o_broker_order_id o = Some b).

(** * Latches *)

Definition needs_latch (error_code : string) (o : Order) : bool :=
  negb (bool_decide (o_acceptance_state o = FILL_RECONCILIATION_REQUIRED))
  || negb (bool_decide (o_last_error_code o = error_code)).

Definition latch_row (error_code : string) (t : time) (o : Order) : Order :=
  set_o_version (o_version o + 1) (set_o_updated_at t
    (set_o_last_error_code error_code (set_o_acceptance_state FILL_RECONCILIATION_REQUIRED o))).

Definition latch_order_in_session (order_id : Z) (error_code : string) : rtx bool :=
  o ← on_session (get_order order_id);
  if needs_latch error_code o then
    t ← now; on_session (put_order order_id (latch_row error_code t o)) ≫= λ _, mret true
  else mret false.

(** ["{order.broker_order_id}:"], the prefix of the fills synthesised from cumulative reports. *)
Definition synthetic_prefix (o : Order) : string := opt_text (o_broker_order_id o) +:+ ":".

Definition is_exact_fill (o : Order) (f : Fill) : bool :=
  fill_has_trusted_identity f
  && match fl_broker_fill_id f with None => true | Some i => negb (startswith i (synthetic_prefix o)) end.

Definition exact_fills (o : Order) (fills : list Fill) : list Fill := filter (λ f, is_exact_fill o f = true) fills.

Definition trusted_exact_fill_qty (order_id : Z) (o : Order) (d : Db) : outcome Decimal :=
  dsum (map fl_qty (exact_fills o (order_fills order_id d))).

Definition quantity_overfill_detail (order_id : Z) (o : Order) (aggregate_exact_qty : Decimal) : option string :=
  if exact_fill_exceeds_order_quantity (o_qty o) aggregate_exact_qty
  then Some ("authoritative fill quantity " +:+ dstr aggregate_exact_qty +:+ " for order " +:+ pretty order_id
             +:+ " exceeds requested quantity " +:+ match o_qty o with None => "None" | Some q => dstr q end)
  else None.

(** The fault appended to [drift], when there is one; the trip's statement flushes the latch. *)
Definition latch_quantity_overfill_in_session (order_id : Z) (aggregate_exact_qty : Decimal) (actor reason request_id : string)
    : rtx (option string) :=
  o ← on_session (get_order order_id);
  match quantity_overfill_detail order_id o aggregate_exact_qty with
  | None => mret None
  | Some detail =>
      latch_order_in_session order_id "fill_quantity_exceeds_order" ≫= λ _,
      t ← now;
      flush ≫= λ _,
      on_session (trip_in_session scope_broker_drift detail actor request_id t (Some reason)) ≫= λ _,
      mret (Some detail)
  end.

Section Activities.
Context `{Digest} (resize_action : string → Decimal → option string).

Abbreviation commit_all := (commit_reconciliation_mutations resize_action).

(** The session of [_latch_order_ids], after the empty case. *)
Definition latch_orders (order_ids : list Z) (error_code actor reason request_id : string) : rtx (list Z) :=
  latched ← query (order_ids_where (λ o, bool_decide (o_id o ∈ order_ids)));
  rtx_iter (λ id, latch_order_in_session id error_code ≫= λ _, mret ()) latched ≫= λ _,
  commit_all actor reason request_id ≫= λ _,
  mret latched.

(** * Legacy fills *)

Definition quarantine_fill (changed : bool) (f : Fill) : rtx bool :=
  if negb (fill_requires_reconciliation f) then mret changed else
  let moved := negb (bool_decide (fl_reconciliation_state f = FILL_RECONCILIATION_QUARANTINED)) in
  (if moved then on_session (put_fill (set_fl_state (fl_order_id f) FILL_RECONCILIATION_QUARANTINED f)) else mret ()) ≫= λ _,
  match fl_order_id f with
  | None => mret (changed || moved)
  | Some order_id =>
      row ← query (λ d, db_orders d !! order_id);
      match row with
      | None => mret (changed || moved)
      | Some _ =>
          latched ← latch_order_in_session order_id "legacy_unidentified_fill";
          mret (latched || (changed || moved))
      end
  end.

Definition quarantine_legacy_fills (actor reason request_id : string) : rtx () :=
  fills ← query db_fills;
  changed ← rtx_foldl quarantine_fill false fills;
  if changed : bool then commit_all actor reason request_id else mret ().

(** * Checks on an activity *)

Definition allowed_skew : time := 5 * 1000000.

Definition fill_activity_validation_error (activity : BrokerFill) (o : Order) (observed_at : time) : option string :=
  let boundary := default (o_created_at o) (o_submission_started_at o) in
  if blank (bf_broker_fill_id activity) then Some "missing broker fill identity"
  else if negb (bool_decide (Some (bf_broker_order_id activity) = o_broker_order_id o))
  then Some "broker order identity does not match local order"
  else if negb (bool_decide (bf_side activity ∈ ["buy"; "sell"]))
  then Some ("unknown side " +:+ py_repr (bf_side activity))
  else if negb (bool_decide (bf_side activity = o_side o))
  then Some ("side " +:+ py_repr (bf_side activity) +:+ " does not match local side " +:+ py_repr (o_side o))
  else if negb (bool_decide (upper (bf_ticker activity) = upper (o_ticker o)))
  then Some ("ticker " +:+ py_repr (bf_ticker activity) +:+ " does not match local ticker " +:+ py_repr (o_ticker o))
  else if negb (valid_fill_economic (bf_qty activity))
  then Some ("quantity " +:+ decimal_repr (bf_qty activity) +:+ " is outside canonical fill precision or bounds")
  else if negb (valid_fill_economic (bf_price activity))
  then Some ("price " +:+ decimal_repr (bf_price activity) +:+ " is outside canonical fill precision or bounds")
  else if bf_filled_at activity <? boundary - allowed_skew then Some "fill timestamp predates order submission"
  else if observed_at + allowed_skew <? bf_filled_at activity then Some "fill timestamp is beyond allowed future skew"
  else None.

Definition duplicate_fill_validation_error (activity : BrokerFill) (order_id : Z) (duplicate : Fill) : option string :=
  if negb (bool_decide (fl_order_id duplicate = Some order_id))
     && (negb (bool_decide (fl_order_id duplicate = None)) || fill_has_trusted_identity duplicate)
  then Some "broker fill identity belongs to a different local order"
  else if negb (bool_decide (upper (fl_ticker duplicate) = upper (bf_ticker activity)))
  then Some "broker fill identity replay changed ticker"
  else if negb (bool_decide (fl_side duplicate = bf_side activity)) then Some "broker fill identity replay changed side"
  else if negb (deq (fl_qty duplicate) (bf_qty activity)) then Some "broker fill identity replay changed quantity"
  else if negb (deq (fl_price duplicate) (bf_price activity)) then Some "broker fill identity replay changed price"
  else if fill_has_trusted_identity duplicate && negb (fl_filled_at duplicate =? bf_filled_at activity)
  then Some "broker fill identity replay changed timestamp"
  else None.

(** * Fill rows of an activity *)

Definition replace_with_authoritative_activity (f : Fill) (order_id : Z) (activity : BrokerFill) : Fill :=
  mkFillRow (fl_id f) (Some order_id) (bf_ticker activity) (bf_side activity) (bf_qty activity) (bf_price activity)
    (Some (bf_broker_fill_id activity)) FILL_RECONCILIATION_TRUSTED (bf_filled_at activity).

Definition matches_quarantined (activity : BrokerFill) (parent : option Z) (f : Fill) : Prop :=
  fl_order_id f = parent ∧ fl_reconciliation_state f = FILL_RECONCILIATION_QUARANTINED
  ∧ fl_ticker f = bf_ticker activity ∧ fl_side f = bf_side activity
  ∧ deq (fl_qty f) (bf_qty activity) = true ∧ deq (fl_price f) (bf_price activity) = true.

(** The order's own row before one without an order, then by id. *)
Definition matching_quarantined_fill (order_id : Z) (activity : BrokerFill) (d : Db) : option Fill :=
  head (filter (matches_quarantined activity (Some order_id)) (db_fills d)
        ++ filter (matches_quarantined activity None) (db_fills d)).

Definition supersede_matching_quarantined_fill (order_id : Z) (activity : BrokerFill) : rtx () :=
  legacy ← query (matching_quarantined_fill order_id activity);
  match legacy with
  | None => mret ()
  | Some f => on_session (put_fill (set_fl_state (Some order_id) FILL_RECONCILIATION_SUPERSEDED f))
  end.

Definition is_synthetic_fill (order_id : Z) (o : Order) (f : Fill) : Prop :=
  fl_order_id f = Some order_id
  ∧ match fl_broker_fill_id f with None => False | Some i => sql_like (synthetic_prefix o +:+ "%") i = true end.

#[export] Instance is_synthetic_fill_dec order_id o f : Decision (is_synthetic_fill order_id o f).
Proof. unfold is_synthetic_fill. destruct (fl_broker_fill_id f); apply _. Defined.

Definition remove_synthetic_fills (order_id : Z) (o : Order) : rtx () :=
  flush ≫= λ _,
  on_session (write (λ d, set_db_fills (filter (λ f, ¬ is_synthetic_fill order_id o f) (db_fills d)) d)).

(** * The batch *)

Record ImportState : Type := mkImport {
  im_drift : list string;
  im_inserted : Z;
  im_activities : list BrokerFill;
  im_blocked : list Z;
  im_advance : bool;
}.

Definition refuse_activity (fault : string) (order : option Z) (acc : ImportState) : ImportState :=
  mkImport (im_drift acc ++ [fault]) (im_inserted acc) (im_activities acc) (im_blocked acc ++ option_list order) false.

Definition note_overfill (order_id : Z) (detail : option string) (acc : ImportState) : ImportState :=
  mkImport (im_drift acc ++ option_list detail) (im_inserted acc) (im_activities acc)
    (im_blocked acc ++ (if detail then [order_id] else [])) (im_advance acc).

Definition note_activity (inserted : Z) (activity : BrokerFill) (acc : ImportState) : ImportState :=
  mkImport (im_drift acc) (im_inserted acc + inserted) (im_activities acc ++ [activity]) (im_blocked acc) (im_advance acc).

(** The activity with the local symbol, checked and normalized; [inr] is the error. *)
Definition validated_activity (activity : BrokerFill) (o : Order) (observed_at : time) : outcome (BrokerFill * option string) :=
  ticker ← canonicalize_broker_symbol (bf_ticker activity) None (Some (o_ticker o));
  let activity := set_bf_ticker ticker activity in
  match fill_activity_validation_error activity o observed_at with
  | Some e => Ok (activity, Some e)
  | None =>
      match normalize_fill_economic (bf_qty activity), normalize_fill_economic (bf_price activity) with
      | Some q, Some p => Ok (set_bf_amounts q p activity, None)
      | _, _ => Raise AssertionError
      end
  end.

Definition fill_with_broker_id (broker_fill_id : string) (d : Db) : option Fill :=
  head (filter (λ f, fl_broker_fill_id f = Some broker_fill_id) (db_fills d)).

(** A replayed activity: an untrusted row is promoted, then the order's total is checked. *)
Definition import_duplicate (acc : ImportState) (order_id : Z) (activity : BrokerFill) (duplicate : Fill)
    (actor reason request_id : string) : rtx ImportState :=
  let trusted := fill_has_trusted_identity duplicate in
  (if trusted then mret () else on_session (put_fill (replace_with_authoritative_activity duplicate order_id activity))) ≫= λ _,
  let acc := if trusted then acc else note_activity 0 activity acc in
  o ← on_session (get_order order_id);
  total ← query (trusted_exact_fill_qty order_id o);
  total ← on_session (lift total);
  detail ← latch_quantity_overfill_in_session order_id total actor reason request_id;
  mret (note_overfill order_id detail acc).

(** A new activity. *)
Definition import_new (acc : ImportState) (order_id : Z) (activity : BrokerFill) (actor reason request_id : string)
    : rtx ImportState :=
  o ← on_session (get_order order_id);
  remove_synthetic_fills order_id o ≫= λ _,
  supersede_matching_quarantined_fill order_id activity ≫= λ _,
  total ← query (trusted_exact_fill_qty order_id o);
  projected ← on_session (lift (total ≫= λ t, dadd t (bf_qty activity)));
  on_session (add_fill_row order_id (bf_ticker activity) (bf_side activity) (bf_qty activity) (bf_price activity)
                (bf_broker_fill_id activity) (bf_filled_at activity)) ≫= λ _,
  let acc := note_activity 1 activity acc in
  match quantity_overfill_detail order_id o projected with
  | None => mret acc
  | Some _ =>
      detail ← latch_quantity_overfill_in_session order_id projected actor reason request_id;
      mret (note_overfill order_id detail acc)
  end.

(** One turn of the loop over the batch. *)
Definition import_activity (observed_at : time) (actor reason request_id : string) (acc : ImportState) (activity : BrokerFill)
    : rtx ImportState :=
  orders ← query (order_ids_where (has_broker_id (bf_broker_order_id activity)));
  match orders with
  | [order_id] =>
      o ← on_session (get_order order_id);
      checked ← on_session (lift (validated_activity activity o observed_at));
      let '(activity, error) := checked in
      duplicate ← (if error then mret None else query (fill_with_broker_id (bf_broker_fill_id activity)));
      let error := match error, duplicate with
                   | None, Some f => duplicate_fill_validation_error activity order_id f
                   | _, _ => error
                   end in
      match error with
      | Some e =>
          latch_order_in_session order_id "invalid_fill_activity" ≫= λ _,
          mret (refuse_activity ("invalid fill activity " +:+ bf_broker_fill_id activity +:+ ": " +:+ e) (Some order_id) acc)
      | None =>
          match duplicate with
          | Some f => import_duplicate acc order_id activity f actor reason request_id
          | None => import_new acc order_id activity actor reason request_id
          end
      end
  | _ =>
      mret (refuse_activity ("fill activity " +:+ bf_broker_fill_id activity +:+ " has unknown or ambiguous broker order "
              +:+ bf_broker_order_id activity) None acc)
  end.

Definition filled_before (a b : BrokerFill) : Prop := bf_filled_at a ≤ bf_filled_at b.

#[export] Instance filled_before_dec a b : Decision (filled_before a b).
Proof. unfold filled_before. apply _. Defined.

(** [sorted(activities, key=...)], a stable sort. *)
Definition activity_batch (activities : list BrokerFill) : list BrokerFill := merge_sort filled_before activities.

Definition cursor_candidate (after : option time) (batch : list BrokerFill) (acc : ImportState) : option BrokerFill :=
  match after with
  | None => last batch
  | Some t => last (filter (λ a, t ≤ bf_filled_at a) (im_activities acc))
  end.

Definition advance_cursor (broker_key : string) (activity : BrokerFill) (expected_version : option Z) : rtx () :=
  let key := (broker_key, "fills") in
  let put version := on_session (write (λ d, set_db_cursors
    (<[key := mkCursor broker_key "fills" (Some (bf_broker_fill_id activity)) (Some (bf_filled_at activity)) version]>
       (db_cursors d)) d)) in
  cursor ← query (λ d, db_cursors d !! key);
  match cursor, expected_version with
  | None, None => put 1
  | None, Some _ => on_session (raise ReconciliationConflict)
  | Some c, _ => if bool_decide (Some (rc_version c) = expected_version) then put (rc_version c + 1)
                 else on_session (raise ReconciliationConflict)
  end.

(** The session of [_reconcile_fill_activities]. *)
Definition import_batch (broker_key : string) (after : option time) (expected_version : option Z) (observed_at : time)
    (batch : list BrokerFill) (actor reason request_id : string) : rtx ImportState :=
  acc ← rtx_foldl (import_activity observed_at actor reason request_id) (mkImport [] 0 [] [] true) batch;
  (if im_advance acc
   then match cursor_candidate after batch acc with
        | None => mret ()
        | Some activity => advance_cursor broker_key activity expected_version
        end
   else mret ()) ≫= λ _,
  commit_all actor reason request_id ≫= λ _,
  mret acc.

End Activities.
