(* ===== verification/StatusSync.v ===== *)
(** Order statuses in [orders/reconciliation.py]: the body of the loop of
    [_reconcile_statuses], which compares one order with the broker's report of it, and
    [_persist_verified_status], which stores a status the panic verified. *)

From S2P Require Import Prelude PyDecimal Assets BrokerModels Breakers.
From S2P Require Import Database Lifecycle SessionLogic BreakerStore SafetyState RuleRepository PlanLifecycle.
From S2P Require Import ReconcileSession FillImport.
From Stdlib Require Import Lia.
Local Open Scope Z_scope.

Definition FILL_STATUSES : list OrderStatus := [PARTIALLY_FILLED; FILLED].

(** The identity checks on a report about a stored order. *)
Definition report_identity_error (o : Order) (remote : OrderResult) : option string :=
  match order_result_identity_error remote (o_idempotency_key o) (Some (o_ticker o)) with
  | Some e => Some e
  | None => if bool_decide (r_broker_order_id remote = o_broker_order_id o) then None
            else Some "broker order identity does not match local order"
  end.

(** ** What the ledger holds for an order *)

Record LedgerView : Type := mkLedger {
  lv_prior : list Fill;
  lv_legacy : list Fill;
  lv_exact : list Fill;
  lv_recorded : Decimal;
  lv_authoritative : Decimal;
}.

Definition ledger_view (o : Order) (fills : list Fill) : outcome LedgerView :=
  let prior := filter (λ f, fill_has_trusted_identity f = true) fills in
  let legacy := filter (λ f, fill_requires_reconciliation f = true) fills in
  let exact := exact_fills o fills in
  recorded ← dsum (map fl_qty prior);
  authoritative ← dsum (map fl_qty exact);
  Ok (mkLedger prior legacy exact recorded authoritative).

Section Sync.
Context `{Digest} (resize_action : string → Decimal → option string).
Context (actor reason request_id : string).

Abbreviation commit_all := (commit_reconciliation_mutations resize_action actor reason request_id).

(** The faults appended to [drift], and the fills inserted. *)
Definition sync_result : Type := list string * Z.

(** [drift.append(...); self._latch_order_in_session(...); commit; continue]. *)
Definition fault_and_latch (order_id : Z) (error_code fault : string) : rtx sync_result :=
  latch_order_in_session order_id error_code ≫= λ _,
  commit_all ≫= λ _,
  mret ([fault], 0).

(** [order.version += 1]. *)
Definition bump_version (order_id : Z) : rtx () :=
  o ← on_session (get_order order_id);
  on_session (put_order order_id (set_o_version (o_version o + 1) o)).

(** [if latch_changed: order.version += 1; commit], then [continue]. *)
Definition keep_latch (order_id : Z) (latch_changed : bool) (faults : list string) : rtx sync_result :=
  (if latch_changed then bump_version order_id ≫= λ _, commit_all else mret ()) ≫= λ _,
  mret (faults, 0).

(** [if target is not current and can_transition(current, target): transition]. *)
Definition advance_status (order_id : Z) (target : OrderStatus) : rtx bool :=
  o ← on_session (get_order order_id);
  current ← on_session (lift (order_status_of (o_status o)));
  if negb (bool_decide (target = current)) && can_transition current target then
    t ← now;
    o' ← on_session (lift (transition o target t));
    on_session (put_order order_id o') ≫= λ _, mret true
  else mret false.

(** A report of fills, or of more than the exact fills, needs exact reconciliation. *)
Definition require_exact_fills (order_id : Z) (target : OrderStatus) : rtx bool :=
  moved ← advance_status order_id target;
  o ← on_session (get_order order_id);
  if bool_decide (o_acceptance_state o = FILL_RECONCILIATION_REQUIRED) then mret moved
  else
    t ← now;
    on_session (put_order order_id (set_o_updated_at t (set_o_acceptance_state FILL_RECONCILIATION_REQUIRED o))) ≫= λ _,
    mret true.

(** A cancel of unknown outcome that ended without any fill. *)
Definition terminal_zero_fill_resolved (o : Order) (remote : OrderResult) (l : LedgerView) (stream_complete : bool) : bool :=
  bool_decide (o_last_error_code o = "indeterminate_cancel")
  && bool_decide (r_status remote ∈ [CANCELED; REJECTED; EXPIRED])
  && deq (r_filled_qty remote) dzero && deq (lv_authoritative l) dzero
  && bool_decide (lv_prior l = []) && stream_complete.

(** The ledger does not account for the report exactly. *)
Definition fills_unaccounted (remote : OrderResult) (l : LedgerView) (relation : FillQuantityRelation) (zero_resolved : bool) : bool :=
  negb (is_finite (r_filled_qty remote))
  || (deq (r_filled_qty remote) dzero && negb zero_resolved)
  || negb (bool_decide (length (lv_exact l) = length (lv_prior l)))
  || negb (bool_decide (relation = EXACT)).

(** The block under [if fill_reconciliation_required]: [Some] is the result of a [continue]. *)
Definition exact_gate (order_id : Z) (remote : OrderResult) (l : LedgerView) (relation : FillQuantityRelation)
    (blocked : list Z) (exact_reader stream_complete latch_changed : bool) : rtx (option sync_result) :=
  o ← on_session (get_order order_id);
  let order_text := "broker order " +:+ pretty order_id in
  if negb (bool_decide (lv_legacy l = [])) then
    r ← fault_and_latch order_id "legacy_unidentified_fill"
          (order_text +:+ " still has " +:+ pretty (Z.of_nat (length (lv_legacy l))) +:+ " quarantined legacy fill(s)");
    mret (Some r)
  else if bool_decide (order_id ∈ blocked) then
    (if latch_changed then bump_version order_id else mret ()) ≫= λ _,
    commit_all ≫= λ _, mret (Some ([], 0))
  else if negb exact_reader then
    r ← keep_latch order_id latch_changed [order_text +:+ " requires authoritative fill activities"]; mret (Some r)
  else if negb stream_complete then
    r ← keep_latch order_id latch_changed [order_text +:+ " authoritative fill activity stream is incomplete"]; mret (Some r)
  else if fills_unaccounted remote l relation (terminal_zero_fill_resolved o remote l stream_complete) then
    r ← keep_latch order_id latch_changed
          [order_text +:+ " fill reconciliation requires " +:+ dstr (r_filled_qty remote)
           +:+ " authoritative quantity but exact activities contain " +:+ dstr (lv_authoritative l)];
    mret (Some r)
  else mret None.

Definition cumulative_below (order_id : Z) (remote : OrderResult) (which : string) (qty : Decimal) : string :=
  "broker order " +:+ pretty order_id +:+ " cumulative " +:+ dstr (r_filled_qty remote) +:+ " is below " +:+ which
  +:+ " local quantity " +:+ dstr qty.

(** The fill a broker without activities implies: [None] when it is not canonical. *)
Definition synthetic_amounts (remote : OrderResult) (price new_qty : Decimal) (prior : list Fill) : outcome (option (Decimal * Decimal)) :=
  notionals ← outcome_mapM (λ f, dmul (fl_qty f) (fl_price f)) prior;
  recorded_notional ← dsum notionals;
  cumulative_notional ← dmul (r_filled_qty remote) price;
  incremental ← dsub cumulative_notional recorded_notional;
  unit_price ← ddiv incremental new_qty;
  negative ← dle incremental dzero;
  Ok (if negative : bool then None
      else match normalize_fill_economic new_qty, normalize_fill_economic unit_price with
           | Some q, Some p => Some (q, p)
           | _, _ => None
           end).

(** [session.add] of it; its id is unique in the table. *)
Definition add_synthetic_fill (order_id : Z) (o : Order) (remote : OrderResult) (q p : Decimal) : rtx () :=
  let fill_id := opt_text (o_broker_order_id o) +:+ ":" +:+ dstr (r_filled_qty remote) in
  d ← on_session read;
  if bool_decide (fill_with_broker_id fill_id d = None)
  then t ← now; on_session (add_fill_row order_id (o_ticker o) (o_side o) q p fill_id t)
  else on_session (raise (OtherException "IntegrityError")).

(** The end of the turn: the latch is released and the status follows. *)
Definition settle_order (order_id : Z) (target : OrderStatus) (release : bool) : rtx () :=
  o ← on_session (get_order order_id);
  on_session (put_order order_id
    (if release then set_o_last_error_code EmptyString (set_o_acceptance_state "accepted" o) else o)) ≫= λ _,
  advance_status order_id target ≫= λ _,
  o ← on_session (get_order order_id);
  t ← now;
  on_session (put_order order_id (set_o_version (o_version o + 1) (set_o_last_reconciled_at (Some t) o))) ≫= λ _,
  commit_all.

(** From [new_qty] on. *)
Definition compare_recorded (order_id : Z) (remote : OrderResult) (l : LedgerView) (exact_reader latch_changed release : bool)
    : rtx sync_result :=
  let order_text := "broker order " +:+ pretty order_id in
  o ← on_session (get_order order_id);
  new_qty ← on_session (lift (dsub (r_filled_qty remote) (lv_recorded l)));
  match fill_quantity_relation (r_filled_qty remote) (lv_recorded l) with
  | None => fault_and_latch order_id "invalid_cumulative_fill"
              (order_text +:+ " has noncanonical cumulative or recorded fill quantity")
  | Some BEHIND => fault_and_latch order_id "cumulative_fill_contradiction"
                     (cumulative_below order_id remote "recorded" (lv_recorded l))
  | Some EXACT => settle_order order_id (r_status remote) release ≫= λ _, mret ([], 0)
  | Some AHEAD =>
      if exact_reader then
        keep_latch order_id latch_changed
          [order_text +:+ " reports " +:+ dstr (r_filled_qty remote) +:+ " filled but exact activities contain "
           +:+ dstr (lv_recorded l)]
      else match r_avg_fill_price remote with
           | Some price =>
               if negb (valid_fill_economic price) then
                 fault_and_latch order_id "invalid_cumulative_fill"
                   (order_text +:+ " has invalid cumulative average fill price " +:+ dstr price)
               else
                 amounts ← on_session (lift (synthetic_amounts remote price new_qty (lv_prior l)));
                 match amounts with
                 | None =>
                     latch_order_in_session order_id "invalid_cumulative_fill" ≫= λ _,
                     (if latch_changed then bump_version order_id else mret ()) ≫= λ _,
                     commit_all ≫= λ _,
                     mret (["broker cumulative fill is outside canonical precision or moved behind local ledger for order "
                            +:+ pretty order_id], 0)
                 | Some (q, p) =>
                     add_synthetic_fill order_id o remote q p ≫= λ _,
                     settle_order order_id (r_status remote) release ≫= λ _,
                     mret ([], 1)
                 end
           | None => fault_and_latch order_id "invalid_cumulative_fill"
                       (order_text +:+ " has invalid cumulative average fill price None")
           end
  end.

(** One report against the stored order. *)
Definition sync_order (blocked : list Z) (exact_reader stream_complete : bool) (report : Z * OrderResult) : rtx sync_result :=
  let '(order_id, remote) := report in
  row ← query (λ d, db_orders d !! order_id);
  match row with
  | None => mret ([], 0)
  | Some o =>
      match report_identity_error o remote with
      | Some e => fault_and_latch order_id "invalid_broker_identity"
                    ("local order " +:+ pretty order_id +:+ " has invalid broker identity: " +:+ e)
      | None =>
          if negb (valid_cumulative_filled_qty (r_filled_qty remote)) then
            fault_and_latch order_id "invalid_cumulative_fill"
              ("local order " +:+ pretty order_id +:+ " invalid cumulative filled_qty " +:+ dstr (r_filled_qty remote))
          else
            on_session (lift (order_status_of (o_status o))) ≫= λ _,
            fills ← query (order_fills order_id);
            l ← on_session (lift (ledger_view o fills));
            overfill ← latch_quantity_overfill_in_session order_id (lv_authoritative l) actor reason request_id;
            match overfill with
            | Some detail => commit_all ≫= λ _, mret ([detail], 0)
            | None =>
                match fill_quantity_relation (r_filled_qty remote) (lv_authoritative l) with
                | None => fault_and_latch order_id "invalid_cumulative_fill"
                            ("broker order " +:+ pretty order_id +:+ " has noncanonical cumulative or authoritative fill quantity")
                | Some BEHIND => fault_and_latch order_id "cumulative_fill_contradiction"
                                   (cumulative_below order_id remote "authoritative" (lv_authoritative l))
                | Some relation =>
                    latch_changed ←
                      (if bool_decide (r_status remote ∈ FILL_STATUSES) || bool_decide (relation = AHEAD)
                       then require_exact_fills order_id (r_status remote) else mret false);
                    o ← on_session (get_order order_id);
                    let required := bool_decide (o_acceptance_state o = FILL_RECONCILIATION_REQUIRED) in
                    stop ← (if required
                            then exact_gate order_id remote l relation blocked exact_reader stream_complete latch_changed
                            else mret None);
                    match stop with
                    | Some r => mret r
                    | None => compare_recorded order_id remote l exact_reader latch_changed required
                    end
                end
            end
      end
  end.

(** * A status the panic verified *)

Definition verified_row (o : Order) (remote : OrderResult) (l : LedgerView) (relation : FillQuantityRelation) (t : time) : Order :=
  let o' := set_o_version (o_version o + 1) (set_o_updated_at t (set_o_last_reconciled_at (Some t)
              (set_o_status (order_status_value (r_status remote)) o))) in
  let fill_truth_complete :=
    bool_decide (lv_legacy l = []) && bool_decide (length (lv_exact l) = length (lv_prior l)) in
  if bool_decide (relation = EXACT) && dcmp_lt dzero (lv_authoritative l) && fill_truth_complete
  then set_o_last_error_code EmptyString (set_o_acceptance_state "accepted" o')
  else if bool_decide (r_status remote ∈ FILL_STATUSES) || bool_decide (relation = AHEAD)
  then set_o_acceptance_state FILL_RECONCILIATION_REQUIRED o'
  else o'.

(** The body of the loop over the orders with the verified broker id. *)
Definition persist_verified_order (t : time) (remote : OrderResult) (faults : list string) (order_id : Z) : rtx (list string) :=
  let order_text := "panic order " +:+ pretty order_id in
  o ← on_session (get_order order_id);
  match report_identity_error o remote with
  | Some e =>
      latch_order_in_session order_id "invalid_broker_identity" ≫= λ _,
      mret (faults ++ [order_text +:+ " has invalid broker identity: " +:+ e])
  | None =>
      fills ← query (order_fills order_id);
      l ← on_session (lift (ledger_view o fills));
      overfill ← latch_quantity_overfill_in_session order_id (lv_authoritative l) actor reason request_id;
      match overfill with
      | Some detail => mret (faults ++ [detail])
      | None =>
          match fill_quantity_relation (r_filled_qty remote) (lv_authoritative l) with
          | None =>
              latch_order_in_session order_id "invalid_cumulative_fill" ≫= λ _,
              mret (faults ++ [order_text +:+ " has noncanonical cumulative or authoritative fill quantity"])
          | Some BEHIND =>
              latch_order_in_session order_id "cumulative_fill_contradiction" ≫= λ _,
              mret (faults ++ [order_text +:+ " cumulative " +:+ dstr (r_filled_qty remote)
                               +:+ " is below authoritative local quantity " +:+ dstr (lv_authoritative l)])
          | Some relation =>
              on_session (put_order order_id (verified_row o remote l relation t)) ≫= λ _,
              mret faults
          end
      end
  end.

(** The session of [_persist_verified_status]. *)
Definition persist_verified_orders (t : time) (local_order_ids : list Z) (remote : OrderResult) : rtx (list string) :=
  orders ← query (order_ids_where (λ o, bool_decide (o_id o ∈ local_order_ids)));
  faults ← rtx_foldl (persist_verified_order t remote) [] orders;
  commit_all ≫= λ _,
  mret faults.

End Sync.
