(* ===== verification/Reconciliation.v ===== *)
(** [ReconciliationService] of [orders/reconciliation.py]: resolution of unknown acceptances,
    the reconciliation pass, and the operator panic.

    The service holds the writer side of the submission barrier throughout, so between its
    sessions the database is its own ([Barrier]).  The broker is a parameter with a state of
    its own that every call may change; a reply is a value or an exception.  [drift] is
    returned as the list of faults a method appends. *)

From S2P Require Import Prelude PyDecimal Assets BrokerModels Breakers.
From S2P Require Import Database Lifecycle SessionLogic BreakerStore OrderRepository SafetyState RuleRepository PlanLifecycle.
From S2P Require Import ReconcileSession FillImport StatusSync.
From Stdlib Require Import Lia.
Local Open Scope Z_scope.

(** * The broker and the service state *)

Class ReconcileBroker (W : Type) : Type := {
  reconciliation_key : string;
  rb_order_by_client_id : string → W → outcome (option OrderResult) * W;
  rb_order_status : string → W → outcome OrderResult * W;
  rb_open_orders : W → outcome (list OrderResult) * W;
  rb_cancel_order : string → W → outcome OrderResult * W;
  rb_fill_activities : option (option time → W → outcome (list BrokerFill) * W);
}.

Record SvcState (W : Type) : Type := mkSvc { sv_db : Db; sv_world : W; sv_clock : Clock }.
Arguments mkSvc {W}.
Arguments sv_db {W}.
Arguments sv_world {W}.
Arguments sv_clock {W}.

Definition svc (W A : Type) : Type := SvcState W → outcome A * SvcState W.

#[export] Instance svc_ret W : MRet (svc W) := λ A a s, (Ok a, s).
#[export] Instance svc_bind W : MBind (svc W) := λ A B f m s,
  match m s with (Ok a, s') => f a s' | (Raise e, s') => (Raise e, s') end.

Definition svc_raise {W A} (e : exn) : svc W A := λ s, (Raise e, s).

Definition in_session {W A} (body : rtx A) : svc W A := λ s,
  let '(r, d, c) := with_rsession body (sv_db s) (sv_clock s) in (r, mkSvc d (sv_world s) c).

(** A transaction of another component, at one clock reading. *)
Definition on_store {W A} (f : time → Db → outcome A * Db) : svc W A := λ s,
  let '(r, d) := f (sv_clock s 0%nat) (sv_db s) in (r, mkSvc d (sv_world s) (λ n, sv_clock s (S n))).

Definition svc_now {W} : svc W time := λ s,
  (Ok (sv_clock s 0%nat), mkSvc (sv_db s) (sv_world s) (λ n, sv_clock s (S n))).

(** A query in a session of its own. *)
Definition look {W A} (f : Db → A) : svc W A := λ s, (Ok (f (sv_db s)), s).

(** A broker call; the reply is inspected by [try]. *)
Definition call {W A} (f : W → outcome A * W) : svc W (outcome A) := λ s,
  let '(r, w) := f (sv_world s) in (Ok r, mkSvc (sv_db s) w (sv_clock s)).

Fixpoint svc_foldl {W A B} (f : A → B → svc W A) (acc : A) (l : list B) : svc W A :=
  match l with [] => mret acc | x :: l' => f acc x ≫= λ acc', svc_foldl f acc' l' end.

Section Service.
Context `{Digest} (resize_action : string → Decimal → option string) {W : Type} `{!ReconcileBroker W}.
Context (actor reason request_id : string).

Abbreviation svc := (svc W).
Abbreviation commit_all := (commit_reconciliation_mutations resize_action actor reason request_id).

(** * Latches *)

Definition latch_order_ids (order_ids : list Z) (error_code : string) : svc (list Z) :=
  let unique_ids := sorted_ids (dedup order_ids) in
  if bool_decide (unique_ids = []) then mret []
  else in_session (latch_orders resize_action unique_ids error_code actor reason request_id).

Definition latch_broker_order_id (broker_order_id : option string) (error_code : string) : svc (list Z) :=
  match broker_order_id with
  | None => mret []
  | Some b =>
      if negb (nonempty b) then mret []
      else ids ← look (order_ids_where (has_broker_id b)); latch_order_ids ids error_code
  end.

(** * Unknown acceptances *)

Record Resolution : Type := mkResolution {
  rs_drift : list string;
  rs_resolved : Z;
  rs_unresolved : list Z;
  rs_results : list (Z * OrderResult);
}.

Definition unknown_acceptance (o : Order) : bool := has_status SUBMITTING o || has_status ACCEPTANCE_UNKNOWN o.

Definition leave_unresolved (order_id : Z) (faults : list string) (acc : Resolution) : Resolution :=
  mkResolution (rs_drift acc ++ faults) (rs_resolved acc) (rs_unresolved acc ++ [order_id]) (rs_results acc).

(** One row of the loop of [_resolve_unknown]. *)
Definition resolve_order (acc : Resolution) (row : Z * (string * string)) : svc Resolution :=
  let '(order_id, (client_order_id, ticker)) := row in
  let order_text := "local order " +:+ pretty order_id in
  reply ← call (rb_order_by_client_id client_order_id);
  match reply with
  | Raise (BrokerDataIntegrityError _) =>
      latch_order_ids [order_id] "invalid_cumulative_fill" ≫= λ _,
      mret (leave_unresolved order_id [order_text +:+ " has invalid broker fill payload"] acc)
  | Raise _ => svc_raise RequiredDependencyUnavailable
  | Ok None => mret (leave_unresolved order_id [] acc)
  | Ok (Some remote) =>
      match order_result_identity_error remote client_order_id (Some ticker) with
      | Some e =>
          latch_order_ids [order_id] "invalid_broker_identity" ≫= λ _,
          mret (leave_unresolved order_id [order_text +:+ " has invalid broker identity: " +:+ e] acc)
      | None =>
          let faults := if valid_cumulative_filled_qty (r_filled_qty remote) then []
                        else [order_text +:+ " invalid cumulative filled_qty " +:+ dstr (r_filled_qty remote)] in
          resolved ← on_store (λ t, resolve_acceptance order_id (r_broker_order_id remote) (r_status remote)
                                      (r_filled_qty remote) t actor reason request_id);
          mret (if resolved : bool
                then mkResolution (rs_drift acc ++ faults) (rs_resolved acc + 1) (rs_unresolved acc)
                       (rs_results acc ++ [(order_id, remote)])
                else leave_unresolved order_id faults acc)
      end
  end.

Definition unknown_rows (d : Db) : list (Z * (string * string)) :=
  omap (λ id, o ← db_orders d !! id; Some (id, (o_idempotency_key o, o_ticker o))) (order_ids_where unknown_acceptance d).

Definition resolve_unknown : svc Resolution :=
  rows ← look unknown_rows;
  acc ← svc_foldl resolve_order (mkResolution [] 0 [] []) rows;
  mret (mkResolution (rs_drift acc) (rs_resolved acc) (sorted_ids (rs_unresolved acc)) (rs_results acc)).

(** * Rule groups *)

Definition group_unresolved (group_id : Z) (d : Db) : bool :=
  existsb (λ id, match db_orders d !! id, db_proposals d !! id with
                 | Some o, Some p =>
                     bool_decide (p_source_rule_group_id p = Some group_id)
                     && (unknown_acceptance o || bool_decide (o_acceptance_state o = FILL_RECONCILIATION_REQUIRED))
                 | _, _ => false
                 end) (select_ids (λ _, true) (db_orders d)).

Definition clear_group (group_id : Z) : rtx () :=
  unresolved ← query (group_unresolved group_id);
  if unresolved : bool then mret () else
  t ← now;
  d ← on_session read;
  match db_groups d !! group_id with
  | Some g =>
      if g_reconciliation_required g then
        on_session (put_group group_id (set_g_updated_at t (set_g_reconciliation_required false g)) ≫= λ _,
          audit_reconciliation_mutation actor reason request_id "rule_group.reconcile" "rule_group" (IdTarget group_id)
            "cleared" [])
      else mret ()
  | None => mret ()
  end.

Definition clear_reconciled_rule_groups : svc () :=
  in_session (
    ids ← query (λ d, select_ids g_reconciliation_required (db_groups d));
    rtx_iter clear_group ids ≫= λ _,
    commit_all).

(** * Faults *)

Definition quarantined_faults (d : Db) : list string :=
  map (λ f, "quarantined legacy fill " +:+ pretty (fl_id f) +:+ " for order "
            +:+ match fl_order_id f with None => "None" | Some id => pretty id end +:+ " lacks matched authoritative activity")
    (filter (λ f, fl_reconciliation_state f = FILL_RECONCILIATION_QUARANTINED) (db_fills d)).

Definition fault_detail (faults : list string) : string :=
  join " | " (take 3 faults)
  +:+ (if bool_decide (3 < length faults)%nat
       then " | " +:+ pretty (Z.of_nat (length faults - 3)) +:+ " additional fault(s)" else EmptyString).

Definition trip_reconciliation_faults (drift : list string) (unresolved_order_ids : list Z) : svc () :=
  let faults := drift ++ (if bool_decide (unresolved_order_ids = []) then []
                          else ["unresolved acceptance orders " +:+ ids_text (sorted_ids unresolved_order_ids)]) in
  if bool_decide (faults = []) then mret ()
  else on_store (λ t, breaker_trip scope_broker_drift ("broker reconciliation fault: " +:+ fault_detail faults)
                        actor request_id t (Some reason)) ≫= λ _, mret ().

(** [reconcile_unknown], after its context check. *)
Definition reconcile_unknown_held : svc (Z * list Z) :=
  res ← resolve_unknown;
  clear_reconciled_rule_groups ≫= λ _,
  trip_reconciliation_faults (rs_drift res) (rs_unresolved res) ≫= λ _,
  mret (rs_resolved res, rs_unresolved res).

(** * Fill activities *)

Definition cursor_snapshot (d : Db) : option time * option Z :=
  match db_cursors d !! (reconciliation_key, "fills") with
  | None => (None, None)
  | Some c => (rc_last_activity_at c, Some (rc_version c))
  end.

(** Drift, inserted fills, blocked orders and whether the stream was complete. *)
Definition fill_outcome : Type := list string * Z * list Z * bool.

Definition reconcile_fill_activities : svc fill_outcome :=
  match rb_fill_activities with
  | None => mret ([], 0, [], false)
  | Some reader =>
      cursor ← look cursor_snapshot;
      let '(after, expected_version) := cursor in
      reply ← call (reader after);
      match reply with
      | Raise (BrokerDataIntegrityError bid) =>
          blocked ← latch_broker_order_id bid "invalid_fill_activity";
          mret (["broker fill activity identity invalid"], 0, blocked, false)
      | Raise _ => svc_raise RequiredDependencyUnavailable
      | Ok activities =>
          observed_at ← svc_now;
          let batch := activity_batch activities in
          if bool_decide (batch = []) then mret ([], 0, [], true)
          else
            acc ← in_session (import_batch resize_action reconciliation_key after expected_version observed_at batch
                                actor reason request_id);
            mret (im_drift acc, im_inserted acc, im_blocked acc, im_advance acc)
      end
  end.

(** * Statuses *)

Definition needs_status_reconciliation (o : Order) : bool :=
  has_status SUBMITTED o || has_status PARTIALLY_FILLED o
  || bool_decide (o_acceptance_state o = FILL_RECONCILIATION_REQUIRED).

Definition missing_broker_ids (d : Db) : list Z :=
  order_ids_where (λ o, needs_status_reconciliation o && bool_decide (o_broker_order_id o = None)) d.

Definition status_rows (d : Db) : list (Z * string) :=
  omap (λ id, o ← db_orders d !! id; b ← o_broker_order_id o; Some (id, b)) (order_ids_where needs_status_reconciliation d).

(** The faults and reports of the rows the broker is asked about. *)
Definition fetch_status (prefetched : list Z) (acc : list string * list (Z * OrderResult)) (row : Z * string)
    : svc (list string * list (Z * OrderResult)) :=
  let '(order_id, broker_order_id) := row in
  if bool_decide (order_id ∈ prefetched) then mret acc else
  reply ← call (rb_order_status broker_order_id);
  match reply with
  | Ok remote => mret (acc.1, acc.2 ++ [(order_id, remote)])
  | Raise (BrokerDataIntegrityError _) =>
      latch_order_ids [order_id] "invalid_cumulative_fill" ≫= λ _,
      mret (acc.1 ++ ["local order " +:+ pretty order_id +:+ " has invalid broker fill payload"], acc.2)
  | Raise _ => svc_raise RequiredDependencyUnavailable
  end.

Definition has_activities : bool := match rb_fill_activities with None => false | Some _ => true end.

Definition sync_report (blocked : list Z) (stream_complete : bool) (acc : list string * Z) (report : Z * OrderResult)
    : svc (list string * Z) :=
  r ← in_session (sync_order resize_action actor reason request_id blocked has_activities stream_complete report);
  mret (acc.1 ++ r.1, acc.2 + r.2).

(** Drift, synced orders and inserted fills. *)
Definition reconcile_statuses (prefetched : list (Z * OrderResult)) (blocked : list Z) (stream_complete : bool)
    : svc (list string * Z * Z) :=
  missing ← look missing_broker_ids;
  rows ← look status_rows;
  let missing_faults := map (λ id, "local open order " +:+ pretty id +:+ " has no broker order id") missing in
  fetched ← svc_foldl (fetch_status (map fst prefetched)) (missing_faults, prefetched) rows;
  synced ← svc_foldl (sync_report blocked stream_complete) (fetched.1, 0) fetched.2;
  mret (synced.1, Z.of_nat (length fetched.2), synced.2).

(** * Open orders *)

Definition LOCAL_LIVE_STATUSES : list OrderStatus := [SUBMITTING; ACCEPTANCE_UNKNOWN; SUBMITTED; PARTIALLY_FILLED].
Definition REMOTE_OPEN_STATUSES : list OrderStatus := [SUBMITTED; PARTIALLY_FILLED].
Definition locally_live (o : Order) : bool := bool_decide (o_status o ∈ map order_status_value LOCAL_LIVE_STATUSES).
Definition locally_terminal (o : Order) : bool := bool_decide (o_status o ∈ map order_status_value [FILLED; CANCELED; REJECTED; EXPIRED]).

Definition blank_id (remote : OrderResult) : bool :=
  match r_broker_order_id remote with None => true | Some b => blank b end.

(** The fault of one remote open order, if any. *)
Definition remote_open_order_fault (missing_local_is_fault : bool) (d : Db) (remote : OrderResult) : list string :=
  match r_broker_order_id remote with
  | None => []
  | Some b =>
      let remote_text := "remote open order " +:+ b in
      if blank b then [] else
      match order_ids_where (has_broker_id b) d with
      | [] => if missing_local_is_fault then [remote_text +:+ " has no local order"] else []
      | [id] =>
          match db_orders d !! id with
          | None => []
          | Some o =>
              let local_text := " local order " +:+ pretty id in
              if locally_terminal o
              then [remote_text +:+ " conflicts with terminal" +:+ local_text +:+ " status " +:+ o_status o]
              else match order_result_identity_error remote (o_idempotency_key o) (Some (o_ticker o)) with
                   | Some e => [remote_text +:+ " conflicts with" +:+ local_text +:+ ": " +:+ e]
                   | None => if locally_live o then []
                             else [remote_text +:+ " conflicts with non-live" +:+ local_text +:+ " status " +:+ o_status o]
                   end
          end
      | ids => [remote_text +:+ " matches multiple local orders " +:+ ids_text ids]
      end
  end.

Definition remote_open_order_faults (missing_local_is_fault : bool) (remote_open : list OrderResult) (d : Db) : list string :=
  concat (map (remote_open_order_fault missing_local_is_fault d) remote_open).

(** Latch and fault of a remote order with an invalid cumulative quantity. *)
Definition check_open_quantity (fault : string) (acc : list string) (remote : OrderResult) : svc (list string) :=
  if valid_cumulative_filled_qty (r_filled_qty remote) then mret acc else
  latch_broker_order_id (r_broker_order_id remote) "invalid_cumulative_fill" ≫= λ _,
  mret (acc ++ [fault +:+ " invalid cumulative filled_qty " +:+ dstr (r_filled_qty remote) +:+ " for "
                +:+ opt_text (r_broker_order_id remote)]).

Definition detect_open_order_drift : svc (list string) :=
  reply ← call rb_open_orders;
  match reply with
  | Raise (BrokerDataIntegrityError bid) =>
      latch_broker_order_id bid "invalid_cumulative_fill" ≫= λ _,
      mret ["invalid broker open-order payload"]
  | Raise _ => svc_raise RequiredDependencyUnavailable
  | Ok remote_open =>
      faults ← svc_foldl (check_open_quantity "open order") [] remote_open;
      let missing := if existsb blank_id remote_open then ["remote open order is missing broker order id"] else [] in
      drift ← look (remote_open_order_faults true remote_open);
      mret (faults ++ missing ++ drift)
  end.

(** * The pass *)

Record ReconciliationReport : Type := mkReport {
  rp_resolved_unknown : Z;
  rp_unresolved_unknown : list Z;
  rp_synced_orders : Z;
  rp_inserted_fills : Z;
  rp_broker_drift : list string;
}.

Definition reconcile_held : svc ReconciliationReport :=
  in_session (quarantine_legacy_fills resize_action actor reason request_id) ≫= λ _,
  res ← resolve_unknown;
  fills ← reconcile_fill_activities;
  let '(fill_drift, inserted, blocked, complete) := fills in
  statuses ← reconcile_statuses (rs_results res) blocked complete;
  let '(status_drift, synced, synthetic) := statuses in
  quarantined ← look quarantined_faults;
  clear_reconciled_rule_groups ≫= λ _,
  open_drift ← detect_open_order_drift;
  let drift := rs_drift res ++ fill_drift ++ status_drift ++ quarantined ++ open_drift in
  trip_reconciliation_faults drift (rs_unresolved res) ≫= λ _,
  mret (mkReport (rs_resolved res) (rs_unresolved res) synced (inserted + synthetic) drift).

End Service.

(** [reconcile_unknown] and [reconcile]: the context, then the work under the barrier. *)
Definition reconcile_unknown `{Digest} (resize_action : string → Decimal → option string) {W : Type} `{!ReconcileBroker W}
    (actor reason request_id : string) : svc W (Z * list Z) :=
  match reconcile_context actor reason request_id with
  | Raise e => svc_raise e
  | Ok (actor, reason, request_id) => reconcile_unknown_held resize_action actor reason request_id
  end.

Definition reconcile `{Digest} (resize_action : string → Decimal → option string) {W : Type} `{!ReconcileBroker W}
    (actor reason request_id : string) : svc W ReconciliationReport :=
  match reconcile_context actor reason request_id with
  | Raise e => svc_raise e
  | Ok (actor, reason, request_id) => reconcile_held resize_action actor reason request_id
  end.
