(* ===== verification/Panic.v ===== *)
(** The operator panic of [orders/reconciliation.py]: the global latch, the cancellation of
    every rule, the resolution of unknown acceptances, a cancel and a verification of every
    known broker order, and the report that says whether safety is confirmed. *)

From S2P Require Import Prelude PyDecimal Assets BrokerModels Breakers.
From S2P Require Import Database Lifecycle SessionLogic BreakerStore OrderRepository SafetyState RuleRepository PlanLifecycle.
From S2P Require Import ReconcileSession FillImport StatusSync Reconciliation.
From Stdlib Require Import Lia.
Local Open Scope Z_scope.

Record PanicReport : Type := mkPanicReport {
  pn_safe : bool;
  pn_local_enumeration : string;
  pn_remote_enumeration : string;
  pn_confirmed_canceled : list string;
  pn_unconfirmed_order_ids : list Z;
  pn_remote_open_order_ids : list string;
  pn_unsafe_local_state : UnsafeLocalState;
  pn_message : string;
}.

Definition strings_text (l : list string) : string := "[" +:+ join ", " (map py_repr l) +:+ "]".

Section Panic.
Context `{Digest} (resize_action : string → Decimal → option string) {W : Type} `{!ReconcileBroker W}.
Context (actor reason request_id : string).

Abbreviation svc := (svc W).
Abbreviation commit_all := (commit_reconciliation_mutations resize_action actor reason request_id).
Abbreviation latch_ids := (latch_order_ids (W := W) resize_action actor reason request_id).
Abbreviation latch_broker_id := (latch_broker_order_id (W := W) resize_action actor reason request_id).

(** ** Rules *)

Definition cancel_rule_row (r : Rule) : Rule := set_ru_state "canceled" r.

Definition cancel_group_row (t : time) (g : RuleGroup) : RuleGroup :=
  mkRuleGroup (g_id g) (g_group_key g) "canceled" None None (g_terminal_rule_id g) (g_version g + 1)
    (g_reconciliation_required g) (g_created_at g) t.

(** [UPDATE ... WHERE id IN ids]. *)
Definition update_ids {A} (f : A → A) (ids : list Z) (m : gmap Z A) : gmap Z A :=
  map_imap (λ id x, Some (if decide (id ∈ ids) then f x else x)) m.

Definition live_group (g : RuleGroup) : bool := bool_decide (g_state g ∈ ["pending"; "active"]).

Definition panic_audit (action target_type : string) (id : Z) : tx () :=
  audit_reconciliation_mutation actor reason request_id action target_type (IdTarget id) "canceled" [].

Definition cancel_all_rules : rtx () :=
  rule_ids ← query (λ d, select_ids rule_is_active (db_rules d));
  group_ids ← query (λ d, select_ids live_group (db_groups d));
  t ← now;
  on_session (
    write (λ d, set_db_rules (update_ids cancel_rule_row rule_ids (db_rules d)) d) ≫= λ _,
    write (λ d, set_db_groups (update_ids (cancel_group_row t) group_ids (db_groups d)) d) ≫= λ _,
    tx_iter (panic_audit "rule.panic_cancel" "rule") rule_ids ≫= λ _,
    tx_iter (panic_audit "rule_group.panic_cancel" "rule_group") group_ids) ≫= λ _,
  commit_all.

(** ** Broker orders *)

Definition live_broker_rows (d : Db) : list (Z * string) :=
  filter (λ row, nonempty row.2 = true)
    (omap (λ id, o ← db_orders d !! id; b ← o_broker_order_id o; Some (id, b)) (order_ids_where locally_live d)).

(** [local_by_broker_id.get(broker_order_id, [])]. *)
Definition local_ids (rows : list (Z * string)) (b : string) : list Z := map fst (filter (λ row, row.2 = b) rows).

(** A listing of open orders with the faults it caused; a failed one lists nothing. *)
Definition list_open_orders (payload_fault : string) : svc (option (list OrderResult) * list string) :=
  reply ← call rb_open_orders;
  match reply with
  | Ok remote_open => mret (Some remote_open, [])
  | Raise (BrokerDataIntegrityError bid) =>
      latch_broker_id bid "invalid_cumulative_fill" ≫= λ _, mret (None, [payload_fault])
  | Raise _ => mret (None, [])
  end.

Definition invalid_open_ids (remote_open : list OrderResult) : list string :=
  omap (λ r, if valid_cumulative_filled_qty (r_filled_qty r) then None else r_broker_order_id r) remote_open.

Definition check_panic_quantity (fault : string) (acc : list string) (remote : OrderResult) : svc (list string) :=
  if valid_cumulative_filled_qty (r_filled_qty remote) then mret acc else
  (match r_broker_order_id remote with
   | None => mret []
   | Some b => latch_broker_id (Some b) "invalid_cumulative_fill"
   end) ≫= λ _,
  mret (acc ++ [fault +:+ " invalid cumulative filled_qty " +:+ dstr (r_filled_qty remote) +:+ " for "
                +:+ opt_text (r_broker_order_id remote)]).

(** [remote_by_id[id]]: the last listed order with that id, unless its quantity is invalid. *)
Definition remote_by_id (remote_open : list OrderResult) (b : string) : option OrderResult :=
  if bool_decide (b ∈ invalid_open_ids remote_open) then None
  else last (filter (λ r, r_broker_order_id r = Some b) remote_open).

Definition explicit_ids (rows : list (Z * string)) (remote_open : list OrderResult) : list string :=
  sorted_strings (dedup (map snd rows ++ omap r_broker_order_id remote_open)).

(** [_persist_verified_status]. *)
Definition persist_verified_status (local_order_ids : list Z) (remote : OrderResult) : svc (list string) :=
  if bool_decide (local_order_ids = []) then mret []
  else if negb (valid_cumulative_filled_qty (r_filled_qty remote)) then
    latch_ids local_order_ids "invalid_cumulative_fill" ≫= λ _,
    mret ["panic verified status has invalid cumulative filled_qty " +:+ dstr (r_filled_qty remote)]
  else
    t ← svc_now;
    in_session (persist_verified_orders resize_action actor reason request_id t local_order_ids remote).

Record CancelState : Type := mkCancel {
  cx_drift : list string;
  cx_confirmed : list string;
  cx_terminal : list string;
}.

(** One id of the loop: cancel, ask again, and store what is no longer open. *)
Definition cancel_and_verify (rows : list (Z * string)) (acc : CancelState) (b : string) : svc CancelState :=
  call (rb_cancel_order b) ≫= λ _,
  reply ← call (rb_order_status b);
  match reply with
  | Raise (BrokerDataIntegrityError _) =>
      latch_ids (local_ids rows b) "invalid_cumulative_fill" ≫= λ _,
      mret (mkCancel (cx_drift acc ++ ["panic order " +:+ b +:+ " has invalid broker payload"]) (cx_confirmed acc) (cx_terminal acc))
  | Raise _ => mret acc
  | Ok verified =>
      if negb (valid_cumulative_filled_qty (r_filled_qty verified)) then
        latch_ids (local_ids rows b) "invalid_cumulative_fill" ≫= λ _,
        mret (mkCancel (cx_drift acc ++ ["panic order " +:+ b +:+ " invalid cumulative filled_qty " +:+ dstr (r_filled_qty verified)])
                (cx_confirmed acc) (cx_terminal acc))
      else if bool_decide (r_status verified ∈ REMOTE_OPEN_STATUSES) then mret acc
      else
        faults ← persist_verified_status (local_ids rows b) verified;
        mret (mkCancel (cx_drift acc ++ faults)
                (cx_confirmed acc ++ (if bool_decide (r_status verified = CANCELED) then [b] else []))
                (cx_terminal acc ++ [b]))
  end.

(** What the broker still may hold open after the loop. *)
Definition potentially_open (explicit : list string) (st : CancelState) (final_remote_open : list OrderResult) : list string :=
  filter (λ b, b ∉ cx_terminal st) explicit ++ invalid_open_ids final_remote_open.

Definition remote_open_ids (potentially : list string) (final_remote_open : list OrderResult) : list string :=
  sorted_strings (dedup
    (omap (λ r, if bool_decide (r_status r ∈ REMOTE_OPEN_STATUSES) then r_broker_order_id r else None) final_remote_open
     ++ potentially)).

Definition unaddressable (remote_open : list OrderResult) : bool := existsb (λ r, bool_decide (r_broker_order_id r = None)) remote_open.

Definition bool_text (b : bool) : string := if b then "true" else "false".

Definition panic_message (safe failed unaddressable_remote_open : bool) (local_unconfirmed : list Z) (remote_open : list string) : string :=
  if safe then "panic verified: no local unknown/open or broker open orders remain"
  else "panic incomplete: safety could not be confirmed; broker_enumeration="
       +:+ (if failed then "unconfirmed" else "confirmed") +:+ " unaddressable_remote_open="
       +:+ bool_text unaddressable_remote_open +:+ " local_unconfirmed=" +:+ ids_text local_unconfirmed
       +:+ " remote_open=" +:+ strings_text remote_open.

(** [_panic_under_writer]; [opens] and [reads_fail] say which reads of the final local
    enumeration succeed. *)
Definition panic_under_writer (opens : bool) (reads_fail : string → bool) : svc PanicReport :=
  on_store (λ t, breaker_trip scope_operator_global ("panic by " +:+ actor +:+ ": " +:+ reason) actor request_id t (Some reason)) ≫= λ _,
  in_session cancel_all_rules ≫= λ _,
  reconcile_unknown resize_action actor reason request_id ≫= λ _,
  rows ← look live_broker_rows;
  listing ← list_open_orders "panic open-order payload is invalid";
  let remote_open := default [] listing.1 in
  drift ← svc_foldl (check_panic_quantity "panic open-order") listing.2 remote_open;
  faults ← look (remote_open_order_faults false remote_open);
  let drift := drift ++ faults in
  let explicit := explicit_ids rows remote_open in
  st ← svc_foldl (cancel_and_verify rows) (mkCancel drift [] []) explicit;
  final ← list_open_orders "panic final open-order payload is invalid";
  let final_remote_open := match final.1 with
                           | Some l => l
                           | None => omap (λ b, if bool_decide (b ∈ cx_terminal st) then None else remote_by_id remote_open b) explicit
                           end in
  drift ← svc_foldl (check_panic_quantity "panic final open-order") (cx_drift st ++ final.2) final_remote_open;
  faults ← look (remote_open_order_faults false final_remote_open);
  let drift := drift ++ faults in
  let failed := bool_decide (listing.1 = None) || bool_decide (final.1 = None) in
  let unaddressable_remote_open :=
    unaddressable remote_open || negb (bool_decide (invalid_open_ids remote_open = []))
    || unaddressable final_remote_open || negb (bool_decide (drift = [])) in
  let remote_ids := remote_open_ids (potentially_open explicit st final_remote_open) final_remote_open in
  local_state ← look (enumerate_unsafe_local_state opens reads_fail);
  let local_unconfirmed := unsafe_order_ids local_state in
  let safe := negb failed && negb unaddressable_remote_open && negb (has_unsafe_state local_state)
              && bool_decide (remote_ids = []) in
  trip_reconciliation_faults actor reason request_id drift [] ≫= λ _,
  mret (mkPanicReport safe (enumeration local_state) (if failed then "unknown" else "confirmed")
          (sorted_strings (cx_confirmed st)) local_unconfirmed remote_ids local_state
          (panic_message safe failed unaddressable_remote_open local_unconfirmed remote_ids)).

End Panic.

Definition panic `{Digest} (resize_action : string → Decimal → option string) {W : Type} `{!ReconcileBroker W}
    (actor reason request_id : string) (opens : bool) (reads_fail : string → bool) : svc W PanicReport :=
  match reconcile_context actor reason request_id with
  | Raise e => svc_raise e
  | Ok (actor, reason, request_id) => panic_under_writer resize_action actor reason request_id opens reads_fail
  end.
