(* ===== verification/ReconcileLogic.v ===== *)
(** A logic for the audited sessions and for the service: what a relation between databases
    must allow for every step of a reconciliation to stay within it.

    [Admits R] collects those steps; [keeps_to R] says a session respects [R] at its durable
    and its working copy, and [serves R] that a service call does.  The theorems on
    reconciliation and panic instantiate [R]. *)

From S2P Require Import Prelude PyDecimal Assets BrokerModels Breakers RiskRules RiskEngine.
From S2P Require Import Database Lifecycle SessionLogic BreakerStore OrderRepository RepositoryLogic RepositoryProofs SafetyState.
From S2P Require Import RuleRepository RuleProofs PlanTruth PlanLifecycle PlanLifecycleLogic PlanLifecycleProofs.
From S2P Require Import ReconcileSession FillImport StatusSync Reconciliation.
From Stdlib Require Import Lia.
Local Open Scope Z_scope.

Abbreviation dur s := (durable (r_session s)).
Abbreviation wrk s := (working (r_session s)).

(** * Order updates of a reconciliation that releases nothing *)

Definition needs_exact (o : Order) : Prop := o_acceptance_state o = FILL_RECONCILIATION_REQUIRED.

Record quiet_update (o o' : Order) : Prop := {
  qu_evolves : order_evolves o o';
  qu_latch : needs_exact o → needs_exact o';
}.

(** The relations a reconciliation step stays in. *)
Class Admits (R : Db → Db → Prop) : Prop := {
  ad_preorder :: PreOrder R;
  ad_plans d d' : plan_moves d d' → R d d';
  ad_order d id o o' : db_orders d !! id = Some o → quiet_update o o' → R d (set_db_orders (<[id := o']> (db_orders d)) d);
  ad_fills d fills : R d (set_db_fills fills d);
  ad_cursors d cursors : R d (set_db_cursors cursors d);
  ad_groups d groups : R d (set_db_groups groups d);
  ad_rules d rules : R d (set_db_rules rules d);
}.

(** ** Quiet updates *)

Lemma quiet_same_status o o' :
  o_status o' = o_status o → o_id o' = o_id o → o_idempotency_key o' = o_idempotency_key o →
  (o_ticker o', o_side o', o_order_type o', o_qty o', o_notional o', o_limit_price o')
    = (o_ticker o, o_side o, o_order_type o, o_qty o, o_notional o, o_limit_price o) →
  (o_submission_kind o', o_submission_payload_json o') = (o_submission_kind o, o_submission_payload_json o) →
  o_version o ≤ o_version o' → o_submission_attempt o' = o_submission_attempt o →
  (needs_exact o → needs_exact o') → quiet_update o o'.
Proof. intros. split; [by apply order_evolves_same_status|done]. Qed.

Lemma quiet_latch code t o : quiet_update o (latch_row code t o).
Proof. apply quiet_same_status; try done. cbn. lia. Qed.

Lemma transition_Ok o target t o' : transition o target t = Ok o' →
  o' = set_o_updated_at t (set_o_status (order_status_value target) o)
  ∧ ∃ cur, o_status o = order_status_value cur ∧ legal cur target.
Proof.
  unfold transition. intros (cur & Hc & Ht)%outcome_bind_Ok. apply order_status_of_Ok in Hc.
  destruct (can_transition cur target) eqn:Hcan; [|done]. injection Ht as <-. eauto.
Qed.

Lemma quiet_transition o target t o' : transition o target t = Ok o' → quiet_update o o'.
Proof.
  intros (-> & cur & Hc & Hl)%transition_Ok. split; [|done].
  apply (order_evolves_edge _ _ cur target); try done; [by left|]. left. split; [done|]. intros Hu.
  destruct (unsent cur) eqn:E; [done|]. by rewrite (legal_never_unsent _ _ Hl E) in Hu.
Qed.

Lemma quiet_bump o : quiet_update o (set_o_version (o_version o + 1) o).
Proof. apply quiet_same_status; try done. cbn. lia. Qed.

Create HintDb reconcile.
#[export] Hint Resolve quiet_latch quiet_transition quiet_bump : reconcile.

(** * Sessions *)

Section Sessions.
Context (R : Db → Db → Prop) `{!PreOrder R}.

(** From [s], both copies stay in [R] of any database they were in [R] of. *)
Definition keeps_at {A} (m : rtx A) (s : RSession) : Prop :=
  ∀ d0, R d0 (dur s) → R d0 (wrk s) → R d0 (dur (m s).2) ∧ R d0 (wrk (m s).2).

Definition keeps_to {A} (m : rtx A) : Prop := ∀ s, keeps_at m s.

Lemma kt_ret {A} (a : A) : keeps_to (mret a).
Proof. by intros s d0. Qed.
Lemma kt_now : keeps_to now.
Proof. by intros s d0. Qed.
Lemma kt_flush : keeps_to flush.
Proof. by intros s d0. Qed.

Lemma ka_bind {A B} (m : rtx A) (f : A → rtx B) s :
  keeps_at m s → (∀ a s', m s = (Ok a, s') → keeps_at (f a) s') → keeps_at (m ≫= f) s.
Proof.
  intros Hm Hf d0 Hd Hw. destruct (Hm d0 Hd Hw) as [Hd' Hw']. unfold mbind, rtx_bind.
  destruct (m s) as [[a|e] s'] eqn:E; [|done]. by apply (Hf a s').
Qed.
Lemma kt_bind {A B} (m : rtx A) (f : A → rtx B) : keeps_to m → (∀ a, keeps_to (f a)) → keeps_to (m ≫= f).
Proof. intros Hm Hf s. apply ka_bind; [apply Hm|]. intros a s' _. apply Hf. Qed.
Lemma kt_iter {A} (f : A → rtx ()) l : (∀ a, keeps_to (f a)) → keeps_to (rtx_iter f l).
Proof. intros Hf. induction l as [|x l IH]; [apply kt_ret|]. by apply kt_bind. Qed.
Lemma kt_foldl {A B} (f : A → B → rtx A) l : (∀ a b, keeps_to (f a b)) → ∀ a, keeps_to (rtx_foldl f a l).
Proof. intros Hf. induction l as [|x l IH]; intros a; [apply kt_ret|]. by apply kt_bind. Qed.

Lemma ka_session {A} (m : tx A) s : moves_at R m (r_session s) → keeps_at (on_session m) s.
Proof.
  intros [Hd Hw] d0 Hd0 Hw0. unfold on_session. destruct (m (r_session s)) as [r s'] eqn:E. cbn in *.
  split; [by rewrite Hd|by etrans].
Qed.
Lemma kt_session {A} (m : tx A) : moves R m → keeps_to (on_session m).
Proof. intros Hm s. apply ka_session, Hm. Qed.
Lemma kt_lift {A} (m : outcome A) : keeps_to (on_session (lift m)).
Proof. apply kt_session, moves_lift, _. Qed.
Lemma kt_raise {A} e : keeps_to (on_session (raise (A := A) e)).
Proof. apply kt_session, moves_raise, _. Qed.
Lemma kt_read : keeps_to (on_session read).
Proof. apply kt_session, moves_read, _. Qed.
Lemma kt_query {A} (f : Db → A) : keeps_to (query f).
Proof. apply kt_bind; [apply kt_flush|intros _]. apply kt_bind; [apply kt_read|]. intros d. apply kt_ret. Qed.
Lemma kt_commit : keeps_to (on_session commit).
Proof. by intros s d0. Qed.
Lemma kt_write f : (∀ d, R d (f d)) → keeps_to (on_session (write f)).
Proof. intros Hf. apply kt_session, moves_write, Hf. Qed.

(** An order read just now. *)
Lemma ka_get_order {A} id (k : Order → rtx A) s :
  (∀ o, db_orders (wrk s) !! id = Some o → keeps_at (k o) s) → keeps_at (on_session (get_order id) ≫= k) s.
Proof.
  intros Hk. apply ka_bind; [apply ka_session|].
  - unfold get_order, moves_at, mbind, tx_bind, read. cbn. by destruct (_ !! id).
  - unfold on_session. intros o s'. destruct (get_order id (r_session s)) as [r s1] eqn:E. intros [= -> <-].
    apply get_order_Ok in E as [Ho ->]. destruct s. by apply Hk.
Qed.

Lemma ka_now {A} (k : time → rtx A) s :
  (∀ t s', r_session s' = r_session s → keeps_at (k t) s') → keeps_at (now ≫= k) s.
Proof. intros Hk. apply ka_bind; [apply kt_now|]. intros t s' [= <- <-]. by apply Hk. Qed.

Lemma ka_put_order `{!Admits R} id o o' s :
  db_orders (wrk s) !! id = Some o → quiet_update o o' → keeps_at (on_session (put_order id o')) s.
Proof. intros Ho Hq. apply ka_session. split; [done|]. by eapply ad_order. Qed.

Lemma in_session_keeps {A} (m : rtx A) d c : keeps_to m → R d (with_rsession m d c).1.2.
Proof.
  intros Hm. unfold with_rsession. destruct (Hm (mkR (mkSession d d) d [] [] c) d) as [Hd _]; [done..|].
  by destruct (m _).
Qed.
End Sessions.

#[export] Hint Resolve kt_ret kt_now kt_flush kt_query kt_lift kt_raise kt_read kt_commit : reconcile.

Ltac keep := repeat (first [solve [eauto 2 with reconcile typeclass_instances] | apply kt_bind; [|intros ?]
  | apply kt_iter; [intros ?] | apply kt_foldl; intros ? ? | case_match ]).

(** * Steps of a session *)

Section Steps.
Context `{Digest} (resize_action : string → Decimal → option string) (actor reason request_id : string).
Context (R : Db → Db → Prop) `{!Admits R}.

Lemma moves_plan {A} (m : tx A) : moves plan_moves m → moves R m.
Proof. apply moves_weaken, ad_plans. Qed.

Lemma moves_recon_audit action tt target code detail :
  moves R (audit_reconciliation_mutation actor reason request_id action tt target code detail).
Proof. apply moves_plan. intros s. split; [done|]. apply (wi_moves nothing), within_audit. Qed.

Lemma moves_trip_in_session scope detail a rq t ar : moves R (trip_in_session scope detail a rq t ar).
Proof.
  apply moves_plan. intros s. destruct (trip_inputs_ok detail a rq ar) eqn:Hin.
  - unfold moves_at. rewrite trip_in_session_ok by done. split; [done|]. apply (wi_moves nothing), within_trip.
  - destruct (trip_in_session_bad scope detail a rq t ar s Hin) as [m E]. unfold moves_at. by rewrite E.
Qed.

Lemma kt_persist : keeps_to R (persist_pending_reconciliation_audits actor reason request_id).
Proof.
  intros s d0 Hd Hw. unfold persist_pending_reconciliation_audits.
  match goal with |- context [on_session ?m ?s'] => assert (keeps_to R (on_session m)) as Hk; [|by apply (Hk s')] end.
  apply kt_session; [apply _|]. apply moves_bind; [apply _|..]; [|intros []]; (apply moves_iter; [apply _|]; intros ?; apply moves_recon_audit).
Qed.

Lemma kt_commit_all : keeps_to R (commit_reconciliation_mutations resize_action actor reason request_id).
Proof.
  unfold commit_reconciliation_mutations. keep.
  - apply kt_session; [apply _|]. apply moves_plan, moves_reconcile_in_session.
  - apply kt_persist.
Qed.

Lemma kt_latch id code : keeps_to R (latch_order_in_session id code).
Proof.
  intros s. apply ka_get_order; [apply _|]. intros o Ho. destruct (needs_latch code o); [|by apply kt_ret].
  apply ka_now. intros t s' Hs. apply ka_bind; [eapply ka_put_order; [apply _|apply _|by rewrite Hs|auto with reconcile]|].
  intros [] s'' _. apply kt_ret.
Qed.

#[local] Hint Resolve kt_latch kt_commit_all : reconcile.

Lemma kt_overfill id total : keeps_to R (latch_quantity_overfill_in_session id total actor reason request_id).
Proof.
  intros s. apply ka_get_order; [apply _|]. intros o Ho. destruct (quantity_overfill_detail id o total); [|by apply kt_ret].
  match goal with |- keeps_at R ?m s => assert (keeps_to R m) as Hk; [|apply Hk] end. keep.
  apply kt_session; [apply _|]. apply moves_trip_in_session.
Qed.

Lemma kt_fills f : keeps_to R (on_session (write (λ d, set_db_fills (f d) d))).
Proof. apply kt_write; [apply _|]. intros d. apply ad_fills. Qed.
Lemma kt_get_order id : keeps_to R (on_session (get_order id)).
Proof. apply kt_session; [apply _|]. intros s. unfold get_order, moves_at, mbind, tx_bind, read. cbn. by destruct (_ !! id). Qed.

#[local] Hint Resolve kt_commit_all kt_latch kt_overfill kt_fills kt_get_order : reconcile.
#[local] Hint Unfold put_fill add_fill_row : reconcile.

Lemma kt_latch_orders ids code : keeps_to R (latch_orders resize_action ids code actor reason request_id).
Proof. unfold latch_orders. keep. Qed.

Lemma kt_quarantine : keeps_to R (quarantine_legacy_fills resize_action actor reason request_id).
Proof. unfold quarantine_legacy_fills, quarantine_fill, put_fill. keep. Qed.

Lemma kt_import_activity observed acc a : keeps_to R (import_activity observed actor reason request_id acc a).
Proof.
  unfold import_activity, import_duplicate, import_new, supersede_matching_quarantined_fill, remove_synthetic_fills, put_fill, add_fill_row.
  keep.
Qed.

#[local] Hint Resolve kt_import_activity : reconcile.

Lemma kt_cursors f : keeps_to R (on_session (write (λ d, set_db_cursors (f d) d))).
Proof. apply kt_write; [apply _|]. intros d. apply ad_cursors. Qed.
#[local] Hint Resolve kt_cursors : reconcile.

Lemma kt_import_batch key after v observed batch :
  keeps_to R (import_batch resize_action key after v observed batch actor reason request_id).
Proof.
  unfold import_batch, advance_cursor. keep.
Qed.

(** ** Statuses *)

Lemma kt_bump id : keeps_to R (bump_version id).
Proof. intros s. apply ka_get_order; [apply _|]. intros o Ho. eapply ka_put_order; [apply _|apply _|done|auto with reconcile]. Qed.
#[local] Hint Resolve kt_bump : reconcile.

Lemma kt_fault_and_latch id code fault : keeps_to R (fault_and_latch resize_action actor reason request_id id code fault).
Proof. unfold fault_and_latch. keep. Qed.
Lemma kt_keep_latch id b faults : keeps_to R (keep_latch resize_action actor reason request_id id b faults).
Proof. unfold keep_latch. keep. Qed.
#[local] Hint Resolve kt_fault_and_latch kt_keep_latch : reconcile.

Lemma kt_advance_status id target : keeps_to R (advance_status id target).
Proof.
  intros s. apply ka_get_order; [apply _|]. intros o Ho. apply ka_bind; [by apply kt_lift, _|].
  intros cur s' Hs. assert (r_session s' = r_session s) as Es by (unfold on_session, lift in Hs; by simplify_eq).
  destruct (_ && _); [|by apply kt_ret]. apply ka_now. intros t s1 Es1.
  apply ka_bind; [by apply kt_lift, _|]. intros o' s2 Hs2. unfold on_session, lift in Hs2. simplify_eq/=.
  apply ka_bind; [|intros [] ? _; apply kt_ret]. eapply ka_put_order; [apply _|apply _|cbn; by rewrite Es1, Es|eauto with reconcile].
Qed.
#[local] Hint Resolve kt_advance_status : reconcile.

Lemma kt_require_exact id target : keeps_to R (require_exact_fills id target).
Proof.
  unfold require_exact_fills. apply kt_bind; [auto with reconcile|]. intros b s. apply ka_get_order; [apply _|]. intros o Ho.
  destruct (bool_decide _); [by apply kt_ret|]. apply ka_now. intros t s' Es. apply ka_bind; [|intros [] ? _; apply kt_ret].
  eapply ka_put_order; [apply _|apply _|by rewrite Es|]. apply quiet_same_status; done.
Qed.
#[local] Hint Resolve kt_require_exact : reconcile.

Lemma kt_exact_gate id remote l rel blocked er sc lc :
  keeps_to R (exact_gate resize_action actor reason request_id id remote l rel blocked er sc lc).
Proof. unfold exact_gate. keep. Qed.
#[local] Hint Resolve kt_exact_gate : reconcile.

Lemma kt_add_synthetic id o remote q p : keeps_to R (add_synthetic_fill id o remote q p).
Proof. unfold add_synthetic_fill, add_fill_row. keep. Qed.
#[local] Hint Resolve kt_add_synthetic : reconcile.

(** A session that may release a latch needs [R] to allow it. *)
Definition releases : Prop :=
  ∀ d id o o', db_orders d !! id = Some o → order_evolves o o' → R d (set_db_orders (<[id := o']> (db_orders d)) d).

Lemma kt_settle_order id target release : (release = true → releases) →
  keeps_to R (settle_order resize_action actor reason request_id id target release).
Proof.
  intros Hrel. unfold settle_order. intros s. apply ka_get_order; [apply _|]. intros o Ho. apply ka_bind.
  { apply ka_session; [apply _|]. split; [done|]. cbn. destruct release.
    - apply (Hrel eq_refl _ id o); [done|]. by apply order_evolves_same_status.
    - eapply ad_order; [done|]. by split. }
  intros [] s1 _. apply ka_bind; [by apply kt_advance_status|]. intros b s2 _. apply ka_get_order; [apply _|]. intros o2 Ho2.
  apply ka_now. intros t s3 Es3. apply ka_bind; [|intros [] s4 _; apply kt_commit_all].
  eapply ka_put_order; [apply _|apply _|by rewrite Es3|]. apply quiet_same_status; try done. cbn. lia.
Qed.

Lemma kt_compare_recorded id remote l er lc release : (release = true → releases) →
  keeps_to R (compare_recorded resize_action actor reason request_id id remote l er lc release).
Proof. intros Hrel. pose proof (kt_settle_order id). unfold compare_recorded. keep. Qed.

Lemma kt_sync_order blocked er sc report : releases →
  keeps_to R (sync_order resize_action actor reason request_id blocked er sc report).
Proof.
  intros Hrel. pose proof (λ id remote l er lc release, kt_compare_recorded id remote l er lc release (λ _, Hrel)).
  unfold sync_order. keep.
Qed.
End Steps.
