(* ===== verification/ReconcileProofs.v ===== *)
(** The reconciliation service as a whole: every call moves stored orders along the state
    machine and clears no breaker, a reported fault trips the drift breaker, and a fill latch
    is released only on exact broker truth. *)

From S2P Require Import Prelude PyDecimal Assets BrokerModels Breakers RiskRules RiskEngine.
From S2P Require Import Database Lifecycle SessionLogic BreakerStore OrderRepository RepositoryLogic RepositoryProofs SafetyState.
From S2P Require Import RuleRepository RuleProofs PlanTruth PlanLifecycle PlanLifecycleLogic PlanLifecycleProofs.
From S2P Require Import Submission OrderSystem.
From S2P Require Import ReconcileSession FillImport StatusSync Reconciliation ReconcileLogic.
From Stdlib Require Import Lia.
Local Open Scope Z_scope.

(** * Service calls *)

Section Serves.
Context {W : Type} (R : Db → Db → Prop) `{!PreOrder R}.

Definition serves {A} (m : svc W A) : Prop := ∀ s, R (sv_db s) (sv_db (m s).2).

Lemma sv_ret {A} (a : A) : serves (mret a).
Proof. by intros s. Qed.
Lemma sv_raise {A} e : serves (svc_raise (A := A) e).
Proof. by intros s. Qed.
Lemma sv_look {A} (f : Db → A) : serves (look f).
Proof. by intros s. Qed.
Lemma sv_now : serves svc_now.
Proof. by intros s. Qed.
Lemma sv_call {A} (f : W → outcome A * W) : serves (call f).
Proof. intros s. unfold call. by destruct (f (sv_world s)). Qed.
Lemma sv_bind {A B} (m : svc W A) (f : A → svc W B) : serves m → (∀ a, serves (f a)) → serves (m ≫= f).
Proof.
  intros Hm Hf s. specialize (Hm s). unfold mbind, svc_bind. destruct (m s) as [[a|e] s']; [|done]. etrans; [done|apply Hf].
Qed.
(** What is known of a reply is known of the calls that gave it. *)
Lemma sv_call_bind {A B} (f : W → outcome A * W) (k : outcome A → svc W B) :
  (∀ r w w', f w = (r, w') → serves (k r)) → serves (call f ≫= k).
Proof.
  intros Hk s. unfold call, mbind, svc_bind. destruct (f (sv_world s)) as [r w] eqn:E.
  by apply (Hk _ _ _ E (mkSvc (sv_db s) w (sv_clock s))).
Qed.
Lemma sv_foldl {A B} (f : A → B → svc W A) l : (∀ a b, serves (f a b)) → ∀ a, serves (svc_foldl f a l).
Proof. intros Hf. induction l as [|x l IH]; intros a; [apply sv_ret|]. by apply sv_bind. Qed.
Lemma sv_in_session {A} (m : rtx A) : keeps_to R m → serves (in_session m).
Proof.
  intros Hm s. unfold in_session. pose proof (in_session_keeps R m (sv_db s) (sv_clock s) Hm).
  by destruct (with_rsession _ _ _) as [[r d] c].
Qed.
Lemma sv_on_store {A} (f : time → Db → outcome A * Db) : (∀ t d, R d (f t d).2) → serves (on_store f).
Proof. intros Hf s. unfold on_store. specialize (Hf (sv_clock s 0%nat) (sv_db s)). by destruct (f _ _). Qed.
End Serves.

#[export] Hint Resolve sv_ret sv_raise sv_look sv_now sv_call : reconcile.

Ltac serve := repeat (first [solve [eauto 3 with reconcile typeclass_instances] | apply sv_bind; [apply _| |intros ?]
  | apply sv_foldl; [apply _|intros ? ?] | case_match ]).

Section Service.
Context `{Digest} (resize_action : string → Decimal → option string) {W : Type} `{!ReconcileBroker W}.
Context (R : Db → Db → Prop) `{!Admits R}.

Section Context.
Context (actor reason request_id : string).

Lemma sv_latch_ids ids code : serves R (latch_order_ids (W := W) resize_action actor reason request_id ids code).
Proof. unfold latch_order_ids. serve. apply sv_in_session; [apply _|]. by apply kt_latch_orders. Qed.
#[local] Hint Resolve sv_latch_ids : reconcile.

Lemma sv_latch_broker bid code : serves R (latch_broker_order_id (W := W) resize_action actor reason request_id bid code).
Proof. unfold latch_broker_order_id. serve. Qed.
#[local] Hint Resolve sv_latch_broker : reconcile.

Lemma breaker_trip_admitted scope detail a rq t ar d : R d (breaker_trip scope detail a rq t ar d).2.
Proof.
  unfold breaker_trip, with_session, mbind, tx_bind. destruct (moves_trip_in_session R scope detail a rq t ar (mkSession d d)) as [Hd Hw].
  destruct (trip_in_session _ _ _ _ _ _ _) as [[x|e] s']; cbn in *; [done|by rewrite Hd].
Qed.

Lemma sv_trip_faults drift ids : serves R (trip_reconciliation_faults (W := W) actor reason request_id drift ids).
Proof. unfold trip_reconciliation_faults. serve; apply sv_on_store; intros; apply breaker_trip_admitted. Qed.

Lemma kt_clear_group id : keeps_to R (clear_group actor reason request_id id).
Proof.
  unfold clear_group. keep. apply kt_session; [apply _|]. apply moves_bind; [apply _|..]; [|intros []; apply moves_recon_audit, _].
  apply moves_write. intros d. apply ad_groups.
Qed.

Lemma sv_clear_groups : serves R (clear_reconciled_rule_groups (W := W) resize_action actor reason request_id).
Proof.
  unfold clear_reconciled_rule_groups. apply sv_in_session; [apply _|]. pose proof (kt_clear_group).
  pose proof (kt_commit_all resize_action actor reason request_id R). keep.
Qed.

(** [R] allows what the broker's answers resolve an acceptance to. *)
Definition resolves : Prop := ∀ k (w : W) remote w', rb_order_by_client_id k w = (Ok (Some remote), w') →
  ∀ id t a b c d, R d (resolve_acceptance id (r_broker_order_id remote) (r_status remote) (r_filled_qty remote) t a b c d).2.

Lemma sv_resolve_order acc row : resolves → serves R (resolve_order (W := W) resize_action actor reason request_id acc row).
Proof.
  intros Hres. destruct row as (id & k & ticker). apply sv_call_bind. intros [[remote|]|e] w w' Hcall; [..|serve]; [|serve].
  serve; apply sv_on_store; intros; by eapply Hres.
Qed.

Lemma sv_resolve_unknown : resolves → serves R (resolve_unknown (W := W) resize_action actor reason request_id).
Proof. intros Hres. pose proof (λ acc row, sv_resolve_order acc row Hres). unfold resolve_unknown. serve. Qed.

#[local] Hint Resolve sv_trip_faults sv_clear_groups sv_resolve_unknown : reconcile.

Lemma sv_reconcile_unknown_held : resolves → serves R (reconcile_unknown_held (W := W) resize_action actor reason request_id).
Proof. intros Hres. unfold reconcile_unknown_held. serve. Qed.

Lemma sv_fill_activities : serves R (reconcile_fill_activities (W := W) resize_action actor reason request_id).
Proof. unfold reconcile_fill_activities. serve. apply sv_in_session; [apply _|]. by apply kt_import_batch. Qed.

Lemma sv_statuses pre blocked sc : releases R → serves R (reconcile_statuses (W := W) resize_action actor reason request_id pre blocked sc).
Proof.
  intros Hrel. unfold reconcile_statuses, fetch_status, sync_report. serve. apply sv_in_session; [apply _|]. by apply kt_sync_order.
Qed.

Lemma sv_open_drift : serves R (detect_open_order_drift (W := W) resize_action actor reason request_id).
Proof. unfold detect_open_order_drift, check_open_quantity. serve. Qed.
#[local] Hint Resolve sv_fill_activities sv_statuses sv_open_drift : reconcile.

Lemma sv_reconcile_held : resolves → releases R → serves R (reconcile_held (W := W) resize_action actor reason request_id).
Proof. intros Hres Hrel. unfold reconcile_held. serve. apply sv_in_session; [apply _|]. by apply kt_quarantine. Qed.
End Context.

Lemma sv_reconcile_unknown actor reason request_id : resolves → serves R (reconcile_unknown (W := W) resize_action actor reason request_id).
Proof. intros Hres. unfold reconcile_unknown. destruct (reconcile_context _ _ _) as [[[a b] c]|e]; [by apply sv_reconcile_unknown_held|serve]. Qed.

Lemma sv_reconcile actor reason request_id : resolves → releases R → serves R (reconcile (W := W) resize_action actor reason request_id).
Proof. intros Hres Hrel. unfold reconcile. destruct (reconcile_context _ _ _) as [[[a b] c]|e]; [by apply sv_reconcile_held|serve]. Qed.
End Service.

(** * Orders move forward *)

(** Orders move by [Q], proposals stay, no breaker is cleared and the audit log grows. *)
Record moves_by (Q : Order → Order → Prop) (d d' : Db) : Prop := {
  mb_orders : rows_move Q (db_orders d) (db_orders d');
  mb_proposals : db_proposals d' = db_proposals d;
  mb_breakers : ∀ k r, db_breakers d !! k = Some r → ∃ r', db_breakers d' !! k = Some r' ∧ breaker_evolves r r';
  mb_audit : db_audit d `prefix_of` db_audit d';
}.

Section MovesBy.
Context (Q : Order → Order → Prop) `{!PreOrder Q} (HQ : ∀ o o', order_evolves o o' → Q o o').

#[export] Instance moves_by_preorder : PreOrder (moves_by Q).
Proof.
  split.
  - intros d. split; try done; [apply rows_move_refl, _|]. intros k r Hr. exists r. by repeat split.
  - intros x y z [] []. split; [by eapply rows_move_trans; [apply _|..]|congruence| |by etrans].
    intros k r Hr. edestruct mb_breakers0 as (r1 & H1 & [T1 G1]); [done|].
    edestruct mb_breakers1 as (r2 & H2 & [T2 G2]); [done|]. exists r2. split; [done|]. split; [auto|lia].
Qed.

Lemma moves_by_rest d d' : db_orders d' = db_orders d → db_proposals d' = db_proposals d → db_breakers d' = db_breakers d →
  db_audit d' = db_audit d → moves_by Q d d'.
Proof.
  intros Ho Hp Hb Ha. split; [rewrite Ho; apply rows_move_refl, _|done| |by rewrite Ha].
  intros k r Hr. rewrite Hb. exists r. by repeat split.
Qed.

Lemma moves_by_order d id o o' : db_orders d !! id = Some o → Q o o' → moves_by Q d (set_db_orders (<[id := o']> (db_orders d)) d).
Proof.
  intros Ho Hq. split; try done; [by eapply rows_move_insert; [apply _|..]|]. intros k r Hr. exists r. by repeat split.
Qed.

Lemma moves_by_evolves d d' : evolves d d' → moves_by Q d d'.
Proof.
  intros [Ho _ Hp _ _ _ Hb Ha]. split; try done. intros k. specialize (Ho k).
  destruct (db_orders d !! k), (db_orders d' !! k); auto.
Qed.

#[export] Instance moves_by_admits : Admits (moves_by Q).
Proof.
  split; [apply _| | |intros; by apply moves_by_rest..].
  - intros d d' [Ho _ _ _ Hp _ Hb Ha _ _]. split; try done. intros k. specialize (Ho k).
    destruct (db_orders d !! k), (db_orders d' !! k); [|done..]. apply HQ. by destruct Ho.
  - intros d id o o' Ho [He _]. eapply moves_by_order; [done|auto].
Qed.
End MovesBy.

(** The broker adapter reports the status it maps the broker's text to. *)
Class AcceptanceStatuses (W : Type) `{!ReconcileBroker W} : Prop :=
  acceptance_statuses k (w : W) remote w' :
    rb_order_by_client_id k w = (Ok (Some remote), w') → ∃ raw, r_status remote = map_status raw.

Lemma evolves_resolves {W} `{!ReconcileBroker W, !AcceptanceStatuses W} `{Digest} : resolves (W := W) (moves_by order_evolves).
Proof.
  intros k w remote w' Hcall id t a b c d. apply moves_by_evolves; [done|].
  apply (pg_evolves []), resolve_acceptance_progress. edestruct acceptance_statuses as [raw ->]; [done|]. apply map_status_reported.
Qed.

Lemma evolves_releases : releases (moves_by order_evolves).
Proof. intros d id o o' Ho He. exact (moves_by_order order_evolves d id o o' Ho He). Qed.

#[export] Instance evolves_admits : Admits (moves_by order_evolves) := moves_by_admits order_evolves (λ _ _ H, H).

Lemma reconcile_moves `{Digest} resize_action {W} `{!ReconcileBroker W, !AcceptanceStatuses W} actor reason request_id (s : SvcState W) :
  moves_by order_evolves (sv_db s) (sv_db (reconcile resize_action actor reason request_id s).2).
Proof.
  apply sv_reconcile; [apply _|apply evolves_resolves|apply evolves_releases].
Qed.

(** * Faults trip the drift breaker *)

Lemma breaker_trip_trips scope detail a rq t ar d st d' : breaker_trip scope detail a rq t ar d = (Ok st, d') → is_tripped scope d' = true.
Proof.
  unfold breaker_trip, with_session, mbind, tx_bind. destruct (trip_inputs_ok detail a rq ar) eqn:Hin.
  - rewrite trip_in_session_ok by done. intros [= <- <-]. unfold is_tripped, tripped_db. cbn. by rewrite lookup_insert_eq.
  - destruct (trip_in_session_bad scope detail a rq t ar (mkSession d d) Hin) as [m ->]. by intros [=].
Qed.

Lemma trip_faults_trips {W} actor reason rq drift ids (s s' : SvcState W) u :
  trip_reconciliation_faults actor reason rq drift ids s = (Ok u, s') → drift ≠ [] ∨ ids ≠ [] → is_tripped scope_broker_drift (sv_db s') = true.
Proof.
  intros Hrun Hne. unfold trip_reconciliation_faults in Hrun.
  set (faults := drift ++ _) in Hrun. assert (faults ≠ []) as Hf.
  { unfold faults. destruct (decide (ids = [])); [rewrite bool_decide_true by done|rewrite bool_decide_false by done];
      intros [? ?]%app_eq_nil; naive_solver. }
  rewrite bool_decide_false in Hrun by done. unfold mbind, svc_bind, on_store in Hrun.
  destruct (breaker_trip _ _ _ _ _ _ _) as [[st|e] d'] eqn:E; [|done]. injection Hrun as _ <-. exact (breaker_trip_trips _ _ _ _ _ _ _ _ _ E).
Qed.

(** * Releasing a fill latch *)

(** The latch of one order is held. *)
Definition holds_latch (id : Z) (d d' : Db) : Prop :=
  ∀ o, db_orders d !! id = Some o → needs_exact o → ∃ o', db_orders d' !! id = Some o' ∧ needs_exact o'.

#[export] Instance holds_latch_admits id : Admits (holds_latch id).
Proof.
  split; try (intros; intros o' Ho' Hn; by exists o').
  - split; [by intros d o Ho Hn; exists o|]. intros x y z H1 H2 o Ho Hn. destruct (H1 o Ho Hn) as (o1 & Ho1 & Hn1). exact (H2 o1 Ho1 Hn1).
  - intros d d' [Ho _ _ _ _ _ _ _ _] o Hid Hn. specialize (Ho id). rewrite Hid in Ho.
    destruct (db_orders d' !! id) as [o'|]; [|done]. exists o'. split; [done|]. unfold needs_exact in *. by rewrite (os_proposal _ _ Ho).
  - intros d k o o' Hk [_ Hq] x Hx Hn. cbn. destruct (decide (k = id)) as [->|Hne].
    + exists o'. rewrite lookup_insert_eq. simplify_eq. auto.
    + exists x. by rewrite lookup_insert_ne.
Qed.

(** The broker's report about an order, against the stored fills, is exact and complete. *)
Definition exact_truth (id : Z) (o : Order) (fills : list Fill) (remote : OrderResult) (blocked : list Z) (exact_reader stream_complete : bool)
    : Prop :=
  report_identity_error o remote = None
  ∧ exact_reader = true ∧ stream_complete = true ∧ id ∉ blocked
  ∧ match ledger_view o fills with
    | Ok l => lv_legacy l = [] ∧ length (lv_exact l) = length (lv_prior l)
              ∧ fill_quantity_relation (r_filled_qty remote) (lv_authoritative l) = Some EXACT
              ∧ (deq (r_filled_qty remote) dzero = true → lv_prior l = [] ∧ r_status remote ∈ [CANCELED; REJECTED; EXPIRED])
    | Raise _ => False
    end.

#[export] Instance exact_truth_dec id o fills remote blocked er sc : Decision (exact_truth id o fills remote blocked er sc).
Proof. unfold exact_truth. destruct (ledger_view o fills); apply _. Defined.

Lemma rtx_bind_Ok {A B} (m : rtx A) (f : A → rtx B) s b s' :
  (m ≫= f) s = (Ok b, s') → ∃ a s1, m s = (Ok a, s1) ∧ f a s1 = (Ok b, s').
Proof. unfold mbind, rtx_bind. destruct (m s) as [[a|e] s1]; [eauto|done]. Qed.

Lemma svc_bind_Ok {W A B} (m : svc W A) (f : A → svc W B) s b s' :
  (m ≫= f) s = (Ok b, s') → ∃ a s1, m s = (Ok a, s1) ∧ f a s1 = (Ok b, s').
Proof. unfold mbind, svc_bind. destruct (m s) as [[a|e] s1]; [eauto|done]. Qed.

Lemma query_Ok {A} (f : Db → A) s a s' : query f s = (Ok a, s') → a = f (wrk s) ∧ r_session s' = r_session s.
Proof. unfold query, mbind, rtx_bind, flush, on_session, read. cbn. by intros [= <- <-]. Qed.

Lemma on_lift_Ok {A} (m : outcome A) s a s' : on_session (lift m) s = (Ok a, s') → m = Ok a ∧ s' = s.
Proof. unfold on_session, lift. destruct s. by intros [= -> <-]. Qed.

Lemma on_get_order_Ok id s o s' : on_session (get_order id) s = (Ok o, s') → db_orders (wrk s) !! id = Some o ∧ s' = s.
Proof.
  unfold on_session. destruct (get_order id (r_session s)) as [r s1] eqn:E. intros [= -> <-].
  apply get_order_Ok in E as [Ho ->]. by destruct s.
Qed.

Lemma overfill_None id total a b c s s' : latch_quantity_overfill_in_session id total a b c s = (Ok None, s') → s' = s.
Proof.
  unfold latch_quantity_overfill_in_session. intros (o & s1 & Ho & Hk)%rtx_bind_Ok. apply on_get_order_Ok in Ho as [_ ->].
  destruct (quantity_overfill_detail id o total); [|by injection Hk].
  repeat (apply rtx_bind_Ok in Hk as (? & ? & _ & Hk)). done.
Qed.

Section Release.
Context `{Digest} (resize_action : string → Decimal → option string) (actor reason request_id : string).

Lemma exact_gate_open id remote l rel blocked er sc lc s s' :
  exact_gate resize_action actor reason request_id id remote l rel blocked er sc lc s = (Ok None, s') →
  lv_legacy l = [] ∧ id ∉ blocked ∧ er = true ∧ sc = true
  ∧ ∃ o, fills_unaccounted remote l rel (terminal_zero_fill_resolved o remote l sc) = false.
Proof.
  unfold exact_gate. intros (o & s1 & _ & Hk)%rtx_bind_Ok.
  destruct (decide (lv_legacy l = [])) as [El|El]; [rewrite bool_decide_true in Hk by done|rewrite bool_decide_false in Hk by done];
    cbn [negb] in Hk; [|by apply rtx_bind_Ok in Hk as (? & ? & _ & [=])].
  destruct (decide (id ∈ blocked)) as [Hb|Hb]; [rewrite bool_decide_true in Hk by done|rewrite bool_decide_false in Hk by done].
  { by do 2 apply rtx_bind_Ok in Hk as (? & ? & _ & Hk). }
  destruct er; cbn [negb] in Hk; [|by apply rtx_bind_Ok in Hk as (? & ? & _ & [=])].
  destruct sc; cbn [negb] in Hk; [|by apply rtx_bind_Ok in Hk as (? & ? & _ & [=])].
  destruct (fills_unaccounted _ _ _ _) eqn:Eu; [by apply rtx_bind_Ok in Hk as (? & ? & _ & [=])|]. eauto 10.
Qed.

Lemma gate_exact_truth o remote l rel sc : fills_unaccounted remote l rel (terminal_zero_fill_resolved o remote l sc) = false →
  length (lv_exact l) = length (lv_prior l) ∧ rel = EXACT
  ∧ (deq (r_filled_qty remote) dzero = true → lv_prior l = [] ∧ r_status remote ∈ [CANCELED; REJECTED; EXPIRED]).
Proof.
  unfold fills_unaccounted, terminal_zero_fill_resolved. intros Hu.
  reflect_bools. split_and!; [done..|]. intros Hz. rewrite Hz in *. cbn in *. by reflect_bools.
Qed.

(** Without exact truth the turn holds the latch. *)
Lemma sync_holds_latch id remote o blocked er sc s :
  db_orders (wrk s) !! id = Some o → ¬ exact_truth id o (order_fills id (wrk s)) remote blocked er sc →
  keeps_at (holds_latch id) (sync_order resize_action actor reason request_id blocked er sc (id, remote)) s.
Proof.
  intros Ho Hno. pose proof (λ code fault, kt_fault_and_latch resize_action actor reason request_id (holds_latch id) id code fault) as Hfl.
  unfold sync_order. apply ka_bind; [by apply kt_query, _|]. intros row s1 [-> E1]%query_Ok. rewrite Ho.
  destruct (report_identity_error o remote) as [e|] eqn:Hident; [apply Hfl|].
  destruct (negb (valid_cumulative_filled_qty _)); [apply Hfl|].
  apply ka_bind; [by apply kt_lift, _|]. intros cur s2 [_ ->]%on_lift_Ok.
  apply ka_bind; [by apply kt_query, _|]. intros fills s3 [-> E3]%query_Ok. rewrite E1.
  apply ka_bind; [by apply kt_lift, _|]. intros l s4 [Hl ->]%on_lift_Ok.
  apply ka_bind; [by apply kt_overfill, _|]. intros [detail|] s5 H5.
  { match goal with |- keeps_at _ ?m _ => assert (keeps_to (holds_latch id) m) as Hk; [|apply Hk] end.
    pose proof (kt_commit_all resize_action actor reason request_id (holds_latch id)). keep. }
  destruct (fill_quantity_relation _ _) as [rel|] eqn:Hrel; [|apply Hfl].
  assert (keeps_to (holds_latch id) (if bool_decide (r_status remote ∈ FILL_STATUSES) || bool_decide (rel = AHEAD)
            then require_exact_fills id (r_status remote) else mret false)) as Hlc.
  { destruct (_ || _); [by apply kt_require_exact, _|apply kt_ret]. }
  assert (∀ s6, keeps_at (holds_latch id) (compare_recorded resize_action actor reason request_id id remote l er false false) s6 ∧
            keeps_at (holds_latch id) (compare_recorded resize_action actor reason request_id id remote l er true false) s6) as Hcr.
  { intros s6. split; (apply kt_compare_recorded; [apply _|intros [=]]). }
  destruct rel; [apply Hfl|..]; (apply ka_bind; [apply Hlc|]; intros lc s6 _; apply ka_get_order; [apply _|]; intros o6 Ho6;
    destruct (bool_decide (o_acceptance_state o6 = _));
    [|apply ka_bind; [apply kt_ret|]; intros stop s7 [= <- <-]; destruct lc; apply Hcr];
    apply ka_bind; [by apply kt_exact_gate, _|]; intros [res|] s7 Hgate; [apply kt_ret|];
    exfalso; apply exact_gate_open in Hgate as (Hleg & Hb & -> & -> & x & (Hlen & He & Hz)%gate_exact_truth);
    apply Hno; unfold exact_truth; rewrite Hl; try done; by split_and!).
Qed.
End Release.

(** * Theorems *)

(** A reconciliation pass, whether it returns or raises, and whatever else the broker
    answers, moves every stored order along legal transitions, or from an unknown acceptance to
    expired, with its identity and terms, creates and deletes none, keeps the proposals, clears
    no breaker and only appends audit rows; it is a step the order system allows other
    components.  The broker's statuses are those its adapter maps to. *)
Theorem reconcile_follows_state_machine `{Digest} `{Parsers} {B : Type} `{!Broker B} resize_action
    {W : Type} `{!ReconcileBroker W, !AcceptanceStatuses W} actor reason request_id (s : SvcState W) :
  let d' := sv_db (reconcile resize_action actor reason request_id s).2 in
  moves_by order_evolves (sv_db s) d'
  ∧ ∀ (w : World B) ps, w_db w = sv_db s → sys_step (mkState w ps) (mkState (set_db w d') ps).
Proof.
  intros d'. pose proof (reconcile_moves resize_action actor reason request_id s) as Hm. fold d' in Hm. split; [done|].
  intros w ps Hw. apply SOther. rewrite Hw. intros id o Ho. pose proof (mb_orders _ _ _ Hm id) as Hid. rewrite Ho in Hid.
  destruct (db_orders d' !! id) as [o'|]; [eauto|done].
Qed.

(** When a pass returns with any fault, or with an acceptance still unresolved, the
    broker-drift breaker is tripped in the database it leaves. *)
Theorem reconcile_faults_trip `{Digest} resize_action {W : Type} `{!ReconcileBroker W} actor reason request_id (s s' : SvcState W) report :
  reconcile resize_action actor reason request_id s = (Ok report, s') →
  rp_broker_drift report ≠ [] ∨ rp_unresolved_unknown report ≠ [] →
  is_tripped scope_broker_drift (sv_db s') = true.
Proof.
  unfold reconcile. destruct (reconcile_context actor reason request_id) as [[[a b] c]|e]; [|done]. unfold reconcile_held.
  intros Hrun Hf. apply svc_bind_Ok in Hrun as (u1 & s1 & _ & Hrun). apply svc_bind_Ok in Hrun as (res & s2 & _ & Hrun).
  apply svc_bind_Ok in Hrun as ([[[fd ins] bl] co] & s3 & _ & Hrun). apply svc_bind_Ok in Hrun as ([[sd sy] sn] & s4 & _ & Hrun).
  apply svc_bind_Ok in Hrun as (q & s5 & _ & Hrun). apply svc_bind_Ok in Hrun as (u2 & s6 & _ & Hrun).
  apply svc_bind_Ok in Hrun as (od & s7 & _ & Hrun). apply svc_bind_Ok in Hrun as (u3 & s8 & Htrip & [= <- <-]).
  by eapply trip_faults_trips.
Qed.

(** Claim C19.  Comparing an order with the broker's report of it releases the order's fill
    latch only when the report names this order, the activity stream was read to its end without
    an invalid activity of this order, no legacy fill of it is left, every trusted fill is an
    exact activity, and their sum equals the reported quantity; a report of nothing filled
    releases it only for a terminal order without any fill. *)
Theorem latch_release_needs_exact_truth `{Digest} resize_action actor reason request_id blocked exact_reader stream_complete
    id remote d c r d' c' o o' :
  with_rsession (sync_order resize_action actor reason request_id blocked exact_reader stream_complete (id, remote)) d c = (r, d', c') →
  db_orders d !! id = Some o → needs_exact o → db_orders d' !! id = Some o' → ¬ needs_exact o' →
  exact_truth id o (order_fills id d) remote blocked exact_reader stream_complete.
Proof.
  intros Hrun Ho Hn Ho' Hn'. destruct (decide (exact_truth id o (order_fills id d) remote blocked exact_reader stream_complete)); [done|].
  exfalso. apply Hn'. unfold with_rsession in Hrun.
  destruct (sync_holds_latch resize_action actor reason request_id id remote o blocked exact_reader stream_complete
              (mkR (mkSession d d) d [] [] c) Ho) with d as [Hk _]; [done|by intros ? ? ?; eauto..|].
  destruct (sync_order _ _ _ _ _ _ _ _ _) as [x sx]. injection Hrun as <- <- <-.
  destruct (Hk o Ho Hn) as (o1 & Ho1 & Hn1). cbn in *. by simplify_eq.
Qed.

(** ** Concrete passes *)

(** A broker with fixed answers. *)
Definition fixed_broker (orders : list OrderResult) (activities : option (list BrokerFill)) : ReconcileBroker () := {|
  reconciliation_key := "demo";
  rb_order_by_client_id k w := (Ok (head (filter (λ r, r_idempotency_key r = k) orders)), w);
  rb_order_status b w :=
    (match head (filter (λ r, r_broker_order_id r = Some b) orders) with Some r => Ok r | None => Raise (KeyError b) end, w);
  rb_open_orders w := (Ok (filter (λ r, r_status r ∈ REMOTE_OPEN_STATUSES) orders), w);
  rb_cancel_order b w :=
    (match head (filter (λ r, r_broker_order_id r = Some b) orders) with Some r => Ok r | None => Raise (KeyError b) end, w);
  rb_fill_activities := option_map (λ l _ w, (Ok l, w)) activities;
|}.

Definition demo_report (status : OrderStatus) (filled : Decimal) : OrderResult :=
  mkOrderResult "key-1" (Some "b-1") status filled (Some (Fin 100 0)) 200 (Some "AAPL") (Some BUY) (Some BMARKET) None (Some (Fin 10 0)) None.

Definition demo_activity (qty : Z) : BrokerFill := mkBrokerFill "act-1" "b-1" "AAPL" "buy" (Fin qty 0) (Fin 100 0) 210.

(** One order of ten shares, open or of unknown acceptance, latched or not. *)
Definition recon_order (status : OrderStatus) (acceptance code : string) : Order :=
  mkOrder 1 "key-1" "AAPL" "buy" "market" (Some (Fin 10 0)) None None (order_status_value status) (Some "b-1") None EmptyString None
    "simple" "{}" 1 (Some 200) acceptance None code "none" 3 100 200.

Definition recon_db (status : OrderStatus) (acceptance code : string) (fills : list Fill) : Db :=
  mkDb {[ 1 := recon_order status acceptance code ]} ∅ ∅ ∅ fills [] [] ∅ ∅ [] ∅ ∅ ∅ ∅.

Definition demo_fill_row : Fill := mkFillRow 1 (Some 1) "AAPL" "buy" (Fin 10 0) (Fin 100 0) (Some "act-1") "trusted" 210.

Definition demo_digest_r : Digest := λ x, x.
Definition demo_resize_r (old : string) (qty : Decimal) : option string := Some old.

Definition demo_svc (d : Db) : SvcState () := mkSvc d () (λ n, 300 + Z.of_nat n).
Definition demo_pass (orders : list OrderResult) (activities : option (list BrokerFill)) (d : Db) : outcome ReconciliationReport * SvcState () :=
  @reconcile demo_digest_r demo_resize_r () (fixed_broker orders activities) "monitor" "pass" "r1" (demo_svc d).

Lemma fixed_acceptance orders activities : Forall (λ r, r_status r ∈ REPORTED_STATUSES) orders →
  @AcceptanceStatuses () (fixed_broker orders activities).
Proof.
  intros Hall k w remote w' [= Hr _]. apply reported_mapped. rewrite Forall_forall in Hall. apply Hall.
  apply head_Some_elem_of, list_elem_of_filter in Hr. tauto.
Qed.

Lemma reconcile_follows_state_machine_witness :
  let d := recon_db ACCEPTANCE_UNKNOWN "unknown" EmptyString [] in
  let d' := sv_db (demo_pass [demo_report FILLED (Fin 10 0)] (Some [demo_activity 10]) d).2 in
  moves_by order_evolves d d' ∧ option_map o_status (db_orders d' !! 1) = Some "filled".
Proof.
  split; [|by vm_compute].
  assert (Forall (λ r, r_status r ∈ REPORTED_STATUSES) [demo_report FILLED (Fin 10 0)]) as Hall
    by (apply (bool_decide_unpack _); by vm_compute).
  apply (@reconcile_follows_state_machine demo_digest_r demo_parsers MockBroker _ demo_resize_r () (fixed_broker [demo_report FILLED (Fin 10 0)]
    (Some [demo_activity 10])) (fixed_acceptance _ _ Hall) "monitor" "pass" "r1"
    (demo_svc (recon_db ACCEPTANCE_UNKNOWN "unknown" EmptyString []))).
Defined.

Lemma reconcile_faults_trip_witness :
  is_tripped scope_broker_drift (sv_db (demo_pass [demo_report FILLED (Fin 15 0)] (Some [demo_activity 15])
    (recon_db SUBMITTED "accepted" EmptyString [])).2) = true.
Proof.
  assert (match (demo_pass [demo_report FILLED (Fin 15 0)] (Some [demo_activity 15]) (recon_db SUBMITTED "accepted" EmptyString [])).1 with
          | Ok r => negb (bool_decide (rp_broker_drift r = [])) | Raise _ => false end = true) as Hd by (by vm_compute).
  destruct (demo_pass _ _ _) as [[report|e] s'] eqn:E; [|done]. cbn in Hd. reflect_bools.
  apply (@reconcile_faults_trip demo_digest_r demo_resize_r () (fixed_broker [demo_report FILLED (Fin 15 0)] (Some [demo_activity 15]))
    "monitor" "pass" "r1" (demo_svc (recon_db SUBMITTED "accepted" EmptyString [])) s' report E). by left.
Defined.

Lemma latch_release_needs_exact_truth_witness :
  exact_truth 1 (recon_order SUBMITTED FILL_RECONCILIATION_REQUIRED EmptyString) [demo_fill_row] (demo_report FILLED (Fin 10 0)) [] true true.
Proof.
  assert (o_acceptance_state <$> db_orders (with_rsession (@sync_order demo_digest_r demo_resize_r "monitor" "pass" "r1" [] true true
    (1, demo_report FILLED (Fin 10 0))) (recon_db SUBMITTED FILL_RECONCILIATION_REQUIRED EmptyString [demo_fill_row])
    (λ n, 300 + Z.of_nat n)).1.2 !! 1 = Some "accepted") as Ha by (by vm_compute).
  destruct (with_rsession _ _ _) as [[r d'] c'] eqn:E. apply fmap_Some in Ha as (o' & Ho' & Ha).
  apply (@latch_release_needs_exact_truth demo_digest_r demo_resize_r "monitor" "pass" "r1" [] true true 1 (demo_report FILLED (Fin 10 0))
    _ _ r d' c' _ o' E); [done|done|done|]. unfold needs_exact. by rewrite <- Ha.
Defined.
