(* ===== verification/PanicProofs.v ===== *)
(** What a panic guarantees: the global breaker is tripped however the panic ends, and a
    report of safety is sound. *)

From S2P Require Import Prelude PyDecimal Assets BrokerModels Breakers RiskRules RiskEngine.
From S2P Require Import Database Lifecycle SessionLogic BreakerStore OrderRepository RepositoryLogic RepositoryProofs SafetyState.
From S2P Require Import RuleRepository RuleProofs PlanTruth PlanTruthProofs PlanLifecycle PlanLifecycleLogic PlanLifecycleProofs.
From S2P Require Import ReconcileSession FillImport StatusSync Reconciliation Panic ReconcileLogic ReconcileProofs.
From Stdlib Require Import Ascii Lia.
Local Open Scope Z_scope.

(** * A panic deletes no order and clears no breaker *)

(** The panic stores what the broker verified, whatever the state machine says. *)
Definition any_order (o o' : Order) : Prop := True.

#[export] Instance any_order_preorder : PreOrder any_order.
Proof. by split. Qed.

Abbreviation keeps_rows := (moves_by any_order).

#[export] Instance keeps_rows_admits : Admits keeps_rows.
Proof. by apply moves_by_admits. Qed.

Lemma keeps_rows_order d id o o' : db_orders d !! id = Some o → keeps_rows d (set_db_orders (<[id := o']> (db_orders d)) d).
Proof. intros Ho. by eapply moves_by_order; [apply _|exact Ho|]. Qed.

(** ** Transactions that commit or roll back *)

Definition settles_in (R : Db → Db → Prop) {A} (m : tx A) : Prop :=
  ∀ s d0, R d0 (durable s) → R d0 (working s) → R d0 (durable (m s).2) ∧ R d0 (working (m s).2).

Lemma si_moves (R : Db → Db → Prop) `{!PreOrder R} {A} (m : tx A) : moves R m → settles_in R m.
Proof. intros Hm s d0 Hd Hw. destruct (Hm s) as [-> Hw']. split; [done|by etrans]. Qed.
Lemma si_bind (R : Db → Db → Prop) {A B} (m : tx A) (f : A → tx B) : settles_in R m → (∀ a, settles_in R (f a)) → settles_in R (m ≫= f).
Proof.
  intros Hm Hf s d0 Hd Hw. destruct (Hm s d0 Hd Hw) as [Hd' Hw']. unfold mbind, tx_bind. destruct (m s) as [[a|e] s']; [|done].
  by apply Hf.
Qed.
Lemma si_session (R : Db → Db → Prop) `{!PreOrder R} {A} (m : tx A) d : settles_in R m → R d (with_session m d).2.
Proof. intros Hm. unfold with_session. destruct (Hm (mkSession d d) d) as [Hd _]; [done..|]. by destruct (m _). Qed.

(** A relation on orders that only reads their id. *)
Section ById.
Context (Q : Order → Order → Prop) `{!PreOrder Q} (HQ : ∀ o o', o_id o' = o_id o → Q o o').

#[local] Instance by_id_admits : Admits (moves_by Q).
Proof. exact (moves_by_admits Q (λ o o' He, HQ o o' (oe_id _ _ He))). Qed.

Lemma update_order_moves_by id pred f : (∀ o, o_id (f o) = o_id o) → settles_in (moves_by Q) (update_order id pred f).
Proof.
  intros Hf. apply si_moves; [apply _|]. intros s. unfold update_order, moves_at, mbind, tx_bind, read, write. cbn.
  destruct (db_orders (working s) !! id) as [o|] eqn:Ho; [|done]. destruct (pred _ o); [|done]. split; [done|]. cbn.
  eapply moves_by_order; [apply _|exact Ho|]. apply HQ, Hf.
Qed.

Lemma resolve_moves_by `{Digest} id bid status filled t a b c d : moves_by Q d (resolve_acceptance id bid status filled t a b c d).2.
Proof.
  unfold resolve_acceptance. destruct (require_context a b c) as [[[a' b'] c']|e]; [|done]. destruct (bool_decide _); [done|].
  apply si_session; [apply _|]. pose proof (λ A m, si_moves (moves_by Q) (A := A) m) as Hm.
  apply si_bind; [apply Hm, moves_read, _|intros d1]. apply si_bind; [apply Hm, moves_lift, _|intros q].
  destruct (requires_fill_reconciliation _ _ _) as [[x y] z].
  apply si_bind; [apply update_order_moves_by; intros o; by destruct (_ || _)|intros [o|]].
  - apply si_bind; [|intros _]. { destruct (_ || _); [|by apply Hm, moves_ret, _]. apply Hm, moves_bind; [apply _|by apply moves_trip_in_session, _|]. intros. apply moves_ret, _. }
    apply si_bind; [|intros _]. { apply Hm. unfold audit_order_mutation. intros s. split; [done|]. apply (ad_plans (R := moves_by Q)), (wi_moves nothing), within_audit. }
    by intros s d0.
  - by intros s d0.
Qed.
End ById.

(** ** The steps of a panic *)

Section Steps.
Context `{Digest} (resize_action : string → Decimal → option string) (actor reason request_id : string).

Lemma kt_cancel_all_rules : keeps_to keeps_rows (cancel_all_rules resize_action actor reason request_id).
Proof.
  pose proof (kt_commit_all resize_action actor reason request_id keeps_rows). unfold cancel_all_rules. keep.
  apply kt_session; [apply _|]. apply moves_bind; [apply _| |intros []]. { apply moves_write. intros d. apply ad_rules. }
  apply moves_bind; [apply _| |intros []]. { apply moves_write. intros d. apply ad_groups. }
  apply moves_bind; [apply _| |intros []]; (apply moves_iter; [apply _|]; intros id; apply moves_recon_audit, _).
Qed.

Lemma kt_persist_verified_order t remote faults id :
  keeps_to keeps_rows (persist_verified_order actor reason request_id t remote faults id).
Proof.
  intros s. apply ka_get_order; [apply _|]. intros o Ho.
  assert (∀ code l, keeps_to keeps_rows (latch_order_in_session id code ≫= λ _, mret (A := list string) l)) as Hl.
  { intros code l. pose proof (kt_latch keeps_rows id code). keep. }
  destruct (report_identity_error o remote); [apply Hl|].
  apply ka_bind; [by apply kt_query, _|]. intros fills s1 [-> E1]%query_Ok.
  apply ka_bind; [by apply kt_lift, _|]. intros l s2 [Hv ->]%on_lift_Ok.
  apply ka_bind; [by apply kt_overfill, _|]. intros [detail|] s3 H3; [apply kt_ret|]. apply overfill_None in H3 as ->.
  destruct (fill_quantity_relation _ _) as [[]|]; [apply Hl| | |apply Hl];
    (apply ka_bind; [|intros [] ? _; apply kt_ret]; apply ka_session; [apply _|]; split; [done|]; eapply keeps_rows_order; by rewrite E1).
Qed.

Lemma kt_persist_verified t ids remote : keeps_to keeps_rows (persist_verified_orders resize_action actor reason request_id t ids remote).
Proof.
  pose proof (kt_commit_all resize_action actor reason request_id keeps_rows). pose proof kt_persist_verified_order.
  unfold persist_verified_orders. keep.
Qed.

Context {W : Type} `{!ReconcileBroker W}.

#[local] Hint Resolve sv_latch_ids sv_latch_broker : reconcile.

Lemma sv_persist_verified ids remote : serves (W := W) keeps_rows (persist_verified_status resize_action actor reason request_id ids remote).
Proof. unfold persist_verified_status. serve. apply sv_in_session; [apply _|]. apply kt_persist_verified. Qed.
#[local] Hint Resolve sv_persist_verified : reconcile.

Lemma sv_list_open fault : serves (W := W) keeps_rows (list_open_orders resize_action actor reason request_id fault).
Proof. unfold list_open_orders. serve. Qed.

Lemma sv_check_quantity fault acc remote : serves (W := W) keeps_rows (check_panic_quantity resize_action actor reason request_id fault acc remote).
Proof. unfold check_panic_quantity. serve. Qed.

Lemma sv_cancel_and_verify rows acc b : serves (W := W) keeps_rows (cancel_and_verify resize_action actor reason request_id rows acc b).
Proof. unfold cancel_and_verify. serve. Qed.

#[local] Hint Resolve sv_list_open sv_check_quantity sv_cancel_and_verify sv_trip_faults : reconcile.

(** Everything after the global trip. *)
Lemma sv_panic_tail opens reads_fail u (s : SvcState W) s1 :
  on_store (λ t, breaker_trip scope_operator_global ("panic by " +:+ actor +:+ ": " +:+ reason) actor request_id t (Some reason)) s
    = (Ok u, s1) →
  keeps_rows (sv_db s1) (sv_db (panic_under_writer resize_action actor reason request_id opens reads_fail s).2).
Proof.
  intros Htrip. unfold panic_under_writer, mbind at 1, svc_bind at 1. rewrite Htrip.
  match goal with |- moves_by _ _ (sv_db (?m s1).2) => assert (serves keeps_rows m) as Hm; [|apply Hm] end.
  assert (serves (W := W) keeps_rows (reconcile_unknown resize_action actor reason request_id)) as Hu.
  { apply sv_reconcile_unknown; [apply _|]. intros k w remote w' _ id t a b c d. by apply resolve_moves_by. }
  assert (serves (W := W) keeps_rows (in_session (cancel_all_rules resize_action actor reason request_id))) as Hc.
  { apply sv_in_session; [apply _|]. apply kt_cancel_all_rules. }
  serve.
Qed.
End Steps.

Lemma keeps_tripped scope Q d d' : moves_by Q d d' → is_tripped scope d = true → is_tripped scope d' = true.
Proof.
  intros M. unfold is_tripped. destruct (db_breakers d !! scope_key scope) as [r|] eqn:Hr; [|done].
  destruct (mb_breakers _ _ _ M _ _ Hr) as (r' & -> & Ht & _). exact Ht.
Qed.

Lemma context_nonblank a b c a' b' c' : reconcile_context a b c = Ok (a', b', c') →
  negb (blank a') = true ∧ negb (blank b') = true ∧ negb (blank c') = true.
Proof.
  unfold reconcile_context. destruct (_ || _) eqn:E; [done|]. intros [= <- <- <-].
  apply orb_false_iff in E as [[Ea Eb]%orb_false_iff Ec]. unfold blank. by rewrite !strip_idemp, Ea, Eb, Ec.
Qed.

(** The first step of a panic cannot fail. *)
Lemma panic_trip {W} actor reason request_id (s : SvcState W) :
  negb (blank actor) = true → negb (blank reason) = true → negb (blank request_id) = true →
  ∃ u s1, on_store (λ t, breaker_trip scope_operator_global ("panic by " +:+ actor +:+ ": " +:+ reason) actor request_id t (Some reason)) s
    = (Ok u, s1) ∧ is_tripped scope_operator_global (sv_db s1) = true.
Proof.
  intros Ha Hr Hq. unfold on_store.
  destruct (breaker_trip scope_operator_global ("panic by " +:+ actor +:+ ": " +:+ reason) actor request_id (sv_clock s 0%nat) (Some reason) (sv_db s))
    as [[u|e] d'] eqn:E.
  - exists u, (mkSvc d' (sv_world s) (λ n, sv_clock s (S n))). split; [done|]. exact (breaker_trip_trips _ _ _ _ _ _ _ _ _ E).
  - exfalso. unfold breaker_trip, with_session, mbind, tx_bind in E. rewrite trip_in_session_ok in E; [done|].
    unfold trip_inputs_ok. change (negb (blank (String "p"%char ("anic by " +:+ actor +:+ ": " +:+ reason))) && negb (blank actor) && negb (blank request_id) && negb (blank reason) = true). rewrite blank_cons by done. by rewrite Ha, Hr, Hq.
Qed.

Lemma panic_latched `{Digest} resize_action {W : Type} `{!ReconcileBroker W} actor reason request_id opens reads_fail (s : SvcState W) :
  let '(r, s') := panic resize_action actor reason request_id opens reads_fail s in
  match reconcile_context actor reason request_id with
  | Raise e => r = Raise e ∧ s' = s
  | Ok _ => is_tripped scope_operator_global (sv_db s') = true ∧ moves_by any_order (sv_db s) (sv_db s')
  end.
Proof.
  unfold panic. destruct (reconcile_context actor reason request_id) as [[[a b] c]|e] eqn:Hc; [|done].
  apply context_nonblank in Hc as (Ha & Hb & Hq). destruct (panic_trip a b c s Ha Hb Hq) as (u & s1 & Htrip & Ht).
  pose proof (sv_panic_tail resize_action a b c opens reads_fail u s s1 Htrip) as Hm.
  destruct (panic_under_writer _ _ _ _ _ _ s) as [r s']. split; [by eapply keeps_tripped|]. etrans; [|exact Hm].
  pose proof (breaker_trip_admitted keeps_rows scope_operator_global ("panic by " +:+ a +:+ ": " +:+ b) a c (sv_clock s 0%nat) (Some b) (sv_db s)) as Hs.
  unfold on_store in Htrip. destruct (breaker_trip _ _ _ _ _ _ _) as [x d1]. injection Htrip as _ <-. exact Hs.
Qed.

(** * A report of safety is sound *)

(** The durable rows a panic must leave: nothing live, latched, unmatched or armed. *)
Record locally_safe (d : Db) : Prop := {
  ls_orders : ∀ id o, db_orders d !! id = Some o → order_is_live o = false ∧ order_is_latched o = false;
  ls_fills : Forall (λ f, fill_is_unsafe f = false) (db_fills d);
  ls_rules : ∀ id r, db_rules d !! id = Some r → rule_is_active r = false;
  ls_groups : ∀ id g, db_groups d !! id = Some g → group_is_unsafe g = false;
}.

Lemma no_unsafe_state opens reads_fail d : has_unsafe_state (enumerate_unsafe_local_state opens reads_fail d) = false → locally_safe d.
Proof.
  unfold has_unsafe_state, enumerate_unsafe_local_state. rewrite !orb_false_iff, !negb_empty. destruct opens; [|by intros (((((? & _) & _) & _) & _) & _)].
  change (unknown_categories (enumerate_unsafe_local_state_in_session reads_fail d)) with (filter (λ c, reads_fail c = true) LOCAL_SAFETY_CATEGORIES).
  rewrite reads_all_ok. intros (((((Hok & Hl) & Hla) & Hf) & Hr) & Hg). revert Hl Hla Hf Hr Hg.
  unfold enumerate_unsafe_local_state_in_session, query_ids.
  cbn [live_or_unknown_order_ids latched_order_ids unsafe_fill_ids active_rule_ids unsafe_rule_group_ids].
  rewrite !Hok by (unfold LOCAL_SAFETY_CATEGORIES; set_solver). rewrite !select_ids_nil, fill_ids_nil. intros Hl Hla Hf Hr Hg.
  split; auto. intros id o Ho. split; eauto.
Qed.

Section Safe.
Context `{Digest} (resize_action : string → Decimal → option string) {W : Type} `{!ReconcileBroker W}.

Lemma list_open_Some a b c fault (s : SvcState W) l faults s' :
  list_open_orders resize_action a b c fault s = (Ok (Some l, faults), s') →
  faults = [] ∧ sv_db s' = sv_db s ∧ rb_open_orders (sv_world s) = (Ok l, sv_world s').
Proof.
  unfold list_open_orders. intros (reply & s1 & Hc & Hk)%svc_bind_Ok. unfold call in Hc.
  destruct (rb_open_orders (sv_world s)) as [r w] eqn:E. injection Hc as <- <-.
  destruct r as [l0|[]]; try (by injection Hk; intros; simplify_eq); by apply svc_bind_Ok in Hk as (? & ? & _ & [=]).
Qed.

Lemma check_quantities_nil a b c fault l : ∀ acc (s s' : SvcState W),
  svc_foldl (check_panic_quantity resize_action a b c fault) acc l s = (Ok [], s') → s' = s ∧ acc = [].
Proof.
  induction l as [|r l IH]; intros acc s s'; [by intros [= -> ->]|]. cbn. intros (acc1 & s1 & H1 & H2)%svc_bind_Ok.
  destruct (IH _ _ _ H2) as [-> ->]. unfold check_panic_quantity in H1. destruct (valid_cumulative_filled_qty _); [by injection H1 as -> ->|].
  apply svc_bind_Ok in H1 as (x & sx & _ & [= Ha _]). by destruct acc.
Qed.

Lemma remote_open_ids_nil potentially l : remote_open_ids potentially l = [] → potentially = []
  ∧ ∀ r b, r ∈ l → r_broker_order_id r = Some b → r_status r ∉ REMOTE_OPEN_STATUSES.
Proof.
  unfold remote_open_ids, sorted_strings. intros Hn. assert (∀ b, b ∉ dedup (omap (λ r, if bool_decide (r_status r ∈ REMOTE_OPEN_STATUSES)
    then r_broker_order_id r else None) l ++ potentially)) as Hno.
  { intros b Hb. pose proof (merge_sort_Permutation String.le (dedup (omap (λ r, if bool_decide (r_status r ∈ REMOTE_OPEN_STATUSES)
      then r_broker_order_id r else None) l ++ potentially))) as Hp. rewrite Hn in Hp. rewrite <- Hp in Hb. by apply elem_of_nil in Hb. }
  split.
  - destruct potentially as [|b p]; [done|]. exfalso. apply (Hno b), elem_of_dedup, elem_of_app. right. left.
  - intros r b Hr Hb Hst. apply (Hno b), elem_of_dedup, elem_of_app. left. apply list_elem_of_omap. exists r.
    by rewrite bool_decide_true.
Qed.

(** What the panic asks the broker once the unknown acceptances are resolved. *)
Inductive asks (w : W) : W → Prop :=
| asks_open : asks w (rb_open_orders w).2
| asks_cancel b : asks w (rb_cancel_order b w).2
| asks_status b : asks w (rb_order_status b w).2.

(** Between two worlds the broker was asked to cancel [b] and then, asked about it, answered with
    an order that has a valid filled quantity and is not open. *)
Definition verified_closed (w w' : W) (b : string) : Prop :=
  ∃ w1 v w2, rtc asks w w1 ∧ rb_order_status b (snd (rb_cancel_order b w1)) = (Ok v, w2)
    ∧ valid_cumulative_filled_qty (r_filled_qty v) = true ∧ r_status v ∉ REMOTE_OPEN_STATUSES ∧ rtc asks w2 w'.

Lemma verified_later w w1 w' b : verified_closed w w1 b → rtc asks w1 w' → verified_closed w w' b.
Proof. intros (w2 & v & w3 & H1 & H2 & H3 & H4 & H5) Hl. exists w2, v, w3. repeat (split; [done|]). by etrans. Qed.

(** The broker is asked nothing else. *)
Definition only_asks {A} (m : svc W A) : Prop := ∀ s, rtc asks (sv_world s) (sv_world (m s).2).

Lemma oa_ret {A} (a : A) : only_asks (mret a).
Proof. intros s. apply rtc_refl. Qed.
Lemma oa_look {A} (f : Db → A) : only_asks (look f).
Proof. intros s. apply rtc_refl. Qed.
Lemma oa_session {A} (m : rtx A) : only_asks (in_session m).
Proof. intros s. unfold in_session. by destruct (with_rsession _ _ _) as [[? ?] ?]. Qed.
Lemma oa_call {A} (f : W → outcome A * W) : (∀ w, asks w (f w).2) → only_asks (call f).
Proof. intros Hf s. unfold call. specialize (Hf (sv_world s)). destruct (f _) as [r w]. by apply rtc_once. Qed.
Lemma oa_bind {A B} (m : svc W A) (f : A → svc W B) : only_asks m → (∀ a, only_asks (f a)) → only_asks (m ≫= f).
Proof. intros Hm Hf s. specialize (Hm s). unfold mbind, svc_bind. destruct (m s) as [[a|e] s1]; [|done]. etrans; [exact Hm|apply Hf]. Qed.
Lemma oa_foldl {A B} (f : A → B → svc W A) l : (∀ a b, only_asks (f a b)) → ∀ a, only_asks (svc_foldl f a l).
Proof. intros Hf. induction l as [|x l IH]; intros a; [apply oa_ret|]. by apply oa_bind. Qed.
Lemma oa_now : only_asks svc_now.
Proof. intros s. apply rtc_refl. Qed.

Lemma oa_latch_ids a b c ids code : only_asks (latch_order_ids resize_action a b c ids code).
Proof. unfold latch_order_ids. case_bool_decide; [apply oa_ret|apply oa_session]. Qed.
Lemma oa_latch_broker a b c bid code : only_asks (latch_broker_order_id resize_action a b c bid code).
Proof.
  unfold latch_broker_order_id. destruct bid as [bid|]; [|apply oa_ret]. destruct (negb _); [apply oa_ret|].
  apply oa_bind; [apply oa_look|intros]. apply oa_latch_ids.
Qed.

Ltac roam := repeat first
  [ apply oa_ret | apply oa_look | apply oa_session | apply oa_now | apply oa_latch_ids | apply oa_latch_broker
  | apply oa_call; intros; constructor | apply oa_bind; [|intros ?] | apply oa_foldl; intros | progress case_match ].

Lemma oa_check_quantity a b c fault acc r : only_asks (check_panic_quantity resize_action a b c fault acc r).
Proof. unfold check_panic_quantity. roam. Qed.

Lemma oa_list_open a b c fault : only_asks (list_open_orders resize_action a b c fault).
Proof. unfold list_open_orders. roam. Qed.

Lemma oa_persist a b c ids remote : only_asks (persist_verified_status resize_action a b c ids remote).
Proof. unfold persist_verified_status. roam. Qed.

Lemma oa_cancel a b c rows acc x : only_asks (cancel_and_verify resize_action a b c rows acc x).
Proof. unfold cancel_and_verify. pose proof oa_persist. roam; auto. Qed.

Lemma cancel_step a b c rows acc x (s s' : SvcState W) acc' :
  cancel_and_verify resize_action a b c rows acc x s = (Ok acc', s') → cx_terminal acc' = cx_terminal acc ∨
  (cx_terminal acc' = cx_terminal acc ++ [x] ∧ verified_closed (sv_world s) (sv_world s') x).
Proof.
  unfold cancel_and_verify. intros (r0 & s1 & H1 & (reply & s2 & Hc & Hk)%svc_bind_Ok)%svc_bind_Ok. unfold call in H1, Hc.
  destruct (rb_cancel_order x (sv_world s)) as [r1 w1] eqn:E1. injection H1 as _ <-. cbn [sv_world] in Hc.
  destruct (rb_order_status x w1) as [r w] eqn:E. injection Hc as <- <-.
  destruct r as [v|[]]; try (by injection Hk as <- _; left); try (by apply svc_bind_Ok in Hk as (? & ? & _ & [= <- _]); left).
  destruct (valid_cumulative_filled_qty (r_filled_qty v)) eqn:Hv; cbn [negb] in Hk; [|by apply svc_bind_Ok in Hk as (? & ? & _ & [= <- _]); left].
  destruct (decide (r_status v ∈ REMOTE_OPEN_STATUSES)); [rewrite bool_decide_true in Hk by done; by injection Hk as <- _; left|].
  rewrite bool_decide_false in Hk by done. apply svc_bind_Ok in Hk as (faults & s3 & Hp & [= <- <-]). right. split; [done|].
  exists (sv_world s), v, w. rewrite E1. split; [done|]. split; [done|]. split; [done|]. split; [done|].
  pose proof (oa_persist a b c (local_ids rows x) v (mkSvc (sv_db s) w (sv_clock s))) as Hoa. cbn [sv_db sv_clock] in Hp. by rewrite Hp in Hoa.
Qed.

(** Every id the loop calls closed was verified after the loop began. *)
Lemma cancel_loop_verified a b c rows w l : ∀ acc (s s' : SvcState W) acc', rtc asks w (sv_world s) →
  svc_foldl (cancel_and_verify resize_action a b c rows) acc l s = (Ok acc', s') →
  (∀ x, x ∈ cx_terminal acc → verified_closed w (sv_world s) x) → ∀ x, x ∈ cx_terminal acc' → verified_closed w (sv_world s') x.
Proof.
  induction l as [|y l IH]; intros acc s s' acc' Hw; [by intros [= <- <-]|]. cbn. intros (acc1 & s1 & H1 & H2)%svc_bind_Ok Hacc.
  pose proof (oa_cancel a b c rows acc y s) as Hstep. rewrite H1 in Hstep. cbn [snd] in Hstep.
  eapply IH; [by etrans|exact H2|]. intros x Hx. destruct (cancel_step _ _ _ _ _ _ _ _ _ H1) as [E|[E Hy]]; rewrite E in Hx.
  - by eapply verified_later; auto.
  - apply elem_of_app in Hx as [Hx| ->%list_elem_of_singleton]; [by eapply verified_later; auto|].
    destruct Hy as (w2 & v & w3 & ? & ?). exists w2, v, w3. split; [by etrans|done].
Qed.

Lemma elem_explicit rows l x : x ∈ explicit_ids rows l ↔ x ∈ map snd rows ∨ ∃ r, r ∈ l ∧ r_broker_order_id r = Some x.
Proof.
  unfold explicit_ids, sorted_strings. rewrite merge_sort_Permutation, elem_of_dedup, elem_of_app, list_elem_of_omap. done.
Qed.

Lemma live_row id o b d : db_orders d !! id = Some o → locally_live o = true → o_broker_order_id o = Some b → nonempty b = true →
  b ∈ map snd (live_broker_rows d).
Proof.
  intros Ho Hl Hb Hn. apply list_elem_of_fmap. exists (id, b). split; [done|]. unfold live_broker_rows.
  apply list_elem_of_filter. split; [done|]. apply list_elem_of_omap. exists id. split.
  - apply select_ids_elem. eauto.
  - by rewrite Ho; cbn; rewrite Hb.
Qed.
End Safe.

(** Claim C26.  However a panic ends, with a report, with the broker unreachable or with any
    exception, the operator-global breaker is tripped in the database it leaves; no order is
    deleted and no breaker is cleared on the way.  Without a complete context nothing happens. *)
Theorem panic_always_latches `{Digest} resize_action {W : Type} `{!ReconcileBroker W} actor reason request_id opens reads_fail (s : SvcState W) :
  let '(r, s') := panic resize_action actor reason request_id opens reads_fail s in
  match reconcile_context actor reason request_id with
  | Raise e => r = Raise e ∧ s' = s
  | Ok _ => is_tripped scope_operator_global (sv_db s') = true ∧ moves_by any_order (sv_db s) (sv_db s')
  end.
Proof. apply panic_latched. Qed.

(** The prefix of a panic: the trip, the rules and the unknown acceptances. *)
Lemma panic_prefix `{Digest} resize_action {W : Type} `{!ReconcileBroker W} a b c (s s1 s2 s3 : SvcState W) u1 u2 u3 :
  on_store (λ t, breaker_trip scope_operator_global ("panic by " +:+ a +:+ ": " +:+ b) a c t (Some b)) s = (Ok u1, s1) →
  in_session (cancel_all_rules resize_action a b c) s1 = (Ok u2, s2) →
  reconcile_unknown resize_action a b c s2 = (Ok u3, s3) → keeps_rows (sv_db s) (sv_db s3).
Proof.
  intros H1 H2 H3.
  assert (keeps_rows (sv_db s) (sv_db (on_store (λ t, breaker_trip scope_operator_global ("panic by " +:+ a +:+ ": " +:+ b) a c t (Some b)) s).2)) as M1
    by (apply sv_on_store; intros; apply breaker_trip_admitted, _). rewrite H1 in M1.
  pose proof (sv_in_session (W := W) keeps_rows _ (kt_cancel_all_rules resize_action a b c) s1) as M2. rewrite H2 in M2.
  assert (keeps_rows (sv_db s2) (sv_db (reconcile_unknown resize_action a b c s2).2)) as M3.
  { apply sv_reconcile_unknown; [apply _|]. intros k w remote w' _ id t x y z d. by apply resolve_moves_by. }
  rewrite H3 in M3. etrans; [exact M1|]. etrans; [exact M2|exact M3].
Qed.

(** The first three steps of a panic: the trip, the rules and the unknown acceptances. *)
Definition panic_prepared `{Digest} (resize_action : string → Decimal → option string) {W : Type} `{!ReconcileBroker W}
    (a b c : string) (s s3 : SvcState W) : Prop :=
  ∃ u1 s1 u2 s2 u3, on_store (λ t, breaker_trip scope_operator_global ("panic by " +:+ a +:+ ": " +:+ b) a c t (Some b)) s = (Ok u1, s1)
    ∧ in_session (cancel_all_rules resize_action a b c) s1 = (Ok u2, s2)
    ∧ reconcile_unknown resize_action a b c s2 = (Ok u3, s3).

(** Claim C17.  When a panic reports safety: the operator-global breaker is tripped; no stored
    order is live, of unknown acceptance or latched, no fill is unmatched and no rule or rule
    group is armed; the last thing the broker was asked, its list of open orders, named no
    open order and none without an id.  Every broker order that was live in the database the panic's
    own first steps left (the trip, the rules and the unknown acceptances; no row of the
    initial database is gone from it) was, after those steps and before that
    last listing, asked to be cancelled and then reported closed with a valid filled quantity. *)
Theorem panic_safe_sound `{Digest} resize_action {W : Type} `{!ReconcileBroker W} actor reason request_id opens reads_fail
    (s s' : SvcState W) report :
  panic resize_action actor reason request_id opens reads_fail s = (Ok report, s') → pn_safe report = true →
  is_tripped scope_operator_global (sv_db s') = true
  ∧ locally_safe (sv_db s')
  ∧ ∃ a b c s3 w listing, reconcile_context actor reason request_id = Ok (a, b, c)
      ∧ panic_prepared resize_action a b c s s3 ∧ moves_by any_order (sv_db s) (sv_db s3)
      ∧ (∀ id o x, db_orders (sv_db s3) !! id = Some o → locally_live o = true → o_broker_order_id o = Some x → nonempty x = true →
           verified_closed (sv_world s3) w x)
      ∧ rb_open_orders w = (Ok listing, sv_world s')
      ∧ ∀ r, r ∈ listing → is_Some (r_broker_order_id r) ∧ r_status r ∉ REMOTE_OPEN_STATUSES.
Proof.
  intros Hrun Hsafe. pose proof (panic_latched resize_action actor reason request_id opens reads_fail s) as Hlatch. rewrite Hrun in Hlatch.
  unfold panic in Hrun. destruct (reconcile_context actor reason request_id) as [[[a b] c]|e] eqn:Hc; [|done]. split; [apply Hlatch|]. clear Hlatch.
  unfold panic_under_writer in Hrun. apply svc_bind_Ok in Hrun as (u1 & s1 & H1 & Hrun). apply svc_bind_Ok in Hrun as (u2 & s2 & H2 & Hrun).
  apply svc_bind_Ok in Hrun as (u3 & s3 & H3 & Hrun). pose proof (panic_prefix _ _ _ _ _ _ _ _ _ _ _ H1 H2 H3) as Hpre.
  apply svc_bind_Ok in Hrun as (rows & s4 & [= <- <-] & Hrun). apply svc_bind_Ok in Hrun as (listing & s5 & H5 & Hrun).
  apply svc_bind_Ok in Hrun as (dr & s6 & H6 & Hrun). apply svc_bind_Ok in Hrun as (fa & s7 & [= <- <-] & Hrun).
  pose proof (oa_list_open resize_action a b c "panic open-order payload is invalid" s3) as W5. rewrite H5 in W5.
  assert (rtc asks (sv_world s3) (sv_world s6)) as W6.
  { etrans; [exact W5|]. pose proof (oa_foldl _ (default [] listing.1) (oa_check_quantity resize_action a b c "panic open-order") listing.2 s5) as W6. by rewrite H6 in W6. }
  apply svc_bind_Ok in Hrun as (st & s8 & H8 & Hrun). apply svc_bind_Ok in Hrun as ([final ff] & s9 & H9 & Hrun).
  apply svc_bind_Ok in Hrun as (drift & s10 & H10 & Hrun). apply svc_bind_Ok in Hrun as (faults & s11 & [= <- <-] & Hrun).
  apply svc_bind_Ok in Hrun as (local & s12 & [= <- <-] & Hrun). apply svc_bind_Ok in Hrun as (u4 & s13 & H13 & [= <- <-]).
  cbn [pn_safe fst snd] in *. apply andb_true_iff in Hsafe as [Hsafe Hids%bool_decide_eq_true_1]. apply andb_true_iff in Hsafe as [Hsafe Hlocal%negb_true_iff].
  apply andb_true_iff in Hsafe as [Hlisted Hadd%negb_true_iff]. destruct final as [l|]; [|by rewrite orb_true_r in Hlisted].
  rewrite !orb_false_iff, negb_empty in Hadd. destruct Hadd as ((_ & Hun) & Hdrift).
  apply negb_empty, app_eq_nil in Hdrift as [-> Hf]. rewrite Hf in H13. apply check_quantities_nil in H10 as [-> _].
  unfold trip_reconciliation_faults in H13. cbn in H13. injection H13 as _ <-.
  apply list_open_Some in H9 as (_ & _ & Hopen). apply remote_open_ids_nil in Hids as [Hpot Hclosed].
  split; [by eapply no_unsafe_state|]. exists a, b, c, s3, (sv_world s8), l. split; [done|]. split; [by exists u1, s1, u2, s2, u3|]. split; [done|].
  split; [|split; [done|]].
  - intros id o x Ho Hl Hx Hn.
    eapply (cancel_loop_verified resize_action); [exact W6|exact H8|by intros ? ?%elem_of_nil|].
    destruct (decide (x ∈ cx_terminal st)) as [|Hnt]; [done|]. exfalso. apply app_eq_nil in Hpot as [Hpot _].
    apply (not_elem_of_nil x). rewrite <- Hpot. apply list_elem_of_filter. split; [done|]. apply elem_explicit. left. by eapply live_row.
  - intros r Hr. assert (is_Some (r_broker_order_id r)) as [x Hx].
    { destruct (r_broker_order_id r) as [x|] eqn:Hx; [done|]. exfalso.
      apply not_true_iff_false in Hun. apply Hun, existsb_exists. exists r. split; [by apply list_elem_of_In|]. by rewrite Hx. }
    split; [by rewrite Hx|]. by eapply Hclosed.
Qed.

(** ** A panic that confirms safety *)

(** The broker reports the only live order canceled, and lists nothing open. *)
Abbreviation demo_panic :=
  (@panic demo_digest_r demo_resize_r () (fixed_broker [demo_report CANCELED (Fin 0 0)] None) "operator" "stop" "r9" true (λ _, false)
    (demo_svc (recon_db SUBMITTED "accepted" EmptyString []))).

Lemma panic_safe_sound_witness : locally_safe (sv_db demo_panic.2).
Proof.
  assert (match demo_panic.1 with Ok r => pn_safe r | Raise _ => false end = true) as Hs by (by vm_compute).
  destruct demo_panic as [[report|e] s'] eqn:E; [|done].
  exact (proj1 (proj2 (panic_safe_sound _ _ _ _ _ _ _ s' report E Hs))).
Defined.
