(* ===== verification/ReconcileAudit.v ===== *)
(** The audit trail of reconciliation: a flush queues every order whose lifecycle snapshot it
    changes, directly or through its fills, so each session commits with a current
    lifecycle proof of every order it changed. *)

From S2P Require Import Prelude PyDecimal Assets BrokerModels Breakers RiskRules RiskEngine.
From S2P Require Import Database Lifecycle SessionLogic BreakerStore OrderRepository RepositoryLogic RepositoryProofs SafetyState.
From S2P Require Import RuleRepository RuleProofs PlanTruth PlanTruthProofs PlanLifecycle PlanLifecycleLogic PlanLifecycleProofs.
From S2P Require Import ReconcileSession FillImport StatusSync Reconciliation Panic ReconcileLogic ReconcileProofs PanicProofs.
From Stdlib Require Import Lia.
Local Open Scope Z_scope.

(** * Rows a flush compares *)

#[export] Instance fill_eq_dec : EqDecision Fill.
Proof. solve_decision. Defined.

#[export] Instance audit_target_eq_dec : EqDecision audit_target.
Proof. solve_decision. Defined.

Lemma changed_nil {A} `{EqDecision A} name (x y : A) : changed name x y = [] → x = y.
Proof. unfold changed. by destruct (decide (x = y)). Qed.

Lemma order_changes_nil o o' : order_changes o o' = [] → o = o'.
Proof.
  unfold order_changes. intros Hn.
  repeat match goal with H : _ ++ _ = [] |- _ => apply app_eq_nil in H as [?%changed_nil ?] end.
  match goal with H : changed _ _ _ = [] |- _ => apply changed_nil in H end. destruct o, o'. cbn in *. by subst.
Qed.

Lemma fill_changes_nil f f' : fill_changes f f' = [] → f = f'.
Proof.
  unfold fill_changes. intros Hn.
  repeat match goal with H : _ ++ _ = [] |- _ => apply app_eq_nil in H as [?%changed_nil ?] end.
  match goal with H : changed _ _ _ = [] |- _ => apply changed_nil in H end. destruct f, f'. cbn in *. by subst.
Qed.

Lemma find_fill_Some id fills f : find_fill id fills = Some f → f ∈ fills ∧ fl_id f = id.
Proof.
  unfold find_fill. intros ([i x] & Hf & ->)%fmap_Some. apply list_find_Some in Hf as (Hi & Hx & _).
  split; [by eapply list_elem_of_lookup_2|done].
Qed.

Lemma find_fill_None id fills f : find_fill id fills = None → f ∈ fills → fl_id f ≠ id.
Proof.
  unfold find_fill. intros Hf%fmap_None Hin He. apply list_find_None in Hf. rewrite Forall_forall in Hf. by apply (Hf f).
Qed.

(** The fills of a table, by strictly increasing id. *)
Definition by_id (fills : list Fill) : Prop := StronglySorted Z.lt (map fl_id fills).

Lemma by_id_unique fills f g : by_id fills → f ∈ fills → g ∈ fills → fl_id f = fl_id g → f = g.
Proof.
  unfold by_id. induction fills as [|x fills IH]; intros Hs Hf Hg He; [by apply elem_of_nil in Hf|].
  cbn in Hs. apply StronglySorted_inv in Hs as [Hs Hx]. rewrite Forall_forall in Hx.
  apply elem_of_cons in Hf, Hg. destruct Hf as [->|Hf], Hg as [->|Hg]; try done.
  - assert (fl_id x < fl_id g) by (apply Hx, list_elem_of_fmap; eauto). lia.
  - assert (fl_id x < fl_id f) by (apply Hx, list_elem_of_fmap; eauto). lia.
  - by apply IH.
Qed.

Lemma by_id_filter (P : Fill → Prop) `{∀ f, Decision (P f)} fills : by_id fills → by_id (filter P fills).
Proof.
  unfold by_id. induction fills as [|x fills IH]; [done|]. intros Hs. cbn in Hs. apply StronglySorted_inv in Hs as [Hs Hx].
  rewrite filter_cons. destruct (decide (P x)); [|auto]. cbn. apply SSorted_cons; [auto|].
  rewrite Forall_forall in *. intros y (f & -> & Hf)%list_elem_of_fmap. apply Hx, list_elem_of_fmap. exists f. split; [done|].
  by apply list_elem_of_filter in Hf as [_ Hf].
Qed.

(** A row with a larger id goes to the end. *)
Lemma foldr_max_le l x : x ∈ l → x ≤ foldr Z.max 0 l.
Proof. induction l as [|y l IH]; [by intros ?%elem_of_nil|]. intros [->|Hx]%elem_of_cons; cbn; [lia|]. specialize (IH Hx). lia. Qed.

Lemma by_id_snoc d f : by_id (db_fills d) → fl_id f = next_fill_id d → by_id (db_fills d ++ [f]).
Proof.
  unfold by_id, next_fill_id. intros Hs Hf. rewrite map_app. cbn.
  assert (∀ x, x ∈ map fl_id (db_fills d) → x < fl_id f) as Hlt by (intros x Hx%foldr_max_le; lia). clear Hf.
  induction (map fl_id (db_fills d)) as [|x l IH]; cbn; [repeat constructor|].
  apply StronglySorted_inv in Hs as [Hs Hx]. constructor.
  - apply IH; [done|]. intros y Hy. apply Hlt. by right.
  - apply Forall_app. split; [done|]. constructor; [|constructor]. apply Hlt. left.
Qed.

(** Two tables in id order with the same rows are the same list. *)
Lemma by_id_ext l k : by_id l → by_id k → (∀ f, f ∈ l ↔ f ∈ k) → l = k.
Proof.
  unfold by_id. revert k. induction l as [|x l IH]; intros k Hl Hk Hiff.
  { destruct k as [|y k]; [done|]. exfalso. apply (not_elem_of_nil y), Hiff. left. }
  destruct k as [|y k]; [exfalso; apply (not_elem_of_nil x), Hiff; left|].
  cbn in Hl, Hk. apply StronglySorted_inv in Hl as [Hl Hx]. apply StronglySorted_inv in Hk as [Hk Hy].
  rewrite Forall_forall in Hx, Hy.
  assert (∀ f, f ∈ l → fl_id x < fl_id f) as Hxl by (intros f Hf; apply Hx, list_elem_of_fmap; eauto).
  assert (∀ f, f ∈ k → fl_id y < fl_id f) as Hyk by (intros f Hf; apply Hy, list_elem_of_fmap; eauto).
  assert (x = y) as ->.
  { destruct (Hiff x) as [H1 _]. destruct (Hiff y) as [_ H2]. specialize (H1 ltac:(left)). specialize (H2 ltac:(left)).
    apply elem_of_cons in H1, H2. destruct H1 as [|H1], H2 as [|H2]; [done..|].
    pose proof (Hxl _ H2). pose proof (Hyk _ H1). lia. }
  f_equal. apply IH; [done..|]. intros f. specialize (Hiff f). rewrite !elem_of_cons in Hiff. split; intros Hf.
  - destruct Hiff as [[->|?] _]; [by right| |done]. specialize (Hxl _ Hf). lia.
  - destruct Hiff as [_ [->|?]]; [by right| |done]. specialize (Hyk _ Hf). lia.
Qed.

(** * What a flush queues *)

Definition order_snap `{Digest} (d : Db) (id : Z) : option json := lifecycle_snapshot d "order" id.

(** Relative to [d0], the orders and proposals of [d] are the same rows and its fills in id order. *)
Record framed (d0 d : Db) : Prop := {
  fm_orders : rows_move any_order (db_orders d0) (db_orders d);
  fm_proposals : db_proposals d = db_proposals d0;
  fm_fills : by_id (db_fills d);
}.

Lemma elem_of_concat_map {A B} (f : A → list B) (l : list A) y : y ∈ concat (map f l) ↔ ∃ x, x ∈ l ∧ y ∈ f x.
Proof.
  induction l as [|x l IH]; cbn; [by split; [intros ?%elem_of_nil|intros (? & ?%elem_of_nil & _)]|].
  rewrite elem_of_app, IH. setoid_rewrite elem_of_cons. naive_solver.
Qed.

Lemma fill_parent_current old f id : 0 < id → fl_order_id f = Some id → id ∈ fill_parent_order_ids old f.
Proof. intros Hid Hf. unfold fill_parent_order_ids. apply list_elem_of_filter. split; [done|]. rewrite Hf. left. Qed.

Lemma fill_parent_previous g f id : 0 < id → fl_order_id g = Some id → id ∈ fill_parent_order_ids (Some g) f.
Proof.
  intros Hid Hg. unfold fill_parent_order_ids. apply list_elem_of_filter. split; [done|]. apply elem_of_app. right. cbn. rewrite Hg. left.
Qed.

(** A row present on both sides under one id, but different, is dirty. *)
Lemma dirty_elem old new f g : by_id (db_fills old) → f ∈ db_fills old → g ∈ db_fills new → fl_id g = fl_id f → f ≠ g →
  g ∈ dirty_fills old new ∧ find_fill (fl_id g) (db_fills old) = Some f.
Proof.
  intros Ho Hf Hg He Hne. assert (find_fill (fl_id g) (db_fills old) = Some f) as Hfind.
  { destruct (find_fill (fl_id g) (db_fills old)) as [x|] eqn:Hx; [|exfalso; by apply (find_fill_None _ _ f Hx Hf)].
    apply find_fill_Some in Hx as [Hx Hid]. f_equal. apply (by_id_unique (db_fills old)); [done..|congruence]. }
  split; [|done]. unfold dirty_fills. apply list_elem_of_filter. split; [|done]. rewrite Hfind. cbn.
  destruct (decide (fill_changes f g = [])) as [Hc|]; [|done]. by apply fill_changes_nil in Hc.
Qed.

Lemma flush_parents_fill old new id f : 0 < id → by_id (db_fills old) → by_id (db_fills new) → fl_order_id f = Some id →
  (f ∈ db_fills old ∧ f ∉ db_fills new) ∨ (f ∉ db_fills old ∧ f ∈ db_fills new) → id ∈ flush_parents old new.
Proof.
  intros Hid Ho Hn Hp Hcase. unfold flush_parents, deleted_fills. rewrite !elem_of_app, !elem_of_concat_map.
  destruct Hcase as [[H1 H2]|[H1 H2]].
  - destruct (find_fill (fl_id f) (db_fills new)) as [g|] eqn:Hg.
    + apply find_fill_Some in Hg as [Hg He]. destruct (dirty_elem old new f g) as [Hd Hfind]; [done..|by intros ->|].
      right. left. exists g. split; [done|]. rewrite Hfind. by apply fill_parent_previous.
    + right. right. exists f. split; [|by apply fill_parent_current]. by apply list_elem_of_filter.
  - destruct (find_fill (fl_id f) (db_fills old)) as [g|] eqn:Hg.
    + apply find_fill_Some in Hg as [Hg He]. destruct (dirty_elem old new g f) as [Hd Hfind]; [done..|by intros ->|].
      right. left. exists f. split; [done|]. by apply fill_parent_current.
    + left. exists f. split; [|by apply fill_parent_current]. by apply list_elem_of_filter.
Qed.

(** Every order whose snapshot differs is queued. *)
Lemma flush_covers `{Digest} d0 old new id : framed d0 old → framed d0 new → 0 < id → order_snap old id ≠ order_snap new id →
  id ∈ directly_audited (flush_pending old new) ∨ id ∈ flush_parents old new.
Proof.
  intros [Oo Po Fo] [On Pn Fn] Hid Hne. specialize (Oo id). specialize (On id).
  unfold order_snap, lifecycle_snapshot, order_lifecycle_snapshot in Hne. cbn in Hne.
  destruct (db_orders old !! id) as [o|] eqn:Ho, (db_orders new !! id) as [o'|] eqn:Ho';
    [|by destruct (db_orders d0 !! id)..|done].
  destruct (decide (order_changes o o' = [])) as [->%order_changes_nil|Hoo].
  - right. destruct (decide (filter (λ f, fl_order_id f = Some id) (db_fills old) = filter (λ f, fl_order_id f = Some id) (db_fills new))) as [He|Hfd].
    { exfalso. apply Hne. by rewrite He, Po, Pn. }
    destruct (decide (id ∈ flush_parents old new)) as [|Hno]; [done|]. exfalso. apply Hfd, by_id_ext; [by apply by_id_filter..|].
    intros f. rewrite !list_elem_of_filter. split; intros [Hp Hf]; (split; [done|]);
      match goal with |- ?G => destruct (decide G) as [|Hout]; [done|] end; destruct Hno; eapply flush_parents_fill; eauto.
  - left. unfold directly_audited. apply list_elem_of_omap. unfold flush_pending.
    exists (mkPending "order.reconcile" "order" (IdTarget id) (o_status o') (order_changes o o')). split; [|done].
    rewrite !elem_of_app. right. right. left. apply elem_of_concat_map. exists id. split; [by apply select_ids_elem; eauto|].
    rewrite Ho, Ho'. unfold pending_order. rewrite decide_False by done. left.
Qed.

(** * Storing the queue *)

Section Trail.
Context `{Digest}.

Definition attested (d : Db) (id : Z) : Prop := lifecycle_proof_matches d "order" id = true.

(** [d'] is [d] with audit rows that attest the orders [ids] and spoil no other proof. *)
Definition attests (ids : list Z) (d d' : Db) : Prop :=
  (∃ evs, d' = set_db_audit (db_audit d ++ evs) d)
  ∧ ∀ id, is_Some (order_snap d id) → id ∈ ids ∨ attested d id → attested d' id.

Lemma order_snap_audit d evs id : order_snap (set_db_audit evs d) id = order_snap d id.
Proof. by apply lifecycle_snapshot_ext. Qed.

Lemma attests_nil d : attests [] d d.
Proof. split; [exists []; rewrite app_nil_r; by destruct d|]. by intros id _ [?%elem_of_nil|?]. Qed.

Lemma attests_app ids ids' d1 d2 d3 : attests ids d1 d2 → attests ids' d2 d3 → attests (ids ++ ids') d1 d3.
Proof.
  intros [(e1 & ->) A1] [(e2 & ->) A2]. split.
  - exists (e1 ++ e2). cbn. by rewrite app_assoc.
  - intros id Hs Hid. apply A2; [by rewrite order_snap_audit|]. destruct Hid as [[Hid|Hid]%elem_of_app|Hid]; auto.
Qed.

(** A target an order's proof could be confused with is the order itself. *)
Definition target_wf (tt : string) (target : audit_target) : Prop := tt = "order" → ∃ id, target = IdTarget id.

Definition order_target (tt : string) (target : audit_target) : list Z :=
  if bool_decide (tt = "order") then match target with IdTarget id => [id] | KeyTarget _ => [] end else [].

Lemma audit_attests a b c action tt target code detail s : target_wf tt target →
  ∃ d', audit_reconciliation_mutation a b c action tt target code detail s = (Ok (), mkSession (durable s) d')
        ∧ attests (order_target tt target) (working s) d'.
Proof.
  intros Hwf. eexists. split; [done|]. split; [by eexists|]. cbn. intros id [snap Hs] Hid.
  destruct (decide (tt = "order" ∧ target = IdTarget id)) as [[-> ->]|Hother].
  - unfold attested. by eapply fresh_proof_matches.
  - destruct Hid as [Hid|Hid].
    { exfalso. unfold order_target in Hid. case_bool_decide; [|by apply elem_of_nil in Hid]. destruct target as [x|k]; [|by apply elem_of_nil in Hid].
      apply list_elem_of_singleton in Hid as ->. naive_solver. }
    unfold attested. erewrite proof_matches_other_event; [exact Hid|done|by apply lifecycle_snapshot_ext|]. cbn.
    destruct (decide (tt = "order")) as [->|]; [|by left]. right. destruct (Hwf eq_refl) as [x ->]. cbn. intros Hp. apply (inj pretty) in Hp. naive_solver.
Qed.

Lemma iter_attests {A} (f : A → tx ()) (ids : A → list Z) l :
  (∀ x s, x ∈ l → ∃ d', f x s = (Ok (), mkSession (durable s) d') ∧ attests (ids x) (working s) d') →
  ∀ s, ∃ d', tx_iter f l s = (Ok (), mkSession (durable s) d') ∧ attests (concat (map ids l)) (working s) d'.
Proof.
  induction l as [|x l IH]; intros Hf s.
  { exists (working s). split; [by destruct s|]. apply attests_nil. }
  destruct (Hf x s) as (d1 & E1 & A1); [left|]. destruct (IH (λ y s' Hy, Hf y s' (list_elem_of_further _ _ _ Hy)) (mkSession (durable s) d1)) as (d2 & E2 & A2).
  exists d2. split; [|by eapply attests_app]. cbn. unfold mbind, tx_bind. by rewrite E1.
Qed.

Definition pending_wf (p : PendingAudit) : Prop := target_wf (pa_target_type p) (pa_target p).

Lemma flush_pending_wf old new : Forall pending_wf (flush_pending old new).
Proof.
  unfold flush_pending. rewrite !Forall_app. split_and!; rewrite Forall_forall; intros p Hp.
  - apply list_elem_of_fmap in Hp as (f & -> & _). done.
  - apply list_elem_of_fmap in Hp as (k & -> & _). done.
  - apply elem_of_concat_map in Hp as (id & _ & Hp). destruct (db_orders old !! id) as [o|], (db_orders new !! id) as [o'|]; try (by apply elem_of_nil in Hp).
    unfold pending_order in Hp. destruct (decide _); [by apply elem_of_nil in Hp|]. apply list_elem_of_singleton in Hp as ->. intros _. by exists id.
  - apply list_elem_of_fmap in Hp as (f & -> & _). done.
  - apply list_elem_of_omap in Hp as ([k cu] & _ & Hp). cbn in Hp. by destruct (dirty_cursor _ _); simplify_eq/=.
  - apply list_elem_of_fmap in Hp as (f & -> & _). done.
Qed.

Lemma directly_audited_concat pending :
  directly_audited pending = concat (map (λ p, order_target (pa_target_type p) (pa_target p)) pending).
Proof.
  unfold directly_audited, order_target. induction pending as [|p l IH]; [done|]. cbn. rewrite <- IH.
  by case_bool_decide; [destruct (pa_target p)|].
Qed.

(** The queue stored: every queued order is attested. *)
Lemma persist_attests a b c s : Forall pending_wf (r_pending s) →
  ∃ d', persist_pending_reconciliation_audits a b c s = (Ok (), mkR (mkSession (dur s) d') (r_flushed s) [] [] (r_clock s))
    ∧ ∃ ids, attests ids (wrk s) d' ∧ ∀ id, id ∈ directly_audited (r_pending s) ∨ id ∈ r_parents s → id ∈ ids.
Proof.
  intros Hwf. rewrite Forall_forall in Hwf.
  destruct (iter_attests (audit_pending a b c) (λ p, order_target (pa_target_type p) (pa_target p)) (r_pending s)) with (s := r_session s)
    as (d1 & E1 & A1). { intros p s1 Hp. apply audit_attests, Hwf, Hp. }
  set (parents := sorted_ids (filter (λ id, id ∉ directly_audited (r_pending s)) (dedup (r_parents s)))).
  destruct (iter_attests (audit_parent a b c) (λ id, [id]) parents) with (s := mkSession (dur s) d1)
    as (d2 & E2 & A2). { intros id s1 _. apply (audit_attests a b c _ "order" (IdTarget id)). intros _. by exists id. }
  exists d2. split.
  - unfold persist_pending_reconciliation_audits, on_session, mbind, tx_bind. cbn. fold parents. rewrite E1. by rewrite E2.
  - eexists. split; [by eapply attests_app|]. intros id Hid. rewrite elem_of_app, <- directly_audited_concat.
    destruct (decide (id ∈ directly_audited (r_pending s))) as [|Hn]; [by left|]. right. destruct Hid as [|Hid]; [done|].
    apply elem_of_concat_map. exists id. split; [|left]. unfold parents. rewrite sorted_ids_elem, list_elem_of_filter. split; [done|].
    by apply elem_of_dedup.
Qed.
End Trail.

(** * Sessions that keep the trail *)

Create HintDb trail.

Section Triples.
Context `{Digest} (resize_action : string → Decimal → option string) (actor reason request_id : string).
Context (d0 : Db) (Hpos : ∀ id, is_Some (db_orders d0 !! id) → 0 < id).

(** Before its commit: nothing durable has changed, and what was flushed is queued. *)
Record open_at (s : RSession) : Prop := {
  oa_durable : dur s = d0;
  oa_flushed : framed d0 (r_flushed s);
  oa_working : framed d0 (wrk s);
  oa_wf : Forall pending_wf (r_pending s);
  oa_covered : ∀ id, 0 < id → order_snap d0 id ≠ order_snap (r_flushed s) id →
                 id ∈ directly_audited (r_pending s) ∨ id ∈ r_parents s;
}.

(** Every order that changed durably is attested. *)
Definition closed_at (s : RSession) : Prop := ∀ id, order_snap d0 id ≠ order_snap (dur s) id → attested (dur s) id.

Lemma open_closed s : open_at s → closed_at s.
Proof. intros [Hd _ _ _ _] id. by rewrite Hd. Qed.

(** From an open session, [m] leaves it open when [k] holds of its result and closed otherwise. *)
Definition audits_at {A} (k : A → bool) (m : rtx A) (s : RSession) : Prop :=
  open_at s → match m s with
              | (Ok a, s') => if k a then open_at s' else closed_at s'
              | (Raise _, s') => closed_at s'
              end.
Definition audits {A} (k : A → bool) (m : rtx A) : Prop := ∀ s, audits_at k m s.

Abbreviation mid := (audits (λ _, true)).
Abbreviation fin := (audits (λ _, false)).

Lemma au_ret {A} k (a : A) : audits k (mret a).
Proof. intros s Hs. cbn. destruct (k a); [done|by apply open_closed]. Qed.

Lemma au_bind {A B} k (m : rtx A) (f : A → rtx B) : mid m → (∀ a, audits k (f a)) → audits k (m ≫= f).
Proof.
  intros Hm Hf s Hs. specialize (Hm s Hs). unfold mbind, rtx_bind. destruct (m s) as [[a|e] s']; [|done]. by apply Hf.
Qed.

(** After the end of the session only a result is returned. *)
Lemma au_end {A B} (m : rtx A) (f : A → B) k : (∀ a, k (f a) = false) → fin m → audits k (m ≫= λ a, mret (f a)).
Proof.
  intros Hk Hm s Hs. specialize (Hm s Hs). unfold mbind, rtx_bind. destruct (m s) as [[a|e] s']; [|done]. cbn. by rewrite Hk.
Qed.

Lemma au_fin {A} k (m : rtx A) : audits k m → fin m.
Proof.
  intros Hm s Hs. specialize (Hm s Hs). destruct (m s) as [[a|e] s']; [|done]. destruct (k a); [by apply open_closed|done].
Qed.

Lemma mid_iter {A} (f : A → rtx ()) l : (∀ a, mid (f a)) → mid (rtx_iter f l).
Proof. intros Hf. induction l as [|x l IH]; [apply au_ret|]. apply au_bind; [apply Hf|intros _; apply IH]. Qed.
Lemma mid_foldl {A B} (f : A → B → rtx A) l : (∀ a b, mid (f a b)) → ∀ a, mid (rtx_foldl f a l).
Proof. intros Hf. induction l as [|x l IH]; intros a; [apply au_ret|]. apply au_bind; [apply Hf|apply IH]. Qed.

Lemma mid_now : mid now.
Proof. by intros s [? ? ? ? ?]. Qed.

Lemma mid_flush : mid flush.
Proof.
  intros s [Hd Hf Hw Hwf Hc]. cbn. split; cbn; [done..| |].
  - apply Forall_app. split; [done|apply flush_pending_wf].
  - intros id Hid Hne. unfold directly_audited. rewrite omap_app, !elem_of_app.
    destruct (decide (order_snap d0 id = order_snap (r_flushed s) id)) as [He|Hn].
    + rewrite He in Hne. destruct (flush_covers d0 _ _ id Hf Hw Hid Hne); auto.
    + destruct (Hc id Hid Hn); auto.
Qed.

(** Statements that keep the frame. *)
Definition keeps_frame (d d' : Db) : Prop := framed d0 d → framed d0 d'.

#[local] Instance keeps_frame_preorder : PreOrder keeps_frame.
Proof. split; [intros d Hd; exact Hd|]. intros x y z H1 H2 H3. apply H2, H1, H3. Qed.

Lemma mid_session {A} (m : tx A) : moves keeps_frame m → mid (on_session m).
Proof.
  intros Hm s [Hd Hf Hw Hwf Hc]. destruct (Hm (r_session s)) as [E1 E2]. unfold on_session. destruct (m (r_session s)) as [r s']. cbn in *.
  assert (open_at (mkR s' (r_flushed s) (r_pending s) (r_parents s) (r_clock s))) as Ho by (split; cbn; [congruence|done|by apply E2|done..]).
  destruct r; [exact Ho|by apply open_closed].
Qed.

Lemma mid_query {A} (f : Db → A) : mid (query f).
Proof. apply au_bind; [apply mid_flush|intros _]. apply au_bind; [apply mid_session, moves_read, _|]. intros d. apply au_ret. Qed.
Lemma mid_lift {A} (m : outcome A) : mid (on_session (lift m)).
Proof. apply mid_session, moves_lift, _. Qed.
Lemma mid_read : mid (on_session read).
Proof. apply mid_session, moves_read, _. Qed.
Lemma mid_get_order id : mid (on_session (get_order id)).
Proof. apply mid_session. intros s. unfold get_order, moves_at, mbind, tx_bind, read. cbn. by destruct (_ !! id). Qed.
Lemma mid_raise {A} e : mid (on_session (raise (A := A) e)).
Proof. apply mid_session, moves_raise, _. Qed.

Lemma frame_plan d d' : plan_moves d d' → keeps_frame d d'.
Proof.
  intros M [Ho Hp Hf]. split; [|by rewrite (pm_proposals _ _ M)|by rewrite (pm_fills _ _ M)].
  eapply rows_move_trans; [apply _|exact Ho|]. intros k. pose proof (pm_orders _ _ M k). by destruct (_ !! k), (_ !! k).
Qed.

Lemma frame_same d d' : db_orders d' = db_orders d → db_proposals d' = db_proposals d → db_fills d' = db_fills d → keeps_frame d d'.
Proof. intros E1 E2 E3 [Ho Hp Hf]. split; by rewrite ?E1, ?E2, ?E3. Qed.

Lemma frame_order d id o o' : db_orders d !! id = Some o → keeps_frame d (set_db_orders (<[id := o']> (db_orders d)) d).
Proof. intros Hid [Ho Hp Hf]. split; [|done..]. cbn. eapply rows_move_trans; [apply _|exact Ho|]. by eapply rows_move_insert; [apply _|..]. Qed.

(** The commit. *)
Lemma fin_commit_all : fin (commit_reconciliation_mutations resize_action actor reason request_id).
Proof.
  unfold commit_reconciliation_mutations. apply au_bind; [apply mid_now|intros t]. apply au_bind; [apply mid_flush|intros _].
  apply au_bind; [apply mid_now|intros clock]. apply au_bind; [|intros _].
  { apply mid_session. eapply moves_weaken; [apply frame_plan|]. apply moves_reconcile_in_session. }
  intros s Hs. unfold mbind at 1, rtx_bind at 1. pose proof (mid_flush s Hs) as Ho. unfold flush in *. cbn in Ho.
  match goal with |- context [(_ ≫= _) ?s'] => remember s' as s1 eqn:Es1 end. unfold mbind, rtx_bind.
  destruct (persist_attests actor reason request_id s1) as (d' & -> & ids & [[evs ->] Hat] & Hids); [by destruct Ho|].
  cbn. intros id Hne. cbn [r_session durable] in Hne |- *. rewrite order_snap_audit in Hne. destruct Ho as [Hd Hf Hw Hwf Hc].
  assert (is_Some (db_orders d0 !! id)) as Hin.
  { destruct (db_orders d0 !! id) eqn:E; [done|]. exfalso. apply Hne. pose proof (fm_orders _ _ Hw id) as Hm. rewrite E in Hm.
    unfold order_snap, lifecycle_snapshot, order_lifecycle_snapshot. cbn. rewrite E. by destruct (db_orders (wrk s1) !! id). }
  apply Hat.
  - pose proof (fm_orders _ _ Hw id) as Hm. destruct Hin as [o Hin]. rewrite Hin in Hm.
    unfold order_snap, lifecycle_snapshot, order_lifecycle_snapshot. cbn. by destruct (db_orders (wrk s1) !! id).
  - left. apply Hids, Hc; [by apply Hpos|]. by rewrite Es1 in Hne |- *.
Qed.

(** ** Orders read and written *)

Lemma aa_bind {A B} k (m : rtx A) (f : A → rtx B) s :
  mid m → (∀ a s', m s = (Ok a, s') → audits_at k (f a) s') → audits_at k (m ≫= f) s.
Proof.
  intros Hm Hf Hs. specialize (Hm s Hs). unfold mbind, rtx_bind. destruct (m s) as [[a|e] s']; [|done]. by apply Hf.
Qed.

Lemma aa_get {A} k id (f : Order → rtx A) s :
  (∀ o, db_orders (wrk s) !! id = Some o → audits_at k (f o) s) → audits_at k (on_session (get_order id) ≫= f) s.
Proof. intros Hf. apply aa_bind; [apply mid_get_order|]. intros o s' [Ho ->]%on_get_order_Ok. by apply Hf. Qed.

Lemma aa_now {A} k (f : time → rtx A) s :
  (∀ t s', r_session s' = r_session s → audits_at k (f t) s') → audits_at k (now ≫= f) s.
Proof. intros Hf. apply aa_bind; [apply mid_now|]. intros t s' [= <- <-]. by apply Hf. Qed.

Lemma aa_put {A} k id o o' (f : () → rtx A) s :
  db_orders (wrk s) !! id = Some o → audits k (f ()) → audits_at k (on_session (put_order id o') ≫= f) s.
Proof.
  intros Ho Hf Hs. unfold mbind, rtx_bind. cbn. apply Hf. destruct Hs as [Hd Hfl Hw Hwf Hc]. split; cbn; [done|done| |done..].
  by eapply frame_order.
Qed.

Lemma mid_latch id code : mid (latch_order_in_session id code).
Proof.
  intros s. apply aa_get. intros o Ho. destruct (needs_latch code o); [|by apply au_ret]. apply aa_now. intros t s' Es.
  eapply aa_put; [by rewrite Es|]. apply au_ret.
Qed.

Lemma mid_trip scope detail t : mid (on_session (trip_in_session scope detail actor request_id t (Some reason))).
Proof.
  apply mid_session, (moves_weaken plan_moves); [apply frame_plan|]. intros s.
  destruct (trip_inputs_ok detail actor request_id (Some reason)) eqn:Hin.
  - unfold moves_at. rewrite trip_in_session_ok by done. split; [done|]. apply (wi_moves nothing), within_trip.
  - destruct (trip_in_session_bad scope detail actor request_id t (Some reason) s Hin) as [m E]. unfold moves_at. by rewrite E.
Qed.

Lemma mid_overfill id total : mid (latch_quantity_overfill_in_session id total actor reason request_id).
Proof.
  unfold latch_quantity_overfill_in_session. apply au_bind; [apply mid_get_order|intros o].
  destruct (quantity_overfill_detail id o total); [|apply au_ret]. apply au_bind; [apply mid_latch|intros _].
  apply au_bind; [apply mid_now|intros t]. apply au_bind; [apply mid_flush|intros _]. apply au_bind; [apply mid_trip|intros _]. apply au_ret.
Qed.

Lemma mid_bump id : mid (bump_version id).
Proof.
  intros s. apply aa_get. intros o Ho Hs. pose proof (aa_put (λ _, true) id o (set_o_version (o_version o + 1) o) mret s Ho (au_ret _ ()) Hs) as Hp. exact Hp.
Qed.

Lemma mid_advance id target : mid (advance_status id target).
Proof.
  intros s. apply aa_get. intros o Ho. apply aa_bind; [apply mid_lift|]. intros cur s1 [_ ->]%on_lift_Ok.
  destruct (_ && _); [|by apply au_ret]. apply aa_now. intros t s2 Es. apply aa_bind; [apply mid_lift|]. intros o' s3 [_ ->]%on_lift_Ok.
  eapply aa_put; [by rewrite Es|]. apply au_ret.
Qed.

Lemma mid_require_exact id target : mid (require_exact_fills id target).
Proof.
  unfold require_exact_fills. apply au_bind; [apply mid_advance|]. intros b s. apply aa_get. intros o Ho.
  destruct (bool_decide _); [by apply au_ret|]. apply aa_now. intros t s' Es. eapply aa_put; [by rewrite Es|]. apply au_ret.
Qed.

(** ** Fills, cursors and groups *)

Lemma mid_fills f : (∀ d, by_id (db_fills d) → by_id (f d)) → mid (on_session (write (λ d, set_db_fills (f d) d))).
Proof. intros Hf. apply mid_session, moves_write. intros d [Ho Hp Hs]. split; [done..|]. by apply Hf. Qed.

Lemma mid_put_fill f' : mid (on_session (put_fill f')).
Proof.
  apply mid_fills. intros d Hs. unfold by_id. rewrite map_map. erewrite map_ext; [exact Hs|]. intros f. cbn. by destruct (decide _).
Qed.

Lemma mid_add_fill oid ticker side q p bid t : mid (on_session (add_fill_row oid ticker side q p bid t)).
Proof. apply mid_fills. intros d Hs. apply by_id_snoc; done. Qed.

Lemma mid_other f : (∀ d, db_orders (f d) = db_orders d ∧ db_proposals (f d) = db_proposals d ∧ db_fills (f d) = db_fills d) →
  mid (on_session (write f)).
Proof. intros Hf. apply mid_session, moves_write. intros d. destruct (Hf d) as (? & ? & ?). by apply frame_same. Qed.

#[local] Hint Resolve au_ret mid_now mid_flush mid_query mid_lift mid_read mid_get_order mid_raise mid_latch mid_overfill mid_bump mid_advance
  mid_require_exact mid_put_fill mid_add_fill fin_commit_all : trail.

Ltac trail := repeat (first [solve [eauto 2 with trail] | apply au_end; [done|solve [eauto 2 with trail]] | apply au_bind; [|intros ?]
  | apply mid_iter; intros ? | apply mid_foldl; intros ? ? | case_match ]).

Lemma fin_latch_orders ids code : fin (latch_orders resize_action ids code actor reason request_id).
Proof. unfold latch_orders. trail. Qed.

Lemma fin_quarantine : fin (quarantine_legacy_fills resize_action actor reason request_id).
Proof. unfold quarantine_legacy_fills, quarantine_fill. trail. Qed.

Lemma mid_import_activity observed acc a : mid (import_activity observed actor reason request_id acc a).
Proof.
  unfold import_activity, import_duplicate, import_new, supersede_matching_quarantined_fill, remove_synthetic_fills. trail;
    apply mid_fills; intros d; apply by_id_filter.
Qed.
#[local] Hint Resolve mid_import_activity : trail.

Lemma mid_cursors f : mid (on_session (write (λ d, set_db_cursors (f d) d))).
Proof. by apply mid_other. Qed.
#[local] Hint Resolve mid_cursors : trail.

Lemma fin_import_batch key after v observed batch : fin (import_batch resize_action key after v observed batch actor reason request_id).
Proof. unfold import_batch, advance_cursor. trail. Qed.

Lemma fin_fault_and_latch id code fault : fin (fault_and_latch resize_action actor reason request_id id code fault).
Proof. unfold fault_and_latch. trail. Qed.
Lemma fin_keep_latch id b faults : fin (keep_latch resize_action actor reason request_id id b faults).
Proof.
  unfold keep_latch. destruct b; [|by apply au_bind; [apply au_ret|intros; apply au_ret]]. apply au_end; [done|]. trail.
Qed.
#[local] Hint Resolve fin_fault_and_latch fin_keep_latch : trail.

(** The gate ends the session exactly when it returns a result. *)
Lemma audits_exact_gate id remote l rel blocked er sc lc :
  audits (λ r, bool_decide (r = None)) (exact_gate resize_action actor reason request_id id remote l rel blocked er sc lc).
Proof.
  unfold exact_gate. apply au_bind; [apply mid_get_order|intros o].
  repeat (match goal with |- audits _ (if ?b then _ else _) => destruct b end; [try (by apply au_end; eauto with trail)|]).
  - apply au_bind; [destruct lc; auto with trail|intros _]. by apply au_end; eauto with trail.
  - apply au_ret.
Qed.

Lemma fin_settle_order id target release : fin (settle_order resize_action actor reason request_id id target release).
Proof.
  intros s. unfold settle_order. apply aa_get. intros o Ho. eapply aa_put; [done|]. apply au_bind; [apply mid_advance|intros _].
  intros s1. apply aa_get. intros o1 Ho1. apply aa_now. intros t s2 Es. eapply aa_put; [by rewrite Es|]. apply fin_commit_all.
Qed.
#[local] Hint Resolve fin_settle_order : trail.

Lemma fin_compare_recorded id remote l er lc release : fin (compare_recorded resize_action actor reason request_id id remote l er lc release).
Proof. unfold compare_recorded, add_synthetic_fill. trail. Qed.
#[local] Hint Resolve fin_compare_recorded : trail.

(** After a gate the turn is over or goes on. *)
Lemma fin_gate {A} (m : rtx (option A)) (f : rtx A) : audits (λ r, bool_decide (r = None)) m → fin f →
  fin (stop ← m; match stop with Some r => mret r | None => f end).
Proof.
  intros Hm Hf s Hs. specialize (Hm s Hs). unfold mbind, rtx_bind. destruct (m s) as [[[r|]|e] s']; cbn in *; [done| |done]. by apply Hf.
Qed.

Lemma fin_sync_order blocked er sc report : fin (sync_order resize_action actor reason request_id blocked er sc report).
Proof.
  assert (∀ id remote l rel lc, rel ≠ BEHIND → fin (
    o ← on_session (get_order id);
    let required := bool_decide (o_acceptance_state o = FILL_RECONCILIATION_REQUIRED) in
    stop ← (if required then exact_gate resize_action actor reason request_id id remote l rel blocked er sc lc else mret None);
    match stop with Some r => mret r | None => compare_recorded resize_action actor reason request_id id remote l er lc required end)) as Hgo.
  { intros id remote l rel lc _. apply au_bind; [apply mid_get_order|intros o]. apply fin_gate; [|auto with trail].
    destruct (bool_decide _); [apply audits_exact_gate|apply au_ret]. }
  unfold sync_order. destruct report as [id remote]. apply au_bind; [apply mid_query|intros [o|]]; [|apply au_ret].
  destruct (report_identity_error o remote); [auto with trail|]. destruct (negb _); [auto with trail|].
  apply au_bind; [apply mid_lift|intros _]. apply au_bind; [apply mid_query|intros fills]. apply au_bind; [apply mid_lift|intros l].
  apply au_bind; [apply mid_overfill|intros [detail|]]; [by apply au_end; auto with trail|].
  destruct (fill_quantity_relation _ _) as [[]|]; [auto with trail| | |auto with trail];
    (apply au_bind; [destruct (_ || _); auto with trail|intros lc]; by apply Hgo).
Qed.

Lemma mid_persist_order t remote faults id : mid (persist_verified_order actor reason request_id t remote faults id).
Proof.
  intros s. apply aa_get. intros o Ho. destruct (report_identity_error o remote); [by apply au_bind; auto with trail|].
  apply aa_bind; [apply mid_query|]. intros fills s1 [-> E1]%query_Ok. apply aa_bind; [apply mid_lift|]. intros l s2 [_ ->]%on_lift_Ok.
  apply aa_bind; [apply mid_overfill|]. intros [detail|] s3 H3; [by apply au_ret|]. apply overfill_None in H3 as ->.
  destruct (fill_quantity_relation _ _) as [[]|]; [by apply au_bind; auto with trail| | |by apply au_bind; auto with trail];
    (eapply aa_put; [by rewrite E1|]; apply au_ret).
Qed.
#[local] Hint Resolve mid_persist_order : trail.

Lemma fin_persist_verified t ids remote : fin (persist_verified_orders resize_action actor reason request_id t ids remote).
Proof. unfold persist_verified_orders. trail. Qed.

Lemma mid_tx_audit action tt target code detail : mid (on_session (audit_reconciliation_mutation actor reason request_id action tt target code detail)).
Proof. apply mid_session. intros s. split; [done|]. by apply frame_same. Qed.

Lemma mid_clear_group id : mid (clear_group actor reason request_id id).
Proof.
  unfold clear_group. trail. apply mid_session, moves_bind; [apply _|..]; [|intros []; intros s; split; [done|by apply frame_same]].
  apply moves_write. intros d. by apply frame_same.
Qed.
#[local] Hint Resolve mid_clear_group : trail.

Lemma fin_clear_groups : fin (ids ← query (λ d, select_ids g_reconciliation_required (db_groups d));
  rtx_iter (clear_group actor reason request_id) ids ≫= λ _, commit_reconciliation_mutations resize_action actor reason request_id).
Proof. trail. Qed.

Lemma fin_cancel_all_rules : fin (cancel_all_rules resize_action actor reason request_id).
Proof.
  unfold cancel_all_rules. do 3 (apply au_bind; [auto with trail|intros ?]). apply au_bind; [|intros _; auto with trail]. apply mid_session.
  apply moves_bind; [apply _| |intros []]. { apply moves_write. intros d. by apply frame_same. }
  apply moves_bind; [apply _| |intros []]. { apply moves_write. intros d. by apply frame_same. }
  apply moves_bind; [apply _| |intros []]; (apply moves_iter; [apply _|]; intros id s; split; [done|by apply frame_same]).
Qed.
End Triples.

(** * The theorem *)

(** The sessions of the service. *)
Inductive recon_job : Type :=
| JLatch (order_ids : list Z) (error_code : string)
| JQuarantine
| JImport (broker_key : string) (after : option time) (expected_version : option Z) (observed_at : time) (batch : list BrokerFill)
| JSync (blocked : list Z) (exact_reader stream_complete : bool) (report : Z * OrderResult)
| JClearGroups
| JCancelRules
| JVerified (t : time) (local_order_ids : list Z) (remote : OrderResult).

Definition run_job `{Digest} (resize_action : string → Decimal → option string) (actor reason request_id : string) (job : recon_job) : rtx () :=
  match job with
  | JLatch ids code => latch_orders resize_action ids code actor reason request_id ≫= λ _, mret ()
  | JQuarantine => quarantine_legacy_fills resize_action actor reason request_id
  | JImport key after v t batch => import_batch resize_action key after v t batch actor reason request_id ≫= λ _, mret ()
  | JSync blocked er sc report => sync_order resize_action actor reason request_id blocked er sc report ≫= λ _, mret ()
  | JClearGroups =>
      ids ← query (λ d, select_ids g_reconciliation_required (db_groups d));
      rtx_iter (clear_group actor reason request_id) ids ≫= λ _,
      commit_reconciliation_mutations resize_action actor reason request_id
  | JCancelRules => cancel_all_rules resize_action actor reason request_id
  | JVerified t ids remote => persist_verified_orders resize_action actor reason request_id t ids remote ≫= λ _, mret ()
  end.

(** Claim C25.  Every session of the reconciliation service, whether it returns or raises, leaves a
    current lifecycle proof of every order whose lifecycle snapshot it changed, be it through
    the order row or through a fill inserted, deleted, changed or moved: the listener that
    compares rows at each flush misses none.  Order ids are positive and the fill table is in
    id order. *)
Theorem reconciliation_keeps_proofs_current `{Digest} resize_action actor reason request_id job d c id :
  (∀ k, is_Some (db_orders d !! k) → 0 < k) → by_id (db_fills d) →
  let d' := (with_rsession (run_job resize_action actor reason request_id job) d c).1.2 in
  lifecycle_snapshot d' "order" id ≠ lifecycle_snapshot d "order" id → lifecycle_proof_matches d' "order" id = true.
Proof.
  intros Hpos Hby d'. unfold d', with_rsession. clear d'.
  assert (open_at d (mkR (mkSession d d) d [] [] c)) as Ho.
  { split; cbn; [done|..]; [| |done|by intros k _ []]; (split; [apply rows_move_refl, _|done|done]). }
  assert (audits d (λ _, false) (run_job resize_action actor reason request_id job)) as Hf.
  { destruct job; cbn [run_job].
    - apply au_end; [done|]. by apply fin_latch_orders.
    - by apply fin_quarantine.
    - apply au_end; [done|]. by apply fin_import_batch.
    - apply au_end; [done|]. by apply fin_sync_order.
    - by apply fin_clear_groups.
    - by apply fin_cancel_all_rules.
    - apply au_end; [done|]. by apply fin_persist_verified. }
  specialize (Hf _ Ho). destruct (run_job _ _ _ _ _ _) as [[u|e] s']; intros Hne; by apply Hf, not_eq_sym.
Qed.

(** A pass that imports the fill of an order attests the order. *)
Lemma reconciliation_keeps_proofs_current_witness :
  let d := recon_db SUBMITTED "accepted" EmptyString [] in
  let d' := (with_rsession (@run_job demo_digest_r demo_resize_r "monitor" "pass" "r1"
    (JImport "demo" None None 300 [demo_activity 10])) d (λ n, 300 + Z.of_nat n)).1.2 in
  @lifecycle_proof_matches demo_digest_r d' "order" 1 = true.
Proof.
  apply (@reconciliation_keeps_proofs_current demo_digest_r demo_resize_r "monitor" "pass" "r1" (JImport "demo" None None 300 [demo_activity 10])
    (recon_db SUBMITTED "accepted" EmptyString []) (λ n, 300 + Z.of_nat n) 1).
  - intros k [o Ho]. cbn in Ho. apply lookup_singleton_Some in Ho as [<- _]. done.
  - constructor.
  - intros He. assert (bool_decide (@lifecycle_snapshot demo_digest_r (with_rsession (@run_job demo_digest_r demo_resize_r "monitor" "pass" "r1"
      (JImport "demo" None None 300 [demo_activity 10])) (recon_db SUBMITTED "accepted" EmptyString []) (λ n, 300 + Z.of_nat n)).1.2 "order" 1
      = @lifecycle_snapshot demo_digest_r (recon_db SUBMITTED "accepted" EmptyString []) "order" 1) = false) as Hb by (by vm_compute).
    exact (bool_decide_eq_false_1 _ Hb He).
Defined.
