(* ===== verification/ImportProofs.v ===== *)
(** The fill import: a batch advances the cursor only when every activity of it is recorded,
    no broker fill id is recorded twice, and a failed import changes nothing. *)

From S2P Require Import Prelude PyDecimal Assets BrokerModels Breakers RiskRules RiskEngine.
From S2P Require Import Database Lifecycle SessionLogic BreakerStore OrderRepository RepositoryLogic RepositoryProofs SafetyState.
From S2P Require Import RuleRepository RuleProofs PlanTruth PlanTruthProofs PlanLifecycle PlanLifecycleLogic PlanLifecycleProofs.
From S2P Require Import ReconcileSession FillImport StatusSync Reconciliation ReconcileLogic ReconcileProofs PanicProofs ReconcileAudit.
From Stdlib Require Import Lia.
Local Open Scope Z_scope.

(** * Recorded activities *)

Lemma dcmp_refl x : dcmp x x = Eq.
Proof. destruct x as [c e|b|]; cbn; [apply Z.compare_refl|by destruct b|done]. Qed.

Lemma deq_refl x : is_nan x = false → deq x x = true.
Proof. intros Hn. unfold deq. by rewrite Hn, dcmp_refl. Qed.

Lemma normalize_economic_deq v q : normalize_fill_economic v = Some q → deq q q = true.
Proof.
  unfold normalize_fill_economic, normalize_at_quantum. destruct (_ || _); [done|]. destruct (quantize v _) as [n|]; [|done].
  destruct (deq n v) eqn:E; [|done]. intros [= <-]. apply deq_refl. by apply deq_true in E as (? & _ & _).
Qed.

(** [f] is the trusted row of the activity [a] of order [id]. *)
Record row_of (id : Z) (a : BrokerFill) (f : Fill) : Prop := {
  ro_order : fl_order_id f = Some id;
  ro_fill_id : fl_broker_fill_id f = Some (bf_broker_fill_id a);
  ro_trusted : fill_has_trusted_identity f = true;
  ro_side : fl_side f = bf_side a;
  ro_qty : ∃ q, normalize_fill_economic (bf_qty a) = Some q ∧ deq (fl_qty f) q = true;
  ro_price : ∃ p, normalize_fill_economic (bf_price a) = Some p ∧ deq (fl_price f) p = true;
  ro_time : fl_filled_at f = bf_filled_at a;
}.

(** The order an activity belongs to is the one stored order with its broker id. *)
Definition recorded (d0 : Db) (fills : list Fill) (a : BrokerFill) : Prop :=
  ∃ id f, order_ids_where (has_broker_id (bf_broker_order_id a)) d0 = [id] ∧ f ∈ fills ∧ row_of id a f.

Definition fill_ids (fills : list Fill) : list string := omap fl_broker_fill_id fills.

(** An activity id that does not look synthesised from its order's broker id. *)
Definition exact_id (a : BrokerFill) : Prop := sql_like ((bf_broker_order_id a +:+ ":") +:+ "%") (bf_broker_fill_id a) = false.

(** ** Replacing an untrusted row *)

Definition replace_fill (f' : Fill) (fills : list Fill) : list Fill := map (λ f, if decide (fl_id f = fl_id f') then f' else f) fills.

Lemma replace_fill_ids g f' fills : by_id fills → g ∈ fills → fl_id f' = fl_id g → fl_broker_fill_id f' = fl_broker_fill_id g →
  fill_ids (replace_fill f' fills) = fill_ids fills.
Proof.
  intros Hs Hg Hid Hb. unfold fill_ids, replace_fill.
  assert (∀ f, f ∈ fills → fl_broker_fill_id (if decide (fl_id f = fl_id f') then f' else f) = fl_broker_fill_id f) as Hall.
  { intros f Hf. destruct (decide _) as [He|]; [|done]. rewrite Hb. f_equal. apply (by_id_unique fills); [done..|congruence]. }
  clear Hg Hs. induction fills as [|f fills IH]; [done|]. cbn. rewrite (Hall f) by (by left). rewrite IH; [done|].
  intros x Hx. apply Hall. by right.
Qed.

Lemma replace_fill_by_id f' fills : by_id fills → by_id (replace_fill f' fills).
Proof.
  intros Hs. unfold by_id, replace_fill. rewrite map_map. erewrite map_ext; [exact Hs|]. intros f. cbn. by destruct (decide _).
Qed.

Lemma replace_fill_recorded d0 g f' fills a : by_id fills → g ∈ fills → fl_id f' = fl_id g → fill_has_trusted_identity g = false →
  recorded d0 fills a → recorded d0 (replace_fill f' fills) a.
Proof.
  intros Hs Hg Hid Hun (id & f & Ho & Hf & Hr). exists id, f. split; [done|]. split; [|done].
  apply list_elem_of_fmap. exists f. split; [|done]. destruct (decide _) as [He|]; [|done].
  assert (f = g) as -> by (apply (by_id_unique fills); [done..|congruence]). by rewrite (ro_trusted _ _ _ Hr) in Hun.
Qed.

Lemma replace_fill_elem f' g fills : g ∈ fills → fl_id f' = fl_id g → f' ∈ replace_fill f' fills.
Proof. intros Hg Hid. apply list_elem_of_fmap. exists g. split; [|done]. by rewrite decide_True. Qed.

(** ** Removing synthetic rows *)

Lemma fill_ids_filter (P : Fill → Prop) `{∀ f, Decision (P f)} fills x : x ∈ fill_ids (filter P fills) → x ∈ fill_ids fills.
Proof.
  unfold fill_ids. rewrite !list_elem_of_omap. intros (f & [_ Hf]%list_elem_of_filter & Hx). eauto.
Qed.

Lemma fill_ids_filter_NoDup (P : Fill → Prop) `{∀ f, Decision (P f)} fills : NoDup (fill_ids fills) → NoDup (fill_ids (filter P fills)).
Proof.
  induction fills as [|f fills IH]; [done|]. rewrite filter_cons. unfold fill_ids in *. cbn [omap list_omap]. destruct (decide (P f)).
  - cbn [omap list_omap]. destruct (fl_broker_fill_id f); [|auto]. intros [Hn Hd]%NoDup_cons. apply NoDup_cons. split; [|auto].
    intros Hin. by apply Hn, (fill_ids_filter P).
  - destruct (fl_broker_fill_id f); [|auto]. intros [_ Hd]%NoDup_cons. auto.
Qed.

(** * Triples over the working copy *)

Section Activities.
Context `{Digest} (resize_action : string → Decimal → option string) (actor reason request_id : string) (d0 : Db).

(** [P] before, [Q] of the result after; the durable copy stays, also when [m] raises. *)
Definition triple {A} (P : Db → Prop) (m : rtx A) (Q : A → Db → Prop) : Prop :=
  ∀ s, dur s = d0 → P (wrk s) → match m s with
                                | (Ok a, s') => dur s' = d0 ∧ Q a (wrk s')
                                | (Raise _, s') => dur s' = d0
                                end.

Lemma tr_ret {A} (P : Db → Prop) (Q : A → Db → Prop) a : (∀ d, P d → Q a d) → triple P (mret a) Q.
Proof. intros HQ s Hd HP. split; [done|auto]. Qed.

Lemma tr_bind {A B} P (m : rtx A) (f : A → rtx B) Q Q' : triple P m Q' → (∀ a, triple (Q' a) (f a) Q) → triple P (m ≫= f) Q.
Proof.
  intros Hm Hf s Hd HP. specialize (Hm s Hd HP). unfold mbind, rtx_bind. destruct (m s) as [[a|e] s']; [|done].
  destruct Hm as [Hd' HQ]. by apply Hf.
Qed.

Lemma tr_conseq {A} (P P' : Db → Prop) (m : rtx A) (Q Q' : A → Db → Prop) :
  triple P' m Q' → (∀ d, P d → P' d) → (∀ a d, Q' a d → Q a d) → triple P m Q.
Proof.
  intros Hm HP HQ s Hd Hs. specialize (Hm s Hd (HP _ Hs)). destruct (m s) as [[a|e] s']; [|done]. destruct Hm. auto.
Qed.

Lemma tr_pure {A} (P : Db → Prop) (φ : Prop) (m : rtx A) Q : (φ → triple P m Q) → triple (λ d, P d ∧ φ) m Q.
Proof. intros Hm s Hd [HP Hφ]. by apply Hm. Qed.

Lemma tr_query {A} (P : Db → Prop) (f : Db → A) : triple P (query f) (λ a d, P d ∧ a = f d).
Proof. by intros s Hd HP. Qed.
Lemma tr_lift {A} (P : Db → Prop) (m : outcome A) : triple P (on_session (lift m)) (λ a d, P d ∧ m = Ok a).
Proof. intros s Hd HP. unfold on_session, lift. by destruct m. Qed.
Lemma tr_write (P : Db → Prop) f (Q : Db → Prop) : (∀ d, P d → Q (f d)) → triple P (on_session (write f)) (λ _, Q).
Proof. intros HQ s Hd HP. split; [done|]. by apply HQ. Qed.
Lemma tr_get P id : triple P (on_session (get_order id)) (λ o d, P d ∧ db_orders d !! id = Some o).
Proof.
  intros s Hd HP. unfold on_session, get_order, mbind, tx_bind, read. cbn. destruct (db_orders (wrk s) !! id) eqn:E; by cbn.
Qed.

(** ** What an import may do to the rest of the database *)

Definition same_broker (o o' : Order) : Prop := o_broker_order_id o' = o_broker_order_id o.
#[local] Instance same_broker_preorder : PreOrder same_broker.
Proof. split; [by intros o|]. unfold same_broker. intros x y z. congruence. Qed.

(** An assertion on the fills, with the broker ids and cursors of the start. *)
Record base (F : list Fill → Prop) (d : Db) : Prop := {
  ba_orders : rows_move same_broker (db_orders d0) (db_orders d);
  ba_cursors : db_cursors d = db_cursors d0;
  ba_by_id : by_id (db_fills d);
  ba_fills : F (db_fills d);
}.

Lemma base_weaken (F G : list Fill → Prop) d : (∀ l, by_id l → F l → G l) → base F d → base G d.
Proof. intros HG [? ? ? ?]. split; auto. Qed.

Lemma base_lookup F b d : base F d → order_ids_where (has_broker_id b) d = order_ids_where (has_broker_id b) d0.
Proof.
  intros [Ho _ _ _]. unfold order_ids_where. eapply select_ids_move; [exact Ho|]. unfold same_broker, has_broker_id. intros x y ->. done.
Qed.

Lemma base_broker F id o d : base F d → db_orders d !! id = Some o → ∃ o0, db_orders d0 !! id = Some o0 ∧ o_broker_order_id o = o_broker_order_id o0.
Proof.
  intros [Ho _ _ _] Hid. specialize (Ho id). rewrite Hid in Ho. destruct (db_orders d0 !! id) as [o0|]; [|done]. eauto.
Qed.

Lemma tr_latch F id code : triple (base F) (latch_order_in_session id code) (λ _, base F).
Proof.
  intros s Hd HP. unfold latch_order_in_session, mbind, rtx_bind. pose proof (tr_get (base F) id s Hd HP) as Hg.
  destruct (on_session (get_order id) s) as [[o|e] s1]; [|done]. destruct Hg as (Hd1 & HP1 & Ho).
  destruct (needs_latch code o); [|done]. cbn. split; [done|]. destruct HP1 as [Hr ? ? ?]. split; [|done..]. cbn.
  eapply rows_move_trans; [apply _|exact Hr|]. by eapply rows_move_insert; [apply _|exact Ho|].
Qed.

Lemma tr_overfill F id total : triple (base F) (latch_quantity_overfill_in_session id total actor reason request_id) (λ _, base F).
Proof.
  unfold latch_quantity_overfill_in_session. eapply tr_bind; [apply tr_get|]. intros o. cbn.
  destruct (quantity_overfill_detail id o total) as [detail|]; [|apply tr_ret; intros d [Hb _]; exact Hb].
  eapply tr_conseq; [|intros d [Hb _]; exact Hb|intros ? ? Hq; exact Hq]. eapply tr_bind; [apply tr_latch|intros b].
  intros s Hd HP. unfold now, flush, on_session, mbind, rtx_bind. cbn.
  match goal with |- context [trip_in_session ?sc ?de ?ac ?rq ?t ?ar ?s1] => destruct (trip_inputs_ok de ac rq ar) eqn:Hin;
    [rewrite (trip_in_session_ok sc de ac rq t ar s1 Hin)|destruct (trip_in_session_bad sc de ac rq t ar s1 Hin) as [msg ->]] end; [|done].
  cbn. split; [done|]. destruct HP as [? ? ? ?]. by split.
Qed.

(** ** One activity *)

(** The ledger while a batch is imported: ids are unique and, as long as nothing was refused, the
    activities done are recorded. *)
Definition ledger (advance : bool) (done_ : list BrokerFill) (fills : list Fill) : Prop :=
  NoDup (fill_ids fills) ∧ (advance = true → ∀ x, x ∈ done_ → recorded d0 fills x).

(** What passed the checks. *)
Record checked (a a' : BrokerFill) (o : Order) : Prop := {
  ck_fill_id : bf_broker_fill_id a' = bf_broker_fill_id a;
  ck_side : bf_side a' = bf_side a;
  ck_time : bf_filled_at a' = bf_filled_at a;
  ck_qty : normalize_fill_economic (bf_qty a) = Some (bf_qty a');
  ck_price : normalize_fill_economic (bf_price a) = Some (bf_price a');
  ck_id : blank (bf_broker_fill_id a) = false;
}.

Lemma validated_checked a o t a' : validated_activity a o t = Ok (a', None) → checked a a' o.
Proof.
  unfold validated_activity. intros (ticker & _ & Hv)%outcome_bind_Ok.
  destruct (fill_activity_validation_error _ o t) as [e|] eqn:He; [by injection Hv|].
  unfold fill_activity_validation_error in He. cbn in He, Hv. destruct (blank (bf_broker_fill_id a)) eqn:Hb; [done|].
  destruct (normalize_fill_economic (bf_qty a)) as [q|] eqn:Hq, (normalize_fill_economic (bf_price a)) as [p|] eqn:Hp; try done.
  injection Hv as <-. by split.
Qed.

(** The row an activity is written as. *)
Lemma written_row id a a' o fid ticker : checked a a' o → order_ids_where (has_broker_id (bf_broker_order_id a)) d0 = [id] →
  row_of id a (mkFillRow fid (Some id) ticker (bf_side a') (bf_qty a') (bf_price a') (Some (bf_broker_fill_id a'))
                 FILL_RECONCILIATION_TRUSTED (bf_filled_at a')).
Proof.
  intros [Hf Hs Ht Hq Hp Hb] Hid. split; cbn; try done; [by rewrite Hf| | |].
  - unfold fill_has_trusted_identity. cbn. by rewrite Hf, Hb.
  - exists (bf_qty a'). split; [done|]. by eapply normalize_economic_deq.
  - exists (bf_price a'). split; [done|]. by eapply normalize_economic_deq.
Qed.

Lemma trusted_duplicate id a a' o f : checked a a' o → fl_broker_fill_id f = Some (bf_broker_fill_id a) →
  duplicate_fill_validation_error a' id f = None → fill_has_trusted_identity f = true → row_of id a f.
Proof.
  intros [Hf Hs Ht Hq Hp Hb] Hfid He Htr. unfold duplicate_fill_validation_error in He. rewrite Htr, orb_true_r, andb_true_r in He. cbn in He.
  repeat match type of He with (if ?b then _ else _) = None => destruct b eqn:?; [done|] end. reflect_bools.
  split; try congruence; [by exists (bf_qty a')|by exists (bf_price a')|]. rewrite <- Ht. by apply Z.eqb_eq.
Qed.

Lemma recorded_snoc adv done_ a fills : (adv = true → ∀ x, x ∈ done_ → recorded d0 fills x) → recorded d0 fills a →
  adv = true → ∀ x, x ∈ done_ ++ [a] → recorded d0 fills x.
Proof. intros Hd Ha Hadv x [Hx| ->%list_elem_of_singleton]%elem_of_app; auto. Qed.

Lemma tr_duplicate acc done_ id a a' o f :
  checked a a' o → order_ids_where (has_broker_id (bf_broker_order_id a)) d0 = [id] → fl_broker_fill_id f = Some (bf_broker_fill_id a) →
  duplicate_fill_validation_error a' id f = None →
  triple (base (λ l, ledger (im_advance acc) done_ l ∧ f ∈ l)) (import_duplicate acc id a' f actor reason request_id)
    (λ acc' d, base (ledger (im_advance acc) (done_ ++ [a])) d ∧ im_advance acc' = im_advance acc ∧ (im_drift acc ≠ [] → im_drift acc' ≠ [])).
Proof.
  intros Hck Hid Hf He. unfold import_duplicate.
  eapply tr_bind with (Q' := λ _, base (ledger (im_advance acc) (done_ ++ [a]))).
  - destruct (fill_has_trusted_identity f) eqn:Htr.
    + apply tr_ret. intros d. apply base_weaken. intros l Hl [[Hu Hd] Hin]. split; [done|]. apply recorded_snoc; [done|].
      exists id, f. split; [done|]. split; [done|]. by eapply trusted_duplicate.
    + apply tr_write. intros d [Ho Hc Hb [[Hu Hd] Hin]]. pose proof (ck_fill_id _ _ _ Hck) as Hfid.
      set (f' := replace_with_authoritative_activity f id a').
      split; [done..| |]; change (by_id (replace_fill f' (db_fills d))) || change (ledger (im_advance acc) (done_ ++ [a]) (replace_fill f' (db_fills d))).
      * by apply replace_fill_by_id.
      * split; [rewrite (replace_fill_ids f); try done; cbn; congruence|]. apply recorded_snoc.
        { intros Hadv x Hx. by apply (replace_fill_recorded d0 f); [..|apply Hd]. }
        exists id, f'. split; [done|]. split; [by eapply replace_fill_elem|]. by eapply written_row.
  - intros _. eapply tr_bind; [apply tr_get|]. intros o1. eapply tr_bind; [apply tr_query|]. intros total. eapply tr_bind; [apply tr_lift|].
    intros t. cbn. eapply tr_bind; [|intros detail].
    + eapply tr_conseq; [apply (tr_overfill (ledger (im_advance acc) (done_ ++ [a])))|by intros d [[[? _] _] _]|done].
    + apply tr_ret. intros d Hd. split; [exact Hd|]. unfold note_overfill, note_activity. cbn.
      destruct (fill_has_trusted_identity f); (split; [done|]); cbn; intros Hn [? _]%app_eq_nil; done.
Qed.

Lemma synthetic_spares id o o0 l x : db_orders d0 !! id = Some o0 → o_broker_order_id o = o_broker_order_id o0 →
  exact_id x → recorded d0 l x → recorded d0 (filter (λ f, ¬ is_synthetic_fill id o f) l) x.
Proof.
  intros H0 Hb Hex (id' & f & Hid' & Hf & Hr). exists id', f. split; [done|]. split; [|done]. apply list_elem_of_filter. split; [|done].
  unfold is_synthetic_fill. rewrite (ro_fill_id _ _ _ Hr), (ro_order _ _ _ Hr). intros [[= ->] Hl].
  assert (id ∈ order_ids_where (has_broker_id (bf_broker_order_id x)) d0) as Hin by (rewrite Hid'; by left).
  apply select_ids_elem in Hin as (o1 & Ho1 & Hbid%bool_decide_eq_true_1). simplify_eq. unfold synthetic_prefix in Hl. rewrite Hb, Hbid in Hl. cbn in Hl.
  unfold exact_id in Hex. congruence.
Qed.

(** A new id stays new until its row is added. *)
Definition fresh_ledger (advance : bool) (done_ : list BrokerFill) (x : string) (fills : list Fill) : Prop :=
  ledger advance done_ fills ∧ x ∉ fill_ids fills.

Lemma tr_remove adv done_ x id o : (∀ y, y ∈ done_ → exact_id y) →
  triple (λ d, base (fresh_ledger adv done_ x) d ∧ db_orders d !! id = Some o) (remove_synthetic_fills id o) (λ _, base (fresh_ledger adv done_ x)).
Proof.
  intros Hex s Hd [HP Hid]. destruct (base_broker _ _ _ _ HP Hid) as (o0 & Ho0 & Hbr). destruct HP as [Ho Hc Hb [[Hu Hr] Hx]].
  cbn. split; [done|]. split; [done..| |]; cbn; [by apply by_id_filter|].
  split; [split|]; [by apply fill_ids_filter_NoDup| |by intros ?%fill_ids_filter].
  intros Hadv y Hy. eapply synthetic_spares; [done..|by apply Hex|by apply Hr].
Qed.

Lemma tr_supersede adv done_ x id a' :
  triple (base (fresh_ledger adv done_ x)) (supersede_matching_quarantined_fill id a') (λ _, base (fresh_ledger adv done_ x)).
Proof.
  unfold supersede_matching_quarantined_fill. eapply tr_bind; [apply tr_query|]. intros [f|]; [|by apply tr_ret; intros d [? _]].
  apply tr_write. intros d [[Ho Hc Hb [[Hu Hr] Hx]] Hf]. symmetry in Hf. unfold matching_quarantined_fill in Hf.
  assert (f ∈ db_fills d ∧ fl_reconciliation_state f = FILL_RECONCILIATION_QUARANTINED) as [Hin Hq].
  { apply head_Some_elem_of, elem_of_app in Hf as [Hf|Hf]; apply list_elem_of_filter in Hf as [(_ & ? & _) ?]; done. }
  assert (fill_has_trusted_identity f = false) as Hun by (unfold fill_has_trusted_identity; by rewrite Hq).
  set (f' := set_fl_state (Some id) FILL_RECONCILIATION_SUPERSEDED f). split; [done..| |].
  - by apply (replace_fill_by_id f').
  - change (fresh_ledger adv done_ x (replace_fill f' (db_fills d))). unfold fresh_ledger, ledger. rewrite (replace_fill_ids f) by done.
    split; [split; [done|]|done]. intros Hadv y Hy. apply (replace_fill_recorded d0 f); [done..|by apply Hr].
Qed.

Lemma fill_ids_app l f : fill_ids (l ++ [f]) = fill_ids l ++ option_list (fl_broker_fill_id f).
Proof. unfold fill_ids. rewrite omap_app. cbn. by destruct (fl_broker_fill_id f). Qed.

Lemma recorded_app l k x : recorded d0 l x → recorded d0 (l ++ k) x.
Proof. intros (id & f & ? & ? & ?). exists id, f. split; [done|]. split; [apply elem_of_app; by left|done]. Qed.

Lemma tr_add adv done_ id a a' o : checked a a' o → order_ids_where (has_broker_id (bf_broker_order_id a)) d0 = [id] →
  triple (base (fresh_ledger adv done_ (bf_broker_fill_id a')))
    (on_session (add_fill_row id (bf_ticker a') (bf_side a') (bf_qty a') (bf_price a') (bf_broker_fill_id a') (bf_filled_at a')))
    (λ _, base (ledger adv (done_ ++ [a]))).
Proof.
  intros Hck Hid s Hd [Ho Hc Hb [[Hu Hr] Hx]]. split; [done|].
  cbn. split; [done..| |]; cbn.
  - by apply by_id_snoc.
  - split.
    + rewrite fill_ids_app. cbn. apply NoDup_app. split; [done|]. split; [|apply NoDup_singleton]. intros y Hy Hy2%list_elem_of_singleton. by subst y.
    + apply recorded_snoc; [intros Hadv y Hy; by apply recorded_app, Hr|]. eexists id, _. split; [done|].
      split; [apply elem_of_app; right; left|]. by eapply written_row.
Qed.

Lemma tr_new acc done_ id a a' o : checked a a' o → order_ids_where (has_broker_id (bf_broker_order_id a)) d0 = [id] → (∀ y, y ∈ done_ → exact_id y) →
  triple (base (fresh_ledger (im_advance acc) done_ (bf_broker_fill_id a'))) (import_new acc id a' actor reason request_id)
    (λ acc' d, base (ledger (im_advance acc) (done_ ++ [a])) d ∧ im_advance acc' = im_advance acc ∧ (im_drift acc ≠ [] → im_drift acc' ≠ [])).
Proof.
  intros Hck Hid Hex. unfold import_new. eapply tr_bind; [apply tr_get|]. intros o1. eapply tr_bind; [by apply tr_remove|intros ?].
  eapply tr_bind; [apply tr_supersede|intros ?]. eapply tr_bind; [apply tr_query|intros total]. eapply tr_bind; [apply tr_lift|intros projected].
  eapply tr_bind; [eapply tr_conseq; [by eapply tr_add|intros d [[Hb _] _]; exact Hb|done]|intros ?]. cbn.
  destruct (quantity_overfill_detail id o1 projected); [|by apply tr_ret].
  eapply tr_bind; [apply tr_overfill|]. intros detail. apply tr_ret. intros d Hd. split; [exact Hd|]. split; [done|]. cbn.
  intros Hn [? _]%app_eq_nil. done.
Qed.

(** The whole turn. *)
Definition sound (acc : ImportState) : Prop := im_advance acc = false → im_drift acc ≠ [].

Lemma tr_activity observed acc done_ a : sound acc → (∀ y, y ∈ done_ → exact_id y) →
  triple (base (ledger (im_advance acc) done_)) (import_activity observed actor reason request_id acc a)
    (λ acc' d, base (ledger (im_advance acc') (done_ ++ [a])) d ∧ sound acc').
Proof.
  intros Hs Hex. unfold import_activity. eapply tr_bind; [apply tr_query|]. intros orders.
  assert (∀ fault id d, base (ledger (im_advance acc) done_) d → base (ledger (im_advance (refuse_activity fault id acc)) (done_ ++ [a])) d
            ∧ sound (refuse_activity fault id acc)) as Hrefuse.
  { intros fault id d Hb. split; [|intros _ [_ ?]%app_eq_nil; done]. eapply base_weaken; [|exact Hb]. intros l _ [Hu _]. by split. }
  destruct orders as [|id [|? ?]]; [apply tr_ret; intros d [Hb _]; by apply Hrefuse| |apply tr_ret; intros d [Hb _]; by apply Hrefuse].
  eapply tr_bind with (Q' := λ o d, base (ledger (im_advance acc) done_) d ∧ order_ids_where (has_broker_id (bf_broker_order_id a)) d0 = [id]).
  { eapply tr_conseq; [apply tr_get|intros d Hd; exact Hd|]. intros o d [[Hb Hid] _]. split; [done|]. by rewrite <- (base_lookup _ _ _ Hb). }
  intros o. eapply tr_bind; [apply tr_lift|]. intros [a' error]. cbn. apply tr_pure. intros Hv. apply tr_pure. intros Hid.
  assert (∀ e, triple (base (ledger (im_advance acc) done_)) (latch_order_in_session id "invalid_fill_activity" ≫= λ _,
    mret (refuse_activity ("invalid fill activity " +:+ bf_broker_fill_id a' +:+ ": " +:+ e) (Some id) acc))
    (λ acc' d, base (ledger (im_advance acc') (done_ ++ [a])) d ∧ sound acc')) as Hlatch.
  { intros e. eapply tr_bind; [apply tr_latch|]. intros b. apply tr_ret. intros d Hb. by apply Hrefuse. }
  destruct error as [e|]; [apply (tr_bind _ _ _ _ (λ _, base (ledger (im_advance acc) done_))); [by apply tr_ret|intros ?; apply Hlatch]|].
  assert (∀ acc' s', dur s' = d0 → base (ledger (im_advance acc) (done_ ++ [a])) (wrk s') → im_advance acc' = im_advance acc →
    (im_drift acc ≠ [] → im_drift acc' ≠ []) → dur s' = d0 ∧ base (ledger (im_advance acc') (done_ ++ [a])) (wrk s') ∧ sound acc') as Hgo.
  { intros acc' s' Hd Hb Ha Hdr. rewrite Ha. split_and!; [done..|]. intros Hadv. apply Hdr, Hs. congruence. }
  apply validated_checked in Hv as Hck. eapply tr_bind; [apply tr_query|]. intros [f|].
  - destruct (duplicate_fill_validation_error a' id f) as [e|] eqn:He.
    { eapply tr_conseq; [apply Hlatch|by intros d [Hb _]|done]. }
    intros s Hd [Hb Hf]. symmetry in Hf. apply head_Some_elem_of, list_elem_of_filter in Hf as [Hf Hin]. rewrite (ck_fill_id _ _ _ Hck) in Hf.
    pose proof (tr_duplicate acc done_ id a a' o f Hck Hid Hf He s Hd) as Ht.
    assert (base (λ l, ledger (im_advance acc) done_ l ∧ f ∈ l) (wrk s)) as Hb' by (destruct Hb; by split). specialize (Ht Hb').
    destruct (import_duplicate _ _ _ _ _ _ _ s) as [[acc'|e] s']; [|done]. destruct Ht as (Hd' & Hl & Ha & Hdr). by apply Hgo.
  - intros s Hd [Hb Hf]. pose proof (tr_new acc done_ id a a' o Hck Hid Hex s Hd) as Ht.
    assert (base (fresh_ledger (im_advance acc) done_ (bf_broker_fill_id a')) (wrk s)) as Hb'.
    { destruct Hb as [? ? ? ?]. split; try done. split; [done|]. intros (f & Hin & Hx)%list_elem_of_omap. symmetry in Hf.
      apply head_None in Hf. apply (not_elem_of_nil f). rewrite <- Hf. by apply list_elem_of_filter. }
    specialize (Ht Hb'). destruct (import_new _ _ _ _ _ _ s) as [[acc'|e] s']; [|done]. destruct Ht as (Hd' & Hl & Ha & Hdr). by apply Hgo.
Qed.

Lemma tr_loop observed batch : ∀ acc done_, sound acc → (∀ y, y ∈ done_ ++ batch → exact_id y) →
  triple (base (ledger (im_advance acc) done_)) (rtx_foldl (import_activity observed actor reason request_id) acc batch)
    (λ acc' d, base (ledger (im_advance acc') (done_ ++ batch)) d ∧ sound acc').
Proof.
  induction batch as [|a batch IH]; intros acc done_ Hs Hex; [apply tr_ret; intros d Hd; by rewrite app_nil_r|].
  cbn. eapply tr_bind; [apply tr_activity; [done|]; intros y Hy; apply Hex, elem_of_app; by left|].
  intros acc'. cbn. apply tr_pure. intros Hs'. specialize (IH acc' (done_ ++ [a]) Hs'). rewrite <- app_assoc in IH. apply IH, Hex.
Qed.

(** ** The cursor and the commit *)

Lemma advance_cursor_ledger key a version s : match advance_cursor key a version s with
  | (Ok _, s') => dur s' = dur s ∧ db_fills (wrk s') = db_fills (wrk s)
  | (Raise _, s') => dur s' = dur s
  end.
Proof.
  unfold advance_cursor, query, flush, mbind, rtx_bind. cbn. destruct (db_cursors (wrk s) !! _) as [cu|], version as [v|]; try done;
    by destruct (bool_decide _).
Qed.

Definition same_ledger (d d' : Db) : Prop := db_fills d' = db_fills d ∧ db_cursors d' = db_cursors d.
#[local] Instance same_ledger_preorder : PreOrder same_ledger.
Proof. split; [done|]. unfold same_ledger. intros x y z [? ?] [? ?]. split; congruence. Qed.

Lemma commit_ledger s : match commit_reconciliation_mutations resize_action actor reason request_id s with
                        | (Ok _, s') => same_ledger (wrk s) (dur s')
                        | (Raise _, s') => dur s' = dur s
                        end.
Proof.
  unfold commit_reconciliation_mutations, now, flush, on_session, mbind, rtx_bind. cbn.
  match goal with |- context [reconcile_plan_lifecycle_in_session ?r ?t ?c ?a ?b ?q (r_session s)] =>
    destruct (moves_reconcile_in_session r t c a b q (r_session s)) as [Hd Hm];
    destruct (reconcile_plan_lifecycle_in_session r t c a b q (r_session s)) as [[u|e] s1] end; [|done]. cbn in *.
  assert (same_ledger (wrk s) (working s1)) as Hl by (split; [apply (pm_fills _ _ Hm)|apply (pm_cursors _ _ Hm)]).
  match goal with |- context [persist_pending_reconciliation_audits ?a ?b ?c ?sp] => assert (same_ledger (working s1)
    (wrk (persist_pending_reconciliation_audits a b c sp).2) ∧ dur (persist_pending_reconciliation_audits a b c sp).2 = durable s1) as [Hp Hpd] end.
  { unfold persist_pending_reconciliation_audits, on_session. cbn.
    match goal with |- context [(tx_iter ?f ?l ≫= ?k) ?s0] => assert (moves same_ledger (tx_iter f l ≫= k)) as Hmv; [|destruct (Hmv s0) as [H1 H2];
      by destruct ((tx_iter f l ≫= k) s0)] end.
    apply moves_bind; [apply _|..]; [|intros []]; (apply moves_iter; [apply _|]; intros x s0; done). }
  destruct (persist_pending_reconciliation_audits _ _ _ _) as [[u'|e] s2]; cbn in *; [by etrans|congruence].
Qed.
End Activities.

(** Claim C18.  Importing a batch of fill activities: no broker fill id is ever stored twice; when the
    stream counts as complete, which alone advances the cursor, every activity of the batch is
    stored as a trusted fill of the one order it names, with its side, time and canonical
    quantity and price; otherwise a fault is reported and the cursor stays; and an import that
    raises leaves the database as it was.  Activity ids are assumed not to look like the ids
    synthesised from an order's broker id. *)
Theorem import_loses_no_fill `{Digest} resize_action actor reason request_id key after version observed_at batch d c :
  by_id (db_fills d) → NoDup (fill_ids (db_fills d)) → (∀ a, a ∈ batch → exact_id a) →
  let '(r, d', _) := with_rsession (import_batch resize_action key after version observed_at batch actor reason request_id) d c in
  match r with
  | Raise _ => d' = d
  | Ok acc =>
      NoDup (fill_ids (db_fills d'))
      ∧ if im_advance acc then ∀ a, a ∈ batch → recorded d (db_fills d') a
        else im_drift acc ≠ [] ∧ db_cursors d' = db_cursors d
  end.
Proof.
  intros Hby Hnd Hex. unfold with_rsession, import_batch, mbind, rtx_bind.
  pose proof (tr_loop actor reason request_id d observed_at batch (mkImport [] 0 [] [] true) [] ltac:(done) Hex
    (mkR (mkSession d d) d [] [] c) eq_refl) as Hl.
  assert (base d (ledger d true []) d) as Hb0.
  { split; [apply rows_move_refl; by intros o|done..|]. split; [done|]. by intros _ x ?%elem_of_nil. }
  specialize (Hl Hb0). destruct (rtx_foldl _ _ batch _) as [[acc|e] s1]; [|exact Hl]. destruct Hl as (Hd1 & [Ho Hc Hbi [Hu Hr]] & Hs).
  assert (∀ s2, dur s2 = d → db_fills (wrk s2) = db_fills (wrk s1) → (im_advance acc = false → db_cursors (wrk s2) = db_cursors d) →
    let '(r, d', _) := (let (r, s) := match commit_reconciliation_mutations resize_action actor reason request_id s2 with
      | (Ok _, s') => (Ok acc, s') | (Raise e, s') => (Raise e, s') end in (r, dur s, r_clock s)) in
    match r with
    | Raise _ => d' = d
    | Ok acc => NoDup (fill_ids (db_fills d')) ∧ if im_advance acc then ∀ a, a ∈ batch → recorded d (db_fills d') a
                else im_drift acc ≠ [] ∧ db_cursors d' = db_cursors d
    end) as Hgo.
  { intros s2 Hd2 Hf2 Hc2. pose proof (commit_ledger resize_action actor reason request_id s2) as Hcl.
    destruct (commit_reconciliation_mutations _ _ _ _ s2) as [[u|e] s3]; cbn; [|congruence]. destruct Hcl as [Ef Ec]. rewrite Ef, Hf2. split; [done|].
    destruct (im_advance acc) eqn:Hadv; [by apply Hr|]. split; [by apply Hs|]. rewrite Ec. by apply Hc2. }
  destruct (im_advance acc) eqn:Hadv; [|by apply Hgo]. destruct (cursor_candidate after batch acc) as [a|]; [|by apply Hgo].
  pose proof (advance_cursor_ledger key a version s1) as Hcur. destruct (advance_cursor key a version s1) as [[u|e] s2].
  - destruct Hcur as [Hd2 Hf2]. apply Hgo; [congruence|done|by intros [=]].
  - cbn. congruence.
Qed.

(** ** A batch of one activity *)

Abbreviation demo_import :=
  (with_rsession (@import_batch demo_digest_r demo_resize_r "demo" None None 300 [demo_activity 10] "monitor" "pass" "r1")
     (recon_db SUBMITTED "accepted" EmptyString []) (λ n, 300 + Z.of_nat n)).

Lemma import_loses_no_fill_witness :
  recorded (recon_db SUBMITTED "accepted" EmptyString []) (db_fills demo_import.1.2) (demo_activity 10).
Proof.
  pose proof (@import_loses_no_fill demo_digest_r demo_resize_r "monitor" "pass" "r1" "demo" None None 300 [demo_activity 10]
    (recon_db SUBMITTED "accepted" EmptyString []) (λ n, 300 + Z.of_nat n)) as Ht.
  assert (match demo_import.1.1 with Ok acc => im_advance acc | Raise _ => false end = true) as Ha by (by vm_compute).
  assert (∀ a, a ∈ [demo_activity 10] → exact_id a) as Hex by (intros a ->%list_elem_of_singleton; by vm_compute).
  specialize (Ht ltac:(constructor) ltac:(constructor) Hex).
  destruct demo_import as [[[acc|e] d'] c']; [|done]. cbn in Ha |- *. rewrite Ha in Ht. apply Ht. left.
Defined.
