(* ===== verification/Identity.v ===== *)
(** Canonical durable identities: [identity.py].

    Request ids, persisted symbols and analyst versions are trimmed of outer spaces, put in
    one case and checked against a length and an alphabet; a canonical value is a fixed point. *)

From S2P Require Import Prelude.
From Stdlib Require Import Ascii Lia.
Local Open Scope nat_scope.

Definition REQUEST_ID_MAX_LENGTH : nat := 64.
Definition SYMBOL_MAX_LENGTH : nat := 16.
Definition ANALYST_VERSION_MAX_LENGTH : nat := 16.

Definition in_range (lo hi : ascii) (c : ascii) : bool :=
  (nat_of_ascii lo <=? nat_of_ascii c) && (nat_of_ascii c <=? nat_of_ascii hi).
Definition one_of (s : string) (c : ascii) : bool := contains_char c s.

(** The three character classes. *)
Definition _REQUEST_ID (c : ascii) : bool :=
  in_range "A" "Z" c || in_range "a" "z" c || in_range "0" "9" c || one_of "._:-" c.
Definition _SYMBOL (c : ascii) : bool := in_range "A" "Z" c || in_range "0" "9" c || one_of "._:/-" c.
Definition _ANALYST_VERSION (c : ascii) : bool := in_range "a" "z" c || in_range "0" "9" c || one_of "._:-" c.

Fixpoint string_forall (p : ascii → bool) (s : string) : bool :=
  match s with EmptyString => true | String c s' => p c && string_forall p s' end.

(** [value.strip(" ")]. *)
Fixpoint lstrip_char (d : ascii) (s : string) : string :=
  match s with
  | EmptyString => EmptyString
  | String c s' => if decide (c = d) then lstrip_char d s' else s
  end.
Fixpoint rstrip_char (d : ascii) (s : string) : string :=
  match s with
  | EmptyString => EmptyString
  | String c s' =>
      match rstrip_char d s' with
      | EmptyString => if decide (c = d) then EmptyString else String c EmptyString
      | r => String c r
      end
  end.
Definition strip_char (d : ascii) (s : string) : string := rstrip_char d (lstrip_char d s).

Inductive LetterCase : Type := Upper | Lower.

(** The loop over the raw characters: the first one outside printable ASCII decides. *)
Fixpoint check_printable (field s : string) : outcome () :=
  match s with
  | EmptyString => Ok ()
  | String c s' =>
      let n := nat_of_ascii c in
      if 127 <? n then Raise (ValueError (field +:+ " must contain only ASCII"))
      else if (n <? 32) || (n =? 127) then Raise (ValueError (field +:+ " must not contain controls"))
      else check_printable field s'
  end.

Definition _canonical_ascii (field value : string) (pattern : ascii → bool) (max_length : nat)
    (case : option LetterCase) : outcome string :=
  _ ← check_printable field value;
  let canonical := strip_char " " value in
  let canonical := match case with
                   | Some Upper => upper canonical
                   | Some Lower => lower canonical
                   | None => canonical
                   end in
  if negb (nonempty canonical) then Raise (ValueError (field +:+ " must be non-empty"))
  else if max_length <? String.length canonical
  then Raise (ValueError (field +:+ " must be at most " +:+ pretty max_length +:+ " characters"))
  else if string_forall pattern canonical then Ok canonical
  else Raise (ValueError (field +:+ " contains unsupported characters")).

Definition canonical_request_id (value : string) : outcome string :=
  _canonical_ascii "request_id" value _REQUEST_ID REQUEST_ID_MAX_LENGTH None.
Definition canonical_symbol (value : string) : outcome string :=
  _canonical_ascii "symbol" value _SYMBOL SYMBOL_MAX_LENGTH (Some Upper).
Definition canonical_analyst_version (value : string) : outcome string :=
  _canonical_ascii "analyst_version" value _ANALYST_VERSION ANALYST_VERSION_MAX_LENGTH (Some Lower).

(** * Canonical values are fixed points *)

(** What a pattern must satisfy to be stable under a second pass: printable, not a space, and
    unmoved by the case mapping. *)
Definition stable (pattern : ascii → bool) (case : option LetterCase) : Prop :=
  ∀ c, pattern c = true →
    32 < nat_of_ascii c ∧ nat_of_ascii c < 127
    ∧ match case with Some Upper => ascii_upper c | Some Lower => ascii_lower c | None => c end = c.

(** A boolean property of all 256 characters, by evaluation. *)
Lemma ascii_forall (p : ascii → bool) :
  forallb (λ n, p (ascii_of_nat n)) (seq 0 256) = true → ∀ c, p c = true.
Proof.
  intros Hall c. rewrite forallb_forall in Hall. rewrite <- (ascii_nat_embedding c).
  apply Hall, in_seq. pose proof (nat_ascii_bounded c). lia.
Qed.

Lemma stable_by_eval pattern case :
  forallb (λ n, let c := ascii_of_nat n in
     implb (pattern c) ((32 <? nat_of_ascii c) && (nat_of_ascii c <? 127)
       && bool_decide (match case with Some Upper => ascii_upper c | Some Lower => ascii_lower c | None => c end = c)))
    (seq 0 256) = true → stable pattern case.
Proof.
  intros Hall c Hc.
  pose proof (ascii_forall (λ c, implb (pattern c) ((32 <? nat_of_ascii c) && (nat_of_ascii c <? 127)
       && bool_decide (match case with Some Upper => ascii_upper c | Some Lower => ascii_lower c | None => c end = c)))
       Hall c) as H.
  cbv beta in H. rewrite Hc in H. cbn [implb] in H.
  rewrite !andb_true_iff, bool_decide_eq_true, !Nat.ltb_lt in H. tauto.
Qed.

Section Fixed.
Context (pattern : ascii → bool) (case : option LetterCase) (Hstable : stable pattern case).

Lemma check_printable_pattern field s : string_forall pattern s = true → check_printable field s = Ok ().
Proof.
  induction s as [|c s IH]; [done|]. cbn [string_forall check_printable]. intros [Hc Hs]%andb_true_iff.
  destruct (Hstable c Hc) as (H1 & H2 & _). cbv zeta.
  rewrite (proj2 (Nat.ltb_ge _ _)) by lia. rewrite (proj2 (Nat.ltb_ge _ _)) by lia.
  rewrite (proj2 (Nat.eqb_neq _ _)) by lia. by apply IH.
Qed.

Lemma strip_char_pattern s : string_forall pattern s = true → strip_char " " s = s.
Proof.
  intros Hs. assert (lstrip_char " " s = s) as Hl.
  { destruct s as [|c s]; [done|]. cbn. apply andb_true_iff in Hs as [Hc _].
    destruct (Hstable c Hc) as (H1 & _). case_decide; [subst; vm_compute in H1; lia|done]. }
  unfold strip_char. rewrite Hl. clear Hl. induction s as [|c s IH]; [done|].
  cbn in Hs |- *. apply andb_true_iff in Hs as [Hc Hs]. rewrite (IH Hs).
  destruct (Hstable c Hc) as (H1 & _). destruct s; [|done]. case_decide; [subst; vm_compute in H1; lia|done].
Qed.

Lemma case_pattern s :
  string_forall pattern s = true →
  match case with Some Upper => upper s | Some Lower => lower s | None => s end = s.
Proof.
  induction s as [|c s IH]; [by destruct case as [[]|]|]. cbn [string_forall]. intros [Hc Hs]%andb_true_iff.
  specialize (IH Hs). destruct (Hstable c Hc) as (_ & _ & Hcase). destruct case as [[]|]; cbn; by rewrite ?Hcase, ?IH.
Qed.

(** A value the check returns is nonempty, short enough, in the alphabet, and returned
    unchanged when checked again. *)
Lemma canonical_ascii_fixed field max_length value y :
  _canonical_ascii field value pattern max_length case = Ok y →
  nonempty y = true ∧ String.length y ≤ max_length ∧ string_forall pattern y = true
  ∧ _canonical_ascii field y pattern max_length case = Ok y.
Proof.
  unfold _canonical_ascii. intros (u & _ & H)%outcome_bind_Ok. cbv zeta in H.
  set (z := match case with Some Upper => _ | Some Lower => _ | None => _ end) in H.
  destruct (nonempty z) eqn:Hne; [|done]. cbn [negb] in H.
  destruct (Nat.ltb_spec max_length (String.length z)); [done|].
  destruct (string_forall pattern z) eqn:Hp; [|done]. injection H as <-. split_and!; try done; try lia.
  rewrite (check_printable_pattern field z Hp). cbn [mbind outcome_bind].
  rewrite (strip_char_pattern z Hp), (case_pattern z Hp). cbv zeta. rewrite Hne. cbn [negb].
  rewrite (proj2 (Nat.ltb_ge _ _)) by lia. by rewrite Hp.
Qed.
End Fixed.

(** Refusals are [ValueError]s. *)
Lemma check_printable_error field s e : check_printable field s = Raise e → ∃ msg, e = ValueError msg.
Proof.
  induction s as [|c s IH]; [done|]. cbn [check_printable]. cbv zeta.
  destruct (127 <? _); [intros [= <-]; by eexists|]. destruct (_ || _); [intros [= <-]; by eexists|done].
Qed.

Lemma canonical_ascii_error field value pattern n case e :
  _canonical_ascii field value pattern n case = Raise e → ∃ msg, e = ValueError msg.
Proof.
  unfold _canonical_ascii. destruct (check_printable field value) as [[]|e'] eqn:Hc; cbn [mbind outcome_bind].
  - cbv zeta. destruct (negb _); [intros [= <-]; by eexists|]. destruct (_ <? _); [intros [= <-]; by eexists|].
    destruct (string_forall _ _); [done|intros [= <-]; by eexists].
  - intros [= <-]. by eapply check_printable_error.
Qed.

Lemma request_id_stable : stable _REQUEST_ID None.
Proof. apply stable_by_eval. vm_compute. reflexivity. Qed.
Lemma symbol_stable : stable _SYMBOL (Some Upper).
Proof. apply stable_by_eval. vm_compute. reflexivity. Qed.
Lemma analyst_version_stable : stable _ANALYST_VERSION (Some Lower).
Proof. apply stable_by_eval. vm_compute. reflexivity. Qed.

Lemma canonical_request_id_idem value y :
  canonical_request_id value = Ok y → canonical_request_id y = Ok y.
Proof. intros Hy. by apply (canonical_ascii_fixed _ _ request_id_stable) in Hy as (_ & _ & _ & Hy). Qed.

(** Canonical identities are fixed points.  A request id, symbol or analyst version
    that is accepted is nonempty, within its column, in its alphabet, and canonicalizing it
    again returns it unchanged, so a stored value always compares equal to its own canonical
    form. *)
Theorem canonical_identity_fixed value :
  (∀ y, canonical_request_id value = Ok y →
     canonical_request_id y = Ok y ∧ 1 ≤ String.length y ≤ 64 ∧ string_forall _REQUEST_ID y = true)
  ∧ (∀ y, canonical_symbol value = Ok y →
     canonical_symbol y = Ok y ∧ 1 ≤ String.length y ≤ 16 ∧ string_forall _SYMBOL y = true)
  ∧ (∀ y, canonical_analyst_version value = Ok y →
     canonical_analyst_version y = Ok y ∧ 1 ≤ String.length y ≤ 16 ∧ string_forall _ANALYST_VERSION y = true).
Proof.
  assert (∀ y, nonempty y = true → 1 ≤ String.length y) as Hlen by (intros [|? ?]; simpl; [done|lia]).
  split_and!; intros y Hy;
    [apply (canonical_ascii_fixed _ _ request_id_stable) in Hy as (H1 & H2 & H3 & H4)
    |apply (canonical_ascii_fixed _ _ symbol_stable) in Hy as (H1 & H2 & H3 & H4)
    |apply (canonical_ascii_fixed _ _ analyst_version_stable) in Hy as (H1 & H2 & H3 & H4)]; auto 10.
Qed.

Lemma canonical_identity_fixed_witness :
  canonical_symbol " btc/usd " = Ok "BTC/USD" ∧ canonical_symbol "BTC/USD" = Ok "BTC/USD".
Proof.
  split; [vm_compute; reflexivity|].
  exact (proj1 (proj1 (proj2 (canonical_identity_fixed " btc/usd ")) "BTC/USD" eq_refl)).
Defined.
