(* ===== verification/Limits.v ===== *)
(** Durable request limits, leases and interlocks: [app/limits.py].

    The three tables and the audit log are one store; every method is one [BEGIN IMMEDIATE]
    transaction, so a function of the store.  [fails] says that the transaction raises a
    database error, which [_store_session] rolls back and reports as
    [LimitStoreUnavailable].  Clock readings ([now], [utcnow()]) are arguments. *)

From S2P Require Import Prelude PyDecimal BrokerModels Pnl Database Lifecycle.
From Stdlib Require Import Ascii Lia.
Local Open Scope Z_scope.

(** * Tables *)

Record RateWindow : Type := mkWindow {
  rw_policy_name : string;
  rw_window_started_at : time;
  rw_expires_at : time;
  rw_hits : Z;
  rw_version : Z;
}.

Record ConcurrencyLease : Type := mkLease {
  le_owner : string;
  le_expires_at : time;
  le_generation : Z;
}.

Record MutationInterlock : Type := mkInterlock {
  il_owner : string;
  il_generation : Z;
  il_operation : string;
  il_state : string;
  il_outcome_code : string;
  il_worker_finished_at : option time;
  il_created_at : time;
  il_updated_at : time;
}.

Record LimitStore : Type := mkStore {
  st_windows : gmap string RateWindow;
  st_leases : gmap string ConcurrencyLease;
  st_interlocks : gmap string MutationInterlock;
  st_audit : list AuditEvent;
}.

Definition set_st_windows (v : gmap string RateWindow) (s : LimitStore) : LimitStore :=
  mkStore v (st_leases s) (st_interlocks s) (st_audit s).
Definition set_st_leases (v : gmap string ConcurrencyLease) (s : LimitStore) : LimitStore :=
  mkStore (st_windows s) v (st_interlocks s) (st_audit s).
Definition set_st_interlocks (v : gmap string MutationInterlock) (s : LimitStore) : LimitStore :=
  mkStore (st_windows s) (st_leases s) v (st_audit s).
Definition set_st_audit (v : list AuditEvent) (s : LimitStore) : LimitStore :=
  mkStore (st_windows s) (st_leases s) (st_interlocks s) v.

Definition empty_store : LimitStore := mkStore ∅ ∅ ∅ [].

Definition store_session {A} (fails : bool) (body : LimitStore → outcome A * LimitStore)
    (s : LimitStore) : outcome A * LimitStore :=
  if fails then (Raise (LimitStoreUnavailable "durable limit store unavailable"), s) else body s.

(** [_retry_after]: seconds, rounded up, never negative. *)
Definition retry_after (expires_at now : time) : Z := Z.max 0 (- (- (expires_at - now) / second)).

Definition session_limit_principal (session_id : Z) (actor : string) : outcome string :=
  let normalized := strip actor in
  if (session_id <=? 0) || negb (nonempty normalized)
  then Raise (ValueError "authenticated limit principal is invalid")
  else Ok ("session:" +:+ pretty session_id +:+ ":" +:+ normalized).

(** * Fixed windows *)

Record LimitSpec : Type := mkSpec {
  sp_name : string;
  sp_principal_requests : Z;
  sp_global_requests : Z;
  sp_window_seconds : Z;
  sp_principal_daily_requests : option Z;
  sp_global_daily_requests : option Z;
}.

(** [LimitSpec.__post_init__]. *)
Definition limit_spec (s : LimitSpec) : outcome LimitSpec :=
  let values := [ ("principal_requests", Some (sp_principal_requests s));
                  ("global_requests", Some (sp_global_requests s));
                  ("window_seconds", Some (sp_window_seconds s));
                  ("principal_daily_requests", sp_principal_daily_requests s);
                  ("global_daily_requests", sp_global_daily_requests s) ] in
  match filter (λ x, match x.2 with Some v => v <=? 0 | None => false end = true) values with
  | [] => Ok s
  | (name, _) :: _ => Raise (ValueError (name +:+ " must be positive"))
  end.

Record LimitDecision : Type := mkDecision {
  ld_allowed : bool;
  ld_remaining : Z;
  ld_retry_after_seconds : Z;
  ld_reset_at : time;
}.

Record LimitInspection : Type := mkInspection {
  li_policy_name : string;
  li_remaining : Z;
  li_limit : Z;
  li_exhausted : bool;
  li_reset_at : time;
}.

Inductive BucketKind : Type := PrincipalWindow | GlobalWindow | PrincipalDay | GlobalDay.

#[export] Instance bucket_kind_eq_dec : EqDecision BucketKind.
Proof. solve_decision. Defined.

Definition bucket_kind_value (k : BucketKind) : string :=
  match k with
  | PrincipalWindow => "principal_window" | GlobalWindow => "global_window"
  | PrincipalDay => "principal_day" | GlobalDay => "global_day"
  end.

Definition nul : string := String "000"%char EmptyString.

Record Bucket : Type := mkBucket {
  bk_key : string;
  bk_ceiling : Z;
  bk_started_at : time;
  bk_expires_at : time;
}.

(** [min] and [max] of a nonempty list, its first element given. *)
Definition min_of (x : Z) (l : list Z) : Z := foldr Z.min x l.
Definition max_of (x : Z) (l : list Z) : Z := foldr Z.max x l.

(** [max(item.1 for item in items if item.0 == remaining)] with [remaining] their minimum. *)
Definition limiting_reset (items : list (Z * time)) : Z * time :=
  match items with
  | [] => (0, 0)
  | x :: rest =>
      let remaining := min_of x.1 (map fst rest) in
      match filter (λ i, i.1 = remaining) items with
      | [] => (remaining, 0)
      | y :: ys => (remaining, max_of y.2 (map snd ys))
      end
  end.

Section Limiter.
Context `{Digest}.

Definition bucket_key (policy_name : string) (kind : BucketKind) (principal : string) : string :=
  sha256_hex (policy_name +:+ nul +:+ bucket_kind_value kind +:+ nul +:+ principal).

Definition buckets (spec : LimitSpec) (principal : string) (now : time) : list Bucket :=
  let fixed_expires_at := now + sp_window_seconds spec * second in
  let day_started_at := most_recent_utc_midnight now in
  let day_expires_at := day_started_at + day in
  [ mkBucket (bucket_key (sp_name spec) PrincipalWindow principal) (sp_principal_requests spec)
      now fixed_expires_at;
    mkBucket (bucket_key (sp_name spec) GlobalWindow EmptyString) (sp_global_requests spec)
      now fixed_expires_at ]
  ++ match sp_principal_daily_requests spec with
     | None => []
     | Some c => [mkBucket (bucket_key (sp_name spec) PrincipalDay principal) c day_started_at day_expires_at]
     end
  ++ match sp_global_daily_requests spec with
     | None => []
     | Some c => [mkBucket (bucket_key (sp_name spec) GlobalDay EmptyString) c day_started_at day_expires_at]
     end.

(** The upsert of [_consume_bucket]: the row it returns, or none when its [WHERE] fails. *)
Definition consume_bucket (policy_name : string) (b : Bucket) (now : time)
    (windows : gmap string RateWindow) : option (RateWindow * gmap string RateWindow) :=
  match windows !! bk_key b with
  | None =>
      let row := mkWindow policy_name (bk_started_at b) (bk_expires_at b) 1 0 in
      Some (row, <[bk_key b := row]> windows)
  | Some r =>
      let expired := rw_expires_at r <=? now in
      if expired || (rw_hits r <? bk_ceiling b) then
        let row := mkWindow policy_name
          (if expired then bk_started_at b else rw_window_started_at r)
          (if expired then bk_expires_at b else rw_expires_at r)
          (if expired then 1 else rw_hits r + 1) (rw_version r + 1) in
        Some (row, <[bk_key b := row]> windows)
      else None
  end.

(** The loop of [consume_pair]: (ceiling - hits, expires_at) per bucket. *)
Fixpoint consume_all (policy_name : string) (bs : list Bucket) (now : time)
    (windows : gmap string RateWindow) : option (list (Z * time) * gmap string RateWindow) :=
  match bs with
  | [] => Some ([], windows)
  | b :: bs' =>
      match consume_bucket policy_name b now windows with
      | None => None
      | Some (row, windows') =>
          match consume_all policy_name bs' now windows' with
          | None => None
          | Some (consumed, windows'') =>
              Some ((bk_ceiling b - rw_hits row, rw_expires_at row) :: consumed, windows'')
          end
      end
  end.

(** The stored rows of the buckets, in bucket order. *)
Definition bucket_rows (bs : list Bucket) (windows : gmap string RateWindow) : list (Bucket * RateWindow) :=
  omap (λ b, match windows !! bk_key b with None => None | Some r => Some (b, r) end) bs.

Definition denied_decision (bs : list Bucket) (now : time) (windows : gmap string RateWindow) : LimitDecision :=
  let blocked := map (λ x, rw_expires_at x.2)
    (filter (λ x, now < rw_expires_at x.2 ∧ bk_ceiling x.1 ≤ rw_hits x.2) (bucket_rows bs windows)) in
  let reset_at := match blocked with [] => now | x :: l => max_of x l end in
  mkDecision false 0 (retry_after reset_at now) reset_at.

Definition consume_pair (spec : LimitSpec) (principal : string) (now : time) (fails : bool)
    : LimitStore → outcome LimitDecision * LimitStore :=
  let bs := buckets spec principal now in
  store_session fails (λ s,
    match consume_all (sp_name spec) bs now (st_windows s) with
    | None => (Ok (denied_decision bs now (st_windows s)), s)
    | Some (consumed, windows) =>
        let '(remaining, reset_at) := limiting_reset consumed in
        (Ok (mkDecision true remaining 0 reset_at), set_st_windows windows s)
    end).

Definition inspect_pair (spec : LimitSpec) (principal : string) (now : time) (s : LimitStore)
    : outcome LimitInspection :=
  let bs := buckets spec principal now in
  let rows := bucket_rows bs (st_windows s) in
  if existsb (λ x, negb (bool_decide (rw_policy_name x.2 = sp_name spec))
                   || (rw_hits x.2 <? 0) || (rw_version x.2 <? 0)) rows
  then Raise (LimitStoreUnavailable "corrupt durable limit state")
  else
    let observed := map (λ x, (Z.max 0 (bk_ceiling x.1 - rw_hits x.2), bk_ceiling x.1, rw_expires_at x.2))
                      (filter (λ x, now < rw_expires_at x.2) rows) in
    let observed_keys := map (λ x, bk_key x.1) (filter (λ x, now < rw_expires_at x.2) rows) in
    let observed := observed ++ map (λ b, (bk_ceiling b, bk_ceiling b, bk_expires_at b))
                      (filter (λ b, bk_key b ∉ observed_keys) bs) in
    match observed with
    | [] => Raise (ValueError "min() iterable argument is empty")
    | x :: rest =>
        let remaining := min_of x.1.1 (map (λ i, i.1.1) rest) in
        match filter (λ i, i.1.1 = remaining) observed with
        | [] => Raise (ValueError "max() iterable argument is empty")
        | y :: ys =>
            Ok (mkInspection (sp_name spec) remaining (min_of y.1.2 (map (λ i, i.1.2) ys))
                  (remaining =? 0) (max_of y.2 (map snd ys)))
        end
    end.
End Limiter.

(** [ORDER BY expires_at, key LIMIT limit]. *)
Definition key_before (x y : time * string) : Prop := x.1 < y.1 ∨ x.1 = y.1 ∧ String.le x.2 y.2.

#[export] Instance key_before_dec : RelDecision key_before.
Proof. intros x y. unfold key_before. apply _. Defined.

Definition oldest {A} (expiry : A → time) (limit : Z) (rows : list (string * A)) : list string :=
  map snd (take (Z.to_nat limit) (merge_sort key_before (map (λ x, (expiry x.2, x.1)) rows))).

(** [DELETE ... WHERE key IN keys], with its row count. *)
Definition delete_keys {A} (keys : list string) (m : gmap string A) : gmap string A :=
  filter (λ x, x.1 ∉ keys) m.

Definition prune_windows (now : time) (limit : Z) (fails : bool) (s : LimitStore) : outcome Z * LimitStore :=
  if limit <? 0 then (Raise (ValueError "limit must be non-negative"), s)
  else if limit =? 0 then (Ok 0, s)
  else store_session fails (λ s,
    let keys := oldest rw_expires_at limit
                  (filter (λ x, rw_expires_at x.2 ≤ now) (map_to_list (st_windows s))) in
    (Ok (Z.of_nat (length keys)), set_st_windows (delete_keys keys (st_windows s)) s)) s.

(** * Leases *)

Definition RELEASED_AT : time := 0.

Record LeaseDecision : Type := mkLeaseDecision {
  lq_acquired : bool;
  lq_owner : string;
  lq_expires_at : time;
  lq_generation : Z;
  lq_retry_after_seconds : Z;
}.

(** [_inspect]. *)
Definition inspect_lease (resource_key : string) (now : time) (s : LimitStore) : LeaseDecision :=
  match st_leases s !! resource_key with
  | None => mkLeaseDecision false EmptyString now 0 0
  | Some r =>
      let held := now <? le_expires_at r in
      mkLeaseDecision held (le_owner r) (le_expires_at r) (le_generation r)
        (if held then retry_after (le_expires_at r) now else 0)
  end.

(** What a refused [acquire] or [renew] reports. *)
Definition refused (d : LeaseDecision) : LeaseDecision :=
  mkLeaseDecision false (lq_owner d) (lq_expires_at d) (lq_generation d) (lq_retry_after_seconds d).

Definition granted (r : ConcurrencyLease) : LeaseDecision :=
  mkLeaseDecision true (le_owner r) (le_expires_at r) (le_generation r) 0.

Definition put_lease (resource_key : string) (r : ConcurrencyLease) (s : LimitStore) : LimitStore :=
  set_st_leases (<[resource_key := r]> (st_leases s)) s.

Definition acquire (resource_key owner : string) (ttl_seconds : Z) (now : time) (fails : bool) (s : LimitStore)
    : outcome LeaseDecision * LimitStore :=
  if ttl_seconds <=? 0 then (Raise (ValueError "ttl_seconds must be positive"), s)
  else store_session fails (λ s,
    let expires_at := now + ttl_seconds * second in
    match st_leases s !! resource_key with
    | None => let r := mkLease owner expires_at 1 in (Ok (granted r), put_lease resource_key r s)
    | Some row =>
        if (le_expires_at row <=? now) || bool_decide (le_owner row = owner)
        then let r := mkLease owner expires_at (le_generation row + 1) in
             (Ok (granted r), put_lease resource_key r s)
        else (Ok (refused (inspect_lease resource_key now s)), s)
    end) s.

(** The [WHERE] of a fenced update: the exact token of a live lease. *)
Definition holds_lease (resource_key owner : string) (generation : Z) (now : time) (s : LimitStore)
    : option ConcurrencyLease :=
  match st_leases s !! resource_key with
  | None => None
  | Some r =>
      if bool_decide (le_owner r = owner) && (le_generation r =? generation) && (now <? le_expires_at r)
      then Some r else None
  end.

Definition renew (resource_key owner : string) (generation ttl_seconds : Z) (now : time) (fails : bool)
    (s : LimitStore) : outcome LeaseDecision * LimitStore :=
  if ttl_seconds <=? 0 then (Raise (ValueError "ttl_seconds must be positive"), s)
  else store_session fails (λ s,
    match holds_lease resource_key owner generation now s with
    | Some r => let r' := mkLease (le_owner r) (now + ttl_seconds * second) (le_generation r) in
                (Ok (granted r'), put_lease resource_key r' s)
    | None => (Ok (refused (inspect_lease resource_key now s)), s)
    end) s.

(** The update both releases run. *)
Definition released (r : ConcurrencyLease) : ConcurrencyLease :=
  mkLease EmptyString RELEASED_AT (le_generation r + 1).

Definition release (resource_key owner : string) (generation : Z) (now : time) (fails : bool)
    : LimitStore → outcome bool * LimitStore :=
  store_session fails (λ s,
    match holds_lease resource_key owner generation now s with
    | Some r => (Ok true, put_lease resource_key (released r) s)
    | None => (Ok false, s)
    end).

Definition prune_leases (now : time) (limit : Z) (fails : bool) (s : LimitStore) : outcome Z * LimitStore :=
  if limit <? 0 then (Raise (ValueError "limit must be non-negative"), s)
  else if limit =? 0 then (Ok 0, s)
  else store_session fails (λ s,
    let keys := oldest le_expires_at limit
                  (filter (λ x, le_expires_at x.2 ≤ now ∧ st_interlocks s !! x.1 = None)
                     (map_to_list (st_leases s))) in
    (Ok (Z.of_nat (length keys)), set_st_leases (delete_keys keys (st_leases s)) s)) s.

(** * Interlocks *)

Definition MUTATION_OPERATIONS : list string :=
  ["order_approve"; "order_reject"; "breaker_reset"; "order_cancel"; "rule_cancel"; "portfolio_reconcile";
   "order_sync"; "panic"; "analysis"; "plan_approve"; "plan_cancel"; "proposal_batch"; "backtest"].
Definition UNCERTAIN_OUTCOMES : list string :=
  ["request_cancelled"; "handler_failed"; "lease_renewal_unproven"; "lease_ownership_lost";
   "panic_settlement_unproven"; "lease_release_unproven"; "interlock_settlement_unproven"].
Definition RECONCILIATION_EVIDENCE : list string :=
  ["broker_truth_reconciled"; "portfolio_truth_reconciled"; "domain_truth_reconciled"].

Record InterlockDecision : Type := mkInterlockDecision {
  id_acquired : bool;
  id_resource_key : string;
  id_owner : string;
  id_generation : Z;
  id_operation : string;
  id_state : string;
  id_outcome_code : string;
  id_worker_finished_at : option time;
}.

(** [_decision]. *)
Definition interlock_decision (resource_key : string) (r : MutationInterlock) (acquired : bool) : InterlockDecision :=
  mkInterlockDecision acquired resource_key (il_owner r) (il_generation r) (il_operation r) (il_state r)
    (il_outcome_code r) (il_worker_finished_at r).

Definition longer_than (n : nat) (s : string) : bool := (n <? String.length s)%nat.

(** [_validate_identity]. *)
Definition validate_identity (resource_key owner : string) (generation : Z) : outcome () :=
  if negb (nonempty resource_key) || longer_than 128 resource_key
  then Raise (ValueError "invalid interlock resource key")
  else if negb (nonempty owner) || longer_than 64 owner then Raise (ValueError "invalid interlock owner")
  else if generation <? 0 then Raise (ValueError "invalid interlock generation")
  else Ok ().

Definition put_interlock (resource_key : string) (r : MutationInterlock) (s : LimitStore) : LimitStore :=
  set_st_interlocks (<[resource_key := r]> (st_interlocks s)) s.
Definition drop_interlock (resource_key : string) (s : LimitStore) : LimitStore :=
  set_st_interlocks (delete resource_key (st_interlocks s)) s.

(** A method that validates the identity and then runs one transaction. *)
Definition checked {A} (m : outcome ()) (body : LimitStore → outcome A * LimitStore) (s : LimitStore)
    : outcome A * LimitStore :=
  match m with Raise e => (Raise e, s) | Ok _ => body s end.

Definition claim (resource_key owner : string) (generation : Z) (operation : string) (now : time) (fails : bool)
    : LimitStore → outcome InterlockDecision * LimitStore :=
  checked (validate_identity resource_key owner generation ≫= λ _,
           if bool_decide (operation ∈ MUTATION_OPERATIONS) then Ok ()
           else Raise (ValueError "unsupported mutation operation"))
    (store_session fails (λ s,
      match st_interlocks s !! resource_key with
      | Some existing => (Ok (interlock_decision resource_key existing false), s)
      | None =>
          let r := mkInterlock owner generation operation "active" EmptyString None now now in
          (Ok (interlock_decision resource_key r true), put_interlock resource_key r s)
      end)).

Definition inspect_interlock (resource_key : string) (s : LimitStore) : outcome (option InterlockDecision) :=
  if negb (nonempty resource_key) || longer_than 128 resource_key
  then Raise (ValueError "invalid interlock resource key")
  else Ok (option_map (λ r, interlock_decision resource_key r false) (st_interlocks s !! resource_key)).

(** The row with the exact token. *)
Definition owned_interlock (resource_key owner : string) (generation : Z) (s : LimitStore) : option MutationInterlock :=
  match st_interlocks s !! resource_key with
  | None => None
  | Some r => if bool_decide (il_owner r = owner) && (il_generation r =? generation) then Some r else None
  end.

Definition settle (resource_key owner : string) (generation : Z) (outcome_code : string) (now : time) (fails : bool)
    : LimitStore → outcome bool * LimitStore :=
  checked (validate_identity resource_key owner generation ≫= λ _,
           if bool_decide (outcome_code = "handler_completed") then Ok ()
           else Raise (ValueError "unsupported settled outcome"))
    (store_session fails (λ s,
      match owned_interlock resource_key owner generation s with
      | Some r =>
          if bool_decide (il_state r = "active")
          then (Ok true, put_interlock resource_key
                  (mkInterlock (il_owner r) (il_generation r) (il_operation r) "settled" outcome_code (Some now)
                     (il_created_at r) now) s)
          else (Ok false, s)
      | None => (Ok false, s)
      end)).

Definition mark_uncertain (resource_key owner : string) (generation : Z) (outcome_code : string)
    (worker_finished : bool) (now : time) (fails : bool) : LimitStore → outcome bool * LimitStore :=
  checked (validate_identity resource_key owner generation ≫= λ _,
           if bool_decide (outcome_code ∈ UNCERTAIN_OUTCOMES) then Ok ()
           else Raise (ValueError "unsupported uncertain outcome"))
    (store_session fails (λ s,
      match owned_interlock resource_key owner generation s with
      | None => (Ok false, s)
      | Some r =>
          (Ok true, put_interlock resource_key
             (mkInterlock (il_owner r) (il_generation r) (il_operation r) "uncertain" outcome_code
                (if worker_finished then Some now else il_worker_finished_at r) (il_created_at r) now) s)
      end)).

Definition release_settled (resource_key : string) (lease_resource_key : option string) (owner : string)
    (generation : Z) (now : time) (fails : bool) : LimitStore → outcome bool * LimitStore :=
  let lease_key := match lease_resource_key with
                   | Some k => if nonempty k then k else resource_key
                   | None => resource_key
                   end in
  checked (validate_identity resource_key owner generation ≫= λ _,
           if negb (nonempty lease_key) || longer_than 128 lease_key
           then Raise (ValueError "invalid lease resource key") else Ok ())
    (store_session fails (λ s,
      match holds_lease lease_key owner generation now s with
      | None => (Ok false, s)
      | Some lease =>
          match owned_interlock resource_key owner generation s with
          | None => (Ok false, s)
          | Some r =>
              if bool_decide (il_state r = "settled") && bool_decide (il_outcome_code r = "handler_completed")
                 && bool_decide (il_worker_finished_at r ≠ None)
              then (Ok true, drop_interlock resource_key (put_lease lease_key (released lease) s))
              else (Ok false, s)
          end
      end)).

Definition release_expired_backtest (resource_key owner : string) (generation : Z) (now : time) (fails : bool)
    : LimitStore → outcome bool * LimitStore :=
  checked (validate_identity resource_key owner generation)
    (store_session fails (λ s,
      match st_leases s !! resource_key, owned_interlock resource_key owner generation s with
      | Some lease, Some r =>
          if bool_decide (le_owner lease = owner) && (le_generation lease =? generation)
             && (le_expires_at lease <=? now) && bool_decide (il_operation r = "backtest")
             && bool_decide (il_state r = "active") && bool_decide (il_worker_finished_at r = None)
          then (Ok true, drop_interlock resource_key s)
          else (Ok false, s)
      | _, _ => (Ok false, s)
      end)).

(** The table's [CHECK] constraints. *)
Definition interlock_check (r : MutationInterlock) : bool :=
  (0 <=? il_generation r)
  && bool_decide (il_operation r ∈ MUTATION_OPERATIONS)
  && bool_decide (il_outcome_code r ∈ EmptyString :: "handler_completed" :: UNCERTAIN_OUTCOMES)
  && (bool_decide (il_state r = "active" ∧ il_outcome_code r = EmptyString ∧ il_worker_finished_at r = None)
      || bool_decide (il_state r = "settled" ∧ il_outcome_code r = "handler_completed"
                      ∧ il_worker_finished_at r ≠ None)
      || bool_decide (il_state r = "uncertain" ∧ il_outcome_code r ∉ [EmptyString; "handler_completed"])).

Section Reconcile.
Context `{Digest}.

Definition reconcile_audit (resource_key actor request_id evidence_code : string) (now : time) : AuditEvent :=
  mkAuditEvent actor "mutation_interlock.reconcile" "mutation_interlock" (sha256_hex resource_key) request_id
    EmptyString evidence_code "cleared" 0 (JObj []) (Some now).

Definition reconcile_clear (resource_key owner : string) (generation : Z) (actor request_id evidence_code : string)
    (worker_termination_proven : bool) (now : time) (fails : bool) : LimitStore → outcome bool * LimitStore :=
  checked (validate_identity resource_key owner generation ≫= λ _,
           if bool_decide (evidence_code ∉ RECONCILIATION_EVIDENCE)
           then Raise (ValueError "unsupported reconciliation evidence")
           else if negb (nonempty actor) || longer_than 128 actor || negb (nonempty request_id)
                   || longer_than 64 request_id
           then Raise (ValueError "invalid reconciliation audit identity") else Ok ())
    (store_session fails (λ s,
      match owned_interlock resource_key owner generation s with
      | None => (Ok false, s)
      | Some r =>
          if bool_decide (il_worker_finished_at r = None) && negb worker_termination_proven
          then (Ok false, s)
          else (Ok true, drop_interlock resource_key
                  (set_st_audit (st_audit s ++ [reconcile_audit resource_key actor request_id evidence_code now]) s))
      end)).
End Reconcile.

(** * Maintenance *)

Record PruningPosture : Type := mkPruning {
  pp_source : string;
  pp_attempted_at : option time;
  pp_limit : Z;
  pp_rate_windows_deleted : Z;
  pp_leases_deleted : Z;
  pp_failed_stores : list string;
}.

Definition initial_posture : PruningPosture := mkPruning "not_run" None 0 0 0 [].

(** The status of [as_dict]. *)
Definition pruning_status (p : PruningPosture) : string :=
  match pp_attempted_at p with
  | None => "not_run"
  | Some _ => if bool_decide (pp_failed_stores p = []) then "current" else "degraded"
  end.

(** [prune_once]; the posture it returns is the one it stores.  Only
    [LimitStoreUnavailable] is caught. *)
Definition prune_once (source : string) (limit : Z) (now : time) (windows_fail leases_fail : bool)
    (s : LimitStore) : outcome PruningPosture * LimitStore :=
  if blank source then (Raise (ValueError "pruning source must be non-empty"), s)
  else if limit <? 0 then (Raise (ValueError "limit must be non-negative"), s)
  else
    let attempt (r : outcome Z) : outcome (Z * bool) :=
      match r with
      | Ok n => Ok (n, false)
      | Raise (LimitStoreUnavailable _) => Ok (0, true)
      | Raise e => Raise e
      end in
    let '(w, s1) := prune_windows now limit windows_fail s in
    match attempt w with
    | Raise e => (Raise e, s1)
    | Ok (windows_deleted, windows_failed) =>
        let '(l, s2) := prune_leases now limit leases_fail s1 in
        match attempt l with
        | Raise e => (Raise e, s2)
        | Ok (leases_deleted, leases_failed) =>
            (Ok (mkPruning source (Some now) limit windows_deleted leases_deleted
                   ((if windows_failed : bool then ["rate_windows"] else [])
                    ++ (if leases_failed : bool then ["leases"] else []))), s2)
        end
    end.
