(* ===== verification/LimitsProofs.v ===== *)
(** Correctness of the durable limits: windows bound what they admit, leases exclude and
    fence, interlocks outlive their lease until somebody accounts for them. *)

From S2P Require Import Prelude PyDecimal BrokerModels Breakers Pnl Database Lifecycle Limits.
From Stdlib Require Import Ascii Lia.
Local Open Scope Z_scope.

(** * Bucket keys *)

Section Keys.
Context `{Digest}.

(** The material hashed into a bucket key determines its parts, when the policy name has no
    NUL. *)
Lemma bucket_material_inj n1 k1 p1 n2 k2 p2 :
  contains_char "000"%char n1 = false → contains_char "000"%char n2 = false →
  n1 +:+ nul +:+ bucket_kind_value k1 +:+ nul +:+ p1 = n2 +:+ nul +:+ bucket_kind_value k2 +:+ nul +:+ p2 →
  n1 = n2 ∧ k1 = k2 ∧ p1 = p2.
Proof.
  intros H1 H2 E.
  change (n1 +:+ String "000" (bucket_kind_value k1 +:+ String "000" p1)
          = n2 +:+ String "000" (bucket_kind_value k2 +:+ String "000" p2)) in E.
  apply (f_equal (partition_char "000"%char)) in E. rewrite !partition_char_app in E by done.
  injection E as -> E. split; [done|].
  apply (f_equal (partition_char "000"%char)) in E. rewrite !partition_char_app in E by (by destruct k1, k2).
  injection E as Ek ->. split; [|done]. by destruct k1, k2.
Qed.

(** Keys are distinct as far as the digest is. *)
Context `{!Inj (=) (=) sha256_hex}.

Lemma bucket_key_inj n1 k1 p1 n2 k2 p2 :
  contains_char "000"%char n1 = false → contains_char "000"%char n2 = false →
  bucket_key n1 k1 p1 = bucket_key n2 k2 p2 → n1 = n2 ∧ k1 = k2 ∧ p1 = p2.
Proof. intros H1 H2 E. unfold bucket_key in E. apply (inj sha256_hex) in E. by apply bucket_material_inj in E. Qed.

Lemma buckets_NoDup spec principal now :
  contains_char "000"%char (sp_name spec) = false → NoDup (map bk_key (buckets spec principal now)).
Proof.
  intros Hn. unfold buckets.
  destruct (sp_principal_daily_requests spec) as [c1|], (sp_global_daily_requests spec) as [c2|]; simpl;
    repeat (constructor; [rewrite ?elem_of_cons, ?elem_of_nil; intros Hin;
      repeat match goal with H : _ ∨ _ |- _ => destruct H | H : bucket_key _ _ _ = bucket_key _ _ _ |- _ =>
        apply bucket_key_inj in H as (_ & ? & _); [done|done|done] end; done|]); constructor.
Qed.

End Keys.

(** * What one call does to the windows *)

(** A bucket admits one more request. *)
Definition has_room (now : time) (windows : gmap string RateWindow) (b : Bucket) : Prop :=
  match windows !! bk_key b with
  | None => True
  | Some r => rw_expires_at r ≤ now ∨ rw_hits r < bk_ceiling b
  end.

#[export] Instance has_room_dec now windows b : Decision (has_room now windows b).
Proof. unfold has_room. destruct (windows !! bk_key b); apply _. Defined.

(** The row after an admitted request: a fresh window, or one more hit in the running one. *)
Definition hit_row (policy : string) (now : time) (windows : gmap string RateWindow) (b : Bucket) : RateWindow :=
  match windows !! bk_key b with
  | None => mkWindow policy (bk_started_at b) (bk_expires_at b) 1 0
  | Some r =>
      if rw_expires_at r <=? now
      then mkWindow policy (bk_started_at b) (bk_expires_at b) 1 (rw_version r + 1)
      else mkWindow policy (rw_window_started_at r) (rw_expires_at r) (rw_hits r + 1) (rw_version r + 1)
  end.

Lemma consume_bucket_eq policy b now windows :
  consume_bucket policy b now windows
  = if decide (has_room now windows b)
    then Some (hit_row policy now windows b, <[bk_key b := hit_row policy now windows b]> windows) else None.
Proof.
  destruct (decide (has_room now windows b)) as [Hr|Hr]; unfold consume_bucket, has_room, hit_row in *;
    destruct (windows !! bk_key b) as [r|]; try done;
    destruct (Z.leb_spec (rw_expires_at r) now), (Z.ltb_spec (rw_hits r) (bk_ceiling b)); try done; lia.
Qed.

Lemma has_room_insert now windows b k row :
  bk_key b ≠ k → has_room now (<[k := row]> windows) b ↔ has_room now windows b.
Proof. intros Hne. unfold has_room. by rewrite lookup_insert_ne. Qed.

Lemma hit_row_insert policy now windows b k row :
  bk_key b ≠ k → hit_row policy now (<[k := row]> windows) b = hit_row policy now windows b.
Proof. intros Hne. unfold hit_row. by rewrite lookup_insert_ne. Qed.

(** On distinct keys the loop admits exactly when every bucket has room, and then every
    bucket takes one hit and nothing else changes. *)
Lemma consume_all_spec policy now bs : ∀ windows,
  NoDup (map bk_key bs) →
  match consume_all policy bs now windows with
  | Some (consumed, windows') =>
      Forall (has_room now windows) bs
      ∧ (∀ b, b ∈ bs → windows' !! bk_key b = Some (hit_row policy now windows b))
      ∧ (∀ k, k ∉ map bk_key bs → windows' !! k = windows !! k)
      ∧ consumed = map (λ b, (bk_ceiling b - rw_hits (hit_row policy now windows b),
                              rw_expires_at (hit_row policy now windows b))) bs
  | None => Exists (λ b, ¬ has_room now windows b) bs
  end.
Proof.
  induction bs as [|b bs IH]; intros windows Hnd; [cbn; split_and!; [done|by intros ? ?%elem_of_nil|done|done]|].
  cbn [map] in Hnd. apply NoDup_cons in Hnd as [Hb Hnd]. cbn [consume_all]. rewrite consume_bucket_eq.
  destruct (decide (has_room now windows b)) as [Hr|Hr]; [|by constructor].
  set (row := hit_row policy now windows b). specialize (IH (<[bk_key b := row]> windows) Hnd).
  assert (∀ b', b' ∈ bs → bk_key b' ≠ bk_key b) as Hne.
  { intros b' Hb' E. apply Hb. rewrite <- E. by apply list_elem_of_fmap_2. }
  destruct (consume_all policy bs now _) as [[consumed windows']|].
  - destruct IH as (Hall & Hhit & Hother & ->). split_and!.
    + constructor; [done|]. rewrite Forall_forall in Hall |- *. intros b' Hb'.
      by rewrite <- (has_room_insert now windows b' (bk_key b) row) by (by apply Hne); apply Hall.
    + intros b' [->|Hb']%elem_of_cons; [by rewrite Hother by done; apply lookup_insert_eq|].
      rewrite Hhit by done. by rewrite hit_row_insert by (by apply Hne).
    + intros k Hk. cbn [map] in Hk. apply not_elem_of_cons in Hk as [Hk1 Hk2]. rewrite Hother by done. by rewrite lookup_insert_ne.
    + cbn [map]. f_equal. apply map_ext_in. intros b' Hb'. apply list_elem_of_In in Hb'.
      by rewrite hit_row_insert by (by apply Hne).
  - apply Exists_cons_tl. apply Exists_exists in IH as (b' & Hb' & Hno). apply Exists_exists. exists b'. split; [done|].
    by rewrite <- (has_room_insert now windows b' (bk_key b) row) by (by apply Hne).
Qed.

Lemma min_of_le x l y : y ∈ x :: l → min_of x l ≤ y.
Proof.
  unfold min_of. intros Hy. induction l as [|z l IH]; simpl.
  - apply list_elem_of_singleton in Hy. lia.
  - apply elem_of_cons in Hy as [->|[->|Hy]%elem_of_cons].
    + etrans; [apply Z.le_min_r|]. apply IH. left.
    + apply Z.le_min_l.
    + etrans; [apply Z.le_min_r|]. apply IH. by right.
Qed.

Lemma max_of_ge x l y : y ∈ x :: l → y ≤ max_of x l.
Proof.
  unfold max_of. intros Hy. induction l as [|z l IH]; simpl.
  - apply list_elem_of_singleton in Hy. lia.
  - apply elem_of_cons in Hy as [->|[->|Hy]%elem_of_cons].
    + etrans; [|apply Z.le_max_r]. apply IH. left.
    + apply Z.le_max_l.
    + etrans; [|apply Z.le_max_r]. apply IH. by right.
Qed.

Lemma max_of_elem x l : max_of x l ∈ x :: l.
Proof.
  unfold max_of. induction l as [|z l IH]; simpl; [left|].
  destruct (Z.max_spec z (foldr Z.max x l)) as [[_ ->]|[_ ->]].
  - apply elem_of_cons in IH as [->|IH]; [left|by right; right].
  - by right; left.
Qed.

Lemma limiting_reset_min items i : i ∈ items → (limiting_reset items).1 ≤ i.1.
Proof.
  destruct items as [|x rest]; [by intros ?%elem_of_nil|]. intros Hi. unfold limiting_reset.
  assert (min_of x.1 (map fst rest) ≤ i.1) as Hle.
  { apply min_of_le. apply (list_elem_of_fmap_2 fst) in Hi. exact Hi. }
  destruct (filter _ (x :: rest)); exact Hle.
Qed.

(** A denial names the instant at which every exhausted bucket is open again. *)
Lemma denied_decision_spec bs now windows :
  Exists (λ b, ¬ has_room now windows b) bs →
  let d := denied_decision bs now windows in
  ld_allowed d = false ∧ ld_remaining d = 0 ∧ now < ld_reset_at d
  ∧ ld_retry_after_seconds d = retry_after (ld_reset_at d) now
  ∧ Forall (has_room (ld_reset_at d) windows) bs.
Proof.
  intros Hex. unfold denied_decision. cbv zeta. cbn [ld_allowed ld_remaining ld_reset_at ld_retry_after_seconds].
  set (blocked := map _ (filter _ _)).
  assert (∀ b r, b ∈ bs → windows !! bk_key b = Some r → now < rw_expires_at r → bk_ceiling b ≤ rw_hits r →
            rw_expires_at r ∈ blocked) as Hin.
  { intros b r Hb Hr H1 H2. apply list_elem_of_fmap. exists (b, r). split; [done|].
    apply list_elem_of_filter. split; [done|]. apply list_elem_of_omap. exists b. by rewrite Hr. }
  assert (∀ t, t ∈ blocked → now < t) as Hlt.
  { intros t (x & -> & [[? _] _]%list_elem_of_filter)%list_elem_of_fmap. done. }
  apply Exists_exists in Hex as (b0 & Hb0 & Hno). unfold has_room in Hno.
  destruct (windows !! bk_key b0) as [r0|] eqn:Hr0; [|tauto].
  pose proof (Hin b0 r0 Hb0 Hr0 ltac:(lia) ltac:(lia)) as Hin0.
  destruct blocked as [|x l]; [by apply elem_of_nil in Hin0|].
  split_and!; try done; [apply Hlt, max_of_elem|].
  apply Forall_forall. intros b Hb. unfold has_room. destruct (windows !! bk_key b) as [r|] eqn:Hr; [|done].
  destruct (decide (rw_hits r < bk_ceiling b)); [by right|].
  destruct (decide (rw_expires_at r ≤ now)); [left; pose proof (Hlt _ (max_of_elem x l)); lia|].
  left. apply max_of_ge. apply (Hin b r); [done|done|lia|lia].
Qed.

Section Consume.
Context `{Digest} `{!Inj (=) (=) sha256_hex}.

(** Consuming is all or nothing.  A request is allowed exactly when each of its
    buckets has room, absent, expired or under its ceiling; then each bucket takes one hit,
    in its running window or a fresh one, every other row is untouched, and the remaining
    count is within every bucket's.  A denied request changes nothing and names an instant in
    the future at which all of its buckets have room again. *)
Theorem consume_pair_spec spec principal now s :
  contains_char "000"%char (sp_name spec) = false →
  let bs := buckets spec principal now in
  let '(r, s') := consume_pair spec principal now false s in
  ∃ d, r = Ok d
    ∧ (ld_allowed d = true ↔ Forall (has_room now (st_windows s)) bs)
    ∧ (ld_allowed d = true →
         (∀ b, b ∈ bs → st_windows s' !! bk_key b = Some (hit_row (sp_name spec) now (st_windows s) b)
                        ∧ ld_remaining d ≤ bk_ceiling b - rw_hits (hit_row (sp_name spec) now (st_windows s) b))
         ∧ (∀ k, k ∉ map bk_key bs → st_windows s' !! k = st_windows s !! k)
         ∧ st_leases s' = st_leases s ∧ st_interlocks s' = st_interlocks s ∧ st_audit s' = st_audit s)
    ∧ (ld_allowed d = false →
         s' = s ∧ now < ld_reset_at d ∧ ld_retry_after_seconds d = retry_after (ld_reset_at d) now
         ∧ Forall (has_room (ld_reset_at d) (st_windows s)) bs).
Proof.
  intros Hn bs. unfold consume_pair, store_session. cbv zeta. fold bs.
  pose proof (consume_all_spec (sp_name spec) now bs (st_windows s) (buckets_NoDup _ _ _ Hn)) as Hc.
  destruct (consume_all _ _ _ _) as [[consumed windows]|].
  - destruct Hc as (Hall & Hhit & Hother & Hcons). pose proof (limiting_reset_min consumed) as Hmin.
    destruct (limiting_reset consumed) as [rem reset]. eexists. split; [reflexivity|]. cbn.
    split_and!; try done. intros _. split_and!; try done. intros b Hb. split; [by apply Hhit|].
    apply (Hmin (bk_ceiling b - rw_hits (hit_row (sp_name spec) now (st_windows s) b),
                 rw_expires_at (hit_row (sp_name spec) now (st_windows s) b))).
    rewrite Hcons. by apply list_elem_of_fmap; exists b.
  - destruct (denied_decision_spec _ _ _ Hc) as (Hd & _ & Hlt & Hra & Hroom).
    eexists. split; [reflexivity|]. rewrite Hd. split_and!; try done. split; [done|]. intros Hall.
    apply Exists_exists in Hc as (b & Hb & Hno). rewrite Forall_forall in Hall. by destruct Hno; apply Hall.
Qed.

End Consume.

(** * Runs of the policy store *)

Inductive limit_op : Type :=
| OConsume (policy principal : string) (now : time) (fails : bool)
| OPruneWindows (now : time) (limit : Z) (fails : bool)
| OAcquire (key owner : string) (ttl : Z) (now : time) (fails : bool)
| ORenew (key owner : string) (generation ttl : Z) (now : time) (fails : bool)
| ORelease (key owner : string) (generation : Z) (now : time) (fails : bool)
| OPruneLeases (now : time) (limit : Z) (fails : bool)
| OClaim (key owner : string) (generation : Z) (operation : string) (now : time) (fails : bool)
| OSettle (key owner : string) (generation : Z) (code : string) (now : time) (fails : bool)
| OMarkUncertain (key owner : string) (generation : Z) (code : string) (finished : bool) (now : time) (fails : bool)
| OReleaseSettled (key : string) (lease_key : option string) (owner : string) (generation : Z) (now : time) (fails : bool)
| OReleaseBacktest (key owner : string) (generation : Z) (now : time) (fails : bool)
| OReconcile (key owner : string) (generation : Z) (actor request_id evidence : string) (terminated : bool)
    (now : time) (fails : bool).

Definition op_now (op : limit_op) : time :=
  match op with
  | OConsume _ _ t _ | OPruneWindows t _ _ | OAcquire _ _ _ t _ | ORenew _ _ _ _ t _ | ORelease _ _ _ t _
  | OPruneLeases t _ _ | OClaim _ _ _ _ t _ | OSettle _ _ _ _ t _ | OMarkUncertain _ _ _ _ _ t _
  | OReleaseSettled _ _ _ _ t _ | OReleaseBacktest _ _ _ t _ | OReconcile _ _ _ _ _ _ _ t _ => t
  end.

(** The clock of a run does not go back. *)
Fixpoint ordered_from (now : time) (ops : list limit_op) : Prop :=
  match ops with [] => True | op :: ops' => now ≤ op_now op ∧ ordered_from (op_now op) ops' end.

Lemma oldest_elem {A} (expiry : A → time) limit rows k :
  k ∈ oldest expiry limit rows → ∃ x, (k, x) ∈ rows.
Proof.
  unfold oldest. intros ((e & k') & -> & Hin)%list_elem_of_fmap. apply elem_of_take in Hin as (i & Hi & _).
  apply list_elem_of_lookup_2 in Hi. rewrite merge_sort_Permutation in Hi.
  apply list_elem_of_fmap in Hi as ([k x] & [= -> ->] & Hin). by exists x.
Qed.

(** Pruning removes a row only when its filter selected it. *)
Lemma delete_oldest_lookup {A} (expiry : A → time) (P : string * A → Prop) `{∀ x, Decision (P x)} limit
    (m : gmap string A) k :
  let m' := delete_keys (oldest expiry limit (filter P (map_to_list m))) m in
  m' !! k = m !! k ∨ m' !! k = None ∧ ∃ r, m !! k = Some r ∧ P (k, r).
Proof.
  cbv zeta. set (keys := oldest _ _ _). unfold delete_keys. rewrite map_lookup_filter.
  destruct (m !! k) as [r|] eqn:Hr; [|by left]. destruct (decide (k ∈ keys)) as [Hk|Hk].
  - right. split; [cbn; by rewrite option_guard_False by (cbn; tauto)|]. exists r. split; [done|].
    apply oldest_elem in Hk as (x & [HP Hx]%list_elem_of_filter). apply elem_of_map_to_list in Hx. by simplify_eq.
  - left. cbn. by rewrite option_guard_True.
Qed.

Section Runs.
Context `{Digest} (policy : string → LimitSpec).

Definition run_limit_op (op : limit_op) (s : LimitStore) : LimitStore :=
  match op with
  | OConsume n p t f => (consume_pair (policy n) p t f s).2
  | OPruneWindows t l f => (prune_windows t l f s).2
  | OAcquire k o ttl t f => (acquire k o ttl t f s).2
  | ORenew k o g ttl t f => (renew k o g ttl t f s).2
  | ORelease k o g t f => (release k o g t f s).2
  | OPruneLeases t l f => (prune_leases t l f s).2
  | OClaim k o g x t f => (claim k o g x t f s).2
  | OSettle k o g c t f => (settle k o g c t f s).2
  | OMarkUncertain k o g c w t f => (mark_uncertain k o g c w t f s).2
  | OReleaseSettled k lk o g t f => (release_settled k lk o g t f s).2
  | OReleaseBacktest k o g t f => (release_expired_backtest k o g t f s).2
  | OReconcile k o g a q e w t f => (reconcile_clear k o g a q e w t f s).2
  end.

Definition run_limit_ops (ops : list limit_op) (s : LimitStore) : LimitStore :=
  foldl (λ s op, run_limit_op op s) s ops.

(** ** Admissions *)

(** The call is allowed and counts against bucket [k]. *)
Definition admitted (k : string) (op : limit_op) (s : LimitStore) : bool :=
  match op with
  | OConsume n p t f =>
      match (consume_pair (policy n) p t f s).1 with
      | Ok d => ld_allowed d && bool_decide (k ∈ map bk_key (buckets (policy n) p t))
      | Raise _ => false
      end
  | _ => false
  end.

Fixpoint admissions (k : string) (ops : list limit_op) (s : LimitStore) : Z :=
  match ops with
  | [] => 0
  | op :: ops' => (if admitted k op s then 1 else 0) + admissions k ops' (run_limit_op op s)
  end.

(** ** What a call does to one window *)

Lemma other_op_windows op s :
  (∀ n p t f, op ≠ OConsume n p t f) → (∀ t l f, op ≠ OPruneWindows t l f) →
  st_windows (run_limit_op op s) = st_windows s.
Proof.
  intros H1 H2. destruct op; try (by destruct (H1 policy0 principal now fails)); try (by destruct (H2 now limit fails)); simpl;
    unfold acquire, renew, release, prune_leases, claim, settle, mark_uncertain, release_settled,
      release_expired_backtest, reconcile_clear, checked, store_session.
  all: repeat match goal with |- context [match ?x with _ => _ end] => destruct x end; done.
Qed.

(** The most a bucket can still admit before [hi], by its row. *)
Definition allowance (c : Z) (hi now : time) (row : option RateWindow) : Z :=
  match row with
  | None => c
  | Some r => if rw_expires_at r <=? now then c
              else (c - rw_hits r) + (if rw_expires_at r <? hi then c else 0)
  end.

(** Every call that uses bucket [k] agrees on its ceiling and on how long its window lasts. *)
Definition uses (k : string) (c : Z) (deadline : time → time) (op : limit_op) : Prop :=
  match op with
  | OConsume n p t _ =>
      contains_char "000"%char (sp_name (policy n)) = false
      ∧ Forall (λ b, bk_key b = k → bk_ceiling b = c ∧ bk_expires_at b = deadline t) (buckets (policy n) p t)
  | _ => True
  end.

Definition within (c : Z) (row : option RateWindow) : Prop := ∀ r, row = Some r → 0 ≤ rw_hits r ≤ c.

Context `{!Inj (=) (=) sha256_hex}.

(** One call, seen from bucket [k]: unchanged and not admitted, expired and pruned, or one
    admitted hit that had room. *)
Lemma run_op_window k c deadline op s :
  uses k c deadline op →
  let row := st_windows s !! k in
  let row' := st_windows (run_limit_op op s) !! k in
  (row' = row ∧ admitted k op s = false)
  ∨ (row' = None ∧ admitted k op s = false ∧ ∃ r, row = Some r ∧ rw_expires_at r ≤ op_now op)
  ∨ (∃ r', row' = Some r' ∧ admitted k op s = true
       ∧ match row with
         | Some r => if rw_expires_at r <=? op_now op
                     then rw_hits r' = 1 ∧ rw_expires_at r' = deadline (op_now op)
                     else rw_hits r < c ∧ rw_hits r' = rw_hits r + 1 ∧ rw_expires_at r' = rw_expires_at r
         | None => rw_hits r' = 1 ∧ rw_expires_at r' = deadline (op_now op)
         end).
Proof.
  intros Hu. destruct op; try (left; split; [|done]; by rewrite other_op_windows by done).
  - destruct Hu as [Hn Hb]. set (sp := policy policy0) in *. cbn [run_limit_op admitted op_now]. fold sp.
    destruct fails; [by left|]. unfold consume_pair, store_session. cbv zeta.
    pose proof (consume_all_spec (sp_name sp) now _ (st_windows s) (buckets_NoDup sp principal now Hn)) as Hc.
    destruct (consume_all _ _ _ _) as [[consumed windows]|]; [|by left].
    destruct Hc as (Hroom & Hhit & Hother & _). destruct (limiting_reset consumed) as [rem reset]. cbn.
    destruct (decide (k ∈ map bk_key (buckets sp principal now))) as [Hk|Hk].
    2: { left. rewrite bool_decide_false by done. split; [by apply Hother|done]. }
    right. right. rewrite bool_decide_true by done. apply list_elem_of_fmap in Hk as (b & -> & Hin).
    eexists. split_and!; [by apply Hhit|done|].
    rewrite Forall_forall in Hb, Hroom. destruct (Hb b Hin eq_refl) as [<- <-]. specialize (Hroom b Hin).
    unfold has_room in Hroom. unfold hit_row. destruct (st_windows s !! bk_key b) as [r0|]; [|done].
    destruct (Z.leb_spec (rw_expires_at r0) now); simpl; [done|]. split_and!; try done. lia.
  - cbn [run_limit_op admitted op_now]. unfold prune_windows, store_session.
    destruct (limit <? 0); [by left|]. destruct (limit =? 0); [by left|]. destruct fails; [by left|]. cbn [snd st_windows set_st_windows].
    destruct (delete_oldest_lookup rw_expires_at (λ x, rw_expires_at x.2 ≤ now) limit (st_windows s) k)
      as [->|(-> & r & -> & Hr)]; [by left|right; left]. split_and!; try done. by exists r.
Qed.

Lemma allowance_step k c deadline hi now op s :
  1 ≤ c → (∀ t t', t ≤ t' → deadline t ≤ deadline t') → uses k c deadline op →
  now ≤ op_now op → op_now op < hi → hi ≤ deadline now →
  within c (st_windows s !! k) →
  within c (st_windows (run_limit_op op s) !! k)
  ∧ (if admitted k op s then 1 else 0)
    + allowance c hi (op_now op) (st_windows (run_limit_op op s) !! k)
    ≤ allowance c hi now (st_windows s !! k).
Proof.
  intros Hc Hmono Hu Hnow Hhi Hdl Hw.
  pose proof (Hmono now (op_now op) Hnow) as Hd.
  destruct (run_op_window k c deadline op s Hu) as [[-> ->]|[(-> & -> & r & Hr & He)|(r' & -> & -> & Hrow)]].
  - split; [done|]. unfold allowance. destruct (st_windows s !! k) as [r|]; [|lia]. specialize (Hw r eq_refl).
    destruct (Z.leb_spec (rw_expires_at r) now), (Z.leb_spec (rw_expires_at r) (op_now op)),
      (Z.ltb_spec (rw_expires_at r) hi); lia.
  - split; [by intros ? ?|]. rewrite Hr in *. specialize (Hw r eq_refl). unfold allowance.
    destruct (Z.leb_spec (rw_expires_at r) now), (Z.ltb_spec (rw_expires_at r) hi); lia.
  - unfold allowance, within in *. destruct (st_windows s !! k) as [r|].
    + specialize (Hw r eq_refl). destruct (Z.leb_spec (rw_expires_at r) (op_now op)) as [He|He].
      * destruct Hrow as [H1 H2]. split; [intros ? [= <-]; lia|]. rewrite H1, H2.
        destruct (Z.leb_spec (deadline (op_now op)) (op_now op)), (Z.ltb_spec (deadline (op_now op)) hi),
          (Z.leb_spec (rw_expires_at r) now), (Z.ltb_spec (rw_expires_at r) hi); lia.
      * destruct Hrow as (H0 & H1 & H2). split; [intros ? [= <-]; lia|]. rewrite H1, H2.
        destruct (Z.leb_spec (rw_expires_at r) (op_now op)), (Z.leb_spec (rw_expires_at r) now),
          (Z.ltb_spec (rw_expires_at r) hi); lia.
    + destruct Hrow as [H1 H2]. split; [intros ? [= <-]; lia|]. rewrite H1, H2.
      destruct (Z.leb_spec (deadline (op_now op)) (op_now op)), (Z.ltb_spec (deadline (op_now op)) hi); lia.
Qed.

Lemma admissions_allowance k c deadline hi ops : ∀ now s,
  1 ≤ c → (∀ t t', t ≤ t' → deadline t ≤ deadline t') → Forall (uses k c deadline) ops →
  ordered_from now ops → Forall (λ op, op_now op < hi) ops → hi ≤ deadline now →
  within c (st_windows s !! k) →
  admissions k ops s ≤ Z.max 0 (allowance c hi now (st_windows s !! k)).
Proof.
  induction ops as [|op ops IH]; intros now s Hc Hmono Hu Hord Hhi Hdl Hw; [simpl; lia|].
  apply Forall_cons in Hu as [Hu Hus]. apply Forall_cons in Hhi as [Hh Hhs]. destruct Hord as [Hle Hord].
  destruct (allowance_step k c deadline hi now op s Hc Hmono Hu Hle Hh Hdl Hw) as [Hw' Hstep].
  assert (0 ≤ allowance c hi (op_now op) (st_windows (run_limit_op op s) !! k)) as Hpos.
  { unfold allowance. destruct (st_windows (run_limit_op op s) !! k) as [r|]; [|lia]. specialize (Hw' r eq_refl).
    repeat case_match; lia. }
  pose proof (Hmono now (op_now op) Hle).
  specialize (IH (op_now op) (run_limit_op op s) Hc Hmono Hus Hord Hhs ltac:(lia) Hw'). simpl. lia.
Qed.

Lemma run_ops_within k c deadline ops : ∀ s,
  1 ≤ c → Forall (uses k c deadline) ops → within c (st_windows s !! k) →
  within c (st_windows (run_limit_ops ops s) !! k).
Proof.
  induction ops as [|op ops IH]; intros s Hc Hu Hw; [done|]. apply Forall_cons in Hu as [Hu Hus].
  apply IH; [done|done|]. intros r' Hr'.
  destruct (run_op_window k c deadline op s Hu) as [[He _]|[(He & _)|(r & He & _ & Hrow)]]; rewrite He in Hr'.
  - by apply Hw.
  - done.
  - injection Hr' as <-. destruct (st_windows s !! k) as [r0|]; [|lia]. specialize (Hw r0 eq_refl).
    case_match; lia.
Qed.

(** ** The windows of a registered policy *)

(** A call under a policy of the registry: its name is its own and holds no NUL, and its
    ceilings passed [LimitSpec.__post_init__]. *)
Definition registered (op : limit_op) : Prop :=
  match op with
  | OConsume n _ _ _ =>
      contains_char "000"%char n = false ∧ sp_name (policy n) = n ∧ limit_spec (policy n) = Ok (policy n)
  | _ => True
  end.

Definition ceiling_of (kind : BucketKind) (sp : LimitSpec) : option Z :=
  match kind with
  | PrincipalWindow => Some (sp_principal_requests sp)
  | GlobalWindow => Some (sp_global_requests sp)
  | PrincipalDay => sp_principal_daily_requests sp
  | GlobalDay => sp_global_daily_requests sp
  end.

(** When a window of this kind opened at [t] ends. *)
Definition window_end (kind : BucketKind) (sp : LimitSpec) (t : time) : time :=
  match kind with
  | PrincipalWindow | GlobalWindow => t + sp_window_seconds sp * second
  | PrincipalDay | GlobalDay => most_recent_utc_midnight t + day
  end.

(** What a span of one window length can see: a fixed window may turn over once inside it,
    a UTC day does not. *)
Definition span_bound (kind : BucketKind) (c : Z) : Z :=
  match kind with PrincipalWindow | GlobalWindow => 2 * c | PrincipalDay | GlobalDay => c end.

Lemma buckets_elem sp p t b :
  b ∈ buckets sp p t →
  ∃ kind q, bk_key b = bucket_key (sp_name sp) kind q ∧ ceiling_of kind sp = Some (bk_ceiling b)
            ∧ bk_expires_at b = window_end kind sp t.
Proof.
  unfold buckets. intros Hb. apply elem_of_app in Hb as [Hb|[Hb|Hb]%elem_of_app].
  - apply elem_of_cons in Hb as [->|Hb]; [by exists PrincipalWindow, p|].
    apply list_elem_of_singleton in Hb as ->. by exists GlobalWindow, EmptyString.
  - destruct (sp_principal_daily_requests sp) as [c|] eqn:Hc; [|by apply elem_of_nil in Hb].
    apply list_elem_of_singleton in Hb as ->. by exists PrincipalDay, p.
  - destruct (sp_global_daily_requests sp) as [c|] eqn:Hc; [|by apply elem_of_nil in Hb].
    apply list_elem_of_singleton in Hb as ->. by exists GlobalDay, EmptyString.
Qed.

Lemma registered_uses n kind p c op :
  contains_char "000"%char n = false → ceiling_of kind (policy n) = Some c → registered op →
  uses (bucket_key n kind p) c (window_end kind (policy n)) op.
Proof.
  intros Hn Hc Hop. destruct op as [m q t f| | | | | | | | | | |]; try done. destruct Hop as (Hm & Hname & _).
  split; [by rewrite Hname|]. apply Forall_forall. intros b Hb Hk.
  destruct (buckets_elem _ _ _ _ Hb) as (kind' & q' & Hk' & Hc' & He). rewrite Hname, Hk in Hk'.
  apply bucket_key_inj in Hk' as (<- & <- & _); [|done|done]. by simplify_eq.
Qed.

Lemma limit_spec_positive sp :
  limit_spec sp = Ok sp → 0 < sp_window_seconds sp ∧ ∀ kind c, ceiling_of kind sp = Some c → 1 ≤ c.
Proof.
  destruct sp as [n p g w dp dg]. intros Hs. unfold limit_spec in Hs. cbv zeta in Hs. cbn in Hs.
  do 5 (case_decide; [done|]).
  split; [cbn; lia|]. intros kind c Hc. destruct kind; cbn in Hc; simplify_eq; lia.
Qed.

Lemma utc_midnight_eq t : most_recent_utc_midnight t = day * (t / day).
Proof. unfold most_recent_utc_midnight. rewrite Z.mod_eq by done. lia. Qed.

Lemma window_end_mono kind sp t t' : t ≤ t' → window_end kind sp t ≤ window_end kind sp t'.
Proof.
  intros Hle. destruct kind; cbn [window_end]; try lia; rewrite !utc_midnight_eq;
    pose proof (Z.div_le_mono t t' day ltac:(done) Hle); unfold day, second in *; lia.
Qed.

Lemma run_ops_expiry k c deadline ops : ∀ s,
  Forall (uses k c deadline) ops →
  (∀ r, st_windows s !! k = Some r → ∃ t, rw_expires_at r = deadline t) →
  ∀ r, st_windows (run_limit_ops ops s) !! k = Some r → ∃ t, rw_expires_at r = deadline t.
Proof.
  induction ops as [|op ops IH]; intros s Hu Hs; [done|]. apply Forall_cons in Hu as [Hu Hus].
  apply (IH (run_limit_op op s) Hus). intros r' Hr'.
  destruct (run_op_window k c deadline op s Hu) as [[He _]|[(He & _)|(r & He & _ & Hrow)]]; rewrite He in Hr'.
  - by apply Hs.
  - done.
  - injection Hr' as <-. destruct (st_windows s !! k) as [r0|]; [|by exists (op_now op); apply Hrow].
    destruct (rw_expires_at r0 <=? op_now op); [by exists (op_now op); apply Hrow|].
    destruct Hrow as (_ & _ & ->). by apply Hs.
Qed.

(** Claim C33.  The ceilings bind whatever is interleaved.  After any calls, in any run whose
    clock does not go back, the requests admitted against a bucket are at most its ceiling for
    a daily bucket, as long as the run stays within the UTC day it starts in, and at most twice
    its ceiling for a fixed window, which may turn over once in a run of less than its
    length; pruning and other callers cannot raise it. *)
Theorem rate_limit_holds n kind principal c before ops a :
  contains_char "000"%char n = false → limit_spec (policy n) = Ok (policy n) →
  ceiling_of kind (policy n) = Some c →
  Forall registered before → Forall registered ops →
  ordered_from a ops → Forall (λ op, op_now op < window_end kind (policy n) a) ops →
  admissions (bucket_key n kind principal) ops (run_limit_ops before empty_store) ≤ span_bound kind c.
Proof.
  intros Hn Hspec Hc Hb Hops Hord Hhi. destruct (limit_spec_positive _ Hspec) as [Hw Hpos]. specialize (Hpos _ _ Hc).
  assert (∀ l, Forall registered l → Forall (uses (bucket_key n kind principal) c (window_end kind (policy n))) l) as Hu.
  { intros l Hl. apply (Forall_impl _ _ _ Hl). intros op. by apply registered_uses. }
  set (k := bucket_key n kind principal) in *. set (s := run_limit_ops before empty_store).
  assert (within c (st_windows s !! k)) as Hin by (by eapply run_ops_within; [done|by apply Hu|]).
  etrans; [eapply (admissions_allowance k c (window_end kind (policy n)) _ ops a s); try done;
           [apply window_end_mono|by apply Hu]|].
  unfold allowance. destruct (st_windows s !! k) as [r|] eqn:Hr; [|destruct kind; cbn; lia].
  specialize (Hin r eq_refl). destruct (run_ops_expiry k c _ before empty_store (Hu _ Hb) ltac:(done) r Hr) as [t Ht].
  rewrite Ht. pose proof (Z.div_lt_upper_bound a day (t / day + 1) ltac:(done)) as Hday.
  destruct kind; cbn [span_bound window_end] in *; rewrite ?utc_midnight_eq in *; unfold day, second in *;
    repeat case_match; lia.
Qed.

End Runs.

(** * Worked cases *)

#[local] Instance plain_digest : Digest := λ s, s.
#[local] Instance plain_digest_inj : Inj (=) (=) (@sha256_hex plain_digest).
Proof. by intros x y. Qed.

Definition demo_spec (name : string) : LimitSpec := mkSpec name 1 2 60 None (Some 3).

(** A first request is admitted and its principal window is then full. *)
Lemma consume_pair_spec_witness :
  let '(r, s') := consume_pair (demo_spec "read") "alice" (7 * second) false empty_store in
  ∃ d, r = Ok d ∧ ld_allowed d = true
       ∧ st_windows s' !! bucket_key "read" PrincipalWindow "alice" = Some (mkWindow "read" (7 * second) (67 * second) 1 0).
Proof.
  pose proof (consume_pair_spec (demo_spec "read") "alice" (7 * second) empty_store eq_refl) as Hspec. cbv zeta in Hspec.
  destruct (consume_pair _ _ _ _ _) as [r s']. destruct Hspec as (d & -> & Hiff & Hyes & _). exists d.
  assert (ld_allowed d = true) as Hd by (apply Hiff; by apply (bool_decide_unpack _)).
  split_and!; [done|done|].
  exact (proj1 (proj1 (Hyes Hd) (mkBucket (bucket_key "read" PrincipalWindow "alice") 1 (7 * second) (67 * second))
                  (list_elem_of_here _ _))).
Defined.

(** Two windows' worth inside one window length, and no more: the bound is met. *)
Lemma rate_limit_holds_witness :
  let ops := [OConsume "read" "alice" (59 * second) false; OConsume "read" "alice" (60 * second) false;
              OConsume "read" "alice" (100 * second) false] in
  let s := run_limit_ops demo_spec [OConsume "read" "alice" 0 false; OPruneWindows (1 * second) 5 false] empty_store in
  admissions demo_spec (bucket_key "read" PrincipalWindow "alice") ops s = 1
  ∧ admissions demo_spec (bucket_key "read" PrincipalWindow "alice") ops s ≤ 2.
Proof.
  split; [vm_compute; reflexivity|].
  apply (rate_limit_holds demo_spec "read" PrincipalWindow "alice" 1
           [OConsume "read" "alice" 0 false; OPruneWindows (1 * second) 5 false] _ (59 * second));
    repeat (constructor || done || (vm_compute; (reflexivity || discriminate))).
Defined.
