(* ===== verification/LeaseProofs.v ===== *)
(** Leases exclude and fence; interlocks follow their state machine and outlive the lease
    until the work is accounted for. *)

From S2P Require Import Prelude PyDecimal BrokerModels Breakers Pnl Database Lifecycle Limits LimitsProofs.
From Stdlib Require Import Ascii Lia.
Local Open Scope Z_scope.

(** The lease a combined release acts on. *)
Definition release_lease_key (key : string) (lease_key : option string) : string :=
  match lease_key with Some k => if nonempty k then k else key | None => key end.

(** The call presents the token [(owner, generation)] for lease [k]. *)
Definition presents (k owner : string) (generation : Z) (op : limit_op) : Prop :=
  match op with
  | ORenew k' o g _ _ _ | ORelease k' o g _ _ => k' = k ∧ o = owner ∧ g = generation
  | OReleaseSettled key lk o g _ _ => release_lease_key key lk = k ∧ o = owner ∧ g = generation
  | _ => False
  end.

(** The call asks for lease [k] as [owner]. *)
Definition asks (k owner : string) (op : limit_op) : Prop :=
  match op with OAcquire k' o _ _ _ => k' = k ∧ o = owner | _ => False end.

(** ** The life of one lease row *)

Inductive lease_step (k : string) (op : limit_op) : option ConcurrencyLease → option ConcurrencyLease → Prop :=
| LKeep row : lease_step k op row row
| LPrune r : le_expires_at r ≤ op_now op → lease_step k op (Some r) None
| LOpen o e : asks k o op → lease_step k op None (Some (mkLease o e 1))
| LTake r o e :
    asks k o op → le_expires_at r ≤ op_now op ∨ le_owner r = o →
    lease_step k op (Some r) (Some (mkLease o e (le_generation r + 1)))
| LRenew r e :
    presents k (le_owner r) (le_generation r) op → op_now op < le_expires_at r →
    lease_step k op (Some r) (Some (mkLease (le_owner r) e (le_generation r)))
| LRelease r :
    presents k (le_owner r) (le_generation r) op → op_now op < le_expires_at r →
    lease_step k op (Some r) (Some (released r)).

Lemma holds_lease_Some k o g t s r :
  holds_lease k o g t s = Some r →
  st_leases s !! k = Some r ∧ le_owner r = o ∧ le_generation r = g ∧ t < le_expires_at r.
Proof.
  unfold holds_lease. destruct (st_leases s !! k) as [r'|]; [|done].
  destruct (bool_decide_reflect (le_owner r' = o)), (Z.eqb_spec (le_generation r') g), (Z.ltb_spec t (le_expires_at r'));
    by intros [= <-].
Qed.

Section Runs.
Context `{Digest} (policy : string → LimitSpec).
Abbreviation run_op := (run_limit_op policy).
Abbreviation run_ops := (run_limit_ops policy).

Lemma put_lease_step k key op r r' s :
  st_leases s !! key = r → lease_step key op r (Some r') →
  lease_step k op (st_leases s !! k) (st_leases (put_lease key r' s) !! k).
Proof.
  intros <- Hstep. unfold put_lease. cbn [st_leases set_st_leases].
  destruct (decide (k = key)) as [->|Hne]; [by rewrite lookup_insert_eq|rewrite lookup_insert_ne by done; constructor].
Qed.

(** Calls on windows, and on interlocks alone, keep the leases. *)
Lemma other_op_leases op s :
  match op with
  | OAcquire _ _ _ _ _ | ORenew _ _ _ _ _ _ | ORelease _ _ _ _ _ | OPruneLeases _ _ _ | OReleaseSettled _ _ _ _ _ _ => True
  | _ => st_leases (run_op op s) = st_leases s
  end.
Proof.
  destruct op; try done; simpl;
    unfold consume_pair, prune_windows, claim, settle, mark_uncertain, release_expired_backtest, reconcile_clear,
      checked, store_session; repeat case_match; simplify_eq; done.
Qed.

(** Every call moves every lease row by one step. *)
Lemma run_op_lease k op s : lease_step k op (st_leases s !! k) (st_leases (run_op op s) !! k).
Proof.
  pose proof (other_op_leases op s) as Hother.
  destruct op; try (rewrite Hother; apply LKeep); clear Hother; cbn [run_limit_op];
    unfold acquire, renew, release, prune_leases, release_settled, checked, store_session.
  - destruct (ttl <=? 0); [apply LKeep|]. destruct fails; [apply LKeep|].
    destruct (st_leases s !! key) as [r|] eqn:Hr; [|by eapply put_lease_step; [done|constructor]].
    destruct (Z.leb_spec (le_expires_at r) now), (bool_decide_reflect (le_owner r = owner)); simpl;
      try (by eapply put_lease_step; [done|constructor; auto]). apply LKeep.
  - destruct (ttl <=? 0); [apply LKeep|]. destruct fails; [apply LKeep|].
    destruct (holds_lease _ _ _ _ _) as [r|] eqn:Hh; [|apply LKeep].
    apply holds_lease_Some in Hh as (Hr & <- & <- & Hlt). by eapply put_lease_step; [done|constructor].
  - destruct fails; [apply LKeep|]. destruct (holds_lease _ _ _ _ _) as [r|] eqn:Hh; [|apply LKeep].
    apply holds_lease_Some in Hh as (Hr & <- & <- & Hlt). by eapply put_lease_step; [done|constructor].
  - destruct (limit <? 0); [apply LKeep|]. destruct (limit =? 0); [apply LKeep|]. destruct fails; [apply LKeep|].
    cbn [snd st_leases set_st_leases].
    destruct (delete_oldest_lookup le_expires_at (λ x, le_expires_at x.2 ≤ now ∧ st_interlocks s !! x.1 = None) limit
                (st_leases s) k) as [->|(-> & r & -> & Hr & _)]; by constructor.
  - destruct (validate_identity _ _ _ ≫= _); [|apply LKeep]. destruct fails; [apply LKeep|].
    destruct (holds_lease _ _ _ _ _) as [r|] eqn:Hh; [|apply LKeep].
    destruct (owned_interlock _ _ _ _) as [i|]; [|apply LKeep]. destruct (_ && _); [|apply LKeep].
    apply holds_lease_Some in Hh as (Hr & <- & <- & Hlt). by eapply (put_lease_step _ _ _ _ _ s); [done|constructor].
Qed.

(** ** Exclusion *)

(** A live lease excludes.  While [owner] holds [(owner, generation)] on [k] until
    [e], no sequence of calls before [e] by others, which neither present the token nor ask in
    the holder's name, changes the row; and any other owner's request is refused, changes
    nothing and reports the holder. *)
Theorem lease_exclusive k owner generation e ops s other ttl now :
  st_leases s !! k = Some (mkLease owner e generation) →
  Forall (λ op, op_now op < e ∧ ¬ presents k owner generation op ∧ ¬ asks k owner op) ops →
  now < e → other ≠ owner → 0 < ttl →
  let s' := run_ops ops s in
  st_leases s' !! k = Some (mkLease owner e generation)
  ∧ acquire k other ttl now false s'
    = (Ok (mkLeaseDecision false owner e generation (retry_after e now)), s').
Proof.
  intros Hs Hops Hnow Hne Httl. cbv zeta.
  assert (st_leases (run_ops ops s) !! k = Some (mkLease owner e generation)) as Hs'.
  { revert s Hs. induction Hops as [|op ops (Ht & Hp & Ha) _ IH]; intros s Hs; [done|]. apply (IH (run_op op s)).
    pose proof (run_op_lease k op s) as Hstep. rewrite Hs in Hstep. inversion Hstep; subst; simpl in *; try done; try lia.
    match goal with H : _ ∨ _ |- _ => destruct H; [lia|subst; done] end. }
  split; [done|]. unfold acquire, store_session. rewrite (proj2 (Z.leb_gt ttl 0)) by lia. unfold inspect_lease.
  rewrite Hs'. simpl. rewrite (proj2 (Z.leb_gt e now)) by lia. rewrite bool_decide_false by done. simpl.
  by rewrite (proj2 (Z.ltb_lt now e)) by lia.
Qed.

(** ** Fencing *)

Definition token_at (k owner : string) (generation : Z) (s : LimitStore) : Prop :=
  ∃ r, st_leases s !! k = Some r ∧ le_owner r = owner ∧ le_generation r = generation.

Lemma token_at_step k owner generation op s :
  owner ≠ EmptyString → ¬ asks k owner op → ¬ token_at k owner generation s →
  ¬ token_at k owner generation (run_op op s).
Proof.
  intros Hne Ha Htok (r' & Hr' & Ho & Hg). pose proof (run_op_lease k op s) as Hstep. rewrite Hr' in Hstep.
  apply Htok. inversion Hstep as [row|r He|o e Hask|r o e Hask Hwhy|r e Hp Hlt|r Hp Hlt]; simplify_eq; simpl in *; subst; try done.
  - by exists r'.
  - by exists r.
Qed.

Lemma no_token_holds k owner generation now s :
  ¬ token_at k owner generation s → holds_lease k owner generation now s = None.
Proof.
  intros Htok. destruct (holds_lease _ _ _ _ _) as [r|] eqn:Hh; [|done].
  apply holds_lease_Some in Hh as (? & ? & ? & _). by destruct Htok; exists r.
Qed.

Lemma release_lease_key_nonempty key lk owner generation :
  validate_identity key owner generation = Ok () → nonempty (release_lease_key key lk) = true.
Proof.
  unfold validate_identity, release_lease_key. destruct (nonempty key) eqn:Hk; [|done]. intros _.
  destruct lk as [k|]; [|done]. by destruct (nonempty k) eqn:Hk'.
Qed.

(** A lost token stays lost.  Once lease [k] no longer carries
    [(owner, generation)], and until [owner] asks for it again, the token opens nothing: renewing and
    releasing with it, alone or with the interlock, report failure and change nothing. *)
Theorem lease_fenced k owner generation ops s now key lk ttl :
  owner ≠ EmptyString → ¬ token_at k owner generation s → Forall (λ op, ¬ asks k owner op) ops →
  0 < ttl → release_lease_key key lk = k → validate_identity key owner generation = Ok () →
  longer_than 128 k = false →
  let s' := run_ops ops s in
  ¬ token_at k owner generation s'
  ∧ renew k owner generation ttl now false s' = (Ok (refused (inspect_lease k now s')), s')
  ∧ release k owner generation now false s' = (Ok false, s')
  ∧ release_settled key lk owner generation now false s' = (Ok false, s').
Proof.
  intros Hne Htok Hops Httl Hkey Hid Hlong. cbv zeta.
  assert (¬ token_at k owner generation (run_ops ops s)) as Htok'.
  { revert s Htok. induction Hops as [|op ops Ha _ IH]; intros s Htok; [done|]. apply (IH (run_op op s)).
    by apply token_at_step. }
  set (s' := run_ops ops s) in *. pose proof (no_token_holds _ _ _ now _ Htok') as Hno. split_and!; [done| | |].
  - unfold renew, store_session. rewrite (proj2 (Z.leb_gt ttl 0)) by lia. by rewrite Hno.
  - unfold release, store_session. by rewrite Hno.
  - pose proof (release_lease_key_nonempty key lk owner generation Hid) as Hk.
    unfold release_settled. fold (release_lease_key key lk). rewrite Hkey in Hk |- *. unfold checked, store_session.
    rewrite Hid. simpl. rewrite Hk, Hlong. simpl. by rewrite Hno.
Qed.

(** ** The life of one interlock *)

(** An audited reconciliation of the interlock on [k]. *)
Definition reconciled (k : string) (a : AuditEvent) : Prop :=
  a_action a = "mutation_interlock.reconcile" ∧ a_target_id a = sha256_hex k
  ∧ a_reason a ∈ RECONCILIATION_EVIDENCE ∧ a_result_code a = "cleared".

Inductive interlock_step (k : string) (now : time) (lease : option ConcurrencyLease) (added : list AuditEvent) :
    option MutationInterlock → option MutationInterlock → Prop :=
| IKeep row : interlock_step k now lease added row row
| IClaim o g x :
    0 ≤ g → x ∈ MUTATION_OPERATIONS →
    interlock_step k now lease added None (Some (mkInterlock o g x "active" EmptyString None now now))
| ISettle o g x c w t0 t1 :
    interlock_step k now lease added (Some (mkInterlock o g x "active" c w t0 t1))
      (Some (mkInterlock o g x "settled" "handler_completed" (Some now) t0 now))
| IUncertain o g x st c w t0 t1 c' w' :
    c' ∈ UNCERTAIN_OUTCOMES → w' = w ∨ w' = Some now →
    interlock_step k now lease added (Some (mkInterlock o g x st c w t0 t1))
      (Some (mkInterlock o g x "uncertain" c' w' t0 now))
| IRelease r :
    il_state r = "settled" → il_outcome_code r = "handler_completed" → il_worker_finished_at r ≠ None →
    interlock_step k now lease added (Some r) None
| IExpire r l :
    il_operation r = "backtest" → il_state r = "active" → lease = Some l →
    le_owner l = il_owner r → le_generation l = il_generation r → le_expires_at l ≤ now →
    interlock_step k now lease added (Some r) None
| IReconcile r a :
    a ∈ added → reconciled k a → interlock_step k now lease added (Some r) None.

(** The audit log only grows. *)
Definition audit_added (s s' : LimitStore) : list AuditEvent := drop (length (st_audit s)) (st_audit s').

Lemma owned_interlock_Some k o g s r :
  owned_interlock k o g s = Some r → st_interlocks s !! k = Some r ∧ il_owner r = o ∧ il_generation r = g.
Proof.
  unfold owned_interlock. destruct (st_interlocks s !! k) as [r'|]; [|done].
  destruct (bool_decide_reflect (il_owner r' = o)), (Z.eqb_spec (il_generation r') g); by intros [= <-].
Qed.

Lemma put_interlock_step k key now lease added r' s :
  (k = key → interlock_step k now lease added (st_interlocks s !! k) (Some r')) →
  interlock_step k now lease added (st_interlocks s !! k) (st_interlocks (put_interlock key r' s) !! k).
Proof.
  intros Hk. unfold put_interlock. cbn [st_interlocks set_st_interlocks].
  destruct (decide (k = key)) as [->|Hne]; [rewrite lookup_insert_eq; auto|rewrite lookup_insert_ne by done; constructor].
Qed.

Lemma drop_interlock_step k key now lease added s s' :
  st_interlocks s' = st_interlocks s →
  (k = key → interlock_step k now lease added (st_interlocks s !! k) None) →
  interlock_step k now lease added (st_interlocks s !! k) (st_interlocks (drop_interlock key s') !! k).
Proof.
  intros Hs' Hk. unfold drop_interlock. cbn [st_interlocks set_st_interlocks]. rewrite Hs'.
  destruct (decide (k = key)) as [->|Hne]; [rewrite lookup_delete_eq; auto|rewrite lookup_delete_ne by done; constructor].
Qed.

(** Calls on windows and on leases keep the interlocks. *)
Lemma other_op_interlocks op s :
  match op with
  | OConsume _ _ _ _ | OPruneWindows _ _ _ | OAcquire _ _ _ _ _ | ORenew _ _ _ _ _ _ | ORelease _ _ _ _ _
  | OPruneLeases _ _ _ => st_interlocks (run_op op s) = st_interlocks s
  | _ => True
  end.
Proof.
  destruct op; try done; simpl;
    unfold consume_pair, prune_windows, acquire, renew, release, prune_leases, store_session;
    repeat case_match; simplify_eq; done.
Qed.

Lemma run_op_audit op s : ∃ l, st_audit (run_op op s) = st_audit s ++ l.
Proof.
  destruct op; simpl;
    unfold consume_pair, prune_windows, acquire, renew, release, prune_leases, claim, settle, mark_uncertain,
      release_settled, release_expired_backtest, reconcile_clear, checked, store_session;
    repeat case_match; simplify_eq; first [exists []; by rewrite app_nil_r|eexists; reflexivity].
Qed.

(** A checked transaction leaves the store alone unless its guards pass and it commits. *)
Lemma checked_session {A} (m : outcome ()) fails (body : LimitStore → outcome A * LimitStore) s :
  (checked m (store_session fails body) s).2 = s
  ∨ m = Ok () ∧ (checked m (store_session fails body) s).2 = (body s).2.
Proof. unfold checked, store_session. destruct m as [[]|e]; [|by left]. destruct fails; [by left|by right]. Qed.

Ltac committed Hg :=
  match goal with |- context [(checked ?m (store_session ?f ?b) ?s).2] =>
    destruct (checked_session m f b s) as [->|[Hg ->]]; [apply IKeep|apply outcome_bind_Ok in Hg as ([] & Hv & Hg)]
  end.

Lemma validate_identity_generation k o g : validate_identity k o g = Ok () → 0 ≤ g.
Proof. unfold validate_identity. repeat case_match; try done. intros _. lia. Qed.

(** Every call moves every interlock by one step of the machine. *)
Lemma run_op_interlock k op s :
  interlock_step k (op_now op) (st_leases s !! k) (audit_added s (run_op op s))
    (st_interlocks s !! k) (st_interlocks (run_op op s) !! k).
Proof.
  pose proof (other_op_interlocks op s) as Hother.
  destruct op; try (rewrite Hother; apply IKeep); clear Hother; cbn [op_now run_limit_op].
  - unfold claim. committed Hg. destruct (st_interlocks s !! key) as [r|] eqn:Hr; [apply IKeep|].
    apply put_interlock_step. intros ->. rewrite Hr. apply validate_identity_generation in Hv.
    constructor; [done|]. by destruct (bool_decide_reflect (operation ∈ MUTATION_OPERATIONS)).
  - unfold settle. committed Hg. destruct (owned_interlock _ _ _ _) as [r|] eqn:Hr; [|apply IKeep].
    destruct (bool_decide_reflect (il_state r = "active")) as [Hst|]; [|apply IKeep].
    destruct (bool_decide_reflect (code = "handler_completed")) as [->|]; [|done].
    apply owned_interlock_Some in Hr as (Hr & _ & _). apply put_interlock_step. intros ->. rewrite Hr.
    destruct r; cbn in *; subst. constructor.
  - unfold mark_uncertain. committed Hg. destruct (owned_interlock _ _ _ _) as [r|] eqn:Hr; [|apply IKeep].
    destruct (bool_decide_reflect (code ∈ UNCERTAIN_OUTCOMES)) as [Hc|]; [|done].
    apply owned_interlock_Some in Hr as (Hr & _ & _). apply put_interlock_step. intros ->. rewrite Hr.
    destruct r; cbn in *. constructor; [done|destruct finished; auto].
  - unfold release_settled. committed Hg. destruct (holds_lease _ _ _ _ _) as [l|]; [|apply IKeep].
    destruct (owned_interlock _ _ _ _) as [r|] eqn:Hr; [|apply IKeep].
    destruct (_ && _) eqn:Hb; [|apply IKeep].
    apply andb_true_iff in Hb as [[H1%bool_decide_eq_true H2%bool_decide_eq_true]%andb_true_iff H3%bool_decide_eq_true].
    apply owned_interlock_Some in Hr as (Hr & _ & _). apply drop_interlock_step; [done|]. intros ->. rewrite Hr. by constructor.
  - unfold release_expired_backtest.
    match goal with |- context [(checked ?m (store_session ?f ?b) ?s).2] =>
      destruct (checked_session m f b s) as [->|[Hv ->]]; [apply IKeep|] end.
    destruct (st_leases s !! key) as [l|] eqn:Hl; [|apply IKeep].
    destruct (owned_interlock _ _ _ _) as [r|] eqn:Hr; [|apply IKeep].
    destruct (_ && _) eqn:Hb; [|apply IKeep]. rewrite !andb_true_iff, !bool_decide_eq_true, Z.eqb_eq, Z.leb_le in Hb.
    apply owned_interlock_Some in Hr as (Hr & Ho & Hgn). apply drop_interlock_step; [done|]. intros ->. rewrite Hr, Hl.
    destruct Hb as (((((? & ?) & ?) & ?) & ?) & ?). eapply IExpire; try done; congruence.
  - unfold reconcile_clear. committed Hg. destruct (owned_interlock _ _ _ _) as [r|] eqn:Hr; [|apply IKeep].
    destruct (_ && _); [apply IKeep|]. destruct (bool_decide_reflect (evidence ∉ RECONCILIATION_EVIDENCE)) as [|Hev]; [done|].
    apply owned_interlock_Some in Hr as (Hr & _ & _). apply drop_interlock_step; [done|]. intros ->. rewrite Hr.
    apply (IReconcile _ _ _ _ _ (reconcile_audit key actor request_id evidence now)).
    + unfold audit_added. cbn. rewrite drop_app_length. left.
    + split_and!; try done. cbn. destruct (decide (evidence ∈ RECONCILIATION_EVIDENCE)); done.
Qed.

Lemma interlock_check_spec r :
  interlock_check r = true ↔
    0 ≤ il_generation r ∧ il_operation r ∈ MUTATION_OPERATIONS
    ∧ il_outcome_code r ∈ EmptyString :: "handler_completed" :: UNCERTAIN_OUTCOMES
    ∧ (il_state r = "active" ∧ il_outcome_code r = EmptyString ∧ il_worker_finished_at r = None
       ∨ il_state r = "settled" ∧ il_outcome_code r = "handler_completed" ∧ il_worker_finished_at r ≠ None
       ∨ il_state r = "uncertain" ∧ il_outcome_code r ∉ [EmptyString; "handler_completed"]).
Proof.
  unfold interlock_check. rewrite !andb_true_iff, !orb_true_iff, !bool_decide_eq_true, Z.leb_le. tauto.
Qed.

Lemma uncertain_outcome_other c : c ∈ UNCERTAIN_OUTCOMES → c ∉ [EmptyString; "handler_completed"].
Proof.
  intros Hc Hbad. apply elem_of_cons in Hbad as [->|Hbad]; [|apply list_elem_of_singleton in Hbad as ->];
    by apply (bool_decide_pack _) in Hc.
Qed.

Lemma interlock_step_check k now lease added r r' :
  interlock_step k now lease added r r' → from_option interlock_check true r = true →
  from_option interlock_check true r' = true.
Proof.
  destruct 1; cbn [from_option]; rewrite ?interlock_check_spec; cbn; intros Hr; try done.
  - split_and!; try done; [left|by left].
  - destruct Hr as (? & ? & _). split_and!; try done; [right; left|by right; left].
  - destruct Hr as (? & ? & _). split_and!; try done; [by do 2 right|].
    right. right. split; [done|by apply uncertain_outcome_other].
Qed.

(** Claim C40.  The interlock table keeps its [CHECK] constraints.  From rows that satisfy
    them, every sequence of calls writes only rows that do: a known operation and outcome, a
    generation that is not negative, and outcome and finish time as the state asks, so the
    database never refuses one of these writes. *)
Theorem interlock_rows_typed ops s :
  map_Forall (λ _ r, interlock_check r = true) (st_interlocks s) →
  map_Forall (λ _ r, interlock_check r = true) (st_interlocks (run_ops ops s)).
Proof.
  revert s. induction ops as [|op ops IH]; intros s Hs; [done|]. apply (IH (run_op op s)). intros k r Hr.
  pose proof (run_op_interlock k op s) as Hstep. apply interlock_step_check in Hstep; rewrite Hr in *; [done|].
  destruct (st_interlocks s !! k) as [r0|] eqn:Hr0; [|done]. by apply (Hs k).
Qed.

(** ** Uncertain work *)

Definition uncertain_at (k owner : string) (generation : Z) (s : LimitStore) : Prop :=
  ∃ r, st_interlocks s !! k = Some r ∧ il_owner r = owner ∧ il_generation r = generation ∧ il_state r = "uncertain".

Lemma run_ops_audit ops : ∀ s, ∃ l, st_audit (run_ops ops s) = st_audit s ++ l.
Proof.
  induction ops as [|op ops IH]; intros s; [exists []; by rewrite app_nil_r|].
  destruct (run_op_audit op s) as [l Hl], (IH (run_op op s)) as [l' Hl']. exists (l ++ l').
  by rewrite app_assoc, <- Hl.
Qed.

Lemma uncertain_at_step k owner generation op s :
  uncertain_at k owner generation s →
  uncertain_at k owner generation (run_op op s) ∨ ∃ a, a ∈ audit_added s (run_op op s) ∧ reconciled k a.
Proof.
  intros (r & Hr & Ho & Hg & Hst). pose proof (run_op_interlock k op s) as Hstep. rewrite Hr in Hstep.
  destruct (st_interlocks (run_op op s) !! k) as [r'|] eqn:Hr'.
  - left. exists r'. split; [done|]. inversion Hstep; simplify_eq; by cbn in *.
  - right. inversion Hstep; simplify_eq; try congruence. by exists a.
Qed.

(** Work whose outcome is unknown is never forgotten.  Once an interlock is
    uncertain, after any sequence of calls it is still there, for the same owner and
    generation, and refuses every claim, unless the audit log has gained a reconciliation of that very
    resource with broker, portfolio or domain evidence. *)
Theorem uncertain_blocks k owner generation ops s o g x now :
  uncertain_at k owner generation s →
  validate_identity k o g = Ok () → x ∈ MUTATION_OPERATIONS →
  let s' := run_ops ops s in
  (uncertain_at k owner generation s'
   ∧ ∃ d, claim k o g x now false s' = (Ok d, s') ∧ id_acquired d = false ∧ id_owner d = owner
          ∧ id_generation d = generation ∧ id_state d = "uncertain")
  ∨ ∃ a, a ∈ audit_added s s' ∧ reconciled k a.
Proof.
  intros Hun Hv Hx. cbv zeta.
  assert (uncertain_at k owner generation (run_ops ops s)
          ∨ ∃ a, a ∈ audit_added s (run_ops ops s) ∧ reconciled k a) as [Hun'|Ha]; [|left; split; [done|]|by right].
  - clear Hv Hx. revert s Hun. induction ops as [|op ops IH]; intros s Hun; [by left|].
    destruct (run_op_audit op s) as [l Hl], (run_ops_audit ops (run_op op s)) as [l' Hl'].
    unfold audit_added in *. cbn [run_limit_ops foldl].
    change (foldl _ (run_op op s) ops) with (run_ops ops (run_op op s)).
    destruct (uncertain_at_step _ _ _ op _ Hun) as [Hun'|(a & Ha & Hrec)].
    + destruct (IH _ Hun') as [|(a & Ha & Hrec)]; [by left|]. right. exists a. split; [|done].
      rewrite Hl', Hl in *.
      rewrite drop_app_length in Ha. rewrite <- app_assoc, drop_app_length. apply elem_of_app. by right.
    + right. exists a. split; [|done]. unfold audit_added in Ha. rewrite Hl', Hl in *.
      rewrite drop_app_length in Ha. rewrite <- app_assoc, drop_app_length. apply elem_of_app. by left.
  - destruct Hun' as (r & Hr & Ho & Hg & Hst). unfold claim, checked, store_session. rewrite Hv. cbn.
    rewrite bool_decide_true by done. rewrite Hr. eexists. split; [reflexivity|]. by cbn.
Qed.

(** ** The whole protocol *)

(** The generation the next acquisition of a free lease gets. *)
Definition next_generation (row : option ConcurrencyLease) : Z :=
  match row with None => 1 | Some r => le_generation r + 1 end.

Lemma acquire_free k owner ttl now s :
  0 < ttl → (∀ r, st_leases s !! k = Some r → le_expires_at r ≤ now) →
  let r := mkLease owner (now + ttl * second) (next_generation (st_leases s !! k)) in
  acquire k owner ttl now false s = (Ok (granted r), put_lease k r s).
Proof.
  intros Httl Hfree. unfold acquire, store_session. rewrite (proj2 (Z.leb_gt ttl 0)) by lia.
  destruct (st_leases s !! k) as [r|]; [|done]. by rewrite (proj2 (Z.leb_le _ _)) by (by apply Hfree).
Qed.

Lemma claim_fresh k owner g x now s :
  validate_identity k owner g = Ok () → x ∈ MUTATION_OPERATIONS → st_interlocks s !! k = None →
  let r := mkInterlock owner g x "active" EmptyString None now now in
  claim k owner g x now false s = (Ok (interlock_decision k r true), put_interlock k r s).
Proof.
  intros Hv Hx Hi. unfold claim, checked, store_session. rewrite Hv. cbn.
  rewrite bool_decide_true by done. by rewrite Hi.
Qed.

Lemma owned_interlock_here k r s :
  st_interlocks s !! k = Some r → owned_interlock k (il_owner r) (il_generation r) s = Some r.
Proof. intros Hr. unfold owned_interlock. rewrite Hr, bool_decide_true, Z.eqb_refl by done. done. Qed.

Lemma settle_active k owner g x c w t0 t1 now s :
  validate_identity k owner g = Ok () → st_interlocks s !! k = Some (mkInterlock owner g x "active" c w t0 t1) →
  settle k owner g "handler_completed" now false s
  = (Ok true, put_interlock k (mkInterlock owner g x "settled" "handler_completed" (Some now) t0 now) s).
Proof.
  intros Hv Hi. unfold settle, checked, store_session. rewrite Hv. cbn [mbind outcome_bind bool_decide].
  pose proof (owned_interlock_here k _ s Hi) as Hown. cbn in Hown. cbn. by rewrite Hown.
Qed.

Lemma release_settled_here k owner g x w t0 t1 e now s :
  validate_identity k owner g = Ok () →
  st_interlocks s !! k = Some (mkInterlock owner g x "settled" "handler_completed" (Some w) t0 t1) →
  st_leases s !! k = Some (mkLease owner e g) → now < e →
  release_settled k None owner g now false s
  = (Ok true, drop_interlock k (put_lease k (released (mkLease owner e g)) s)).
Proof.
  intros Hv Hi Hl Hlt. unfold release_settled, checked, store_session.
  assert (nonempty k = true ∧ longer_than 128 k = false) as [Hk Hlong].
  { unfold validate_identity in Hv. by destruct (nonempty k), (longer_than 128 k). }
  rewrite Hv. cbn [mbind outcome_bind]. rewrite Hk, Hlong. cbn [negb orb]. unfold holds_lease. rewrite Hl. cbn [le_owner le_generation le_expires_at].
  rewrite bool_decide_true, Z.eqb_refl, (proj2 (Z.ltb_lt now e)) by done. cbn [andb].
  pose proof (owned_interlock_here k _ s Hi) as Hown. cbn in Hown. by rewrite Hown.
Qed.

(** A mutation that finishes frees its resource.  On a resource with no interlock
    and no live lease, a valid owner that acquires, claims, settles and releases in that
    order within its lease succeeds at every step; afterwards the interlock is gone and the
    next owner is granted the lease at once, under a higher generation. *)
Theorem mutation_protocol_completes k owner x ttl t1 t2 t3 t4 s other ttl' t5 :
  st_interlocks s !! k = None →
  (∀ r, st_leases s !! k = Some r → le_expires_at r ≤ t1 ∧ 0 ≤ le_generation r) →
  nonempty k = true → longer_than 128 k = false → nonempty owner = true → longer_than 64 owner = false →
  x ∈ MUTATION_OPERATIONS → 0 < ttl → 0 < ttl' → 0 ≤ t5 → t4 < t1 + ttl * second →
  ∃ d1 d2 d5 s1 s2 s3 s4 s5,
    acquire k owner ttl t1 false s = (Ok d1, s1) ∧ lq_acquired d1 = true
    ∧ claim k owner (lq_generation d1) x t2 false s1 = (Ok d2, s2) ∧ id_acquired d2 = true
    ∧ settle k owner (lq_generation d1) "handler_completed" t3 false s2 = (Ok true, s3)
    ∧ release_settled k None owner (lq_generation d1) t4 false s3 = (Ok true, s4)
    ∧ st_interlocks s4 !! k = None
    ∧ acquire k other ttl' t5 false s4 = (Ok d5, s5) ∧ lq_acquired d5 = true
    ∧ lq_generation d1 < lq_generation d5.
Proof.
  intros Hi Hl Hk Hklen Ho Holen Hx Httl Httl' Ht5 Ht4. set (g := next_generation (st_leases s !! k)).
  assert (validate_identity k owner g = Ok ()) as Hv.
  { unfold validate_identity. rewrite Hk, Hklen, Ho, Holen. simpl. assert (0 ≤ g); [|by rewrite (proj2 (Z.ltb_ge g 0)) by lia].
    unfold g, next_generation. destruct (st_leases s !! k) as [r|]; [destruct (Hl r eq_refl)|]; lia. }
  do 8 eexists. split; [apply acquire_free; [done|intros r Hr; apply (Hl r Hr)]|]. split; [done|]. fold g. cbn [granted lq_generation le_generation].
  split; [by apply claim_fresh|]. split; [done|].
  split; [eapply settle_active; [done|cbn; apply lookup_insert_eq]|].
  split; [eapply release_settled_here; [done|cbn; apply lookup_insert_eq|cbn; apply lookup_insert_eq|done]|].
  split; [cbn; apply lookup_delete_eq|]. split.
  - apply acquire_free; [done|]. cbn. rewrite lookup_insert_eq. by intros r [= <-].
  - split; [done|]. cbn. rewrite lookup_insert_eq. cbn. lia.
Qed.

End Runs.

(** * Worked cases *)

#[local] Instance plain_digest : Digest := λ s, s.

Definition no_policy (name : string) : LimitSpec := mkSpec name 1 1 60 None None.

Definition held_store : LimitStore :=
  put_lease "order:1" (mkLease "alice" (60 * second) 4) empty_store.

(** Another owner's interference while the lease is live. *)
Lemma lease_exclusive_witness :
  let s' := run_limit_ops no_policy [OAcquire "order:1" "bob" 30 (1 * second) false; OPruneLeases (2 * second) 10 false;
                           ORelease "order:1" "alice" 3 (3 * second) false] held_store in
  acquire "order:1" "bob" 30 (9 * second) false s'
  = (Ok (mkLeaseDecision false "alice" (60 * second) 4 51), s').
Proof.
  refine (proj2 (lease_exclusive no_policy "order:1" "alice" 4 (60 * second)
    [OAcquire "order:1" "bob" 30 (1 * second) false; OPruneLeases (2 * second) 10 false;
     ORelease "order:1" "alice" 3 (3 * second) false] held_store "bob" 30 (9 * second) eq_refl _ _ _ _)); [|done..].
  repeat constructor; simpl; (lia || naive_solver lia).
Defined.

(** A holder whose lease was taken over cannot renew or release it. *)
Lemma lease_fenced_witness :
  let s' := run_limit_ops no_policy [OAcquire "order:1" "bob" 30 (70 * second) false] held_store in
  le_owner <$> st_leases s' !! "order:1" = Some "bob"
  ∧ release "order:1" "alice" 3 (71 * second) false s' = (Ok false, s').
Proof.
  split; [vm_compute; reflexivity|].
  refine (proj1 (proj2 (proj2 (lease_fenced no_policy "order:1" "alice" 3
    [OAcquire "order:1" "bob" 30 (70 * second) false] held_store (71 * second) "order:1" None 5 _ _ _ _ _ _ _)))); try done.
  - by intros (r & [= <-] & _ & ?).
  - repeat constructor; simpl; naive_solver.
Defined.

Definition uncertain_store : LimitStore :=
  put_interlock "order:1" (mkInterlock "alice" 4 "order_approve" "uncertain" "handler_failed" None 0 0) held_store.

Lemma interlock_rows_typed_witness :
  map_Forall (λ _ r, interlock_check r = true)
    (st_interlocks (run_limit_ops no_policy
       [OReconcile "order:1" "alice" 4 "ops" "r1" "broker_truth_reconciled" true (5 * second) false;
        OClaim "order:1" "alice" 5 "panic" (6 * second) false] uncertain_store)).
Proof.
  apply (interlock_rows_typed no_policy). apply map_Forall_insert_2; [reflexivity|]. by apply map_Forall_empty.
Defined.

(** Nothing else clears it: settling and releasing leave the interlock where it is. *)
Lemma uncertain_blocks_witness :
  let s' := run_limit_ops no_policy
    [OSettle "order:1" "alice" 4 "handler_completed" (5 * second) false;
     OReleaseSettled "order:1" None "alice" 4 (6 * second) false] uncertain_store in
  (uncertain_at "order:1" "alice" 4 s'
   ∧ ∃ d, claim "order:1" "bob" 5 "panic" (7 * second) false s' = (Ok d, s') ∧ id_acquired d = false
          ∧ id_owner d = "alice" ∧ id_generation d = 4 ∧ id_state d = "uncertain")
  ∨ ∃ a, a ∈ audit_added uncertain_store s' ∧ reconciled "order:1" a.
Proof.
  apply (uncertain_blocks no_policy "order:1" "alice" 4); [|done|by apply (bool_decide_unpack _)].
  eexists. split; [reflexivity|done].
Defined.

Lemma mutation_protocol_completes_witness :
  ∃ d1 s1, acquire "order:1" "alice" 30 (70 * second) false held_store = (Ok d1, s1) ∧ lq_acquired d1 = true.
Proof.
  destruct (mutation_protocol_completes "order:1" "alice" "order_approve" 30 (70 * second) (71 * second)
    (72 * second) (73 * second) held_store "bob" 30 (74 * second)) as (d1 & d2 & d5 & s1 & s2 & s3 & s4 & s5 & H1 & H2 & _);
    try done.
  - intros r [= <-]. done.
  - by apply (bool_decide_unpack _).
  - by exists d1, s1.
Defined.
