(* ===== verification/Budget.v ===== *)
(** Durable provider budgets: [llm/budget.py].

    [provider_budget_days] and [provider_reservations] are the store; every method is one
    [BEGIN IMMEDIATE] transaction, so a function of the store.  An exception leaves the store
    as it was, except after the explicit commits of [reserve].  [fails] says that the database
    raises, which [_budget_store_session] reports as [ProviderBudgetUnavailable].  Clock
    readings and the generated reservation id are arguments.  A date is its day number. *)

From S2P Require Import Prelude PyDecimal BrokerModels Pnl Database Identity.
From Stdlib Require Import Ascii Lia.
Local Open Scope Z_scope.

(** * Tables *)

Record BudgetDay : Type := mkDay {
  bd_calls_used : Z;
  bd_input_tokens_used : Z;
  bd_output_tokens_used : Z;
  bd_reconciliation_required : bool;
  bd_reconciliation_code : string;
  bd_updated_at : time;
}.

Inductive ReservationState : Type := RReserved | RStarted | RSettled | RUnknown | RReleased.

#[export] Instance reservation_state_eq_dec : EqDecision ReservationState.
Proof. solve_decision. Defined.

Record Reservation : Type := mkReservation {
  pr_provider : string;
  pr_category : string;
  pr_request_id : string;
  pr_budget_day : Z;
  pr_state : ReservationState;
  pr_input_reserved : Z;
  pr_output_reserved : Z;
  pr_input_actual : option Z;
  pr_output_actual : option Z;
  pr_created_at : time;
  pr_started_at : option time;
  pr_settled_at : option time;
  pr_expires_at : time;
}.

Record BudgetStore : Type := mkBudget {
  bs_days : gmap (string * Z) BudgetDay;
  bs_reservations : gmap string Reservation;
}.

Definition empty_budget : BudgetStore := mkBudget ∅ ∅.

Definition put_day (k : string * Z) (d : BudgetDay) (s : BudgetStore) : BudgetStore :=
  mkBudget (<[k := d]> (bs_days s)) (bs_reservations s).
Definition put_reservation (id : string) (r : Reservation) (s : BudgetStore) : BudgetStore :=
  mkBudget (bs_days s) (<[id := r]> (bs_reservations s)).

Definition set_pr_state (st : ReservationState) (r : Reservation) : Reservation :=
  mkReservation (pr_provider r) (pr_category r) (pr_request_id r) (pr_budget_day r) st
    (pr_input_reserved r) (pr_output_reserved r) (pr_input_actual r) (pr_output_actual r)
    (pr_created_at r) (pr_started_at r) (pr_settled_at r) (pr_expires_at r).

Definition date_of (now : time) : Z := now / day.

Record BudgetLimits : Type := mkLimits {
  bl_calls : Z;
  bl_input_tokens : Z;
  bl_output_tokens : Z;
  bl_reservation_ttl_seconds : Z;
}.

Definition require_nonnegative_int (name : string) (value : Z) : outcome () :=
  if value <? 0 then Raise (ValueError (name +:+ " must be a non-negative integer")) else Ok ().
Definition require_positive_int (name : string) (value : Z) : outcome () :=
  if value <=? 0 then Raise (ValueError (name +:+ " must be a positive integer")) else Ok ().
Definition require_text (name value : string) : outcome () :=
  if blank value then Raise (ValueError (name +:+ " must be non-empty")) else Ok ().

(** [BudgetLimits.__post_init__]. *)
Definition budget_limits (l : BudgetLimits) : outcome BudgetLimits :=
  _ ← require_nonnegative_int "calls" (bl_calls l);
  _ ← require_nonnegative_int "input_tokens" (bl_input_tokens l);
  _ ← require_nonnegative_int "output_tokens" (bl_output_tokens l);
  _ ← require_positive_int "reservation_ttl_seconds" (bl_reservation_ttl_seconds l);
  Ok l.

Definition USAGE_OVERRUN_CODE : string := "provider_usage_over_reservation".
Definition STALE_STARTED_CODE : string := "provider_started_usage_unknown".

Definition corrupt : exn := ProviderBudgetUnavailable "corrupt provider budget state".
Definition no_day : exn := ProviderBudgetUnavailable "provider budget day is unavailable".

(** * Validation *)

(** [_validate_day], less the type checks. *)
Definition day_valid (provider : string) (d : BudgetDay) : bool :=
  negb (blank provider) && (0 <=? bd_calls_used d) && (0 <=? bd_input_tokens_used d)
  && (0 <=? bd_output_tokens_used d)
  && Bool.eqb (bd_reconciliation_required d) (nonempty (bd_reconciliation_code d)).

Definition validate_day (provider : string) (d : BudgetDay) : outcome () :=
  if day_valid provider d then Ok () else Raise corrupt.

(** The fields that must be absent or present in each state. *)
Definition state_fields_valid (r : Reservation) : bool :=
  match pr_state r with
  | RReserved | RReleased =>
      bool_decide (pr_started_at r = None) && bool_decide (pr_settled_at r = None)
      && bool_decide (pr_input_actual r = None) && bool_decide (pr_output_actual r = None)
  | RStarted | RUnknown =>
      bool_decide (pr_started_at r ≠ None) && bool_decide (pr_settled_at r = None)
      && bool_decide (pr_input_actual r = None) && bool_decide (pr_output_actual r = None)
  | RSettled =>
      bool_decide (pr_started_at r ≠ None) && bool_decide (pr_settled_at r ≠ None)
      && bool_decide (pr_input_actual r ≠ None) && bool_decide (pr_output_actual r ≠ None)
  end.

Definition nonneg_opt (v : option Z) : bool := match v with Some x => 0 <=? x | None => true end.

(** Order of the four instants. *)
Definition timestamps_valid (r : Reservation) : bool :=
  (pr_budget_day r =? date_of (pr_created_at r)) && (pr_created_at r <? pr_expires_at r)
  && match pr_started_at r with
     | Some t => (pr_created_at r <=? t) && (t <? pr_expires_at r)
     | None => true
     end
  && match pr_settled_at r, pr_started_at r with
     | Some t, Some t0 => t0 <=? t
     | Some _, None => false
     | None, _ => true
     end.

(** [_validate_reservation], less the type checks. *)
Definition reservation_valid (id : string) (r : Reservation) : bool :=
  bool_decide (canonical_request_id (pr_request_id r) = Ok (pr_request_id r))
  && negb (blank id) && negb (blank (pr_provider r)) && negb (blank (pr_category r))
  && (0 <=? pr_input_reserved r) && (0 <=? pr_output_reserved r)
  && nonneg_opt (pr_input_actual r) && nonneg_opt (pr_output_actual r)
  && timestamps_valid r && state_fields_valid r.

Definition validate_reservation (id : string) (r : Reservation) : outcome () :=
  if reservation_valid id r then Ok () else Raise corrupt.

(** What a reservation adds to its day in the loop of [_validate_provider_aggregates]. *)
Definition charged_calls (r : Reservation) : Z := match pr_state r with RReleased => 0 | _ => 1 end.
Definition charged_input (r : Reservation) : Z :=
  match pr_state r with
  | RReleased => 0
  | RSettled => default 0 (pr_input_actual r)
  | _ => pr_input_reserved r
  end.
Definition charged_output (r : Reservation) : Z :=
  match pr_state r with
  | RReleased => 0
  | RSettled => default 0 (pr_output_actual r)
  | _ => pr_output_reserved r
  end.
Definition overran (r : Reservation) : bool :=
  match pr_state r with
  | RSettled => (pr_input_reserved r <? default 0 (pr_input_actual r))
                || (pr_output_reserved r <? default 0 (pr_output_actual r))
  | _ => false
  end.
Definition stale_unknown (updated_at : time) (r : Reservation) : bool :=
  match pr_state r with RUnknown => pr_expires_at r <=? updated_at | _ => false end.

(** The reservation belongs to this provider day. *)
Definition on_day (k : string * Z) (r : Reservation) : bool := bool_decide ((pr_provider r, pr_budget_day r) = k).

Definition sum_reservations (f : Reservation → Z) (m : gmap string Reservation) : Z :=
  map_fold (λ _ r acc, f r + acc) 0 m.

(** [expected[day]], [overruns[day]] and [stale_unknown_evidence[day]] after the loop. *)
Definition expected (f : Reservation → Z) (k : string * Z) (s : BudgetStore) : Z :=
  sum_reservations (λ r, if on_day k r then f r else 0) (bs_reservations s).
Definition any_on_day (p : Reservation → bool) (k : string * Z) (s : BudgetStore) : bool :=
  bool_decide (map_Exists (λ _ r, on_day k r && p r = true) (bs_reservations s)).

(** The last loop, for one day. *)
Definition day_agrees (k : string * Z) (d : BudgetDay) (s : BudgetStore) : bool :=
  let overrun := any_on_day overran k s in
  let stale_started := any_on_day (stale_unknown (bd_updated_at d)) k s in
  (bd_calls_used d =? expected charged_calls k s)
  && (bd_input_tokens_used d =? expected charged_input k s)
  && (bd_output_tokens_used d =? expected charged_output k s)
  && negb (overrun && (negb (bd_reconciliation_required d)
                       || negb (bool_decide (bd_reconciliation_code d = USAGE_OVERRUN_CODE))))
  && negb (negb overrun && bd_reconciliation_required d
           && (negb (bool_decide (bd_reconciliation_code d = STALE_STARTED_CODE)) || negb stale_started))
  && negb (negb overrun && negb (bd_reconciliation_required d) && nonempty (bd_reconciliation_code d)).

(** [_validate_provider_aggregates]: its three loops, all of whose failures are one exception. *)
Definition aggregates_valid (provider : string) (s : BudgetStore) : bool :=
  negb (blank provider)
  && bool_decide (map_Forall (λ k d, k.1 = provider → day_valid k.1 d = true) (bs_days s))
  && bool_decide (map_Forall (λ id r, pr_provider r = provider →
        reservation_valid id r = true ∧ is_Some (bs_days s !! (provider, pr_budget_day r))) (bs_reservations s))
  && bool_decide (map_Forall (λ k d, k.1 = provider → day_agrees k d s = true) (bs_days s)).

Definition validate_provider_aggregates (provider : string) (s : BudgetStore) : outcome () :=
  if aggregates_valid provider s then Ok () else Raise corrupt.

Definition all_providers (s : BudgetStore) : list string :=
  dedup (map (λ x, x.1.1) (map_to_list (bs_days s)) ++ map (λ x, pr_provider x.2) (map_to_list (bs_reservations s))).

(** A loop of checks. *)
Definition for_each {A} (f : A → outcome ()) (l : list A) : outcome () := outcome_foldl (λ _ x, f x) () l.

Definition validate_all_aggregates (s : BudgetStore) : outcome () :=
  for_each (λ p, validate_provider_aggregates p s) (all_providers s).

Definition validate_scope (provider : option string) (s : BudgetStore) : outcome () :=
  match provider with None => validate_all_aggregates s | Some p => validate_provider_aggregates p s end.

(** * Sweeps *)

(** The optional [WHERE provider = ...]. *)
Definition in_scope (provider : option string) (r : Reservation) : bool :=
  match provider with Some p => bool_decide (pr_provider r = p) | None => true end.

(** The rows a sweep selects, as read before its loop. *)
Definition select_reservations (states : list ReservationState) (now : time) (provider : option string)
    (s : BudgetStore) : list (string * Reservation) :=
  filter (λ x, pr_state x.2 ∈ states ∧ pr_expires_at x.2 ≤ now ∧ in_scope provider x.2 = true)
    (map_to_list (bs_reservations s)).

Definition day_key (r : Reservation) : string * Z := (pr_provider r, pr_budget_day r).

(** The day after the refund of an unstarted reservation. *)
Definition refund_day (now : time) (r : Reservation) (d : BudgetDay) : BudgetDay :=
  mkDay (bd_calls_used d - 1) (bd_input_tokens_used d - pr_input_reserved r)
    (bd_output_tokens_used d - pr_output_reserved r) (bd_reconciliation_required d)
    (bd_reconciliation_code d) now.

(** The body of the loop of [_release_expired_unstarted]. *)
Definition release_one (now : time) (s : BudgetStore) (x : string * Reservation) : outcome BudgetStore :=
  let '(id, r) := x in
  _ ← validate_reservation id r;
  match bs_days s !! day_key r with
  | None => Raise no_day
  | Some d =>
      Ok (put_reservation id (set_pr_state RReleased r) (put_day (day_key r) (refund_day now r d) s))
  end.

Definition affected (l : list (string * Reservation)) : list string := dedup (map (λ x, pr_provider x.2) l).

Definition _release_expired_unstarted (now : time) (provider : option string) (s : BudgetStore)
    : outcome (Z * BudgetStore) :=
  _ ← validate_scope provider s;
  let rows := select_reservations [RReserved] now provider s in
  s' ← outcome_foldl (release_one now) s rows;
  _ ← for_each (λ p, validate_provider_aggregates p s') (affected rows);
  Ok (Z.of_nat (length rows), s').

(** The day after an expired unknown: latched, an earlier code kept. *)
Definition latched_day (now : time) (d : BudgetDay) : BudgetDay :=
  mkDay (bd_calls_used d) (bd_input_tokens_used d) (bd_output_tokens_used d) true
    (if bd_reconciliation_required d then bd_reconciliation_code d else STALE_STARTED_CODE) now.

(** [_latch_expired_unknown_reconciliation]. *)
Definition latch_expired_unknown (now : time) (id : string) (r : Reservation) (s : BudgetStore) : outcome BudgetStore :=
  _ ← validate_reservation id r;
  if bool_decide (pr_state r ≠ RUnknown) || (now <? pr_expires_at r) then Ok s
  else
    match bs_days s !! day_key r with
    | None => Raise no_day
    | Some d =>
        _ ← validate_day (pr_provider r) d;
        Ok (put_day (day_key r) (latched_day now d) s)
    end.

(** The body of the loop of [_sweep_expired_ambiguous]. *)
Definition sweep_one (now : time) (acc : Z * BudgetStore) (x : string * Reservation) : outcome (Z * BudgetStore) :=
  let '(transitioned, s) := acc in
  let '(id, r) := x in
  _ ← validate_reservation id r;
  let started := bool_decide (pr_state r = RStarted) in
  let r' := if started then set_pr_state RUnknown r else r in
  let s' := if started then put_reservation id r' s else s in
  s'' ← latch_expired_unknown now id r' s';
  Ok (if started then transitioned + 1 else transitioned, s'').

Definition _sweep_expired_ambiguous (now : time) (provider : option string) (s : BudgetStore)
    : outcome (Z * BudgetStore) :=
  _ ← validate_scope provider s;
  let rows := select_reservations [RStarted; RUnknown] now provider s in
  res ← outcome_foldl (sweep_one now) (0, s) rows;
  _ ← for_each (λ p, validate_provider_aggregates p res.2) (affected rows);
  Ok res.

(** * Transactions *)

Definition store_error {A} : outcome A := Raise (ProviderBudgetUnavailable "durable provider budget store unavailable").

(** A method whose only commit is at its end. *)
Definition transaction {A} (fails : bool) (body : BudgetStore → outcome (A * BudgetStore)) (s : BudgetStore)
    : outcome A * BudgetStore :=
  if fails then (store_error, s)
  else match body s with Ok (a, s') => (Ok a, s') | Raise e => (Raise e, s) end.

Record BudgetReservation : Type := mkBudgetReservation {
  br_reservation_id : string;
  br_provider : string;
  br_category : string;
  br_request_id : string;
  br_input_reserved : Z;
  br_output_reserved : Z;
}.

(** The first latched day of the provider. *)
Definition unresolved (provider : string) (s : BudgetStore) : option ((string * Z) * BudgetDay) :=
  head (filter (λ x, x.1.1 = provider ∧ bd_reconciliation_required x.2 = true) (map_to_list (bs_days s))).

(** The row of a day's first reservation, before it is charged. *)
Definition fresh_day (now : time) : BudgetDay := mkDay 0 0 0 false EmptyString now.

(** The rows [reserve] writes when there is room. *)
Definition charge_day (now : time) (k : string * Z) (input_tokens output_tokens : Z) (s : BudgetStore) : BudgetDay :=
  let d := default (fresh_day now) (bs_days s !! k) in
  mkDay (bd_calls_used d + 1) (bd_input_tokens_used d + input_tokens) (bd_output_tokens_used d + output_tokens)
    (bd_reconciliation_required d) (bd_reconciliation_code d) now.

Definition new_reservation (l : BudgetLimits) (provider category request_id : string) (input_tokens output_tokens : Z)
    (now : time) : Reservation :=
  mkReservation provider category request_id (date_of now) RReserved input_tokens output_tokens None None
    now None None (now + bl_reservation_ttl_seconds l * second).

(** After both sweeps: the ceilings, the two rows and the closing check.  The store is the
    one committed, on the refusals too. *)
Definition reserve_swept (l : BudgetLimits) (provider category request_id : string) (input_tokens output_tokens : Z)
    (now : time) (reservation_id : string) (s0 s : BudgetStore) : outcome BudgetReservation * BudgetStore :=
  match unresolved provider s with
  | Some (k, d) =>
      match validate_day k.1 d with
      | Raise e => (Raise e, s0)
      | Ok _ => (Raise (ProviderBudgetExceeded "provider budget reconciliation required"), s)
      end
  | None =>
      let k := (provider, date_of now) in
      match (match bs_days s !! k with Some d => validate_day provider d | None => Ok () end) with
      | Raise e => (Raise e, s0)
      | Ok _ =>
          let d := charge_day now k input_tokens output_tokens s in
          if (bl_calls l <? bd_calls_used d) || (bl_input_tokens l <? bd_input_tokens_used d)
             || (bl_output_tokens l <? bd_output_tokens_used d)
          then (Raise (ProviderBudgetExceeded "provider daily budget exceeded"), s)
          else
            match bs_reservations s !! reservation_id with
            | Some _ => (store_error, s0)
            | None =>
                let r := new_reservation l provider category request_id input_tokens output_tokens now in
                let s' := put_reservation reservation_id r (put_day k d s) in
                match validate_provider_aggregates provider s' with
                | Raise e => (Raise e, s0)
                | Ok _ => (Ok (mkBudgetReservation reservation_id provider category request_id
                                 input_tokens output_tokens), s')
                end
            end
      end
  end.

Definition reserve (l : BudgetLimits) (provider category request_id : string) (input_tokens output_tokens : Z)
    (now : time) (reservation_id : string) (fails : bool) (s : BudgetStore) : outcome BudgetReservation * BudgetStore :=
  match (_ ← require_text "provider" provider;
         _ ← require_text "category" category;
         request_id ← canonical_request_id request_id;
         _ ← require_nonnegative_int "input_tokens" input_tokens;
         _ ← require_nonnegative_int "output_tokens" output_tokens;
         Ok request_id) with
  | Raise e => (Raise e, s)
  | Ok request_id =>
      if fails then (store_error, s)
      else
        match (s1 ← _release_expired_unstarted now (Some provider) s;
               s2 ← _sweep_expired_ambiguous now (Some provider) s1.2;
               Ok s2.2) with
        | Raise e => (Raise e, s)
        | Ok s2 => reserve_swept l provider category request_id input_tokens output_tokens now reservation_id s s2
        end
  end.

(** The row a method acts on, with the checks every method starts with. *)
Definition load_reservation (reservation_id verb : string) (s : BudgetStore) : outcome Reservation :=
  match bs_reservations s !! reservation_id with
  | None => Raise (ProviderBudgetUnavailable ("provider reservation cannot be " +:+ verb))
  | Some r =>
      _ ← validate_reservation reservation_id r;
      _ ← validate_provider_aggregates (pr_provider r) s;
      Ok r
  end.

(** The closing flush and check. *)
Definition commit_checked (provider : string) (s : BudgetStore) : outcome (() * BudgetStore) :=
  _ ← validate_provider_aggregates provider s; Ok ((), s).

Definition cannot {A} (verb : string) : outcome A :=
  Raise (ProviderBudgetUnavailable ("provider reservation cannot be " +:+ verb)).

(** A method that checks its text argument first. *)
Definition with_text (name value : string) {A} (body : BudgetStore → outcome A * BudgetStore) (s : BudgetStore)
    : outcome A * BudgetStore :=
  match require_text name value with Raise e => (Raise e, s) | Ok _ => body s end.

Definition start_reservation (now : time) (r : Reservation) : Reservation :=
  mkReservation (pr_provider r) (pr_category r) (pr_request_id r) (pr_budget_day r) RStarted
    (pr_input_reserved r) (pr_output_reserved r) (pr_input_actual r) (pr_output_actual r)
    (pr_created_at r) (Some now) (pr_settled_at r) (pr_expires_at r).

Definition mark_started (reservation_id : string) (now : time) (fails : bool) : BudgetStore → outcome () * BudgetStore :=
  with_text "reservation_id" reservation_id (transaction fails (λ s,
    r ← load_reservation reservation_id "started" s;
    if bool_decide (pr_state r ≠ RReserved) then cannot "started"
    else if (now <? pr_created_at r) || (pr_expires_at r <=? now) then cannot "started"
    else commit_checked (pr_provider r) (put_reservation reservation_id (start_reservation now r) s))).

Definition settle_day (now : time) (r : Reservation) (input_tokens output_tokens : Z) (d : BudgetDay) : BudgetDay :=
  let over := (pr_input_reserved r <? input_tokens) || (pr_output_reserved r <? output_tokens) in
  mkDay (bd_calls_used d) (bd_input_tokens_used d - pr_input_reserved r + input_tokens)
    (bd_output_tokens_used d - pr_output_reserved r + output_tokens)
    (over || bd_reconciliation_required d)
    (if over then USAGE_OVERRUN_CODE else bd_reconciliation_code d) now.

Definition settle_reservation (now : time) (r : Reservation) (input_tokens output_tokens : Z) : Reservation :=
  mkReservation (pr_provider r) (pr_category r) (pr_request_id r) (pr_budget_day r) RSettled
    (pr_input_reserved r) (pr_output_reserved r) (Some input_tokens) (Some output_tokens)
    (pr_created_at r) (pr_started_at r) (Some now) (pr_expires_at r).

Definition settle (reservation_id : string) (input_tokens output_tokens : Z) (now : time) (fails : bool) (s : BudgetStore)
    : outcome () * BudgetStore :=
  match (_ ← require_text "reservation_id" reservation_id;
         _ ← require_nonnegative_int "input_tokens" input_tokens;
         require_nonnegative_int "output_tokens" output_tokens) with
  | Raise e => (Raise e, s)
  | Ok _ =>
      transaction fails (λ s,
        r ← load_reservation reservation_id "settled" s;
        if bool_decide (pr_state r ≠ RStarted) then cannot "settled"
        else
          match bs_days s !! day_key r with
          | None => Raise no_day
          | Some d =>
              let d' := settle_day now r input_tokens output_tokens d in
              if (bd_input_tokens_used d' <? 0) || (bd_output_tokens_used d' <? 0) then Raise corrupt
              else commit_checked (pr_provider r)
                     (put_reservation reservation_id (settle_reservation now r input_tokens output_tokens)
                        (put_day (day_key r) d' s))
          end) s
  end.

Definition mark_unknown (reservation_id : string) (now : time) (fails : bool) : BudgetStore → outcome () * BudgetStore :=
  with_text "reservation_id" reservation_id (transaction fails (λ s,
    r ← load_reservation reservation_id "marked unknown" s;
    if bool_decide (pr_state r = RSettled) then Ok ((), s)
    else if bool_decide (pr_state r ∉ [RStarted; RUnknown]) then cannot "marked unknown"
    else if match pr_started_at r with Some t => now <? t | None => false end then cannot "marked unknown"
    else
      let r' := set_pr_state RUnknown r in
      s' ← latch_expired_unknown now reservation_id r' (put_reservation reservation_id r' s);
      commit_checked (pr_provider r) s')).

Definition release_expired_unstarted (now : time) (fails : bool) : BudgetStore → outcome Z * BudgetStore :=
  transaction fails (_release_expired_unstarted now None).
Definition reconcile_expired_started (now : time) (fails : bool) : BudgetStore → outcome Z * BudgetStore :=
  transaction fails (_sweep_expired_ambiguous now None).

(** * Status and inspection *)

Record PriceRecord : Type := mkPrice {
  px_provider : string;
  px_model : string;
  px_effective_date : Z;
  px_input_rate : Decimal;
  px_output_rate : Decimal;
}.

(** One entry of the price mapping: its key and the four metadata values. *)
Record PriceEntry : Type := mkPriceEntry {
  pe_key : string;
  pe_model : string;
  pe_effective_date : Z;
  pe_input_rate : Decimal;
  pe_output_rate : Decimal;
}.

Definition MILLION : Decimal := of_Z 1000000.

Definition rate_valid (rate : Decimal) : bool := is_finite rate && negb (dcmp_lt rate dzero).

(** One turn of the loop of [_validate_prices], less the type checks. *)
Definition validate_price (records : list PriceRecord) (e : PriceEntry) : outcome (list PriceRecord) :=
  let '(provider, separator, label) := partition_char ":" (pe_key e) in
  if negb separator || blank provider || blank label || negb (bool_decide (provider = strip provider))
     || negb (bool_decide (label = strip label))
  then Raise (ValueError "provider price key must be provider:label")
  else if blank (pe_model e) || negb (bool_decide (pe_model e = strip (pe_model e)))
  then Raise (ValueError "provider price model must be non-empty")
  else if negb (rate_valid (pe_input_rate e))
  then Raise (ValueError "provider price input rate must be a finite non-negative Decimal")
  else if negb (rate_valid (pe_output_rate e))
  then Raise (ValueError "provider price output rate must be a finite non-negative Decimal")
  else if existsb (λ r, bool_decide ((px_provider r, px_model r, px_effective_date r)
                                     = (provider, pe_model e, pe_effective_date e))) records
  then Raise (ValueError "provider price metadata must be unique by provider, model, and effective_date")
  else Ok (records ++ [mkPrice provider (pe_model e) (pe_effective_date e) (pe_input_rate e) (pe_output_rate e)]).

Definition validate_prices (prices : list PriceEntry) : outcome (list PriceRecord) :=
  outcome_foldl validate_price [] prices.

(** [max(candidates, key=effective_date)]: the first of the greatest. *)
Definition latest_price (x : PriceRecord) (l : list PriceRecord) : PriceRecord :=
  foldl (λ best p, if px_effective_date best <? px_effective_date p then p else best) x l.

Definition effective_price (prices : list PriceRecord) (provider : string) (model : option string) (budget_day : Z)
    : option PriceRecord :=
  let candidates := filter (λ p, px_provider p = provider ∧ px_effective_date p ≤ budget_day
                                 ∧ default (px_model p) model = px_model p) prices in
  match candidates with
  | [] => None
  | x :: l =>
      match model with
      | None => if forallb (λ p, bool_decide (px_model p = px_model x)) l then Some (latest_price x l) else None
      | Some _ => Some (latest_price x l)
      end
  end.

Record BudgetStatus : Type := mkStatus {
  bu_provider : string;
  bu_budget_day : Z;
  bu_calls_used : Z;
  bu_input_tokens_used : Z;
  bu_output_tokens_used : Z;
  bu_calls_limit : Z;
  bu_input_tokens_limit : Z;
  bu_output_tokens_limit : Z;
  bu_calls_remaining : Z;
  bu_input_tokens_remaining : Z;
  bu_output_tokens_remaining : Z;
  bu_reconciliation_required : bool;
  bu_reconciliation_code : string;
  bu_estimated_usd : option Decimal;
  bu_price_model : string;
  bu_price_effective_date : option Z;
}.

(** The day's usage, zero when there is no row. *)
Definition usage (k : string * Z) (s : BudgetStore) : Z * Z * Z :=
  match bs_days s !! k with
  | Some d => (bd_calls_used d, bd_input_tokens_used d, bd_output_tokens_used d)
  | None => (0, 0, 0)
  end.

(** The latched day of the provider with the least date. *)
Definition earliest_latched (provider : string) (s : BudgetStore) : option BudgetDay :=
  let latched := filter (λ x, x.1.1 = provider ∧ bd_reconciliation_required x.2 = true) (map_to_list (bs_days s)) in
  match latched with
  | [] => None
  | x :: l => Some (foldl (λ best y, if y.1.2 <? best.1.2 then y else best) x l).2
  end.

Definition estimated_usd (price : PriceRecord) (input_used output_used : Z) : outcome Decimal :=
  a ← dmul (of_Z input_used) (px_input_rate price);
  b ← dmul (of_Z output_used) (px_output_rate price);
  t ← dadd a b;
  ddiv t MILLION.

Definition status (l : BudgetLimits) (prices : list PriceRecord) (provider : string) (model : option string) (now : time)
    (fails : bool) (s : BudgetStore) : outcome BudgetStatus * BudgetStore :=
  match (_ ← require_text "provider" provider;
         match model with Some m => require_text "model" m | None => Ok () end) with
  | Raise e => (Raise e, s)
  | Ok _ =>
      let budget_day := date_of now in
      let '(read, s') := transaction fails (λ s,
        res ← _sweep_expired_ambiguous now (Some provider) s;
        _ ← validate_provider_aggregates provider res.2;
        Ok ((usage (provider, budget_day) res.2, earliest_latched provider res.2), res.2)) s in
      (match read with
       | Raise e => Raise e
       | Ok ((calls, input, output), latched) =>
           usd ← match effective_price prices provider model budget_day with
                 | None => Ok (None, EmptyString, None)
                 | Some p => v ← estimated_usd p input output; Ok (Some v, px_model p, Some (px_effective_date p))
                 end;
           let '(value, price_model, effective) := usd in
           Ok (mkStatus provider budget_day calls input output (bl_calls l) (bl_input_tokens l) (bl_output_tokens l)
                 (Z.max 0 (bl_calls l - calls))
                 (Z.max 0 (bl_input_tokens l - input)) (Z.max 0 (bl_output_tokens l - output))
                 (bool_decide (latched ≠ None)) (from_option bd_reconciliation_code EmptyString latched)
                 value price_model effective)
       end, s')
  end.

Record BudgetInspection : Type := mkBudgetInspection {
  bn_provider : string;
  bn_budget_day : Z;
  bn_calls_used : Z;
  bn_input_tokens_used : Z;
  bn_output_tokens_used : Z;
  bn_calls_limit : Z;
  bn_input_tokens_limit : Z;
  bn_output_tokens_limit : Z;
  bn_calls_remaining : Z;
  bn_input_tokens_remaining : Z;
  bn_output_tokens_remaining : Z;
  bn_reconciliation_required : bool;
  bn_expired_started_count : Z;
  bn_expired_unknown_count : Z;
  bn_reset_at : time;
}.

Definition count_state (st : ReservationState) (l : list (string * Reservation)) : Z :=
  Z.of_nat (length (filter (λ x, pr_state x.2 = st) l)).

Definition inspect (l : BudgetLimits) (provider : string) (now : time) (fails : bool) (s : BudgetStore)
    : outcome BudgetInspection :=
  _ ← require_text "provider" provider;
  let budget_day := date_of now in
  if fails then store_error
  else
    _ ← validate_provider_aggregates provider s;
    let '(calls, input, output) := usage (provider, budget_day) s in
    let latched := bool_decide (earliest_latched provider s ≠ None) in
    let ambiguous := select_reservations [RStarted; RUnknown] now (Some provider) s in
    _ ← for_each (λ x, validate_reservation x.1 x.2) ambiguous;
    let started := count_state RStarted ambiguous in
    let unknown := count_state RUnknown ambiguous in
    Ok (mkBudgetInspection provider budget_day calls input output (bl_calls l) (bl_input_tokens l) (bl_output_tokens l)
                 (Z.max 0 (bl_calls l - calls))
          (Z.max 0 (bl_input_tokens l - input)) (Z.max 0 (bl_output_tokens l - output))
          (latched || negb (started =? 0) || negb (unknown =? 0)) started unknown ((budget_day + 1) * day)).
