(* ===== verification/BudgetProofs.v ===== *)
(** The provider budget keeps its books: every transaction is a sequence of moves of a small
    machine, the moves keep the aggregates exact, and the ceilings and latches follow. *)

From S2P Require Import Prelude PyDecimal BrokerModels Pnl Database Identity Budget.
From Stdlib Require Import Ascii Lia.
Local Open Scope Z_scope.

(** * Sums over the reservations *)

Lemma sum_reservations_fresh f (m : gmap string Reservation) id r :
  m !! id = None → sum_reservations f (<[id := r]> m) = f r + sum_reservations f m.
Proof.
  intros Hid. unfold sum_reservations. rewrite map_fold_insert_L; [done| |done].
  intros. lia.
Qed.

Lemma sum_reservations_insert f (m : gmap string Reservation) id r :
  sum_reservations f (<[id := r]> m) = sum_reservations f m - from_option f 0 (m !! id) + f r.
Proof.
  destruct (m !! id) as [r0|] eqn:Hr0; simpl.
  - rewrite <- insert_delete_eq, sum_reservations_fresh by apply lookup_delete_eq.
    assert (sum_reservations f m = f r0 + sum_reservations f (delete id m)) as ->; [|lia].
    rewrite <- (sum_reservations_fresh f (delete id m) id r0) by apply lookup_delete_eq. by rewrite insert_delete_id.
  - rewrite sum_reservations_fresh by done. lia.
Qed.

Lemma sum_reservations_nonneg f (m : gmap string Reservation) :
  (∀ id r, m !! id = Some r → 0 ≤ f r) → 0 ≤ sum_reservations f m.
Proof.
  induction m as [|id r m Hid IH] using map_ind; intros Hf; [done|].
  rewrite sum_reservations_fresh by done.
  assert (0 ≤ f r) by (apply (Hf id); by rewrite lookup_insert_eq).
  assert (0 ≤ sum_reservations f m); [|lia]. apply IH. intros id' r' Hr'. apply (Hf id').
  rewrite lookup_insert_ne; [done|]. intros ->. by rewrite Hid in Hr'.
Qed.

Lemma sum_reservations_zero f (m : gmap string Reservation) :
  (∀ id r, m !! id = Some r → f r = 0) → sum_reservations f m = 0.
Proof.
  induction m as [|id r m Hid IH] using map_ind; intros Hf; [done|].
  rewrite sum_reservations_fresh by done. rewrite (Hf id) by (by rewrite lookup_insert_eq).
  rewrite IH; [done|]. intros id' r' Hr'. apply (Hf id'). rewrite lookup_insert_ne; [done|]. intros ->. by rewrite Hid in Hr'.
Qed.

Lemma on_day_spec k r : on_day k r = true ↔ day_key r = k.
Proof. unfold on_day. by rewrite bool_decide_eq_true. Qed.

Lemma any_on_day_spec p k s :
  any_on_day p k s = true ↔ ∃ id r, bs_reservations s !! id = Some r ∧ day_key r = k ∧ p r = true.
Proof.
  unfold any_on_day. rewrite bool_decide_eq_true. unfold map_Exists.
  split; intros (id & r & Hr & H); exists id, r; rewrite andb_true_iff, on_day_spec in *; tauto.
Qed.

(** What the totals become when one row of the day is written. *)
Lemma expected_put f k id r' s :
  day_key r' = k → (∀ r, bs_reservations s !! id = Some r → day_key r = k) →
  expected f k (put_reservation id r' s) = expected f k s - from_option f 0 (bs_reservations s !! id) + f r'.
Proof.
  intros Hk Hold. unfold expected. cbn. rewrite sum_reservations_insert.
  rewrite (proj2 (on_day_spec k r') Hk). destruct (bs_reservations s !! id) as [r|]; simpl; [|done].
  by rewrite (proj2 (on_day_spec k r) (Hold r eq_refl)).
Qed.

Lemma expected_put_other f k k' id r' s :
  day_key r' = k → (∀ r, bs_reservations s !! id = Some r → day_key r = k) → k' ≠ k →
  expected f k' (put_reservation id r' s) = expected f k' s.
Proof.
  intros Hk Hold Hne. unfold expected. cbn. rewrite sum_reservations_insert.
  assert (∀ r, day_key r = k → on_day k' r = false) as Hoff.
  { intros r Hr. apply not_true_is_false. rewrite on_day_spec. congruence. }
  rewrite (Hoff r' Hk). destruct (bs_reservations s !! id) as [r|]; simpl; [|lia]. rewrite (Hoff r (Hold r eq_refl)). lia.
Qed.

Lemma any_put_other p k k' id r' s :
  day_key r' = k → (∀ r, bs_reservations s !! id = Some r → day_key r = k) → k' ≠ k →
  any_on_day p k' (put_reservation id r' s) = any_on_day p k' s.
Proof.
  intros Hk Hold Hne. apply eq_true_iff_eq. rewrite !any_on_day_spec. cbn.
  split; intros (id2 & r2 & Hr2 & Hk2 & Hp); exists id2, r2; split_and!; try done.
  - destruct (decide (id2 = id)) as [->|Hid]; [rewrite lookup_insert_eq in Hr2|by rewrite lookup_insert_ne in Hr2].
    injection Hr2 as <-. by rewrite Hk in Hk2.
  - rewrite lookup_insert_ne; [done|]. intros ->. apply Hold in Hr2. congruence.
Qed.

(** * Exact books *)

(** What the latch columns say, given the evidence. *)
Definition latch_ok (over stale : bool) (d : BudgetDay) : Prop :=
  if over then bd_reconciliation_required d = true ∧ bd_reconciliation_code d = USAGE_OVERRUN_CODE
  else if bd_reconciliation_required d then bd_reconciliation_code d = STALE_STARTED_CODE ∧ stale = true
  else bd_reconciliation_code d = EmptyString.

Lemma day_agrees_spec k d s :
  day_agrees k d s = true ↔
    bd_calls_used d = expected charged_calls k s ∧ bd_input_tokens_used d = expected charged_input k s
    ∧ bd_output_tokens_used d = expected charged_output k s
    ∧ latch_ok (any_on_day overran k s) (any_on_day (stale_unknown (bd_updated_at d)) k s) d.
Proof.
  unfold day_agrees, latch_ok. cbv zeta. rewrite !andb_true_iff, !Z.eqb_eq.
  destruct (any_on_day overran k s), (bd_reconciliation_required d),
    (any_on_day (stale_unknown (bd_updated_at d)) k s); cbn;
    repeat match goal with |- context [bool_decide ?P] => destruct (bool_decide_reflect P) end;
    destruct (bd_reconciliation_code d); cbn; naive_solver.
Qed.

(** The books at time [now]: every row valid, every reservation on a day row, every day's
    totals and latch explained by its reservations, nothing dated later than [now]. *)
Record sound (now : time) (s : BudgetStore) : Prop := mkSound {
  sound_day : ∀ k d, bs_days s !! k = Some d →
    day_valid k.1 d = true ∧ day_agrees k d s = true ∧ bd_updated_at d ≤ now;
  sound_reservation : ∀ id r, bs_reservations s !! id = Some r →
    reservation_valid id r = true ∧ is_Some (bs_days s !! day_key r)
    ∧ pr_created_at r ≤ now ∧ from_option (λ t, t ≤ now) True (pr_started_at r);
}.

Lemma sound_later now now' s : sound now s → now ≤ now' → sound now' s.
Proof.
  intros [Hd Hr] Hle. split.
  - intros k d Hk. destruct (Hd k d Hk) as (? & ? & ?). split_and!; try done. lia.
  - intros id r Hid. destruct (Hr id r Hid) as (? & ? & ? & Hs). split_and!; try done; [lia|].
    destruct (pr_started_at r); simpl in *; [lia|done].
Qed.

(** Sound books pass every check. *)
Lemma sound_aggregates now s p : sound now s → blank p = false → validate_provider_aggregates p s = Ok ().
Proof.
  intros [Hd Hr] Hp. unfold validate_provider_aggregates, aggregates_valid. rewrite Hp. cbn [negb andb].
  rewrite !bool_decide_true; [done|..].
  - intros k d Hk _. by apply Hd.
  - intros id r Hid <-. destruct (Hr id r Hid) as (? & ? & _). done.
  - intros k d Hk _. by apply Hd.
Qed.

Lemma sound_validate_reservation now s id r :
  sound now s → bs_reservations s !! id = Some r → validate_reservation id r = Ok ().
Proof. intros Hs Hid. unfold validate_reservation. by destruct (sound_reservation _ _ Hs _ _ Hid) as [-> _]. Qed.

Lemma reservation_valid_provider id r : reservation_valid id r = true → blank (pr_provider r) = false.
Proof. unfold reservation_valid. rewrite !andb_true_iff, !negb_true_iff. tauto. Qed.

Lemma reservation_valid_charges id r :
  reservation_valid id r = true → 0 ≤ charged_calls r ∧ 0 ≤ charged_input r ∧ 0 ≤ charged_output r.
Proof.
  unfold reservation_valid, charged_calls, charged_input, charged_output. rewrite !andb_true_iff, !Z.leb_le.
  intros ((((((_ & Hi) & Ho) & Hai) & Hao) & _) & _).
  destruct (pr_state r), (pr_input_actual r), (pr_output_actual r); cbn in *; lia.
Qed.

(** How a write may move the latch columns of its day. *)
Definition latch_move (d d' : BudgetDay) (r' : Reservation) : Prop :=
  (overran r' = true ∧ bd_reconciliation_required d' = true ∧ bd_reconciliation_code d' = USAGE_OVERRUN_CODE)
  ∨ (overran r' = false ∧ bd_reconciliation_required d' = bd_reconciliation_required d
     ∧ bd_reconciliation_code d' = bd_reconciliation_code d)
  ∨ (overran r' = false ∧ stale_unknown (bd_updated_at d') r' = true ∧ bd_reconciliation_required d' = true
     ∧ bd_reconciliation_code d'
       = if bd_reconciliation_required d then bd_reconciliation_code d else STALE_STARTED_CODE).

Lemma latch_ok_move over stale stale' d d' r' :
  latch_ok over stale d → latch_move d d' r' →
  (stale = true → stale' = true) → (stale_unknown (bd_updated_at d') r' = true → stale' = true) →
  latch_ok (overran r' || over) stale' d'.
Proof.
  unfold latch_ok. intros Hok [(-> & Hq & Hc)|[(-> & Hq & Hc)|(-> & Hst & Hq & Hc)]] Hs1 Hs2; cbn [orb]; [done|..];
    rewrite Hq, Hc; destruct over, (bd_reconciliation_required d); naive_solver.
Qed.

Lemma day_agrees_valid k d s :
  day_agrees k d s = true → blank k.1 = false →
  (∀ id r, bs_reservations s !! id = Some r → reservation_valid id r = true) → day_valid k.1 d = true.
Proof.
  intros (Hc & Hi & Ho & Hl)%day_agrees_spec Hb Hv. unfold day_valid. rewrite Hb. cbn [negb andb].
  assert (∀ f, (∀ id r, reservation_valid id r = true → 0 ≤ f r) → 0 ≤ expected f k s) as Hpos.
  { intros f Hf. apply sum_reservations_nonneg. intros id r Hr. destruct (on_day k r); [by eapply Hf, Hv|done]. }
  rewrite Hc, Hi, Ho, !andb_true_iff, !Z.leb_le. split_and!;
    try (apply Hpos; intros id r (H1 & H2 & H3)%reservation_valid_charges; done).
  unfold latch_ok in Hl. destruct (any_on_day overran k s); [destruct Hl as [-> ->]; done|].
  destruct (bd_reconciliation_required d); [destruct Hl as [-> _]; done|by rewrite Hl].
Qed.

Lemma no_day_no_reservations now s k :
  sound now s → bs_days s !! k = None → ∀ id r, bs_reservations s !! id = Some r → day_key r ≠ k.
Proof. intros Hs Hk id r Hr <-. destruct (sound_reservation _ _ Hs _ _ Hr) as (_ & [d Hd] & _). congruence. Qed.

(** The day row, or the row [reserve] would create, agrees with the reservations. *)
Lemma sound_day_default now s k :
  sound now s →
  let d := default (fresh_day now) (bs_days s !! k) in
  bd_calls_used d = expected charged_calls k s ∧ bd_input_tokens_used d = expected charged_input k s
  ∧ bd_output_tokens_used d = expected charged_output k s
  ∧ latch_ok (any_on_day overran k s) (any_on_day (stale_unknown (bd_updated_at d)) k s) d ∧ bd_updated_at d ≤ now.
Proof.
  intros Hs. destruct (bs_days s !! k) as [d|] eqn:Hd; cbn [default from_option id].
  - destruct (sound_day _ _ Hs _ _ Hd) as (_ & (? & ? & ? & ?)%day_agrees_spec & ?). done.
  - assert (∀ f, expected f k s = 0) as Hz.
    { intros f. apply sum_reservations_zero. intros id r Hr. destruct (on_day k r) eqn:Hon; [|done].
      apply on_day_spec in Hon. by destruct (no_day_no_reservations _ _ _ Hs Hd _ _ Hr). }
    assert (any_on_day overran k s = false) as ->.
    { apply not_true_is_false. rewrite any_on_day_spec. intros (id & r & Hr & Hk & _).
      by destruct (no_day_no_reservations _ _ _ Hs Hd _ _ Hr). }
    rewrite !Hz. unfold fresh_day. cbn. split_and!; try done.
Qed.

(** Writing one reservation and its day row keeps the books sound when the day moves by the
    difference of the charges and the latch moves with the evidence. *)
Lemma sound_write now s id r' d' :
  let k := day_key r' in
  let ro := bs_reservations s !! id in
  let d := default (fresh_day now) (bs_days s !! k) in
  sound now s →
  (∀ r, ro = Some r → day_key r = k ∧ overran r = false ∧ ∀ u, stale_unknown u r = true → stale_unknown u r' = true) →
  reservation_valid id r' = true → pr_created_at r' ≤ now → from_option (λ t, t ≤ now) True (pr_started_at r') →
  bd_calls_used d' = bd_calls_used d - from_option charged_calls 0 ro + charged_calls r' →
  bd_input_tokens_used d' = bd_input_tokens_used d - from_option charged_input 0 ro + charged_input r' →
  bd_output_tokens_used d' = bd_output_tokens_used d - from_option charged_output 0 ro + charged_output r' →
  bd_updated_at d ≤ bd_updated_at d' ≤ now → latch_move d d' r' →
  sound now (put_reservation id r' (put_day k d' s)).
Proof.
  intros k ro d Hs Hro Hv Hcr Hst Hc Hi Ho Hu Hlm. set (s0 := put_day k d' s). set (s' := put_reservation id r' s0).
  assert (∀ r, bs_reservations s0 !! id = Some r → day_key r = k) as Hk by (intros r Hr; by apply Hro).
  assert (∀ i x, bs_reservations s' !! i = Some x → (i = id ∧ x = r') ∨ (i ≠ id ∧ bs_reservations s !! i = Some x)) as Hlook.
  { intros i x Hx. unfold s' in Hx. cbn in Hx. destruct (decide (i = id)) as [->|Hne];
      [rewrite lookup_insert_eq in Hx; naive_solver|rewrite lookup_insert_ne in Hx by done; auto]. }
  assert (∀ i x, bs_reservations s' !! i = Some x → reservation_valid i x = true) as Hvalid.
  { intros i x [[-> ->]|[_ Hx]]%Hlook; [done|]. by apply (sound_reservation _ _ Hs). }
  destruct (sound_day_default now s k Hs) as (Ec & Ei & Eo & El & Eu). fold d in Ec, Ei, Eo, El, Eu.
  assert (day_agrees k d' s' = true) as Hag.
  { apply day_agrees_spec. unfold s'. rewrite !expected_put by done.
    assert (∀ f, expected f k s0 = expected f k s) as E by done. rewrite !E, <- Ec, <- Ei, <- Eo.
    split_and!; [exact Hc|exact Hi|exact Ho|].
    assert (any_on_day overran k (put_reservation id r' s0) = overran r' || any_on_day overran k s) as ->.
    { apply eq_true_iff_eq. rewrite orb_true_iff, !any_on_day_spec. split.
      - intros (i & x & [[-> ->]|[_ Hx]]%Hlook & Hkx & Hpx); [by left|right; by exists i, x].
      - intros [Hov|(i & x & Hx & Hkx & Hpx)]; [by exists id, r'; split; [cbn; apply lookup_insert_eq|]|].
        exists i, x. split; [|done]. cbn. rewrite lookup_insert_ne; [done|]. intros ->. destruct (Hro x Hx) as (_ & ? & _). congruence. }
    eapply latch_ok_move; [exact El|exact Hlm| |].
    - rewrite !any_on_day_spec. intros (i & x & Hx & Hkx & Hpx).
      assert (stale_unknown (bd_updated_at d') x = true) as Hpx'.
      { unfold stale_unknown in *. destruct (pr_state x); try done. apply Z.leb_le in Hpx. apply Z.leb_le. lia. }
      destruct (decide (i = id)) as [->|Hne].
      + exists id, r'. split_and!; [cbn; apply lookup_insert_eq|done|]. by apply (Hro x Hx).
      + exists i, x. split_and!; [cbn; by rewrite lookup_insert_ne|done|done].
    - intros Hsr. rewrite any_on_day_spec. exists id, r'. split_and!; [cbn; apply lookup_insert_eq|done|done]. }
  split.
  - intros k' x Hx. unfold s', s0 in Hx. cbn in Hx. destruct (decide (k' = k)) as [->|Hne].
    + rewrite lookup_insert_eq in Hx. injection Hx as <-. split_and!; [|done|lia].
      eapply day_agrees_valid; [exact Hag| |done]. by apply (reservation_valid_provider id).
    + rewrite lookup_insert_ne in Hx by done. destruct (sound_day _ _ Hs _ _ Hx) as (Hd1 & Hd2 & Hd3). split_and!; [done| |done].
      apply day_agrees_spec in Hd2. apply day_agrees_spec. unfold s'.
      rewrite !(expected_put_other _ k k' id r' s0), !(any_put_other _ k k' id r' s0) by done. exact Hd2.
  - intros i x [[-> ->]|[_ Hx]]%Hlook; [split_and!; try done; cbn; rewrite lookup_insert_eq; by eexists|].
    destruct (sound_reservation _ _ Hs _ _ Hx) as (? & Hday & ? & ?). split_and!; try done.
    cbn. destruct (decide (day_key x = k)) as [->|]; [rewrite lookup_insert_eq; by eexists|by rewrite lookup_insert_ne].
Qed.
