(* ===== verification/BudgetMachine.v ===== *)
(** The provider budget as a machine: six moves, the refinement of the transactions to them,
    and what follows for ceilings, latches and refunds. *)

From S2P Require Import Prelude PyDecimal BrokerModels Pnl Database Identity Budget BudgetProofs.
From Stdlib Require Import Ascii Lia.
Local Open Scope Z_scope.

(** No day of the provider is latched. *)
Definition unlatched (p : string) (s : BudgetStore) : Prop :=
  ∀ n d, bs_days s !! (p, n) = Some d → bd_reconciliation_required d = false.

Inductive move (l : BudgetLimits) (now : time) : BudgetStore → BudgetStore → Prop :=
| MReserve s id p c q i o :
    blank p = false → blank c = false → canonical_request_id q = Ok q → 0 ≤ i → 0 ≤ o → blank id = false →
    bs_reservations s !! id = None → unlatched p s →
    bd_calls_used (charge_day now (p, date_of now) i o s) ≤ bl_calls l →
    bd_input_tokens_used (charge_day now (p, date_of now) i o s) ≤ bl_input_tokens l →
    bd_output_tokens_used (charge_day now (p, date_of now) i o s) ≤ bl_output_tokens l →
    move l now s (put_reservation id (new_reservation l p c q i o now)
                    (put_day (p, date_of now) (charge_day now (p, date_of now) i o s) s))
| MStart s id r :
    bs_reservations s !! id = Some r → pr_state r = RReserved → pr_created_at r ≤ now < pr_expires_at r →
    move l now s (put_reservation id (start_reservation now r) s)
| MSettle s id r d i o :
    bs_reservations s !! id = Some r → pr_state r = RStarted → bs_days s !! day_key r = Some d → 0 ≤ i → 0 ≤ o →
    move l now s (put_reservation id (settle_reservation now r i o) (put_day (day_key r) (settle_day now r i o d) s))
| MUnknown s id r :
    bs_reservations s !! id = Some r → pr_state r ∈ [RStarted; RUnknown] → now < pr_expires_at r →
    move l now s (put_reservation id (set_pr_state RUnknown r) s)
| MStale s id r d :
    bs_reservations s !! id = Some r → pr_state r ∈ [RStarted; RUnknown] → pr_expires_at r ≤ now →
    bs_days s !! day_key r = Some d →
    move l now s (put_reservation id (set_pr_state RUnknown r) (put_day (day_key r) (latched_day now d) s))
| MRelease s id r d :
    bs_reservations s !! id = Some r → pr_state r = RReserved → pr_expires_at r ≤ now →
    bs_days s !! day_key r = Some d →
    move l now s (put_reservation id (set_pr_state RReleased r) (put_day (day_key r) (refund_day now r d) s)).

(** ** Moves keep the books *)

Lemma reservation_valid_spec id r :
  reservation_valid id r = true ↔
    (canonical_request_id (pr_request_id r) = Ok (pr_request_id r) ∧ blank id = false ∧ blank (pr_provider r) = false
     ∧ blank (pr_category r) = false ∧ 0 ≤ pr_input_reserved r ∧ 0 ≤ pr_output_reserved r)
    ∧ nonneg_opt (pr_input_actual r) = true ∧ nonneg_opt (pr_output_actual r) = true
    ∧ timestamps_valid r = true ∧ state_fields_valid r = true.
Proof.
  unfold reservation_valid. rewrite !andb_true_iff, !negb_true_iff, bool_decide_eq_true, !Z.leb_le. tauto.
Qed.

(** The instants and amounts a valid open reservation carries. *)
Lemma reservation_valid_started id r :
  reservation_valid id r = true → pr_state r ∈ [RStarted; RUnknown] →
  ∃ t, pr_started_at r = Some t ∧ pr_settled_at r = None ∧ pr_input_actual r = None ∧ pr_output_actual r = None
       ∧ pr_created_at r ≤ t < pr_expires_at r ∧ pr_budget_day r = date_of (pr_created_at r).
Proof.
  intros (_ & _ & _ & Ht & Hf)%reservation_valid_spec Hst. unfold timestamps_valid, state_fields_valid in *.
  destruct (pr_state r); rewrite ?elem_of_cons, ?elem_of_nil in Hst; try naive_solver;
    rewrite !andb_true_iff, !bool_decide_eq_true in Hf; destruct Hf as (((H1 & H2) & H3) & H4);
    destruct (pr_started_at r) as [t|]; try done; rewrite H2 in Ht;
    rewrite !andb_true_iff, !Z.leb_le, !Z.ltb_lt, Z.eqb_eq in Ht; exists t; naive_solver.
Qed.

Lemma reservation_valid_unstarted id r :
  reservation_valid id r = true → pr_state r = RReserved →
  pr_started_at r = None ∧ pr_settled_at r = None ∧ pr_input_actual r = None ∧ pr_output_actual r = None
  ∧ pr_created_at r < pr_expires_at r ∧ pr_budget_day r = date_of (pr_created_at r).
Proof.
  intros (_ & _ & _ & Ht & Hf)%reservation_valid_spec Hst. unfold timestamps_valid, state_fields_valid in *.
  rewrite Hst in Hf. rewrite !andb_true_iff, !bool_decide_eq_true in Hf. destruct Hf as (((H1 & H2) & H3) & H4).
  rewrite !andb_true_iff, Z.ltb_lt, Z.eqb_eq in Ht. tauto.
Qed.

Lemma put_day_same s k d : bs_days s !! k = Some d → put_day k d s = s.
Proof. intros Hd. unfold put_day. rewrite insert_id by done. by destruct s. Qed.

Lemma overran_open r : pr_state r ≠ RSettled → overran r = false.
Proof. unfold overran. by destruct (pr_state r). Qed.

Section Machine.
Context (l : BudgetLimits) (Hlimits : budget_limits l = Ok l).

Lemma ttl_positive : 0 < bl_reservation_ttl_seconds l.
Proof.
  unfold budget_limits in Hlimits. repeat (apply outcome_bind_Ok in Hlimits as ([] & ? & Hlimits)).
  unfold require_positive_int in *. destruct (Z.leb_spec (bl_reservation_ttl_seconds l) 0); done.
Qed.

(** A write to an existing reservation, its day row present. *)
Lemma sound_rewrite now s id r r' d d' :
  sound now s → bs_reservations s !! id = Some r → bs_days s !! day_key r = Some d → day_key r' = day_key r →
  pr_state r ≠ RSettled → (∀ u, stale_unknown u r = true → stale_unknown u r' = true) →
  reservation_valid id r' = true → pr_created_at r' ≤ now → from_option (λ t, t ≤ now) True (pr_started_at r') →
  bd_calls_used d' = bd_calls_used d - charged_calls r + charged_calls r' →
  bd_input_tokens_used d' = bd_input_tokens_used d - charged_input r + charged_input r' →
  bd_output_tokens_used d' = bd_output_tokens_used d - charged_output r + charged_output r' →
  (d' = d ∨ bd_updated_at d' = now) → latch_move d d' r' →
  sound now (put_reservation id r' (put_day (day_key r) d' s)).
Proof.
  intros Hs Hr Hd Hk Hst Hstale Hv Hc Ht Ec Ei Eo Hu Hlm. rewrite <- Hk.
  assert (bd_updated_at d ≤ now) as Hdu by (by apply (sound_day _ _ Hs _ _ Hd)).
  apply sound_write; rewrite ?Hk, ?Hd, ?Hr; try done.
  - intros r0 [= <-]. split_and!; [done|by apply overran_open|done].
  - cbn. destruct Hu as [->|Hu]; lia.
Qed.

(** An open reservation becomes unknown, its charge kept. *)
Lemma sound_unknown now s id r d d' :
  sound now s → bs_reservations s !! id = Some r → pr_state r ∈ [RStarted; RUnknown] → bs_days s !! day_key r = Some d →
  (bd_calls_used d', bd_input_tokens_used d', bd_output_tokens_used d')
    = (bd_calls_used d, bd_input_tokens_used d, bd_output_tokens_used d) →
  (d' = d ∨ bd_updated_at d' = now) → latch_move d d' (set_pr_state RUnknown r) →
  sound now (put_reservation id (set_pr_state RUnknown r) (put_day (day_key r) d' s)).
Proof.
  intros Hs Hr Hst Hd E Hu Hlm. injection E as Ec Ei Eo.
  destruct (sound_reservation _ _ Hs _ _ Hr) as (Hv & _ & Hcr & Hstart).
  destruct (reservation_valid_started _ _ Hv Hst) as (t & E1 & E2 & E3 & E4 & E5 & E6).
  assert (pr_state r = RStarted ∨ pr_state r = RUnknown) as Hcase by set_solver.
  apply sound_rewrite with (r := r) (d := d); try done; unfold charged_calls, charged_input, charged_output; cbn;
    try (destruct Hcase as [-> | ->]; (done || lia)).
  - unfold stale_unknown. cbn. by destruct Hcase as [-> | ->].
  - apply reservation_valid_spec in Hv. apply reservation_valid_spec. cbn. split_and!; try apply Hv.
    unfold state_fields_valid. cbn. by rewrite E1, E2, E3, E4.
Qed.

Lemma move_sound now s s' : sound now s → move l now s s' → sound now s'.
Proof.
  intros Hs Hmove. pose proof ttl_positive as Httl.
  destruct Hmove as [s id p c q i o Hp Hc Hq Hi Ho Hid Hfresh Hun _ _ _|s id r Hr Hst Ht|s id r d i o Hr Hst Hd Hi Ho
    |s id r Hr Hst Ht|s id r d Hr Hst Ht Hd|s id r d Hr Hst Ht Hd].
  - change (p, date_of now) with (day_key (new_reservation l p c q i o now)) at 1.
    destruct (sound_day_default now s (p, date_of now) Hs) as (_ & _ & _ & _ & Hu). cbv zeta in Hu.
    apply sound_write; rewrite ?Hfresh; try done;
      change (day_key (new_reservation l p c q i o now)) with (p, date_of now);
      unfold charge_day, charged_calls, charged_input, charged_output; cbn [from_option new_reservation pr_state pr_input_reserved pr_output_reserved bd_calls_used bd_input_tokens_used bd_output_tokens_used bd_updated_at]; try lia.
    + apply reservation_valid_spec. cbn. split_and!; try done. unfold timestamps_valid. cbn.
      rewrite Z.eqb_refl. cbn. rewrite !andb_true_iff, Z.ltb_lt. unfold second. split_and!; try done; lia.
    + right. left. done.
  - destruct (sound_reservation _ _ Hs _ _ Hr) as (Hv & [d Hd] & Hcr & _).
    rewrite <- (put_day_same s (day_key r) d Hd). 
    destruct (reservation_valid_unstarted _ _ Hv Hst) as (E1 & E2 & E3 & E4 & E5 & E6).
    apply sound_rewrite with (r := r) (d := d); try done; unfold charged_calls, charged_input, charged_output; cbn;
      rewrite ?Hst; try lia; try done.
    + unfold stale_unknown. by rewrite Hst.
    + apply reservation_valid_spec in Hv. apply reservation_valid_spec. cbn. split_and!; try apply Hv.
      * unfold timestamps_valid. cbn. rewrite E2, E6, Z.eqb_refl. cbn. rewrite !andb_true_iff, Z.leb_le, !Z.ltb_lt. lia.
      * unfold state_fields_valid. cbn. by rewrite E2, E3, E4.
    + by left.
    + right. left. done.
  - destruct (sound_reservation _ _ Hs _ _ Hr) as (Hv & _ & Hcr & Hstart).
    destruct (reservation_valid_started _ _ Hv) as (t & E1 & E2 & E3 & E4 & E5 & E6); [rewrite Hst; left|].
    rewrite E1 in Hstart. cbn in Hstart.
    apply sound_rewrite with (r := r) (d := d); try done; unfold charged_calls, charged_input, charged_output; cbn;
      rewrite ?Hst, ?E1; try lia; try done.
    + unfold stale_unknown. by rewrite Hst.
    + apply reservation_valid_spec in Hv. apply reservation_valid_spec. cbn. rewrite !Z.leb_le. split_and!; try apply Hv; try done.
      * unfold timestamps_valid. cbn. rewrite E1, E6, Z.eqb_refl. cbn. rewrite !andb_true_iff, !Z.leb_le, !Z.ltb_lt. lia.
      * unfold state_fields_valid. cbn. by rewrite E1.
    + unfold latch_move, settle_day, overran. cbn. destruct (_ || _); [by left|by right; left].
  - destruct (sound_reservation _ _ Hs _ _ Hr) as (Hv & [d Hd] & Hcr & Hstart).
    rewrite <- (put_day_same s (day_key r) d Hd). apply sound_unknown with d; try done; [by left|by right; left].
  - apply sound_unknown with d; try done; [by right|]. right. right. cbn. split_and!; try done. by apply Z.leb_le.
  - destruct (sound_reservation _ _ Hs _ _ Hr) as (Hv & _ & Hcr & _).
    destruct (reservation_valid_unstarted _ _ Hv Hst) as (E1 & E2 & E3 & E4 & E5 & E6).
    apply sound_rewrite with (r := r) (d := d); try done; unfold charged_calls, charged_input, charged_output; cbn;
      rewrite ?Hst, ?E1; try lia; try done.
    + unfold stale_unknown. by rewrite Hst.
    + apply reservation_valid_spec in Hv. apply reservation_valid_spec. cbn. split_and!; try apply Hv.
      unfold state_fields_valid. cbn. by rewrite E1, E2, E3, E4.
    + by right; left.
Qed.
Lemma moves_sound now s s' : sound now s → rtc (move l now) s s' → sound now s'.
Proof. intros Hs Hrtc. induction Hrtc as [|s1 s2 s3 Hm _ IH]; [done|]. by eapply IH, move_sound. Qed.

(** ** The sweeps *)

Lemma for_each_Ok {A} (f : A → outcome ()) xs : Forall (λ x, f x = Ok ()) xs → for_each f xs = Ok ().
Proof. unfold for_each. induction 1 as [|x xs Hx _ IH]; [done|]. cbn. by rewrite Hx. Qed.

Lemma sound_days_nonblank now s k d : sound now s → bs_days s !! k = Some d → blank k.1 = false.
Proof.
  intros Hs Hd. destruct (sound_day _ _ Hs _ _ Hd) as (Hv & _). unfold day_valid in Hv.
  rewrite !andb_true_iff, negb_true_iff in Hv. tauto.
Qed.

Lemma sound_reservation_nonblank now s id r :
  sound now s → bs_reservations s !! id = Some r → blank (pr_provider r) = false.
Proof. intros Hs Hr. eapply reservation_valid_provider. by apply (sound_reservation _ _ Hs _ _ Hr). Qed.

Lemma dedup_subset (xs : list string) x : x ∈ dedup xs → x ∈ xs.
Proof.
  induction xs as [|y xs IH]; [done|]. cbn. rewrite !elem_of_cons, list_elem_of_filter. naive_solver.
Qed.

Lemma sound_scope now s provider :
  sound now s → (∀ p, provider = Some p → blank p = false) → validate_scope provider s = Ok ().
Proof.
  intros Hs Hp. destruct provider as [p|]; [by eapply sound_aggregates; [|apply Hp]|].
  apply for_each_Ok, Forall_forall. intros p Hin%dedup_subset. eapply sound_aggregates; [done|].
  apply elem_of_app in Hin as [([k d] & -> & Hin)%list_elem_of_fmap|([id r] & -> & Hin)%list_elem_of_fmap];
    apply elem_of_map_to_list in Hin; [by eapply sound_days_nonblank|by eapply sound_reservation_nonblank].
Qed.

(** The rows still to visit are as they were read. *)
Definition pending (states : list ReservationState) (now : time) (s : BudgetStore) (rows : list (string * Reservation)) : Prop :=
  NoDup rows.*1 ∧ Forall (λ x, bs_reservations s !! x.1 = Some x.2 ∧ pr_state x.2 ∈ states ∧ pr_expires_at x.2 ≤ now) rows.

Lemma pending_select states now provider s : pending states now s (select_reservations states now provider s).
Proof.
  unfold pending, select_reservations. split.
  - apply NoDup_fmap_fst; [|apply NoDup_filter, NoDup_map_to_list].
    intros id r1 r2 [_ H1]%list_elem_of_filter [_ H2]%list_elem_of_filter. exact (map_to_list_unique _ _ _ _ H1 H2).
  - apply Forall_forall. intros [id r] (Hx & Hin)%list_elem_of_filter. apply elem_of_map_to_list in Hin. cbn in *. tauto.
Qed.

Lemma pending_tail states now s id r rows s' :
  pending states now s ((id, r) :: rows) →
  (∀ i, i ≠ id → bs_reservations s' !! i = bs_reservations s !! i) → pending states now s' rows.
Proof.
  intros [Hnd Hall] Hs'. cbn in Hnd. apply NoDup_cons in Hnd as [Hid Hnd]. apply Forall_cons in Hall as [_ Hall].
  split; [done|]. apply Forall_forall. intros [i x] Hin. rewrite Forall_forall in Hall.
  destruct (Hall _ Hin) as (H1 & H2 & H3). split_and!; try done. cbn in *. rewrite Hs'; [done|].
  intros ->. apply Hid. by apply (list_elem_of_fmap_2 fst) in Hin.
Qed.

Lemma release_loop now rows : ∀ s,
  sound now s → pending [RReserved] now s rows →
  ∃ s', outcome_foldl (release_one now) s rows = Ok s' ∧ rtc (move l now) s s'.
Proof.
  induction rows as [|[id r] rows IH]; intros s Hs Hp; [by exists s|].
  pose proof Hp as [_ (Hr & Hst & Ht)%Forall_inv]. cbn in Hr, Hst, Ht.
  apply list_elem_of_singleton in Hst. destruct (sound_reservation _ _ Hs _ _ Hr) as (Hv & [d Hd] & _).
  assert (move l now s (put_reservation id (set_pr_state RReleased r) (put_day (day_key r) (refund_day now r d) s)))
    as Hm by (by constructor).
  destruct (IH _ (move_sound _ _ _ Hs Hm)) as (s' & Hs' & Hrtc).
  { eapply pending_tail; [done|]. intros i Hi. cbn. by rewrite lookup_insert_ne. }
  exists s'. cbn [outcome_foldl]. unfold release_one at 2. rewrite (sound_validate_reservation _ _ _ _ Hs Hr). cbn [mbind outcome_bind].
  rewrite Hd. cbn [mbind outcome_bind]. split; [done|]. by eapply rtc_l.
Qed.

Lemma affected_pass now s s' states rows :
  sound now s → pending states now s rows → sound now s' →
  for_each (λ p, validate_provider_aggregates p s') (affected rows) = Ok ().
Proof.
  intros Hs [_ Hall] Hs'. apply for_each_Ok, Forall_forall. intros p Hin%dedup_subset. eapply sound_aggregates; [done|].
  apply list_elem_of_fmap in Hin as ([id r] & -> & Hin). rewrite Forall_forall in Hall. destruct (Hall _ Hin) as (Hr & _).
  exact (sound_reservation_nonblank _ _ _ _ Hs Hr).
Qed.

Lemma release_refines now provider s :
  sound now s → (∀ p, provider = Some p → blank p = false) →
  ∃ n s', _release_expired_unstarted now provider s = Ok (n, s') ∧ rtc (move l now) s s'.
Proof.
  intros Hs Hp. pose proof (pending_select [RReserved] now provider s) as Hpend.
  destruct (release_loop now _ s Hs Hpend) as (s' & Hl & Hrtc). eexists _, s'. split; [|done].
  unfold _release_expired_unstarted. rewrite (sound_scope _ _ _ Hs Hp). cbn [mbind outcome_bind]. cbv zeta. rewrite Hl. cbn [mbind outcome_bind].
  rewrite (affected_pass now s s' [RReserved] _ Hs Hpend) by (by eapply moves_sound). reflexivity.
Qed.

(** The day is latched. *)
Definition required (k : string * Z) (s : BudgetStore) : bool :=
  from_option bd_reconciliation_required false (bs_days s !! k).

Lemma put_reservation_same s id r : bs_reservations s !! id = Some r → put_reservation id r s = s.
Proof. intros Hr. unfold put_reservation. rewrite insert_id by done. by destruct s. Qed.

Lemma set_pr_state_same r : set_pr_state (pr_state r) r = r.
Proof. by destruct r. Qed.

Lemma sound_validate_day now s k d : sound now s → bs_days s !! k = Some d → validate_day k.1 d = Ok ().
Proof. intros Hs Hd. unfold validate_day. by destruct (sound_day _ _ Hs _ _ Hd) as [-> _]. Qed.

Lemma latch_one now s id r d :
  sound now s → bs_reservations s !! id = Some r → pr_state r = RUnknown → bs_days s !! day_key r = Some d →
  latch_expired_unknown now id r s
  = Ok (if now <? pr_expires_at r then s else put_day (day_key r) (latched_day now d) s).
Proof.
  intros Hs Hr Hst Hd. unfold latch_expired_unknown. rewrite (sound_validate_reservation _ _ _ _ Hs Hr). cbn [mbind outcome_bind].
  rewrite Hst, bool_decide_false by (by intros ?). cbn [orb]. destruct (now <? pr_expires_at r); [done|]. rewrite Hd.
  change (pr_provider r) with (day_key r).1. by rewrite (sound_validate_day _ _ _ _ Hs Hd).
Qed.

(** A started reservation marked unknown, before its day is latched, still passes the checks. *)
Lemma mark_row_sound now s id r d :
  sound now s → bs_reservations s !! id = Some r → pr_state r ∈ [RStarted; RUnknown] → bs_days s !! day_key r = Some d →
  sound now (put_reservation id (set_pr_state RUnknown r) s).
Proof.
  intros Hs Hr Hst Hd. rewrite <- (put_day_same s (day_key r) d Hd). apply sound_unknown with d; try done; [by left|by right; left].
Qed.

Lemma sweep_one_step now n s id r d :
  sound now s → bs_reservations s !! id = Some r → pr_state r ∈ [RStarted; RUnknown] → pr_expires_at r ≤ now →
  bs_days s !! day_key r = Some d →
  ∃ n', sweep_one now (n, s) (id, r)
        = Ok (n', put_reservation id (set_pr_state RUnknown r) (put_day (day_key r) (latched_day now d) s)).
Proof.
  intros Hs Hr Hst Ht Hd. unfold sweep_one. rewrite (sound_validate_reservation _ _ _ _ Hs Hr). cbn [mbind outcome_bind].
  pose proof (mark_row_sound _ _ _ _ _ Hs Hr Hst Hd) as Hs1.
  destruct (bool_decide_reflect (pr_state r = RStarted)) as [Est|Est]; cbn [mbind outcome_bind].
  - rewrite (latch_one now _ id _ d Hs1) by (try done; cbn; by rewrite lookup_insert_eq).
    cbn. rewrite (proj2 (Z.ltb_ge _ _)) by done. by eexists.
  - assert (pr_state r = RUnknown) as Eu by set_solver. rewrite (latch_one now _ id _ d Hs) by done.
    rewrite (proj2 (Z.ltb_ge _ _)) by done. cbn [mbind outcome_bind]. eexists. do 2 f_equal.
    rewrite <- Eu, set_pr_state_same. symmetry. by apply put_reservation_same.
Qed.

Lemma sweep_loop now rows : ∀ n s,
  sound now s → pending [RStarted; RUnknown] now s rows →
  ∃ n' s', outcome_foldl (sweep_one now) (n, s) rows = Ok (n', s') ∧ rtc (move l now) s s'
    ∧ ∀ k, usage k s' = usage k s
           ∧ required k s' = required k s || existsb (λ x, bool_decide (day_key x.2 = k)) rows.
Proof.
  induction rows as [|[id r] rows IH]; intros n s Hs Hp.
  { exists n, s. split_and!; [done|done|]. intros k. by rewrite orb_false_r. }
  pose proof Hp as [_ (Hr & Hst & Ht)%Forall_inv]. cbn in Hr, Hst, Ht.
  destruct (sound_reservation _ _ Hs _ _ Hr) as (Hv & [d Hd] & _).
  set (s1 := put_reservation id (set_pr_state RUnknown r) (put_day (day_key r) (latched_day now d) s)).
  assert (move l now s s1) as Hm by (by constructor).
  destruct (sweep_one_step now n s id r d Hs Hr Hst Ht Hd) as [n1 H1].
  destruct (IH n1 s1 (move_sound _ _ _ Hs Hm)) as (n' & s' & Hs' & Hrtc & Hpost).
  { eapply pending_tail; [done|]. intros i Hi. cbn. by rewrite lookup_insert_ne. }
  exists n', s'. cbn [outcome_foldl]. rewrite H1. cbn [mbind outcome_bind]. split_and!; [done|by eapply rtc_l|].
  intros k. destruct (Hpost k) as [-> ->]. unfold usage, required, s1. cbn.
  destruct (bool_decide_reflect (day_key r = k)) as [<-|Hne].
  - rewrite lookup_insert_eq, Hd. cbn. by rewrite orb_true_r.
  - by rewrite lookup_insert_ne.
Qed.

Lemma sweep_refines now provider s :
  sound now s → (∀ p, provider = Some p → blank p = false) →
  ∃ n s', _sweep_expired_ambiguous now provider s = Ok (n, s') ∧ rtc (move l now) s s'
    ∧ ∀ k, usage k s' = usage k s
           ∧ required k s' = required k s
             || existsb (λ x, bool_decide (day_key x.2 = k)) (select_reservations [RStarted; RUnknown] now provider s).
Proof.
  intros Hs Hp. pose proof (pending_select [RStarted; RUnknown] now provider s) as Hpend.
  destruct (sweep_loop now _ 0 s Hs Hpend) as (n & s' & Hl & Hrtc & Hpost). exists n, s'. split; [|done].
  unfold _sweep_expired_ambiguous. rewrite (sound_scope _ _ _ Hs Hp). cbn [mbind outcome_bind]. cbv zeta. rewrite Hl. cbn [mbind outcome_bind snd].
  rewrite (affected_pass now s s' [RStarted; RUnknown] _ Hs Hpend) by (by eapply moves_sound). reflexivity.
Qed.

(** ** The transactions *)

Inductive budget_op : Type :=
| BReserve (provider category request_id : string) (input_tokens output_tokens : Z) (now : time) (id : string) (fails : bool)
| BStart (id : string) (now : time) (fails : bool)
| BSettle (id : string) (input_tokens output_tokens : Z) (now : time) (fails : bool)
| BUnknown (id : string) (now : time) (fails : bool)
| BRelease (now : time) (fails : bool)
| BReconcile (now : time) (fails : bool)
| BStatus (prices : list PriceRecord) (provider : string) (model : option string) (now : time) (fails : bool).

Definition budget_op_now (op : budget_op) : time :=
  match op with
  | BReserve _ _ _ _ _ t _ _ | BStart _ t _ | BSettle _ _ _ t _ | BUnknown _ t _ | BRelease t _ | BReconcile t _
  | BStatus _ _ _ t _ => t
  end.

(** [uuid4().hex] is not blank. *)
Definition budget_op_wf (op : budget_op) : Prop :=
  match op with BReserve _ _ _ _ _ _ id _ => blank id = false | _ => True end.

Definition forget {A} (x : outcome A * BudgetStore) : outcome () * BudgetStore :=
  (match x.1 with Ok _ => Ok () | Raise e => Raise e end, x.2).

Definition run_budget_op (op : budget_op) (s : BudgetStore) : outcome () * BudgetStore :=
  match op with
  | BReserve p c q i o t id f => forget (reserve l p c q i o t id f s)
  | BStart id t f => mark_started id t f s
  | BSettle id i o t f => settle id i o t f s
  | BUnknown id t f => mark_unknown id t f s
  | BRelease t f => forget (release_expired_unstarted t f s)
  | BReconcile t f => forget (reconcile_expired_started t f s)
  | BStatus prices p m t f => forget (status l prices p m t f s)
  end.

(** The two complaints of a store whose books do not add up. *)
Definition complaint (e : exn) : Prop := e = corrupt ∨ e = no_day.

(** The transaction ended in moves and did not complain. *)
Definition clean {A} (now : time) (s : BudgetStore) (x : outcome A * BudgetStore) : Prop :=
  rtc (move l now) s x.2 ∧ ∀ e, x.1 = Raise e → ¬ complaint e.

Lemma clean_raise {A} now s e : ¬ complaint e → clean now s (Raise (A := A) e, s).
Proof. intros He. split; [apply rtc_refl|]. by intros ? [= <-]. Qed.

Lemma not_complaint_msg msg :
  msg ≠ "corrupt provider budget state" → msg ≠ "provider budget day is unavailable" →
  ¬ complaint (ProviderBudgetUnavailable msg).
Proof. intros H1 H2 [[=]|[=]]; done. Qed.

Lemma clean_transaction {A} now s fails (body : BudgetStore → outcome (A * BudgetStore)) :
  match body s with Ok (_, s') => rtc (move l now) s s' | Raise e => ¬ complaint e end →
  clean now s (transaction fails body s).
Proof.
  intros Hb. unfold transaction. destruct fails; [apply clean_raise; by apply not_complaint_msg|].
  destruct (body s) as [[a s']|e]; [by split|by apply clean_raise].
Qed.

Lemma commit_checked_sound now s p :
  sound now s → blank p = false → commit_checked p s = Ok ((), s).
Proof. intros Hs Hp. unfold commit_checked. by rewrite (sound_aggregates _ _ _ Hs Hp). Qed.

(** Loading a reservation of sound books finds it or reports that it cannot be used. *)
Lemma load_reservation_sound now s id verb :
  sound now s →
  load_reservation id verb s
  = match bs_reservations s !! id with None => cannot verb | Some r => Ok r end.
Proof.
  intros Hs. unfold load_reservation. destruct (bs_reservations s !! id) as [r|] eqn:Hr; [|done].
  rewrite (sound_validate_reservation _ _ _ _ Hs Hr). cbn [mbind outcome_bind].
  by rewrite (sound_aggregates _ _ _ Hs) by (by eapply sound_reservation_nonblank).
Qed.

Lemma cannot_not_complaint verb e : cannot (A := () * BudgetStore) verb = Raise e → ¬ complaint e.
Proof. intros [= <-]. by apply not_complaint_msg. Qed.

Lemma require_text_error name value e : require_text name value = Raise e → ¬ complaint e.
Proof. unfold require_text. destruct (blank value); [|done]. intros [= <-] [[=]|[=]]. Qed.

Lemma mark_started_clean now s id fails : sound now s → clean now s (mark_started id now fails s).
Proof.
  intros Hs. unfold mark_started, with_text. destruct (require_text _ _) as [[]|e] eqn:He;
    [|by eapply clean_raise, require_text_error].
  apply clean_transaction. rewrite (load_reservation_sound _ _ _ _ Hs).
  destruct (bs_reservations s !! id) as [r|] eqn:Hr; [|by eapply cannot_not_complaint]. cbn [mbind outcome_bind].
  destruct (bool_decide_reflect (pr_state r ≠ RReserved)) as [|Hst]; [by eapply cannot_not_complaint|].
  destruct (Z.ltb_spec now (pr_created_at r)); [by eapply cannot_not_complaint|].
  destruct (Z.leb_spec (pr_expires_at r) now); [by eapply cannot_not_complaint|]. cbn [orb].
  assert (move l now s (put_reservation id (start_reservation now r) s)) as Hm.
  { constructor; [done| |done]. by destruct (decide (pr_state r = RReserved)). }
  rewrite (commit_checked_sound now) by (by eapply move_sound || by eapply sound_reservation_nonblank). by apply rtc_once.
Qed.

Lemma require_nonnegative_error name v e : require_nonnegative_int name v = Raise e → ¬ complaint e.
Proof. unfold require_nonnegative_int. destruct (v <? 0); [|done]. intros [= <-] [[=]|[=]]. Qed.

Lemma require_nonnegative_Ok name v : require_nonnegative_int name v = Ok () → 0 ≤ v.
Proof. unfold require_nonnegative_int. destruct (Z.ltb_spec v 0); [done|]. intros _. lia. Qed.

Lemma outcome_bind_Raise {A B} (m : outcome A) (f : A → outcome B) e :
  m ≫= f = Raise e → m = Raise e ∨ ∃ a, m = Ok a ∧ f a = Raise e.
Proof. destruct m; cbn; naive_solver. Qed.

Lemma settle_clean now s id i o fails : sound now s → clean now s (settle id i o now fails s).
Proof.
  intros Hs. unfold settle. destruct (require_text _ _ ≫= _) as [[]|e] eqn:He.
  2: { apply clean_raise. apply outcome_bind_Raise in He as [He|(? & _ & He)]; [by eapply require_text_error|].
       apply outcome_bind_Raise in He as [He|(? & _ & He)]; by eapply require_nonnegative_error. }
  apply outcome_bind_Ok in He as (_ & _ & He). apply outcome_bind_Ok in He as ([] & Hi%require_nonnegative_Ok & Ho%require_nonnegative_Ok).
  apply clean_transaction. rewrite (load_reservation_sound _ _ _ _ Hs).
  destruct (bs_reservations s !! id) as [r|] eqn:Hr; [|by eapply cannot_not_complaint]. cbn [mbind outcome_bind].
  destruct (bool_decide_reflect (pr_state r ≠ RStarted)) as [|Hst]; [by eapply cannot_not_complaint|].
  apply dec_stable in Hst. destruct (sound_reservation _ _ Hs _ _ Hr) as (Hv & [d Hd] & _). rewrite Hd.
  assert (move l now s (put_reservation id (settle_reservation now r i o) (put_day (day_key r) (settle_day now r i o d) s)))
    as Hm by (by constructor).
  pose proof (move_sound _ _ _ Hs Hm) as Hs'.
  destruct (sound_day _ _ Hs' (day_key r) (settle_day now r i o d)) as (Hdv & _); [cbn; apply lookup_insert_eq|].
  unfold day_valid in Hdv. rewrite !andb_true_iff, !Z.leb_le in Hdv. destruct Hdv as ((((_ & _) & H1) & H2) & _).
  rewrite (proj2 (Z.ltb_ge _ _)) by done. rewrite (proj2 (Z.ltb_ge _ _)) by done. cbn [orb].
  rewrite (commit_checked_sound now _ _ Hs' (sound_reservation_nonblank _ _ _ _ Hs Hr)). by apply rtc_once.
Qed.

Lemma mark_unknown_clean now s id fails : sound now s → clean now s (mark_unknown id now fails s).
Proof.
  intros Hs. unfold mark_unknown, with_text. destruct (require_text _ _) as [[]|e] eqn:He;
    [|by eapply clean_raise, require_text_error].
  apply clean_transaction. rewrite (load_reservation_sound _ _ _ _ Hs).
  destruct (bs_reservations s !! id) as [r|] eqn:Hr; [|by eapply cannot_not_complaint]. cbn [mbind outcome_bind].
  destruct (bool_decide (pr_state r = RSettled)); [apply rtc_refl|].
  destruct (bool_decide_reflect (pr_state r ∉ [RStarted; RUnknown])) as [|Hst]; [by eapply cannot_not_complaint|].
  apply dec_stable in Hst. destruct (match pr_started_at r with Some t => now <? t | None => false end); [by eapply cannot_not_complaint|].
  destruct (sound_reservation _ _ Hs _ _ Hr) as (Hv & [d Hd] & _).
  rewrite (latch_one now _ id _ d (mark_row_sound _ _ _ _ _ Hs Hr Hst Hd)) by (try done; cbn; by rewrite lookup_insert_eq).
  cbn [mbind outcome_bind set_pr_state pr_expires_at]. set (s' := if now <? _ then _ else _).
  assert (move l now s s') as Hm.
  { unfold s'. destruct (Z.ltb_spec now (pr_expires_at r)) as [Ht|Ht];
      [by apply MUnknown|exact (MStale l now s id r d Hr Hst Ht Hd)]. }
  rewrite (commit_checked_sound now) by (by eapply move_sound || by eapply sound_reservation_nonblank). by apply rtc_once.
Qed.

Lemma release_clean now s fails : sound now s → clean now s (release_expired_unstarted now fails s).
Proof.
  intros Hs. apply clean_transaction. destruct (release_refines now None s Hs ltac:(done)) as (n & s' & -> & Hrtc). done.
Qed.

Lemma reconcile_clean now s fails : sound now s → clean now s (reconcile_expired_started now fails s).
Proof.
  intros Hs. apply clean_transaction. destruct (sweep_refines now None s Hs ltac:(done)) as (n & s' & -> & Hrtc & _). done.
Qed.

Lemma unresolved_spec p s :
  match unresolved p s with
  | Some (k, d) => k.1 = p ∧ bs_days s !! k = Some d ∧ bd_reconciliation_required d = true
  | None => unlatched p s
  end.
Proof.
  unfold unresolved. destruct (filter _ _) as [|[k d] xs] eqn:Hf; cbn.
  - intros n d Hd. destruct (bd_reconciliation_required d) eqn:Hq; [|done].
    assert (((p, n), d) ∈ filter (λ x, x.1.1 = p ∧ bd_reconciliation_required x.2 = true) (map_to_list (bs_days s))) as Hin.
    { apply list_elem_of_filter. split; [done|]. by apply elem_of_map_to_list. }
    rewrite Hf in Hin. by apply elem_of_nil in Hin.
  - assert ((k, d) ∈ filter (λ x, x.1.1 = p ∧ bd_reconciliation_required x.2 = true) (map_to_list (bs_days s))) as Hin
      by (rewrite Hf; left).
    apply list_elem_of_filter in Hin as [[H1 H2] Hin%elem_of_map_to_list]. done.
Qed.

Lemma exceeded_not_complaint msg : ¬ complaint (ProviderBudgetExceeded msg).
Proof. intros [[=]|[=]]. Qed.

(** [reserve] after its sweeps. *)
Lemma reserve_swept_clean now s0 s p c q i o id :
  rtc (move l now) s0 s → sound now s → blank p = false → blank c = false → canonical_request_id q = Ok q →
  0 ≤ i → 0 ≤ o → blank id = false → clean now s0 (reserve_swept l p c q i o now id s0 s).
Proof.
  intros Hrtc Hs Hp Hc Hq Hi Ho Hid. unfold reserve_swept. pose proof (unresolved_spec p s) as Hun.
  destruct (unresolved p s) as [[k d]|].
  { destruct Hun as (_ & Hd & _). rewrite (sound_validate_day _ _ _ _ Hs Hd).
    split; [done|]. intros e [= <-]. apply exceeded_not_complaint. }
  assert (match bs_days s !! (p, date_of now) with Some d => validate_day p d | None => Ok () end = Ok ()) as ->.
  { destruct (bs_days s !! (p, date_of now)) as [d|] eqn:Hd; [|done]. exact (sound_validate_day _ _ _ _ Hs Hd). }
  cbv zeta. set (d := charge_day now (p, date_of now) i o s).
  destruct (Z.ltb_spec (bl_calls l) (bd_calls_used d)) as [|H1], (Z.ltb_spec (bl_input_tokens l) (bd_input_tokens_used d)) as [|H2],
    (Z.ltb_spec (bl_output_tokens l) (bd_output_tokens_used d)) as [|H3]; cbn [orb];
    try (split; [done|]; intros e [= <-]; apply exceeded_not_complaint).
  destruct (bs_reservations s !! id) as [r|] eqn:Hr.
  { split; [apply rtc_refl|]. intros e [= <-]. by apply not_complaint_msg. }
  assert (move l now s (put_reservation id (new_reservation l p c q i o now) (put_day (p, date_of now) d s))) as Hm by (by constructor).
  rewrite (sound_aggregates now) by (done || by eapply move_sound). split; [by eapply rtc_r|done].
Qed.

Lemma canonical_request_id_error v e : canonical_request_id v = Raise e → ¬ complaint e.
Proof. intros [msg ->]%canonical_ascii_error. by intros [[=]|[=]]. Qed.

Lemma reserve_clean now s p c q i o id fails :
  sound now s → blank id = false → clean now s (reserve l p c q i o now id fails s).
Proof.
  intros Hs Hid. unfold reserve. destruct (require_text "provider" p ≫= _) as [q'|e] eqn:He.
  2: { apply clean_raise. apply outcome_bind_Raise in He as [He|(? & _ & He)]; [by eapply require_text_error|].
       apply outcome_bind_Raise in He as [He|(? & _ & He)]; [by eapply require_text_error|].
       apply outcome_bind_Raise in He as [He|(? & _ & He)]; [by eapply canonical_request_id_error|].
       apply outcome_bind_Raise in He as [He|(? & _ & He)]; [by eapply require_nonnegative_error|].
       apply outcome_bind_Raise in He as [He|(? & _ & He)]; [by eapply require_nonnegative_error|done]. }
  destruct fails; [apply clean_raise; by apply not_complaint_msg|].
  apply outcome_bind_Ok in He as ([] & Hp & He). apply outcome_bind_Ok in He as ([] & Hc & He).
  apply outcome_bind_Ok in He as (q1 & Hq & He). apply outcome_bind_Ok in He as ([] & Hi%require_nonnegative_Ok & He).
  apply outcome_bind_Ok in He as ([] & Ho%require_nonnegative_Ok & [= ->]).
  assert (∀ n v, require_text n v = Ok () → blank v = false) as Hblank by (intros n v; unfold require_text; by destruct (blank v)).
  apply Hblank in Hp, Hc.
  destruct (release_refines now (Some p) s Hs) as (n1 & s1 & -> & H1); [by intros ? [= <-]|]. cbn [mbind outcome_bind snd].
  pose proof (moves_sound _ _ _ Hs H1) as Hs1.
  destruct (sweep_refines now (Some p) s1 Hs1) as (n2 & s2 & -> & H2 & _); [by intros ? [= <-]|]. cbn [mbind outcome_bind snd].
  apply reserve_swept_clean; try done; [by etrans|by eapply moves_sound|by eapply canonical_request_id_idem].
Qed.

(** The decimal signals are not complaints. *)
Definition signal {A} (m : outcome A) : Prop := ∀ e, m = Raise e → ¬ complaint e.

Lemma signal_Ok {A} (a : A) : signal (Ok a).
Proof. by intros e. Qed.
Lemma signal_invalid {A} : signal (Raise (A := A) InvalidOperation).
Proof. by intros e [= <-] [[=]|[=]]. Qed.
Lemma signal_division {A} : signal (Raise (A := A) DivisionByZero).
Proof. by intros e [= <-] [[=]|[=]]. Qed.
Lemma signal_bind {A B} (m : outcome A) (f : A → outcome B) : signal m → (∀ a, signal (f a)) → signal (m ≫= f).
Proof. intros Hm Hf e He. apply outcome_bind_Raise in He as [He|(a & _ & He)]; [by apply Hm|by apply (Hf a)]. Qed.
#[local] Hint Resolve signal_Ok signal_invalid signal_division : budget.

Lemma dmul_signal x y : signal (dmul x y).
Proof. unfold dmul. destruct x, y; auto with budget; destruct (_ || _); auto with budget. Qed.
Lemma dadd_signal x y : signal (dadd x y).
Proof. unfold dadd. destruct x, y; auto with budget. destruct (Bool.eqb _ _); auto with budget. Qed.
Lemma ddiv_signal x y : signal (ddiv x y).
Proof.
  unfold ddiv. destruct x as [c1 e1| |], y as [c2 e2| |]; auto with budget.
  destruct (c2 =? 0), (c1 =? 0); auto with budget. destruct (ddiv_coeff _ _ _ _). auto with budget.
Qed.

Lemma estimated_usd_signal price i o : signal (estimated_usd price i o).
Proof.
  unfold estimated_usd. apply signal_bind; [apply dmul_signal|intros a]. apply signal_bind; [apply dmul_signal|intros b].
  apply signal_bind; [apply dadd_signal|intros t]. apply ddiv_signal.
Qed.

Lemma status_clean now s prices p m fails : sound now s → clean now s (status l prices p m now fails s).
Proof.
  intros Hs. unfold status. destruct (require_text "provider" p ≫= _) as [[]|e] eqn:He.
  2: { apply clean_raise. apply outcome_bind_Raise in He as [He|(? & _ & He)]; [by eapply require_text_error|].
       destruct m; [by eapply require_text_error|done]. }
  apply outcome_bind_Ok in He as ([] & Hp & _).
  assert (blank p = false) as Hb by (revert Hp; unfold require_text; by destruct (blank p)). cbv zeta.
  destruct (transaction _ _ _) as [read s'] eqn:Ht.
  assert (clean now s (read, s')) as [Hrtc Hno].
  { rewrite <- Ht. apply clean_transaction.
    destruct (sweep_refines now (Some p) s Hs) as (n & s1 & -> & H1 & _); [by intros ? [= <-]|]. cbn [mbind outcome_bind snd].
    by rewrite (sound_aggregates now) by (done || by eapply moves_sound). }
  destruct read as [[[[calls input] output] latched]|e]; [|split; [done|]; intros e' [= <-]; by apply Hno]. split; [done|]. cbn [fst]. intros e He.
  apply outcome_bind_Raise in He as [He|([[? ?] ?] & _ & He)]; [|done].
  destruct (effective_price _ _ _ _); [|done]. apply outcome_bind_Raise in He as [He|(? & _ & He)]; [by eapply estimated_usd_signal|done].
Qed.

Lemma clean_forget {A} now s (x : outcome A * BudgetStore) : clean now s x → clean now s (forget x).
Proof. intros [H1 H2]. split; [done|]. cbn. intros e. destruct x.1; [done|]. intros [= <-]. by apply H2. Qed.

Lemma run_op_clean op s : sound (budget_op_now op) s → budget_op_wf op → clean (budget_op_now op) s (run_budget_op op s).
Proof.
  intros Hs Hwf. destruct op; cbn in *; try apply clean_forget;
    [by apply reserve_clean|by apply mark_started_clean|by apply settle_clean|by apply mark_unknown_clean
    |by apply release_clean|by apply reconcile_clean|by apply status_clean].
Qed.

(** ** Runs *)

(** A run from [now]: the clock does not go back, the reservation ids are not blank. *)
Fixpoint budget_run (now : time) (ops : list budget_op) : Prop :=
  match ops with
  | [] => True
  | op :: ops' => now ≤ budget_op_now op ∧ budget_op_wf op ∧ budget_run (budget_op_now op) ops'
  end.

Definition run_budget_ops (ops : list budget_op) (s : BudgetStore) : BudgetStore :=
  foldl (λ s op, (run_budget_op op s).2) s ops.

(** A property of stores that every move from sound books keeps holds along every run. *)
Lemma run_ops_inv (P : BudgetStore → Prop) ops : ∀ now s,
  (∀ t s1 s2, sound t s1 → move l t s1 s2 → P s1 → P s2) →
  sound now s → budget_run now ops → P s →
  P (run_budget_ops ops s) ∧ ∃ now', now ≤ now' ∧ sound now' (run_budget_ops ops s).
Proof.
  intros now s HP. revert now s. induction ops as [|op ops IH]; intros now s Hs Hrun Hps; [by split; [|exists now]|].
  destruct Hrun as (Hle & Hwf & Hrun). pose proof (sound_later _ _ _ Hs Hle) as Hs1.
  destruct (run_op_clean op s Hs1 Hwf) as [Hrtc _]. cbn [run_budget_ops foldl].
  destruct (IH (budget_op_now op) (run_budget_op op s).2) as (H1 & t & Ht & H2); [by eapply moves_sound|done| |].
  - clear Hle. set (s' := (run_budget_op op s).2) in *. clearbody s'. clear Hs. revert Hs1 Hps.
    induction Hrtc as [|s1 s2 s3 Hm _ IH']; [done|]. intros Hs1 Hps. apply IH'; [by eapply move_sound|by eapply HP].
  - split; [done|]. exists t. split; [lia|done].
Qed.

Lemma empty_sound now : sound now empty_budget.
Proof. by split. Qed.

End Machine.
