(* ===== verification/BudgetTheorems.v ===== *)
(** What the budget machine promises: exact books, daily ceilings, latches that hold, charges
    that are not refunded, and an inspection that agrees with the status. *)

From S2P Require Import Prelude PyDecimal BrokerModels Pnl Database Identity Budget BudgetProofs BudgetMachine.
From Stdlib Require Import Ascii Lia.
Local Open Scope Z_scope.

Section Promises.
Context (l : BudgetLimits) (Hlimits : budget_limits l = Ok l).

(** Every transaction of the run is a sequence of moves, leaves sound books, and does not
    report corrupt state or a missing day. *)
Fixpoint orderly (ops : list budget_op) (s : BudgetStore) : Prop :=
  match ops with
  | [] => True
  | op :: ops' =>
      let '(r, s') := run_budget_op l op s in
      rtc (move l (budget_op_now op)) s s' ∧ sound (budget_op_now op) s'
      ∧ (∀ e, r = Raise e → e ≠ corrupt ∧ e ≠ no_day) ∧ orderly ops' s'
  end.

(** Claim C32.  The books always add up.  From the empty store, along any run whose clock does
    not go back, every transaction is a sequence of moves of the budget machine, the books
    stay sound, and none ever reports corrupt state or a missing day: the fail-closed
    checks stop real corruption, never an orderly caller. *)
Theorem budget_refines now ops : budget_run now ops → orderly ops empty_budget.
Proof.
  assert (sound now empty_budget) as Hs by apply empty_sound. revert now Hs. generalize empty_budget.
  induction ops as [|op ops IH]; intros s now Hs Hrun; [done|]. destruct Hrun as (Hle & Hwf & Hrun). cbn [orderly].
  pose proof (sound_later _ _ _ Hs Hle) as Hs1. destruct (run_op_clean l Hlimits op s Hs1 Hwf) as [Hrtc Hno].
  destruct (run_budget_op l op s) as [r s']. cbn in *. pose proof (moves_sound l Hlimits _ _ _ Hs1 Hrtc) as Hs'.
  split_and!; [done|done| |by eapply IH]. intros e He. specialize (Hno e He). unfold complaint in Hno. tauto.
Qed.

(** ** Ceilings *)

Definition capped (s : BudgetStore) : Prop :=
  ∀ k d, bs_days s !! k = Some d →
    bd_calls_used d ≤ bl_calls l
    ∧ (any_on_day overran k s = false → bd_input_tokens_used d ≤ bl_input_tokens l ∧ bd_output_tokens_used d ≤ bl_output_tokens l).

Lemma any_put_false p k id r' s :
  day_key r' = k → (∀ r, bs_reservations s !! id = Some r → p r = false) →
  any_on_day p k (put_reservation id r' s) = false → p r' = false ∧ any_on_day p k s = false.
Proof.
  intros Hk Hold Hno. rewrite <- !not_true_iff_false in *. rewrite !any_on_day_spec in *. split.
  - intros Hp. apply Hno. exists id, r'. split_and!; [cbn; apply lookup_insert_eq|done|done].
  - intros (i & x & Hx & Hkx & Hpx). apply Hno. exists i, x. split_and!; try done. cbn. rewrite lookup_insert_ne; [done|].
    intros ->. rewrite (Hold x Hx) in Hpx. done.
Qed.

(** A write whose day does not grow, except past a reservation that overran. *)
Lemma capped_write s id r r' d d' :
  capped s → bs_reservations s !! id = Some r → bs_days s !! day_key r = Some d → day_key r' = day_key r → overran r = false →
  bd_calls_used d' ≤ bd_calls_used d →
  (overran r' = false → bd_input_tokens_used d' ≤ bd_input_tokens_used d ∧ bd_output_tokens_used d' ≤ bd_output_tokens_used d) →
  capped (put_reservation id r' (put_day (day_key r) d' s)).
Proof.
  intros Hcap Hr Hd Hk Hov Hc Htok k x Hx. cbn in Hx. destruct (decide (k = day_key r)) as [->|Hne].
  - rewrite lookup_insert_eq in Hx. injection Hx as <-. destruct (Hcap _ _ Hd) as [H1 H2]. split; [lia|]. intros Hno.
    apply any_put_false in Hno as [Hno1 Hno2]; [|done|cbn; intros x Hx; by simplify_eq].
    destruct (Htok Hno1), (H2 Hno2). lia.
  - rewrite lookup_insert_ne in Hx by done. destruct (Hcap _ _ Hx) as [H1 H2]. split; [done|]. intros Hno. apply H2.
    rewrite <- Hno. symmetry. apply (any_put_other overran (day_key r) k id r' (put_day (day_key r) d' s)); [done| |done].
    cbn. intros x' Hx'. by simplify_eq.
Qed.

Lemma move_capped now s s' : sound now s → move l now s s' → capped s → capped s'.
Proof.
  intros Hs Hmove Hcap.
  destruct Hmove as [s id p c q i o Hp Hc Hq Hi Ho Hid Hfresh Hun H1 H2 H3|s id r Hr Hst Ht|s id r d i o Hr Hst Hd Hi Ho
    |s id r Hr Hst Ht|s id r d Hr Hst Ht Hd|s id r d Hr Hst Ht Hd].
  - intros k x Hx. cbn in Hx. destruct (decide (k = (p, date_of now))) as [->|Hne].
    + rewrite lookup_insert_eq in Hx. injection Hx as <-. done.
    + rewrite lookup_insert_ne in Hx by done. destruct (Hcap _ _ Hx) as [H4 H5]. split; [done|]. intros Hno. apply H5.
      rewrite <- Hno. symmetry.
      refine (any_put_other overran (p, date_of now) k id (new_reservation l p c q i o now)
                (put_day (p, date_of now) (charge_day now (p, date_of now) i o s) s) eq_refl _ Hne). cbn. by rewrite Hfresh.
  - destruct (sound_reservation _ _ Hs _ _ Hr) as (_ & [d Hd] & _). rewrite <- (put_day_same s _ d Hd).
    eapply capped_write; try done. apply overran_open. by rewrite Hst.
  - eapply capped_write; try done; [apply overran_open; by rewrite Hst|].
    unfold overran, settle_day. cbn. rewrite orb_false_iff, !Z.ltb_ge. lia.
  - destruct (sound_reservation _ _ Hs _ _ Hr) as (_ & [d Hd] & _). rewrite <- (put_day_same s _ d Hd).
    eapply capped_write; try done. apply overran_open. intros E. rewrite E in Hst. set_solver.
  - eapply capped_write; try done. apply overran_open. intros E. rewrite E in Hst. set_solver.
  - destruct (sound_reservation _ _ Hs _ _ Hr) as (Hv & _). apply reservation_valid_spec in Hv as ((_ & _ & _ & _ & H5 & H6) & _).
    eapply capped_write; try done; [apply overran_open; by rewrite Hst|cbn; lia|cbn; lia].
Qed.

(** The daily ceilings hold.  After any run from the empty store, no provider day
    has used more calls than its ceiling, and its tokens are within theirs too unless the day is latched
    for usage over a reservation. *)
Theorem budget_ceilings now ops k d :
  budget_run now ops → bs_days (run_budget_ops l ops empty_budget) !! k = Some d →
  bd_calls_used d ≤ bl_calls l
  ∧ (bd_input_tokens_used d ≤ bl_input_tokens l ∧ bd_output_tokens_used d ≤ bl_output_tokens l
     ∨ bd_reconciliation_required d = true ∧ bd_reconciliation_code d = USAGE_OVERRUN_CODE).
Proof.
  intros Hrun Hd.
  destruct (run_ops_inv l Hlimits capped ops now empty_budget) as (Hcap & t & _ & Hs); [by apply move_capped|apply empty_sound|done|done|].
  destruct (Hcap _ _ Hd) as [H1 H2]. split; [done|]. destruct (any_on_day overran k _) eqn:Hov; [right|by left; apply H2].
  destruct (sound_day _ _ Hs _ _ Hd) as (_ & (_ & _ & _ & Hl)%day_agrees_spec & _). unfold latch_ok in Hl. by rewrite Hov in Hl.
Qed.

(** ** Latches *)

Definition latched (p : string) (s : BudgetStore) : Prop := ∃ n, required (p, n) s = true.

Lemma put_day_required k d d' s k' :
  bs_days s !! k = Some d → (bd_reconciliation_required d = true → bd_reconciliation_required d' = true) →
  required k' s = true → required k' (put_day k d' s) = true.
Proof.
  intros Hd Himp. unfold required. cbn. destruct (decide (k' = k)) as [->|Hne]; [rewrite lookup_insert_eq, Hd; done|].
  by rewrite lookup_insert_ne.
Qed.

Lemma move_required now s s' k : move l now s s' → required k s = true → required k s' = true.
Proof.
  intros Hmove Hk.
  destruct Hmove as [s id p c q i o ???????? _ _ _|s id r ???|s id r d i o ?????|s id r ???|s id r d ????|s id r d ????]; try done.
  - unfold required in *. cbn. destruct (decide (k = (p, date_of now))) as [->|Hne]; [|by rewrite lookup_insert_ne].
    rewrite lookup_insert_eq. cbn. unfold charge_day. cbn. by destruct (bs_days s !! (p, date_of now)).
  - eapply (put_day_required _ d); try done. cbn. intros ->. apply orb_true_r.
  - by eapply (put_day_required _ d).
  - by eapply (put_day_required _ d).
Qed.

Lemma budget_run_prefix now ops ops' : budget_run now (ops ++ ops') → budget_run now ops.
Proof. revert now. induction ops as [|o ops IH]; intros now; cbn; [done|]. intros (? & ? & ?). by split_and!; [..|apply IH]. Qed.

(** A sound store at the time of the run's last call. *)
Lemma run_ops_last ops op : ∀ now s,
  sound now s → budget_run now (ops ++ [op]) → sound (budget_op_now op) (run_budget_ops l ops s) ∧ budget_op_wf op.
Proof.
  induction ops as [|o ops IH]; intros now s Hs; cbn [app budget_run].
  - intros (Hle & Hwf & _). split; [by eapply sound_later|done].
  - intros (Hle & Hwf & Hrun). apply (IH (budget_op_now o)); [|done]. pose proof (sound_later _ _ _ Hs Hle) as Hs1.
    destruct (run_op_clean l Hlimits o s Hs1 Hwf) as [Hrtc _]. by eapply moves_sound.
Qed.

Lemma moves_required now s s' k : rtc (move l now) s s' → required k s = true → required k s' = true.
Proof. induction 1 as [|s1 s2 s3 Hm _ IH]; [done|]. intros Hk. by eapply IH, move_required. Qed.

Lemma required_nonblank now s p n : sound now s → required (p, n) s = true → blank p = false.
Proof.
  intros Hs Hq. unfold required in Hq. destruct (bs_days s !! (p, n)) as [d|] eqn:Hd; [|done].
  exact (sound_days_nonblank _ _ _ _ Hs Hd).
Qed.

Lemma reserve_latched now s p c q q' i o id :
  sound now s → latched p s → blank c = false → canonical_request_id q = Ok q' → 0 ≤ i → 0 ≤ o →
  (reserve l p c q i o now id false s).1 = Raise (ProviderBudgetExceeded "provider budget reconciliation required").
Proof.
  intros Hs [n Hn] Hc Hq Hi Ho. pose proof (required_nonblank _ _ _ _ Hs Hn) as Hp.
  unfold reserve, require_text, require_nonnegative_int. rewrite Hp, Hc. cbn [mbind outcome_bind]. rewrite Hq. cbn [mbind outcome_bind].
  rewrite (proj2 (Z.ltb_ge i 0)), (proj2 (Z.ltb_ge o 0)) by lia. cbn [mbind outcome_bind].
  destruct (release_refines l Hlimits now (Some p) s Hs) as (n1 & s1 & -> & H1); [by intros ? [= <-]|]. cbn [mbind outcome_bind snd].
  pose proof (moves_sound l Hlimits _ _ _ Hs H1) as Hs1.
  destruct (sweep_refines l Hlimits now (Some p) s1 Hs1) as (n2 & s2 & -> & H2 & _); [by intros ? [= <-]|]. cbn [mbind outcome_bind snd].
  pose proof (moves_sound l Hlimits _ _ _ Hs1 H2) as Hs2.
  assert (required (p, n) s2 = true) as Hn2 by (by do 2 (eapply moves_required; [done|])).
  unfold reserve_swept. pose proof (unresolved_spec p s2) as Hun. destruct (unresolved p s2) as [[k d]|].
  - destruct Hun as (_ & Hd & _). by rewrite (sound_validate_day _ _ _ _ Hs2 Hd).
  - unfold required in Hn2. destruct (bs_days s2 !! (p, n)) as [d|] eqn:Hd; [|done]. cbn in Hn2. rewrite (Hun n d Hd) in Hn2. done.
Qed.

(** A latch is final for this code.  Once a day of a provider asks for
    reconciliation, it still does after any run, and every later well-formed reservation for that
    provider, on whatever day, is refused as such: no transaction here clears a latch. *)
Theorem latch_blocks_provider now s p ops c q q' i o t id :
  sound now s → latched p s → budget_run now (ops ++ [BReserve p c q i o t id false]) →
  blank c = false → canonical_request_id q = Ok q' → 0 ≤ i → 0 ≤ o →
  latched p (run_budget_ops l ops s)
  ∧ (reserve l p c q i o t id false (run_budget_ops l ops s)).1
    = Raise (ProviderBudgetExceeded "provider budget reconciliation required").
Proof.
  intros Hs [n Hn] Hrun Hc Hq Hi Ho. destruct (run_ops_last _ _ _ _ Hs Hrun) as [Hs' _].
  assert (latched p (run_budget_ops l ops s)) as Hl; [|split; [done|by eapply reserve_latched]]. exists n.
  destruct (run_ops_inv l Hlimits (λ s, required (p, n) s = true) ops now s) as [H _]; try done.
  - intros ? ? ? _. apply move_required.
  - by apply budget_run_prefix in Hrun.
Qed.

(** ** Charges *)

(** The provider has been called: the reservation can no longer be given back. *)
Definition called (st : ReservationState) : bool :=
  match st with RStarted | RSettled | RUnknown => true | RReserved | RReleased => false end.

(** Row [id] is the same reservation as [r], called. *)
Definition still_called (id : string) (r : Reservation) (s : BudgetStore) : Prop :=
  ∃ r', bs_reservations s !! id = Some r' ∧ called (pr_state r') = true ∧ day_key r' = day_key r
        ∧ pr_input_reserved r' = pr_input_reserved r ∧ pr_output_reserved r' = pr_output_reserved r.

Lemma move_still_called now id r s s' : move l now s s' → still_called id r s → still_called id r s'.
Proof.
  intros Hmove (r0 & Hr0 & Hc & Hk & Hi & Ho).
  assert (∀ i x s1, bs_reservations s1 = bs_reservations s →
            (i = id → called (pr_state x) = true ∧ day_key x = day_key r0 ∧ pr_input_reserved x = pr_input_reserved r0
                      ∧ pr_output_reserved x = pr_output_reserved r0) → still_called id r (put_reservation i x s1)) as Hput.
  { intros i x s1 Hs1 Hx. destruct (decide (i = id)) as [->|Hne].
    - destruct (Hx eq_refl) as (H1 & H2 & H3 & H4). exists x. split_and!; [cbn; apply lookup_insert_eq|congruence..].
    - exists r0. split_and!; try done. cbn. rewrite lookup_insert_ne by done. by rewrite Hs1. }
  destruct Hmove; apply Hput; try done; intros ->; simplify_eq;
    try (match goal with H : pr_state _ = _ |- _ => rewrite H in Hc end); done.
Qed.

(** A provider call is never refunded.  A reservation that was started stays
    charged through any run: its row remains, counted as one call on its day, at its full reservation
    until its actual usage is settled, and never becomes released. *)
Theorem started_never_refunded now s id r ops :
  sound now s → bs_reservations s !! id = Some r → called (pr_state r) = true → budget_run now ops →
  ∃ r', bs_reservations (run_budget_ops l ops s) !! id = Some r' ∧ called (pr_state r') = true
        ∧ charged_calls r' = 1 ∧ day_key r' = day_key r
        ∧ (pr_state r' ≠ RSettled → charged_input r' = pr_input_reserved r ∧ charged_output r' = pr_output_reserved r).
Proof.
  intros Hs Hr Hc Hrun. destruct (run_ops_inv l Hlimits (still_called id r) ops now s) as [(r' & Hr' & Hc' & Hk & Hi & Ho) _]; try done.
  - intros ? ? ? _. apply move_still_called.
  - by exists r.
  - exists r'. unfold charged_calls, charged_input, charged_output. destruct (pr_state r') eqn:E; try done; by split_and!.
Qed.

(** ** Inspection *)

Lemma earliest_latched_spec p s : bool_decide (earliest_latched p s ≠ None) = true ↔ latched p s.
Proof.
  rewrite bool_decide_eq_true. unfold earliest_latched, latched, required.
  destruct (filter _ _) as [|[k d] xs] eqn:Hf; split; try done.
  - intros [n Hn]. destruct (bs_days s !! (p, n)) as [d|] eqn:Hd; [|done].
    assert (((p, n), d) ∈ filter (λ x, x.1.1 = p ∧ bd_reconciliation_required x.2 = true) (map_to_list (bs_days s))) as Hin.
    { apply list_elem_of_filter. split; [done|]. by apply elem_of_map_to_list. }
    rewrite Hf in Hin. by apply elem_of_nil in Hin.
  - intros _. assert ((k, d) ∈ filter (λ x, x.1.1 = p ∧ bd_reconciliation_required x.2 = true) (map_to_list (bs_days s))) as Hin
      by (rewrite Hf; left).
    apply list_elem_of_filter in Hin as [[H1 H2] Hin%elem_of_map_to_list]. exists k.2. cbn in *. subst p. by destruct k; cbn; rewrite Hin.
Qed.

Lemma count_state_zero st rows : count_state st rows = 0 ↔ ∀ x, x ∈ rows → pr_state x.2 ≠ st.
Proof.
  unfold count_state. split.
  - intros H x Hx E. destruct (filter _ rows) eqn:Hf; [|done].
    assert (x ∈ filter (λ x, pr_state x.2 = st) rows) as Hin by (by apply list_elem_of_filter). rewrite Hf in Hin. by apply elem_of_nil in Hin.
  - intros H. destruct (filter (λ x, pr_state x.2 = st) rows) as [|x xs] eqn:Hf; [done|].
    assert (x ∈ filter (λ x, pr_state x.2 = st) rows) as [H1 H2]%list_elem_of_filter by (rewrite Hf; left). by destruct (H x H2).
Qed.

(** The rows of the ambiguous selection are started or unknown, so one count is positive as
    soon as there is a row. *)
Lemma ambiguous_counts now provider s :
  let rows := select_reservations [RStarted; RUnknown] now provider s in
  negb (count_state RStarted rows =? 0) || negb (count_state RUnknown rows =? 0) = true ↔ rows ≠ [].
Proof.
  cbv zeta. destruct (pending_select [RStarted; RUnknown] now provider s) as [_ Hall].
  set (rows := select_reservations _ _ _ _) in *. rewrite orb_true_iff, !negb_true_iff, !Z.eqb_neq, !count_state_zero. split.
  - by intros [H|H] E; apply H; intros x; rewrite E, elem_of_nil.
  - intros Hne. destruct rows as [|x xs]; [done|]. apply Forall_inv in Hall as (_ & Hst & _).
    apply elem_of_cons in Hst as [Hst|Hst%list_elem_of_singleton]; [left|right]; intros H; by apply (H x (list_elem_of_here _ _)).
Qed.

Lemma sweep_latched p now s s' n :
  _sweep_expired_ambiguous now (Some p) s = Ok (n, s') →
  (∀ k, required k s' = required k s
        || existsb (λ x, bool_decide (day_key x.2 = k)) (select_reservations [RStarted; RUnknown] now (Some p) s)) →
  latched p s' ↔ latched p s ∨ select_reservations [RStarted; RUnknown] now (Some p) s ≠ [].
Proof.
  intros _ Hreq. set (rows := select_reservations _ _ _ _) in *. unfold latched. split.
  - intros [m Hm]. rewrite Hreq in Hm. apply orb_true_iff in Hm as [Hm|Hm]; [by left; exists m|right].
    intros E. by rewrite E in Hm.
  - intros [[m Hm]|Hne]; [exists m; by rewrite Hreq, Hm|]. destruct rows as [|x xs] eqn:E; [done|]. exists (pr_budget_day x.2).
    assert (pr_provider x.2 = p) as Hp.
    { assert (x ∈ rows) as Hin by (rewrite E; left). apply list_elem_of_filter in Hin as [(_ & _ & Hsc) _].
      cbn in Hsc. by apply bool_decide_eq_true in Hsc. }
    rewrite Hreq. cbn [existsb]. rewrite (bool_decide_true (day_key x.2 = (p, pr_budget_day x.2))); [by rewrite orb_true_r|].
    unfold day_key. by rewrite Hp.
Qed.

(** Inspection and status agree.  On sound books the read-only inspection always
    succeeds; the status, which first reaps expired calls and writes, reports the same usage, the same room
    and the same need for reconciliation, and it succeeds whenever the price estimate does. *)
Theorem inspect_agrees_with_status now s prices p model :
  sound now s → blank p = false → match model with Some m => blank m = false | None => True end →
  ∃ v, inspect l p now false s = Ok v
    ∧ (∀ st s', status l prices p model now false s = (Ok st, s') →
        (bu_calls_used st, bu_input_tokens_used st, bu_output_tokens_used st)
          = (bn_calls_used v, bn_input_tokens_used v, bn_output_tokens_used v)
        ∧ (bu_calls_remaining st, bu_input_tokens_remaining st, bu_output_tokens_remaining st)
          = (bn_calls_remaining v, bn_input_tokens_remaining v, bn_output_tokens_remaining v)
        ∧ bu_reconciliation_required st = bn_reconciliation_required v)
    ∧ (effective_price prices p model (date_of now) = None → ∃ st s', status l prices p model now false s = (Ok st, s')).
Proof.
  intros Hs Hp Hm. unfold inspect, status, require_text. rewrite Hp. cbn [mbind outcome_bind].
  assert (match model with Some m => if blank m then Raise (ValueError ("model" +:+ " must be non-empty")) else Ok () | None => Ok () end = Ok ()) as ->
    by (destruct model; [by rewrite Hm|done]).
  destruct (sweep_refines l Hlimits now (Some p) s Hs) as (n & s' & Hsw & Hrtc & Hpost); [by intros ? [= <-]|].
  unfold transaction. rewrite Hsw. cbn [mbind outcome_bind snd].
  rewrite (sound_aggregates now s' p) by (done || by eapply moves_sound). rewrite (sound_aggregates now s p) by done. cbn [mbind outcome_bind].
  destruct (Hpost (p, date_of now)) as [-> _]. destruct (usage (p, date_of now) s) as [[calls input] output].
  set (rows := select_reservations [RStarted; RUnknown] now (Some p) s).
  assert (for_each (λ x, validate_reservation x.1 x.2) rows = Ok ()) as ->.
  { apply for_each_Ok. destruct (pending_select [RStarted; RUnknown] now (Some p) s) as [_ Hall]. apply (Forall_impl _ _ _ Hall).
    intros x (Hx & _). by eapply sound_validate_reservation. }
  cbn [mbind outcome_bind]. eexists. split; [reflexivity|].
  assert (bool_decide (earliest_latched p s' ≠ None)
          = bool_decide (earliest_latched p s ≠ None) || negb (count_state RStarted rows =? 0) || negb (count_state RUnknown rows =? 0)) as Hreq.
  { unfold rows. apply eq_true_iff_eq. rewrite <- orb_assoc, orb_true_iff, !earliest_latched_spec, (ambiguous_counts now (Some p) s).
    eapply sweep_latched; [exact Hsw|]. intros k. by apply Hpost. }
  split.
  - intros st s2. destruct (effective_price _ _ _ _) as [pr|]; cbn [mbind outcome_bind].
    + destruct (estimated_usd pr input output); cbn [mbind outcome_bind]; [|done]. intros [= <- <-]. by cbn.
    + intros [= <- <-]. by cbn.
  - intros ->. cbn [mbind outcome_bind]. by eexists _, _.
Qed.

End Promises.

(** * Worked cases *)

Definition demo_limits : BudgetLimits := mkLimits 2 100 100 300.
Definition demo_reserve (id : string) (now : time) : budget_op :=
  BReserve "anthropic" "chat" " req-1 " 40 40 now id false.

(** Reserve, start, overrun: the day is latched and the next reservation is refused. *)
Definition demo_ops : list budget_op :=
  [demo_reserve "a" 0; BStart "a" (1 * second) false; demo_reserve "b" (2 * second);
   BSettle "a" 90 10 (3 * second) false; BRelease (400 * second) false].

Lemma demo_ops_run : budget_run 0 demo_ops.
Proof. repeat split; vm_compute; (reflexivity || discriminate). Qed.

Lemma budget_refines_witness :
  budget_run 0 demo_ops ∧ orderly demo_limits demo_ops empty_budget
  ∧ (run_budget_op demo_limits (demo_reserve "c" (500 * second)) (run_budget_ops demo_limits demo_ops empty_budget)).1
    = Raise (ProviderBudgetExceeded "provider budget reconciliation required").
Proof.
  split_and!; [apply demo_ops_run|apply (budget_refines demo_limits eq_refl 0), demo_ops_run|vm_compute; reflexivity].
Defined.

Lemma budget_ceilings_witness :
  let d := mkDay 1 90 10 true USAGE_OVERRUN_CODE (400 * second) in
  bs_days (run_budget_ops demo_limits demo_ops empty_budget) !! ("anthropic", 0) = Some d ∧ bd_calls_used d ≤ 2.
Proof.
  split; [vm_compute; reflexivity|].
  apply (budget_ceilings demo_limits eq_refl 0 demo_ops ("anthropic", 0)); [apply demo_ops_run|vm_compute; reflexivity].
Defined.

Lemma demo_sound : ∃ t, 0 ≤ t ∧ sound t (run_budget_ops demo_limits demo_ops empty_budget).
Proof.
  destruct (run_ops_inv demo_limits eq_refl (λ _, True) demo_ops 0 empty_budget) as [_ H]; auto using empty_sound, demo_ops_run.
Qed.

(** The store after a started call that outlives its reservation. *)
Definition demo_started : BudgetStore :=
  run_budget_ops demo_limits [demo_reserve "a" 0; BStart "a" (1 * second) false] empty_budget.

Lemma demo_started_sound : sound (1 * second) demo_started.
Proof.
  destruct (run_ops_last demo_limits eq_refl [demo_reserve "a" 0; BStart "a" (1 * second) false]
    (BRelease (1 * second) false) 0 empty_budget (empty_sound 0)) as [H _]; [|exact H].
  repeat split; vm_compute; (reflexivity || discriminate).
Qed.

Lemma started_never_refunded_witness :
  ∃ r', bs_reservations (run_budget_ops demo_limits [BReconcile (300 * second) false; BRelease (400 * second) false] demo_started)
          !! "a" = Some r' ∧ charged_calls r' = 1.
Proof.
  destruct (started_never_refunded demo_limits eq_refl (1 * second) demo_started "a"
    (start_reservation (1 * second) (new_reservation demo_limits "anthropic" "chat" "req-1" 40 40 0))
    [BReconcile (300 * second) false; BRelease (400 * second) false] demo_started_sound) as (r' & H1 & _ & H2 & _).
  - vm_compute. reflexivity.
  - reflexivity.
  - repeat split; vm_compute; (reflexivity || discriminate).
  - exists r'. exact (conj H1 H2).
Defined.

Definition demo_latched : BudgetStore := run_budget_ops demo_limits [BReconcile (300 * second) false] demo_started.

Lemma demo_latched_sound : sound (300 * second) demo_latched.
Proof.
  destruct (run_ops_last demo_limits eq_refl [BReconcile (300 * second) false]
    (BRelease (300 * second) false) (1 * second) demo_started demo_started_sound) as [H _]; [|exact H].
  repeat split; vm_compute; (reflexivity || discriminate).
Qed.

Lemma latch_blocks_provider_witness :
  (reserve demo_limits "anthropic" "chat" "req-2" 1 1 (2 * day) "z" false
     (run_budget_ops demo_limits [BRelease (400 * second) false] demo_latched)).1
  = Raise (ProviderBudgetExceeded "provider budget reconciliation required").
Proof.
  refine (proj2 (latch_blocks_provider demo_limits eq_refl (300 * second) demo_latched "anthropic" [BRelease (400 * second) false]
    "chat" "req-2" "req-2" 1 1 (2 * day) "z" demo_latched_sound _ _ _ _ _ _)); try reflexivity; try discriminate.
  - exists 0. vm_compute. reflexivity.
  - repeat split; vm_compute; (reflexivity || discriminate).
Defined.

(** Before the sweep the inspection already asks for reconciliation. *)
Lemma inspect_agrees_with_status_witness :
  ∃ v, inspect demo_limits "anthropic" (300 * second) false demo_started = Ok v ∧ bn_reconciliation_required v = true.
Proof.
  assert (sound (300 * second) demo_started) as Hs.
  { eapply sound_later; [apply demo_started_sound|vm_compute; discriminate]. }
  destruct (inspect_agrees_with_status demo_limits eq_refl (300 * second) demo_started [] "anthropic" None Hs eq_refl I)
    as (v & Hv & Hst & Hok). exists v. split; [exact Hv|].
  destruct (Hok eq_refl) as (st & s' & E). destruct (Hst st s' E) as (_ & _ & Hq). rewrite <- Hq. clear - E.
  vm_compute in E. injection E as <- <-. reflexivity.
Defined.
