(* ===== verification/ServiceBase.v ===== *)
(** What the methods of [TradingService] ([service.py]) share: the broker they call, the
    mutation context, and the audit and risk rows they write. *)

From S2P Require Import Prelude PyDecimal Assets BrokerModels Breakers RiskRules RiskEngine.
From S2P Require Import Database Lifecycle SessionLogic BreakerStore SafetyState RuleRepository PlanTruth PlanLifecycle.
From S2P Require Import ReconcileSession FillImport StatusSync Reconciliation.
From Stdlib Require Import Ascii Lia.
Local Open Scope Z_scope.

(** The broker as the service sees it: what reconciliation uses, positions and quotes. *)
Class ServiceBroker (W : Type) : Type := {
  sb_reconcile :: ReconcileBroker W;
  sb_positions : W → outcome (list Position) * W;
  sb_quote : string → W → outcome Quote * W;
}.

(** [try: m except ...]: the exception becomes a value; what [m] stored stays. *)
Definition attempt {W A} (m : svc W A) : svc W (outcome A) := λ s, let '(r, s') := m s in (Ok r, s').

(** A transaction of another component, at a time the caller read. *)
Definition on_db {W A} (f : Db → outcome A * Db) : svc W A := λ s,
  let '(r, d) := f (sv_db s) in (r, mkSvc d (sv_world s) (sv_clock s)).

Definition lift_svc {W A} (m : outcome A) : svc W A := λ s, (m, s).

(** [_require_mutation_context]. *)
Definition mutation_context (actor reason request_id : string) : outcome (string * string * string) :=
  let actor := strip actor in
  let reason := strip reason in
  let request_id := strip request_id in
  if negb (nonempty actor) || negb (nonempty reason) || negb (nonempty request_id)
  then Raise (ValueError "mutation actor, reason, and request_id must be non-empty")
  else Ok (actor, reason, request_id).

Section Rows.
Context `{Digest} (actor reason request_id : string).

(** [_persist_audit]; [proof] is [lifecycle_proof]. *)
Definition persist_audit (action target_type : string) (target : audit_target) (result_code idempotency_key : string)
    (detail : dict json) (proof : bool) (created_at : option time) : tx () :=
  d ← read;
  let detail := match target with
                | IdTarget id => if proof then augment_lifecycle_detail d target_type id detail else detail
                | KeyTarget _ => detail
                end in
  insert_audit (mkAuditEvent actor action target_type (target_text target) request_id idempotency_key reason
    result_code 0 (JObj detail) created_at).

(** [_persist_risk]. *)
Definition persist_risk (order_id : option Z) (event_type text : string) : tx () :=
  insert_risk_event (mkRiskEvent order_id event_type text None).

(** [breakers.trip(scope, detail, actor, request_id=..., audit_reason=reason)]. *)
Definition trip_breaker {W} (scope : BreakerScope) (detail : string) : svc W () :=
  on_store (λ t, breaker_trip scope detail actor request_id t (Some reason)) ≫= λ _, mret ().

(** [trip_in_session(session, scope, detail, actor, request_id=..., audit_reason=reason)]. *)
Definition trip_here (scope : BreakerScope) (detail : string) : rtx () :=
  t ← now;
  on_session (trip_in_session scope detail actor request_id t (Some reason)) ≫= λ _, mret ().

(** [_audit_dependency_failure]. *)
Definition audit_dependency_failure {W} (action target_type : string) (target : audit_target) (stage : string) : svc W () :=
  in_session (on_session (
    persist_audit action target_type target "dependency_unavailable" EmptyString [("stage", JStr stage)] false None ≫= λ _, commit)).

End Rows.

(** A service method: the context, then the body. *)
Definition with_context {W A} (actor reason request_id : string) (body : string → string → string → svc W A) : svc W A :=
  match mutation_context actor reason request_id with
  | Raise e => svc_raise e
  | Ok (actor, reason, request_id) => body actor reason request_id
  end.
