(* ===== verification/PlanCancel.v ===== *)
(** Cancelling orders at the broker: [_record_plan_cancel_state],
    [_cancel_live_order_under_writer], [quiesce_trade_plan_orders],
    [_cancel_plan_orders_after_exit_fill], [sync_open_orders] and [cancel_live_order] of
    [service.py].

    [_cancel_live_order_under_writer] settles plans through [sync_open_orders], which cancels
    orders without settling plans; the common part takes the reconciliation it runs as an
    argument.  The [while True] loop over candidates has fuel one more than the number of
    orders; [PlanCancelProofs] shows that its test has failed when it ends. *)

From S2P Require Import Prelude PyDecimal Assets BrokerModels Breakers RiskRules RiskEngine.
From S2P Require Import Database Lifecycle SessionLogic BreakerStore SafetyState RuleRepository PlanTruth PlanLifecycle.
From S2P Require Import ReconcileSession FillImport StatusSync Reconciliation ServiceBase.
From Stdlib Require Import Ascii Lia.
Local Open Scope Z_scope.

Definition PLAN_CANCEL_SETTLED : string := "settled".
Definition PLAN_CANCEL_PENDING : list string := [PLAN_CANCEL_REQUESTED; PLAN_CANCEL_INDETERMINATE].

Definition cancel_pending (o : Order) : bool := bool_decide (o_plan_cancel_state o ∈ PLAN_CANCEL_PENDING).

(** The statuses whose orders the broker can cancel. *)
Definition BROKER_LIVE : list OrderStatus := [SUBMITTED; PARTIALLY_FILLED].

(** What [sync_open_orders] adds to a report. *)
Record PlanSync : Type := mkPlanSync {
  ps_exit_groups_activated : Z;
  ps_exit_rules_activated : Z;
  ps_exit_rules_resized : Z;
  ps_plan_rules_settled : Z;
  ps_plans_completed : Z;
  ps_plan_orders_canceled : Z;
  ps_plan_order_cancel_failures : Z;
  ps_remaining_plan_cancel_intents : list Z;
}.

(** The dictionary of [serialize_reconciliation_report]; its other keys repeat the report. *)
Record SyncReport : Type := mkSync {
  sy_report : ReconciliationReport;
  sy_failed : Z;
  sy_plans : option PlanSync;
}.

Definition serialize_reconciliation_report (r : ReconciliationReport) : SyncReport :=
  mkSync r (Z.of_nat (length (rp_unresolved_unknown r)) + Z.of_nat (length (rp_broker_drift r))) None.

(** The dictionary a cancellation returns. *)
Record CancelResult : Type := mkCancelResult {
  cr_status : option string;
  cr_error : option string;
  cr_sync : option SyncReport;
}.

Record QuiesceResult : Type := mkQuiesce { qr_canceled : Z; qr_failed : Z; qr_remaining : Z }.

Section Cancel.
Context `{Digest} (resize_action : string → Decimal → option string) {W : Type} `{!ServiceBroker W}.
Context (actor reason request_id : string).

Abbreviation svc := (svc W).
Abbreviation audit := (persist_audit actor reason request_id).

Definition record_plan_cancel_state (order_id : Z) (state : string) (t : time) : tx () :=
  if negb (bool_decide (state ∈ PLAN_CANCEL_SETTLED :: PLAN_CANCEL_PENDING))
  then raise (ValueError "invalid durable plan cancellation state")
  else
    o ← get_order order_id;
    if bool_decide (o_plan_cancel_state o = state) then mret ()
    else
      put_order order_id (set_o_version (o_version o + 1) (set_o_updated_at t (set_o_plan_cancel_state state o))) ≫= λ _,
      audit "order.plan_cancel_intent" "order" (IdTarget order_id) state EmptyString [] true (Some t).

(** [if order.plan_cancel_state not in {...}: record requested]. *)
Definition request_cancel (order_id : Z) : rtx () :=
  o ← on_session (get_order order_id);
  if cancel_pending o then mret ()
  else t ← now; on_session (record_plan_cancel_state order_id PLAN_CANCEL_REQUESTED t).

(** * One broker cancellation *)

(** The latch of an order whose cancellation nobody could confirm. *)
Definition latch_unconfirmed (order_id : Z) (t : time) : tx () :=
  d ← read;
  match db_orders d !! order_id with
  | None => raise (RuntimeError "order disappeared during cancellation latch")
  | Some o =>
      let latched := set_o_last_error_code "indeterminate_cancel" (set_o_acceptance_state FILL_RECONCILIATION_REQUIRED o) in
      put_order order_id latched ≫= λ _,
      (if cancel_pending o then record_plan_cancel_state order_id PLAN_CANCEL_INDETERMINATE t
       else put_order order_id (set_o_version (o_version o + 1) (set_o_updated_at t latched))) ≫= λ _,
      audit "order.cancel_latch" "order" (IdTarget order_id) "indeterminate_cancel" EmptyString
        [("acceptance_state", JStr FILL_RECONCILIATION_REQUIRED); ("error_code", JStr "indeterminate_cancel")] true (Some t)
  end.

Definition latch_indeterminate (order_id : Z) (t : time) : tx () := latch_unconfirmed order_id t ≫= λ _, commit.

(** What the row shows after the reconciliation, and the settled intent it records. *)
Definition settle_cancel (order_id : Z) : rtx (option Order * bool * bool) :=
  d ← on_session read;
  match db_orders d !! order_id with
  | None => mret (None, false, false)
  | Some row =>
      let exact_fill_truth_confirmed := bool_decide (o_acceptance_state row ≠ FILL_RECONCILIATION_REQUIRED) in
      status ← on_session (lift (order_status_of (o_status row)));
      let terminal_exact := bool_decide (status ∈ TERMINAL_STATES) && exact_fill_truth_confirmed in
      let plan_cancel_settled := terminal_exact && cancel_pending row in
      (if plan_cancel_settled
       then t ← now; on_session (record_plan_cancel_state order_id PLAN_CANCEL_SETTLED t ≫= λ _, commit)
       else mret ()) ≫= λ _,
      mret (Some row, exact_fill_truth_confirmed, plan_cancel_settled)
  end.

(** The broker's word: the reply to the cancellation, else the order's status. *)
Definition ask_broker (broker_order_id : string) : svc (outcome OrderResult) :=
  reply ← call (rb_cancel_order broker_order_id);
  match reply with
  | Ok r => mret (Ok r)
  | Raise _ => call (rb_order_status broker_order_id)
  end.

(** [_cancel_live_order_under_writer] with [settle_plan_lifecycle] and the reconciliation it
    chooses. *)
Definition cancel_with (settle_plan_lifecycle : bool) (sync : svc SyncReport) (order_id : Z) : svc CancelResult :=
  row ← look (λ d, db_orders d !! order_id);
  match row with
  | None => mret (mkCancelResult None (Some "not found") None)
  | Some o =>
      status ← lift_svc (order_status_of (o_status o));
      if negb (bool_decide (status ∈ BROKER_LIVE))
      then mret (mkCancelResult (Some (o_status o)) (Some "order not cancelable in this state") None)
      else match o_broker_order_id o with
      | None | Some EmptyString => mret (mkCancelResult (Some (o_status o)) (Some "live order has no broker order id") None)
      | Some broker_order_id =>
          reply ← ask_broker broker_order_id;
          match reply with
          | Raise _ =>
              t ← svc_now;
              on_db (breaker_trip scope_broker_drift ("indeterminate broker cancellation for order " +:+ pretty order_id)
                       actor request_id t (Some reason)) ≫= λ _,
              in_session (on_session (latch_indeterminate order_id t)) ≫= λ _,
              mret (mkCancelResult (Some (o_status o)) (Some "broker cancellation could not be confirmed") None)
          | Ok broker_result =>
              report ← sync;
              settled ← in_session (settle_cancel order_id);
              let '(current, exact_fill_truth_confirmed, plan_cancel_settled) := settled in
              let status := option_map o_status current in
              if bool_decide (r_status broker_result = CANCELED) && bool_decide (status = Some (order_status_value CANCELED))
                 && exact_fill_truth_confirmed
              then mret (mkCancelResult status None None)
              else if plan_cancel_settled && negb settle_plan_lifecycle && bool_decide (current ≠ None)
              then mret (mkCancelResult status None None)
              else mret (mkCancelResult status
                           (Some (if negb exact_fill_truth_confirmed then "broker cancellation lacks exact fill confirmation"
                                  else "broker order was not canceled; reported " +:+ order_status_value (r_status broker_result)))
                           (Some report))
          end
      end
  end.

Definition serialized_reconcile : svc SyncReport :=
  r ← reconcile resize_action actor reason request_id; mret (serialize_reconciliation_report r).

(** [_cancel_live_order_under_writer(..., settle_plan_lifecycle=False)]. *)
Definition cancel_plan_order : Z → svc CancelResult := cancel_with false serialized_reconcile.

(** * The orders of a plan *)

(** What the session of one order decides: settled locally, indeterminate, or to the broker. *)
Inductive Step : Type := Settled | Failed | AskBroker.

(** The rest of a session once the order needs the broker. *)
Definition request_broker_cancel (order_id : Z) : rtx Step :=
  request_cancel order_id ≫= λ _,
  on_session (audit "order.plan_broker_cancel" "order" (IdTarget order_id) "requested" EmptyString [] true None ≫= λ _, commit) ≫= λ _,
  mret AskBroker.

(** ... and once nobody can say where the order is. *)
Definition indeterminate_order (order_id : Z) (detail : string) : rtx Step :=
  request_cancel order_id ≫= λ _,
  trip_here actor reason request_id scope_broker_drift detail ≫= λ _,
  on_session commit ≫= λ _,
  mret Failed.

Definition quiesce_session (plan_id order_id : Z) : rtx Step :=
  d ← on_session read;
  match db_orders d !! order_id with
  | None => mret Failed
  | Some o =>
      current ← on_session (lift (order_status_of (o_status o)));
      if bool_decide (current ∈ [PROPOSED; APPROVAL_RECORDED]) then
        let target := if bool_decide (current = PROPOSED) then CANCELED else REJECTED in
        t ← now;
        o' ← on_session (lift (transition o target t));
        on_session (put_order order_id (set_o_last_error_code "plan_cancel" o')) ≫= λ _,
        t ← now;
        on_session (record_plan_cancel_state order_id PLAN_CANCEL_SETTLED t ≫= λ _,
                    audit "order.plan_cancel" "order" (IdTarget order_id) (order_status_value target) EmptyString [] true None ≫= λ _,
                    commit) ≫= λ _,
        mret Settled
      else if negb (bool_decide (current ∈ BROKER_LIVE)) then
        indeterminate_order order_id ("plan " +:+ pretty plan_id +:+ " cancellation found indeterminate order " +:+ pretty order_id
                                      +:+ " in state " +:+ order_status_value current)
      else
        on_session (put_order order_id (set_o_last_error_code "plan_cancel" o)) ≫= λ _,
        request_broker_cancel order_id
  end.

(** One order: its session, then the broker.  The counts are [(canceled, failed)]. *)
Definition cancel_one (session : rtx Step) (unresolved : string) (acc : Z * Z) (order_id : Z) : svc (Z * Z) :=
  step ← in_session session;
  match step with
  | Settled => mret (acc.1 + 1, acc.2)
  | Failed => mret (acc.1, acc.2 + 1)
  | AskBroker =>
      outcome ← cancel_plan_order order_id;
      match cr_error outcome with
      | Some _ => trip_breaker actor reason request_id scope_broker_drift unresolved ≫= λ _, mret (acc.1, acc.2 + 1)
      | None => mret (acc.1 + 1, acc.2)
      end
  end.

Definition quiesce_order (plan_id : Z) (acc : Z * Z) (order_id : Z) : svc (Z * Z) :=
  cancel_one (quiesce_session plan_id order_id)
    ("plan " +:+ pretty plan_id +:+ " cancellation remains unresolved for order " +:+ pretty order_id) acc order_id.

Definition open_plan_orders (entry_only : bool) (plan_id : Z) : Db → list Z :=
  if entry_only then plan_entry_nonterminal_order_ids plan_id else plan_nonterminal_order_ids plan_id.

Definition quiesce_held (plan_id : Z) (entry_only : bool) : svc QuiesceResult :=
  order_ids ← look (open_plan_orders entry_only plan_id);
  counts ← svc_foldl (quiesce_order plan_id) (0, 0) order_ids;
  remaining ← look (λ d, Z.of_nat (length (open_plan_orders entry_only plan_id d)));
  mret (mkQuiesce counts.1 (Z.max counts.2 remaining) remaining).

(** * Orders a filled exit made superfluous *)

Definition exit_fill_session (order_id : Z) : rtx Step :=
  d ← on_session read;
  match db_orders d !! order_id with
  | None => mret Failed
  | Some o =>
      current ← on_session (lift (order_status_of (o_status o)));
      if bool_decide (current ∈ TERMINAL_STATES) && bool_decide (o_acceptance_state o ≠ FILL_RECONCILIATION_REQUIRED) then
        t ← now;
        on_session (record_plan_cancel_state order_id PLAN_CANCEL_SETTLED t ≫= λ _, commit) ≫= λ _,
        mret Settled
      else if negb (bool_decide (current ∈ BROKER_LIVE)) then
        indeterminate_order order_id ("plan exit requires cancellation of indeterminate order " +:+ pretty order_id
                                      +:+ " in state " +:+ order_status_value current)
      else
        (if bool_decide (o_last_error_code o ∈ ["plan_cancel"; "plan_exit_entry_cancel"]) then mret ()
         else on_session (put_order order_id (set_o_last_error_code "plan_exit_entry_cancel" o))) ≫= λ _,
        request_broker_cancel order_id
  end.

Definition exit_fill_order (acc : Z * Z) (order_id : Z) : svc (Z * Z) :=
  cancel_one (exit_fill_session order_id) ("plan exit cancellation remains unresolved for order " +:+ pretty order_id) acc order_id.

(** The ids of a round of the loop. *)
Definition cancel_candidates (seen : list Z) (d : Db) : outcome (list Z) :=
  requiring ← plan_order_ids_requiring_broker_cancel d;
  Ok (filter (λ id, id ∉ seen) (sorted_ids (dedup (requiring ++ plan_cancellation_intent_order_ids d)))).

(** Returns the counts and every id the loop has seen. *)
Fixpoint exit_fill_loop (fuel : nat) (seen : list Z) (acc : Z * Z) : svc (Z * Z * list Z) :=
  match fuel with
  | O => mret (acc, seen)
  | S fuel =>
      picked ← look (cancel_candidates seen);
      candidates ← lift_svc picked;
      match candidates with
      | [] => mret (acc, seen)
      | _ => counts ← svc_foldl exit_fill_order acc candidates; exit_fill_loop fuel (seen ++ candidates) counts
      end
  end.

Definition cancel_plan_orders_after_exit_fill : svc (Z * Z * list Z) :=
  orders ← look (λ d, size (db_orders d));
  exit_fill_loop (S orders) [] (0, 0).

(** * [sync_open_orders] *)

Definition refresh_rules : svc FillActivationResult :=
  t ← svc_now;
  on_store (λ clock, refresh_fill_activated_rules resize_action t clock actor reason request_id).

Definition sync_detail (r : ReconciliationReport) : dict json :=
  [ ("resolved_unknown", JInt (rp_resolved_unknown r));
    ("unresolved_unknown", JList (map JInt (rp_unresolved_unknown r)));
    ("synced_orders", JInt (rp_synced_orders r));
    ("inserted_fills", JInt (rp_inserted_fills r));
    ("broker_drift", JList (map JStr (rp_broker_drift r))) ].

Definition settle_plans (base : SyncReport) : svc SyncReport :=
  before ← refresh_rules;
  cancellation ← cancel_plan_orders_after_exit_fill;
  let '(canceled, failed, _) := cancellation in
  after ← refresh_rules;
  remaining ← look plan_cancellation_intent_order_ids;
  let failures := Z.max failed (Z.of_nat (length remaining)) in
  let plans := mkPlanSync (groups_activated before + groups_activated after) (rules_activated before + rules_activated after)
                 (rules_resized before + rules_resized after) (rules_settled before + rules_settled after)
                 (plans_completed before + plans_completed after) canceled failures remaining in
  (if negb (failures =? 0)
   then trip_breaker actor reason request_id scope_broker_drift
          ("plan cancellation remains unresolved for orders " +:+ join "," (map pretty remaining))
   else mret ()) ≫= λ _,
  mret (mkSync (sy_report base) (sy_failed base + failures) (Some plans)).

Definition sync_held : svc SyncReport :=
  tried ← attempt serialized_reconcile;
  match tried with
  | Raise RequiredDependencyUnavailable =>
      audit_dependency_failure actor reason request_id "orders.sync" "broker_orders" (KeyTarget "all") "broker_order_sync" ≫= λ _,
      svc_raise RequiredDependencyUnavailable
  | Raise e => svc_raise e
  | Ok base =>
      result ← settle_plans base;
      in_session (on_session (
        audit "orders.sync" "broker_orders" (KeyTarget "all")
          (if sy_failed result =? 0 then "reconciled" else "reconciliation_required") EmptyString
          (sync_detail (sy_report result)) true None ≫= λ _, commit)) ≫= λ _,
      mret result
  end.

(** [cancel_live_order], after its context. *)
Definition cancel_live_order_held (order_id : Z) : svc CancelResult :=
  result ← cancel_with true sync_held order_id;
  in_session (on_session (
    audit "order.cancel" "order" (IdTarget order_id) (match cr_error result with None => "canceled" | Some _ => "cancel_failed" end)
      EmptyString
      [ ("status", json_opt JStr (cr_status result)); ("has_error", JBool (bool_decide (cr_error result ≠ None))) ] true None ≫= λ _,
    commit)) ≫= λ _,
  mret result.

End Cancel.

(** The public methods. *)
Definition sync_open_orders `{Digest} (resize_action : string → Decimal → option string) {W : Type} `{!ServiceBroker W}
    (actor reason request_id : string) : svc W SyncReport :=
  with_context actor reason request_id (sync_held resize_action).

Definition cancel_live_order `{Digest} (resize_action : string → Decimal → option string) {W : Type} `{!ServiceBroker W}
    (order_id : Z) (actor reason request_id : string) : svc W CancelResult :=
  with_context actor reason request_id (λ a b c, cancel_live_order_held resize_action a b c order_id).

Definition quiesce_trade_plan_orders `{Digest} (resize_action : string → Decimal → option string) {W : Type} `{!ServiceBroker W}
    (plan_id : Z) (entry_only : bool) (actor reason request_id : string) : svc W QuiesceResult :=
  with_context actor reason request_id (λ a b c, quiesce_held resize_action a b c plan_id entry_only).
