(* ===== verification/PlanCancelProofs.v ===== *)
(** What the cancellation methods of the service guarantee: they move orders along the state
    machine, the loop over superfluous orders ends with nothing left to try, a cancellation
    reported without error is stored with exact fill truth, and one nobody could confirm
    leaves the order latched behind the drift breaker. *)

From S2P Require Import Prelude PyDecimal Assets BrokerModels Breakers RiskRules RiskEngine.
From S2P Require Import Database Lifecycle SessionLogic BreakerStore OrderRepository RepositoryLogic RepositoryProofs SafetyState.
From S2P Require Import RuleRepository RuleProofs PlanTruth PlanTruthProofs PlanLifecycle PlanLifecycleLogic PlanLifecycleProofs.
From S2P Require Import ReconcileSession FillImport StatusSync Reconciliation ReconcileLogic ReconcileProofs Panic PanicProofs.
From S2P Require Import ServiceBase PlanCancel.
From Stdlib Require Import Ascii Lia.
Local Open Scope Z_scope.

(** * Service plumbing *)

Section Plumbing.
Context {W : Type} (R : Db → Db → Prop) `{!PreOrder R}.

Lemma sv_attempt {A} (m : svc W A) : serves R m → serves R (attempt m).
Proof. intros Hm s. specialize (Hm s). unfold attempt. by destruct (m s). Qed.
Lemma sv_lift {A} (m : outcome A) : serves R (lift_svc (W := W) m).
Proof. by intros s. Qed.
Lemma sv_on_db {A} (f : Db → outcome A * Db) : (∀ d, R d (f d).2) → serves (W := W) R (on_db f).
Proof. intros Hf s. unfold on_db. specialize (Hf (sv_db s)). by destruct (f _). Qed.
Lemma sv_with_context {A} actor reason request_id (body : string → string → string → svc W A) :
  (∀ a b c, serves R (body a b c)) → serves R (with_context actor reason request_id body).
Proof. intros Hb. unfold with_context. destruct (mutation_context _ _ _) as [[[a b] c]|e]; [apply Hb|by apply sv_raise]. Qed.
End Plumbing.

#[export] Hint Resolve sv_attempt sv_lift : reconcile.

(** * Every method stays within an admitted relation *)

Section Serve.
Context `{Digest} (resize_action : string → Decimal → option string) {W : Type} `{!ServiceBroker W}.
Context (R : Db → Db → Prop) `{!Admits R}.

Section Rows.
Context (actor reason request_id : string).

Lemma moves_persist_audit action tt target code key detail proof t :
  moves R (persist_audit actor reason request_id action tt target code key detail proof t).
Proof. apply (moves_plan R). intros s. split; [done|]. apply (wi_moves nothing), within_audit. Qed.

Lemma kt_trip_here scope detail : keeps_to R (trip_here actor reason request_id scope detail).
Proof. unfold trip_here. keep. apply kt_session; [apply _|]. apply moves_trip_in_session, _. Qed.

Lemma sv_trip_breaker scope detail : serves (W := W) R (trip_breaker actor reason request_id scope detail).
Proof. unfold trip_breaker. serve. apply sv_on_store. intros. apply breaker_trip_admitted, _. Qed.

(** Reading an order before changing it. *)
Lemma moves_get_put id (f : Order → tx ()) :
  (∀ o s, db_orders (working s) !! id = Some o → moves_at R (f o) s) → moves R (get_order id ≫= f).
Proof.
  intros Hf s. unfold get_order, moves_at, mbind, tx_bind, read. cbn. destruct (db_orders (working s) !! id) as [o|] eqn:Ho; [|done].
  by apply Hf.
Qed.

Lemma moves_at_put {A} id o o' (k : () → tx A) s :
  db_orders (working s) !! id = Some o → quiet_update o o' → (∀ u, moves R (k u)) → moves_at R (put_order id o' ≫= k) s.
Proof.
  intros Ho Hq Hk. apply moves_at_bind; [apply _|split; [done|by eapply ad_order]|]. intros [] s' _. apply Hk.
Qed.

Lemma quiet_plan_state st t o : quiet_update o (set_o_version (o_version o + 1) (set_o_updated_at t (set_o_plan_cancel_state st o))).
Proof. apply quiet_same_status; try done. cbn. lia. Qed.
Lemma quiet_error_code code o : quiet_update o (set_o_last_error_code code o).
Proof. by apply quiet_same_status. Qed.
Lemma quiet_indeterminate code o : quiet_update o (set_o_last_error_code code (set_o_acceptance_state FILL_RECONCILIATION_REQUIRED o)).
Proof. by apply quiet_same_status. Qed.
Lemma quiet_touch t o : quiet_update o (set_o_version (o_version o + 1) (set_o_updated_at t o)).
Proof. apply quiet_same_status; try done. cbn. lia. Qed.
Hint Resolve quiet_plan_state quiet_error_code quiet_indeterminate quiet_touch : reconcile.

Lemma moves_record_state id st t : moves R (record_plan_cancel_state actor reason request_id id st t).
Proof.
  unfold record_plan_cancel_state. destruct (negb _); [apply moves_raise, _|]. apply moves_get_put. intros o s Ho.
  destruct (bool_decide _); [apply moves_here, moves_ret, _|]. eapply moves_at_put; [done|apply quiet_plan_state|intros; apply moves_persist_audit].
Qed.

Lemma kt_request_cancel id : keeps_to R (request_cancel actor reason request_id id).
Proof. unfold request_cancel. pose proof (kt_get_order R). keep. apply kt_session; [apply _|]. apply moves_record_state. Qed.

Lemma kt_session_bind {A B} (m : tx A) (k : A → tx B) :
  keeps_to R (on_session m) → (∀ a, keeps_to R (on_session (k a))) → keeps_to R (on_session (m ≫= k)).
Proof.
  intros Hm Hk s d0 Hd Hw. specialize (Hm s d0 Hd Hw). unfold on_session, mbind, tx_bind in *.
  destruct (m (r_session s)) as [[a|e] s'] eqn:E; cbn in *; [|done]. destruct Hm as [Hd' Hw'].
  specialize (Hk a (mkR s' (r_flushed s) (r_pending s) (r_parents s) (r_clock s)) d0 Hd' Hw'). unfold on_session in Hk. cbn in Hk.
  by destruct (k a s').
Qed.

(** An audit row, then the commit. *)
Lemma kt_then_commit (m : tx ()) : moves R m → keeps_to R (on_session (m ≫= λ _, commit)).
Proof. intros Hm. apply kt_session_bind; [by apply kt_session, Hm; apply _|intros; apply kt_commit]. Qed.

Lemma moves_latch_unconfirmed id t : moves R (latch_unconfirmed actor reason request_id id t).
Proof.
  intros s. apply moves_at_read. destruct (db_orders (working s) !! id) as [o|] eqn:Ho; [|by apply moves_here, moves_raise, _].
  apply moves_at_bind; [apply _|split; [done|by eapply ad_order, quiet_indeterminate]|]. intros [] s1 [= <-].
  apply moves_at_bind; [apply _| |intros; apply moves_persist_audit]. destruct (cancel_pending o); [apply moves_record_state|].
  split; [done|]. eapply ad_order; [apply lookup_insert_eq|]. by apply quiet_same_status; try done; cbn; lia.
Qed.

Lemma kt_settle_cancel id : keeps_to R (settle_cancel actor reason request_id id).
Proof.
  pose proof (moves_record_state id PLAN_CANCEL_SETTLED) as Hm. unfold settle_cancel. keep. by apply kt_then_commit.
Qed.

Lemma kt_request_broker id : keeps_to R (request_broker_cancel actor reason request_id id).
Proof.
  pose proof (kt_request_cancel id). unfold request_broker_cancel. keep. apply kt_then_commit, moves_persist_audit.
Qed.

Lemma kt_indeterminate_order id detail : keeps_to R (indeterminate_order actor reason request_id id detail).
Proof. pose proof (kt_request_cancel id). pose proof (kt_trip_here scope_broker_drift). unfold indeterminate_order. keep. Qed.

(** A session that reads the order before it decides. *)
Lemma ka_read {A} (k : Db → rtx A) s : keeps_at R (k (wrk s)) s → keeps_at R (on_session read ≫= k) s.
Proof. intros Hk. apply ka_bind; [by apply kt_read, _|]. intros d s' [= <- <-]. by destruct s as [[]]. Qed.

Lemma ka_lift {A B} (m : outcome A) (k : A → rtx B) s : (∀ a, m = Ok a → keeps_at R (k a) s) → keeps_at R (on_session (lift m) ≫= k) s.
Proof. intros Hk. apply ka_bind; [by apply kt_lift, _|]. intros a s' [Ha ->]%on_lift_Ok. by apply Hk. Qed.

Lemma kt_quiesce_session plan id : keeps_to R (quiesce_session actor reason request_id plan id).
Proof.
  intros s. apply ka_read. destruct (db_orders (wrk s) !! id) as [o|] eqn:Ho; [|by apply kt_ret]. apply ka_lift. intros current Hc.
  destruct (bool_decide (current ∈ _)).
  - apply ka_now. intros t s1 Es1. apply ka_lift. intros o' Ht. apply ka_bind.
    { eapply ka_put_order; [apply _|apply _|by rewrite Es1|]. apply quiet_transition in Ht.
      split; [|by destruct Ht]. destruct Ht as [He _]. etrans; [exact He|]. by apply order_evolves_same_status. }
    intros [] s2 _. match goal with |- keeps_at R ?m s2 => assert (keeps_to R m) as Hk; [|apply Hk] end.
    keep; (apply kt_session_bind; [apply kt_session, moves_record_state; apply _|intros _]; apply kt_then_commit, moves_persist_audit).
  - destruct (negb _); [apply kt_indeterminate_order|]. apply ka_bind; [|intros [] ? _; apply kt_request_broker].
    eapply ka_put_order; [apply _|apply _|done|apply quiet_error_code].
Qed.

Lemma kt_exit_fill_session id : keeps_to R (exit_fill_session actor reason request_id id).
Proof.
  intros s. apply ka_read. destruct (db_orders (wrk s) !! id) as [o|] eqn:Ho; [|by apply kt_ret]. apply ka_lift. intros current Hc.
  destruct (_ && _); [|destruct (negb _); [apply kt_indeterminate_order|]].
  - match goal with |- keeps_at R ?m s => assert (keeps_to R m) as Hk; [|apply Hk] end. keep. apply kt_then_commit, moves_record_state.
  - apply ka_bind; [|intros [] ? _; apply kt_request_broker]. destruct (bool_decide _); [by apply kt_ret|].
    eapply ka_put_order; [apply _|apply _|done|apply quiet_error_code].
Qed.

(** ** Service calls *)

Context (Hres : resolves (W := W) R) (Hrel : releases R).

Lemma sv_serialized : serves R (serialized_reconcile (W := W) resize_action actor reason request_id).
Proof. unfold serialized_reconcile. pose proof (sv_reconcile resize_action R actor reason request_id Hres Hrel). serve. Qed.

Lemma sv_cancel_with settle sync id : serves R sync → serves R (cancel_with (W := W) actor reason request_id settle sync id).
Proof.
  intros Hsync. assert (∀ t, serves (W := W) R (in_session (on_session (latch_indeterminate actor reason request_id id t)))) as Hl.
  { intros t. apply sv_in_session; [apply _|]. apply kt_then_commit, moves_latch_unconfirmed. }
  assert (serves (W := W) R (in_session (settle_cancel actor reason request_id id))) as Hs.
  { apply sv_in_session; [apply _|]. apply kt_settle_cancel. }
  unfold cancel_with, ask_broker. serve; apply sv_on_db; intros; apply breaker_trip_admitted, _.
Qed.

Lemma sv_cancel_one session detail acc id : keeps_to R session →
  serves R (cancel_one (W := W) resize_action actor reason request_id session detail acc id).
Proof.
  intros Hk. pose proof (sv_cancel_with false _ id sv_serialized) as Hc. pose proof (sv_trip_breaker scope_broker_drift) as Ht.
  assert (serves (W := W) R (in_session session)) as Hs by (apply sv_in_session; [apply _|done]).
  unfold cancel_one, cancel_plan_order. serve.
Qed.

Lemma sv_quiesce plan entry_only : serves R (quiesce_held (W := W) resize_action actor reason request_id plan entry_only).
Proof.
  unfold quiesce_held, quiesce_order. pose proof (λ id detail acc, sv_cancel_one _ detail acc id (kt_quiesce_session plan id)). serve.
Qed.

Lemma sv_exit_fill_order acc id : serves R (exit_fill_order (W := W) resize_action actor reason request_id acc id).
Proof. apply sv_cancel_one, kt_exit_fill_session. Qed.

Lemma sv_exit_fill_loop fuel : ∀ seen acc, serves R (exit_fill_loop (W := W) resize_action actor reason request_id fuel seen acc).
Proof. induction fuel as [|fuel IH]; intros seen acc; cbn [exit_fill_loop]; pose proof sv_exit_fill_order; serve. Qed.

Lemma sv_refresh : serves R (refresh_rules (W := W) resize_action actor reason request_id).
Proof.
  unfold refresh_rules. serve. apply sv_on_store. intros t d. apply ad_plans.
  destruct (refresh_fill_activated_rules _ _ _ _ _ _ _) as [r d'] eqn:E. by apply refresh_moves in E as [? _].
Qed.

Lemma sv_settle_plans base : serves R (settle_plans (W := W) resize_action actor reason request_id base).
Proof.
  unfold settle_plans, cancel_plan_orders_after_exit_fill. pose proof sv_refresh. pose proof sv_exit_fill_loop.
  pose proof (sv_trip_breaker scope_broker_drift). serve.
Qed.

Lemma sv_sync_held : serves R (sync_held (W := W) resize_action actor reason request_id).
Proof.
  unfold sync_held, audit_dependency_failure. pose proof sv_settle_plans. pose proof sv_serialized.
  serve; (apply sv_in_session; [apply _|]; apply kt_then_commit, moves_persist_audit).
Qed.

Lemma sv_cancel_live id : serves R (cancel_live_order_held (W := W) resize_action actor reason request_id id).
Proof.
  unfold cancel_live_order_held. pose proof (sv_cancel_with true _ id sv_sync_held).
  serve; (apply sv_in_session; [apply _|]; apply kt_then_commit, moves_persist_audit).
Qed.
End Rows.
End Serve.

(** * The loop over superfluous orders *)

Definition same_id (o o' : Order) : Prop := o_id o' = o_id o.

#[export] Instance same_id_preorder : PreOrder same_id.
Proof. split; unfold same_id; [done|]. intros x y z. congruence. Qed.

#[export] Instance keeps_ids_admits : Admits (moves_by same_id) := by_id_admits same_id (λ _ _ H, H).

Lemma keeps_ids_resolves {W} `{!ReconcileBroker W} `{Digest} : resolves (W := W) (moves_by same_id).
Proof. intros k w remote w' _ id t a b c d. apply resolve_moves_by; [apply _|done]. Qed.

Lemma keeps_ids_releases : releases (moves_by same_id).
Proof. intros d id o o' Ho He. eapply moves_by_order; [apply _|exact Ho|]. apply He. Qed.

(** Rows are stored under their own id. *)
Definition orders_keyed (d : Db) : Prop := ∀ id o, db_orders d !! id = Some o → o_id o = id.

Lemma orders_keyed_moves d d' : moves_by same_id d d' → orders_keyed d → orders_keyed d'.
Proof.
  intros M Hk id o' Ho'. pose proof (mb_orders _ _ _ M id) as Hid. rewrite Ho' in Hid.
  destruct (db_orders d !! id) as [o|] eqn:Ho; [|done]. rewrite Hid. by apply Hk.
Qed.

Lemma size_moves Q d d' : moves_by Q d d' → size (db_orders d') = size (db_orders d).
Proof.
  intros M. rewrite <- !(size_dom (D := gset Z)). f_equal. apply set_eq. intros id. rewrite !elem_of_dom. pose proof (mb_orders _ _ _ M id) as Hid.
  destruct (db_orders d !! id), (db_orders d' !! id); try done; by split; intros [? ?].
Qed.

Lemma joined_row_order d x : orders_keyed d → x ∈ joined_rows d → is_Some (db_orders d !! o_id (pr_order x)).
Proof.
  intros Hk (id & _ & Hx)%list_elem_of_omap. destruct (db_orders d !! id) as [o|] eqn:Ho; [|done]. cbn in Hx.
  destruct (db_proposals d !! id) as [p|]; [|done]. cbn in Hx. destruct (p_source_rule_id p) as [rid|]; [|done]. cbn in Hx.
  destruct (db_rules d !! rid) as [r|]; [|done]. cbn in Hx. injection Hx as <-. cbn. rewrite (Hk _ _ Ho). eauto.
Qed.

Lemma mapM_elem {A B} (f : A → outcome B) l ys y : outcome_mapM f l = Ok ys → y ∈ ys → ∃ x, x ∈ l ∧ f x = Ok y.
Proof.
  revert ys. induction l as [|a l IH]; intros ys; cbn; [intros [= <-]; by intros ?%elem_of_nil|].
  intros (z & Hz & (zs & Hzs & [= <-])%outcome_bind_Ok)%outcome_bind_Ok [->|Hy]%elem_of_cons; [exists a; split; [left|done]|].
  destruct (IH _ Hzs Hy) as (x & Hx & Hf). exists x. split; [by right|done].
Qed.

Lemma requiring_stored d ids id : orders_keyed d → plan_order_ids_requiring_broker_cancel d = Ok ids → id ∈ ids → is_Some (db_orders d !! id).
Proof.
  intros Hk. unfold plan_order_ids_requiring_broker_cancel. intros (q & _ & (picked & Hp & [= <-])%outcome_bind_Ok)%outcome_bind_Ok Hid.
  apply sorted_ids_elem, elem_of_dedup, list_elem_of_omap in Hid as ([b i] & Hb & He). destruct b; [|done]. injection He as ->.
  apply (mapM_elem _ _ _ _ Hp) in Hb as (x & Hx & (b & _ & [= _ <-])%outcome_bind_Ok).
  apply list_elem_of_filter in Hx as [_ Hx]. by apply joined_row_order.
Qed.

Lemma intents_stored d id : orders_keyed d → id ∈ plan_cancellation_intent_order_ids d → is_Some (db_orders d !! id).
Proof.
  intros Hk (x & -> & [_ Hx]%list_elem_of_filter)%list_elem_of_fmap. by apply joined_row_order.
Qed.

Lemma NoDup_sorted_dedup l : NoDup (sorted_ids (dedup l)).
Proof. unfold sorted_ids. rewrite merge_sort_Permutation. apply NoDup_dedup. Qed.

Lemma candidates_spec d seen l : orders_keyed d → cancel_candidates seen d = Ok l →
  NoDup l ∧ ∀ id, id ∈ l → id ∉ seen ∧ is_Some (db_orders d !! id).
Proof.
  intros Hk (req & Hreq & [= <-])%outcome_bind_Ok. split; [apply NoDup_filter, NoDup_sorted_dedup|].
  intros id [Hn Hid]%list_elem_of_filter. split; [done|]. apply sorted_ids_elem, elem_of_dedup, elem_of_app in Hid as [Hid|Hid];
    [by eapply requiring_stored|by eapply intents_stored].
Qed.

Lemma ids_bounded d (l : list Z) : NoDup l → (∀ id, id ∈ l → is_Some (db_orders d !! id)) → (length l ≤ size (db_orders d))%nat.
Proof.
  intros Hnd Hin. rewrite <- (size_list_to_set (C := gset Z) l Hnd), <- (size_dom (D := gset Z)). apply subseteq_size.
  intros id Hid%elem_of_list_to_set. apply elem_of_dom. auto.
Qed.

Section Loop.
Context `{Digest} (resize_action : string → Decimal → option string) {W : Type} `{!ServiceBroker W}.
Context (actor reason request_id : string).

Lemma exit_fill_loop_completes fuel : ∀ seen acc (s s' : SvcState W) counts seen',
  exit_fill_loop resize_action actor reason request_id fuel seen acc s = (Ok (counts, seen'), s') →
  orders_keyed (sv_db s) → NoDup seen → (∀ id, id ∈ seen → is_Some (db_orders (sv_db s) !! id)) →
  (size (db_orders (sv_db s)) < fuel + length seen)%nat →
  NoDup seen' ∧ cancel_candidates seen' (sv_db s') = Ok [].
Proof.
  induction fuel as [|fuel IH]; intros seen acc s s' counts seen' Hrun Hk Hnd Hin Hfuel.
  { pose proof (ids_bounded _ _ Hnd Hin). lia. }
  cbn [exit_fill_loop] in Hrun. apply svc_bind_Ok in Hrun as (picked & s1 & [= <- <-] & Hrun).
  apply svc_bind_Ok in Hrun as (cands & s2 & [= Hc <-] & Hrun). destruct (candidates_spec _ _ _ Hk Hc) as [Hcnd Hcin].
  destruct cands as [|c cands]; [by injection Hrun as <- <- <-|].
  apply svc_bind_Ok in Hrun as (cs & s3 & Hfold & Hrun).
  assert (moves_by same_id (sv_db s) (sv_db s3)) as M.
  { pose proof (sv_foldl (W := W) (moves_by same_id) (exit_fill_order resize_action actor reason request_id) (c :: cands)
      (λ a b, sv_exit_fill_order resize_action (moves_by same_id) actor reason request_id keeps_ids_resolves keeps_ids_releases a b) acc s) as Hs.
    by rewrite Hfold in Hs. }
  eapply IH; [exact Hrun|by eapply orders_keyed_moves| | |].
  - apply NoDup_app. split_and!; [done| |done]. intros id Hs Hid%Hcin. by destruct Hid.
  - intros id Hid. assert (is_Some (db_orders (sv_db s) !! id)) as [o Ho].
    { apply elem_of_app in Hid as [Hid|Hid]; [by apply Hin|by apply Hcin]. }
    pose proof (mb_orders _ _ _ M id) as Hrow. rewrite Ho in Hrow. by destruct (db_orders (sv_db s3) !! id).
  - rewrite (size_moves _ _ _ M), length_app. cbn [length]. lia.
Qed.
End Loop.

(** * What a cancellation leaves *)

Definition exact (o : Order) : Prop := ¬ needs_exact o.

(** The row keeps its status and acceptance through an intent record. *)
Lemma record_state_row `{Digest} actor reason request_id id st t s u s' o :
  record_plan_cancel_state actor reason request_id id st t s = (Ok u, s') → db_orders (working s) !! id = Some o →
  durable s' = durable s ∧ ∃ o', db_orders (working s') !! id = Some o' ∧ o_status o' = o_status o
    ∧ o_acceptance_state o' = o_acceptance_state o ∧ o_last_error_code o' = o_last_error_code o.
Proof.
  intros Hrun Ho. unfold record_plan_cancel_state in Hrun.
  destruct (negb (bool_decide (st ∈ PLAN_CANCEL_SETTLED :: PLAN_CANCEL_PENDING))); [done|].
  apply tx_bind_Ok in Hrun as (o1 & s1 & [Ho1 ->]%get_order_Ok & Hrun). rewrite Ho in Ho1. injection Ho1 as <-.
  destruct u. case_bool_decide; injection Hrun as <-; [split; [done|by exists o]|]. split; [done|]. eexists. split; [apply lookup_insert_eq|done].
Qed.

Section Outcome.
Context `{Digest} (resize_action : string → Decimal → option string) {W : Type} `{!ServiceBroker W}.
Context (actor reason request_id : string).

Lemma settle_cancel_row id d c row ex settled d' c' :
  with_rsession (settle_cancel actor reason request_id id) d c = (Ok (Some row, ex, settled), d', c') →
  ex = bool_decide (exact row)
  ∧ (settled = true → exact row ∧ ∃ st, o_status row = order_status_value st ∧ st ∈ TERMINAL_STATES)
  ∧ ∃ o', db_orders d' !! id = Some o' ∧ o_status o' = o_status row ∧ o_acceptance_state o' = o_acceptance_state row.
Proof.
  unfold with_rsession, settle_cancel, mbind at 1, rtx_bind at 1, on_session at 1, read. cbn [r_session working].
  destruct (db_orders d !! id) as [o|] eqn:Ho; [|by intros [=]].
  unfold mbind at 1, rtx_bind at 1, on_session at 1, lift. cbn [r_session].
  destruct (order_status_of (o_status o)) as [st|e] eqn:Hst; [|by intros [=]]. apply order_status_of_Ok in Hst.
  set (ok := _ && _). destruct ok eqn:Eok; intros Hrun.
  - assert (st ∈ TERMINAL_STATES ∧ bool_decide (o_acceptance_state o ≠ FILL_RECONCILIATION_REQUIRED) = true) as [Hterm Hex].
    { unfold ok in Eok. apply andb_true_iff in Eok as [[H1%bool_decide_eq_true_1 H2]%andb_true_iff _]. done. }
    unfold mbind, rtx_bind, now, on_session in Hrun. cbn in Hrun.
    destruct (record_plan_cancel_state actor reason request_id id PLAN_CANCEL_SETTLED (c 0%nat) (mkSession d d)) as [[u|e] s1] eqn:Er.
    + unfold tx_bind in Hrun. rewrite Er in Hrun. cbn in Hrun. injection Hrun as <- <- <- <- _. split; [done|].
      split; [intros _; apply bool_decide_eq_true_1 in Hex; by eauto|]. destruct (record_state_row _ _ _ _ _ _ _ _ _ o Er Ho) as (_ & o' & H1 & H2 & H3 & _). by exists o'.
    + unfold tx_bind in Hrun. rewrite Er in Hrun. cbn in Hrun. done.
  - cbn in Hrun. injection Hrun as <- <- <- <- _. split; [done|]. split; [done|]. by exists o.
Qed.

Lemma latch_leaves id t (s s' : SvcState W) u :
  in_session (on_session (latch_indeterminate actor reason request_id id t)) s = (Ok u, s') →
  ∃ o', db_orders (sv_db s') !! id = Some o' ∧ needs_exact o' ∧ o_last_error_code o' = "indeterminate_cancel".
Proof.
  unfold in_session, with_rsession, on_session. cbn. destruct (latch_indeterminate _ _ _ _ _ _) as [[v|e] s1] eqn:E; [|by intros [=]].
  intros [= _ <-]. cbn. apply tx_bind_Ok in E as ([] & s2 & Hrow & [= _ <-]). cbn.
  apply tx_bind_Ok in Hrow as (d & s3 & [= <- <-] & Hrow). cbn in Hrow. destruct (db_orders (sv_db s) !! id) as [o|] eqn:Ho; [|done].
  apply tx_bind_Ok in Hrow as ([] & s4 & [= <-] & Hrow). apply tx_bind_Ok in Hrow as ([] & s5 & H5 & [= <-]). cbn.
  destruct (cancel_pending o).
  - eapply record_state_row in H5 as (_ & o' & H1 & H2 & H3 & H4); [|apply lookup_insert_eq]. exists o'. unfold needs_exact. by rewrite H3, H4.
  - injection H5 as <-. cbn. eexists. split; [apply lookup_insert_eq|done].
Qed.

(** An audit session changes no order and no breaker. *)
Lemma audit_session action tt target code key detail proof t (s s' : SvcState W) u :
  in_session (on_session (persist_audit actor reason request_id action tt target code key detail proof t ≫= λ _, commit)) s = (Ok u, s') →
  db_orders (sv_db s') = db_orders (sv_db s) ∧ db_breakers (sv_db s') = db_breakers (sv_db s).
Proof. by intros [= _ <-]. Qed.

Definition cancel_unconfirmed : string := "broker cancellation could not be confirmed".

Lemma cancel_with_outcome settle sync id (s s' : SvcState W) r :
  cancel_with actor reason request_id settle sync id s = (Ok r, s') →
  (cr_error r = None → ∃ o st, db_orders (sv_db s') !! id = Some o ∧ exact o ∧ o_status o = order_status_value st ∧ st ∈ TERMINAL_STATES
                             ∧ (settle = true → st = CANCELED))
  ∧ (cr_error r = Some cancel_unconfirmed →
       is_tripped scope_broker_drift (sv_db s') = true
       ∧ ∃ o, db_orders (sv_db s') !! id = Some o ∧ needs_exact o ∧ o_last_error_code o = "indeterminate_cancel").
Proof.
  unfold cancel_with. intros Hrun. apply svc_bind_Ok in Hrun as (row & s1 & [= <- <-] & Hrun).
  destruct (db_orders (sv_db s) !! id) as [o|]; [|by injection Hrun as <- <-].
  apply svc_bind_Ok in Hrun as (st & s1 & [= _ <-] & Hrun). destruct (negb _); [by injection Hrun as <- <-|].
  destruct (o_broker_order_id o) as [[|ch bid]|]; [by injection Hrun as <- <-| |by injection Hrun as <- <-].
  apply svc_bind_Ok in Hrun as (reply & s2 & _ & Hrun). destruct reply as [remote|e].
  - apply svc_bind_Ok in Hrun as (report & s3 & _ & Hrun). apply svc_bind_Ok in Hrun as ([[current ex] settled] & s4 & Hset & Hrun).
    assert (∀ row, current = Some row → ex = bool_decide (exact row)
      ∧ (settled = true → exact row ∧ ∃ st, o_status row = order_status_value st ∧ st ∈ TERMINAL_STATES)
      ∧ ∃ o', db_orders (sv_db s4) !! id = Some o' ∧ o_status o' = o_status row ∧ o_acceptance_state o' = o_acceptance_state row) as Hrow.
    { intros row ->. unfold in_session in Hset. destruct (with_rsession _ _ _) as [[x d'] c'] eqn:E. injection Hset as -> <-.
      by apply settle_cancel_row in E. }
    set (c1 := _ && _ && _) in Hrun. destruct c1 eqn:E1.
    { injection Hrun as <- <-. split; [intros _|done]. unfold c1 in E1.
      apply andb_true_iff in E1 as [[_ Hst%bool_decide_eq_true_1]%andb_true_iff Hex]. destruct current as [row|]; [|done]. cbn in Hst.
      injection Hst as Hst. destruct (Hrow row eq_refl) as (-> & _ & o' & Ho' & Hs' & Ha'). apply bool_decide_eq_true_1 in Hex.
      exists o', CANCELED. rewrite Hs'. split_and!; try done; [by unfold exact, needs_exact; rewrite Ha'|set_solver]. }
    set (c2 := _ && _ && _) in Hrun. destruct c2 eqn:E2.
    { injection Hrun as <- <-. split; [intros _|done]. unfold c2 in E2.
      apply andb_true_iff in E2 as [[Hset' Hns%negb_true_iff]%andb_true_iff Hcur%bool_decide_eq_true_1]. destruct current as [row|]; [|done].
      destruct (Hrow row eq_refl) as (-> & Hterm & o' & Ho' & Hs' & Ha'). destruct (Hterm Hset') as (Hexact & st' & Hst' & Hin).
      exists o', st'. rewrite Hs'. split_and!; try done; [by unfold exact, needs_exact; rewrite Ha'|by rewrite Hns]. }
    injection Hrun as <- <-. split; [done|]. cbn. intros [= Heq]. exfalso. by destruct (negb ex).
  - apply svc_bind_Ok in Hrun as (t & s3 & _ & Hrun). apply svc_bind_Ok in Hrun as (u1 & s4 & Htrip & Hrun).
    apply svc_bind_Ok in Hrun as (u2 & s5 & Hlatch & [= <- <-]). split; [done|]. intros _. split.
    + assert (is_tripped scope_broker_drift (sv_db s4) = true) as Ht.
      { unfold on_db in Htrip. destruct (breaker_trip _ _ _ _ _ _ _) as [[x|] d'] eqn:E; [|done]. injection Htrip as _ <-.
        by eapply breaker_trip_trips. }
      eapply keeps_tripped; [|exact Ht].
      pose proof (sv_in_session (W := W) keeps_rows _ (kt_then_commit keeps_rows _ (moves_latch_unconfirmed keeps_rows actor reason request_id id t)) s4) as Hm.
      unfold latch_indeterminate in Hlatch. by rewrite Hlatch in Hm.
    + by apply latch_leaves in Hlatch.
Qed.
End Outcome.
