(* ===== verification/ServiceSync.v ===== *)
(** The service's own reconciliation ([service.py]): positions against the fill ledger, the
    daily loss limits, the process-start epoch, and the two callbacks submission runs inside
    its barrier hold, the validation of plan exits and the confirmation of immediate fills.

    The market clock's boundary is a parameter; so are the SQL sum over a [Numeric] column and
    the reading of the quantity out of a stored action. *)

From S2P Require Import Prelude PyDecimal Assets BrokerModels Breakers RiskRules RiskEngine Pnl.
From S2P Require Import Database Lifecycle SessionLogic BreakerStore SafetyState Snapshot Startup RuleRepository PlanTruth PlanLifecycle.
From S2P Require Import ReconcileSession FillImport StatusSync Reconciliation ServiceBase PlanCancel.
From Stdlib Require Import Ascii Lia.
Local Open Scope Z_scope.

(** * Positions *)

(** [{position.ticker.upper(): position.qty for position in positions}]. *)
Definition broker_quantities (positions : list Position) : dict Decimal :=
  foldl (λ m p, dict_set m (upper (p_ticker p)) (p_qty p)) [] positions.

(** The signed sum of trusted fills per ticker. *)
Definition add_local_fill (local : dict Decimal) (f : Fill) : outcome (dict Decimal) :=
  if fill_has_trusted_identity f then
    let delta := if bool_decide (fl_side f = "buy") then fl_qty f else dneg (fl_qty f) in
    let ticker := upper (fl_ticker f) in
    q ← dadd (default dzero (dict_get local ticker)) delta;
    Ok (dict_set local ticker q)
  else Ok local.

Definition local_quantities (fills : list Fill) : outcome (dict Decimal) := outcome_foldl add_local_fill [] fills.

(** [drift], by ticker: the broker's quantity and the local one. *)
Definition position_drift (broker local : dict Decimal) : list (string * (Decimal * Decimal)) :=
  omap (λ ticker,
          let b := default dzero (dict_get broker ticker) in
          let l := default dzero (dict_get local ticker) in
          if deq b l then None else Some (ticker, (b, l)))
    (sorted_strings (dedup (dict_keys broker ++ dict_keys local))).

(** [json.dumps] of a string and of the drift. *)
Definition json_char (c : ascii) : string :=
  if bool_decide (c = double_quote) || bool_decide (c = "\"%char) then String "\"%char (String c EmptyString)
  else if (nat_of_ascii c =? 10)%nat then "\n" else if (nat_of_ascii c =? 13)%nat then "\r"
  else if (nat_of_ascii c =? 9)%nat then "\t" else if (nat_of_ascii c =? 8)%nat then "\b"
  else if (nat_of_ascii c =? 12)%nat then "\f"
  else if (nat_of_ascii c <? 32)%nat
  then "\u00" +:+ String (hex_digit (nat_of_ascii c / 16)) (String (hex_digit (nat_of_ascii c mod 16)) EmptyString)
  else String c EmptyString.

Fixpoint json_chars (s : string) : string :=
  match s with EmptyString => EmptyString | String c s' => json_char c +:+ json_chars s' end.

Definition json_string (s : string) : string := String double_quote (json_chars s +:+ String double_quote EmptyString).

Definition drift_text (drift : list (string * (Decimal * Decimal))) : string :=
  "{" +:+ join ", " (map (λ x, json_string x.1 +:+ ": {" +:+ json_string "broker" +:+ ": " +:+ json_string (dstr x.2.1)
                               +:+ ", " +:+ json_string "local" +:+ ": " +:+ json_string (dstr x.2.2) +:+ "}") drift) +:+ "}".

Definition drift_json (drift : list (string * (Decimal * Decimal))) : json :=
  JObj (map (λ x, (x.1, JObj [("broker", JStr (dstr x.2.1)); ("local", JStr (dstr x.2.2))])) drift).

Section Sync.
Context `{Digest} (resize_action : string → Decimal → option string) {W : Type} `{!ServiceBroker W}.
Context (actor reason request_id : string).

Abbreviation svc := (svc W).
Abbreviation audit := (persist_audit actor reason request_id).

(** The session of [reconcile_positions]. *)
Definition compare_positions (broker_pos : dict Decimal) : rtx (list (string * (Decimal * Decimal))) :=
  d ← on_session read;
  local ← on_session (lift (local_quantities (db_fills d)));
  let drift := position_drift broker_pos local in
  (if bool_decide (drift = []) then mret ()
   else
     on_session (persist_risk None "reconciliation" (drift_text drift)) ≫= λ _,
     trip_here actor reason request_id scope_broker_drift ("position reconciliation drift: " +:+ drift_text drift)) ≫= λ _,
  on_session (audit "positions.reconcile" "portfolio" (KeyTarget "all")
                (if bool_decide (drift = []) then "reconciled" else "drift_detected") EmptyString [("drift", drift_json drift)] true None ≫= λ _,
              commit) ≫= λ _,
  mret drift.

(** [reconcile_positions], after its context. *)
Definition positions_held : svc (list (string * (Decimal * Decimal))) :=
  reply ← call sb_positions;
  match reply with
  | Raise _ =>
      audit_dependency_failure actor reason request_id "positions.reconcile" "portfolio" (KeyTarget "all") "broker_positions" ≫= λ _,
      svc_raise RequiredDependencyUnavailable
  | Ok positions => in_session (compare_positions (broker_quantities positions))
  end.

(** * Daily losses *)

Section Losses.
Context (loss_limit : AssetClass → Decimal) (boundary : AssetClass → outcome time).

Definition class_fills (asset_class : AssetClass) (fills : list Fill) : list FillLike :=
  map fill_like (filter (λ f, for_symbol (fl_ticker f) = asset_class ∧ fill_has_trusted_identity f = true) fills).

(** [_realized_pnl_today] with the clock's boundary. *)
Definition realized_pnl_today (fills : list Fill) (asset_class : AssetClass) : outcome Decimal :=
  since ← boundary asset_class;
  realized_pnl (class_fills asset_class fills) (Some since).

(** The body of the second loop: whether the class's breaker is tripped afterwards. *)
Definition enforce_class (asset_class : AssetClass) (pnl : Decimal) : rtx bool :=
  let limit := dabs (loss_limit asset_class) in
  breached ← on_session (lift (dle pnl (dneg limit)));
  if breached : bool then
    trip_here actor reason request_id (scope_loss asset_class)
      ("daily realized loss " +:+ dstr pnl +:+ " breached limit -" +:+ dstr limit) ≫= λ _,
    mret true
  else d ← on_session read; mret (is_tripped (scope_loss asset_class) d).

Definition losses_session : rtx (bool * bool) :=
  d ← on_session read;
  equity ← on_session (lift (realized_pnl_today (db_fills d) EQUITY));
  crypto ← on_session (lift (realized_pnl_today (db_fills d) CRYPTO));
  e ← enforce_class EQUITY equity;
  c ← enforce_class CRYPTO crypto;
  on_session commit ≫= λ _,
  mret (e, c).

(** [enforce_daily_loss_limits], after its context: the equity and the crypto breaker. *)
Definition losses_held : svc (bool * bool) := in_session losses_session.
End Losses.

(** * The startup epoch *)

Record EpochResult : Type := mkEpoch {
  ep_generation : Z;
  ep_superseded_generation : option Z;
  ep_evidence : option (SyncReport * list (string * (Decimal * Decimal)));
}.

Definition plan_sync_json (p : PlanSync) : dict json :=
  [ ("exit_groups_activated", JInt (ps_exit_groups_activated p)); ("exit_rules_activated", JInt (ps_exit_rules_activated p));
    ("exit_rules_resized", JInt (ps_exit_rules_resized p)); ("plan_rules_settled", JInt (ps_plan_rules_settled p));
    ("plans_completed", JInt (ps_plans_completed p)); ("plan_orders_canceled", JInt (ps_plan_orders_canceled p));
    ("plan_order_cancel_failures", JInt (ps_plan_order_cancel_failures p));
    ("remaining_plan_cancel_intents", JList (map JInt (ps_remaining_plan_cancel_intents p))) ].

Definition sync_json (r : SyncReport) : json :=
  JObj (sync_detail (sy_report r)
        ++ [ ("synced", JInt (rp_synced_orders (sy_report r))); ("newly_filled", JInt (rp_inserted_fills (sy_report r)));
             ("failed", JInt (sy_failed r)); ("fills_repaired", JInt 0) ]
        ++ match sy_plans r with None => [] | Some p => plan_sync_json p end).

Definition positions_json (drift : list (string * (Decimal * Decimal))) : json :=
  JObj [("reconciled", JBool (bool_decide (drift = []))); ("drift", drift_json drift)].

(** Whether the list [faults] is empty; nothing else of it is used. *)
Definition epoch_faulty (r : SyncReport) (drift : list (string * (Decimal * Decimal))) : bool :=
  negb (bool_decide (rp_broker_drift (sy_report r) = []))
  || negb (bool_decide (rp_unresolved_unknown (sy_report r) = []))
  || negb (bool_decide (drift = []))
  || negb (sy_failed r =? 0)
  || match sy_plans r with None => false | Some p => negb (bool_decide (ps_remaining_plan_cancel_intents p = [])) end.

Definition superseded (generation target : Z) : option Z := if generation =? target then None else Some generation.

(** [startup_reconciliation.fail(...)] and the exception that follows. *)
Definition fail_epoch (enabled : bool) (target : Z) (code : string) (evidence : dict json) : svc EpochResult :=
  on_store (fail_ reconciliation_key enabled target code evidence actor reason request_id) ≫= λ _,
  svc_raise (StartupReconciliationFailed code).

(** [reconcile_startup_epoch], after its context; [read_fails] is the gate's own read. *)
Definition epoch_held (enabled : bool) (generation : Z) (read_fails : bool) : svc EpochResult :=
  target ← look (current_generation reconciliation_key enabled);
  if target <=? 0 then svc_raise (StartupReconciliationFailed "startup reconciliation generation is missing")
  else
    t ← svc_now;
    ready ← look (is_current reconciliation_key enabled (Some target) read_fails t);
    if ready : bool then mret (mkEpoch target (superseded generation target) None)
    else
      let evidence := [("requested_generation", JInt generation); ("generation", JInt target)] in
      tried ← attempt (r ← sync_held resize_action actor reason request_id; p ← positions_held; mret (r, p));
      match tried with
      | Raise RequiredDependencyUnavailable =>
          fail_epoch enabled target "broker_reconciliation_dependency_unavailable" (evidence ++ [("dependency", JStr "unavailable")])
      | Raise _ => fail_epoch enabled target "broker_reconciliation_failed" evidence
      | Ok (r, p) =>
          let evidence := evidence ++ [("order_sync", sync_json r); ("position_reconciliation", positions_json p)] in
          if epoch_faulty r p then fail_epoch enabled target "broker_reconciliation_failed" evidence
          else
            done_ ← on_store (complete reconciliation_key enabled target evidence actor reason request_id);
            if done_ : bool then mret (mkEpoch target (superseded generation target) (Some (r, p)))
            else svc_raise (StartupReconciliationFailed "startup reconciliation generation changed before commit")
      end.

(** * Callbacks of submission *)

(** A refusal that also trips the drift breaker. *)
Definition refuse_drifted (error : string) : svc (option string) :=
  trip_breaker actor reason request_id scope_broker_drift error ≫= λ _, mret (Some error).

Definition DRIFT_ERRORS : list string :=
  [ "plan has negative trusted residual quantity"; "plan allocation cannot be proven from reconciled fill truth";
    "plan allocation exceeds reconciled broker position" ].

(** [requested_qty] of an order that states a notional. *)
Definition quantity_at_market (request : OrderRequest) (notional : Decimal) : svc (outcome Decimal) :=
  reply ← call (sb_quote (BrokerModels.o_ticker request));
  mret (q ← reply; if quote_is_valid q then ddiv notional (q_last q) else Raise (ValueError EmptyString)).

Definition reducible_qty (side : OrderSide) (position : Decimal) : outcome Decimal :=
  match side with SELL => dmax position dzero | BUY => dmax (dneg position) dzero end.

(** [_validate_plan_exit_submission]: [None] lets the order through. *)
Definition validate_exit (order_id : Z) (request : OrderRequest) : svc (option string) :=
  reply ← call sb_positions;
  match reply with
  | Raise _ => refuse_drifted "plan allocation broker truth is unavailable"
  | Ok positions =>
      let position := default dzero (dict_get (broker_quantities positions) (upper (BrokerModels.o_ticker request))) in
      checked ← look (validate_plan_exit_submission order_id (BrokerModels.o_qty request) position);
      error ← lift_svc checked;
      match error with
      | Some e => if bool_decide (e ∈ DRIFT_ERRORS) then refuse_drifted e else mret (Some e)
      | None =>
          is_exit ← look (is_plan_exit_order order_id);
          if is_exit : bool then mret None
          else
            truth ← look (plan_allocation_truth (BrokerModels.o_ticker request) (order_side_value (BrokerModels.o_side request)));
            truth ← lift_svc truth;
            let '(allocated, allocation_exact) := truth in
            if negb allocation_exact then refuse_drifted "plan allocation cannot be proven from reconciled fill truth"
            else
              none ← lift_svc (dle allocated dzero);
              if none : bool then mret None
              else
                requested ← match BrokerModels.o_qty request, BrokerModels.o_notional request with
                            | Some q, _ => mret (Ok q)
                            | None, Some n => quantity_at_market request n
                            | None, None => mret (Raise (TypeError EmptyString))
                            end;
                match requested with
                | Raise _ => refuse_drifted "plan allocation broker truth is unavailable"
                | Ok requested =>
                    over ← lift_svc (reducible ← reducible_qty (BrokerModels.o_side request) position;
                                     reducing ← dgt reducible dzero;
                                     if reducing : bool then
                                       free ← dsub reducible allocated; free ← dmax free dzero; dgt requested free
                                     else Ok false);
                    mret (if over : bool then Some "order would consume plan-allocated position" else None)
                end
      end
  end.

(** ** Immediate fills *)

Section Immediate.
Context (sql_sum : list Decimal → Decimal) (action_qty : string → outcome Decimal).

(** [COALESCE(SUM(fills.qty), 0)] over the trusted, identified fills of the order. *)
Definition identified_fill_qty (order_id : Z) (d : Db) : Decimal :=
  sql_sum (map fl_qty (filter (λ f, fl_order_id f = Some order_id ∧ fl_reconciliation_state f = FILL_RECONCILIATION_TRUSTED
                                    ∧ fl_broker_fill_id f ≠ None ∧ fl_broker_fill_id f ≠ Some EmptyString) (db_fills d))).

(** The armed downside rules of a plan. *)
Definition guards_plan (plan_id : Z) (d : Db) (r : Rule) : bool :=
  bool_decide (ru_plan_id r = Some plan_id) && bool_decide (ru_kind r ∈ [rule_kind_value STOP; rule_kind_value TRAILING])
  && bool_decide (ru_state r = rule_state_value RS_ACTIVE)
  && match db_groups d !! ru_group_id r with
     | Some g => bool_decide (g_state g = rule_state_value RS_ACTIVE) && negb (g_reconciliation_required g)
     | None => false
     end.

(** The quantity a rule protects; an unreadable one protects nothing. *)
Definition protected_by (acc : Decimal) (r : Rule) : outcome Decimal :=
  q ← match action_qty (ru_action_json r) with
      | Ok q => Ok q
      | Raise (ValueError _) | Raise (TypeError _) | Raise InvalidOperation => Ok dzero
      | Raise e => Raise e
      end;
  dmax acc q.

Definition protection_ready (plan_id : Z) (d : Db) : outcome bool :=
  truth ← plan_execution_truth plan_id d;
  protected_qty ← outcome_foldl protected_by dzero (omap (λ id, db_rules d !! id) (select_ids (guards_plan plan_id d) (db_rules d)));
  open ← dgt (residual_qty truth) dzero;
  if open && negb (reconciliation_required truth) && bool_decide (unresolved_order_ids truth = [])
  then dge protected_qty (residual_qty truth) else Ok false.

(** The rule a plan entry comes from. *)
Definition entry_plan (order_id : Z) (d : Db) : option Z :=
  p ← db_proposals d !! order_id; rule_id ← p_source_rule_id p; r ← db_rules d !! rule_id;
  if bool_decide (ru_kind r = rule_kind_value ENTRY) then ru_plan_id r else None.

Definition fill_confirmed (order_id : Z) (reported_filled_qty : Decimal) (report : SyncReport) (d : Db) : outcome bool :=
  ready ← match entry_plan order_id d with Some plan_id => protection_ready plan_id d | None => Ok true end;
  Ok match db_orders d !! order_id with
     | None => false
     | Some o =>
         bool_decide (o_acceptance_state o ≠ FILL_RECONCILIATION_REQUIRED)
         && deq (identified_fill_qty order_id d) reported_filled_qty
         && (sy_failed report =? 0)
         && match sy_plans report with Some p => ps_plan_order_cancel_failures p =? 0 | None => true end
         && ready
     end.

(** [_reconcile_immediate_submission_fill]. *)
Definition reconcile_immediate_fill (order_id : Z) (reported_filled_qty : Decimal) : svc bool :=
  let failure_reason := "immediate fill for order " +:+ pretty order_id +:+ " was not exactly reconciled before submission returned" in
  tried ← attempt (report ← sync_open_orders resize_action actor reason request_id;
                   confirmed ← look (fill_confirmed order_id reported_filled_qty report);
                   lift_svc confirmed);
  match tried with
  | Ok true => mret true
  | _ =>
      trip_breaker actor reason request_id scope_broker_drift failure_reason ≫= λ _,
      trip_breaker actor reason request_id scope_operator_global failure_reason ≫= λ _,
      mret false
  end.
End Immediate.

End Sync.

(** The public methods. *)
Definition reconcile_positions `{Digest} {W : Type} `{!ServiceBroker W} (actor reason request_id : string)
    : svc W (list (string * (Decimal * Decimal))) :=
  with_context actor reason request_id positions_held.

Definition enforce_daily_loss_limits `{Digest} {W : Type} (loss_limit : AssetClass → Decimal)
    (boundary : AssetClass → outcome time) (actor reason request_id : string) : svc W (bool * bool) :=
  with_context actor reason request_id (λ a b c, losses_held a b c loss_limit boundary).

Definition reconcile_startup_epoch `{Digest} (resize_action : string → Decimal → option string) {W : Type} `{!ServiceBroker W}
    (enabled : bool) (generation : Z) (read_fails : bool) (actor reason request_id : string) : svc W EpochResult :=
  with_context actor reason request_id (λ a b c, epoch_held resize_action a b c enabled generation read_fails).
