(* ===== verification/ServiceProofs.v ===== *)
(** What the service's reconciliation guarantees: it moves orders along the state machine, a
    reported agreement of positions is one, a start-up epoch opens the gate only on a clean
    report, a breached loss limit ends with its breaker tripped, and an immediate fill that
    cannot be confirmed trips both global breakers. *)

From S2P Require Import Prelude PyDecimal Assets BrokerModels Breakers RiskRules RiskEngine Pnl.
From S2P Require Import Database Lifecycle SessionLogic BreakerStore OrderRepository RepositoryLogic RepositoryProofs SafetyState Snapshot.
From S2P Require Import Startup RuleRepository RuleProofs PlanTruth PlanTruthProofs PlanLifecycle PlanLifecycleLogic PlanLifecycleProofs.
From S2P Require Import Submission OrderSystem.
From S2P Require Import ReconcileSession FillImport StatusSync Reconciliation ReconcileLogic ReconcileProofs Panic PanicProofs.
From S2P Require Import ServiceBase PlanCancel PlanCancelProofs ServiceSync.
From Stdlib Require Import Ascii Lia.
Local Open Scope Z_scope.

(** * Positions *)

(** The broker and the ledger hold the same quantity of every ticker. *)
Definition quantities_agree (broker local : dict Decimal) : Prop :=
  ∀ t, deq (default dzero (dict_get broker t)) (default dzero (dict_get local t)) = true.

Lemma dict_get_None_key {A} (m : dict A) k : k ∉ dict_keys m → dict_get m k = None.
Proof.
  intros Hk. destruct (dict_get m k) as [v|] eqn:E; [|done]. exfalso. apply Hk. apply dict_get_Some_elem in E.
  unfold dict_keys. apply list_elem_of_fmap. by exists (k, v).
Qed.

Lemma position_drift_nil broker local : position_drift broker local = [] ↔ quantities_agree broker local.
Proof.
  unfold position_drift, quantities_agree. split.
  - intros Hnil t. destruct (decide (t ∈ dict_keys broker ++ dict_keys local)) as [Hin|Hout].
    + destruct (deq _ _) eqn:E; [done|exfalso].
      match type of Hnil with omap ?f ?l = [] => assert (∃ y, y ∈ omap f l) as [y Hy]; [|by rewrite Hnil in Hy; apply elem_of_nil in Hy] end.
      eexists. apply list_elem_of_omap. exists t. split; [|by rewrite E].
      unfold sorted_strings. rewrite merge_sort_Permutation. by apply elem_of_dedup.
    + rewrite elem_of_app in Hout. by rewrite !dict_get_None_key by tauto.
  - intros Hall. induction (sorted_strings _) as [|t l IH]; [done|]. cbn. by rewrite Hall.
Qed.

Section Positions.
Context `{Digest} {W : Type} `{!ServiceBroker W} (actor reason request_id : string).

Lemma trip_here_Ok scope detail s u s' : trip_here actor reason request_id scope detail s = (Ok u, s') →
  is_tripped scope (wrk s') = true ∧ dur s' = dur s ∧ db_fills (wrk s') = db_fills (wrk s).
Proof.
  intros (t & s1 & [= <- <-] & (x & s2 & Hx & [= _ <-])%rtx_bind_Ok)%rtx_bind_Ok. unfold on_session in Hx. cbn in Hx.
  destruct (trip_inputs_ok detail actor request_id (Some reason)) eqn:Hin.
  - rewrite trip_in_session_ok in Hx by done. injection Hx as _ <-. cbn. split; [|by split]. unfold is_tripped, tripped_db. cbn. by rewrite lookup_insert_eq.
  - destruct (trip_in_session_bad scope detail actor request_id (r_clock s 0%nat) (Some reason) (r_session s) Hin) as [m E]. by rewrite E in Hx.
Qed.

Lemma compare_positions_Ok broker d c drift d' c' :
  with_rsession (compare_positions actor reason request_id broker) d c = (Ok drift, d', c') →
  ∃ local, local_quantities (db_fills d) = Ok local ∧ drift = position_drift broker local
           ∧ (drift ≠ [] → is_tripped scope_broker_drift d' = true) ∧ db_fills d' = db_fills d.
Proof.
  unfold with_rsession. destruct (compare_positions _ _ _ _ _) as [r s'] eqn:E. intros [= -> <- <-].
  apply rtx_bind_Ok in E as (d1 & s1 & [= <- <-] & E). apply rtx_bind_Ok in E as (local & s2 & [Hl ->]%on_lift_Ok & E).
  apply rtx_bind_Ok in E as ([] & s3 & H3 & E). apply rtx_bind_Ok in E as ([] & s4 & H4 & [= <- <-]).
  exists local. split; [done|]. split; [done|]. injection H4 as <-. cbn.
  destruct (decide (position_drift broker local = [])) as [Hn|Hn]; [rewrite bool_decide_true in H3 by done|rewrite bool_decide_false in H3 by done].
  - by injection H3 as <-.
  - apply rtx_bind_Ok in H3 as ([] & s5 & [= <-] & (Ht & _ & Hf)%trip_here_Ok). by split.
Qed.

Lemma positions_Ok (s s' : SvcState W) drift : positions_held actor reason request_id s = (Ok drift, s') →
  ∃ positions w local, sb_positions (sv_world s) = (Ok positions, w) ∧ local_quantities (db_fills (sv_db s)) = Ok local
    ∧ (drift = [] ↔ quantities_agree (broker_quantities positions) local)
    ∧ (drift ≠ [] → is_tripped scope_broker_drift (sv_db s') = true) ∧ db_fills (sv_db s') = db_fills (sv_db s).
Proof.
  intros (reply & s1 & Hc & Hrun)%svc_bind_Ok. unfold call in Hc. destruct (sb_positions (sv_world s)) as [r w] eqn:Ep.
  injection Hc as <- <-. destruct r as [positions|e].
  - unfold in_session in Hrun. destruct (with_rsession _ _ _) as [[x d'] c'] eqn:E. injection Hrun as -> <-.
    apply compare_positions_Ok in E as (local & Hl & -> & Ht & Hf). exists positions, w, local. split; [done|]. split; [done|].
    split; [apply position_drift_nil|done].
  - by apply svc_bind_Ok in Hrun as (u & s2 & _ & [=]).
Qed.
End Positions.

(** * The startup row survives reconciliation *)

Definition keeps_startup (d d' : Db) : Prop := db_startup d' = db_startup d.

#[export] Instance keeps_startup_preorder : PreOrder keeps_startup.
Proof. split; unfold keeps_startup; [done|]. intros x y z. congruence. Qed.

#[export] Instance keeps_startup_admits : Admits keeps_startup.
Proof. split; [apply _|by intros d d' []|done..]. Qed.

Lemma keeps_startup_releases : releases keeps_startup.
Proof. done. Qed.

Lemma keeps_startup_resolves {W} `{!ReconcileBroker W} `{Digest} : resolves (W := W) keeps_startup.
Proof.
  intros k w remote w' _ id t a b c d. unfold resolve_acceptance. destruct (require_context a b c) as [[[a' b'] c']|e]; [|done].
  destruct (bool_decide _); [done|]. apply si_session; [apply _|]. pose proof (λ A m, si_moves keeps_startup (A := A) m) as Hm.
  apply si_bind; [apply Hm, moves_read, _|intros d1]. apply si_bind; [apply Hm, moves_lift, _|intros q].
  destruct (requires_fill_reconciliation _ _ _) as [[x y] z]. apply si_bind; [|intros [o|]].
  - apply Hm. intros s. unfold update_order, moves_at, mbind, tx_bind, read, write. cbn.
    destruct (db_orders (working s) !! id) as [o|]; [|done]. by destruct (_ || _).
  - apply si_bind; [|intros _]. { destruct (_ || _); [|by apply Hm, moves_ret, _]. apply Hm, moves_bind; [apply _|by apply moves_trip_in_session, _|]. intros. apply moves_ret, _. }
    apply si_bind; [by apply Hm|intros _]. by intros s d0.
  - by intros s d0.
Qed.

(** Steps of the service that only add audit and risk rows or trip breakers. *)
Section Rest.
Context `{Digest} {W : Type} `{!ServiceBroker W} (actor reason request_id : string).
Context (R : Db → Db → Prop) `{!Admits R} (Hrisk : ∀ d e, R d (set_db_risk_events e d)).

Lemma kt_compare_positions broker : keeps_to R (compare_positions actor reason request_id broker).
Proof.
  pose proof (kt_trip_here R actor reason request_id). unfold compare_positions.
  keep; first [by apply kt_then_commit, moves_persist_audit, _; apply _|by apply kt_session, moves_write, Hrisk; apply _
    |apply kt_session; [apply _|]; apply moves_write; intros d; apply Hrisk].
Qed.

Lemma sv_positions : serves (W := W) R (positions_held actor reason request_id).
Proof.
  unfold positions_held, audit_dependency_failure. serve; (apply sv_in_session; [apply _|]); [apply kt_compare_positions|].
  apply kt_then_commit; [apply _|]. apply moves_persist_audit, _.
Qed.

Lemma sv_losses loss_limit boundary : serves (W := W) R (losses_held actor reason request_id loss_limit boundary).
Proof.
  pose proof (kt_trip_here R actor reason request_id). apply sv_in_session; [apply _|].
  unfold losses_session, enforce_class. keep.
Qed.
End Rest.

(** * The startup epoch *)

Section Epoch.
Context `{Digest} (resize_action : string → Decimal → option string) {W : Type} `{!ServiceBroker W}.
Context (actor reason request_id : string).

Lemma fail_row key g code ev a b c t d :
  let d' := (fail_ key true g code ev a b c t d).2 in
  db_startup d' !! key = db_startup d !! key ∨ ∃ row, db_startup d' !! key = Some row ∧ su_status row = "failed".
Proof.
  destruct (run_fail key g code ev a b c t d) as [[E _]|(st & a' & r' & q' & e & _ & _ & _ & _ & E)]; cbn in *; [left; by rewrite E|].
  right. rewrite E. by eexists.
Qed.

Lemma complete_row key g ev a b c t d r d' : complete key true g ev a b c t d = (r, d') →
  if decide (r = Ok true)
  then ∃ row, db_startup d' !! key = Some row ∧ su_status row = "current" ∧ su_generation row = g ∧ su_completed_generation row = g
  else db_startup d' !! key = db_startup d !! key.
Proof.
  unfold complete. destruct (startup_context a b c) as [[[a' b'] c']|e]; [|by intros [= <- <-]]. destruct (g <=? 0); [by intros [= <- <-]|].
  unfold with_session, mbind, tx_bind, read. cbn [working negb]. destruct (db_startup d !! key) as [st|] eqn:E; [|by intros [= <- <-]; cbn; rewrite E].
  destruct (Z.eqb_spec (su_generation st) g) as [Eg|]; cbn [negb]; [|by intros [= <- <-]; cbn; rewrite E].
  destruct (bool_decide (su_status st = "current") && (su_completed_generation st =? g)) eqn:Ec; intros [= <- <-]; cbn.
  - apply andb_true_iff in Ec as [Hs%bool_decide_eq_true_1 Hg%Z.eqb_eq]. by exists st.
  - eexists. split; [apply lookup_insert_eq|]. by subst g.
Qed.

(** The database of an epoch that raised: the gate's row is untouched or marked failed. *)
Definition epoch_closed (key : string) (d d' : Db) : Prop :=
  db_startup d' !! key = db_startup d !! key ∨ ∃ row, db_startup d' !! key = Some row ∧ su_status row = "failed".

Lemma fail_epoch_closed target code ev (s s' : SvcState W) r :
  fail_epoch actor reason request_id true target code ev s = (r, s') → (∃ e, r = Raise e) ∧ epoch_closed reconciliation_key (sv_db s) (sv_db s').
Proof.
  unfold fail_epoch, mbind, svc_bind, on_store, epoch_closed.
  pose proof (fail_row reconciliation_key target code ev actor reason request_id (sv_clock s 0%nat) (sv_db s)) as Hf. cbn in Hf.
  destruct (fail_ _ _ _ _ _ _ _ _ _ _) as [[x|e] d']; cbn in *; intros [= <- <-]; eauto.
Qed.

Lemma sync_positions_startup (s : SvcState W) :
  let m := (r ← sync_held resize_action actor reason request_id; p ← positions_held actor reason request_id; mret (r, p)) in
  keeps_startup (sv_db s) (sv_db (m s).2).
Proof.
  cbv zeta. match goal with |- keeps_startup _ (sv_db (?m s).2) => assert (serves (W := W) keeps_startup m) as Hm; [|apply Hm] end.
  pose proof (sv_sync_held resize_action keeps_startup actor reason request_id keeps_startup_resolves keeps_startup_releases).
  assert (serves (W := W) keeps_startup (positions_held actor reason request_id)) by (by apply sv_positions; [apply _|]). serve.
Qed.

Lemma complete_fills key g ev a b c t d : db_fills (complete key true g ev a b c t d).2 = db_fills d.
Proof.
  unfold complete. destruct (startup_context a b c) as [[[a' b'] c']|e]; [|done]. destruct (g <=? 0); [done|].
  unfold with_session, mbind, tx_bind, read. cbn [working negb]. destruct (db_startup d !! key) as [st|]; [|done].
  destruct (negb _); [done|]. by destruct (_ && _).
Qed.

(** What an epoch that opened the gate has established. *)
Record epoch_proven (ep : EpochResult) (d' : Db) (report : SyncReport) (drift : list (string * (Decimal * Decimal))) : Prop := {
  ev_failed : sy_failed report = 0;
  ev_drift : rp_broker_drift (sy_report report) = [];
  ev_unresolved : rp_unresolved_unknown (sy_report report) = [];
  ev_intents : match sy_plans report with Some p => ps_remaining_plan_cancel_intents p = [] | None => True end;
  ev_positions : ∃ (w w' : W) positions local, sb_positions w = (Ok positions, w') ∧ local_quantities (db_fills d') = Ok local
    ∧ quantities_agree (broker_quantities positions) local;
  ev_row : ∃ row, db_startup d' !! reconciliation_key = Some row ∧ su_status row = "current"
    ∧ su_generation row = ep_generation ep ∧ su_completed_generation row = ep_generation ep;
}.

Lemma epoch_clean r (drift : list (string * (Decimal * Decimal))) : epoch_faulty r drift = false →
  rp_broker_drift (sy_report r) = [] ∧ rp_unresolved_unknown (sy_report r) = [] ∧ drift = [] ∧ sy_failed r = 0
  ∧ match sy_plans r with Some p => ps_remaining_plan_cancel_intents p = [] | None => True end.
Proof.
  unfold epoch_faulty. rewrite !orb_false_iff, !negb_false_iff, !bool_decide_eq_true, Z.eqb_eq.
  intros ((((H1 & H2) & H3) & H4) & H5). split_and!; try done. destruct (sy_plans r); [|done].
  by rewrite negb_false_iff, bool_decide_eq_true in H5.
Qed.

Lemma epoch_outcome generation read_fails (s s' : SvcState W) r :
  epoch_held resize_action actor reason request_id true generation read_fails s = (r, s') →
  match r with
  | Raise _ => epoch_closed reconciliation_key (sv_db s) (sv_db s')
  | Ok ep =>
      match ep_evidence ep with
      | None => sv_db s' = sv_db s
                ∧ is_current reconciliation_key true (Some (ep_generation ep)) read_fails (sv_clock s 0%nat) (sv_db s) = true
      | Some (report, drift) => epoch_proven ep (sv_db s') report drift
      end
  end.
Proof.
  unfold epoch_held. unfold mbind at 1, svc_bind at 1, look at 1. set (target := current_generation _ _ _).
  destruct (target <=? 0); [intros [= <- <-]; by left|].
  unfold mbind at 1, svc_bind at 1, svc_now. unfold mbind at 1, svc_bind at 1, look at 1. cbn [sv_db sv_clock sv_world].
  destruct (is_current reconciliation_key true (Some target) read_fails (sv_clock s 0%nat) (sv_db s)) eqn:Ec; [by intros [= <- <-]|].
  set (s1 := mkSvc _ _ _). cbv zeta. unfold mbind at 1, svc_bind at 1, attempt.
  pose proof (sync_positions_startup s1) as Hst. cbv zeta in Hst.
  destruct ((r ← sync_held resize_action actor reason request_id; p ← positions_held actor reason request_id; mret (r, p)) s1) as [tried s2] eqn:Et.
  cbn [snd] in Hst. change (sv_db s1) with (sv_db s) in Hst.
  assert (∀ code ev r s', fail_epoch actor reason request_id true target code ev s2 = (r, s') →
    match r with Raise _ => epoch_closed reconciliation_key (sv_db s) (sv_db s') | Ok ep => False end) as Hfail.
  { intros code ev x s3 [[e ->] Hc]%fail_epoch_closed. unfold epoch_closed in *. by rewrite Hst in Hc. }
  assert (∀ code ev r s', fail_epoch actor reason request_id true target code ev s2 = (r, s') → match r with
    | Raise _ => epoch_closed reconciliation_key (sv_db s) (sv_db s')
    | Ok ep => match ep_evidence ep with None => sv_db s' = sv_db s
                ∧ is_current reconciliation_key true (Some (ep_generation ep)) read_fails (sv_clock s 0%nat) (sv_db s) = true
      | Some (report, drift) => epoch_proven ep (sv_db s') report drift end end) as Hfail'.
  { intros code ev x s3 Hx. specialize (Hfail _ _ _ _ Hx). by destruct x. }
  destruct tried as [[report drift]|e]; [|destruct e; apply Hfail']. destruct (epoch_faulty report drift) eqn:Ef; [apply Hfail'|].
  apply epoch_clean in Ef as (H1 & H2 & -> & H4 & H5).
  apply svc_bind_Ok in Et as (rep & s3 & Hsync & Et). apply svc_bind_Ok in Et as (p & s4 & Hpos & [= <- -> <-]).
  apply positions_Ok in Hpos as (positions & w & local & Hw & Hl & Hagree & _ & Hfills).
  unfold mbind, svc_bind, on_store. 
  destruct (complete _ _ _ _ _ _ _ _ _) as [[b|e] d'] eqn:Ecomp; pose proof (complete_row _ _ _ _ _ _ _ _ _ _ Ecomp) as Hrow.
  - destruct b; intros [= <- <-]; cbn.
    + rewrite decide_True in Hrow by done. split; try done. exists (sv_world s3), w, positions, local. split_and!; [done| |by apply Hagree].
      pose proof (complete_fills reconciliation_key target ([("requested_generation", JInt generation); ("generation", JInt target)]
        ++ [("order_sync", sync_json rep); ("position_reconciliation", positions_json [])]) actor reason request_id (sv_clock s4 0%nat) (sv_db s4)) as Hcf.
      rewrite Ecomp in Hcf. cbn in Hcf. by rewrite Hcf, Hfills.
    + left. rewrite decide_False in Hrow by done. by rewrite Hrow, Hst.
  - intros [= <- <-]. left. rewrite decide_False in Hrow by done. cbn. by rewrite Hrow, Hst.
Qed.
End Epoch.

(** * Loss limits *)

Section Losses.
Context `{Digest} (actor reason request_id : string) (loss_limit : AssetClass → Decimal).

Lemma trip_here_other scope detail s u s' other : trip_here actor reason request_id scope detail s = (Ok u, s') →
  scope_key other ≠ scope_key scope → is_tripped other (wrk s') = is_tripped other (wrk s).
Proof.
  intros (t & s1 & [= <- <-] & (x & s2 & Hx & [= _ <-])%rtx_bind_Ok)%rtx_bind_Ok Hne. unfold on_session in Hx. cbn in Hx.
  destruct (trip_inputs_ok detail actor request_id (Some reason)) eqn:Hin.
  - rewrite trip_in_session_ok in Hx by done. injection Hx as _ <-. cbn. unfold is_tripped, tripped_db. cbn. by rewrite lookup_insert_ne by done.
  - destruct (trip_in_session_bad scope detail actor request_id (r_clock s 0%nat) (Some reason) (r_session s) Hin) as [m E]. by rewrite E in Hx.
Qed.

Lemma enforce_class_Ok ac pnl s b s' : enforce_class actor reason request_id loss_limit ac pnl s = (Ok b, s') →
  ∃ breached, dle pnl (dneg (dabs (loss_limit ac))) = Ok breached
    ∧ b = is_tripped (scope_loss ac) (wrk s') ∧ b = is_tripped (scope_loss ac) (wrk s) || breached
    ∧ ∀ other, scope_key other ≠ scope_key (scope_loss ac) → is_tripped other (wrk s') = is_tripped other (wrk s).
Proof.
  intros (breached & s1 & [Hb ->]%on_lift_Ok & Hrun)%rtx_bind_Ok. exists breached. split; [done|]. destruct breached.
  - apply rtx_bind_Ok in Hrun as ([] & s2 & Htrip & [= <- <-]). pose proof (trip_here_Ok _ _ _ _ _ _ _ _ Htrip) as (Ht & _).
    rewrite Ht, orb_true_r. split_and!; try done. intros other Hne. by eapply trip_here_other.
  - apply rtx_bind_Ok in Hrun as (d & s2 & [= <- <-] & [= <- <-]). by rewrite orb_false_r.
Qed.
End Losses.

(** The breaker of a class after the check: as it was, or tripped by the breach. *)
Definition loss_enforced (loss_limit : AssetClass → Decimal) (boundary : AssetClass → outcome time) (ac : AssetClass) (reported : bool) (d d' : Db) : Prop :=
  ∃ pnl breached, realized_pnl_today boundary (db_fills d) ac = Ok pnl ∧ dle pnl (dneg (dabs (loss_limit ac))) = Ok breached
    ∧ is_tripped (scope_loss ac) d' = is_tripped (scope_loss ac) d || breached ∧ reported = is_tripped (scope_loss ac) d'.

Lemma losses_outcome `{Digest} {W} actor reason request_id loss_limit boundary (s s' : SvcState W) e c :
  losses_held actor reason request_id loss_limit boundary s = (Ok (e, c), s') →
  loss_enforced loss_limit boundary EQUITY e (sv_db s) (sv_db s') ∧ loss_enforced loss_limit boundary CRYPTO c (sv_db s) (sv_db s').
Proof.
  unfold losses_held, in_session, with_rsession. destruct (losses_session _ _ _ _ _ _) as [r s1] eqn:E. intros [= -> <-]. cbn [sv_db].
  apply rtx_bind_Ok in E as (d & s2 & [= <- <-] & E). apply rtx_bind_Ok in E as (pe & s3 & [He ->]%on_lift_Ok & E).
  apply rtx_bind_Ok in E as (pc & s3' & [Hc ->]%on_lift_Ok & E).
  apply rtx_bind_Ok in E as (e' & s4 & (b1 & Hb1 & He1 & He2 & Ho1)%enforce_class_Ok & E).
  apply rtx_bind_Ok in E as (c' & s5 & (b2 & Hb2 & Hc1 & Hc2 & Ho2)%enforce_class_Ok & E).
  apply rtx_bind_Ok in E as ([] & s6 & [= <-] & [= <- <- <-]). cbn [durable r_session dur].
  assert (scope_key (scope_loss EQUITY) ≠ scope_key (scope_loss CRYPTO)) as Hne by (vm_compute; discriminate).
  split.
  - exists pe, b1. cbn in He2. split_and!; [done|done| |]; (etrans; [|symmetry; apply Ho2; exact Hne] || rewrite Ho2 by exact Hne); congruence.
  - exists pc, b2. split_and!; [done|done| |done]. rewrite <- Hc1, Hc2. f_equal. by apply Ho1, not_eq_sym.
Qed.

(** * Immediate fills *)

Section Immediate.
Context (sql_sum : list Decimal → Decimal) (action_qty : string → outcome Decimal).

Lemma protected_attained rules : ∀ acc q, outcome_foldl (protected_by action_qty) acc rules = Ok q →
  q = acc ∨ q = dzero ∨ ∃ r, r ∈ rules ∧ action_qty (ru_action_json r) = Ok q.
Proof.
  induction rules as [|r rules IH]; intros acc q; cbn [outcome_foldl]; [intros [= <-]; by left|].
  intros (acc' & Hp & Hq)%outcome_bind_Ok. destruct (IH _ _ Hq) as [->|[->|(r' & Hr & Ha)]]; [|by right; left|right; right; exists r'; split; [by right|done]].
  unfold protected_by in Hp. apply outcome_bind_Ok in Hp as (x & Hx & (b & _ & [= <-])%outcome_bind_Ok).
  destruct b; [|by left]. right. destruct (action_qty (ru_action_json r)) as [y|e] eqn:Ea.
  - injection Hx as <-. right. exists r. split; [left|done].
  - destruct e; try done; injection Hx as <-; by left.
Qed.

(** Some armed stop or trailing rule of the plan sells everything it holds. *)
Definition plan_protected (plan_id : Z) (d : Db) : Prop :=
  ∃ truth id r q, plan_execution_truth plan_id d = Ok truth ∧ reconciliation_required truth = false ∧ unresolved_order_ids truth = []
    ∧ dgt (residual_qty truth) dzero = Ok true
    ∧ db_rules d !! id = Some r ∧ guards_plan plan_id d r = true ∧ action_qty (ru_action_json r) = Ok q ∧ dge q (residual_qty truth) = Ok true.

Lemma dzero_not_protecting x : dgt x dzero = Ok true → dge dzero x = Ok true → False.
Proof.
  unfold dgt, dge, dlt, dle, dordered. cbn [is_nan dzero of_Z orb]. destruct (is_nan x); [done|]. cbn [orb]. intros [= H1] [= H2].
  rewrite dcmp_lt_le_neg in H1. by rewrite H2 in H1.
Qed.

Lemma protection_ready_true plan_id d : protection_ready action_qty plan_id d = Ok true → plan_protected plan_id d.
Proof.
  intros (truth & Ht & (q & Hq & (open & Ho & Hr)%outcome_bind_Ok)%outcome_bind_Ok)%outcome_bind_Ok.
  destruct (open && negb (reconciliation_required truth) && bool_decide (unresolved_order_ids truth = [])) eqn:E; [|done].
  apply andb_true_iff in E as [[-> Hreq%negb_true_iff]%andb_true_iff Hun%bool_decide_eq_true_1].
  assert (q ≠ dzero) as Hne by (intros ->; by eapply dzero_not_protecting).
  destruct (protected_attained _ _ _ Hq) as [?|[?|(r & (id & Hid & Hrow)%list_elem_of_omap & Ha)]]; [done..|].
  apply select_ids_elem in Hid as (r' & Hr' & Hg). rewrite Hr' in Hrow. injection Hrow as ->. by exists truth, id, r, q.
Qed.

Record fill_settled (order_id : Z) (reported : Decimal) (d : Db) : Prop := {
  fs_order : ∃ o, db_orders d !! order_id = Some o ∧ exact o;
  fs_quantity : deq (identified_fill_qty sql_sum order_id d) reported = true;
  fs_protected : ∀ plan_id, entry_plan order_id d = Some plan_id → plan_protected plan_id d;
}.

Lemma fill_confirmed_true order_id reported report d :
  fill_confirmed sql_sum action_qty order_id reported report d = Ok true → fill_settled order_id reported d.
Proof.
  intros (ready & Hready & Ht)%outcome_bind_Ok. injection Ht as Ht. destruct (db_orders d !! order_id) as [o|] eqn:Ho; [|done].
  apply andb_true_iff in Ht as [[[[Hex%bool_decide_eq_true_1 Hq]%andb_true_iff _]%andb_true_iff _]%andb_true_iff ->].
  split; [by exists o|done|]. intros plan_id Hp. rewrite Hp in Hready. by apply protection_ready_true.
Qed.

Lemma trip_breaker_trips {W} actor reason request_id scope detail (s s' : SvcState W) u :
  trip_breaker actor reason request_id scope detail s = (Ok u, s') → is_tripped scope (sv_db s') = true.
Proof.
  intros (x & s1 & Hx & [= _ <-])%svc_bind_Ok. unfold on_store in Hx. destruct (breaker_trip _ _ _ _ _ _ _) as [[st|e] d'] eqn:E; [|done].
  injection Hx as _ <-. by eapply breaker_trip_trips.
Qed.

Lemma immediate_outcome `{Digest} resize_action {W} `{!ServiceBroker W} actor reason request_id order_id reported (s s' : SvcState W) b :
  reconcile_immediate_fill resize_action actor reason request_id sql_sum action_qty order_id reported s = (Ok b, s') →
  if b then fill_settled order_id reported (sv_db s')
  else is_tripped scope_broker_drift (sv_db s') = true ∧ is_tripped scope_operator_global (sv_db s') = true.
Proof.
  intros (tried & s1 & Ht & Hrun)%svc_bind_Ok. unfold attempt in Ht.
  match type of Ht with (let '(_, _) := ?m s in _) = _ => destruct (m s) as [r s2] eqn:E end. injection Ht as <- <-.
  assert (∀ s s' : SvcState W, (trip_breaker actor reason request_id scope_broker_drift ("immediate fill for order " +:+ pretty order_id
      +:+ " was not exactly reconciled before submission returned") ≫= λ _, trip_breaker actor reason request_id scope_operator_global
      ("immediate fill for order " +:+ pretty order_id +:+ " was not exactly reconciled before submission returned") ≫= λ _, mret false) s = (Ok b, s') →
    b = false ∧ is_tripped scope_broker_drift (sv_db s') = true ∧ is_tripped scope_operator_global (sv_db s') = true) as Hfail.
  { intros x y (u1 & x1 & H1 & (u2 & x2 & H2 & [= <- <-])%svc_bind_Ok)%svc_bind_Ok. split; [done|]. split; [|by eapply trip_breaker_trips].
    eapply keeps_tripped; [|by eapply trip_breaker_trips].
    pose proof (sv_trip_breaker (W := W) keeps_rows actor reason request_id scope_operator_global
      ("immediate fill for order " +:+ pretty order_id +:+ " was not exactly reconciled before submission returned") x1) as Hs.
    rewrite H2 in Hs. exact Hs. }
  destruct r as [[]|e]; [|by apply Hfail in Hrun as (-> & ? & ?)..]. injection Hrun as <- <-.
  apply svc_bind_Ok in E as (report & s3 & _ & E). apply svc_bind_Ok in E as (c & s4 & [= <- <-] & [= Hc <-]). by eapply fill_confirmed_true.
Qed.
End Immediate.
