(* ===== verification/ServiceTheorems.v ===== *)
(** The theorems about the service's reconciliation and cancellation methods, with concrete
    runs of each. *)

From S2P Require Import Prelude PyDecimal Assets BrokerModels Breakers RiskRules RiskEngine Pnl.
From S2P Require Import Database Lifecycle SessionLogic BreakerStore OrderRepository RepositoryLogic RepositoryProofs SafetyState Snapshot.
From S2P Require Import Startup RuleRepository RuleProofs PlanTruth PlanTruthProofs PlanLifecycle PlanLifecycleLogic PlanLifecycleProofs.
From S2P Require Import Submission OrderSystem.
From S2P Require Import ReconcileSession FillImport StatusSync Reconciliation ReconcileLogic ReconcileProofs Panic PanicProofs.
From S2P Require Import ServiceBase PlanCancel PlanCancelProofs ServiceSync ServiceProofs.
From Stdlib Require Import Ascii Lia.
Local Open Scope Z_scope.

(** * Calls *)

Inductive service_call : Type :=
| CSync
| CCancel (order_id : Z)
| CQuiesce (plan_id : Z) (entry_only : bool)
| CPositions
| CLosses (loss_limit : AssetClass → Decimal) (boundary : AssetClass → outcome time)
| CEpoch (enabled : bool) (generation : Z) (read_fails : bool)
| CImmediate (sql_sum : list Decimal → Decimal) (action_qty : string → outcome Decimal) (order_id : Z) (reported : Decimal).

Definition run_call `{Digest} (resize_action : string → Decimal → option string) {W : Type} `{!ServiceBroker W}
    (actor reason request_id : string) (c : service_call) : svc W () :=
  match c with
  | CSync => sync_open_orders resize_action actor reason request_id ≫= λ _, mret ()
  | CCancel id => cancel_live_order resize_action id actor reason request_id ≫= λ _, mret ()
  | CQuiesce plan b => quiesce_trade_plan_orders resize_action plan b actor reason request_id ≫= λ _, mret ()
  | CPositions => reconcile_positions actor reason request_id ≫= λ _, mret ()
  | CLosses limit boundary => enforce_daily_loss_limits limit boundary actor reason request_id ≫= λ _, mret ()
  | CEpoch enabled g rf => reconcile_startup_epoch resize_action enabled g rf actor reason request_id ≫= λ _, mret ()
  | CImmediate sum q id reported => reconcile_immediate_fill resize_action actor reason request_id sum q id reported ≫= λ _, mret ()
  end.

Section Calls.
Context `{Digest} (resize_action : string → Decimal → option string) {W : Type} `{!ServiceBroker W}.
Context (actor reason request_id : string).
Context (Q : Order → Order → Prop) `{!PreOrder Q} (HQ : ∀ o o', order_evolves o o' → Q o o').
Context (Hres : resolves (W := W) (moves_by Q)) (Hrel : releases (moves_by Q)).

#[local] Instance call_admits : Admits (moves_by Q) := moves_by_admits Q HQ.

Lemma sv_gate {A} (f : time → Db → outcome A * Db) :
  (∀ t d, db_orders (f t d).2 = db_orders d ∧ db_proposals (f t d).2 = db_proposals d ∧ db_breakers (f t d).2 = db_breakers d
          ∧ db_audit d `prefix_of` db_audit (f t d).2) → serves (W := W) (moves_by Q) (on_store f).
Proof.
  intros Hf. apply sv_on_store. intros t d. destruct (Hf t d) as (Ho & Hp & Hb & Ha). split; [rewrite Ho; apply rows_move_refl, _|done| |done].
  intros k r Hr. rewrite Hb. exists r. by repeat split.
Qed.

Lemma gate_complete key enabled g ev a b c t d :
  let d' := (complete key enabled g ev a b c t d).2 in
  db_orders d' = db_orders d ∧ db_proposals d' = db_proposals d ∧ db_breakers d' = db_breakers d ∧ db_audit d `prefix_of` db_audit d'.
Proof.
  unfold complete. destruct (startup_context a b c) as [[[a' b'] c']|e]; [|done]. destruct (g <=? 0); [done|]. destruct enabled; [|done].
  unfold with_session, mbind, tx_bind, read. cbn [working negb]. destruct (db_startup d !! key) as [st|]; [|done].
  destruct (su_generation st =? g); [|done]. cbn [negb]. destruct (_ && _); [done|]. split_and!; try done. by apply prefix_app_r.
Qed.

Lemma gate_fail key enabled g code ev a b c t d :
  let d' := (fail_ key enabled g code ev a b c t d).2 in
  db_orders d' = db_orders d ∧ db_proposals d' = db_proposals d ∧ db_breakers d' = db_breakers d ∧ db_audit d `prefix_of` db_audit d'.
Proof.
  unfold fail_. destruct (startup_context a b c) as [[[a' b'] c']|e]; [|done]. destruct (failure_code_fullmatch (strip code)); [|done].
  destruct enabled; [|done]. unfold with_session, mbind, tx_bind, read. cbn [working negb]. destruct (db_startup d !! key) as [st|]; [|done].
  destruct (_ || _); [done|]. split_and!; try done. by apply prefix_app_r.
Qed.

Lemma sv_epoch enabled g rf a b c : serves (W := W) (moves_by Q) (epoch_held resize_action a b c enabled g rf).
Proof.
  pose proof (sv_sync_held resize_action (moves_by Q) a b c Hres Hrel).
  assert (serves (W := W) (moves_by Q) (positions_held a b c)) by (apply sv_positions; [apply _|]; intros; by apply moves_by_rest).
  assert (∀ target code ev, serves (W := W) (moves_by Q) (fail_epoch a b c enabled target code ev)).
  { intros. unfold fail_epoch. serve. apply sv_gate. intros. apply gate_fail. }
  unfold epoch_held. serve; first [by apply sv_attempt; serve|apply sv_gate; intros; apply gate_complete].
Qed.

Lemma sv_call_run c : serves (moves_by Q) (run_call resize_action actor reason request_id c).
Proof.
  assert (∀ A (m : svc W A), serves (moves_by Q) m → serves (moves_by Q) (m ≫= λ _, mret ())) as Hdrop by (intros; serve).
  destruct c; cbn [run_call]; apply Hdrop.
  - apply sv_with_context; [apply _|]. intros a b c. exact (sv_sync_held resize_action (moves_by Q) a b c Hres Hrel).
  - apply sv_with_context; [apply _|]. intros a b c. exact (sv_cancel_live resize_action (moves_by Q) a b c Hres Hrel _).
  - apply sv_with_context; [apply _|]. intros a b c. exact (sv_quiesce resize_action (moves_by Q) a b c Hres Hrel _ _).
  - apply sv_with_context; [apply _|]. intros. apply sv_positions; [apply _|]. intros. by apply moves_by_rest.
  - apply sv_with_context; [apply _|]. intros. apply sv_losses, _.
  - apply sv_with_context; [apply _|]. intros. apply sv_epoch.
  - unfold reconcile_immediate_fill. pose proof (λ sc dt, sv_trip_breaker (W := W) (moves_by Q) actor reason request_id sc dt).
    assert (serves (W := W) (moves_by Q) (sync_open_orders resize_action actor reason request_id)).
    { apply sv_with_context; [apply _|]. intros a b c. exact (sv_sync_held resize_action (moves_by Q) a b c Hres Hrel). }
    apply sv_bind; [apply _|apply sv_attempt; serve|]. intros. serve.
Qed.
End Calls.

(** * Theorems *)

(** Claim C21.  Synchronising, cancelling, quiescing a plan, comparing positions, enforcing loss
    limits, running a start-up epoch and confirming an immediate fill, whether they return or
    raise, move every stored order along legal transitions, or from an unknown acceptance to
    expired (the one move outside the table, which resolving an acceptance makes), with its
    identity and terms, create and delete none and clear no breaker: each is a step the order
    system allows other components.  The statuses of the broker are those the adapter maps its
    texts to. *)
Theorem service_follows_state_machine `{Digest} `{Parsers} {B : Type} `{!Broker B} resize_action
    {W : Type} `{!ServiceBroker W, !AcceptanceStatuses W} actor reason request_id (c : service_call) (s : SvcState W) :
  let d' := sv_db (run_call resize_action actor reason request_id c s).2 in
  moves_by order_evolves (sv_db s) d'
  ∧ ∀ (w : World B) ps, w_db w = sv_db s → sys_step (mkState w ps) (mkState (set_db w d') ps).
Proof.
  intros d'. assert (moves_by order_evolves (sv_db s) d') as Hm.
  { apply sv_call_run; [apply _|done|apply evolves_resolves|apply evolves_releases]. }
  split; [done|]. intros w ps Hw. apply SOther. rewrite Hw. intros id o Ho. pose proof (mb_orders _ _ _ Hm id) as Hid. rewrite Ho in Hid.
  destruct (db_orders d' !! id) as [o'|]; [eauto|done].
Qed.

(** Claim C24.  The loop that cancels the orders a filled exit made superfluous ends by its own
    test: when it returns, no order is left that requires cancellation and was not tried, and
    no order was tried twice. *)
Theorem exit_fill_loop_ends `{Digest} resize_action {W : Type} `{!ServiceBroker W} actor reason request_id (s s' : SvcState W) counts seen :
  orders_keyed (sv_db s) →
  cancel_plan_orders_after_exit_fill resize_action actor reason request_id s = (Ok (counts, seen), s') →
  NoDup seen ∧ cancel_candidates seen (sv_db s') = Ok [].
Proof.
  intros Hk Hrun. unfold cancel_plan_orders_after_exit_fill in Hrun. apply svc_bind_Ok in Hrun as (n & s1 & [= <- <-] & Hrun).
  eapply exit_fill_loop_completes; [exact Hrun|done|by apply NoDup_nil|by intros id ?%elem_of_nil|cbn; lia].
Qed.

(** Claim C22.  A cancellation reported without an error is stored as canceled with exact fill
    truth.  One that neither the cancellation nor a status query could confirm leaves the order
    latched for reconciliation and the drift breaker tripped. *)
Theorem cancel_confirmed_or_latched `{Digest} resize_action {W : Type} `{!ServiceBroker W} order_id actor reason request_id
    (s s' : SvcState W) r :
  cancel_live_order resize_action order_id actor reason request_id s = (Ok r, s') →
  (cr_error r = None → ∃ o, db_orders (sv_db s') !! order_id = Some o ∧ o_status o = order_status_value CANCELED ∧ exact o)
  ∧ (cr_error r = Some cancel_unconfirmed →
       is_tripped scope_broker_drift (sv_db s') = true
       ∧ ∃ o, db_orders (sv_db s') !! order_id = Some o ∧ needs_exact o ∧ o_last_error_code o = "indeterminate_cancel").
Proof.
  unfold cancel_live_order, with_context. destruct (mutation_context _ _ _) as [[[a b] c]|e]; [|done].
  intros (result & s1 & Hc & (u & s2 & [Ho Hb]%audit_session & [= <- <-])%svc_bind_Ok)%svc_bind_Ok.
  apply (cancel_with_outcome resize_action) in Hc as [Hok Hlatch]. rewrite Ho. unfold is_tripped. rewrite Hb. split; [|exact Hlatch].
  intros (o & st & H1 & H2 & H3 & _ & H5)%Hok. exists o. by rewrite (H5 eq_refl) in H3.
Qed.

(** Claim C20.  A start-up epoch that raises leaves the gate's row as it was or marked failed.
    One that returns either found the gate open and changed nothing, or has proven its
    generation: reconciliation reported no fault, no unresolved acceptance and no pending plan
    cancellation, and the broker's positions equal the signed sums of the stored fills. *)
Theorem startup_epoch_fails_closed `{Digest} resize_action {W : Type} `{!ServiceBroker W} generation read_fails actor reason request_id
    (s s' : SvcState W) r :
  reconcile_startup_epoch resize_action true generation read_fails actor reason request_id s = (r, s') →
  match r with
  | Raise _ => epoch_closed reconciliation_key (sv_db s) (sv_db s')
  | Ok ep =>
      match ep_evidence ep with
      | None => sv_db s' = sv_db s
                ∧ is_current reconciliation_key true (Some (ep_generation ep)) read_fails (sv_clock s 0%nat) (sv_db s) = true
      | Some (report, drift) => epoch_proven (W := W) ep (sv_db s') report drift
      end
  end.
Proof.
  unfold reconcile_startup_epoch, with_context. destruct (mutation_context _ _ _) as [[[a b] c]|e].
  - apply epoch_outcome.
  - intros [= <- <-]. by left.
Qed.

(** After the loss limits were enforced, the loss breaker of each asset class is
    tripped exactly when it was before or the realized loss of its trusted fills since the
    session opened reaches the limit; the answer reports that breaker. *)
Theorem loss_limits_enforced `{Digest} {W : Type} loss_limit boundary actor reason request_id (s s' : SvcState W) e c :
  enforce_daily_loss_limits loss_limit boundary actor reason request_id s = (Ok (e, c), s') →
  loss_enforced loss_limit boundary EQUITY e (sv_db s) (sv_db s') ∧ loss_enforced loss_limit boundary CRYPTO c (sv_db s) (sv_db s').
Proof.
  unfold enforce_daily_loss_limits, with_context. destruct (mutation_context _ _ _) as [[[a b] q]|x]; [|done]. apply losses_outcome.
Qed.

(** Claim C23.  The confirmation of an immediate fill answers yes only when the stored order is
    not latched, its identified fills add up to the reported quantity and, for a plan's entry,
    an armed stop or trailing rule covers the whole open quantity of the plan.  When it answers
    no, the drift breaker and the operator breaker are tripped. *)
Theorem immediate_fill_fails_closed `{Digest} resize_action {W : Type} `{!ServiceBroker W} sql_sum action_qty actor reason request_id
    order_id reported (s s' : SvcState W) b :
  reconcile_immediate_fill resize_action actor reason request_id sql_sum action_qty order_id reported s = (Ok b, s') →
  if b then fill_settled sql_sum action_qty order_id reported (sv_db s')
  else is_tripped scope_broker_drift (sv_db s') = true ∧ is_tripped scope_operator_global (sv_db s') = true.
Proof. apply immediate_outcome. Qed.

(** * Concrete runs *)

Definition fixed_service (orders : list OrderResult) (activities : option (list BrokerFill)) (positions : outcome (list Position)) : ServiceBroker () := {|
  sb_reconcile := fixed_broker orders activities;
  sb_positions w := (positions, w);
  sb_quote t w := (Raise (KeyError t), w);
|}.

Definition ten_shares : list Position := [mkPosition "AAPL" (Fin 10 0) (Fin 100 0) (Fin 100 0) None].

Definition sum_decimals (l : list Decimal) : Decimal := match dsum l with Ok x => x | Raise _ => NaN end.

Lemma service_follows_state_machine_witness :
  let d := recon_db ACCEPTANCE_UNKNOWN "unknown" EmptyString [] in
  let d' := sv_db (@run_call demo_digest_r demo_resize_r () (fixed_service [demo_report EXPIRED (Fin 0 0)] (Some []) (Ok [])) "op" "sync" "r1" CSync
              (demo_svc d)).2 in
  moves_by order_evolves d d' ∧ option_map o_status (db_orders d' !! 1) = Some "expired".
Proof.
  split; [|by vm_compute].
  assert (Forall (λ r, r_status r ∈ REPORTED_STATUSES) [demo_report EXPIRED (Fin 0 0)]) as Hall by (apply (bool_decide_unpack _); by vm_compute).
  apply (@service_follows_state_machine demo_digest_r demo_parsers MockBroker _ demo_resize_r () (fixed_service [demo_report EXPIRED (Fin 0 0)] (Some []) (Ok []))
    (fixed_acceptance _ _ Hall) "op" "sync" "r1" CSync (demo_svc (recon_db ACCEPTANCE_UNKNOWN "unknown" EmptyString []))).
Defined.

(** A canceled entry of plan 7 whose cancellation is still recorded as requested. *)
Definition intent_db : Db :=
  set_db_orders {[ 1 := set_o_plan_cancel_state PLAN_CANCEL_REQUESTED (recon_order CANCELED "accepted" EmptyString) ]} (plan_db PROPOSED).

Abbreviation intent_run := (@cancel_plan_orders_after_exit_fill demo_digest_r demo_resize_r () (fixed_service [] (Some []) (Ok []))
  "op" "sync" "r1" (demo_svc intent_db)).

Lemma exit_fill_loop_ends_witness : match intent_run.1 with
  | Ok (counts, seen) => counts = (1, 0) ∧ seen = [1] ∧ cancel_candidates seen (sv_db intent_run.2) = Ok []
  | Raise _ => False
  end.
Proof.
  assert (bool_decide (intent_run.1 = Ok (1, 0, [1])) = true) as Hb by (by vm_compute). apply bool_decide_eq_true_1 in Hb.
  destruct intent_run as [r s'] eqn:E. cbn [fst snd] in *. subst r. split; [done|]. split; [done|].
  apply (@exit_fill_loop_ends demo_digest_r demo_resize_r () (fixed_service [] (Some []) (Ok [])) "op" "sync" "r1" (demo_svc intent_db) s' (1, 0) [1]); [|exact E].
  intros id o Ho. cbn in Ho. apply lookup_singleton_Some in Ho as [<- <-]. reflexivity.
Defined.

(** The broker confirms one cancellation and answers nothing about the other. *)
Abbreviation cancel_run orders := (@cancel_live_order demo_digest_r demo_resize_r () (fixed_service orders (Some []) (Ok [])) 1 "op" "stop" "r1"
  (demo_svc (recon_db SUBMITTED "accepted" EmptyString []))).

Lemma cancel_confirmed_or_latched_witness :
  (∃ o, db_orders (sv_db (cancel_run [demo_report CANCELED (Fin 0 0)]).2) !! 1 = Some o ∧ o_status o = "canceled" ∧ exact o)
  ∧ is_tripped scope_broker_drift (sv_db (cancel_run []).2) = true.
Proof.
  split.
  - assert (match (cancel_run [demo_report CANCELED (Fin 0 0)]).1 with Ok r => bool_decide (cr_error r = None) | _ => false end = true) as Hb by (by vm_compute).
    destruct (cancel_run [demo_report CANCELED (Fin 0 0)]) as [[r|e] s'] eqn:E; [|done]. apply bool_decide_eq_true_1 in Hb.
    exact (proj1 (@cancel_confirmed_or_latched demo_digest_r demo_resize_r () (fixed_service [demo_report CANCELED (Fin 0 0)] (Some []) (Ok [])) 1 "op" "stop" "r1" _ s' r E) Hb).
  - assert (match (cancel_run []).1 with Ok r => bool_decide (cr_error r = Some cancel_unconfirmed) | _ => false end = true) as Hb by (by vm_compute).
    destruct (cancel_run []) as [[r|e] s'] eqn:E; [|done]. apply bool_decide_eq_true_1 in Hb.
    exact (proj1 (proj2 (@cancel_confirmed_or_latched demo_digest_r demo_resize_r () (fixed_service [] (Some []) (Ok [])) 1 "op" "stop" "r1" _ s' r E) Hb)).
Defined.

(** Generation 1 is required; the ledger holds ten shares and so does the broker. *)
Definition epoch_db : Db :=
  set_db_startup {[ "demo" := mkStartup "demo" 1 0 "required" "op" "start" "r0" (JObj []) 100 None 100 ]}
    (recon_db FILLED "accepted" EmptyString [demo_fill_row]).

Abbreviation epoch_run positions := (@reconcile_startup_epoch demo_digest_r demo_resize_r ()
  (fixed_service [demo_report FILLED (Fin 10 0)] (Some [demo_activity 10]) (Ok positions)) true 1 false "op" "start" "r1" (demo_svc epoch_db)).

Lemma startup_epoch_fails_closed_witness :
  (∃ row, db_startup (sv_db (epoch_run ten_shares).2) !! "demo" = Some row ∧ su_status row = "current")
  ∧ epoch_closed "demo" epoch_db (sv_db (epoch_run []).2).
Proof.
  split.
  - assert (match (epoch_run ten_shares).1 with Ok ep => bool_decide (is_Some (ep_evidence ep)) | _ => false end = true) as Hb by (by vm_compute).
    destruct (epoch_run ten_shares) as [r s'] eqn:E. cbn [fst snd] in *.
    pose proof (@startup_epoch_fails_closed demo_digest_r demo_resize_r ()
      (fixed_service [demo_report FILLED (Fin 10 0)] (Some [demo_activity 10]) (Ok ten_shares)) 1 false "op" "start" "r1" _ s' r E) as Ht.
    destruct r as [ep|e]; [|done]. apply bool_decide_eq_true_1 in Hb. destruct (ep_evidence ep) as [[report drift]|]; [|by destruct Hb].
    destruct (ev_row _ _ _ _ Ht) as (row & H1 & H2 & _). clear E. exists row. exact (conj H1 H2).
  - assert (is_ok (epoch_run []).1 = false) as Hb by (by vm_compute).
    destruct (epoch_run []) as [r s'] eqn:E. cbn [fst snd] in *.
    pose proof (@startup_epoch_fails_closed demo_digest_r demo_resize_r ()
      (fixed_service [demo_report FILLED (Fin 10 0)] (Some [demo_activity 10]) (Ok [])) 1 false "op" "start" "r1" _ s' r E) as Ht.
    clear E. destruct r as [ep|e]; [discriminate Hb|exact Ht].
Defined.

(** Ten shares bought at 100 and sold at 70 against a limit of 200. *)
Definition loss_db : Db :=
  recon_db FILLED "accepted" EmptyString
    [demo_fill_row; mkFillRow 2 (Some 2) "AAPL" "sell" (Fin 10 0) (Fin 70 0) (Some "act-2") "trusted" 220].

Abbreviation loss_run := (@enforce_daily_loss_limits demo_digest_r () (λ _, Fin 200 0) (λ _, Ok 150) "monitor" "limits" "r1" (demo_svc loss_db)).

Lemma loss_limits_enforced_witness :
  loss_enforced (λ _, Fin 200 0) (λ _, Ok 150) EQUITY true loss_db (sv_db loss_run.2)
  ∧ loss_enforced (λ _, Fin 200 0) (λ _, Ok 150) CRYPTO false loss_db (sv_db loss_run.2).
Proof.
  assert (bool_decide (loss_run.1 = Ok (true, false)) = true) as Hb by (by vm_compute). apply bool_decide_eq_true_1 in Hb.
  destruct loss_run as [r s'] eqn:E. cbn [fst snd] in *. subst r.
  exact (@loss_limits_enforced demo_digest_r () (λ _, Fin 200 0) (λ _, Ok 150) "monitor" "limits" "r1" (demo_svc loss_db) s' true false E).
Defined.

Abbreviation immediate_run qty := (@reconcile_immediate_fill demo_digest_r demo_resize_r () (fixed_service [demo_report FILLED (Fin 10 0)] (Some [demo_activity 10]) (Ok []))
  "op" "send" "r1" sum_decimals (λ _, Raise (TypeError EmptyString)) 1 (Fin qty 0) (demo_svc (recon_db SUBMITTED "accepted" EmptyString []))).

Lemma immediate_fill_fails_closed_witness :
  fill_settled sum_decimals (λ _, Raise (TypeError EmptyString)) 1 (Fin 10 0) (sv_db (immediate_run 10).2)
  ∧ is_tripped scope_operator_global (sv_db (immediate_run 9).2) = true.
Proof.
  split.
  - assert (bool_decide ((immediate_run 10).1 = Ok true) = true) as Hb by (by vm_compute). apply bool_decide_eq_true_1 in Hb.
    destruct (immediate_run 10) as [r s'] eqn:E. cbn [fst snd] in *. subst r.
    exact (@immediate_fill_fails_closed demo_digest_r demo_resize_r ()
      (fixed_service [demo_report FILLED (Fin 10 0)] (Some [demo_activity 10]) (Ok [])) sum_decimals (λ _, Raise (TypeError EmptyString)) "op" "send" "r1" 1 (Fin 10 0) _ s' true E).
  - assert (bool_decide ((immediate_run 9).1 = Ok false) = true) as Hb by (by vm_compute). apply bool_decide_eq_true_1 in Hb.
    destruct (immediate_run 9) as [r s'] eqn:E. cbn [fst snd] in *. subst r.
    exact (proj2 (@immediate_fill_fails_closed demo_digest_r demo_resize_r ()
      (fixed_service [demo_report FILLED (Fin 10 0)] (Some [demo_activity 10]) (Ok [])) sum_decimals (λ _, Raise (TypeError EmptyString)) "op" "send" "r1" 1 (Fin 9 0) _ s' false E)).
Defined.
