(* ===== verification/Proposals.v ===== *)
(** Proposing orders ([service.py]): [propose_order], [propose_bracket_order], [reject_order],
    [available_reduce_qty] and [cancel_rule].

    A new row gets the next integer key, as SQLite assigns it, and the clock readings of its
    column defaults in column order.  What the database returns for a value written to a
    [Numeric(20, 6)] column is [stored_numeric], as in [Snapshot]; reading a decimal from text
    and drawing a fresh key are parameters. *)

From S2P Require Import Prelude PyDecimal Assets BrokerModels Breakers RiskRules RiskEngine Pnl.
From S2P Require Import Database Lifecycle SessionLogic BreakerStore SafetyState Submission Snapshot RuleRepository PlanTruth PlanLifecycle.
From S2P Require Import ReconcileSession FillImport StatusSync Reconciliation ServiceBase PlanCancel ServiceSync.
From Stdlib Require Import Ascii Lia.
Local Open Scope Z_scope.

(** The service's broker, and what one assembly of a snapshot observes. *)
Class ProposalWorld (W : Type) : Type := {
  pw_service :: ServiceBroker W;
  pw_observe : W → Providers * W;
}.

Definition observe {W} `{!ProposalWorld W} : svc W Providers := λ s,
  let '(p, w) := pw_observe (sv_world s) in (Ok p, mkSvc (sv_db s) w (sv_clock s)).

(** A broker call whose exception propagates. *)
Definition ask {W A} (f : W → outcome A * W) : svc W A := r ← call f; lift_svc r.

Definition minute : Z := 60 * second.

(** * New rows *)

Section Rows.
Context (stored_numeric : Decimal → Decimal).

(** The columns of [Order(...)]; the others have their defaults. *)
Definition new_order (request : OrderRequest) (status : OrderStatus) (submission_kind payload : string)
    (created_at updated_at : time) (id : Z) : Order :=
  mkOrder id (BrokerModels.o_idempotency_key request) (BrokerModels.o_ticker request)
    (order_side_value (BrokerModels.o_side request)) (order_type_value (BrokerModels.o_order_type request))
    (stored_numeric <$> BrokerModels.o_qty request) (stored_numeric <$> BrokerModels.o_notional request)
    (stored_numeric <$> BrokerModels.o_limit_price request)
    (order_status_value status) None None "approval pending" None submission_kind payload 0 None "not_started" None EmptyString
    "none" 0 created_at updated_at.

Definition key_taken (key : string) (d : Db) : bool :=
  existsb (λ x, bool_decide (o_idempotency_key x.2 = key)) (map_to_list (db_orders d)).

(** The flush of a new order: its key, or the violated constraint. *)
Definition add_order (row : Z → Order) : tx Order :=
  d ← read;
  let o := row (next_id (db_orders d)) in
  if key_taken (o_idempotency_key o) d then raise (IntegrityError "orders.idempotency_key")
  else put_order (o_id o) o ≫= λ _, mret o.

(** The flush of a new proposal, unique by order. *)
Definition add_proposal (row : Z → Proposal) : tx () :=
  d ← read;
  let p := row (next_key (map (λ x, p_id x.2) (map_to_list (db_proposals d)))) in
  if bool_decide (is_Some (db_proposals d !! p_order_id p)) then raise (IntegrityError "proposals.order_id")
  else write (set_db_proposals (<[p_order_id p := p]> (db_proposals d))).

(** [persist_sensitive(session, order, ...)] with the two clock defaults. *)
Definition store_order (request : OrderRequest) (status : OrderStatus) (submission_kind payload : string) : rtx Order :=
  created ← now;
  updated ← now;
  on_session (add_order (new_order request status submission_kind payload created updated)).
End Rows.

(** [persist_sensitive(session, Proposal(...), ...)]: the expiry is computed first. *)
Definition store_proposal (order_id ttl : Z) (reasoning : string) : rtx () :=
  t ← now;
  created ← now;
  on_session (add_proposal (λ id, mkProposal id order_id None None 0 reasoning ttl created (t + ttl * minute))).

(** * Proposing *)

Record ProposeResult : Type := mkProposeResult {
  po_order_id : Z;
  po_status : string;
  po_approved_by_risk : bool;
  po_risk_reasons : list string;
  po_risk_warnings : list string;
  po_idempotent_replay : bool;
}.

Definition existing_order (key : string) (d : Db) : option Order :=
  option_map (λ x, x.2.2) (list_find (λ x, o_idempotency_key x.2 = key) (map_to_list (db_orders d))).

Definition replayed (o : Order) : ProposeResult :=
  mkProposeResult (o_id o) (o_status o) (negb (bool_decide (o_status o = order_status_value REJECTED))) [] [] true.

Definition time_in_force_value (t : OrderTimeInForce) : string := match t with DAY => "day" | GTC => "gtc" end.

(** [OrderTimeInForce(text)]. *)
Definition order_time_in_force_of (text : string) : outcome OrderTimeInForce :=
  match time_in_force_of (JStr text) with Some t => Ok t | None => Raise (ValueError "not a valid OrderTimeInForce") end.

Definition simple_payload (t : OrderTimeInForce) : string :=
  match t with
  | DAY => "{}"
  | t => "{" +:+ json_string "time_in_force" +:+ ": " +:+ json_string (time_in_force_value t) +:+ "}"
  end.

Definition bracket_payload (take_profit stop_loss : Decimal) : string :=
  "{" +:+ json_string "take_profit" +:+ ": " +:+ json_string (dstr take_profit) +:+ ", "
  +:+ json_string "stop_loss" +:+ ": " +:+ json_string (dstr stop_loss) +:+ "}".

(** What [propose_order] is called with. *)
Record OrderTerms : Type := mkTerms {
  ot_ticker : string;
  ot_side : string;
  ot_order_type : string;
  ot_qty : option string;
  ot_notional : option string;
  ot_limit_price : option string;
  ot_time_in_force : string;
}.

Section Propose.
Context `{Digest} {W : Type} `{!ProposalWorld W}.
Context (stored_numeric : Decimal → Decimal) (parse_decimal : string → outcome Decimal).
Context (config : AssetClass → RiskConfig) (config_for_asset : option (AssetClass → RiskConfig)) (startup_key : option string).
Context (actor reason request_id : string).

Abbreviation svc := (svc W).
Abbreviation audit := (persist_audit actor reason request_id).

Definition parse_opt (x : option string) : outcome (option Decimal) :=
  match x with None => Ok None | Some t => v ← parse_decimal t; Ok (Some v) end.

(** [OrderRequest(...)], its arguments converted in order. *)
Definition terms_request (t : OrderTerms) (key : string) : outcome OrderRequest :=
  side ← order_side_of (lower (ot_side t));
  type ← order_type_of (lower (ot_order_type t));
  qty ← parse_opt (ot_qty t);
  notional ← parse_opt (ot_notional t);
  limit_price ← parse_opt (ot_limit_price t);
  tif ← order_time_in_force_of (lower (ot_time_in_force t));
  order_request (mkOrderRequest (upper (ot_ticker t)) side type key qty notional limit_price tif).

(** [assemble_snapshot] for one request, and the verdict of the pre-check. *)
Definition take_snapshot (request : OrderRequest) (overrides : dict Quote) : svc PortfolioSnapshot :=
  pv ← observe;
  on_db (assemble stored_numeric config_for_asset startup_key pv [BrokerModels.o_ticker request]
           (for_symbol (BrokerModels.o_ticker request)) None overrides false).

Definition verdict (request : OrderRequest) (snapshot : PortfolioSnapshot) : outcome RiskResult :=
  check (config (for_symbol (BrokerModels.o_ticker request))) request snapshot.

(** A rejected proposal is stored as such, with its reasons. *)
Definition settle_verdict (o : Order) (result : RiskResult) : rtx Order :=
  if rejected result then
    t ← now;
    o' ← on_session (lift (transition o REJECTED t));
    on_session (put_order (o_id o) o' ≫= λ _, persist_risk (Some (o_id o)) "rejection" (reason_text result)) ≫= λ _,
    mret o'
  else mret o.

(** The writing session of [propose_order]. *)
Definition propose_session (request : OrderRequest) (result : RiskResult) : rtx ProposeResult :=
  let ttl := proposal_ttl_minutes (config (for_symbol (BrokerModels.o_ticker request))) in
  o ← store_order stored_numeric request PROPOSED "simple" (simple_payload (BrokerModels.o_time_in_force request));
  store_proposal (o_id o) ttl reason ≫= λ _,
  o ← settle_verdict o result;
  on_session (tx_iter (λ w, persist_risk (Some (o_id o)) "warning" w) (warnings result)) ≫= λ _,
  rtx_iter (λ i, trip_here actor reason request_id (i_scope i) (i_reason i)) (breaker_trips result) ≫= λ _,
  on_session (audit "order.propose" "order" (IdTarget (o_id o)) (o_status o) EmptyString [] true None ≫= λ _, commit) ≫= λ _,
  mret (mkProposeResult (o_id o) (o_status o) (approved result) (reasons result) (warnings result) false).

(** [propose_order], after its context; [fresh] is [uuid4().hex]. *)
Definition propose_held (terms : OrderTerms) (idempotency_key : option string) (fresh : string) : svc ProposeResult :=
  let key := match idempotency_key with Some k => if nonempty k then k else fresh | None => fresh end in
  existing ← match idempotency_key with None => mret None | Some _ => look (existing_order key) end;
  match existing with
  | Some o => mret (replayed o)
  | None =>
      request ← lift_svc (terms_request terms key);
      snapshot ← take_snapshot request [];
      result ← lift_svc (verdict request snapshot);
      in_session (propose_session request result)
  end.

(** ** Brackets *)

Record BracketResult : Type := mkBracketResult {
  br_order_id : Z;
  br_status : string;
  br_broker_order_id : option string;
}.

Definition bracket_session (request : OrderRequest) (take_profit stop_loss : Decimal) : rtx Z :=
  d ← on_session read;
  match existing_order (BrokerModels.o_idempotency_key request) d with
  | Some o => mret (o_id o)
  | None =>
      o ← store_order stored_numeric request PROPOSED "bracket" (bracket_payload take_profit stop_loss);
      store_proposal (o_id o) (proposal_ttl_minutes (config (for_symbol (BrokerModels.o_ticker request)))) reason ≫= λ _,
      on_session (audit "order.propose" "order" (IdTarget (o_id o)) (order_status_value PROPOSED) EmptyString
                    [("submission_kind", JStr "bracket")] true None ≫= λ _, commit) ≫= λ _,
      mret (o_id o)
  end.

(** [Decimal(str(value))]. *)
Definition bracket_price (text : string) : outcome Decimal :=
  match parse_decimal text with Ok x => Ok x | Raise _ => Raise (ValueError "bracket prices must be valid decimals") end.

(** [propose_bracket_order], after its context: [None] when the broker has no brackets. *)
Definition bracket_held (supports_bracket : bool) (request : OrderRequest) (take_profit stop_loss : string)
    : svc (option BracketResult) :=
  if negb supports_bracket then mret None
  else
    take_profit ← lift_svc (bracket_price take_profit);
    stop_loss ← lift_svc (bracket_price stop_loss);
    bad ← lift_svc (t ← dle take_profit dzero; if t : bool then Ok true else dle stop_loss dzero);
    if bad : bool then svc_raise (ValueError "bracket prices must be positive")
    else
      order_id ← in_session (bracket_session request take_profit stop_loss);
      current ← look (λ d, db_orders d !! order_id);
      match current with
      | None => svc_raise AssertionError
      | Some o =>
          status ← lift_svc (order_status_of (o_status o));
          mret (Some (mkBracketResult order_id (order_status_value status) (o_broker_order_id o)))
      end.

(** * Rejecting *)

Definition reject_session (order_id : Z) : rtx CancelResult :=
  d ← on_session read;
  match db_orders d !! order_id with
  | None => mret (mkCancelResult None (Some "not found") None)
  | Some o =>
      if negb (bool_decide (o_status o = order_status_value PROPOSED))
      then mret (mkCancelResult (Some (o_status o)) (Some "only PROPOSED orders can be rejected") None)
      else
        t ← now;
        o' ← on_session (lift (transition o REJECTED t));
        on_session (put_order order_id o' ≫= λ _,
                    persist_risk (Some (o_id o)) "rejection" reason ≫= λ _,
                    audit "order.reject" "order" (IdTarget order_id) (order_status_value REJECTED) EmptyString [] true None ≫= λ _,
                    commit) ≫= λ _,
        mret (mkCancelResult (Some (o_status o')) None None)
  end.

(** [reject_order], after its context. *)
Definition reject_held (order_id : Z) : svc CancelResult := in_session (reject_session order_id).

(** * Cancelling a rule *)

Record RuleCancelResult : Type := mkRuleCancel { rx_canceled : bool; rx_error : option string }.

Definition RESUMABLE_RULE_STATES : list string := ["pending"; "active"; "processing"].
Definition RESUMABLE_RULE_GROUP_STATES : list string := ["pending"; "active"].

Definition resumable_rule (r : Rule) : bool := bool_decide (ru_state r ∈ RESUMABLE_RULE_STATES).
Definition resumable_group (g : RuleGroup) : bool := bool_decide (g_state g ∈ RESUMABLE_RULE_GROUP_STATES).

(** A rule cancellation already recorded under the key. *)
Definition prior_success (rule_id : Z) (key : string) (d : Db) : bool :=
  existsb (λ e, bool_decide (a_actor e = actor) && bool_decide (a_action e = "rule.cancel")
                && bool_decide (a_target_type e = "rule") && bool_decide (a_target_id e = pretty rule_id)
                && bool_decide (a_idempotency_key e = key) && bool_decide (a_result_code e = "canceled")) (db_audit d).

(** The group of the last resumable rule ends with it; [false] when another writer won. *)
Definition cancel_last_group (rule_id group_id : Z) : rtx bool :=
  d ← on_session read;
  let sibling r := (ru_group_id r =? group_id) && negb (ru_id r =? rule_id) && resumable_rule r in
  if bool_decide (matching_ids sibling (db_rules d) = []) then
    t ← now;
    ended ← on_session (update_group group_id resumable_group (end_group RS_CANCELED None t));
    match ended with
    | None => on_session rollback ≫= λ _, mret false
    | Some _ => on_session (audit "rule_group.cancel" "rule_group" (IdTarget group_id) "canceled" EmptyString [] true None) ≫= λ _, mret true
    end
  else mret true.

Definition cancel_rule_row (rule_id group_id : Z) (idempotency_key : string) : rtx RuleCancelResult :=
  d ← on_session read;
  let open_group r := match db_groups d !! ru_group_id r with Some g => resumable_group g | None => false end in
  ids ← on_session (update_rules (λ r, (ru_id r =? rule_id) && resumable_rule r && open_group r)
                      (set_ru_state (rule_state_value RS_CANCELED)));
  match ids with
  | [_] =>
      settled ← cancel_last_group rule_id group_id;
      if settled : bool then
        on_session (audit "rule.cancel" "rule" (IdTarget rule_id) "canceled" idempotency_key [] true None ≫= λ _, commit) ≫= λ _,
        mret (mkRuleCancel true None)
      else mret (mkRuleCancel false (Some "rule group changed during cancellation"))
  | _ => on_session rollback ≫= λ _, mret (mkRuleCancel false (Some "rule or group changed during cancellation"))
  end.

Definition cancel_rule_session (rule_id : Z) (idempotency_key : string) : rtx RuleCancelResult :=
  d ← on_session read;
  if nonempty idempotency_key && prior_success rule_id idempotency_key d then mret (mkRuleCancel true None)
  else match db_rules d !! rule_id with
  | None => mret (mkRuleCancel false (Some "not found"))
  | Some r =>
      if bool_decide (ru_plan_id r ≠ None) then mret (mkRuleCancel false (Some "plan_rule_requires_plan_cancel"))
      else if negb (resumable_rule r) then mret (mkRuleCancel false (Some ("rule is terminal: " +:+ ru_state r)))
      else match db_groups d !! ru_group_id r with
      | None => mret (mkRuleCancel false (Some "rule group not found"))
      | Some g =>
          if negb (resumable_group g) then mret (mkRuleCancel false (Some ("rule group is terminal: " +:+ g_state g)))
          else cancel_rule_row rule_id (ru_group_id r) idempotency_key
      end
  end.

(** [cancel_rule], after its context. *)
Definition cancel_rule_held (rule_id : Z) (idempotency_key : string) : svc RuleCancelResult :=
  if negb (bool_decide (idempotency_key = strip idempotency_key)) || (64 <? String.length idempotency_key)%nat
  then svc_raise (ValueError "idempotency_key is invalid")
  else in_session (cancel_rule_session rule_id idempotency_key).

(** * What an exit may take *)

Definition EXIT_RESERVATION_STATUSES : list string :=
  map order_status_value [APPROVED; APPROVAL_RECORDED; SUBMITTING; ACCEPTANCE_UNKNOWN; SUBMITTED; PARTIALLY_FILLED].

Definition reserves_exit (symbol side : string) (o : Order) : bool :=
  bool_decide (o_ticker o = symbol) && bool_decide (o_side o = side) && bool_decide (o_status o ∈ EXIT_RESERVATION_STATUSES).

(** The body of the loop over live orders. *)
Definition reserve_order (symbol : string) (reference_price : option Decimal) (reserved : Decimal) (x : Order * list Fill) : svc Decimal :=
  let '(o, fills) := x in
  filled_qty ← lift_svc (dsum (map fl_qty fills));
  match o_qty o, o_notional o with
  | Some qty, _ => lift_svc (left_ ← dsub qty filled_qty; left_ ← dmax left_ dzero; dadd reserved left_)
  | None, Some notional =>
      price ← match reference_price with Some p => mret p | None => q ← ask (sb_quote symbol); mret (q_last q) end;
      lift_svc (
        amounts ← outcome_mapM (λ f, dmul (fl_qty f) (fl_price f)) fills;
        spent ← dsum amounts;
        left_ ← dsub notional spent;
        remaining ← dmax left_ dzero;
        positive ← dgt price dzero;
        if positive : bool then part ← ddiv remaining price; dadd reserved part else Ok reserved)
  | None, None => mret reserved
  end.

Definition live_exits (symbol side : string) (d : Db) : list (Order * list Fill) :=
  omap (λ id, o ← db_orders d !! id; Some (o, fills_of (db_fills d) o)) (select_ids (reserves_exit symbol side) (db_orders d)).

(** [available_reduce_qty]. *)
Definition exit_available (ticker side : string) (reference_price : option Decimal) : svc Decimal :=
  let symbol := upper ticker in
  positions ← ask sb_positions;
  let held_qty := default dzero (dict_get (broker_quantities positions) symbol) in
  match order_side_of side with
  | Raise _ => mret dzero
  | Ok s =>
      reducible ← lift_svc (reducible_qty s held_qty);
      if deq reducible dzero then mret dzero
      else
        live ← look (live_exits symbol side);
        reserved ← svc_foldl (reserve_order symbol reference_price) dzero live;
        lift_svc (free ← dsub reducible reserved; dmax free dzero)
  end.
End Propose.

(** The public methods. *)
Section Methods.
Context `{Digest} {W : Type} `{!ProposalWorld W}.
Context (stored_numeric : Decimal → Decimal) (parse_decimal : string → outcome Decimal).
Context (config : AssetClass → RiskConfig) (config_for_asset : option (AssetClass → RiskConfig)) (startup_key : option string).

Definition propose_order (terms : OrderTerms) (idempotency_key : option string) (fresh : string) (actor reason request_id : string)
    : svc W ProposeResult :=
  with_context actor reason request_id (λ a b c,
    propose_held stored_numeric parse_decimal config config_for_asset startup_key a b c terms idempotency_key fresh).

Definition propose_bracket_order (supports_bracket : bool) (request : OrderRequest) (take_profit stop_loss : string)
    (actor reason request_id : string) : svc W (option BracketResult) :=
  with_context actor reason request_id (λ a b c,
    bracket_held stored_numeric parse_decimal config a b c supports_bracket request take_profit stop_loss).

Definition reject_order (order_id : Z) (actor reason request_id : string) : svc W CancelResult :=
  with_context actor reason request_id (λ a b c, reject_held a b c order_id).

(** [TradingService.cancel_rule]. *)
Definition service_cancel_rule (rule_id : Z) (idempotency_key actor reason request_id : string) : svc W RuleCancelResult :=
  with_context actor reason request_id (λ a b c, cancel_rule_held a b c rule_id idempotency_key).

(** [replace_order]: the cancellation, and the replacement when it succeeded. *)
Definition replace_order (resize_action : string → Decimal → option string) (order_id : Z) (terms : OrderTerms)
    (idempotency_key : option string) (fresh : string) (actor reason request_id : string) : svc W (CancelResult * option ProposeResult) :=
  with_context actor reason request_id (λ a b c,
    canceled ← cancel_live_order resize_action order_id a b c;
    match cr_error canceled with
    | Some _ => mret (canceled, None)
    | None => r ← propose_order terms idempotency_key fresh a b c; mret (canceled, Some r)
    end).
End Methods.
