(* ===== verification/RuleCommands.v ===== *)
(** Rule commands ([rules/models.py]), how they are read back ([load_rules], [load_rule] and
    [_stored_rule] of [rules/repository.py]) and when they fire ([RuleWorker._fires] of
    [rules/worker.py]).

    Pydantic validates the numeric fields and JSON text carries the conditions and actions;
    both are third-party code and parameters here ([Pydantic], [RuleCodec]).  What a field
    constraint documents and a validator of the source computes is written out. *)

From S2P Require Import Prelude PyDecimal Assets BrokerModels Database Lifecycle Submission RuleRepository.
From Stdlib Require Import Ascii Lia.
Local Open Scope Z_scope.

(** * Values *)

Inductive Direction : Type := BELOW | ABOVE.

Inductive RuleCondition : Type :=
| PriceCondition (direction : Direction) (price : Decimal)
| TrailingCondition (percent : Decimal)
| TimeCondition (deadline : time).

Inductive ConditionType : Type := CT_PRICE | CT_TRAILING | CT_TIME.

#[export] Instance Direction_eq_dec : EqDecision Direction.
Proof. solve_decision. Defined.
#[export] Instance ConditionType_eq_dec : EqDecision ConditionType.
Proof. solve_decision. Defined.
#[export] Instance RuleKind_eq_dec : EqDecision RuleKind.
Proof. solve_decision. Defined.

Definition condition_type (c : RuleCondition) : ConditionType :=
  match c with PriceCondition _ _ => CT_PRICE | TrailingCondition _ => CT_TRAILING | TimeCondition _ => CT_TIME end.

Record RuleAction : Type := mkAction {
  ra_side : OrderSide;
  ra_order_type : OrderType;
  ra_qty : option Decimal;
  ra_notional : option Decimal;
  ra_limit_price : option Decimal;
}.

Inductive Activation : Type := IMMEDIATE | ON_ENTRY_FILL.

#[export] Instance Activation_eq_dec : EqDecision Activation.
Proof. solve_decision. Defined.

Definition activation_value (a : Activation) : string :=
  match a with IMMEDIATE => "immediate" | ON_ENTRY_FILL => "on_entry_fill" end.

Record RuleCommand : Type := mkCommand {
  cm_ticker : string;
  cm_kind : RuleKind;
  cm_condition : RuleCondition;
  cm_action : RuleAction;
  cm_group_key : option string;
  cm_pre_approved : bool;
  cm_fraction : option Decimal;
  cm_high_water_mark : option Decimal;
  cm_activation : Activation;
  cm_terminal_on_trigger : bool;
}.

(** The kinds that close a position. *)
Definition exit_kind (k : RuleKind) : bool := match k with TARGET | STOP | TRAILING | TIME => true | PRICE | ENTRY => false end.

(** [RuleCommand.__eq__]: amounts are compared by value. *)
Definition opt_deq (x y : option Decimal) : bool :=
  match x, y with Some a, Some b => deq a b | None, None => true | _, _ => false end.

Definition condition_eqb (c c' : RuleCondition) : bool :=
  match c, c' with
  | PriceCondition d p, PriceCondition d' p' => bool_decide (d = d') && deq p p'
  | TrailingCondition p, TrailingCondition p' => deq p p'
  | TimeCondition t, TimeCondition t' => t =? t'
  | _, _ => false
  end.

Definition action_eqb (a a' : RuleAction) : bool :=
  bool_decide (ra_side a = ra_side a') && bool_decide (ra_order_type a = ra_order_type a')
  && opt_deq (ra_qty a) (ra_qty a') && opt_deq (ra_notional a) (ra_notional a') && opt_deq (ra_limit_price a) (ra_limit_price a').

Definition command_eqb (c c' : RuleCommand) : bool :=
  bool_decide (cm_ticker c = cm_ticker c') && bool_decide (cm_kind c = cm_kind c')
  && condition_eqb (cm_condition c) (cm_condition c') && action_eqb (cm_action c) (cm_action c')
  && bool_decide (cm_group_key c = cm_group_key c') && bool_decide (cm_pre_approved c = cm_pre_approved c')
  && opt_deq (cm_fraction c) (cm_fraction c') && opt_deq (cm_high_water_mark c) (cm_high_water_mark c')
  && bool_decide (cm_activation c = cm_activation c') && bool_decide (cm_terminal_on_trigger c = cm_terminal_on_trigger c').

(** * Validation *)

(** The validators of [Decimal] fields with [gt], [le], [max_digits] and [decimal_places]:
    [PersistedHighWaterMark] and [PersistedOrderDecimal] have the same shape. *)
Class Pydantic : Type := {
  validate_numeric : Decimal → outcome Decimal;
  validate_fraction : Decimal → outcome Decimal;
}.

(** What the field documentation says: a value is positive, has at most twenty digits, six of
    them decimal, and is returned as it is; a fraction is moreover at most one;
    [ValidationError] is a [ValueError]. *)
Class PydanticLaws `{!Pydantic} : Prop := {
  numeric_same v v' : validate_numeric v = Ok v' → v' = v ∧ pos_finite v = true;
  numeric_places v v' : validate_numeric v = Ok v' → ∃ k, 0 < k < 10 ^ 20 ∧ deq v (Fin k (-6)) = true;
  numeric_accepts k : 0 < k < 10 ^ 20 → validate_numeric (Fin k (-6)) = Ok (Fin k (-6));
  numeric_error v e : validate_numeric v = Raise e → ∃ m, e = ValueError m;
  fraction_same v v' : validate_fraction v = Ok v' → v' = v;
  fraction_places v v' : validate_fraction v = Ok v' → ∃ k, 0 < k ≤ 10 ^ 6 ∧ deq v (Fin k (-6)) = true;
  fraction_accepts k : 0 < k ≤ 10 ^ 6 → validate_fraction (Fin k (-6)) = Ok (Fin k (-6));
}.

(** A failed validation. *)
Definition invalid {A} : outcome A := Raise (ValueError "validation error").

Definition validate_opt (f : Decimal → outcome Decimal) (x : option Decimal) : outcome (option Decimal) :=
  match x with None => Ok None | Some v => v ← f v; Ok (Some v) end.

Definition length_within (lo hi : nat) (s : string) : bool := (lo <=? String.length s)%nat && (String.length s <=? hi)%nat.

(** [Field(gt=0)] and [Field(gt=0, le=100)]. *)
Definition condition_valid (c : RuleCondition) : bool :=
  match c with
  | PriceCondition _ price => pos_finite price
  | TrailingCondition percent => pos_finite percent && dcmp_le percent (of_Z 100)
  | TimeCondition _ => true
  end.

(** [normalize_ticker] and [normalize_group_key], after the length constraints. *)
Definition normalize_ticker (t : string) : outcome string :=
  if length_within 1 16 t && nonempty (upper (strip t)) then Ok (upper (strip t)) else invalid.

Definition normalize_group_key (k : option string) : outcome (option string) :=
  match k with
  | None => Ok None
  | Some k => if length_within 1 128 k && nonempty (strip k) then Ok (Some (strip k)) else invalid
  end.

(** [validate_shape]. *)
Definition shape_valid (a : RuleAction) : bool :=
  negb (Bool.eqb (bool_decide (ra_qty a = None)) (bool_decide (ra_notional a = None)))
  && Bool.eqb (bool_decide (ra_order_type a = LIMIT)) (negb (bool_decide (ra_limit_price a = None))).

(** [validate_condition_matches_kind]. *)
Definition expected_condition (k : RuleKind) : ConditionType :=
  match k with TRAILING => CT_TRAILING | TIME => CT_TIME | _ => CT_PRICE end.

Definition command_consistent (c : RuleCommand) : bool :=
  bool_decide (condition_type (cm_condition c) = expected_condition (cm_kind c))
  && negb (bool_decide (cm_activation c = ON_ENTRY_FILL) && negb (exit_kind (cm_kind c)))
  && negb (negb (cm_terminal_on_trigger c) && negb (bool_decide (cm_kind c = TARGET))).

Section Validation.
Context `{!Pydantic}.

(** [RuleAction.model_validate]. *)
Definition validate_action (a : RuleAction) : outcome RuleAction :=
  qty ← validate_opt validate_numeric (ra_qty a);
  notional ← validate_opt validate_numeric (ra_notional a);
  limit_price ← validate_opt validate_numeric (ra_limit_price a);
  let a' := mkAction (ra_side a) (ra_order_type a) qty notional limit_price in
  if shape_valid a' then Ok a' else invalid.

(** [RuleCommand.model_validate]. *)
Definition validate_command (c : RuleCommand) : outcome RuleCommand :=
  ticker ← normalize_ticker (cm_ticker c);
  group_key ← normalize_group_key (cm_group_key c);
  action ← validate_action (cm_action c);
  fraction ← validate_opt validate_fraction (cm_fraction c);
  hwm ← validate_opt validate_numeric (cm_high_water_mark c);
  let c' := mkCommand ticker (cm_kind c) (cm_condition c) action group_key (cm_pre_approved c) fraction hwm
              (cm_activation c) (cm_terminal_on_trigger c) in
  if condition_valid (cm_condition c) && negb (cm_pre_approved c) && command_consistent c' then Ok c' else invalid.

(** ** [normalize_computed_order_decimal] *)

(** Trailing zeros of a coefficient, at most its digits. *)
Fixpoint strip_zeros (fuel : nat) (c e : Z) : Z * Z :=
  match fuel with
  | O => (c, e)
  | S fuel => if c mod 10 =? 0 then strip_zeros fuel (c / 10) (e + 1) else (c, e)
  end.

(** Coefficient and exponent of [value.normalize().as_tuple()]. *)
Definition normalized_tuple (c e : Z) : Z * Z :=
  match dround c e with
  | Fin c e => if c =? 0 then (0, 0) else strip_zeros (Z.to_nat (ndigits c)) c e
  | _ => (0, 0)
  end.

(** [value.quantize(Decimal((0, (1,), exp)), rounding=ROUND_DOWN)] at a precision. *)
Definition truncate_at (c e exp : Z) : Z := if exp <=? e then c * 10 ^ (e - exp) else Z.quot c (10 ^ (exp - e)).

Definition quantize_down (c e exp prec : Z) : outcome Decimal :=
  let c' := truncate_at c e exp in
  if ndigits c' <=? prec then Ok (Fin c' exp) else Raise InvalidOperation.

Definition normalize_computed_order_decimal (value : Decimal) : outcome (option Decimal) :=
  match value with
  | Fin c e =>
      if c <=? 0 then Raise (ValueError "computed order value must be finite and positive")
      else
        let '(digits, exponent) := normalized_tuple c e in
        let len := ndigits digits in
        let whole_digits := if 0 <=? exponent then len + exponent else Z.max (len + exponent) 0 in
        if 14 <? whole_digits then Raise (ValueError "computed order value exceeds persisted precision")
        else
          normalized ← quantize_down c e (-6) (Z.max 20 (len + Z.max exponent 0 + 6));
          if deq normalized dzero then Ok None else v ← validate_numeric normalized; Ok (Some v)
  | _ => Raise (ValueError "computed order value must be finite and positive")
  end.
End Validation.

(** * Stored rules *)

(** JSON text of conditions and actions: [json.dumps(model_dump(mode="json"))] and the typed
    fields read back from it. *)
Class RuleCodec : Type := {
  encode_condition : RuleCondition → string;
  decode_condition : string → outcome RuleCondition;
  encode_action : RuleAction → string;
  decode_action : string → outcome RuleAction;
}.

(** Decimals are written as text and keep their digits. *)
Class RuleCodecLaws `{!RuleCodec} : Prop := {
  condition_decodes c : decode_condition (encode_condition c) = Ok c;
  action_decodes a : decode_action (encode_action a) = Ok a;
}.

Record StoredRule : Type := mkStored {
  sr_id : Z;
  sr_group_id : Z;
  sr_command : RuleCommand;
  sr_plan_id : option Z;
}.

Definition all_kinds : list RuleKind := [PRICE; ENTRY; TARGET; STOP; TRAILING; TIME].

Definition rule_kind_of (text : string) : outcome RuleKind :=
  match list_find (λ k, rule_kind_value k = text) all_kinds with Some p => Ok p.2 | None => invalid end.

Definition activation_of (text : string) : outcome Activation :=
  if bool_decide (text = "immediate") then Ok IMMEDIATE
  else if bool_decide (text = "on_entry_fill") then Ok ON_ENTRY_FILL else invalid.

Section Loading.
Context `{!Pydantic, !RuleCodec}.

(** [_stored_rule]. *)
Definition stored_rule (group_key : string) (r : Rule) : outcome StoredRule :=
  if negb (ru_payload_version r =? 1)
  then Raise (ValueError ("rule " +:+ pretty (ru_id r) +:+ " has unsupported payload_version " +:+ pretty (ru_payload_version r)))
  else
    condition ← decode_condition (ru_condition_json r);
    action ← decode_action (ru_action_json r);
    kind ← rule_kind_of (ru_kind r);
    activation ← activation_of (ru_activation r);
    command ← validate_command (mkCommand (ru_ticker r) kind condition action (Some group_key) (ru_pre_approved r)
                (ru_fraction r) (ru_hwm r) activation (ru_terminal_on_trigger r));
    Ok (mkStored (ru_id r) (ru_group_id r) command (ru_plan_id r)).

(** [RuleRepository.load_rules] decoded, and [load_rule]. *)
Definition load_stored (lease : RuleGroupLease) (d : Db) : outcome (list StoredRule) :=
  match db_groups d !! rl_group_id lease with
  | None => Ok []
  | Some g => outcome_mapM (stored_rule (g_group_key g)) (load_rules lease d)
  end.

Definition load_rule (lease : RuleGroupLease) (rule_id : Z) (d : Db) : outcome (option StoredRule) :=
  rules ← load_stored lease d; Ok (option_map snd (list_find (λ s, sr_id s = rule_id) rules)).
End Loading.

(** * Firing *)

(** [_fires]: whether the rule fires and the high-water mark to store. *)
Definition fires (c : RuleCommand) (last : Decimal) (now : time) : outcome (bool * option Decimal) :=
  match cm_condition c with
  | PriceCondition BELOW price => b ← dlt last price; Ok (b, None)
  | PriceCondition ABOVE price => b ← dgt last price; Ok (b, None)
  | TrailingCondition percent =>
      let stored := match cm_high_water_mark c with Some h => if deq h dzero then last else h | None => last end in
      high_water_mark ← dmax stored last;
      part ← ddiv percent (of_Z 100);
      kept ← dsub (of_Z 1) part;
      threshold ← dmul high_water_mark kept;
      b ← dle last threshold;
      Ok (b, Some high_water_mark)
  | TimeCondition deadline => Ok (deadline <=? now, None)
  end.
