(* ===== verification/RuleApplication.v ===== *)
(** Persisting rule commands and proposing from a lease: [rules/application.py] and
    [create_conditional_rule] of [service.py].

    The quotes a worker has read are a dictionary it shares with [propose_from_lease], which
    extends it before the risk check; the model returns the dictionary beside the outcome of
    the call, so that it survives an exception.  Reading a command out of an unvalidated
    dictionary is pydantic's work and a parameter. *)

From S2P Require Import Prelude PyDecimal Assets BrokerModels Breakers RiskRules RiskEngine Pnl.
From S2P Require Import Database Lifecycle SessionLogic BreakerStore SafetyState Submission Snapshot RuleRepository PlanTruth PlanLifecycle.
From S2P Require Import ReconcileSession FillImport StatusSync Reconciliation ServiceBase PlanCancel ServiceSync Proposals RuleCommands.
From Stdlib Require Import Ascii Lia.
Local Open Scope Z_scope.

(** * Persisting commands *)

(** [RuleApplicationService._validated]. *)
Definition validated `{!Pydantic} (command : RuleCommand) : outcome RuleCommand :=
  c ← validate_command command;
  if cm_pre_approved c then Raise (ValueError "pre_approved=true is disabled while global auto_execute=false") else Ok c.

Definition setdefault {A} (m : dict A) (k : string) (v : A) : dict A :=
  match dict_get m k with Some _ => m | None => dict_set m k v end.

(** [repr] of a key without quotes. *)
Definition quoted (key : string) : string := "'" +:+ key +:+ "'".

(** The state of the loop: the groups by key, their activation and the rows so far. *)
Record Persisting : Type := mkPersisting {
  pe_groups : dict Z;
  pe_activation : dict Activation;
  pe_rows : list Rule;
}.

Definition group_of_key (key : string) (d : Db) : option RuleGroup :=
  option_map (λ x, x.2.2) (list_find (λ x, g_group_key x.2 = key) (map_to_list (db_groups d))).

Definition desired_group_state (a : Activation) : RuleState := match a with ON_ENTRY_FILL => RS_PENDING | IMMEDIATE => RS_ACTIVE end.

Definition group_accepts (a : Activation) (g : RuleGroup) : bool :=
  match a with IMMEDIATE => in_states [RS_ACTIVE] (g_state g) | ON_ENTRY_FILL => in_states [RS_PENDING; RS_ACTIVE] (g_state g) end.

Definition rules_of_group (group_id : Z) (d : Db) : list Rule :=
  omap (λ id, db_rules d !! id) (select_ids (λ r, ru_group_id r =? group_id) (db_rules d)).

Section Persist.
Context `{Digest} `{!Pydantic, !RuleCodec} (stored_numeric stored_fraction : Decimal → Decimal).

Section Context.
Context (actor reason request_id : string) (plan_id : option Z) (t : time).

(** [_audit] with [created_at]. *)
Definition app_audit (action target_type : string) (target_id : Z) (result_code : string) (detail : dict json) : tx () :=
  persist_audit actor reason request_id action target_type (IdTarget target_id) result_code EmptyString detail true (Some t).

Definition add_group (key : string) (a : Activation) : tx RuleGroup :=
  d ← read;
  let g := mkRuleGroup (next_id (db_groups d)) key (rule_state_value (desired_group_state a)) None None None 0 false t t in
  put_group (g_id g) g ≫= λ _,
  app_audit "rule_group.create" "rule_group" (g_id g) (g_state g) [] ≫= λ _,
  mret g.

(** The group of a key met for the first time. *)
Definition admit_group (key : string) (c : RuleCommand) : tx Z :=
  d ← read;
  g ← match group_of_key key d with
      | None => add_group key (cm_activation c)
      | Some g => if group_accepts (cm_activation c) g then mret g
                  else raise (ValueError ("rule group " +:+ quoted key +:+ " cannot accept " +:+ quoted (activation_value (cm_activation c)) +:+ " rules"))
      end;
  d ← read;
  let existing := rules_of_group (g_id g) d in
  if existsb (λ r, negb (bool_decide (ru_plan_id r = plan_id))) existing
  then raise (ValueError ("rule group " +:+ quoted key +:+ " has different plan ownership"))
  else if existsb (λ r, negb (bool_decide (ru_activation r = activation_value (cm_activation c)))) existing
  then raise (ValueError ("rule group " +:+ quoted key +:+ " has a different persisted activation policy"))
  else mret (g_id g).

Definition new_rule (c : RuleCommand) (group_id : Z) (state : RuleState) (id : Z) : Rule :=
  mkRule id group_id 1 (cm_ticker c) (encode_condition (cm_condition c)) (encode_action (cm_action c)) (rule_state_value state) t
    plan_id (rule_kind_value (cm_kind c)) (stored_fraction <$> cm_fraction c) (stored_numeric <$> cm_high_water_mark c)
    (match cm_kind c, cm_condition c with TIME, TimeCondition deadline => Some deadline | _, _ => None end)
    (cm_pre_approved c) (activation_value (cm_activation c)) (cm_terminal_on_trigger c).

Definition add_rule (c : RuleCommand) (group_id : Z) : tx Rule :=
  d ← read;
  let waiting := bool_decide (cm_activation c = ON_ENTRY_FILL)
                 && match db_groups d !! group_id with Some g => in_states [RS_PENDING] (g_state g) | None => false end in
  let r := new_rule c group_id (if waiting then RS_PENDING else RS_ACTIVE) (next_id (db_rules d)) in
  put_rule (ru_id r) r ≫= λ _,
  app_audit "rule.create" "rule" (ru_id r) (ru_state r) [] ≫= λ _,
  mret r.

(** One command of the loop; [generated] is the key of commands without one. *)
Definition persist_command (generated : string) (st : Persisting) (c : RuleCommand) : tx Persisting :=
  let key := default generated (cm_group_key c) in
  let activations := setdefault (pe_activation st) key (cm_activation c) in
  if negb (bool_decide (dict_get activations key = Some (cm_activation c)))
  then raise (ValueError ("rule group " +:+ quoted key +:+ " mixes activation policies"))
  else
    group_id ← match dict_get (pe_groups st) key with Some g => mret g | None => admit_group key c end;
    r ← add_rule c group_id;
    mret (mkPersisting (setdefault (pe_groups st) key group_id) activations (pe_rows st ++ [r])).
End Context.

(** [persist_commands] at an instant; [generated] is [rule-<uuid>]. *)
Definition persist_commands (generated : string) (commands : list RuleCommand) (plan_id : option Z) (t : time)
    (actor reason request_id : string) : tx (list Rule) :=
  let actor := strip actor in
  let reason := strip reason in
  let request_id := strip request_id in
  if negb (nonempty actor) || negb (nonempty reason) || negb (nonempty request_id)
  then raise (ValueError "rule persistence actor, reason, and request_id must be non-empty")
  else
    commands ← lift (outcome_mapM validated commands);
    match commands with
    | [] => mret []
    | _ => st ← tx_foldl (persist_command actor reason request_id plan_id t generated) (mkPersisting [] [] []) commands;
           mret (pe_rows st)
    end.

(** [create_rule]; the instant is [now] or a reading of the clock. *)
Definition create_rule (generated : string) (command : RuleCommand) (plan_id : option Z) (t : time)
    (actor reason request_id : string) (d : Db) : outcome Z * Db :=
  with_session (
    rows ← persist_commands generated [command] plan_id t actor reason request_id;
    commit ≫= λ _,
    match rows with r :: _ => mret (ru_id r) | [] => raise (OtherException "IndexError") end) d.

(** ** [create_conditional_rule] *)

(** [_typed_rule_condition]. *)
Definition typed_rule_condition (condition : dict json) (kind : string) (deadline : option json) : dict json * string :=
  if bool_decide ("type" ∈ dict_keys condition) then (condition, kind)
  else match condition, deadline with
  | [], Some at_ => if bool_decide (kind = "time") then ([("type", JStr "time"); ("deadline", at_)], kind) else (condition, kind)
  | [(k, v)], _ =>
      if bool_decide (k = "price_below") then ([("type", JStr "price"); ("direction", JStr "below"); ("price", v)], kind)
      else if bool_decide (k = "price_above") then ([("type", JStr "price"); ("direction", JStr "above"); ("price", v)], kind)
      else if bool_decide (k = "trailing_stop_pct")
      then ([("type", JStr "trailing"); ("percent", v)], if bool_decide (kind = "price") then "trailing" else kind)
      else (condition, kind)
  | _, _ => (condition, kind)
  end.

(** The order type of an action that does not name one. *)
Definition typed_action (action : dict json) : dict json :=
  setdefault action "order_type"
    (JStr (match dict_get action "limit_price" with None | Some JNull => "market" | Some _ => "limit" end)).

Definition create_conditional_rule (read_command : dict json → outcome RuleCommand) (generated : string)
    (fields condition action : dict json) (kind : string) (deadline : option json) (plan_id : option Z) (t : time)
    (actor reason request_id : string) (d : Db) : outcome Z * Db :=
  match mutation_context actor reason request_id with
  | Raise e => (Raise e, d)
  | Ok (actor, reason, request_id) =>
      let '(typed_condition, typed_kind) := typed_rule_condition condition kind deadline in
      match (c ← read_command (fields ++ [("kind", JStr typed_kind); ("condition", JObj typed_condition);
                                           ("action", JObj (typed_action action))]); validate_command c) with
      | Raise e => (Raise e, d)
      | Ok command => create_rule generated command plan_id t actor reason request_id d
      end
  end.
End Persist.

(** * Proposing from a lease *)

(** The modelled keys of [RuleOutcome]; [executed] is always [None]. *)
Record RuleOutcome : Type := mkOutcome {
  ro_group_id : Z;
  ro_rule_id : option Z;
  ro_proposal : option ProposeResult;
  ro_oco_canceled : Z;
  ro_error : option string;
}.

Definition failed_outcome (group_id : Z) (rule_id : option Z) (error : string) : RuleOutcome :=
  mkOutcome group_id rule_id None 0 (Some error).

(** How the writing session ends. *)
Inductive Claim : Type :=
| ClaimLost
| PlanMissing
| Claimed (proposal : ProposeResult) (oco_canceled : Z).

Section Propose.
Context `{Digest} `{!Pydantic, !RuleCodec} {W : Type} `{!ProposalWorld W}.
Context (resize_action : string → Decimal → option string) (stored_numeric : Decimal → Decimal).
Context (config : AssetClass → RiskConfig) (config_for_asset : option (AssetClass → RiskConfig)) (startup_key : option string).

Abbreviation svc := (svc W).

(** ** [_bounded_action] *)

(** The quantity of an exit: the wish cut to what is available. *)
Definition bounded_qty (action : RuleAction) (wish available : Decimal) (notional : option Decimal) : outcome (option RuleAction) :=
  least ← dmin wish available;
  qty ← normalize_computed_order_decimal least;
  match qty with
  | None => Ok None
  | Some q => a ← validate_action (mkAction (ra_side action) (ra_order_type action) (Some q) notional (ra_limit_price action)); Ok (Some a)
  end.

Definition bounded_action (c : RuleCommand) (reference_price : option Decimal) : svc (option RuleAction) :=
  let action := cm_action c in
  if negb (exit_kind (cm_kind c)) then mret (Some action)
  else
    available ← exit_available (cm_ticker c) (order_side_value (ra_side action)) reference_price;
    none ← lift_svc (dle available dzero);
    if none : bool then mret None
    else match ra_qty action with
    | Some qty => lift_svc (bounded_qty action qty available (ra_notional action))
    | None =>
        price ← match reference_price with Some p => mret p | None => q ← ask (sb_quote (cm_ticker c)); mret (q_last q) end;
        bad ← lift_svc (dle price dzero);
        if bad : bool then svc_raise (ValueError "reference price must be positive")
        else match ra_notional action with
        | None => svc_raise AssertionError
        | Some notional => lift_svc (wish ← ddiv notional price; bounded_qty action wish available None)
        end
    end.

Section Lease.
Context (actor reason request_id : string) (lease : RuleGroupLease) (rule_id : Z) (now_ : time).

Definition release (marks : list (Z * Decimal)) : svc bool := on_db (release_group validate_numeric lease now_ marks actor reason request_id).

(** The number of this proposal of a plan rule. *)
Definition attempt_number (plan_id : option Z) (d : Db) : Z :=
  match plan_id with
  | None => 1
  | Some _ => Z.of_nat (length (filter (λ x, p_source_rule_id x.2 = Some rule_id) (map_to_list (db_proposals d)))) + 1
  end.

Definition rule_order_key (attempt : Z) : string :=
  let base := "rule-group-" +:+ pretty (rl_group_id lease) +:+ "-rule-" +:+ pretty rule_id in
  if attempt =? 1 then base else base +:+ "-attempt-" +:+ pretty attempt.

Definition rule_request (c : RuleCommand) (a : RuleAction) (attempt : Z) : outcome OrderRequest :=
  order_request (mkOrderRequest (cm_ticker c) (ra_side a) (ra_order_type a) (rule_order_key attempt) (ra_qty a) (ra_notional a)
                   (ra_limit_price a) DAY).

(** Up to the order request: an outcome without one, or the stored rule and the request. *)
Definition prepare_proposal (command : RuleCommand) (reference_price : option Decimal)
    : svc (RuleOutcome + StoredRule * RuleCommand * OrderRequest) :=
  let refuse_with error := mret (inl (failed_outcome (rl_group_id lease) (Some rule_id) error)) in
  c ← lift_svc (validated command);
  loaded ← look (load_rule lease rule_id);
  loaded ← lift_svc loaded;
  match loaded with
  | None => refuse_with "lease_conflict"
  | Some stored =>
      if negb (command_eqb (sr_command stored) c) then svc_raise (ValueError "rule command does not match validated persisted payload")
      else
        failed ← match sr_plan_id stored with
                 | Some plan_id =>
                     if exit_kind (cm_kind c)
                     then q ← quiesce_trade_plan_orders resize_action plan_id true actor reason request_id; mret (negb (qr_failed q =? 0))
                     else mret false
                 | None => mret false
                 end;
        if failed : bool then release [] ≫= λ _, refuse_with "entry_order_cancel_unconfirmed"
        else
          action ← bounded_action c reference_price;
          match action with
          | None => release [] ≫= λ _, refuse_with "no unreserved position to exit"
          | Some a =>
              n ← look (attempt_number (sr_plan_id stored));
              request ← lift_svc (rule_request c a n);
              mret (inr (stored, c, request))
          end
  end.

(** ** The writing session *)

Definition live_siblings (d : Db) : Z :=
  Z.of_nat (length (matching_ids (λ r, (ru_group_id r =? rl_group_id lease) && negb (ru_id r =? rule_id)
                                        && bool_decide (ru_state r ∈ LIVE_RULE_STATES)) (db_rules d))).

(** Whether the claim ends the group. *)
Definition terminal_group (stored : StoredRule) (c : RuleCommand) (risk : RiskResult) : bool :=
  match sr_plan_id stored with
  | Some _ => false
  | None => cm_terminal_on_trigger c && (negb (rejected risk) || negb (exit_kind (cm_kind c)))
  end.

Definition claim_rule (stored : StoredRule) (c : RuleCommand) (risk : RiskResult) (hwm : option Decimal) : tx bool :=
  let terminal_state := if rejected risk then RS_FAILED else RS_TRIGGERED in
  match sr_plan_id stored with
  | Some _ => claim_proposal_in validate_numeric lease rule_id now_ hwm actor reason request_id
  | None =>
      if terminal_group stored c risk
      then claim_terminal_in validate_numeric lease rule_id now_ terminal_state hwm actor reason request_id
      else claim_progress_in validate_numeric lease rule_id now_ terminal_state hwm actor reason request_id
  end.

(** The proposal of the claimed rule, everything that goes with it, and the commit. *)
Definition store_rule_proposal (stored : StoredRule) (request : OrderRequest) (risk : RiskResult) (generation : Z) (o : Order) : rtx ProposeResult :=
  let ttl := proposal_ttl_minutes (config (for_symbol (BrokerModels.o_ticker request))) in
  on_session (
    add_proposal (λ id, mkProposal id (o_id o) (Some (rl_group_id lease)) (Some rule_id) generation reason ttl now_ (now_ + ttl * minute)) ≫= λ _,
    tx_iter (λ text, persist_risk (Some (o_id o)) "rejection" text) (reasons risk) ≫= λ _,
    tx_iter (λ text, persist_risk (Some (o_id o)) "warning" text) (warnings risk) ≫= λ _,
    tx_iter (λ i, trip_in_session (i_scope i) (i_reason i) actor request_id now_ (Some reason) ≫= λ _, mret ()) (breaker_trips risk) ≫= λ _,
    app_audit actor reason request_id now_ "order.propose" "order" (o_id o) (o_status o)
      [("source", JStr "conditional_rule"); ("rule_id", JInt rule_id); ("rule_group_id", JInt (rl_group_id lease))]) ≫= λ _,
  match sr_plan_id stored with
  | None => mret ()
  | Some _ => clock ← now; on_session (reconcile_plan_lifecycle_in_session resize_action now_ clock actor reason request_id) ≫= λ _, mret ()
  end ≫= λ _,
  on_session commit ≫= λ _,
  o ← on_session (get_order (o_id o));
  mret (mkProposeResult (o_id o) (o_status o) (approved risk) (reasons risk) (warnings risk) false).

Definition claim_session (stored : StoredRule) (c : RuleCommand) (request : OrderRequest) (risk : RiskResult) (hwm : option Decimal) : rtx Claim :=
  siblings ← on_session (d ← read; mret (live_siblings d));
  claimed ← on_session (claim_rule stored c risk hwm);
  if negb claimed then on_session rollback ≫= λ _, mret ClaimLost
  else
    o ← store_order stored_numeric request (if rejected risk then REJECTED else PROPOSED) "simple" "{}";
    d ← on_session read;
    match sr_plan_id stored, sr_plan_id stored ≫= (λ id, db_plans d !! id) with
    | Some _, None => on_session rollback ≫= λ _, mret PlanMissing
    | _, plan =>
        p ← store_rule_proposal stored request risk (match plan with Some row => tp_residual_generation row | None => 0 end) o;
        mret (Claimed p (if terminal_group stored c risk then siblings else 0))
    end.

(** The risk check and the session. *)
Definition settle_proposal (stored : StoredRule) (c : RuleCommand) (request : OrderRequest) (snapshot : PortfolioSnapshot)
    (hwm : option Decimal) : svc RuleOutcome :=
  risk ← lift_svc (verdict config request snapshot);
  claim ← in_session (claim_session stored c request risk hwm);
  match claim with
  | Claimed p oco => mret (mkOutcome (rl_group_id lease) (Some rule_id) (Some p) oco None)
  | PlanMissing => mret (failed_outcome (rl_group_id lease) (Some rule_id) "plan_not_found")
  | ClaimLost =>
      match sr_plan_id stored with Some _ => release [] ≫= λ _, mret () | None => mret () end ≫= λ _,
      mret (failed_outcome (rl_group_id lease) (Some rule_id) "lease_conflict")
  end.
End Lease.

(** The quotes a snapshot starts from. *)
Definition snapshot_overrides (overrides cache : dict Quote) (ticker : string) (reference_quote : option Quote) : dict Quote :=
  let merged := foldl (λ m x, setdefault m x.1 x.2) overrides cache in
  match reference_quote with Some q => setdefault merged ticker q | None => merged end.

(** [propose_from_lease]: the outcome of the call and the quotes it leaves in the cache. *)
Definition propose_from_lease (lease : RuleGroupLease) (rule_id : Z) (command : RuleCommand) (now_ : time)
    (reference_price : option Decimal) (reference_quote : option Quote) (overrides cache : dict Quote) (hwm : option Decimal)
    (actor reason request_id : string) : svc (outcome RuleOutcome * dict Quote) :=
  let actor := strip actor in
  let reason := strip reason in
  let request_id := strip request_id in
  if negb (nonempty actor) || negb (nonempty reason) || negb (nonempty request_id)
  then mret (Raise (ValueError "rule proposal actor, reason, and request_id must be non-empty"), cache)
  else
    prepared ← attempt (prepare_proposal actor reason request_id lease rule_id now_ command reference_price);
    match prepared with
    | Raise e => mret (Raise e, cache)
    | Ok (inl o) => mret (Ok o, cache)
    | Ok (inr (stored, c, request)) =>
        snapshot ← attempt (take_snapshot stored_numeric config_for_asset startup_key request
                              (snapshot_overrides overrides cache (BrokerModels.o_ticker request) reference_quote));
        match snapshot with
        | Raise e => mret (Raise e, cache)
        | Ok snapshot =>
            let cache := foldl (λ m x, setdefault m (upper x.1) x.2) cache (quotes snapshot) in
            r ← attempt (settle_proposal actor reason request_id lease rule_id now_ stored c request snapshot hwm);
            mret (r, cache)
        end
    end.
End Propose.
