(* ===== verification/RuleWorker.v ===== *)
(** The rule evaluator ([rules/worker.py]): one tick over the active groups.

    The clock and the quote reader are constructor arguments of [RuleWorker]; the market clock
    of the service is the third thing a tick asks the outside.  They are operations of the
    world ([WorkerWorld]) and may raise.  Notifications leave no trace in the state. *)

From S2P Require Import Prelude PyDecimal Assets BrokerModels Breakers RiskRules RiskEngine Pnl MarketClock.
From S2P Require Import Database Lifecycle SessionLogic BreakerStore SafetyState Submission Snapshot RuleRepository PlanTruth PlanLifecycle.
From S2P Require Import ReconcileSession FillImport StatusSync Reconciliation ServiceBase PlanCancel ServiceSync Proposals RuleCommands RuleApplication.
From Stdlib Require Import Ascii Lia.
Local Open Scope Z_scope.

Class WorkerWorld (W : Type) : Type := {
  ww_proposals :: ProposalWorld W;
  ww_market_is_open : string → W → outcome bool * W;
  ww_read_quote : string → W → outcome Quote * W;
}.

(** [except ValueError]: the class and its subclasses. *)
Definition is_value_error (e : exn) : bool :=
  match e with ValueError _ | RuleLeaseChronologyError _ | BrokerDataIntegrityError _ => true | _ => false end.

(** [except (ScheduledMarketDataDenied, LimitStoreUnavailable)]. *)
Definition data_denied (e : exn) : bool :=
  match e with ScheduledMarketDataDenied | LimitStoreUnavailable _ => true | _ => false end.

(** What the loop over the rules of a group leaves in its variables. *)
Record Evaluation : Type := mkEvaluation {
  ev_marks : list (Z * Decimal);
  ev_quotes : dict Quote;
  ev_last : StoredRule;
  ev_fired : option (StoredRule * Quote * option Decimal);
}.

(** The default lease time. *)
Definition LEASE_TTL : Z := 30 * second.

Section Worker.
Context `{Digest} `{!Pydantic, !RuleCodec} {W : Type} `{!WorkerWorld W}.
Context (resize_action : string → Decimal → option string) (stored_numeric : Decimal → Decimal).
Context (config : AssetClass → RiskConfig) (config_for_asset : option (AssetClass → RiskConfig)) (startup_key : option string).
Context (max_quote_age_seconds : Decimal) (owner : string).

Abbreviation svc := (svc W).

Section Tick.
Context (actor reason request_id : string).

(** A quote from the tick's dictionary, else read. *)
Definition quote_for (quotes : dict Quote) (ticker : string) : svc (outcome Quote) :=
  match dict_get quotes ticker with Some q => mret (Ok q) | None => call (ww_read_quote ticker) end.

(** [high_water_marks[rule_id] = mark], when there is one: in place, or at the end. *)
Fixpoint set_mark (marks : list (Z * Decimal)) (id : Z) (mark : Decimal) : list (Z * Decimal) :=
  match marks with
  | [] => [(id, mark)]
  | (k, m) :: marks => if k =? id then (k, mark) :: marks else (k, m) :: set_mark marks id mark
  end.
Definition put_mark (marks : list (Z * Decimal)) (id : Z) (mark : option Decimal) : list (Z * Decimal) :=
  match mark with None => marks | Some m => set_mark marks id m end.

(** One rule: the quotes it leaves, and whether it fires with its mark, or what it raised. *)
Definition evaluate_rule (now_ : time) (quotes : dict Quote) (stored : StoredRule)
    : svc (dict Quote * outcome (option (Quote * bool * option Decimal))) :=
  let c := sr_command stored in
  is_open ← call (ww_market_is_open (cm_ticker c));
  match is_open with
  | Raise e => mret (quotes, Raise e)
  | Ok false => mret (quotes, Ok None)
  | Ok true =>
      read_ ← quote_for quotes (cm_ticker c);
      match read_ with
      | Raise e => mret (quotes, Raise e)
      | Ok quote =>
          let quotes := setdefault quotes (cm_ticker c) quote in
          if is_stale (q_as_of quote) now_ max_quote_age_seconds DEFAULT_MAX_FUTURE_SKEW_SECONDS then mret (quotes, Ok None)
          else mret (quotes, x ← fires c (q_last quote) now_; Ok (Some (quote, x.1, x.2)))
      end
  end.

(** The [for] loop with its early exit; an exception keeps what the variables held. *)
Fixpoint evaluate (now_ : time) (ev : Evaluation) (rules : list StoredRule) : svc (Evaluation * option exn) :=
  match rules with
  | [] => mret (ev, None)
  | stored :: rules =>
      tried ← evaluate_rule now_ (ev_quotes ev) stored;
      match tried with
      | (quotes, Raise e) => mret (mkEvaluation (ev_marks ev) quotes stored None, Some e)
      | (quotes, Ok None) => evaluate now_ (mkEvaluation (ev_marks ev) quotes stored None) rules
      | (quotes, Ok (Some (quote, does_fire, mark))) =>
          let marks := put_mark (ev_marks ev) (sr_id stored) mark in
          if does_fire : bool then mret (mkEvaluation marks quotes stored (Some (stored, quote, mark)), None)
          else evaluate now_ (mkEvaluation marks quotes stored None) rules
      end
  end.

Definition fired_id (ev : Evaluation) : option Z := match ev_fired ev with Some (s, _, _) => Some (sr_id s) | None => None end.

Section Group.
Context (group_id : Z) (lease : RuleGroupLease) (now_ : time).

Abbreviation give_back := (release actor reason request_id lease now_).

(** The three [except] clauses: the outcome of a group whose evaluation raised. *)
Definition settle_exception (ev : Evaluation) (e : exn) : svc RuleOutcome :=
  if data_denied e then
    on_db (breaker_trip (scope_data (for_symbol (cm_ticker (sr_command (ev_last ev))))) "scheduled market data allowance unavailable"
             actor request_id now_ (Some reason)) ≫= λ _,
    give_back (ev_marks ev) ≫= λ _,
    mret (failed_outcome group_id (Some (default (sr_id (ev_last ev)) (fired_id ev))) "rule_evaluation_failed")
  else if is_value_error e then
    give_back [] ≫= λ _, mret (failed_outcome group_id (fired_id ev) "rule_evaluation_invalid")
  else mret (failed_outcome group_id (fired_id ev) "rule_evaluation_failed").

(** The [try] block of a leased group with rules. *)
Definition run_rules (quotes : dict Quote) (first : StoredRule) (rules : list StoredRule) : svc (option RuleOutcome * dict Quote) :=
  evaluated ← evaluate now_ (mkEvaluation [] quotes first None) (first :: rules);
  let '(ev, error) := evaluated in
  match error, ev_fired ev with
  | Some e, _ => o ← settle_exception ev e; mret (Some o, ev_quotes ev)
  | None, None =>
      tried ← attempt (give_back (ev_marks ev));
      match tried with
      | Ok _ => mret (None, ev_quotes ev)
      | Raise e => o ← settle_exception ev e; mret (Some o, ev_quotes ev)
      end
  | None, Some (stored, quote, mark) =>
      proposed ← propose_from_lease resize_action stored_numeric config config_for_asset startup_key lease (sr_id stored) (sr_command stored) now_
                   (Some (q_last quote)) None [] (ev_quotes ev) mark actor reason request_id;
      match proposed.1 with
      | Ok o => mret (Some o, proposed.2)
      | Raise e => o ← settle_exception ev e; mret (Some o, proposed.2)
      end
  end.

(** What follows a granted lease. *)
Definition run_leased (quotes : dict Quote) : svc (option RuleOutcome * dict Quote) :=
  loaded ← look (load_stored lease);
  match loaded with
  | Raise _ => give_back [] ≫= λ _, mret (Some (failed_outcome group_id None "rule_load_failed"), quotes)
  | Ok [] => give_back [] ≫= λ _, mret (None, quotes)
  | Ok (first :: rules) => run_rules quotes first rules
  end.
End Group.

(** One group: the outcomes so far and the quotes read so far. *)
Definition tick_group (st : list RuleOutcome * dict Quote) (group_id : Z) : svc (list RuleOutcome * dict Quote) :=
  now_ ← svc_now;
  leased ← attempt (on_db (lease_group owner group_id now_ LEASE_TTL actor reason request_id));
  match leased with
  | Raise (RuleLeaseChronologyError _) | Ok None => mret st
  | Raise e => svc_raise e
  | Ok (Some lease) =>
      r ← run_leased group_id lease now_ st.2;
      mret (st.1 ++ option_list r.1, r.2)
  end.

Definition tick_held : svc (list RuleOutcome) :=
  t ← svc_now;
  on_store (λ clock, expire_stale_proposals resize_action t clock actor reason request_id) ≫= λ _,
  ids ← look active_group_ids;
  st ← svc_foldl tick_group ([], []) ids;
  mret st.1.
End Tick.

(** [tick]. *)
Definition tick (actor reason request_id : string) : svc (list RuleOutcome) :=
  let actor := strip actor in
  let reason := strip reason in
  let request_id := strip request_id in
  if negb (nonempty actor) || negb (nonempty reason) || negb (nonempty request_id)
  then svc_raise (ValueError "rule worker actor, reason, and request_id must be non-empty")
  else tick_held actor reason request_id.
End Worker.
