(* ===== verification/ProposalLogic.v ===== *)
(** How proposals and rules move the database: [Quiet] relations admit everything the rule
    layer does but adding rows, and [extends] admits that too.

    [extends] is what the order system asks of a component it does not know ([SOther]),
    together with the integrity of the order table. *)

From S2P Require Import Prelude PyDecimal Assets BrokerModels Breakers RiskRules RiskEngine.
From S2P Require Import Database Lifecycle SessionLogic BreakerStore OrderRepository RepositoryLogic RepositoryProofs SafetyState Snapshot.
From S2P Require Import RuleRepository RuleProofs PlanTruth PlanTruthProofs PlanLifecycle PlanLifecycleLogic PlanLifecycleProofs.
From S2P Require Import Submission OrderSystem.
From S2P Require Import ReconcileSession FillImport StatusSync Reconciliation ReconcileLogic ReconcileProofs Panic PanicProofs.
From S2P Require Import ServiceBase PlanCancel PlanCancelProofs ServiceSync ServiceProofs Proposals RuleCommands RuleApplication RuleWorker.
From Stdlib Require Import Ascii Lia.
Local Open Scope Z_scope.

(** * The order table *)

(** Rows are stored under their id, keys are unique and no order was claimed twice. *)
Record orders_wf (d : Db) : Prop := {
  ow_rows : ∀ id o, db_orders d !! id = Some o → o_id o = id ∧ attempts_ok o;
  ow_keys : ∀ i j o o', db_orders d !! i = Some o → db_orders d !! j = Some o' → o_idempotency_key o = o_idempotency_key o' → i = j;
}.

Record extends (d d' : Db) : Prop := {
  ex_orders : orders_forward d d';
  ex_wf : orders_wf d → orders_wf d';
  ex_proposals : db_proposals d ⊆ db_proposals d';
  ex_breakers : ∀ k r, db_breakers d !! k = Some r → ∃ r', db_breakers d' !! k = Some r' ∧ breaker_evolves r r';
  ex_audit : db_audit d `prefix_of` db_audit d';
}.

#[export] Instance extends_preorder : PreOrder extends.
Proof.
  split.
  - intros d. split; try done. intros k r Hr. exists r. by repeat split.
  - intros x y z [] []. split; try (by etrans); [auto|]. intros k r Hr. edestruct ex_breakers0 as (r1 & H1 & [T1 G1]); [done|].
    edestruct ex_breakers1 as (r2 & H2 & [T2 G2]); [done|]. exists r2. split; [done|]. split; [auto|lia].
Qed.

Lemma rows_evolve_wf d d' : rows_move order_evolves (db_orders d) (db_orders d') → orders_wf d → orders_wf d'.
Proof.
  intros Hm [Hr Hk].
  assert (∀ id o', db_orders d' !! id = Some o' → ∃ o, db_orders d !! id = Some o ∧ order_evolves o o') as Hback.
  { intros id o' Ho'. specialize (Hm id). rewrite Ho' in Hm. destruct (db_orders d !! id) as [o|]; [eauto|done]. }
  split.
  - intros id o' (o & Ho & He)%Hback. destruct (Hr id o Ho) as [Hid Ha]. split; [by rewrite (oe_id _ _ He)|by apply (oe_attempts _ _ He)].
  - intros i j o o' (o1 & Ho1 & E1)%Hback (o2 & Ho2 & E2)%Hback Hkey. apply (Hk i j o1 o2 Ho1 Ho2).
    by rewrite <- (oe_key _ _ E1), <- (oe_key _ _ E2).
Qed.

Lemma moves_by_extends d d' : moves_by order_evolves d d' → extends d d'.
Proof.
  intros [Ho Hp Hb Ha]. split; [|by apply rows_evolve_wf|by rewrite Hp|done|done].
  intros id o Hid. specialize (Ho id). rewrite Hid in Ho. destruct (db_orders d' !! id) as [o'|]; [eauto|done].
Qed.

#[export] Instance extends_admits : Admits extends.
Proof.
  split; [apply _|intros; apply moves_by_extends..]; [by apply ad_plans|by eapply ad_order|apply ad_fills|apply ad_cursors|apply ad_groups|apply ad_rules].
Qed.

Lemma extends_releases : releases extends.
Proof. intros d id o o' Ho He. by eapply moves_by_extends, evolves_releases. Qed.

Lemma extends_resolves {W} `{!ReconcileBroker W, !AcceptanceStatuses W} `{Digest} : resolves (W := W) extends.
Proof. intros k w remote w' Hcall id t a b c d. by eapply moves_by_extends, evolves_resolves. Qed.

(** ** Bulk updates and the account mark *)

Class Quiet (R : Db → Db → Prop) : Prop := {
  qt_admits :: Admits R;
  qt_rows d orders : rows_move order_evolves (db_orders d) orders → R d (set_db_orders orders d);
  qt_account d marks : R d (set_db_account_risk marks d);
  qt_releases : releases R;
}.

#[export] Instance quiet_preorder R `{!Quiet R} : PreOrder R := ad_preorder.

#[export] Instance moves_by_quiet : Quiet (moves_by order_evolves).
Proof.
  split; [apply _| |intros; apply moves_by_rest; [apply _|done..]|apply evolves_releases]. intros d orders Hm. split; try done.
  intros k r Hr. exists r. by repeat split.
Qed.

#[export] Instance extends_quiet : Quiet extends.
Proof. split; [apply _|intros; apply moves_by_extends..|apply extends_releases]; [by apply qt_rows|apply qt_account]. Qed.

(** * Transactions that commit or roll back *)

Section Settle.
Context (R : Db → Db → Prop) `{!Quiet R}.

Lemma si_rollback : settles_in R rollback.
Proof. by intros s d0. Qed.
Lemma si_commit : settles_in R commit.
Proof. by intros s d0. Qed.
Lemma si_guarded {A} (m : tx A) : settles_in R m → settles_in R (guarded m).
Proof. intros Hm s d0 Hd Hw. destruct (Hm s d0 Hd Hw). unfold guarded. by destruct (m s) as [[]]. Qed.
Lemma si_iter {A} (f : A → tx ()) l : (∀ a, settles_in R (f a)) → settles_in R (tx_iter f l).
Proof. intros Hf. induction l as [|x l IH]; [by intros s d0|]. by apply si_bind. Qed.
Lemma kt_of_si {A} (m : tx A) : settles_in R m → keeps_to R (on_session m).
Proof. intros Hm s d0 Hd Hw. destruct (Hm (r_session s) d0 Hd Hw). unfold on_session. by destruct (m _). Qed.
Lemma si_ret {A} (a : A) : settles_in R (mret a).
Proof. by intros s d0. Qed.
Lemma si_raise {A} e : settles_in R (raise (A := A) e).
Proof. by intros s d0. Qed.
Lemma si_lift {A} (m : outcome A) : settles_in R (lift m).
Proof. by intros s d0. Qed.
Lemma si_read : settles_in R read.
Proof. by intros s d0. Qed.

Context `{Digest}.

Lemma si_rule_audit actor reason request_id action tt id code : settles_in R (rule_audit actor reason request_id action tt id code).
Proof. apply si_moves, moves_plan; [apply _..|]. intros s. split; [done|]. apply (wi_moves nothing), within_audit. Qed.
Lemma si_persist_audit actor reason request_id action tt target code key detail proof t :
  settles_in R (persist_audit actor reason request_id action tt target code key detail proof t).
Proof. apply si_moves; [apply _|]. apply moves_persist_audit, _. Qed.
Lemma si_update_group id pred f : settles_in R (update_group id pred f).
Proof.
  apply si_moves; [apply _|]. intros s. unfold moves_at. rewrite update_group_run. destruct (_ !! id) as [g|]; [|done].
  destruct (pred g); [|done]. split; [done|]. apply ad_groups.
Qed.
Lemma si_update_groups pred f : settles_in R (update_groups pred f).
Proof. apply si_moves; [apply _|]. intros s. split; [done|]. apply ad_groups. Qed.
Lemma si_update_rules pred f : settles_in R (update_rules pred f).
Proof. apply si_moves; [apply _|]. intros s. split; [done|]. apply ad_rules. Qed.
End Settle.

Create HintDb settle.
#[export] Hint Resolve si_rollback si_commit si_ret si_raise si_lift si_read si_rule_audit si_persist_audit si_update_group si_update_groups si_update_rules : settle.

(** Step through a transaction, closing the leaves with the hints. *)
Ltac settle := repeat (first [solve [eauto 3 with settle typeclass_instances] | apply si_bind; [|intros ?] | apply si_guarded
  | apply si_iter; intros ? | case_match]).

(** * The rule layer *)

Section Rules.
Context (R : Db → Db → Prop) `{!Quiet R} `{Digest} (validate_hwm : Decimal → outcome Decimal).

(** A proposed order may be canceled. *)
Lemma cancel_row_evolves t o : o_status o = order_status_value PROPOSED →
  order_evolves o (set_o_updated_at t (set_o_status (order_status_value CANCELED) o)).
Proof.
  intros Ho. assert (transition o CANCELED t = Ok (set_o_updated_at t (set_o_status (order_status_value CANCELED) o))) as Ht.
  { unfold transition. by rewrite Ho. }
  by apply quiet_transition in Ht as [? _].
Qed.

Lemma si_cancel_proposed gids t actor reason request_id : settles_in R (cancel_proposed_orders gids t actor reason request_id).
Proof.
  apply si_moves; [apply _|]. intros s. apply moves_at_read. cbv zeta. apply moves_at_bind; [apply _|split; [done|]|].
  - cbn. apply qt_rows. intros id. rewrite map_lookup_imap. destruct (db_orders (working s) !! id) as [o|]; [|done]. cbn.
    destruct (bool_decide (o_status o = _)) eqn:Hs; [|done]. cbn. apply bool_decide_eq_true_1 in Hs.
    destruct (match _ with Some _ => _ | None => _ end); [by apply cancel_row_evolves|done].
  - intros [] s' _. apply moves_iter; [apply _|]. intros id. apply moves_plan; [apply _|]. intros s1. split; [done|]. apply (wi_moves nothing), within_audit.
Qed.
#[local] Hint Resolve si_cancel_proposed : settle.

Lemma si_claim_proposal lease id t hwm a b c : settles_in R (claim_proposal_in validate_hwm lease id t hwm a b c).
Proof. unfold claim_proposal_in, update_one_rule. settle. Qed.
Lemma si_claim_terminal lease id t st hwm a b c : settles_in R (claim_terminal_in validate_hwm lease id t st hwm a b c).
Proof. unfold claim_terminal_in, update_one_rule, cancel_rules, end_plan, cancel_groups, cancel_rules. settle. Qed.
Lemma si_claim_progress lease id t st hwm a b c : settles_in R (claim_progress_in validate_hwm lease id t st hwm a b c).
Proof. unfold claim_progress_in, update_one_rule. settle. Qed.

Lemma lease_group_kept owner gid t ttl a b c d : R d (lease_group owner gid t ttl a b c d).2.
Proof.
  unfold lease_group. destruct (rule_context a b c) as [[[a' b'] c']|e]; [|done]. destruct (ttl <=? 0); [done|].
  apply si_session; [apply _|]. settle.
Qed.

Lemma release_group_kept lease t marks a b c d : R d (release_group validate_hwm lease t marks a b c d).2.
Proof.
  unfold release_group. destruct (rule_context a b c) as [[[a' b'] c']|e]; [|done]. destruct (outcome_mapM _ marks); [|done].
  apply si_session; [apply _|]. unfold store_hwm. settle.
Qed.
End Rules.
#[export] Hint Resolve si_cancel_proposed si_claim_proposal si_claim_terminal si_claim_progress : settle.

(** * What asks, reads and releases *)

Section Asking.
Context (R : Db → Db → Prop) `{!Quiet R} {W : Type}.

Lemma sv_ask {A} (f : W → outcome A * W) : serves R (ask f).
Proof. unfold ask. serve. Qed.

Lemma assemble_kept stored_numeric cfg key pv tickers ac exclude overrides required d :
  R d (assemble stored_numeric cfg key pv tickers ac exclude overrides required d).2.
Proof.
  unfold assemble. destruct (_ ≫= _) as [[[[v quotes] wanted] complete]|e]; [|done].
  destruct (account_high_water_mark_of _ _ _ _ d) as [mark d1] eqn:Em.
  assert (R d d1) as Hd.
  { unfold account_high_water_mark_of in Em. destruct (negb _); injection Em as _ <-; [done|apply qt_account]. }
  by destruct (head tickers).
Qed.

Context `{!ProposalWorld W}.

Lemma sv_observe : serves (W := W) R observe.
Proof. intros s. unfold observe. by destruct (pw_observe _). Qed.

Lemma sv_take_snapshot stored_numeric cfg key request overrides :
  serves (W := W) R (take_snapshot stored_numeric cfg key request overrides).
Proof.
  unfold take_snapshot. pose proof sv_observe. serve. apply sv_on_db. intros d. apply assemble_kept.
Qed.

Lemma sv_exit_available ticker side price : serves (W := W) R (exit_available ticker side price).
Proof. unfold exit_available, reserve_order. pose proof (@sv_ask). serve. Qed.
End Asking.

Section Preparing.
Context (R : Db → Db → Prop) `{!Quiet R} `{Digest} `{!Pydantic, !RuleCodec} {W : Type} `{!ProposalWorld W}.
Context (resize_action : string → Decimal → option string) (Hres : resolves (W := W) R).

Lemma sv_bounded_action c price : serves (W := W) R (bounded_action c price).
Proof. unfold bounded_action. pose proof (@sv_ask R _ W). pose proof (sv_exit_available R (W := W)). serve. Qed.

Lemma sv_release actor reason request_id lease t marks : serves (W := W) R (release actor reason request_id lease t marks).
Proof. apply sv_on_db. intros d. apply release_group_kept, _. Qed.

Lemma sv_prepare actor reason request_id lease rule_id t command price :
  serves (W := W) R (prepare_proposal resize_action actor reason request_id lease rule_id t command price).
Proof.
  unfold prepare_proposal. pose proof (sv_bounded_action). pose proof (sv_release actor reason request_id lease t).
  assert (∀ plan b, serves (W := W) R (quiesce_trade_plan_orders resize_action plan b actor reason request_id)).
  { intros. apply sv_with_context; [apply _|]. intros. exact (sv_quiesce resize_action R _ _ _ Hres qt_releases _ _). }
  serve.
Qed.
End Preparing.

(** * New rows *)

Lemma key_taken_false key d : key_taken key d = false ↔ ∀ id o, db_orders d !! id = Some o → o_idempotency_key o ≠ key.
Proof.
  unfold key_taken. rewrite <- not_true_iff_false, existsb_exists. split.
  - intros Hn id o Ho Hkey. apply Hn. exists (id, o). split; [by apply list_elem_of_In, elem_of_map_to_list|]. by apply bool_decide_eq_true_2.
  - intros Hall ([id o] & Hin & Hb). apply list_elem_of_In, elem_of_map_to_list in Hin. apply bool_decide_eq_true_1 in Hb. by apply (Hall id o).
Qed.

Lemma extends_order d id o : db_orders d !! id = None → key_taken (o_idempotency_key o) d = false → o_id o = id → attempts_ok o →
  extends d (set_db_orders (<[id := o]> (db_orders d)) d).
Proof.
  intros Hn Hk Hid Ha. rewrite key_taken_false in Hk. split; try done; cbn.
  - intros i x Hx. exists x. cbn. by rewrite lookup_insert_ne by congruence.
  - intros [Hr Hu]. split; cbn.
    + intros i x [[<- <-]|[_ Hx]]%lookup_insert_Some; [done|by apply Hr].
    + intros i j x y [[<- <-]|[Hi Hx]]%lookup_insert_Some [[<- <-]|[Hj Hy]]%lookup_insert_Some Hkey; [done|..|by eapply Hu].
      * by destruct (Hk j y Hy).
      * by destruct (Hk i x Hx).
  - intros k r Hr. exists r. by repeat split.
Qed.

Lemma moves_add_order row : (∀ id, o_id (row id) = id ∧ attempts_ok (row id)) → moves extends (add_order row).
Proof.
  intros Hrow s. apply moves_at_read. cbv zeta. destruct (Hrow (next_id (db_orders (working s)))) as [Hid Ha].
  destruct (key_taken _ _) eqn:Hk; [by apply moves_here, moves_raise, _|]. split; [done|]. cbn. rewrite Hid.
  apply extends_order; [apply next_id_fresh|done..].
Qed.

Lemma moves_add_proposal row : moves extends (add_proposal row).
Proof.
  intros s. apply moves_at_read. cbv zeta. case_bool_decide as Hp; [by apply moves_here, moves_raise, _|]. split; [done|]. cbn.
  apply eq_None_not_Some in Hp. split; try done; cbn.
  - by apply same_orders_forward.
  - by intros [? ?].
  - by apply insert_subseteq.
  - intros k r Hr. exists r. by repeat split.
Qed.

Lemma new_order_ok stored_numeric request st kind payload t1 t2 id :
  o_id (new_order stored_numeric request st kind payload t1 t2 id) = id ∧ attempts_ok (new_order stored_numeric request st kind payload t1 t2 id).
Proof. split; [done|]. split; [cbn; lia|done]. Qed.

Lemma kt_store_order stored_numeric request st kind payload : keeps_to extends (store_order stored_numeric request st kind payload).
Proof. unfold store_order. keep. apply kt_session; [apply _|]. apply moves_add_order. intros. apply new_order_ok. Qed.

Lemma kt_store_proposal id ttl reasoning : keeps_to extends (store_proposal id ttl reasoning).
Proof. unfold store_proposal. keep. apply kt_session; [apply _|]. apply moves_add_proposal. Qed.

(** * The methods of the service *)

Section Growing.
Context `{Digest} {W : Type} `{!ProposalWorld W}.
Context (stored_numeric : Decimal → Decimal) (parse_decimal : string → outcome Decimal).
Context (config : AssetClass → RiskConfig) (config_for_asset : option (AssetClass → RiskConfig)) (startup_key : option string).

Section Sessions.
Context (actor reason request_id : string).

Lemma moves_persist_risk id kind text : moves extends (persist_risk id kind text).
Proof.
  apply moves_write. intros d. apply moves_by_extends, moves_by_rest; [apply _|done..].
Qed.

Lemma kt_settle_verdict o result s :
  db_orders (wrk s) !! o_id o = Some o → keeps_at extends (settle_verdict o result) s.
Proof.
  intros Ho. unfold settle_verdict. destruct (rejected result); [|by apply kt_ret]. apply ka_now. intros t s' Es. apply (ka_lift extends). intros o' Ht.
  match goal with |- keeps_at _ (_ ≫= ?k) _ => apply ka_bind; [|intros [] ? _; apply kt_ret] end.
  apply ka_session; [apply _|]. apply moves_at_bind; [apply _| |intros; apply moves_persist_risk].
  split; [done|]. eapply ad_order; [by rewrite Es|by eapply quiet_transition].
Qed.

(** The row a session has just added. *)
Lemma add_order_Ok row s o s' : add_order row s = (Ok o, s') →
  o = row (next_id (db_orders (working s))) ∧ key_taken (o_idempotency_key o) (working s) = false
  ∧ s' = mkSession (durable s) (set_db_orders (<[o_id o := o]> (db_orders (working s))) (working s)).
Proof. unfold add_order, mbind, tx_bind, read. destruct (key_taken _ _) eqn:Hk; [done|]. by intros [= <- <-]. Qed.

Lemma add_proposal_Ok row s u s' : add_proposal row s = (Ok u, s') →
  ∃ id, let p := row id in s' = mkSession (durable s) (set_db_proposals (<[p_order_id p := p]> (db_proposals (working s))) (working s)).
Proof.
  unfold add_proposal, mbind, tx_bind, read. destruct (bool_decide _); [done|]. intros [= _ <-]. eexists. reflexivity.
Qed.
End Sessions.
End Growing.
