(* ===== verification/ProposalProofs.v ===== *)
(** What the proposing methods of the service do: the rows they add, what they refuse, and
    that no error leaves a trace. *)

From S2P Require Import Prelude PyDecimal Assets BrokerModels Breakers RiskRules RiskEngine.
From S2P Require Import Database Lifecycle SessionLogic BreakerStore OrderRepository RepositoryLogic RepositoryProofs SafetyState Snapshot.
From S2P Require Import RuleRepository RuleProofs PlanTruth PlanTruthProofs PlanLifecycle PlanLifecycleLogic PlanLifecycleProofs.
From S2P Require Import Submission OrderSystem.
From S2P Require Import ReconcileSession FillImport StatusSync Reconciliation ReconcileLogic ReconcileProofs Panic PanicProofs.
From S2P Require Import ServiceBase PlanCancel PlanCancelProofs ServiceSync ServiceProofs Proposals RuleCommands RuleApplication RuleWorker.
From S2P Require Import ProposalLogic.
From Stdlib Require Import Ascii Lia.
Local Open Scope Z_scope.

(** * Sessions that leave the orders and proposals alone *)

Definition rows (d : Db) : gmap Z Order * gmap Z Proposal := (db_orders d, db_proposals d).

Definition same_rows (d d' : Db) : Prop := rows d' = rows d.

#[export] Instance same_rows_preorder : PreOrder same_rows.
Proof. split; unfold same_rows; [done|congruence]. Qed.

(** Nothing durable happens, and the working copy moves along a preorder. *)
Section Quietly.
Context (R : Db → Db → Prop) `{!PreOrder R}.

Definition quietly {A} (m : rtx A) : Prop := ∀ s, dur (m s).2 = dur s ∧ R (wrk s) (wrk (m s).2).

Lemma quietly_ret {A} (a : A) : quietly (mret a).
Proof. by intros s. Qed.
Lemma quietly_now : quietly now.
Proof. by intros s. Qed.
Lemma quietly_session {A} (m : tx A) : moves R m → quietly (on_session m).
Proof. intros Hm s. destruct (Hm (r_session s)) as [Hd Hw]. unfold on_session. by destruct (m _). Qed.
Lemma quietly_bind {A B} (m : rtx A) (f : A → rtx B) : quietly m → (∀ a, quietly (f a)) → quietly (m ≫= f).
Proof.
  intros Hm Hf s. destruct (Hm s) as [Hd Hw]. unfold mbind, rtx_bind. destruct (m s) as [[a|e] s']; [|done].
  destruct (Hf a s') as [Hd' Hw']. split; [by rewrite Hd'|by etrans].
Qed.
Lemma quietly_iter {A} (f : A → rtx ()) l : (∀ a, quietly (f a)) → quietly (rtx_iter f l).
Proof. intros Hf. induction l as [|x l IH]; [apply quietly_ret|]. by apply quietly_bind. Qed.
End Quietly.

(** The two tables stay. *)
Abbreviation still := (quietly same_rows).

Lemma still_run {A} (m : rtx A) s r s' : still m → m s = (r, s') → dur s' = dur s ∧ db_orders (wrk s') = db_orders (wrk s) ∧ db_proposals (wrk s') = db_proposals (wrk s).
Proof. intros Hm E. destruct (Hm s) as [Hd Hw]. rewrite E in *. cbn in *. split; [done|]. by injection Hw as -> ->. Qed.

Section Rows.
Context `{Digest} (actor reason request_id : string).

Lemma same_trip scope detail a rq t ar : moves same_rows (trip_in_session scope detail a rq t ar).
Proof.
  intros s. destruct (trip_inputs_ok detail a rq ar) eqn:Hin.
  - unfold moves_at. by rewrite trip_in_session_ok.
  - destruct (trip_in_session_bad scope detail a rq t ar s Hin) as [m E]. unfold moves_at. by rewrite E.
Qed.
Lemma same_risk id kind text : moves same_rows (persist_risk id kind text).
Proof. by intros s. Qed.
Lemma same_audit action tt target code key detail proof t : moves same_rows (persist_audit actor reason request_id action tt target code key detail proof t).
Proof. by intros s. Qed.

Lemma still_trip_here scope detail : still (trip_here actor reason request_id scope detail).
Proof.
  apply quietly_bind; [apply _|by apply quietly_now, _|intros t].
  apply quietly_bind; [apply _|apply quietly_session; [apply same_trip]|intros; by apply quietly_ret, _].
Qed.

(** The audit row and the commit that end a session. *)
Lemma audit_commit action tt target code key detail proof t s r s' :
  on_session (persist_audit actor reason request_id action tt target code key detail proof t ≫= λ _, commit) s = (r, s') →
  r = Ok () ∧ rows (dur s') = rows (wrk s) ∧ db_breakers (dur s') = db_breakers (wrk s).
Proof. by intros [= <- <-]. Qed.
End Rows.

(** * The row of a proposal *)

Section Added.
Context (stored_numeric : Decimal → Decimal).

(** [d'] is [d] with one order, under a new id and a new key, and its proposal. *)
Record order_added (d d' : Db) (request : OrderRequest) (status : OrderStatus) (kind payload : string) (ttl id : Z) : Prop := {
  oa_fresh : db_orders d !! id = None;
  oa_key : key_taken (BrokerModels.o_idempotency_key request) d = false;
  oa_order : ∃ created updated,
    db_orders d' = <[id := new_order stored_numeric request status kind payload created updated id]> (db_orders d);
  oa_proposal : ∃ p t, db_proposals d' = <[id := p]> (db_proposals d) ∧ p_order_id p = id ∧ p_ttl_minutes p = ttl
    ∧ p_expires_at p = t + ttl * minute ∧ p_source_rule_id p = None;
}.

Lemma store_order_Ok request st kind payload s o s' : store_order stored_numeric request st kind payload s = (Ok o, s') →
  ∃ created updated, let id := next_id (db_orders (wrk s)) in
    o = new_order stored_numeric request st kind payload created updated id
    ∧ key_taken (BrokerModels.o_idempotency_key request) (wrk s) = false ∧ dur s' = dur s
    ∧ wrk s' = set_db_orders (<[id := o]> (db_orders (wrk s))) (wrk s).
Proof.
  intros (t1 & s1 & [= <- <-] & (t2 & s2 & [= <- <-] & Hx)%rtx_bind_Ok)%rtx_bind_Ok. unfold on_session in Hx. cbn in Hx.
  destruct (add_order _ _) as [r x] eqn:E. injection Hx as -> <-. apply add_order_Ok in E as (-> & Hk & ->). do 2 eexists. by repeat split.
Qed.

Lemma store_order_durable request st kind payload s r s' : store_order stored_numeric request st kind payload s = (r, s') → dur s' = dur s.
Proof.
  assert (∀ row, keeps_durable (add_order row)) as Hk by (intros; unfold add_order, put_order; keeps).
  unfold store_order, mbind, rtx_bind, now, on_session. cbn [r_session r_clock]. specialize (Hk (new_order stored_numeric request st kind payload
    (r_clock s 0%nat) (r_clock s 1%nat)) (r_session s)). destruct (add_order _ _). by intros [= _ <-].
Qed.

Lemma store_proposal_run id ttl reasoning s r s' : store_proposal id ttl reasoning s = (r, s') →
  dur s' = dur s ∧ (r = Ok () → ∃ p t, wrk s' = set_db_proposals (<[id := p]> (db_proposals (wrk s))) (wrk s)
    ∧ p_order_id p = id ∧ p_ttl_minutes p = ttl ∧ p_expires_at p = t + ttl * minute ∧ p_source_rule_id p = None).
Proof.
  unfold store_proposal, mbind, rtx_bind, now, on_session. cbn. destruct (add_proposal _ _) as [x s1] eqn:E. intros [= <- <-]. cbn. split.
  - revert E. unfold add_proposal, mbind, tx_bind, read. destruct (bool_decide _); by intros [= _ <-].
  - intros ->. apply add_proposal_Ok in E as [k ->]. cbn. do 2 eexists. by repeat split.
Qed.
End Added.

(** * [propose_order] *)

Section Propose.
Context `{Digest} {W : Type} `{!ProposalWorld W}.
Context (stored_numeric : Decimal → Decimal) (parse_decimal : string → outcome Decimal).
Context (config : AssetClass → RiskConfig) (config_for_asset : option (AssetClass → RiskConfig)) (startup_key : option string).

Section Context.
Context (actor reason request_id : string).

Definition verdict_status (result : RiskResult) : OrderStatus := if approved result then PROPOSED else REJECTED.

(** Settling the verdict of a row just added. *)
Lemma settle_verdict_run request payload created updated id result s r s' :
  settle_verdict (new_order stored_numeric request PROPOSED "simple" payload created updated id) result s = (r, s') →
  dur s' = dur s ∧ db_proposals (wrk s') = db_proposals (wrk s)
  ∧ ∃ updated', let o' := new_order stored_numeric request (verdict_status result) "simple" payload created updated' id in
      r = Ok o' ∧ (db_orders (wrk s) !! id = Some (new_order stored_numeric request PROPOSED "simple" payload created updated id) →
                   db_orders (wrk s') = <[id := o']> (db_orders (wrk s))).
Proof.
  unfold settle_verdict, verdict_status, rejected. destruct (approved result); cbn [negb].
  - intros [= <- <-]. repeat split. exists updated. split; [done|]. intros Ho. by rewrite insert_id.
  - intros [= <- <-]. repeat split. exists (r_clock s 0%nat). by split.
Qed.

(** Tripping the breakers the verdict asks for. *)
Lemma trips_run intents : ∀ s u s', rtx_iter (λ i, trip_here actor reason request_id (i_scope i) (i_reason i)) intents s = (Ok u, s') →
  (∀ i, i ∈ intents → is_tripped (i_scope i) (wrk s') = true) ∧ ∀ sc, is_tripped sc (wrk s) = true → is_tripped sc (wrk s') = true.
Proof.
  induction intents as [|i intents IH]; intros s u s'; cbn [rtx_iter].
  - intros [= _ <-]. split; [by intros i ?%elem_of_nil|done].
  - intros ([] & s1 & H1 & H2)%rtx_bind_Ok. apply IH in H2 as [Hall Hmono].
    assert (∀ sc, is_tripped sc (wrk s) = true → is_tripped sc (wrk s1) = true) as Hkeep.
    { intros sc Hs. destruct (decide (scope_key sc = scope_key (i_scope i))) as [E|Hne].
      - apply trip_here_Ok in H1 as (Ht & _ & _). unfold is_tripped in *. by rewrite E.
      - by rewrite (trip_here_other _ _ _ _ _ _ _ _ _ H1 Hne). }
    apply trip_here_Ok in H1 as (Ht & _ & _). split; [|auto]. intros j [->|Hj]%elem_of_cons; auto.
Qed.

(** The writing session: an error leaves nothing, and a return the row, its proposal and the
    tripped breakers. *)
Lemma propose_session_run request result d c r d' c' :
  with_rsession (propose_session stored_numeric config actor reason request_id request result) d c = (r, d', c') →
  match r with
  | Raise _ => d' = d
  | Ok res =>
      order_added stored_numeric d d' request (verdict_status result) "simple" (simple_payload (BrokerModels.o_time_in_force request))
        (proposal_ttl_minutes (config (for_symbol (BrokerModels.o_ticker request)))) (po_order_id res)
      ∧ res = mkProposeResult (po_order_id res) (order_status_value (verdict_status result)) (approved result) (reasons result) (warnings result) false
      ∧ ∀ i, i ∈ breaker_trips result → is_tripped (i_scope i) d' = true
  end.
Proof.
  unfold with_rsession. destruct (propose_session _ _ _ _ _ _ _ _) as [x s'] eqn:E. intros [= -> <- <-].
  unfold propose_session in E. set (s0 := mkR (mkSession d d) d [] [] c) in E. unfold mbind at 1, rtx_bind at 1 in E.
  destruct (store_order _ _ _ _ _ s0) as [[o|e] s1] eqn:E1; [|injection E as <- <-; by apply store_order_durable in E1].
  apply store_order_Ok in E1 as (created & updated & -> & Hkey & Hd1 & Hw1). change (dur s0) with d in Hd1. change (wrk s0) with d in Hkey, Hw1 |- *.
  unfold mbind at 1, rtx_bind at 1 in E. destruct (store_proposal _ _ _ s1) as [u s2] eqn:E2. apply store_proposal_run in E2 as [Hd2 Hw2].
  destruct u as [[]|e]; [|injection E as <- <-; congruence]. destruct (Hw2 eq_refl) as (p & t & Hw & Hp). clear Hw2.
  unfold mbind at 1, rtx_bind at 1 in E. destruct (settle_verdict _ _ s2) as [v s3] eqn:E3.
  apply settle_verdict_run in E3 as (Hd3 & Hp3 & updated' & -> & Ho3).
  set (o' := new_order _ _ (verdict_status result) _ _ _ _ _) in *.
  unfold mbind at 1, rtx_bind at 1 in E. destruct (on_session (tx_iter _ (warnings result)) s3) as [w s4] eqn:E4.
  apply still_run in E4 as (Hd4 & Ho4 & Hp4); [|apply quietly_session, moves_iter; [apply _|]; intros; apply same_risk].
  destruct w as [[]|e]; [|injection E as <- <-; congruence].
  unfold mbind at 1, rtx_bind at 1 in E. destruct (rtx_iter _ (breaker_trips result) s4) as [w s5] eqn:E5.
  pose proof (still_run _ _ _ _ (quietly_iter same_rows _ _ (λ i, still_trip_here actor reason request_id (i_scope i) (i_reason i))) E5) as (Hd5 & Ho5 & Hp5).
  destruct w as [[]|e]; [|injection E as <- <-; congruence]. apply trips_run in E5 as [Ht5 _].
  unfold mbind at 1, rtx_bind at 1 in E. destruct (on_session (persist_audit _ _ _ _ _ _ _ _ _ _ _ ≫= _) s5) as [w s6] eqn:E6.
  apply audit_commit in E6 as (-> & Hr6 & Hb6). injection E as <- <-. injection Hr6 as Ho6 Hp6. cbn [po_order_id].
  split; [|split; [done|]].
  - split; [apply next_id_fresh|done| |].
    + exists created, updated'. fold o'. rewrite Ho6, Ho5, Ho4, Ho3; rewrite Hw, Hw1; cbn; [by rewrite insert_insert_eq|by rewrite lookup_insert_eq].
    + exists p, t. split; [|exact Hp]. rewrite Hp6, Hp5, Hp4, Hp3, Hw, Hw1. done.
  - intros i Hi. unfold is_tripped. rewrite Hb6. by apply Ht5.
Qed.

(** The rows of a database decide where a row is added. *)
Lemma order_added_base d d1 d' request st kind payload ttl id : rows d1 = rows d →
  order_added stored_numeric d1 d' request st kind payload ttl id → order_added stored_numeric d d' request st kind payload ttl id.
Proof.
  intros [= Ho Hp] [Hf Hk Hno Hnp]. unfold key_taken in *. rewrite Ho in Hf, Hk, Hno. rewrite Hp in Hnp. by split.
Qed.

(** The key a proposal is stored under. *)
Definition order_key (idempotency_key : option string) (fresh : string) : string :=
  match idempotency_key with Some k => if nonempty k then k else fresh | None => fresh end.

Lemma existing_order_Some key d o : existing_order key d = Some o → o_idempotency_key o = key ∧ ∃ id, db_orders d !! id = Some o.
Proof.
  unfold existing_order. destruct (list_find _ _) as [[n [id x]]|] eqn:E; [|done]. intros [= <-].
  apply list_find_Some in E as (Hin & Hk & _). split; [done|]. exists id. apply elem_of_map_to_list. by eapply list_elem_of_lookup_2.
Qed.

Lemma existing_order_None key d : existing_order key d = None ↔ key_taken key d = false.
Proof.
  unfold existing_order. rewrite key_taken_false. destruct (list_find _ _) as [[n [i x]]|] eqn:E; cbn.
  - split; [done|]. apply list_find_Some in E as (Hin & Hk & _). intros Hall. destruct (Hall i x); [|done].
    apply elem_of_map_to_list. by eapply list_elem_of_lookup_2.
  - split; [|done]. intros _ id o Ho Hk. apply list_find_None in E. rewrite Forall_forall in E. apply (E (id, o)); [|done]. by apply elem_of_map_to_list.
Qed.

Lemma assemble_rows cfg key pv tickers ac exclude overrides required d : rows (assemble stored_numeric cfg key pv tickers ac exclude overrides required d).2 = rows d.
Proof.
  unfold assemble. destruct (_ ≫= _) as [[[[v quotes] wanted] complete]|e]; [|done].
  destruct (account_high_water_mark_of _ _ _ _ d) as [mark d1] eqn:Em.
  assert (rows d1 = rows d) as Hd. { unfold account_high_water_mark_of in Em. by destruct (negb _); injection Em as _ <-. }
  by destruct (head tickers).
Qed.

(** The outcome of a call of [propose_order], by how it ends. *)
Definition propose_ends (terms : OrderTerms) (idempotency_key : option string) (fresh : string) (s s' : SvcState W) (r : outcome ProposeResult) : Prop :=
  let key := order_key idempotency_key fresh in
  match r with
  | Raise _ => rows (sv_db s') = rows (sv_db s)
  | Ok res =>
      if po_idempotent_replay res
      then sv_db s' = sv_db s ∧ ∃ id o, db_orders (sv_db s) !! id = Some o ∧ o_idempotency_key o = key ∧ res = replayed o
      else ∃ request snapshot result,
             terms_request parse_decimal terms key = Ok request
             ∧ (assemble stored_numeric config_for_asset startup_key (pw_observe (sv_world s)).1 [BrokerModels.o_ticker request]
                  (for_symbol (BrokerModels.o_ticker request)) None [] false (sv_db s)).1 = Ok snapshot
             ∧ check (config (for_symbol (BrokerModels.o_ticker request))) request snapshot = Ok result
             ∧ order_added stored_numeric (sv_db s) (sv_db s') request (verdict_status result) "simple"
                 (simple_payload (BrokerModels.o_time_in_force request))
                 (proposal_ttl_minutes (config (for_symbol (BrokerModels.o_ticker request)))) (po_order_id res)
             ∧ po_approved_by_risk res = approved result
             ∧ ∀ i, i ∈ breaker_trips result → is_tripped (i_scope i) (sv_db s') = true
  end.

Lemma propose_held_ends terms idempotency_key fresh (s s' : SvcState W) r :
  propose_held stored_numeric parse_decimal config config_for_asset startup_key actor reason request_id terms idempotency_key fresh s = (r, s') →
  propose_ends terms idempotency_key fresh s s' r.
Proof.
  unfold propose_held. change (match idempotency_key with Some k => if nonempty k then k else fresh | None => fresh end) with (order_key idempotency_key fresh).
  set (key := order_key idempotency_key fresh). intros E. unfold mbind at 1, svc_bind at 1 in E.
  assert (∃ ex, (match idempotency_key with None => mret None | Some _ => look (existing_order key) end : svc W (option Order)) s = (Ok ex, s)
                ∧ (∀ o, ex = Some o → existing_order key (sv_db s) = Some o)) as (ex & Hex & Hsome).
  { destruct idempotency_key; eexists; (split; [reflexivity|]); naive_solver. }
  rewrite Hex in E. destruct ex as [o|].
  { injection E as <- <-. cbn. split; [done|]. destruct (existing_order_Some key _ o (Hsome o eq_refl)) as [Hk [id Hid]]. by exists id, o. }
  unfold mbind at 1, svc_bind at 1, lift_svc in E. destruct (terms_request parse_decimal terms key) as [request|e] eqn:Hreq; [|by injection E as <- <-].
  unfold take_snapshot in E. unfold mbind at 1, svc_bind at 1 in E. unfold mbind at 1, svc_bind at 1, observe in E.
  destruct (pw_observe (sv_world s)) as [pv w] eqn:Hpv. unfold on_db in E. cbn [sv_db] in E.
  pose proof (assemble_rows config_for_asset startup_key pv [BrokerModels.o_ticker request] (for_symbol (BrokerModels.o_ticker request)) None [] false (sv_db s)) as Hrows.
  destruct (assemble _ _ _ _ _ _ _ _ _ _) as [[snapshot|e] d1] eqn:Ha; [|by injection E as <- <-]. cbn [snd] in Hrows.
  unfold mbind at 1, svc_bind at 1, lift_svc in E. destruct (verdict config request snapshot) as [result|e] eqn:Hv; [|by injection E as <- <-].
  unfold in_session in E. cbn [sv_db sv_clock] in E. destruct (with_rsession _ _ _) as [[x d'] c'] eqn:Hs. injection E as <- <-.
  apply propose_session_run in Hs. destruct x as [res|e]; cbn; [|by rewrite Hs].
  destruct Hs as (Hadd & Hres & Ht). rewrite Hres. cbn. exists request, snapshot, result. rewrite Hpv. cbn. rewrite Ha.
  split_and!; try done. by eapply order_added_base.
Qed.

End Context.
End Propose.
