(* ===== verification/ProposalSystem.v ===== *)
(** Every proposing method, the rule application and the rule worker stay within [extends]. *)

From S2P Require Import Prelude PyDecimal Assets BrokerModels Breakers RiskRules RiskEngine.
From S2P Require Import Database Lifecycle SessionLogic BreakerStore OrderRepository RepositoryLogic RepositoryProofs SafetyState Snapshot.
From S2P Require Import RuleRepository RuleProofs PlanTruth PlanTruthProofs PlanLifecycle PlanLifecycleLogic PlanLifecycleProofs.
From S2P Require Import Submission OrderSystem.
From S2P Require Import ReconcileSession FillImport StatusSync Reconciliation ReconcileLogic ReconcileProofs Panic PanicProofs.
From S2P Require Import ServiceBase PlanCancel PlanCancelProofs ServiceSync ServiceProofs Proposals RuleCommands RuleApplication RuleWorker.
From S2P Require Import ProposalLogic ProposalProofs.
From Stdlib Require Import Ascii Lia.
Local Open Scope Z_scope.

#[export] Hint Resolve kt_store_order kt_store_proposal moves_persist_risk : reconcile.

(** A session that ends with an audit row and the commit. *)
Lemma kt_audit_commit `{Digest} actor reason request_id action tt target code key detail proof t :
  keeps_to extends (on_session (persist_audit actor reason request_id action tt target code key detail proof t ≫= λ _, commit)).
Proof. apply kt_then_commit; [apply _|]. apply moves_persist_audit, _. Qed.
#[export] Hint Resolve kt_audit_commit : reconcile.

(** An order added in this session, changed later in it. *)
Lemma ka_stored {B} stored_numeric request st kind payload (k : Order → rtx B) s :
  (∀ o s', db_orders (wrk s') !! o_id o = Some o → keeps_at extends (k o) s') →
  keeps_at extends (store_order stored_numeric request st kind payload ≫= k) s.
Proof.
  intros Hk. apply ka_bind; [apply kt_store_order|]. intros o s' E. apply Hk.
  apply store_order_Ok in E as (t1 & t2 & -> & _ & _ & Hw). rewrite Hw. cbn. by rewrite lookup_insert_eq.
Qed.

Section Service.
Context `{Digest} {W : Type} `{!ProposalWorld W}.
Context (stored_numeric : Decimal → Decimal) (parse_decimal : string → outcome Decimal).
Context (config : AssetClass → RiskConfig) (config_for_asset : option (AssetClass → RiskConfig)) (startup_key : option string).

Section Context.
Context (actor reason request_id : string).

Lemma kt_risk_events id kind texts : keeps_to extends (on_session (tx_iter (λ w, persist_risk id kind w) texts)).
Proof. apply kt_session; [apply _|]. apply moves_iter; [apply _|]. intros. apply moves_persist_risk. Qed.

Lemma kt_propose_session request result : keeps_to extends (propose_session stored_numeric config actor reason request_id request result).
Proof.
  intros s. apply ka_stored. intros o s1 Ho. apply ka_bind; [apply kt_store_proposal|]. intros [] s2 E2.
  apply store_proposal_run in E2 as [_ Hw]. destruct (Hw eq_refl) as (p & t & Hw2 & _).
  apply ka_bind; [apply kt_settle_verdict; by rewrite Hw2|]. intros o' s3 _.
  match goal with |- keeps_at extends ?m s3 => assert (keeps_to extends m) as Hk; [|apply Hk] end.
  pose proof kt_risk_events. pose proof (kt_trip_here extends actor reason request_id). keep.
Qed.

Lemma sv_propose terms key fresh :
  serves (W := W) extends (propose_held stored_numeric parse_decimal config config_for_asset startup_key actor reason request_id terms key fresh).
Proof.
  unfold propose_held. pose proof (sv_take_snapshot extends (W := W) stored_numeric config_for_asset startup_key).
  serve; (apply sv_in_session; [apply _|]; apply kt_propose_session).
Qed.

Lemma kt_bracket_session request tp sl : keeps_to extends (bracket_session stored_numeric config actor reason request_id request tp sl).
Proof. unfold bracket_session. keep. Qed.

Lemma sv_bracket supports request tp sl :
  serves (W := W) extends (bracket_held stored_numeric parse_decimal config actor reason request_id supports request tp sl).
Proof. unfold bracket_held. serve; (apply sv_in_session; [apply _|]; apply kt_bracket_session). Qed.

Lemma kt_reject_session id : keeps_to extends (reject_session actor reason request_id id).
Proof.
  intros s. apply (ka_read extends). destruct (db_orders (wrk s) !! id) as [o|] eqn:Ho; [|by apply kt_ret]. destruct (negb _); [by apply kt_ret|].
  apply ka_now. intros t s1 Es. apply (ka_lift extends). intros o' Ht. apply ka_bind; [|intros [] ? _; apply kt_ret].
  intros d0 Hd Hw. rewrite <- Es in Ho.
  assert (extends (wrk s1) (set_db_orders (<[id := o']> (db_orders (wrk s1))) (wrk s1))) as Hput by (eapply ad_order; [exact Ho|by eapply quiet_transition]).
  assert (settles_in extends (persist_risk (Some (o_id o)) "rejection" reason ≫= λ _,
    persist_audit actor reason request_id "order.reject" "order" (IdTarget id) (order_status_value REJECTED) EmptyString [] true None ≫= λ _, commit)) as Hrest.
  { apply si_bind; [apply si_moves, moves_persist_risk; apply _|]. intros _. settle. }
  destruct (Hrest (mkSession (dur s1) (set_db_orders (<[id := o']> (db_orders (wrk s1))) (wrk s1))) d0 Hd) as [H1 H2]; [cbn; by etrans|].
  split; [exact H1|exact H2].
Qed.

Lemma kt_cancel_rule_session id key : keeps_to extends (cancel_rule_session actor reason request_id id key).
Proof.
  unfold cancel_rule_session, cancel_rule_row, cancel_last_group.
  assert (∀ A (m : tx A), settles_in extends m → keeps_to extends (on_session m)) as Hsi by (intros; by apply kt_of_si).
  keep; apply Hsi; settle.
Qed.
End Context.

Lemma sv_methods_propose terms key fresh actor reason request_id :
  serves (W := W) extends (propose_order stored_numeric parse_decimal config config_for_asset startup_key terms key fresh actor reason request_id).
Proof. apply sv_with_context; [apply _|]. intros. apply sv_propose. Qed.

Lemma sv_replace resize_action `{!AcceptanceStatuses W} id terms key fresh actor reason request_id :
  serves (W := W) extends (replace_order stored_numeric parse_decimal config config_for_asset startup_key resize_action id terms key fresh actor reason request_id).
Proof.
  apply sv_with_context; [apply _|]. intros a b c. pose proof sv_methods_propose.
  assert (serves (W := W) extends (cancel_live_order resize_action id a b c)).
  { apply sv_with_context; [apply _|]. intros. exact (sv_cancel_live resize_action extends _ _ _ extends_resolves extends_releases _). }
  serve.
Qed.
End Service.

(** * Rules *)

Section Rules.
Context `{Digest} `{!Pydantic, !RuleCodec} (stored_numeric stored_fraction : Decimal → Decimal).

Lemma si_app_audit (R : Db → Db → Prop) `{!Quiet R} actor reason request_id t action tt id code detail :
  settles_in R (app_audit actor reason request_id t action tt id code detail).
Proof. apply si_persist_audit, _. Qed.
#[local] Hint Resolve si_app_audit : settle.

Lemma si_put_group (R : Db → Db → Prop) `{!Quiet R} id g : settles_in R (put_group id g).
Proof. apply si_moves; [apply _|]. apply moves_write. intros d. apply ad_groups. Qed.
Lemma si_put_rule (R : Db → Db → Prop) `{!Quiet R} id r : settles_in R (put_rule id r).
Proof. apply si_moves; [apply _|]. apply moves_write. intros d. apply ad_rules. Qed.
#[local] Hint Resolve si_put_group si_put_rule : settle.

Lemma si_foldl (R : Db → Db → Prop) `{!Quiet R} {A B} (f : A → B → tx A) l : (∀ a b, settles_in R (f a b)) → ∀ a, settles_in R (tx_foldl f a l).
Proof. intros Hf. induction l as [|x l IH]; intros a; [apply si_ret|]. by apply si_bind. Qed.

Lemma si_persist_command (R : Db → Db → Prop) `{!Quiet R} actor reason request_id plan_id t generated st c :
  settles_in R (persist_command stored_numeric stored_fraction actor reason request_id plan_id t generated st c).
Proof. unfold persist_command, admit_group, add_group, add_rule. settle. Qed.

Lemma si_persist_commands (R : Db → Db → Prop) `{!Quiet R} generated commands plan_id t actor reason request_id :
  settles_in R (persist_commands stored_numeric stored_fraction generated commands plan_id t actor reason request_id).
Proof.
  unfold persist_commands. pose proof (si_persist_command R). settle; (apply si_foldl; [apply _|]); auto.
Qed.

Lemma create_rule_kept (R : Db → Db → Prop) `{!Quiet R} generated c plan_id t actor reason request_id d :
  R d (create_rule stored_numeric stored_fraction generated c plan_id t actor reason request_id d).2.
Proof. unfold create_rule. apply si_session; [apply _|]. pose proof (si_persist_commands R). settle. Qed.
End Rules.

Section Worker.
Context `{Digest} `{!Pydantic, !RuleCodec} {W : Type} `{!ProposalWorld W} `{!AcceptanceStatuses W}.
Context (resize_action : string → Decimal → option string) (stored_numeric : Decimal → Decimal).
Context (config : AssetClass → RiskConfig) (config_for_asset : option (AssetClass → RiskConfig)) (startup_key : option string).

Section Lease.
Context (actor reason request_id : string) (lease : RuleGroupLease) (rule_id : Z) (now_ : time).

Lemma kt_claim_rule stored c risk hwm : keeps_to extends (on_session (claim_rule actor reason request_id lease rule_id now_ stored c risk hwm)).
Proof. apply kt_of_si. unfold claim_rule. settle. Qed.

Lemma si_trip (R : Db → Db → Prop) `{!Quiet R} scope detail a rq t ar : settles_in R (trip_in_session scope detail a rq t ar).
Proof. apply si_moves; [apply _|]. apply moves_trip_in_session, _. Qed.
#[local] Hint Resolve si_trip : settle.

Lemma kt_store_rule_proposal stored request risk generation o :
  keeps_to extends (store_rule_proposal resize_action config actor reason request_id lease rule_id now_ stored request risk generation o).
Proof.
  unfold store_rule_proposal. pose proof (kt_get_order extends).
  assert (∀ row, settles_in extends (add_proposal row)) by (intros; apply si_moves, moves_add_proposal; apply _).
  assert (∀ id kind text, settles_in extends (persist_risk id kind text)) by (intros; apply si_moves, moves_persist_risk; apply _).
  assert (∀ clock, settles_in extends (reconcile_plan_lifecycle_in_session resize_action now_ clock actor reason request_id)).
  { intros. apply si_moves; [apply _|]. apply moves_plan; [apply _|]. apply moves_reconcile_in_session. }
  keep; apply kt_of_si; unfold app_audit; settle.
Qed.

Lemma kt_claim_session stored c request risk hwm :
  keeps_to extends (claim_session resize_action stored_numeric config actor reason request_id lease rule_id now_ stored c request risk hwm).
Proof.
  unfold claim_session. pose proof (kt_claim_rule stored c risk hwm). pose proof (kt_store_rule_proposal stored request risk).
  assert (keeps_to extends (on_session rollback)) by apply kt_of_si, si_rollback.
  keep; apply kt_of_si; settle.
Qed.

Lemma sv_settle_proposal stored c request snapshot hwm :
  serves (W := W) extends (settle_proposal resize_action stored_numeric config actor reason request_id lease rule_id now_ stored c request snapshot hwm).
Proof.
  unfold settle_proposal. pose proof (sv_release extends (W := W) actor reason request_id lease now_).
  serve; (apply sv_in_session; [apply _|]; apply kt_claim_session).
Qed.
End Lease.

Lemma sv_propose_from_lease lease rule_id c t price quote overrides cache hwm actor reason request_id :
  serves (W := W) extends (propose_from_lease resize_action stored_numeric config config_for_asset startup_key lease rule_id c t price quote overrides
    cache hwm actor reason request_id).
Proof.
  unfold propose_from_lease. pose proof (sv_take_snapshot extends (W := W) stored_numeric config_for_asset startup_key) as Hs.
  pose proof (λ a b c, sv_prepare extends (W := W) resize_action extends_resolves a b c) as Hp. pose proof sv_settle_proposal as Hst.
  serve; apply sv_attempt; auto.
Qed.
End Worker.

Section Tick.
Context `{Digest} `{!Pydantic, !RuleCodec} {W : Type} `{!WorkerWorld W} `{!AcceptanceStatuses W}.
Context (resize_action : string → Decimal → option string) (stored_numeric : Decimal → Decimal).
Context (config : AssetClass → RiskConfig) (config_for_asset : option (AssetClass → RiskConfig)) (startup_key : option string).
Context (max_quote_age_seconds : Decimal) (owner : string).

Section Context.
Context (R : Db → Db → Prop) `{!Quiet R} (actor reason request_id : string).

Lemma sv_evaluate now_ rules : ∀ ev, serves (W := W) R (evaluate max_quote_age_seconds now_ ev rules).
Proof. induction rules as [|x rules IH]; intros ev; cbn [evaluate]; unfold evaluate_rule, quote_for; serve. Qed.

Lemma sv_settle_exception group_id lease now_ ev e : serves (W := W) R (settle_exception actor reason request_id group_id lease now_ ev e).
Proof.
  unfold settle_exception. pose proof (sv_release R (W := W) actor reason request_id lease now_).
  serve; (apply sv_on_db; intros; apply breaker_trip_admitted, _).
Qed.

Lemma expire_stale_kept t clock d : R d (expire_stale_proposals resize_action t clock actor reason request_id d).2.
Proof.
  apply ad_plans. destruct (expire_stale_proposals _ _ _ _ _ _ d) as [r d'] eqn:E. by apply expire_moves in E.
Qed.
End Context.

Section Whole.
Context (actor reason request_id : string).

Lemma sv_run_rules group_id lease now_ quotes first rules :
  serves (W := W) extends (run_rules resize_action stored_numeric config config_for_asset startup_key max_quote_age_seconds actor reason request_id
    group_id lease now_ quotes first rules).
Proof.
  unfold run_rules. pose proof (sv_evaluate extends). pose proof (sv_settle_exception extends actor reason request_id).
  pose proof (sv_propose_from_lease (W := W) resize_action stored_numeric config config_for_asset startup_key).
  pose proof (sv_release extends (W := W) actor reason request_id lease now_).
  serve; by apply sv_attempt.
Qed.

Lemma sv_tick_group st group_id :
  serves (W := W) extends (tick_group resize_action stored_numeric config config_for_asset startup_key max_quote_age_seconds owner actor reason request_id st group_id).
Proof.
  unfold tick_group, run_leased. pose proof sv_run_rules. pose proof (λ l t, sv_release extends (W := W) actor reason request_id l t).
  assert (∀ t, serves (W := W) extends (attempt (on_db (lease_group owner group_id t LEASE_TTL actor reason request_id)))).
  { intros t. apply sv_attempt, sv_on_db. intros d. apply lease_group_kept, _. }
  serve.
Qed.

Lemma sv_tick_held :
  serves (W := W) extends (tick_held resize_action stored_numeric config config_for_asset startup_key max_quote_age_seconds owner actor reason request_id).
Proof.
  unfold tick_held. pose proof sv_tick_group. serve; (apply sv_on_store; intros; apply expire_stale_kept, _).
Qed.
End Whole.

Lemma sv_tick actor reason request_id :
  serves (W := W) extends (tick resize_action stored_numeric config config_for_asset startup_key max_quote_age_seconds owner actor reason request_id).
Proof. unfold tick. pose proof sv_tick_held. serve. Qed.
End Tick.
