(* ===== verification/RuleCommandProofs.v ===== *)
(** Facts about rule commands: validation is a normal form, stored commands are read back,
    computed quantities are rounded down to their column, and trailing marks only rise. *)

From S2P Require Import Prelude PyDecimal Assets BrokerModels Database Lifecycle Submission RuleRepository PlanTruth PlanLifecycle RuleCommands.
From Stdlib Require Import Ascii Lia.
Local Open Scope Z_scope.

(** * Computed quantities *)

(** Stripping zeros moves digits into the exponent. *)
Lemma strip_zeros_digits fuel : ∀ c e, 0 < c →
  let '(c', e') := strip_zeros fuel c e in 0 < c' ∧ ndigits c' + e' = ndigits c + e.
Proof.
  induction fuel as [|fuel IH]; intros c e Hc; cbn [strip_zeros]; [done|]. destruct (Z.eqb_spec (c mod 10) 0) as [Hm|_]; [|done].
  pose proof (Z.div_mod c 10 ltac:(lia)) as Hd. assert (0 < c / 10) as Hpos by lia.
  specialize (IH (c / 10) (e + 1) Hpos). destruct (strip_zeros fuel (c / 10) (e + 1)) as [c' e']. destruct IH as [Hc' IH]. split; [done|].
  rewrite IH. destruct (ndigits_spec c ltac:(lia)) as (L1 & L2 & L3). destruct (ndigits_spec (c / 10) ltac:(lia)) as (M1 & M2 & M3).
  rewrite Z.abs_eq in L2, L3, M2, M3 by lia.
  assert (ndigits (c / 10) + 1 ≤ ndigits c).
  { apply Z.nlt_ge. intros Hlt. assert (10 ^ ndigits c ≤ 10 ^ ndigits (c / 10)) by (apply Z.pow_le_mono_r; lia).
    assert (10 ^ ndigits (c / 10) = 10 * 10 ^ (ndigits (c / 10) - 1)) by (rewrite <- Z.pow_succ_r by lia; f_equal; lia). lia. }
  assert (ndigits c ≤ ndigits (c / 10) + 1).
  { apply Z.nlt_ge. intros Hlt. assert (10 ^ (ndigits (c / 10) + 1) ≤ 10 ^ (ndigits c - 1)) by (apply Z.pow_le_mono_r; lia).
    rewrite Z.pow_add_r in * by lia. lia. }
  lia.
Qed.

(** The digits before the point, against the limit. *)
Lemma whole_digits_over c e : 0 < c → dcmp_le (Fin 1 14) (Fin c e) = (14 <? ndigits c + e).
Proof.
  intros Hc. destruct (ndigits_spec c ltac:(lia)) as (L1 & L2 & L3). rewrite Z.abs_eq in L2, L3 by lia.
  destruct (Z.ltb_spec 14 (ndigits c + e)) as [Hlt|Hge]; [apply (dcmp_le_align _ _ _ _ (Z.min 14 e))|apply (dcmp_le_false _ _ _ _ (Z.min 14 e))]; try lia.
  - destruct (Z.le_gt_cases e 14) as [He|He].
    + rewrite Z.min_r, Z.sub_diag, Z.mul_1_r, Z.mul_1_l by lia. etrans; [|exact L2]. apply Z.pow_le_mono_r; lia.
    + rewrite Z.min_l, Z.sub_diag by lia. pose proof (pow10_pos (e - 14)). nia.
  - rewrite Z.min_r, Z.sub_diag, Z.mul_1_r, Z.mul_1_l by lia. eapply Z.lt_le_trans; [exact L3|]. apply Z.pow_le_mono_r; lia.
Qed.

(** Truncation rounds down by less than one unit. *)
Lemma truncate_bounds c e exp : 0 < c →
  let k := truncate_at c e exp in 0 ≤ k ∧ dcmp_le (Fin k exp) (Fin c e) = true ∧ dcmp_lt (Fin c e) (Fin (k + 1) exp) = true.
Proof.
  intros Hc k. subst k. unfold truncate_at. destruct (Z.leb_spec exp e) as [He|He].
  - pose proof (pow10_pos (e - exp)). split; [nia|]. split; [apply (dcmp_le_align _ _ _ _ exp)|apply (dcmp_lt_align _ _ _ _ exp)]; rewrite ?Z.sub_diag; lia.
  - pose proof (pow10_pos (exp - e) ltac:(lia)) as Hp. rewrite Z.quot_div_nonneg by lia.
    pose proof (Z.div_mod c (10 ^ (exp - e)) ltac:(lia)) as Hd. pose proof (Z.mod_pos_bound c (10 ^ (exp - e)) Hp) as Hm.
    split; [apply Z.div_pos; lia|]. split; [apply (dcmp_le_align _ _ _ _ e)|apply (dcmp_lt_align _ _ _ _ e)]; rewrite ?Z.sub_diag; lia.
Qed.

Section Computed.
Context `{!Pydantic} `{!PydanticLaws}.

(** What [normalize_computed_order_decimal] returns for a positive value of the default context. *)
Definition rounded_down (c e : Z) : outcome (option Decimal) :=
  if dcmp_le (Fin 1 14) (Fin c e) then Raise (ValueError "computed order value exceeds persisted precision")
  else let k := truncate_at c e (-6) in if k =? 0 then Ok None else Ok (Some (Fin k (-6))).

Lemma computed_equation c e : 0 < c → fits c → normalize_computed_order_decimal (Fin c e) = rounded_down c e.
Proof.
  intros Hc Hf. unfold normalize_computed_order_decimal, rounded_down. destruct (Z.leb_spec c 0); [lia|].
  unfold normalized_tuple. rewrite dround_exact by done. destruct (Z.eqb_spec c 0); [lia|].
  pose proof (strip_zeros_digits (Z.to_nat (ndigits c)) c e Hc) as Hs. destruct (strip_zeros _ c e) as [c' e']. destruct Hs as [Hc' Hs].
  rewrite whole_digits_over by done. destruct (ndigits_spec c' ltac:(lia)) as (L1 & _).
  assert ((14 <? (if 0 <=? e' then ndigits c' + e' else Z.max (ndigits c' + e') 0)) = (14 <? ndigits c + e)) as ->.
  { rewrite <- Hs. destruct (0 <=? e'); [done|]. destruct (Z.ltb_spec 14 (Z.max (ndigits c' + e') 0)), (Z.ltb_spec 14 (ndigits c' + e')); lia. }
  destruct (Z.ltb_spec 14 (ndigits c + e)) as [|Hsmall]; [done|].
  destruct (truncate_bounds c e (-6) Hc) as (Hk0 & Hk & _). cbv zeta. set (k := truncate_at c e (-6)) in *.
  assert (k < 10 ^ 20) as Hk20.
  { assert (dcmp_le (Fin 1 14) (Fin c e) = false) as Hlt by (rewrite whole_digits_over by done; by apply Z.ltb_ge).
    apply Z.nle_gt. intros Hge. assert (dcmp_le (Fin 1 14) (Fin k (-6)) = true) as Hbig by (apply (dcmp_le_align _ _ _ _ (-6)); lia).
    pose proof (dcmp_le_trans (Fin 1 14) (Fin k (-6)) (Fin c e) eq_refl Hbig Hk). congruence. }
  unfold quantize_down. fold k. assert (ndigits k ≤ 20) by (apply ndigits_le_iff; lia).
  rewrite (proj2 (Z.leb_le _ _)) by lia. cbn [mbind outcome_bind].
  destruct (Z.eqb_spec k 0) as [->|Hne]; [done|].
  assert (deq (Fin k (-6)) dzero = false) as ->.
  { unfold deq. change (dcmp (Fin k (-6)) dzero) with (dcmp (Fin k (-6)) (Fin 0 0)). rewrite (dcmp_align k (-6) 0 0 (-6)) by lia. destruct (Z.compare_spec (k * 10 ^ (-6 - -6)) (0 * 10 ^ (0 - -6))); [|done..].
    rewrite Z.sub_diag in *. lia. }
  by rewrite numeric_accepts by lia.
Qed.

(** The rounding of the plan lifecycle is the same function. *)
Lemma computed_agrees v : (is_finite v = true → representable v) →
  normalize_computed_order_decimal v = PlanLifecycle.normalize_computed_order_decimal v.
Proof.
  destruct v as [c e| |]; [|done..]. intros Hf. specialize (Hf eq_refl). destruct (Z.le_gt_cases c 0) as [Hc|Hc].
  { unfold normalize_computed_order_decimal, PlanLifecycle.normalize_computed_order_decimal. by rewrite (proj2 (Z.leb_le _ _)). }
  rewrite computed_equation by done. unfold PlanLifecycle.normalize_computed_order_decimal, rounded_down, truncate_at.
  rewrite (proj2 (Z.leb_gt c 0) Hc). rewrite dround_exact, whole_digits_over by done.
  assert ((14 <? Z.max (ndigits c + e) 0) = (14 <? ndigits c + e)) as ->.
  { destruct (Z.ltb_spec 14 (Z.max (ndigits c + e) 0)), (Z.ltb_spec 14 (ndigits c + e)); lia. }
  replace (e - -6) with (e + 6) by lia. destruct (Z.leb_spec (-6) e) as [He|He]; [done|]. by rewrite Z.quot_div_nonneg by (try apply pow10_pos; lia).
Qed.

(** The quantity returned is positive, within the column and at most the value. *)
Lemma computed_le v q : representable v → normalize_computed_order_decimal v = Ok (Some q) →
  pos_finite q = true ∧ dcmp_le q v = true ∧ ∃ k, q = Fin k (-6) ∧ 0 < k.
Proof.
  destruct v as [c e| |]; [|done..]. intros Hf. destruct (Z.le_gt_cases c 0) as [Hc|Hc].
  { unfold normalize_computed_order_decimal. by destruct (Z.leb_spec c 0); [|lia]. }
  rewrite computed_equation by done. unfold rounded_down. destruct (dcmp_le _ _); [done|]. cbv zeta.
  destruct (truncate_bounds c e (-6) Hc) as (Hk0 & Hk & _). cbv zeta in Hk0, Hk. destruct (Z.eqb_spec (truncate_at c e (-6)) 0) as [|Hne]; [done|].
  intros [= <-]. split; [|split; [done|eexists; split; [reflexivity|lia]]].
  unfold pos_finite. cbn [is_finite]. apply (dcmp_lt_align _ _ _ _ (-6)); [lia..|]. rewrite Z.sub_diag. lia.
Qed.
End Computed.

(** * Trailing marks *)

(** What a trailing rule compares: the mark it stores is at least the last price and, when a
    nonzero one was stored, at least that. *)
Lemma trailing_mark c percent last now b m :
  cm_condition c = TrailingCondition percent → fires c last now = Ok (b, m) →
  ∃ h, m = Some h ∧ dcmp_le last h = true
    ∧ (∀ old, cm_high_water_mark c = Some old → deq old dzero = false → dcmp_le old h = true)
    ∧ (h = last ∨ cm_high_water_mark c = Some h).
Proof.
  intros Hc. unfold fires. rewrite Hc. set (stored := match cm_high_water_mark c with Some _ => _ | None => _ end).
  intros (h & Hh & (part & _ & (kept & _ & (threshold & _ & (x & _ & [= _ <-])%outcome_bind_Ok)%outcome_bind_Ok)%outcome_bind_Ok)%outcome_bind_Ok)%outcome_bind_Ok.
  exists h. split; [done|]. pose proof (dmax_ge _ _ _ Hh) as [Hs Hl]. split; [done|]. split.
  - intros old Ho Hz. subst stored. rewrite Ho, Hz in Hs. done.
  - apply dmax_cases in Hh as [-> | ->]; [|by left]. subst stored. destruct (cm_high_water_mark c) as [o|]; [|by left]. destruct (deq o dzero); [by left|by right].
Qed.

(** * Validation is a normal form *)

Lemma length_upper s : String.length (upper s) = String.length s.
Proof. induction s as [|c s IH]; [done|]. cbn. by rewrite IH. Qed.

Lemma length_lstrip s : (String.length (lstrip s) ≤ String.length s)%nat.
Proof. induction s as [|c s IH]; [done|]. cbn. destruct (is_space c); cbn; lia. Qed.
Lemma length_rstrip s : (String.length (rstrip s) ≤ String.length s)%nat.
Proof. induction s as [|c s IH]; [done|]. cbn. destruct (rstrip s); [destruct (is_space c)|]; cbn in *; lia. Qed.
Lemma length_strip s : (String.length (strip s) ≤ String.length s)%nat.
Proof. unfold strip. pose proof (length_lstrip s). pose proof (length_rstrip (lstrip s)). lia. Qed.

Lemma length_within_shorter lo hi s t : length_within lo hi s = true → (String.length t ≤ String.length s)%nat → (lo ≤ String.length t)%nat → length_within lo hi t = true.
Proof. unfold length_within. rewrite !andb_true_iff, !Nat.leb_le. lia. Qed.

Lemma nonempty_length s : nonempty s = true → (1 ≤ String.length s)%nat.
Proof. destruct s; [done|]. cbn. lia. Qed.

Lemma normalize_ticker_fixed t t' : normalize_ticker t = Ok t' → normalize_ticker t' = Ok t'.
Proof.
  unfold normalize_ticker. destruct (_ && _) eqn:Hb; [|done]. apply andb_true_iff in Hb as [Hl Hn]. intros [= <-].
  rewrite strip_upper, strip_idemp, upper_idemp, Hn, andb_true_r.
  assert (length_within 1 16 (upper (strip t)) = true) as ->; [|done].
  eapply length_within_shorter; [exact Hl|rewrite length_upper; apply length_strip|by apply nonempty_length].
Qed.

Lemma normalize_group_key_fixed k k' : normalize_group_key k = Ok k' → normalize_group_key k' = Ok k'.
Proof.
  destruct k as [k|]; cbn; [|by intros [= <-]]. destruct (_ && _) eqn:Hb; [|done]. apply andb_true_iff in Hb as [Hl Hn]. intros [= <-]. cbn.
  rewrite strip_idemp, Hn, andb_true_r. assert (length_within 1 128 (strip k) = true) as ->; [|done].
  eapply length_within_shorter; [exact Hl|apply length_strip|by apply nonempty_length].
Qed.

Section Fixed.
Context `{!Pydantic} `{!PydanticLaws}.

Lemma validate_opt_fixed f x x' : (∀ v v', f v = Ok v' → v' = v) → validate_opt f x = Ok x' → x' = x ∧ validate_opt f x' = Ok x'.
Proof.
  intros Hf. destruct x as [v|]; cbn; [|by intros [= <-]]. intros (v' & Hv & [= <-])%outcome_bind_Ok. pose proof (Hf _ _ Hv) as ->. cbn. by rewrite Hv.
Qed.

Lemma numeric_kept v v' : validate_numeric v = Ok v' → v' = v.
Proof. by intros [? _]%numeric_same. Qed.

Lemma validate_action_fixed a a' : validate_action a = Ok a' → a' = a ∧ validate_action a = Ok a.
Proof.
  intros Ha. enough (a' = a) as -> by done. revert Ha. unfold validate_action.
  intros (q & [-> _]%(validate_opt_fixed _ _ _ numeric_kept) & (n & [-> _]%(validate_opt_fixed _ _ _ numeric_kept) & (l & [-> _]%(validate_opt_fixed _ _ _ numeric_kept) & Hs)%outcome_bind_Ok)%outcome_bind_Ok)%outcome_bind_Ok.
  destruct (shape_valid _); [|done]. injection Hs as <-. by destruct a.
Qed.

(** Validating a validated command changes nothing. *)
Lemma validate_command_fixed c c' : validate_command c = Ok c' → validate_command c' = Ok c'.
Proof.
  unfold validate_command at 1. intros (t & Ht & H1)%outcome_bind_Ok. apply outcome_bind_Ok in H1 as (k & Hk & H1).
  apply outcome_bind_Ok in H1 as (a & Ha & H1). apply outcome_bind_Ok in H1 as (f & Hf & H1). apply outcome_bind_Ok in H1 as (h & Hh & H1).
  destruct (_ && _) eqn:Hb; [|done]. injection H1 as <-. unfold validate_command. cbn [cm_ticker cm_group_key cm_action cm_fraction cm_high_water_mark].
  rewrite (normalize_ticker_fixed _ _ Ht), (normalize_group_key_fixed _ _ Hk). cbn [mbind outcome_bind].
  destruct (validate_action_fixed _ _ Ha) as [-> ->]. cbn [mbind outcome_bind].
  destruct (validate_opt_fixed validate_fraction _ _ fraction_same Hf) as [-> ->]. cbn [mbind outcome_bind].
  destruct (validate_opt_fixed _ _ _ numeric_kept Hh) as [-> ->]. cbn [mbind outcome_bind]. cbn [cm_kind cm_condition cm_pre_approved cm_activation cm_terminal_on_trigger]. by rewrite Hb.
Qed.
End Fixed.
