(* ===== verification/ExitProofs.v ===== *)
(** What a rule's exit may sell: the free part of the position, after every live exit order
    has been reserved ([available_reduce_qty] and [_bounded_action]). *)

From S2P Require Import Prelude PyDecimal Assets BrokerModels Breakers RiskRules RiskEngine Pnl.
From S2P Require Import Database Lifecycle Submission Snapshot SnapshotProofs Panic PanicProofs.
From S2P Require Import ReconcileSession FillImport StatusSync Reconciliation ReconcileProofs ServiceBase ServiceSync Proposals.
From S2P Require Import RuleCommands RuleApplication RuleCommandProofs.
From Stdlib Require Import Ascii Lia.
Local Open Scope Z_scope.

(** * Arithmetic *)

Lemma dmin_le x y z : dmin x y = Ok z → dcmp_le z x = true ∧ dcmp_le z y = true ∧ (z = x ∨ z = y).
Proof.
  unfold dmin. rewrite outcome_bind_Ok. intros ([] & Hb & [= <-]).
  - split; [|split; [apply dcmp_le_refl|by right]]. apply dcmp_lt_le. symmetry. by apply (dgt_ok x y).
  - split; [apply dcmp_le_refl|split; [|by left]]. by apply (dgt_false_le x y).
Qed.

Lemma ddiv_representable x y z : ddiv x y = Ok z → is_finite z = true → representable z.
Proof.
  destruct x as [c1 e1| |], y as [c2 e2| |]; cbn; try (by intros [= <-]); try done; repeat case_match; intros [= <-]; try done; intros _; apply dround_representable.
Qed.

(** A nonnegative amount by any positive price. *)
Lemma amount_div_positive x y z : amount x → dgt y dzero = Ok true → ddiv x y = Ok z → amount z.
Proof.
  intros Hx Hy Hz. destruct y as [c e|[]|]; [|done| |done].
  - apply dgt_ok in Hy. eapply amount_div; [exact Hx| |exact Hz]. by unfold pos_finite.
  - destruct x as [c e|b|]; cbn in Hz; [|done|by destruct Hx as [?|[]]]. injection Hz as <-. apply amount_zero.
Qed.

Lemma deq_le x y : deq x y = true → dcmp_le x y = true.
Proof. unfold deq, dcmp_le. intros [_ H]%andb_true_iff. by destruct (dcmp x y). Qed.

(** Taking an amount away leaves at most what there was. *)
Lemma free_part r v d q : representable r → dcmp_le dzero r = true → amount v → dsub r v = Ok d → dmax d dzero = Ok q → amount q ∧ dcmp_le q r = true.
Proof.
  intros Hr Hr0 Hv Hd Hq. split; [by eapply amount_max|]. destruct (dmax_cases _ _ _ Hq) as [-> | ->]; [|done].
  destruct Hv as [-> | [Hv Hv0]].
  - destruct r as [c e| |]; try done. cbn in Hd. injection Hd as <-. by apply dmax_ge in Hq as [_ ?].
  - eapply dsub_le; [exact Hr| |exact Hv0|exact Hd]. by destruct v.
Qed.

(** * [available_reduce_qty] *)

Section Exits.
Context `{Digest} {W : Type} `{!ProposalWorld W}.

(** What a live exit reserves.  One that states a quantity reserves what its fills left of it;
    one that states a notional, what its fills left of the notional over the reference price or,
    without one, the last quoted price; a price that is not positive reserves nothing. *)
Definition quoted_price (symbol : string) (reference_price : option Decimal) (p : Decimal) : Prop :=
  match reference_price with Some x => p = x | None => ∃ q (w w' : W), sb_quote symbol w = (Ok q, w') ∧ p = q_last q end.

Definition reserved_part (symbol : string) (reference_price : option Decimal) (x : Order * list Fill) (part : option Decimal) : Prop :=
  match o_qty x.1, o_notional x.1 with
  | Some qty, _ => ∃ filled left_ v, dsum (map fl_qty x.2) = Ok filled ∧ dsub qty filled = Ok left_ ∧ dmax left_ dzero = Ok v ∧ part = Some v
  | None, Some notional => ∃ price amounts spent left_ rest, quoted_price symbol reference_price price
      ∧ outcome_mapM (λ f, dmul (fl_qty f) (fl_price f)) x.2 = Ok amounts ∧ dsum amounts = Ok spent
      ∧ dsub notional spent = Ok left_ ∧ dmax left_ dzero = Ok rest
      ∧ (dgt price dzero = Ok true ∧ (∃ v, ddiv rest price = Ok v ∧ part = Some v) ∨ dgt price dzero = Ok false ∧ part = None)
  | None, None => part = None
  end.

Lemma reserve_order_part symbol price acc x (s : SvcState W) acc' s' :
  amount acc → reserve_order symbol price acc x s = (Ok acc', s') →
  amount acc' ∧ ∃ part, reserved_part symbol price x part ∧ outcome_foldl dadd acc (option_list part) = Ok acc'.
Proof.
  intros Ha. destruct x as [o fills]. unfold reserve_order, reserved_part. cbn [fst snd].
  intros (filled & s1 & [= Hf <-] & Hk)%svc_bind_Ok. destruct (o_qty o) as [qty|] eqn:Eq.
  - injection Hk as Hk _. apply outcome_bind_Ok in Hk as (l & Hl & Hk). apply outcome_bind_Ok in Hk as (v & Hv & Hk).
    destruct (amount_add _ _ _ Ha (amount_max _ _ _ _ Hl Hv) Hk) as (? & _ & _). split; [done|]. exists (Some v). split; [by exists filled, l, v|].
    cbn. by rewrite Hk.
  - destruct (o_notional o) as [notional|]; [|injection Hk as <- _; split; [done|]; by exists None].
    apply svc_bind_Ok in Hk as (p & s2 & Hp & [= Hk _]).
    assert (quoted_price symbol price p) as Hprice.
    { destruct price as [x|]; [by injection Hp|]. apply svc_bind_Ok in Hp as (q & s3 & Hq & [= <- _]). unfold ask in Hq.
      apply svc_bind_Ok in Hq as (reply & s4 & Hc & [= -> _]). unfold call in Hc. destruct (sb_quote symbol (sv_world s)) as [reply w] eqn:E.
      injection Hc as -> _. by exists q, (sv_world s), w. }
    apply outcome_bind_Ok in Hk as (amounts & Ham & Hk). apply outcome_bind_Ok in Hk as (spent & Hsp & Hk).
    apply outcome_bind_Ok in Hk as (l & Hl & Hk). apply outcome_bind_Ok in Hk as (rem & Hrem & Hk).
    apply outcome_bind_Ok in Hk as ([] & Hpos & Hk).
    2: { injection Hk as <-. split; [done|]. exists None. split; [|done]. exists p, amounts, spent, l, rem. repeat (split; [done|]). by right. }
    apply outcome_bind_Ok in Hk as (v & Hv & Hk).
    destruct (amount_add _ _ _ Ha (amount_div_positive _ _ _ (amount_max _ _ _ _ Hl Hrem) Hpos Hv) Hk) as (? & _ & _).
    split; [done|]. exists (Some v). split; [|cbn; by rewrite Hk]. exists p, amounts, spent, l, rem. repeat (split; [done|]). left. split; [done|]. by exists v.
Qed.

Lemma outcome_foldl_app {A B} (f : A → B → outcome A) acc l k : outcome_foldl f acc (l ++ k) = x ← outcome_foldl f acc l; outcome_foldl f x k.
Proof. revert acc. induction l as [|y l IH]; intros acc; [done|]. cbn. destruct (f acc y) as [z|e]; [apply IH|done]. Qed.

(** The reserved total is the running sum of what the live exits reserve. *)
Lemma reserve_all symbol price live : ∀ acc (s : SvcState W) total s',
  amount acc → svc_foldl (reserve_order symbol price) acc live s = (Ok total, s') →
  amount total ∧ ∃ parts, Forall2 (reserved_part symbol price) live parts ∧ outcome_foldl dadd acc (omap id parts) = Ok total.
Proof.
  induction live as [|x live IH]; intros acc s total s' Ha; cbn [svc_foldl].
  { intros [= <- _]. split; [done|]. by exists []. }
  intros (mid & s1 & (Hm & part & Hpart & Hmid)%reserve_order_part & (Ht & parts & Hparts & Hsum)%IH)%svc_bind_Ok; [|done..].
  split; [done|]. exists (part :: parts). split; [by constructor|]. destruct part as [v|]; cbn in Hmid |- *.
  - apply outcome_bind_Ok in Hmid as (z & Hz & [= ->]). by rewrite Hz.
  - by injection Hmid as ->.
Qed.

(** The position of a symbol in a listing. *)
Definition held (positions : list Position) (symbol : string) : Decimal := default dzero (dict_get (broker_quantities positions) symbol).

Lemma reducible_amount side position r : representable position → reducible_qty side position = Ok r → representable r ∧ dcmp_le dzero r = true.
Proof.
  intros Hp Hr. assert (∀ x, representable x → dmax x dzero = Ok r → representable r ∧ dcmp_le dzero r = true) as Hmax.
  { intros x Hx Hm. split; [by eapply dmax_representable|]. by apply dmax_ge in Hm as [_ ?]. }
  destruct side; cbn in Hr; [|by eapply Hmax]. eapply Hmax; [|exact Hr]. destruct position; [|done..]. apply dround_representable.
Qed.

(** The quantity an exit may still take: the position less every live exit, or nothing. *)
Lemma exit_available_free ticker side sd price (s : SvcState W) q s' :
  exit_available ticker side price s = (Ok q, s') → order_side_of side = Ok sd →
  (∀ positions, (sb_positions (sv_world s)).1 = Ok positions → representable (held positions (upper ticker))) →
  ∃ positions r, (sb_positions (sv_world s)).1 = Ok positions ∧ reducible_qty sd (held positions (upper ticker)) = Ok r
    ∧ representable r ∧ amount q ∧ dcmp_le q r = true
    ∧ (deq q dzero = true ∨ ∃ parts total free, Forall2 (reserved_part (upper ticker) price) (live_exits (upper ticker) side (sv_db s)) parts
         ∧ dsum (omap id parts) = Ok total ∧ dsub r total = Ok free ∧ dmax free dzero = Ok q).
Proof.
  intros Hq Hside Hrep. unfold exit_available, ask in Hq. apply svc_bind_Ok in Hq as (positions & s1 & Hp & Hq).
  apply svc_bind_Ok in Hp as (reply & s2 & Hc & [= -> <-]). unfold call in Hc. destruct (sb_positions (sv_world s)) as [reply w].
  injection Hc as -> <-. specialize (Hrep positions eq_refl). fold (held positions (upper ticker)) in Hq. rewrite Hside in Hq.
  apply svc_bind_Ok in Hq as (r & s3 & [= Hr <-] & Hq). destruct (reducible_amount _ _ _ Hrep Hr) as [Hrr Hr0].
  exists positions, r. split; [done|]. split; [done|]. split; [done|]. destruct (deq r dzero) eqn:Ez.
  { injection Hq as <- _. split; [apply amount_zero|]. split; [done|]. by left. }
  apply svc_bind_Ok in Hq as (live & s4 & [= <- <-] & Hq). apply svc_bind_Ok in Hq as (total & s5 & Hf & [= Hq _]).
  apply reserve_all in Hf as (Ht & parts & Hparts & Hsum); [|apply amount_zero]. apply outcome_bind_Ok in Hq as (free & Hd & Hm).
  destruct (free_part _ _ _ _ Hrr Hr0 Ht Hd Hm) as [Ha Hle]. split; [done|]. split; [done|]. right. by exists parts, total, free.
Qed.
End Exits.

(** * [_bounded_action] *)

Section Bounded.
Context `{Digest} `{!Pydantic, !RuleCodec, !PydanticLaws} {W : Type} `{!ProposalWorld W}.

Lemma bounded_qty_le action wish available notional a :
  (is_finite wish = true → representable wish) → representable available →
  bounded_qty action wish available notional = Ok (Some a) →
  ra_side a = ra_side action ∧ ∃ k, ra_qty a = Some (Fin k (-6)) ∧ 0 < k
    ∧ dcmp_le (Fin k (-6)) wish = true ∧ dcmp_le (Fin k (-6)) available = true.
Proof.
  intros Hw Hav. unfold bounded_qty. intros (least & Hl & Hk)%outcome_bind_Ok. apply outcome_bind_Ok in Hk as (qty & Hn & Hk).
  destruct qty as [q|]; [|done]. apply outcome_bind_Ok in Hk as (a' & Ha & [= <-]). apply dmin_le in Hl as (L1 & L2 & Hc).
  assert (is_finite least = true) as Hfin by (by destruct least).
  assert (representable least) as Hrep by (destruct Hc as [-> | ->]; auto).
  destruct (computed_le _ _ Hrep Hn) as (_ & Hle & k & -> & Hk). destruct (validate_action_fixed _ _ Ha) as [-> _]. cbn.
  split; [done|]. exists k. split; [done|]. split; [done|]. split; by apply (dcmp_le_trans _ least).
Qed.

Lemma order_side_value_of side : order_side_of (order_side_value side) = Ok side.
Proof. by destruct side. Qed.

Lemma zsum_nonneg zs : Forall (Z.le 0) zs → 0 ≤ zsum zs.
Proof. induction 1; cbn; lia. Qed.

(** Amounts at one exponent are added and taken away exactly. *)
Lemma sum_exact e zs : e ≤ 0 → ∀ z, 0 ≤ z → Forall (Z.le 0) zs → fits (z + zsum zs) →
  outcome_foldl dadd (Fin z e) (map (λ z, Fin z e) zs) = Ok (Fin (z + zsum zs) e).
Proof.
  intros He z Hz Hzs. revert z Hz. induction Hzs as [|x zs Hx Hzs IH]; intros z Hz Hfit; cbn [map outcome_foldl zsum] in *; [by rewrite Z.add_0_r|].
  assert (0 ≤ zsum zs) as Hs by (by apply zsum_nonneg).
  rewrite dadd_exact by (unfold fits in *; lia). cbn [mbind outcome_bind]. rewrite IH; [f_equal; f_equal; lia|lia|]. unfold fits in *. lia.
Qed.

Lemma dsum_exact e zs : e ≤ 0 → Forall (Z.le 0) zs → fits (zsum zs) → zs ≠ [] →
  dsum (map (λ z, Fin z e) zs) = Ok (Fin (zsum zs) e).
Proof.
  intros He Hzs Hfit Hne. destruct Hzs as [|x zs Hx Hzs]; [done|]. unfold dsum. cbn [map outcome_foldl zsum] in *.
  assert (0 ≤ zsum zs) as Hs by (by apply zsum_nonneg).
  assert (dadd dzero (Fin x e) = Ok (Fin x e)) as ->.
  { cbn. rewrite Z.min_r, Z.sub_diag, Z.mul_1_r by lia. rewrite dround_exact by (unfold fits in *; lia). done. }
  cbn [mbind outcome_bind]. by rewrite sum_exact.
Qed.

(** The free part in exact arithmetic. *)
Lemma free_exact e rz zs total free available k : e ≤ 0 → Forall (Z.le 0) zs → fits (zsum zs) → 0 ≤ rz → fits rz →
  dsum (map (λ z, Fin z e) zs) = Ok total → dsub (Fin rz e) total = Ok free → dmax free dzero = Ok available →
  0 < k → dcmp_le (Fin k (-6)) available = true → dcmp_le (Fin k (-6)) (Fin (rz - zsum zs) e) = true.
Proof.
  intros He Hzs Hfit Hr Hfr Ht Hf Hm Hk Hle.
  assert (0 ≤ zsum zs) as Hs by (by apply zsum_nonneg).
  assert (free = Fin (rz - zsum zs) e) as ->.
  { destruct (decide (zs = [])) as [->|Hne].
    - cbn in Ht. injection Ht as <-. cbn in Hf. rewrite Z.min_l, Z.sub_diag, Z.mul_1_r in Hf by lia.
      rewrite dround_exact in Hf by (unfold fits in *; lia). injection Hf as <-. cbn. f_equal; lia.
    - rewrite dsum_exact in Ht by done. injection Ht as <-. rewrite dsub_exact in Hf by (unfold fits in *; lia). by injection Hf as <-. }
  destruct (dmax_cases _ _ _ Hm) as [-> | ->]; [done|]. exfalso.
  apply (dcmp_le_align _ _ _ _ (-6)) in Hle; [|lia|cbn; lia]. cbn in Hle. lia.
Qed.

(** An exit the application service lets through sells part of the position. *)
Lemma bounded_action_within c price (s : SvcState W) a s' :
  bounded_action c price s = (Ok (Some a), s') → exit_kind (cm_kind c) = true →
  (∀ positions, (sb_positions (sv_world s)).1 = Ok positions → representable (held positions (upper (cm_ticker c)))) →
  (∀ wish, ra_qty (cm_action c) = Some wish → representable wish) →
  ∃ positions r k, (sb_positions (sv_world s)).1 = Ok positions
    ∧ reducible_qty (ra_side (cm_action c)) (held positions (upper (cm_ticker c))) = Ok r
    ∧ ra_side a = ra_side (cm_action c) ∧ ra_qty a = Some (Fin k (-6)) ∧ 0 < k ∧ dcmp_le (Fin k (-6)) r = true
    ∧ (∀ wish, ra_qty (cm_action c) = Some wish → dcmp_le (Fin k (-6)) wish = true)
    ∧ ∃ parts total free available, Forall2 (reserved_part (upper (cm_ticker c)) price)
          (live_exits (upper (cm_ticker c)) (order_side_value (ra_side (cm_action c))) (sv_db s)) parts
        ∧ dsum (omap id parts) = Ok total ∧ dsub r total = Ok free ∧ dmax free dzero = Ok available ∧ dcmp_le (Fin k (-6)) available = true
        ∧ ∀ e rz zs, e ≤ 0 → r = Fin rz e → fits rz → omap id parts = map (λ z, Fin z e) zs → Forall (Z.le 0) zs → fits (zsum zs) →
            dcmp_le (Fin k (-6)) (Fin (rz - zsum zs) e) = true.
Proof.
  unfold bounded_action. intros Hrun Hexit Hrep Hwish. rewrite Hexit in Hrun. cbn [negb] in Hrun.
  apply svc_bind_Ok in Hrun as (available & s1 & Hav & Hrun). apply svc_bind_Ok in Hrun as (none & s2 & [= Hz <-] & Hrun).
  destruct none; [done|]. destruct (exit_available_free _ _ _ _ _ _ _ Hav (order_side_value_of _) Hrep)
    as (positions & r & Hp & Hr & Hrr & Ha & Hle & Hfree).
  assert (representable available) as Hra.
  { destruct Ha as [-> | [? _]]; [|done]. by destruct r. }
  assert (deq available dzero = false) as Hpos by (destruct (deq available dzero) eqn:E; [|done]; apply dle_ok in Hz; by rewrite (deq_le _ _ E) in Hz).
  destruct Hfree as [?|(parts & total & free & Hparts & Ht & Hd & Hm)]; [congruence|].
  enough (ra_side a = ra_side (cm_action c) ∧ ∃ k, ra_qty a = Some (Fin k (-6)) ∧ 0 < k
    ∧ (∀ wish, ra_qty (cm_action c) = Some wish → dcmp_le (Fin k (-6)) wish = true) ∧ dcmp_le (Fin k (-6)) available = true)
    as (Hs & k & Hq & Hk & Hw & Hka).
  { exists positions, r, k. repeat (split; [done|]). split; [by apply (dcmp_le_trans _ available); [destruct available|..]|]. split; [done|].
    exists parts, total, free, available. repeat (split; [done|]). intros e rz zs He -> Hfr Hzs Hpos' Hfit. rewrite Hzs in Ht.
    eapply free_exact; try done. destruct (reducible_amount _ _ _ (Hrep _ Hp) Hr) as [_ Hr0].
    apply (dcmp_le_align _ _ _ _ e) in Hr0; [|done|lia]. rewrite Z.sub_diag in Hr0. lia. }
  destruct (ra_qty (cm_action c)) as [qty|] eqn:Eq.
  - injection Hrun as Hb _. destruct (bounded_qty_le _ _ _ _ _ (λ _, Hwish _ eq_refl) Hra Hb) as (? & k & ? & ? & ? & ?).
    split; [done|]. exists k. repeat (split; [done|]). split; [|done]. by intros wish [= <-].
  - apply svc_bind_Ok in Hrun as (p & s3 & _ & Hrun). apply svc_bind_Ok in Hrun as (bad & s4 & [= _ <-] & Hrun). destruct bad; [done|].
    destruct (ra_notional (cm_action c)) as [notional|]; [|done]. injection Hrun as Hb _. apply outcome_bind_Ok in Hb as (wish & Hw & Hb).
    destruct (bounded_qty_le _ _ _ _ _ (ddiv_representable _ _ _ Hw) Hra Hb) as (? & k & ? & ? & ? & ?).
    split; [done|]. exists k. by repeat (split; [done|]).
Qed.
End Bounded.
