(* ===== verification/RuleStoreProofs.v ===== *)
(** Rules are stored and read back: [create_rule] of the application service and [load_rule]
    of the repository. *)

From S2P Require Import Prelude PyDecimal Assets BrokerModels Database Lifecycle SessionLogic Submission RuleRepository RuleProofs.
From S2P Require Import ReconcileSession FillImport StatusSync Reconciliation ServiceBase Proposals ProposalLogic RuleCommands RuleApplication RuleCommandProofs.
From Stdlib Require Import Ascii Lia.
Local Open Scope Z_scope.

(** The command under the key of its group. *)
Definition set_group_key (key : string) (c : RuleCommand) : RuleCommand :=
  mkCommand (cm_ticker c) (cm_kind c) (cm_condition c) (cm_action c) (Some key) (cm_pre_approved c) (cm_fraction c) (cm_high_water_mark c)
    (cm_activation c) (cm_terminal_on_trigger c).

Lemma rule_kind_value_of k : rule_kind_of (rule_kind_value k) = Ok k.
Proof. by destruct k. Qed.

Lemma activation_value_of a : activation_of (activation_value a) = Ok a.
Proof. by destruct a. Qed.

(** * Numeric columns on SQLite *)

(** A [Numeric(p, 6)] column on SQLite binds [float(v)] and reads back the text of that double with
    six decimals: from a positive value of [k] millionths, a double [n / d] within half a unit in
    its last place, and then the nearest number of millionths. *)
Definition double_column (stored : Decimal → Decimal) : Prop := ∀ v k,
  0 < k < 10 ^ 20 → deq v (Fin k (-6)) = true →
  ∃ n d k', 0 < d ∧ 2 ^ 53 * Z.abs (n * 10 ^ 6 - k * d) ≤ k * d ∧ 2 * Z.abs (k' * d - n * 10 ^ 6) ≤ d ∧ stored v = Fin k' (-6).

(** The largest amount whose double still determines its millionths: 4503599627.370495. *)
Definition DOUBLE_EXACT : Decimal := Fin (2 ^ 52 - 1) (-6).

Lemma double_column_exact stored v k : double_column stored → 0 < k < 2 ^ 52 → deq v (Fin k (-6)) = true → stored v = Fin k (-6).
Proof.
  intros Hs Hk Hv. destruct (Hs v k) as (n & d & k' & Hd & Hn & Hk' & ->); [lia|done|].
  assert (Z.abs (k' * d - k * d) < 1 * d) as Hdiff by nia. rewrite <- Z.mul_sub_distr_r, Z.abs_mul, (Z.abs_eq d) in Hdiff by lia.
  apply Z.mul_lt_mono_pos_r in Hdiff; [|done]. by replace k' with k by lia.
Qed.

Lemma deq_sym x y : deq x y = true → deq y x = true.
Proof.
  unfold deq. intros [Hn Hc]%andb_true_iff. rewrite orb_comm, Hn. cbn [andb].
  rewrite dcmp_antisym. by destruct (dcmp x y).
Qed.

Lemma deq_le_millionths v k j : deq v (Fin k (-6)) = true → dcmp_le v (Fin j (-6)) = true → k ≤ j.
Proof.
  intros Hv%deq_sym Hle. assert (dcmp_le (Fin k (-6)) (Fin j (-6)) = true) as Hkj.
  { destruct v as [c e|[]|]; try discriminate Hv. apply (dcmp_le_trans _ (Fin c e)); [done| |done]. apply andb_true_iff in Hv as [_ Hv]. unfold dcmp_le. by destruct (dcmp _ _). }
  apply (dcmp_le_align _ _ _ _ (-6)) in Hkj; lia.
Qed.

Section Store.
Context `{Digest} `{!Pydantic, !RuleCodec, !PydanticLaws, !RuleCodecLaws} (stored_numeric stored_fraction : Decimal → Decimal).
Context (actor reason request_id : string) (plan_id : option Z) (t : time).

(** The columns of a command give back valid amounts equal to the ones they were given. *)
Definition keeps_amounts (c : RuleCommand) : Prop :=
  (∀ v, cm_high_water_mark c = Some v → validate_numeric v = Ok v →
     validate_numeric (stored_numeric v) = Ok (stored_numeric v) ∧ deq (stored_numeric v) v = true)
  ∧ ∀ v, cm_fraction c = Some v → validate_fraction v = Ok v →
     validate_fraction (stored_fraction v) = Ok (stored_fraction v) ∧ deq (stored_fraction v) v = true.

Lemma double_columns_keep c : double_column stored_numeric → double_column stored_fraction →
  (∀ v, cm_high_water_mark c = Some v → dcmp_le v DOUBLE_EXACT = true) → keeps_amounts c.
Proof.
  intros Hn Hf Hmark. split.
  - intros v Hv (k & Hk & Hkv)%numeric_places. assert (k < 2 ^ 52) by (specialize (Hmark _ Hv); eapply deq_le_millionths in Hmark; [|done]; lia).
    rewrite (double_column_exact _ _ k) by (done || lia). split; [by apply numeric_accepts|by apply deq_sym].
  - intros v Hv (k & Hk & Hkv)%fraction_places. rewrite (double_column_exact _ _ k) by (done || lia). split; [by apply fraction_accepts|by apply deq_sym].
Qed.

(** The command as the row gives it back, under the key of its group. *)
Definition stored_command (key : string) (c : RuleCommand) : RuleCommand :=
  mkCommand (cm_ticker c) (cm_kind c) (cm_condition c) (cm_action c) (Some key) (cm_pre_approved c) (stored_fraction <$> cm_fraction c)
    (stored_numeric <$> cm_high_water_mark c) (cm_activation c) (cm_terminal_on_trigger c).

Lemma validate_opt_stored f g x : (∀ v v', f v = Ok v' → v' = v) → (∀ v, x = Some v → f v = Ok v → f (g v) = Ok (g v) ∧ deq (g v) v = true) →
  validate_opt f x = Ok x → validate_opt f (g <$> x) = Ok (g <$> x) ∧ opt_deq (g <$> x) x = true.
Proof.
  intros Hs Hg. destruct x as [v|]; [|done]. cbn. intros (v' & Hv & [= ->])%outcome_bind_Ok. destruct (Hg _ eq_refl Hv) as [Hv' Hd].
  by rewrite Hv'.
Qed.

(** What a validated command satisfies. *)
Lemma validated_parts c0 c : validate_command c0 = Ok c →
  normalize_ticker (cm_ticker c) = Ok (cm_ticker c) ∧ validate_action (cm_action c) = Ok (cm_action c)
  ∧ validate_opt validate_fraction (cm_fraction c) = Ok (cm_fraction c) ∧ validate_opt validate_numeric (cm_high_water_mark c) = Ok (cm_high_water_mark c)
  ∧ condition_valid (cm_condition c) && negb (cm_pre_approved c) && command_consistent c = true.
Proof.
  intros Hc%validate_command_fixed. unfold validate_command in Hc. apply outcome_bind_Ok in Hc as (x & Hx & Hc).
  apply outcome_bind_Ok in Hc as (k & Hk & Hc). apply outcome_bind_Ok in Hc as (a & Ha & Hc). apply outcome_bind_Ok in Hc as (f & Hf & Hc).
  apply outcome_bind_Ok in Hc as (h & Hh & Hc). destruct (_ && _) eqn:Hb; [|done]. injection Hc as Hc. rewrite Hc in Hb.
  apply (f_equal cm_ticker) in Hc as Ht. apply (f_equal cm_action) in Hc as Hc2. apply (f_equal cm_fraction) in Hc as Hc3.
  apply (f_equal cm_high_water_mark) in Hc as Hc4. cbn in *. by subst x a f h.
Qed.

Lemma validated_key c0 c : validate_command c0 = Ok c → normalize_group_key (cm_group_key c) = Ok (cm_group_key c).
Proof.
  intros Hc%validate_command_fixed. unfold validate_command in Hc. apply outcome_bind_Ok in Hc as (x & _ & Hc).
  apply outcome_bind_Ok in Hc as (k & Hk & Hc). apply outcome_bind_Ok in Hc as (a & _ & Hc). apply outcome_bind_Ok in Hc as (f & _ & Hc).
  apply outcome_bind_Ok in Hc as (h & _ & Hc). destruct (_ && _); [|done]. injection Hc as Hc. rewrite Hk. by rewrite <- Hc.
Qed.

(** Validation keeps the mark. *)
Lemma validated_mark c0 c : validate_command c0 = Ok c → cm_high_water_mark c = cm_high_water_mark c0.
Proof.
  intros Hc. unfold validate_command in Hc. apply outcome_bind_Ok in Hc as (x & _ & Hc).
  apply outcome_bind_Ok in Hc as (k & _ & Hc). apply outcome_bind_Ok in Hc as (a & _ & Hc). apply outcome_bind_Ok in Hc as (f & _ & Hc).
  apply outcome_bind_Ok in Hc as (h & Hh & Hc). destruct (_ && _); [|done]. injection Hc as <-.
  by apply (validate_opt_fixed _ _ _ numeric_kept) in Hh as [-> _].
Qed.

(** The stored command is valid and equal to the command under the key. *)
Lemma stored_command_valid c0 c key : keeps_amounts c → validate_command c0 = Ok c → normalize_group_key (Some key) = Ok (Some key) →
  validate_command (stored_command key c) = Ok (stored_command key c).
Proof.
  intros [Hn Hf] (Ht & Ha & Hfr & Hh & Hb)%validated_parts Hk. unfold validate_command, stored_command.
  cbn [cm_ticker cm_kind cm_condition cm_action cm_group_key cm_pre_approved cm_fraction cm_high_water_mark cm_activation cm_terminal_on_trigger].
  destruct (validate_opt_stored _ _ _ fraction_same Hf Hfr) as [-> _]. destruct (validate_opt_stored _ _ _ numeric_kept Hn Hh) as [-> _].
  rewrite Ht, Hk, Ha. cbn [mbind outcome_bind]. unfold command_consistent in *. cbn [cm_kind cm_condition cm_activation cm_terminal_on_trigger]. by rewrite Hb.
Qed.

Lemma deq_positive v : pos_finite v = true → deq v v = true.
Proof. intros [Hf _]%andb_true_iff. destruct v as [c e| |]; try done. unfold deq. cbn [is_nan orb negb andb]. rewrite (dcmp_align c e c e e) by lia. by rewrite Z.compare_refl. Qed.

Lemma opt_deq_refl x : validate_opt validate_numeric x = Ok x → opt_deq x x = true.
Proof. destruct x as [v|]; [|done]. cbn. intros (v' & [_ Hp]%numeric_same & _)%outcome_bind_Ok. by apply deq_positive. Qed.

Lemma action_eqb_refl a : validate_action a = Ok a → action_eqb a a = true.
Proof.
  unfold validate_action. intros (q & Hq & Hs)%outcome_bind_Ok. apply outcome_bind_Ok in Hs as (n & Hn & Hs).
  apply outcome_bind_Ok in Hs as (l & Hl & Hs). destruct (shape_valid _); [|done]. injection Hs as Hs.
  assert (q = ra_qty a ∧ n = ra_notional a ∧ l = ra_limit_price a) as (-> & -> & ->) by (by rewrite <- Hs).
  unfold action_eqb. rewrite !bool_decide_eq_true_2 by done. cbn [andb]. by rewrite !opt_deq_refl.
Qed.

Lemma stored_command_eqb c0 c key : keeps_amounts c → validate_command c0 = Ok c → command_eqb (stored_command key c) (set_group_key key c) = true.
Proof.
  intros [Hn Hf] (_ & Ha & Hfr & Hh & [[Hcond _]%andb_true_iff _]%andb_true_iff)%validated_parts.
  unfold command_eqb, stored_command, set_group_key.
  cbn [cm_ticker cm_kind cm_condition cm_action cm_group_key cm_pre_approved cm_fraction cm_high_water_mark cm_activation cm_terminal_on_trigger].
  rewrite !bool_decide_eq_true_2 by done. rewrite action_eqb_refl by done. cbn [andb].
  destruct (validate_opt_stored _ _ _ fraction_same Hf Hfr) as [_ ->]. destruct (validate_opt_stored _ _ _ numeric_kept Hn Hh) as [_ ->].
  rewrite !andb_true_r. unfold condition_eqb. destruct (cm_condition c) as [d p|p|at_]; cbn in Hcond.
  - rewrite bool_decide_eq_true_2 by done. by apply deq_positive.
  - apply andb_true_iff in Hcond as [Hp _]. by apply deq_positive.
  - apply Z.eqb_refl.
Qed.

(** Reading back the row of a command. *)
Lemma new_rule_read c c0 key group_id st id :
  keeps_amounts c → validate_command c0 = Ok c → normalize_group_key (Some key) = Ok (Some key) →
  stored_rule key (new_rule stored_numeric stored_fraction plan_id t c group_id st id) = Ok (mkStored id group_id (stored_command key c) plan_id).
Proof.
  intros Hl Hc Hk. unfold stored_rule, new_rule. cbn [ru_payload_version ru_condition_json ru_action_json ru_kind ru_activation ru_ticker
    ru_pre_approved ru_fraction ru_hwm ru_terminal_on_trigger ru_id ru_group_id ru_plan_id]. cbn [Z.eqb negb]. rewrite condition_decodes, action_decodes.
  cbn [mbind outcome_bind]. rewrite rule_kind_value_of, activation_value_of. cbn [mbind outcome_bind].
  pose proof (stored_command_valid _ _ _ Hl Hc Hk) as Hv. unfold stored_command in *. by rewrite Hv.
Qed.

(** * The session *)

Abbreviation app_audit := (app_audit actor reason request_id t).

Lemma app_audit_run a tt id code detail s r s' : app_audit a tt id code detail s = (r, s') →
  r = Ok () ∧ db_rules (working s') = db_rules (working s) ∧ db_groups (working s') = db_groups (working s).
Proof. by intros [= <- <-]. Qed.

Lemma group_of_key_Some key d g : group_of_key key d = Some g → g_group_key g = key ∧ ∃ id, db_groups d !! id = Some g.
Proof.
  unfold group_of_key. destruct (list_find _ _) as [[n [id x]]|] eqn:E; [|done]. intros [= <-].
  apply list_find_Some in E as (Hin & Hk & _). split; [done|]. exists id. apply elem_of_map_to_list. by eapply list_elem_of_lookup_2.
Qed.

Lemma admit_group_run key c s id s' :
  (∀ id g, db_groups (working s) !! id = Some g → g_id g = id) →
  admit_group actor reason request_id plan_id t key c s = (Ok id, s') →
  db_rules (working s') = db_rules (working s) ∧ ∃ g, db_groups (working s') !! id = Some g ∧ g_group_key g = key.
Proof.
  intros Hkeyed. unfold admit_group. intros (d & s1 & [= <- <-] & Hk)%tx_bind_Ok. apply tx_bind_Ok in Hk as (g & s2 & Hg & Hk).
  apply tx_bind_Ok in Hk as (d2 & s3 & [= <- <-] & Hk). destruct (existsb _ _); [done|]. destruct (existsb _ _); [done|]. injection Hk as <- <-.
  destruct (group_of_key key (working s)) as [g0|] eqn:E.
  - destruct (group_accepts _ _); [|done]. injection Hg as <- <-. apply group_of_key_Some in E as (Hkey & id & Hid). split; [done|].
    exists g0. by rewrite (Hkeyed _ _ Hid).
  - unfold add_group in Hg. apply tx_bind_Ok in Hg as (d & s1 & [= <- <-] & Hg). apply tx_bind_Ok in Hg as ([] & s1 & [= <-] & Hg).
    apply tx_bind_Ok in Hg as ([] & s3 & (_ & Hr & Hgr)%app_audit_run & [= <- <-]). cbn in *. rewrite Hr, Hgr. split; [done|].
    eexists. rewrite lookup_insert_eq. done.
Qed.

Lemma add_rule_run c group_id s r s' : add_rule stored_numeric stored_fraction actor reason request_id plan_id t c group_id s = (Ok r, s') →
  ∃ st, let id := next_id (db_rules (working s)) in r = new_rule stored_numeric stored_fraction plan_id t c group_id st id
    ∧ db_rules (working s') = <[id := r]> (db_rules (working s)) ∧ db_groups (working s') = db_groups (working s).
Proof.
  unfold add_rule. intros (d & s1 & [= <- <-] & Hk)%tx_bind_Ok. apply tx_bind_Ok in Hk as ([] & s2 & [= <-] & Hk).
  apply tx_bind_Ok in Hk as ([] & s3 & (_ & Hr & Hg)%app_audit_run & [= <- <-]). cbn in *. eexists. split; [reflexivity|]. by rewrite Hr, Hg.
Qed.

Lemma persist_one generated c s st s' :
  (∀ id g, db_groups (working s) !! id = Some g → g_id g = id) →
  persist_command stored_numeric stored_fraction actor reason request_id plan_id t generated (mkPersisting [] [] []) c s = (Ok st, s') →
  ∃ group_id g rs, let id := next_id (db_rules (working s)) in
    let r := new_rule stored_numeric stored_fraction plan_id t c group_id rs id in
    pe_rows st = [r] ∧ db_rules (working s') = <[id := r]> (db_rules (working s))
    ∧ db_groups (working s') !! group_id = Some g ∧ g_group_key g = default generated (cm_group_key c).
Proof.
  intros Hkeyed. unfold persist_command. destruct (negb _); [done|]. cbn [pe_groups dict_get]. 
  intros (gid & s1 & (Hr1 & g & Hg & Hkey)%admit_group_run & (r & s2 & (rs & -> & Hr2 & Hg2)%add_rule_run & [= <- <-])%tx_bind_Ok)%tx_bind_Ok; [|done].
  exists gid, g, rs. rewrite Hr1 in *. rewrite Hg2. done.
Qed.
End Store.

Section Create.
Context `{Digest} `{!Pydantic, !RuleCodec, !PydanticLaws, !RuleCodecLaws} (stored_numeric stored_fraction : Decimal → Decimal).

Lemma create_rule_run generated command plan_id t actor reason request_id d id d' :
  (∀ id g, db_groups d !! id = Some g → g_id g = id) →
  create_rule stored_numeric stored_fraction generated command plan_id t actor reason request_id d = (Ok id, d') →
  ∃ c group_id g st, let r := new_rule stored_numeric stored_fraction plan_id t c group_id st id in
    validate_command command = Ok c ∧ id = next_id (db_rules d) ∧ db_rules d' = <[id := r]> (db_rules d)
    ∧ db_groups d' !! group_id = Some g ∧ g_group_key g = default generated (cm_group_key c).
Proof.
  intros Hkeyed. unfold create_rule, with_session.
  match goal with |- context [?m (mkSession d d)] => destruct (m (mkSession d d)) as [x s'] eqn:E end. intros [= -> <-].
  apply tx_bind_Ok in E as (rows & s1 & Hp & Hk). apply tx_bind_Ok in Hk as ([] & s2 & [= <-] & Hk).
  unfold persist_commands in Hp. destruct (_ || _); [done|]. apply tx_bind_Ok in Hp as (cs & s3 & [= Hv <-] & Hp).
  cbn in Hv. apply outcome_bind_Ok in Hv as (c & Hc & [= <-]). apply tx_bind_Ok in Hp as (st & s4 & Hp & [= <- <-]).
  cbn [tx_foldl] in Hp. apply tx_bind_Ok in Hp as (st1 & s5 & Hp & [= <- <-]).
  apply persist_one in Hp as (gid & g & rs & Hrows & Hr & Hg & Hkey); [|done]. rewrite Hrows in Hk. injection Hk as <- <-.
  unfold validated in Hc. apply outcome_bind_Ok in Hc as (c' & Hc & Hpre). destruct (cm_pre_approved c'); [done|]. injection Hpre as ->.
  by exists c, gid, g, rs.
Qed.
End Create.
