(* ===== verification/ClaimProofs.v ===== *)
(** A rule's proposal and its claim on the lease are stored together or not at all
    ([propose_from_lease] of [rules/application.py]). *)

From S2P Require Import Prelude PyDecimal Assets BrokerModels Breakers RiskRules RiskEngine.
From S2P Require Import Database Lifecycle SessionLogic BreakerStore OrderRepository RepositoryLogic RepositoryProofs SafetyState Snapshot.
From S2P Require Import RuleRepository RuleProofs PlanTruth PlanTruthProofs PlanLifecycle PlanLifecycleLogic PlanLifecycleProofs.
From S2P Require Import Submission OrderSystem.
From S2P Require Import ReconcileSession FillImport StatusSync Reconciliation ReconcileLogic ReconcileProofs Panic PanicProofs.
From S2P Require Import ServiceBase PlanCancel PlanCancelProofs ServiceSync ServiceProofs Proposals RuleCommands RuleApplication RuleWorker.
From S2P Require Import ProposalLogic ProposalProofs ProposalSystem.
From Stdlib Require Import Ascii Lia.
Local Open Scope Z_scope.

Lemma keeps_session {A} (m : tx A) s r s' : keeps_durable m → on_session m s = (r, s') → dur s' = dur s.
Proof. intros Hm. specialize (Hm (r_session s)). unfold on_session. destruct (m _). by intros [= _ <-]. Qed.

(** How a bind runs. *)
Lemma rtx_bind_run {A B} (m : rtx A) (f : A → rtx B) s r s' : (m ≫= f) s = (r, s') →
  (∃ e, m s = (Raise e, s') ∧ r = Raise e) ∨ ∃ a s1, m s = (Ok a, s1) ∧ f a s1 = (r, s').
Proof. unfold mbind, rtx_bind. destruct (m s) as [[a|e] s1]; [intros Hf; right; by exists a, s1|intros [= <- <-]; left; by exists e]. Qed.

Section Claims.
Context `{Digest} `{!Pydantic, !RuleCodec}.
Context (resize_action : string → Decimal → option string) (stored_numeric : Decimal → Decimal) (config : AssetClass → RiskConfig).
Context (actor reason request_id : string) (lease : RuleGroupLease) (rule_id : Z) (now_ : time).

Abbreviation claim_rule := (claim_rule actor reason request_id lease rule_id now_).

Lemma keeps_claim_rule stored c risk hwm : keeps_durable (claim_rule stored c risk hwm).
Proof.
  unfold RuleApplication.claim_rule. destruct (sr_plan_id stored); [apply keeps_claim_proposal|].
  destruct (terminal_group _ _ _); [apply keeps_claim_terminal|apply keeps_claim_progress].
Qed.

Lemma claim_rule_spends stored c risk hwm d s1 : claim_rule stored c risk hwm (mkSession d d) = (Ok true, s1) → spends lease d (working s1).
Proof.
  unfold RuleApplication.claim_rule. destruct (sr_plan_id stored).
  - intros (g & Hg & Hc%claim_lease_current & _ & E & _)%claim_proposal_true. by eapply (spends_insert lease (free_lease now_)).
  - destruct (terminal_group _ _ _); [by apply terminal_spends|].
    intros (g & Hg & Hc%claim_lease_current & E & _)%claim_progress_true. by eapply (spends_insert lease (free_lease now_)).
Qed.

(** The claim itself: orders only move, and no proposal, breaker or audit row is lost. *)
Lemma claim_rule_moves stored c risk hwm d : moves_by order_evolves d (working (claim_rule stored c risk hwm (mkSession d d)).2).
Proof.
  assert (settles_in (moves_by order_evolves) (claim_rule stored c risk hwm)) as Hs.
  { unfold RuleApplication.claim_rule. destruct (sr_plan_id stored); [apply si_claim_proposal, _|].
    destruct (terminal_group _ _ _); [apply si_claim_terminal, _|apply si_claim_progress, _]. }
  exact (proj2 (Hs (mkSession d d) d (reflexivity d) (reflexivity d))).
Qed.

(** Once the two rows are stored nothing is added: rows move and the versions of groups grow. *)
Definition proceeds (d d' : Db) : Prop := moves_by order_evolves d d' ∧ grows d d'.

#[local] Instance proceeds_preorder : PreOrder proceeds.
Proof. split; [by intros d|]. intros x y z [] []. by split; etrans. Qed.

Lemma moves_proceeds {A} (m : tx A) : moves (moves_by order_evolves) m → (∀ s, db_groups (working (m s).2) = db_groups (working s)) → moves proceeds m.
Proof. intros Hm Hg s. destruct (Hm s) as [Hd Hw]. split; [done|]. split; [done|]. intros k g Hk. exists g. by rewrite Hg. Qed.

Lemma proceeds_trip scope detail a rq t ar : moves proceeds (trip_in_session scope detail a rq t ar).
Proof.
  apply moves_proceeds; [apply moves_trip_in_session, _|]. intros s. destruct (trip_inputs_ok detail a rq ar) eqn:Hin; [by rewrite trip_in_session_ok|].
  by destruct (trip_in_session_bad scope detail a rq t ar s Hin) as [m ->].
Qed.

Lemma proceeds_reconcile clock : moves proceeds (reconcile_plan_lifecycle_in_session resize_action now_ clock actor reason request_id).
Proof.
  intros s. pose proof (moves_reconcile_in_session resize_action now_ clock actor reason request_id) as Hm. split; [by apply Hm|].
  split; [by apply (moves_plan (moves_by order_evolves) _ Hm)|]. by apply plan_moves_grows, Hm.
Qed.

Lemma proceeds_risk id kind text : moves proceeds (persist_risk id kind text).
Proof. apply moves_proceeds; [|done]. apply moves_write. intros d. by apply moves_by_rest; [apply _|..]. Qed.

Lemma proceeds_audit action tt target code key detail proof t : moves proceeds (persist_audit actor reason request_id action tt target code key detail proof t).
Proof. by apply moves_proceeds; [apply moves_persist_audit, _|]. Qed.

Lemma add_proposal_new row s u s' : add_proposal row s = (Ok u, s') →
  ∃ id, let p := row id in db_proposals (working s) !! p_order_id p = None
    ∧ s' = mkSession (durable s) (set_db_proposals (<[p_order_id p := p]> (db_proposals (working s))) (working s)).
Proof.
  unfold add_proposal, mbind, tx_bind, read. case_bool_decide as Hp; [done|]. apply eq_None_not_Some in Hp. intros [= _ <-]. by eexists.
Qed.

(** The proposal row of a rule's order. *)
Definition rule_proposal (ttl id : Z) (p : Proposal) : Prop :=
  p_order_id p = id ∧ p_source_rule_group_id p = Some (rl_group_id lease) ∧ p_source_rule_id p = Some rule_id
  ∧ p_ttl_minutes p = ttl ∧ p_created_at p = now_ ∧ p_expires_at p = now_ + ttl * minute.

(** What [store_rule_proposal] does when it returns: the order and its proposal are durable and
    the result names them. *)
Lemma store_rule_proposal_run stored request risk generation o s r s' :
  db_orders (wrk s) !! o_id o = Some o →
  store_rule_proposal resize_action config actor reason request_id lease rule_id now_ stored request risk generation o s = (r, s') →
  match r with
  | Raise _ => dur s' = dur s
  | Ok p => po_order_id p = o_id o ∧ (∃ row, rule_proposal (proposal_ttl_minutes (config (for_symbol (BrokerModels.o_ticker request)))) (o_id o) row
          ∧ db_proposals (wrk s) !! o_id o = None
          ∧ proceeds (set_db_proposals (<[o_id o := row]> (db_proposals (wrk s))) (wrk s)) (dur s'))
      ∧ (∃ o', db_orders (dur s') !! o_id o = Some o' ∧ po_status p = o_status o')
      ∧ po_risk_reasons p = reasons risk ∧ po_idempotent_replay p = false
  end.
Proof.
  intros Ho. unfold store_rule_proposal. cbv zeta.
  match goal with |- (on_session (_ ≫= ?k) ≫= _) s = _ → _ =>
    assert (∀ u, moves proceeds (k u)) as Hq end.
  { intros []. apply moves_bind; [apply _|apply moves_iter; [apply _|]; intros; apply proceeds_risk|intros _].
    apply moves_bind; [apply _|apply moves_iter; [apply _|]; intros; apply proceeds_risk|intros _].
    apply moves_bind; [apply _|apply moves_iter; [apply _|]; intros; apply moves_bind; [apply _|apply proceeds_trip|intros; apply moves_ret, _]|intros _].
    apply proceeds_audit. }
  unfold mbind at 1, rtx_bind at 1, on_session at 1. unfold mbind at 1, tx_bind at 1.
  destruct (add_proposal _ (r_session s)) as [[u|e] t1] eqn:Ea.
  2: { intros [= <- <-]. revert Ea. unfold add_proposal, mbind, tx_bind, read. destruct (bool_decide _); by intros [= _ <-]. }
  apply add_proposal_new in Ea as (pid & Hnew & ->). cbv zeta in *. cbn [p_order_id] in Hnew |- *.
  match goal with |- context [set_db_proposals (<[_ := ?row]> _) _] => set (p := row) in * end.
  assert (rule_proposal (proposal_ttl_minutes (config (for_symbol (BrokerModels.o_ticker request)))) (o_id o) p) as Hp by done.
  match goal with |- context [mkSession ?x ?y] => set (t2 := mkSession x y) end.
  specialize (Hq u t2). unfold moves_at in Hq. cbv beta in Hq.
  match type of Hq with context [?m t2] => destruct (m t2) as [[[]|e] t3] end; cbn [fst snd] in *; destruct Hq as [Hd1 Hw1]; [|by intros [= <- <-]].
  match goal with |- context [mkR t3 ?a ?b ?c ?d] => set (s1 := mkR t3 a b c d) end.
  match goal with |- (?m ≫= _) s1 = _ → _ => assert (quietly proceeds m) as Hl end.
  { destruct (sr_plan_id stored); [|apply quietly_ret, _]. apply quietly_bind; [apply _|apply quietly_now, _|intros clock].
    apply quietly_bind; [apply _|apply quietly_session, proceeds_reconcile|intros; apply quietly_ret, _]. }
  specialize (Hl s1). unfold mbind at 1, rtx_bind at 1.
  match type of Hl with context [(?m s1).2] => destruct (m s1) as [[[]|e] s2] end; cbn in Hl; destruct Hl as [Hd2 Hw2]; [|intros [= <- <-]; etrans; [exact Hd2|exact Hd1]].
  assert (proceeds (working t2) (wrk s2)) as Hw by (by etrans).
  pose proof (mb_orders _ _ _ (proj1 Hw) (o_id o)) as Hrow. change (db_orders (working t2)) with (db_orders (wrk s)) in Hrow. rewrite Ho in Hrow.
  destruct (db_orders (wrk s2) !! o_id o) as [o'|] eqn:Ho'; [|done].
  unfold mbind, rtx_bind, on_session. cbn. unfold get_order, mbind, tx_bind, read. cbn.
  change (working (r_session s2)) with (wrk s2). rewrite Ho'. intros [= <- <-]. cbn. split; [by rewrite (oe_id _ _ Hrow)|].
  split; [by exists p|]. split; [|done]. by exists o'.
Qed.

(** [d'] is [d] with one more order, under a new id and a new key, and its proposal; every other
    order only moved. *)
Record rule_order_added (d d' : Db) (request : OrderRequest) (status : OrderStatus) (id : Z) (stored_status : string) : Prop := {
  ra_fresh : db_orders d !! id = None ∧ db_proposals d !! id = None;
  ra_key : key_taken (BrokerModels.o_idempotency_key request) d = false;
  ra_row : ∃ created updated o', db_orders d' !! id = Some o' ∧ o_status o' = stored_status
    ∧ order_evolves (new_order stored_numeric request status "simple" "{}" created updated id) o';
  ra_others : rows_move order_evolves (db_orders d) (delete id (db_orders d'));
  ra_proposal : ∃ p, rule_proposal (proposal_ttl_minutes (config (for_symbol (BrokerModels.o_ticker request)))) id p
    ∧ db_proposals d' = <[id := p]> (db_proposals d);
}.

(** Rows that only moved keep their keys. *)
Lemma key_taken_moves key d d' : rows_move order_evolves (db_orders d) (db_orders d') → key_taken key d' = false → key_taken key d = false.
Proof.
  rewrite !key_taken_false. intros Hm Hk id o Ho. specialize (Hm id). rewrite Ho in Hm.
  destruct (db_orders d' !! id) as [o'|] eqn:Ho'; [|done]. rewrite <- (oe_key _ _ Hm). by eapply Hk.
Qed.

Lemma rule_order_added_intro d d1 d' request status id created updated p stored_status :
  let row := new_order stored_numeric request status "simple" "{}" created updated id in
  moves_by order_evolves d d1 → db_orders d1 !! id = None → key_taken (BrokerModels.o_idempotency_key request) d1 = false →
  db_proposals d1 !! id = None → rule_proposal (proposal_ttl_minutes (config (for_symbol (BrokerModels.o_ticker request)))) id p →
  moves_by order_evolves (set_db_proposals (<[id := p]> (db_proposals d1)) (set_db_orders (<[id := row]> (db_orders d1)) d1)) d' →
  (∃ o', db_orders d' !! id = Some o' ∧ stored_status = o_status o') →
  rule_order_added d d' request status id stored_status.
Proof.
  intros row [Hm1 Hp1 _ _] Hn Hk Hnp Hp [Hm2 Hp2 _ _] (o' & Ho' & Hst). cbn in Hm2, Hp2.
  assert (∀ i, i ≠ id → match db_orders d1 !! i, db_orders d' !! i with Some x, Some y => order_evolves x y | None, None => True | _, _ => False end) as Hother.
  { intros i Hi. specialize (Hm2 i). by rewrite lookup_insert_ne in Hm2. }
  split.
  - split; [|by rewrite <- Hp1]. specialize (Hm1 id). rewrite Hn in Hm1. by destruct (db_orders d !! id).
  - by eapply key_taken_moves.
  - exists created, updated, o'. split; [done|]. split; [done|]. specialize (Hm2 id). by rewrite lookup_insert_eq, Ho' in Hm2.
  - eapply rows_move_trans; [apply _|exact Hm1|]. intros i. destruct (decide (i = id)) as [->|Hi].
    + by rewrite lookup_delete_eq, Hn.
    + rewrite lookup_delete_ne by done. by apply Hother.
  - exists p. split; [done|]. by rewrite Hp2, Hp1.
Qed.

(** The writing session: a stored proposal, or a database as it was. *)
Lemma claim_session_run stored c request risk hwm d clock r d' clock' :
  with_rsession (claim_session resize_action stored_numeric config actor reason request_id lease rule_id now_ stored c request risk hwm) d clock = (r, d', clock') →
  match r with
  | Ok (Claimed p oco) =>
      (∃ g, db_groups d !! rl_group_id lease = Some g ∧ lease_current lease g = true) ∧ outlived lease d' ∧ grows d d'
      ∧ rule_order_added d d' request (if rejected risk then REJECTED else PROPOSED) (po_order_id p) (po_status p)
      ∧ po_risk_reasons p = reasons risk
      ∧ oco = (if terminal_group stored c risk then live_siblings lease rule_id d else 0)
  | _ => d' = d
  end.
Proof.
  unfold with_rsession. match goal with |- context [?m (mkR (mkSession d d) d [] [] clock)] => destruct (m (mkR (mkSession d d) d [] [] clock)) as [x s'] eqn:E end.
  intros [= -> <- <-]. unfold claim_session in E. set (s0 := mkR (mkSession d d) d [] [] clock) in E. change (durable (r_session s')) with (dur s').
  apply rtx_bind_run in E as [(e & [=] & _)|(sib & s1 & [= <- <-] & E)].
  apply rtx_bind_run in E as [(e & Hc & ->)|(claimed & s2 & Hc & E)]; [by apply keeps_session in Hc; [|apply keeps_claim_rule]|].
  pose proof (keeps_session _ _ _ _ (keeps_claim_rule stored c risk hwm) Hc) as Hd2. change (dur s2 = d) in Hd2.
  pose proof (claim_rule_moves stored c risk hwm d) as Hmoves.
  unfold on_session in Hc. change (r_session _) with (mkSession d d) in Hc. destruct (claim_rule stored c risk hwm (mkSession d d)) as [cl t1] eqn:Ec.
  injection Hc as -> Hs2. cbn [snd] in Hmoves. destruct claimed; cbn [negb] in E.
  2: { injection E as <- <-. done. }
  apply claim_rule_spends in Ec. assert (wrk s2 = working t1) as Hw2 by (by rewrite <- Hs2).
  apply rtx_bind_run in E as [(e & Ho & ->)|(o & s3 & Ho & E)]; [apply store_order_durable in Ho; congruence|].
  apply store_order_Ok in Ho as (created & updated & Hid & Hkey & Hd3 & Hw3). cbv zeta in *. rewrite Hw2 in *.
  apply rtx_bind_run in E as [(e & [=] & _)|(d3 & s4 & [= <- <-] & E)].
  set (id := next_id (db_orders (working t1))) in *. assert (o_id o = id) as Hoid by (by rewrite Hid).
  assert (db_orders (wrk s3) !! o_id o = Some o) as Hin by (rewrite Hoid, Hw3; cbn; apply lookup_insert_eq).
  assert (∀ generation, (store_rule_proposal resize_action config actor reason request_id lease rule_id now_ stored request risk generation o ≫= λ p,
            mret (Claimed p (if terminal_group stored c risk then live_siblings lease rule_id d else 0))) s3 = (r, s') →
          match r with
          | Ok (Claimed p oco) => grows (working t1) (dur s') ∧ rule_order_added d (dur s') request (if rejected risk then REJECTED else PROPOSED) (po_order_id p) (po_status p)
              ∧ po_risk_reasons p = reasons risk ∧ oco = (if terminal_group stored c risk then live_siblings lease rule_id d else 0)
          | _ => dur s' = d
          end) as Hstore.
  { intros generation [(e & Hs & ->)|(p & s5 & Hs & [= <- <-])]%rtx_bind_run; apply store_rule_proposal_run in Hs; try done; [congruence|].
    destruct Hs as (Hp & (row & Hrow & Hnp & Hm & Hg) & Hst & Hr & _). rewrite Hoid in *. rewrite Hp, Hw3 in *. cbn in Hnp, Hm, Hg. split; [exact Hg|]. split; [|done].
    eapply rule_order_added_intro; [exact Hmoves|apply next_id_fresh|done|exact Hnp|exact Hrow| |exact Hst].
    rewrite Hid in Hm. exact Hm. }
  enough (match r with Ok (Claimed p oco) => grows (working t1) (dur s') ∧ rule_order_added d (dur s') request (if rejected risk then REJECTED else PROPOSED) (po_order_id p) (po_status p)
              ∧ po_risk_reasons p = reasons risk ∧ oco = (if terminal_group stored c risk then live_siblings lease rule_id d else 0) | _ => dur s' = d end) as Hr.
  { destruct r as [[| |p oco]|e]; try done. destruct Hr as (Hg & Hr). destruct Ec as (g & g' & Hgd & Hcur & Hg' & Hv & Hgrow).
    split; [by exists g|]. split; [|split; [by etrans|done]]. destruct (Hg _ _ Hg') as (g'' & Hg'' & Hle). exists g''. split; [done|].
    unfold lease_current in Hcur. rewrite !andb_true_iff, Z.eqb_eq in Hcur. lia. }
  destruct (sr_plan_id stored) as [plan_id|]; cbn [mbind option_bind] in E; [|by apply Hstore in E].
  destruct (db_plans _ !! plan_id); [by apply Hstore in E|]. injection E as <- <-. cbn. congruence.
Qed.

(** A lease given back: its group is freed and one audit row is written. *)
Definition gives_back (d d' : Db) : Prop :=
  ∃ g row, db_groups d !! rl_group_id lease = Some g ∧ lease_current lease g = true
    ∧ d' = set_db_audit (db_audit d ++ [row]) (set_db_groups (<[rl_group_id lease := free_lease now_ g]> (db_groups d)) d).

Lemma release_group_back a b c d r d' : release_group validate_numeric lease now_ [] a b c d = (r, d') → d' = d ∨ r = Ok true ∧ gives_back d d'.
Proof.
  unfold release_group. destruct (rule_context _ _ _) as [[[a' b'] c']|e]; [|intros [= <- <-]; by left]. cbn [outcome_mapM].
  unfold with_session. unfold mbind at 1, tx_bind at 1. rewrite update_group_run. cbn [working durable].
  destruct (db_groups d !! rl_group_id lease) as [g|] eqn:Hg; [|intros [= <- <-]; by left].
  destruct (lease_current lease g) eqn:Hc; [|intros [= <- <-]; by left].
  unfold mbind at 1, tx_bind at 1.
  match goal with |- context [rule_audit ?x ?y ?z ?w ?t ?k ?m ?s0] => destruct (rule_audit_run x y z w t k m s0) as [e ->] end.
  intros [= <- <-]. right. split; [done|]. exists g, e. done.
Qed.
End Claims.
