(* ===== verification/EvaluationProofs.v ===== *)
(** The evaluation loop of the rule worker: what each rule of a group was judged on, the marks
    the loop hands on, and the rule it stops at. *)

From S2P Require Import Prelude PyDecimal Assets BrokerModels Breakers RiskRules RiskEngine Pnl MarketClock.
From S2P Require Import Database Submission Snapshot ReconcileSession Reconciliation ReconcileLogic ReconcileProofs Panic PanicProofs.
From S2P Require Import ServiceBase ServiceSync Proposals RuleCommands RuleApplication RuleWorker RuleCommandProofs.
From Stdlib Require Import Ascii Lia.
Local Open Scope Z_scope.

(** * Marks *)

Fixpoint mark_of (marks : list (Z * Decimal)) (id : Z) : option Decimal :=
  match marks with [] => None | (k, m) :: marks => if k =? id then Some m else mark_of marks id end.

Lemma mark_of_set marks id m id' : mark_of (set_mark marks id m) id' = if id =? id' then Some m else mark_of marks id'.
Proof.
  induction marks as [|[k v] marks IH]; [done|]. cbn [set_mark mark_of]. destruct (Z.eqb_spec k id) as [->|Hne]; cbn [mark_of].
  - by destruct (id =? id').
  - rewrite IH. destruct (Z.eqb_spec k id') as [->|]; [|done]. by destruct (Z.eqb_spec id id') as [->|].
Qed.

(** * Quotes *)

Lemma dict_get_setdefault {A} (d : dict A) k v k' :
  dict_get (setdefault d k v) k' = match dict_get d k' with Some x => Some x | None => if decide (k = k') then Some v else None end.
Proof.
  unfold setdefault. destruct (decide (k = k')) as [<-|Hne].
  - destruct (dict_get d k) eqn:E; [by rewrite E|by rewrite dict_get_set_eq].
  - destruct (dict_get d k); [|rewrite dict_get_set_ne by done]; by destruct (dict_get d k').
Qed.

Section Judging.
Context {W : Type} `{!WorkerWorld W} (max_age : Decimal) (now_ : time).

Abbreviation verdict := (option (Quote * bool * option Decimal)).

(** The quote a rule was looked at with: the one kept for its ticker, found or just read. *)
Definition quoted (quotes : dict Quote) (t : string) (q : Quote) (w w' : W) : Prop :=
  dict_get quotes t = Some q ∧ (w' = w ∨ ww_read_quote t w = (Ok q, w')).

(** What the loop makes of one rule between two worlds: its market is closed, its quote is stale,
    or its condition was decided on the last price of the quote of its own ticker. *)
Inductive judged (quotes : dict Quote) (w : W) (x : StoredRule) : verdict → W → Prop :=
| judged_closed w' : ww_market_is_open (cm_ticker (sr_command x)) w = (Ok false, w') → judged quotes w x None w'
| judged_stale w1 w' q : ww_market_is_open (cm_ticker (sr_command x)) w = (Ok true, w1) →
    quoted quotes (cm_ticker (sr_command x)) q w1 w' →
    is_stale (q_as_of q) now_ max_age DEFAULT_MAX_FUTURE_SKEW_SECONDS = true → judged quotes w x None w'
| judged_looked w1 w' q b m : ww_market_is_open (cm_ticker (sr_command x)) w = (Ok true, w1) →
    quoted quotes (cm_ticker (sr_command x)) q w1 w' →
    is_stale (q_as_of q) now_ max_age DEFAULT_MAX_FUTURE_SKEW_SECONDS = false →
    fires (sr_command x) (q_last q) now_ = Ok (b, m) → judged quotes w x (Some (q, b, m)) w'.

(** Rules judged one after the other. *)
Inductive judged_all (quotes : dict Quote) : W → list StoredRule → list verdict → W → Prop :=
| judged_none w : judged_all quotes w [] [] w
| judged_next w w1 w2 x v xs vs : judged quotes w x v w1 → judged_all quotes w1 xs vs w2 → judged_all quotes w (x :: xs) (v :: vs) w2.

Definition keeps_quotes (before after : dict Quote) : Prop := ∀ t q, dict_get before t = Some q → dict_get after t = Some q.

(** The worlds the loop's own calls lead to. *)
Definition asks (w w' : W) : Prop := ∃ t, w' = (ww_market_is_open t w).2 ∨ w' = (ww_read_quote t w).2.

(** Every quote was there, or was read for its ticker during the run. *)
Definition quotes_read (w : W) (before after : dict Quote) : Prop :=
  ∀ t q, dict_get after t = Some q → dict_get before t = Some q ∨ ∃ w1 w2, rtc asks w w1 ∧ ww_read_quote t w1 = (Ok q, w2).

Lemma judged_keeps quotes quotes' w x v w' : keeps_quotes quotes quotes' → judged quotes w x v w' → judged quotes' w x v w'.
Proof.
  intros Hk [w2 Ho|w1 w2 q Ho [Hq Hw] Hs|w1 w2 q b m Ho [Hq Hw] Hs Hf];
    [by eapply judged_closed|eapply judged_stale; [done|split; [by apply Hk|done]|done]|eapply judged_looked; [done|split; [by apply Hk|done]|done..]].
Qed.

(** The quote of a rule, and the dictionary it is put in. *)
Lemma quote_for_run quotes t (s s' : SvcState W) q : quote_for quotes t s = (Ok (Ok q), s') →
  keeps_quotes quotes (setdefault quotes t q) ∧ quotes_read (sv_world s) quotes (setdefault quotes t q)
  ∧ quoted (setdefault quotes t q) t q (sv_world s) (sv_world s') ∧ rtc asks (sv_world s) (sv_world s').
Proof.
  intros Hread. split; [by intros t' q' Ht'; rewrite dict_get_setdefault, Ht'|].
  unfold quote_for in Hread. unfold quotes_read, quoted. rewrite dict_get_setdefault. destruct (dict_get quotes t) as [q0|] eqn:Eq.
  - injection Hread as -> <-. split; [|by split; [split; [done|by left]|]]. intros t' q'. rewrite dict_get_setdefault.
    destruct (dict_get quotes t') eqn:E; [by left|]. destruct (decide (t = t')) as [<-|]; [congruence|done].
  - unfold call in Hread. destruct (ww_read_quote t (sv_world s)) as [reply w1] eqn:Hrd. injection Hread as -> <-. cbn [sv_world].
    rewrite decide_True by done. split; [|split; [by split; [|right]|apply rtc_once; exists t; right; by rewrite Hrd]].
    intros t' q'. rewrite dict_get_setdefault. destruct (dict_get quotes t') eqn:E; [by left|]. destruct (decide (t = t')) as [<-|]; [|done].
    intros [= <-]. right. by exists (sv_world s), w1.
Qed.

Lemma quotes_read_after w w1 before after : rtc asks w w1 → quotes_read w1 before after → quotes_read w before after.
Proof. intros Hw Hr t q [?|(w2 & w3 & Hw2 & ?)]%Hr; [by left|right]. exists w2, w3. split; [by etrans|done]. Qed.

Lemma evaluate_rule_judged quotes x (s s' : SvcState W) qs v :
  evaluate_rule max_age now_ quotes x s = (Ok (qs, Ok v), s') →
  keeps_quotes quotes qs ∧ quotes_read (sv_world s) quotes qs ∧ judged qs (sv_world s) x v (sv_world s') ∧ rtc asks (sv_world s) (sv_world s').
Proof.
  unfold evaluate_rule. intros (open & s1 & Ho & Hrun)%svc_bind_Ok. unfold call in Ho.
  destruct (ww_market_is_open _ (sv_world s)) as [reply w] eqn:Hm. injection Ho as -> <-.
  assert (rtc asks (sv_world s) w) as Hw by (apply rtc_once; eexists; left; by rewrite Hm).
  destruct open as [[]|e]; [|injection Hrun as <- <- <-; cbn [sv_world]|done].
  2: { split; [by intros t q|]. split; [by left|]. split; [by apply judged_closed|done]. }
  apply svc_bind_Ok in Hrun as (reply & s2 & Hread & Hrun). destruct reply as [q|e]; [|by injection Hrun].
  apply quote_for_run in Hread as (Hk & Hr & Hq & Hw2). cbn [sv_world] in *.
  apply (quotes_read_after _ _ _ _ Hw) in Hr. assert (rtc asks (sv_world s) (sv_world s2)) by (by etrans).
  destruct (is_stale _ _ _ _) eqn:Hst.
  - injection Hrun as <- <- <-. split; [done|]. split; [done|]. split; [by eapply judged_stale|done].
  - injection Hrun as <- Hf <-. apply outcome_bind_Ok in Hf as ([b m] & Hf & [= <-]).
    split; [done|]. split; [done|]. split; [by eapply judged_looked|done].
Qed.

Definition does_not_fire (v : verdict) : Prop := match v with Some (_, true, _) => False | _ => True end.

Definition note (marks : list (Z * Decimal)) (y : StoredRule * verdict) : list (Z * Decimal) :=
  match y.2 with Some (_, _, m) => put_mark marks (sr_id y.1) m | None => marks end.

(** Where the loop stopped: at the end, or at the first rule that fires. *)
Definition stops_at (fired : option (StoredRule * Quote * option Decimal)) (examined rest : list StoredRule) (verdicts : list verdict) : Prop :=
  match fired with
  | None => rest = [] ∧ Forall does_not_fire verdicts
  | Some (x, q, m) => ∃ before vs, examined = before ++ [x] ∧ verdicts = vs ++ [Some (q, true, m)] ∧ Forall does_not_fire vs
  end.

(** What a finished loop did between two worlds, for the quotes and marks it started with. *)
Definition evaluated (quotes : dict Quote) (marks : list (Z * Decimal)) (rules : list StoredRule) (ev : Evaluation) (w w' : W) : Prop :=
  keeps_quotes quotes (ev_quotes ev) ∧ quotes_read w quotes (ev_quotes ev)
  ∧ ∃ examined rest verdicts, rules = examined ++ rest ∧ judged_all (ev_quotes ev) w examined verdicts w'
      ∧ ev_marks ev = foldl note marks (zip examined verdicts) ∧ stops_at (ev_fired ev) examined rest verdicts.

Lemma evaluate_run rules : ∀ ev (s s' : SvcState W) ev', evaluate max_age now_ ev rules s = (Ok (ev', None), s') → ev_fired ev = None →
  evaluated (ev_quotes ev) (ev_marks ev) rules ev' (sv_world s) (sv_world s').
Proof.
  unfold evaluated. induction rules as [|x rules IH]; intros ev s s' ev'; cbn [evaluate].
  { intros [= <- <-] Hev. split; [by intros t q|]. split; [by left|]. exists [], [], []. rewrite Hev. by repeat constructor. }
  intros ([quotes tried] & s1 & Ht & Hrun)%svc_bind_Ok _. destruct tried as [v|e]; [|done].
  apply evaluate_rule_judged in Ht as (Hk & Hr & Hj & Hw).
  assert (∀ marks, evaluate max_age now_ (mkEvaluation marks quotes x None) rules s1 = (Ok (ev', None), s') → does_not_fire v →
    marks = note (ev_marks ev) (x, v) → evaluated (ev_quotes ev) (ev_marks ev) (x :: rules) ev' (sv_world s) (sv_world s')) as Hgo.
  { intros marks (Hk' & Hr' & examined & rest & verdicts & -> & Hall & Hm & Hstop)%IH Hno ->; [|done]. cbn [ev_quotes ev_marks] in *.
    split; [by intros t q ?%Hk%Hk'|]. split; [intros t q [Hq|?]%(quotes_read_after _ _ _ _ Hw Hr'); [by apply Hr|by right]|].
    exists (x :: examined), rest, (v :: verdicts). split; [done|]. split; [econstructor; [by eapply judged_keeps|done]|]. split; [done|].
    unfold stops_at in *. destruct (ev_fired ev') as [[[y q] m]|].
    - destruct Hstop as (before & vs & -> & -> & Hvs). exists (x :: before), (v :: vs). split; [done|]. split; [done|]. by constructor.
    - destruct Hstop as [-> Hvs]. split; [done|]. by constructor. }
  destruct v as [[[q []] m]|]; [|by apply (Hgo _ Hrun)|by apply (Hgo _ Hrun)].
  injection Hrun as <- <-. cbn [ev_quotes ev_marks ev_fired]. split; [done|]. split; [done|].
  exists [x], rules, [Some (q, true, m)]. split; [done|]. split; [econstructor; [done|constructor]|]. split; [done|]. by exists [], [].
Qed.

Lemma mark_of_put marks id m id' : mark_of (put_mark marks id m) id' = if id =? id' then match m with Some h => Some h | None => mark_of marks id' end else mark_of marks id'.
Proof. destruct m as [h|]; cbn; [by rewrite mark_of_set; destruct (id =? id')|by destruct (id =? id')]. Qed.

(** Distinct rules keep their marks apart. *)
Lemma mark_of_noted l : ∀ marks, NoDup (map (λ y : StoredRule * verdict, sr_id y.1) l) → (∀ y, y ∈ l → mark_of marks (sr_id y.1) = None) →
  (∀ x q b m, (x, Some (q, b, m)) ∈ l → mark_of (foldl note marks l) (sr_id x) = m)
  ∧ ∀ id h, mark_of (foldl note marks l) id = Some h → mark_of marks id = Some h ∨ ∃ x q b, (x, Some (q, b, Some h)) ∈ l ∧ sr_id x = id.
Proof.
  induction l as [|[x v] l IH]; intros marks Hnd Hno; cbn [foldl map] in *; [split; [by intros ? ? ? ? ?%elem_of_nil|by left]|].
  apply NoDup_cons in Hnd as [Hx Hnd].
  assert (∀ id, id ≠ sr_id x → mark_of (note marks (x, v)) id = mark_of marks id) as Hother.
  { intros id Hne. unfold note. cbn. destruct v as [[[q b] m]|]; [|done]. rewrite mark_of_put. by rewrite (proj2 (Z.eqb_neq _ _)) by congruence. }
  assert (∀ y, y ∈ l → sr_id y.1 ≠ sr_id x) as Hdiff.
  { intros y Hy Heq. apply Hx. cbn. rewrite <- Heq. by apply (list_elem_of_fmap_2 (λ y, sr_id y.1)). }
  destruct (IH (note marks (x, v)) Hnd) as [H1 H2].
  { intros y Hy. rewrite Hother by auto. apply Hno. by right. }
  assert (∀ id, id = sr_id x → mark_of (foldl note (note marks (x, v)) l) id = mark_of (note marks (x, v)) id) as Hkeep.
  { intros id ->. assert (∀ y, y ∈ l → sr_id y.1 ≠ sr_id x) as Hd by done. clear -Hd. generalize (note marks (x, v)) as ms.
    induction l as [|[y w] l IH]; intros ms; [done|]. cbn [foldl]. rewrite IH by (intros; apply Hd; by right).
    unfold note. cbn. destruct w as [[[q b] m]|]; [|done]. rewrite mark_of_put. specialize (Hd (y, Some (q, b, m)) ltac:(by left)). cbn in Hd.
    by rewrite (proj2 (Z.eqb_neq _ _)). }
  split.
  - intros y q b m [[= -> <-]|Hy]%elem_of_cons; [|by eapply H1]. rewrite Hkeep by done. unfold note. cbn. rewrite mark_of_put, Z.eqb_refl.
    destruct m; [done|]. apply (Hno (x, Some (q, b, None))). by left.
  - intros id h [Hm|(y & q & b & Hy & Hid)]%H2; [|right; exists y, q, b; split; [by right|done]].
    destruct (decide (id = sr_id x)) as [->|Hne]; [|left; by rewrite <- Hother]. unfold note in Hm. cbn in Hm.
    destruct v as [[[q b] m]|]; [|by left]. rewrite mark_of_put, Z.eqb_refl in Hm. destruct m as [h'|]; [|by left]. injection Hm as ->.
    right. exists x, q, b. split; [by left|done].
Qed.

(** The verdict on a rule at the last price of its quote, and the mark it leaves: a price rule fires
    strictly below or above its price, a timed one from its deadline on, and a trailing one at
    or below its distance from the higher of the stored mark and the last price, which it
    leaves as its mark. *)
Definition verdict_right (x : StoredRule) (q : Quote) (b : bool) (m : option Decimal) : Prop :=
  match cm_condition (sr_command x) with
  | PriceCondition BELOW price => m = None ∧ b = dcmp_lt (q_last q) price
  | PriceCondition ABOVE price => m = None ∧ b = dcmp_lt price (q_last q)
  | TimeCondition deadline => m = None ∧ (b = true ↔ deadline ≤ now_)
  | TrailingCondition percent => ∃ h part kept threshold, m = Some h ∧ dcmp_le (q_last q) h = true
      ∧ (∀ old, cm_high_water_mark (sr_command x) = Some old → deq old dzero = false → dcmp_le old h = true)
      ∧ (h = q_last q ∨ cm_high_water_mark (sr_command x) = Some h)
      ∧ ddiv percent (of_Z 100) = Ok part ∧ dsub (of_Z 1) part = Ok kept ∧ dmul h kept = Ok threshold
      ∧ b = dcmp_le (q_last q) threshold
  end.

Lemma fires_right x q b m : fires (sr_command x) (q_last q) now_ = Ok (b, m) → verdict_right x q b m.
Proof.
  intros Hf. unfold verdict_right. destruct (cm_condition (sr_command x)) as [d p|percent|t] eqn:Hc.
  - unfold fires in Hf. rewrite Hc in Hf. destruct d; apply outcome_bind_Ok in Hf as (b' & Hb & [= <- <-]);
      (split; [done|]); by apply dgt_ok in Hb.
  - destruct (trailing_mark _ _ _ _ _ _ Hc Hf) as (h & -> & Hl & Ho & Ht). unfold fires in Hf. rewrite Hc in Hf.
    apply outcome_bind_Ok in Hf as (h' & _ & Hf). apply outcome_bind_Ok in Hf as (part & Hpart & Hf).
    apply outcome_bind_Ok in Hf as (kept & Hkept & Hf). apply outcome_bind_Ok in Hf as (threshold & Hth & Hf).
    apply outcome_bind_Ok in Hf as (b' & Hb & [= <- ->]). exists h, part, kept, threshold. split_and!; try done. by apply dle_ok in Hb.
  - unfold fires in Hf. rewrite Hc in Hf. injection Hf as <- <-. split; [done|]. apply Z.leb_le.
Qed.

(** The marks of a finished loop are those of the rules it looked at, and each follows its rule; the verdicts are right. *)
Definition marks_follow (marks : list (Z * Decimal)) (examined : list StoredRule) (verdicts : list verdict) : Prop :=
  (∀ x q b m, (x, Some (q, b, m)) ∈ zip examined verdicts → mark_of marks (sr_id x) = m ∧ verdict_right x q b m)
  ∧ ∀ id h, mark_of marks id = Some h → ∃ x q b, (x, Some (q, b, Some h)) ∈ zip examined verdicts ∧ sr_id x = id.

Lemma judged_zip quotes w xs vs w' : judged_all quotes w xs vs w' →
  length xs = length vs ∧ ∀ x q b m, (x, Some (q, b, m)) ∈ zip xs vs → verdict_right x q b m.
Proof.
  induction 1 as [|w w1 w2 x v xs vs Hj _ [Hl IH]]; [split; [done|by intros ? ? ? ? ?%elem_of_nil]|]. split; [cbn; congruence|].
  intros y q b m [[= -> <-]|Hy]%elem_of_cons; [|by eapply IH]. inversion Hj; subst. by eapply fires_right.
Qed.

Lemma marks_noted quotes w examined verdicts w' : judged_all quotes w examined verdicts w' → NoDup (map sr_id examined) →
  marks_follow (foldl note [] (zip examined verdicts)) examined verdicts.
Proof.
  intros [Hl Hs]%judged_zip Hnd. destruct (mark_of_noted (zip examined verdicts) []) as [H1 H2].
  - rewrite <- (map_map fst sr_id). change (map fst) with (fmap (M := list) (A := StoredRule * verdict) fst). by rewrite fst_zip by lia.
  - done.
  - split; [intros x q b m Hx; split; [by eapply H1|by eapply Hs]|]. intros id h [Hm|?]%H2; [done|done].
Qed.
End Judging.
