(* ===== verification/ProposalTheorems.v ===== *)
(** The theorems about proposals, rule commands, the rule application service and the rule
    worker, with concrete runs of each. *)

From S2P Require Import Prelude PyDecimal Assets BrokerModels Breakers RiskRules RiskEngine Pnl MarketClock.
From S2P Require Import Database Lifecycle SessionLogic BreakerStore OrderRepository RepositoryLogic RepositoryProofs SafetyState Snapshot SnapshotProofs.
From S2P Require Import RuleRepository RuleProofs PlanTruth PlanTruthProofs PlanLifecycle PlanLifecycleLogic PlanLifecycleProofs.
From S2P Require Import Submission OrderSystem.
From S2P Require Import ReconcileSession FillImport StatusSync Reconciliation ReconcileLogic ReconcileProofs Panic PanicProofs.
From S2P Require Import ServiceBase PlanCancel PlanCancelProofs ServiceSync ServiceProofs ServiceTheorems Proposals RuleCommands RuleApplication RuleWorker.
From S2P Require Import ProposalLogic ProposalProofs ProposalSystem RuleCommandProofs ExitProofs RuleStoreProofs ClaimProofs EvaluationProofs.
From Stdlib Require Import Ascii Lia.
Local Open Scope Z_scope.

(** * Calls *)

Inductive proposal_call : Type :=
| PPropose (terms : OrderTerms) (key : option string) (fresh : string)
| PBracket (supports : bool) (request : OrderRequest) (take_profit stop_loss : string)
| PReject (order_id : Z)
| PCancelRule (rule_id : Z) (key : string)
| PReplace (order_id : Z) (terms : OrderTerms) (key : option string) (fresh : string)
| PCreateRule (generated : string) (command : RuleCommand) (plan_id : option Z) (t : time)
| PTick (max_quote_age_seconds : Decimal) (owner : string).

Section Calls.
Context `{Digest} `{!Pydantic, !RuleCodec} {W : Type} `{!WorkerWorld W}.
Context (resize_action : string → Decimal → option string) (stored_numeric stored_fraction : Decimal → Decimal).
Context (parse_decimal : string → outcome Decimal).
Context (config : AssetClass → RiskConfig) (config_for_asset : option (AssetClass → RiskConfig)) (startup_key : option string).

Definition run_proposal_call (actor reason request_id : string) (c : proposal_call) : svc W () :=
  match c with
  | PPropose terms key fresh =>
      propose_order stored_numeric parse_decimal config config_for_asset startup_key terms key fresh actor reason request_id ≫= λ _, mret ()
  | PBracket supports request tp sl =>
      propose_bracket_order stored_numeric parse_decimal config supports request tp sl actor reason request_id ≫= λ _, mret ()
  | PReject id => reject_order id actor reason request_id ≫= λ _, mret ()
  | PCancelRule id key => service_cancel_rule id key actor reason request_id ≫= λ _, mret ()
  | PReplace id terms key fresh =>
      replace_order stored_numeric parse_decimal config config_for_asset startup_key resize_action id terms key fresh actor reason request_id ≫= λ _, mret ()
  | PCreateRule generated command plan_id t =>
      on_db (create_rule stored_numeric stored_fraction generated command plan_id t actor reason request_id) ≫= λ _, mret ()
  | PTick max_age owner =>
      tick resize_action stored_numeric config config_for_asset startup_key max_age owner actor reason request_id ≫= λ _, mret ()
  end.

Lemma sv_proposal_call `{!AcceptanceStatuses W} actor reason request_id c : serves extends (run_proposal_call actor reason request_id c).
Proof.
  assert (∀ A (m : svc W A), serves extends m → serves extends (m ≫= λ _, mret ())) as Hdrop by (intros; serve).
  destruct c; cbn [run_proposal_call]; apply Hdrop.
  - apply sv_methods_propose.
  - apply sv_with_context; [apply _|]. intros. apply sv_bracket.
  - apply sv_with_context; [apply _|]. intros. apply sv_in_session; [apply _|]. apply kt_reject_session.
  - apply sv_with_context; [apply _|]. intros. unfold cancel_rule_held. destruct (_ || _); [apply sv_raise, _|].
    apply sv_in_session; [apply _|]. apply kt_cancel_rule_session.
  - exact (sv_replace stored_numeric parse_decimal config config_for_asset startup_key resize_action _ _ _ _ _ _ _).
  - apply sv_on_db. intros d. apply create_rule_kept, _.
  - exact (sv_tick resize_action stored_numeric config config_for_asset startup_key _ _ _ _ _).
Qed.

(** A history of calls, each returned or raised, by anybody. *)
Definition run_history (history : list (string * string * string * proposal_call)) (s : SvcState W) : SvcState W :=
  foldl (λ s x, let '(actor, reason, request_id, c) := x in (run_proposal_call actor reason request_id c s).2) s history.

Lemma history_extends `{!AcceptanceStatuses W} history : ∀ s, extends (sv_db s) (sv_db (run_history history s)).
Proof.
  induction history as [|[[[actor reason] request_id] c] history IH]; intros s; [done|]. cbn. etrans; [|apply IH]. apply sv_proposal_call.
Qed.
End Calls.

(** * Giving a lease back *)

Lemma svc_bind_run {W A B} (m : svc W A) (f : A → svc W B) s r s' : (m ≫= f) s = (r, s') →
  (∃ e, m s = (Raise e, s') ∧ r = Raise e) ∨ ∃ a s1, m s = (Ok a, s1) ∧ f a s1 = (r, s').
Proof. unfold mbind, svc_bind. destruct (m s) as [[a|e] s1]; [intros Hf; right; by exists a, s1|intros [= <- <-]; left; by exists e]. Qed.

Lemma release_back `{!Pydantic} {W} `{Digest} actor reason request_id lease now_ (s s' : SvcState W) r :
  (release actor reason request_id lease now_ [] ≫= λ _, mret ()) s = (r, s') →
  match r with Raise _ => sv_db s' = sv_db s | Ok _ => sv_db s' = sv_db s ∨ gives_back lease now_ (sv_db s) (sv_db s') end.
Proof.
  unfold release, on_db. intros [(e & Hr & ->)|(b & s1 & Hr & [= <- <-])]%svc_bind_run;
    destruct (release_group _ _ _ _ _ _ _ _) as [x d] eqn:E; injection Hr as -> <-; cbn; apply release_group_back in E as [?|[? ?]]; auto; done.
Qed.

(** * Theorems *)

(** Claim C8.  Proposing an order.  A call that raises changes neither orders nor proposals.  One that
    finds the caller's key replays the stored order and changes nothing.  Any other return adds
    exactly one order under a new id and a new key, with the verdict of the risk check on the
    assembled snapshot as its status and one proposal that expires after the configured time, and
    leaves every breaker the check asked for tripped. *)
Theorem propose_order_outcome `{Digest} {W : Type} `{!ProposalWorld W} stored_numeric parse_decimal config config_for_asset startup_key
    terms key fresh actor reason request_id (s s' : SvcState W) r :
  propose_order stored_numeric parse_decimal config config_for_asset startup_key terms key fresh actor reason request_id s = (r, s') →
  propose_ends stored_numeric parse_decimal config config_for_asset startup_key terms key fresh s s' r.
Proof.
  unfold propose_order, with_context. destruct (mutation_context _ _ _) as [[[a b] c]|e]; [|by intros [= <- <-]].
  apply propose_held_ends.
Qed.

(** Claim C9.  Whatever sequence of proposals, brackets, rejections, rule cancellations, replacements, new
    rules and worker ticks ran, and however each of them ended, the stored rows keep their ids,
    unique keys and single claims, every order only moved along legal transitions or, in a
    reconciliation a call makes, from an unknown acceptance to expired, no proposal,
    tripped breaker or audit event was lost, and the order system may take the whole as one
    step.  The statuses of the broker are those the adapter maps its texts to. *)
Theorem proposals_keep_orders `{Digest} `{Parsers} {B : Type} `{!Broker B} `{!Pydantic, !RuleCodec} {W : Type} `{!WorkerWorld W, !AcceptanceStatuses W}
    resize_action stored_numeric stored_fraction parse_decimal config config_for_asset startup_key history (s : SvcState W) :
  let d' := sv_db (run_history resize_action stored_numeric stored_fraction parse_decimal config config_for_asset startup_key history s) in
  orders_wf (sv_db s) →
  orders_wf d' ∧ extends (sv_db s) d'
  ∧ ∀ (w : World B) ps, w_db w = sv_db s → sys_step (mkState w ps) (mkState (set_db w d') ps).
Proof.
  intros d' Hwf. assert (extends (sv_db s) d') as He by (apply history_extends; apply _).
  split; [by apply (ex_wf _ _ He)|]. split; [done|]. intros w ps Hw. apply SOther. rewrite Hw. apply (ex_orders _ _ He).
Qed.

(** A computed order quantity is rounded down.  For every positive value of at most 28 digits
    the result is the value cut after six decimals, less than one unit below it; nothing when
    the cut is zero and an error when more than fourteen digits stand before the point.  The
    plan lifecycle rounds every value the same way. *)
Theorem computed_quantity_rounds_down `{!Pydantic} `{!PydanticLaws} c e : 0 < c → fits c →
  normalize_computed_order_decimal (Fin c e) = rounded_down c e
  ∧ let k := truncate_at c e (-6) in
    (0 ≤ k ∧ dcmp_le (Fin k (-6)) (Fin c e) = true ∧ dcmp_lt (Fin c e) (Fin (k + 1) (-6)) = true)
    ∧ PlanLifecycle.normalize_computed_order_decimal (Fin c e) = rounded_down c e.
Proof. intros Hc Hf. split; [by apply computed_equation|]. split; [by apply truncate_bounds|]. by rewrite <- computed_agrees, computed_equation. Qed.

(** Claim C11.  An exit a rule is allowed never exceeds what is free of the position.  Its quantity is
    positive, at most the quantity of the rule and at most the closable position less the sum of
    what every live exit of the symbol reserves: what its fills left of its quantity, or of its
    notional over the reference price.  So two exits cannot sell the same shares: with the
    closable position and the reserved parts at one exponent and within 28 digits, the quantity
    is at most their exact difference. *)
Theorem rule_exit_within_position `{!Pydantic} `{!PydanticLaws} {W : Type} `{!ProposalWorld W} c price (s s' : SvcState W) a :
  bounded_action c price s = (Ok (Some a), s') → exit_kind (cm_kind c) = true →
  (∀ positions, (sb_positions (sv_world s)).1 = Ok positions → representable (held positions (upper (cm_ticker c)))) →
  (∀ wish, ra_qty (cm_action c) = Some wish → representable wish) →
  ∃ positions r k, (sb_positions (sv_world s)).1 = Ok positions
    ∧ reducible_qty (ra_side (cm_action c)) (held positions (upper (cm_ticker c))) = Ok r
    ∧ ra_side a = ra_side (cm_action c) ∧ ra_qty a = Some (Fin k (-6)) ∧ 0 < k ∧ dcmp_le (Fin k (-6)) r = true
    ∧ (∀ wish, ra_qty (cm_action c) = Some wish → dcmp_le (Fin k (-6)) wish = true)
    ∧ ∃ parts total free available, Forall2 (reserved_part (upper (cm_ticker c)) price)
          (live_exits (upper (cm_ticker c)) (order_side_value (ra_side (cm_action c))) (sv_db s)) parts
        ∧ dsum (omap id parts) = Ok total ∧ dsub r total = Ok free ∧ dmax free dzero = Ok available ∧ dcmp_le (Fin k (-6)) available = true
        ∧ ∀ e rz zs, e ≤ 0 → r = Fin rz e → fits rz → omap id parts = map (λ z, Fin z e) zs → Forall (Z.le 0) zs → fits (zsum zs) →
            dcmp_le (Fin k (-6)) (Fin (rz - zsum zs) e) = true.
Proof. apply bounded_action_within. Qed.

(** Claim C13.  Rules survive the database.  When a rule was created, exactly one row was added, under a new
    id, and reading the row back under the key of its group gives a valid command that compares
    equal to the validated command under that key, with the plan it was created for: the
    comparison the application makes before it proposes.  The amounts survive the SQLite columns
    although those store doubles: a fraction always, a high-water mark up to
    4503599627.370495 (2^52 - 1 millionths), which is assumed of the command; larger marks are
    valid and can come back changed ([large_mark_changes]). *)
Theorem stored_rule_roundtrip `{Digest} `{!Pydantic, !RuleCodec, !PydanticLaws, !RuleCodecLaws} stored_numeric stored_fraction
    generated command plan_id t actor reason request_id d id d' :
  (∀ id g, db_groups d !! id = Some g → g_id g = id) → normalize_group_key (Some generated) = Ok (Some generated) →
  double_column stored_numeric → double_column stored_fraction →
  (∀ mark, cm_high_water_mark command = Some mark → dcmp_le mark DOUBLE_EXACT = true) →
  create_rule stored_numeric stored_fraction generated command plan_id t actor reason request_id d = (Ok id, d') →
  ∃ c r g stored, validate_command command = Ok c ∧ db_rules d !! id = None ∧ db_rules d' = <[id := r]> (db_rules d)
    ∧ db_groups d' !! ru_group_id r = Some g ∧ g_group_key g = default generated (cm_group_key c)
    ∧ stored_rule (g_group_key g) r = Ok stored ∧ sr_id stored = id ∧ sr_plan_id stored = plan_id
    ∧ command_eqb (sr_command stored) (set_group_key (g_group_key g) c) = true.
Proof.
  intros Hkeyed Hgen Hn Hf Hmark (c & gid & g & st & Hc & -> & Hr & Hg & Hkey)%create_rule_run; [|done..].
  assert (normalize_group_key (Some (g_group_key g)) = Ok (Some (g_group_key g))) as Hk.
  { rewrite Hkey. pose proof (validated_key _ _ Hc) as Hk. by destruct (cm_group_key c). }
  assert (keeps_amounts stored_numeric stored_fraction c) as Hcols by (apply double_columns_keep; [done..|by rewrite (validated_mark _ _ Hc)]).
  eexists c, _, g, _. split; [done|]. split; [apply next_id_fresh|]. split; [done|]. split; [done|]. split; [done|].
  split; [by eapply new_rule_read|]. cbn. split; [done|]. split; [done|]. by eapply stored_command_eqb.
Qed.

(** Claim C10.  A rule's proposal and its claim are one transaction.  When the application reports a
    proposal, the lease was current and is spent for good, and the store holds exactly one order
    and one proposal more than before: the order is under an id and a key no order had, with the
    verdict of the risk check (and whatever the plan's lifecycle moved it to since), its proposal
    names the rule, and every other order is one that was there and only moved.  When it reports
    none, the database is unchanged, or the lease, still current, was given back and nothing but
    its group and the audit log differs; when it raises, the database is unchanged. *)
Theorem proposal_spends_lease `{Digest} `{!Pydantic} {W : Type} resize_action stored_numeric config
    actor reason request_id lease rule_id now_ stored c request snapshot hwm (s s' : SvcState W) r :
  settle_proposal resize_action stored_numeric config actor reason request_id lease rule_id now_ stored c request snapshot hwm s = (r, s') →
  match r with
  | Raise _ => sv_db s' = sv_db s
  | Ok o =>
      match ro_proposal o with
      | None => sv_db s' = sv_db s ∨ sr_plan_id stored ≠ None ∧ gives_back lease now_ (sv_db s) (sv_db s')
      | Some p => ∃ risk,
          verdict config request snapshot = Ok risk ∧ po_risk_reasons p = reasons risk
          ∧ (∃ g, db_groups (sv_db s) !! rl_group_id lease = Some g ∧ lease_current lease g = true)
          ∧ outlived lease (sv_db s') ∧ grows (sv_db s) (sv_db s')
          ∧ rule_order_added stored_numeric config lease rule_id now_ (sv_db s) (sv_db s') request
              (if rejected risk then REJECTED else PROPOSED) (po_order_id p) (po_status p)
      end
  end.
Proof.
  unfold settle_proposal. intros [(e & [= _ <-] & ->)|(risk & s1 & [= Hrisk <-] & Hrun)]%svc_bind_run; [done|].
  unfold in_session in Hrun. apply svc_bind_run in Hrun as [(e & Hc & ->)|(claim & s2 & Hc & Hrun)];
    destruct (with_rsession _ _ _) as [[x d] clock] eqn:E; injection Hc as -> <-; apply claim_session_run in E; [done|]. destruct claim as [| |p oco].
  - subst d. apply svc_bind_run in Hrun as [(e & Hrel & ->)|([] & s3 & Hrel & [= <- <-])]; cbn.
    + destruct (sr_plan_id stored) as [plan|]; [|done]. by apply release_back in Hrel.
    + destruct (sr_plan_id stored) as [plan|]; [|injection Hrel as <-; by left]. apply release_back in Hrel as [?|?]; [by left|by right].
  - subst d. injection Hrun as <- <-. by left.
  - injection Hrun as <- <-. cbn. destruct E as (Hcur & Hout & Hg & Hadd & Hr & _). by exists risk.
Qed.

(** Claim C12.  The rules of a group are looked at in order until one fires, and only what fires is
    handed on.  Each rule looked at (distinct ids, as primary keys are) is skipped because its market
    was closed or its quote stale, or is decided on the last price of the fresh quote of its own
    ticker while its market was open: a price rule strictly below or above its price, a timed
    one from its deadline on, a trailing one at or below its distance from the mark.  The quotes the tick kept stay as they are, and every new one was
    read for its ticker during this run.  The loop stops at the first rule whose condition held,
    with its quote and its mark, and otherwise looked at all of them.  The marks it hands on are
    exactly those of the rules it decided, fired or not: a trailing rule's is the higher of its
    stored mark and the last price, so it never falls, and other rules leave none. *)
Theorem fired_rule_sound {W : Type} `{!WorkerWorld W} max_age now_ quotes first rules ev (s s' : SvcState W) :
  evaluate max_age now_ (mkEvaluation [] quotes first None) rules s = (Ok (ev, None), s') → NoDup (map sr_id rules) →
  keeps_quotes quotes (ev_quotes ev) ∧ quotes_read (sv_world s) quotes (ev_quotes ev)
  ∧ ∃ examined rest verdicts, rules = examined ++ rest
      ∧ judged_all max_age now_ (ev_quotes ev) (sv_world s) examined verdicts (sv_world s')
      ∧ stops_at (ev_fired ev) examined rest verdicts ∧ marks_follow now_ (ev_marks ev) examined verdicts.
Proof.
  intros (Hk & Hr & examined & rest & verdicts & -> & Hall & -> & Hstop)%evaluate_run Hnd; [|done].
  rewrite map_app in Hnd. apply NoDup_app in Hnd as [Hnd _]. split; [done|]. split; [done|]. exists examined, rest, verdicts.
  split; [done|]. split; [done|]. split; [done|]. by eapply marks_noted.
Qed.

(** * Concrete runs *)

(** Field constraints as documented. *)
Definition demo_pydantic : Pydantic := {|
  validate_numeric v := match v with
                        | Fin c e => if (0 <? c) && (-6 <=? e) && (e <=? 0) && (c * 10 ^ (e + 6) <? 10 ^ 20) then Ok v else invalid
                        | _ => invalid
                        end;
  validate_fraction v := match v with
                         | Fin c e => if (0 <? c) && (-6 <=? e) && (e <=? 0) && (c * 10 ^ (e + 6) <=? 10 ^ 6) then Ok v else invalid
                         | _ => invalid
                         end;
|}.

Lemma deq_millionths c e : -6 ≤ e → deq (Fin c e) (Fin (c * 10 ^ (e + 6)) (-6)) = true.
Proof.
  intros He. unfold deq. cbn [is_nan orb negb andb]. rewrite (dcmp_align _ _ _ _ (-6)), Z.sub_diag, Z.mul_1_r by lia.
  replace (e - -6) with (e + 6) by lia. by rewrite Z.compare_refl.
Qed.

Lemma demo_pydantic_laws : @PydanticLaws demo_pydantic.
Proof.
  split; cbn.
  - intros [c e| |] v'; try done. destruct (_ && _) eqn:Hb; [|done]. intros [= <-]. rewrite !andb_true_iff, !Z.ltb_lt, !Z.leb_le in Hb. split; [done|].
    unfold pos_finite. cbn [is_finite andb]. destruct Hb as [[[Hc He] H0] _]. apply (dcmp_lt_align _ _ _ _ e); [lia..|]. rewrite Z.sub_diag. lia.
  - intros [c e| |] v'; try done. destruct (_ && _) eqn:Hb; [|done]. rewrite !andb_true_iff, !Z.ltb_lt, !Z.leb_le in Hb. intros _.
    exists (c * 10 ^ (e + 6)). destruct Hb as [[[Hc He] H0] Hd]. split; [|by apply deq_millionths]. split; [|done].
    apply Z.mul_pos_pos; [done|]. apply Z.pow_pos_nonneg; lia.
  - intros k Hk. rewrite !(proj2 (Z.ltb_lt _ _)) by lia. done.
  - intros [c e| |] x; try (by intros [= <-]; eexists). destruct (_ && _); [done|]. intros [= <-]. by eexists.
  - intros [c e| |] v'; try done. destruct (_ && _); [by intros [= <-]|done].
  - intros [c e| |] v'; try done. destruct (_ && _) eqn:Hb; [|done]. rewrite !andb_true_iff, Z.ltb_lt, !Z.leb_le in Hb. intros _.
    exists (c * 10 ^ (e + 6)). destruct Hb as [[[Hc He] H0] Hd]. split; [|by apply deq_millionths]. split; [|done].
    apply Z.mul_pos_pos; [done|]. apply Z.pow_pos_nonneg; lia.
  - intros k Hk. rewrite (proj2 (Z.ltb_lt _ _)), (proj2 (Z.leb_le _ (10 ^ 6))) by lia. done.
Qed.

(** A text for every condition and action. *)
Fixpoint bits_text (p : positive) : string :=
  match p with xH => EmptyString | xO p => String "0" (bits_text p) | xI p => String "1" (bits_text p) end.
Fixpoint text_bits (s : string) : positive :=
  match s with EmptyString => xH | String c s => if bool_decide (c = "1"%char) then xI (text_bits s) else xO (text_bits s) end.

Lemma text_bits_text p : text_bits (bits_text p) = p.
Proof. induction p as [p IH|p IH|]; cbn; by rewrite ?IH. Qed.

Definition decimal_parts (x : Decimal) : Z * Z + option bool :=
  match x with Fin c e => inl (c, e) | Inf b => inr (Some b) | NaN => inr None end.
Definition parts_decimal (x : Z * Z + option bool) : Decimal :=
  match x with inl (c, e) => Fin c e | inr (Some b) => Inf b | inr None => NaN end.
#[local] Instance decimal_countable : Countable Decimal := inj_countable' decimal_parts parts_decimal ltac:(by intros []).

Definition condition_parts (c : RuleCondition) : (bool * Decimal) + (Decimal + Z) :=
  match c with PriceCondition d p => inl (bool_decide (d = BELOW), p) | TrailingCondition p => inr (inl p) | TimeCondition t => inr (inr t) end.
Definition parts_condition (x : (bool * Decimal) + (Decimal + Z)) : RuleCondition :=
  match x with inl (b, p) => PriceCondition (if b : bool then BELOW else ABOVE) p | inr (inl p) => TrailingCondition p | inr (inr t) => TimeCondition t end.

Definition action_parts (a : RuleAction) : bool * bool * option Decimal * option Decimal * option Decimal :=
  (bool_decide (ra_side a = BUY), bool_decide (ra_order_type a = MARKET), ra_qty a, ra_notional a, ra_limit_price a).
Definition parts_action (x : bool * bool * option Decimal * option Decimal * option Decimal) : RuleAction :=
  let '(s, t, q, n, l) := x in mkAction (if s : bool then BUY else SELL) (if t : bool then MARKET else LIMIT) q n l.

Definition demo_codec : RuleCodec := {|
  encode_condition c := bits_text (encode (condition_parts c));
  decode_condition s := match decode (text_bits s) with Some x => Ok (parts_condition x) | None => invalid end;
  encode_action a := bits_text (encode (action_parts a));
  decode_action s := match decode (text_bits s) with Some x => Ok (parts_action x) | None => invalid end;
|}.

Lemma demo_codec_laws : @RuleCodecLaws demo_codec.
Proof.
  split; cbn.
  - intros c. rewrite text_bits_text, decode_encode. by destruct c as [[]| |].
  - intros a. rewrite text_bits_text, decode_encode. by destruct a as [[] [] ? ? ?].
Qed.

(** Ten shares at the broker, the evidence of the demo assembly and an open market. *)
Definition demo_proposals : ProposalWorld () := {|
  pw_service := fixed_service [] (Some []) (Ok ten_shares);
  pw_observe w := (demo_providers false, w);
|}.

Definition demo_worker : WorkerWorld () := {|
  ww_proposals := demo_proposals;
  ww_market_is_open _ w := (Ok true, w);
  ww_read_quote _ w := (Ok (demo_quote_at 300), w);
|}.

Definition demo_parse (text : string) : outcome Decimal := if bool_decide (text = "5") then Ok (Fin 5 0) else Raise InvalidOperation.

Definition demo_terms : OrderTerms := mkTerms "aapl" "sell" "market" (Some "5") None None "day".

#[local] Instance propose_result_eq_dec : EqDecision ProposeResult.
Proof. solve_decision. Defined.

Abbreviation propose_run := (@propose_order demo_digest_r () demo_proposals (λ x, x) demo_parse (λ _, demo_config) None None demo_terms
  (Some "key-9") "fresh" "op" "sell half" "r1" (demo_svc demo_assembly_db)).

Lemma propose_order_outcome_witness :
  bool_decide (propose_run.1 = Ok (mkProposeResult 3 "proposed" true [] [] false)) = true
  ∧ @propose_ends () demo_proposals (λ x, x) demo_parse (λ _, demo_config) None None demo_terms (Some "key-9") "fresh"
      (demo_svc demo_assembly_db) propose_run.2 propose_run.1.
Proof.
  split; [by vm_compute|]. destruct propose_run as [r s'] eqn:E.
  exact (@propose_order_outcome demo_digest_r () demo_proposals (λ x, x) demo_parse (λ _, demo_config) None None demo_terms
    (Some "key-9") "fresh" "op" "sell half" "r1" (demo_svc demo_assembly_db) s' r E).
Defined.

(** A proposal, its rejection, a new rule and a tick of the worker over it. *)
Definition demo_action : RuleAction := mkAction SELL MARKET (Some (Fin 5 0)) None None.
Definition demo_stop : RuleCommand :=
  mkCommand " aapl" STOP (PriceCondition BELOW (Fin 120 0)) demo_action None false (Some (Fin 5 (-1))) None IMMEDIATE true.

Definition demo_history : list (string * string * string * proposal_call) :=
  [ ("op", "sell half", "r1", PPropose demo_terms (Some "key-9") "fresh"); ("op", "no", "r2", PReject 3);
    ("op", "protect", "r3", PCreateRule "rule-1" demo_stop None 290); ("worker", "poll", "r4", PTick (Fin 60 0) "worker-1") ].

Abbreviation history_run := (@run_history demo_digest_r demo_pydantic demo_codec () demo_worker demo_resize_r (λ x, x) (λ x, x) demo_parse (λ _, demo_config)
  None None demo_history (demo_svc demo_assembly_db)).

Lemma demo_assembly_wf : orders_wf demo_assembly_db.
Proof.
  assert (∀ id o, db_orders demo_assembly_db !! id = Some o → id = 1 ∧ o = demo_row APPROVAL_RECORDED 0 ∨ id = 2 ∧ o = demo_pending_row) as Hall.
  { intros id o. cbn. rewrite lookup_insert_Some, lookup_singleton_Some. intros [[<- <-]|(_ & <- & <-)]; auto. }
  split.
  - intros id o [[-> ->]|[-> ->]]%Hall; (split; [done|]); split; cbn; first [lia|done].
  - intros i j o o' [[-> ->]|[-> ->]]%Hall [[-> ->]|[-> ->]]%Hall; done.
Qed.

Lemma proposals_keep_orders_witness :
  orders_wf (sv_db history_run)
  ∧ map (λ id, option_map o_status (db_orders (sv_db history_run) !! id)) [3; 4] = [Some "rejected"; Some "proposed"].
Proof.
  split; [|by vm_compute].
  assert (@AcceptanceStatuses () (fixed_broker [] (Some []))) as Hacc by (by apply fixed_acceptance, Forall_nil).
  exact (proj1 (@proposals_keep_orders demo_digest_r demo_parsers MockBroker _ demo_pydantic demo_codec () demo_worker Hacc
    demo_resize_r (λ x, x) (λ x, x) demo_parse (λ _, demo_config) None None demo_history (demo_svc demo_assembly_db) demo_assembly_wf)).
Defined.

Lemma computed_quantity_rounds_down_witness :
  @normalize_computed_order_decimal demo_pydantic (Fin 123456789 (-8)) = Ok (Some (Fin 1234567 (-6)))
  ∧ dcmp_le (Fin 1234567 (-6)) (Fin 123456789 (-8)) = true.
Proof.
  destruct (@computed_quantity_rounds_down demo_pydantic demo_pydantic_laws 123456789 (-8)) as [H1 H2];
    [lia|by unfold fits, context_prec; lia|]. split; [rewrite H1; by vm_compute|exact (proj1 (proj2 (proj1 H2)))].
Defined.

Definition demo_stored : StoredRule :=
  mkStored 1 1 (mkCommand "AAPL" STOP (PriceCondition BELOW (Fin 120 0)) demo_action (Some "rule-1") false (Some (Fin 5 (-1))) None IMMEDIATE true) None.

(** The exit of five of ten shares while sales of three and of five are live. *)
Abbreviation bounded_run := (@bounded_action demo_pydantic () demo_proposals (sr_command demo_stored) (Some (Fin 100 0)) (demo_svc demo_assembly_db)).

Lemma rule_exit_within_position_witness : match bounded_run.1 with
  | Ok (Some a) => ∃ k, ra_qty a = Some (Fin k (-6)) ∧ 0 < k ∧ dcmp_le (Fin k (-6)) (Fin 10 0) = true
  | _ => False
  end.
Proof.
  assert (match bounded_run.1 with Ok (Some _) => true | _ => false end = true) as Hb by (by vm_compute).
  destruct bounded_run as [r s'] eqn:E. cbn [fst] in *. destruct r as [[a|]|e]; [|discriminate Hb..].
  destruct (@rule_exit_within_position demo_pydantic demo_pydantic_laws () demo_proposals (sr_command demo_stored) (Some (Fin 100 0)) (demo_svc demo_assembly_db) s' a E)
    as (positions & r & k & [= <-] & Hr & _ & Hq & Hk & Hle & _).
  - reflexivity.
  - intros positions [= <-]. vm_compute. split; reflexivity.
  - intros wish [= <-]. vm_compute. split; reflexivity.
  - exists k. split; [exact Hq|]. split; [exact Hk|]. vm_compute in Hr. injection Hr as <-. exact Hle.
Defined.

(** [n / d] to the nearest integer. *)
Definition nearest (n d : Z) : Z := (2 * n + d) / (2 * d).

(** A positive number of millionths through a double: 53 bits of [k / 10^6], and back. *)
Definition double_millionths (k : Z) : Z :=
  let s := 72 - Z.log2 k in
  let s := if 2 ^ 53 * 10 ^ 6 <=? k * 2 ^ s then s - 1 else s in
  nearest (nearest (k * 2 ^ s) (10 ^ 6) * 10 ^ 6) (2 ^ s).

Definition double_stored (v : Decimal) : Decimal :=
  match v with
  | Fin c e => let k := truncate_at c e (-6) in if (0 <? k) && deq v (Fin k (-6)) then Fin (double_millionths k) (-6) else v
  | _ => v
  end.

Lemma nearest_close n d : 0 < d → 2 * Z.abs (nearest n d * d - n) ≤ d.
Proof. intros Hd. unfold nearest. pose proof (Z.div_mod (2 * n + d) (2 * d) ltac:(lia)). pose proof (Z.mod_pos_bound (2 * n + d) (2 * d) ltac:(lia)). nia. Qed.

Lemma double_stored_column : double_column double_stored.
Proof.
  intros [c e|[]|] k Hk Hv; try discriminate Hv. unfold double_stored. assert (truncate_at c e (-6) = k) as ->.
  { unfold deq in Hv. cbn [is_nan orb negb andb] in Hv. rewrite (dcmp_align _ _ _ _ (Z.min e (-6))) in Hv by lia.
    destruct (_ ?= _) eqn:E in Hv; [|done..]. apply Z.compare_eq_iff in E. unfold truncate_at.
    destruct (Z.leb_spec (-6) e) as [He|He]; [rewrite Z.min_r in E by lia|rewrite Z.min_l in E by lia]; rewrite Z.sub_diag, Z.mul_1_r in E; [done|].
    rewrite E. apply Z.quot_mul. by apply Z.pow_nonzero; lia. }
  rewrite (proj2 (Z.ltb_lt _ _)), Hv by lia. cbn [andb]. unfold double_millionths.
  set (s0 := 72 - Z.log2 k). set (s := if 2 ^ 53 * 10 ^ 6 <=? k * 2 ^ s0 then s0 - 1 else s0).
  assert (2 ^ 52 * 10 ^ 6 ≤ k * 2 ^ s ∧ 0 < s) as [Hlow Hs].
  { destruct (Z.log2_spec k ltac:(lia)) as [Hl _]. assert (Z.log2 k < 67) by (apply Z.log2_lt_pow2; lia). pose proof (Z.log2_nonneg k).
    assert (2 ^ 72 ≤ k * 2 ^ s0) by (replace (2 ^ 72) with (2 ^ Z.log2 k * 2 ^ s0) by (rewrite <- Z.pow_add_r by lia; f_equal; lia); nia).
    subst s. destruct (Z.leb_spec (2 ^ 53 * 10 ^ 6) (k * 2 ^ s0)) as [Hhigh|_]; [|lia]. split; [|lia].
    replace (2 ^ s0) with (2 * 2 ^ (s0 - 1)) in Hhigh by (rewrite <- Z.pow_succ_r by lia; f_equal; lia). lia. }
  assert (0 < 2 ^ s) by (apply Z.pow_pos_nonneg; lia). set (m := nearest (k * 2 ^ s) (10 ^ 6)).
  exists m, (2 ^ s), (nearest (m * 10 ^ 6) (2 ^ s)). split; [done|]. pose proof (nearest_close (k * 2 ^ s) (10 ^ 6) ltac:(lia)).
  split; [|split; [by apply nearest_close|done]]. change (2 ^ 53) with (2 ^ 52 * 2). lia.
Qed.

(** A valid mark that its column does not keep. *)
Example large_mark_changes : @validate_numeric demo_pydantic (Fin 9999999999999999 (-6)) = Ok (Fin 9999999999999999 (-6))
  ∧ double_stored (Fin 9999999999999999 (-6)) = Fin 9999999999999998 (-6).
Proof. by vm_compute. Qed.

Abbreviation create_run := (@create_rule demo_digest_r demo_pydantic demo_codec double_stored double_stored "rule-1" demo_stop None 290 "op" "protect" "r3" empty_db).

(** A trailing stop with a mark of 150.25. *)
Definition demo_trail : RuleCommand :=
  mkCommand "aapl" TRAILING (TrailingCondition (Fin 10 0)) demo_action None false (Some (Fin 5 (-1))) (Some (Fin 15025 (-2))) IMMEDIATE true.

Abbreviation trail_run := (@create_rule demo_digest_r demo_pydantic demo_codec double_stored double_stored "rule-1" demo_trail None 290 "op" "protect" "r3" empty_db).

Lemma stored_rule_roundtrip_witness : ∃ r stored, db_rules trail_run.2 !! 1 = Some r
  ∧ @stored_rule demo_pydantic demo_codec "rule-1" r = Ok stored
  ∧ opt_deq (cm_high_water_mark (sr_command stored)) (Some (Fin 15025 (-2))) = true.
Proof.
  assert (bool_decide (trail_run.1 = Ok 1) = true) as Hb by (by vm_compute). apply bool_decide_eq_true_1 in Hb.
  destruct trail_run as [r d'] eqn:E. cbn [fst snd] in *. subst r.
  destruct (@stored_rule_roundtrip demo_digest_r demo_pydantic demo_codec demo_pydantic_laws demo_codec_laws double_stored double_stored "rule-1" demo_trail None 290
    "op" "protect" "r3" empty_db 1 d') as (c & r & g & stored & Hc & _ & Hr & _ & Hg & Hs & _ & _ & Heq).
  - intros id g Hg. cbn in Hg. by rewrite lookup_empty in Hg.
  - reflexivity.
  - exact double_stored_column.
  - exact double_stored_column.
  - intros mark [= <-]. reflexivity.
  - exact E.
  - vm_compute in Hc. injection Hc as <-. cbn in Hg. rewrite Hg in *. exists r, stored. rewrite Hr, lookup_insert_eq. split; [reflexivity|].
    split; [exact Hs|]. unfold command_eqb in Heq. rewrite !andb_true_iff in Heq. destruct Heq as [[[_ Hm] _] _]; exact Hm.
Defined.

(** The rule of the demo history, leased. *)
Definition ruled_db : Db := (@lease_group demo_digest_r "worker-1" 1 300 60 "worker" "poll" "r4" create_run.2).2.
Definition ruled_lease : RuleGroupLease := mkGroupLease 1 "worker-1" 360 1.
Abbreviation settle_run := (@settle_proposal demo_digest_r demo_pydantic () demo_resize_r (λ x, x) (λ _, demo_config) "worker" "poll" "r5"
  ruled_lease 1 300 demo_stored (sr_command demo_stored) demo_request demo_assembled None (demo_svc ruled_db)).

Lemma proposal_spends_lease_witness : outlived ruled_lease (sv_db settle_run.2)
  ∧ ∃ risk id status, verdict (λ _, demo_config) demo_request demo_assembled = Ok risk
      ∧ rule_order_added (λ x, x) (λ _, demo_config) ruled_lease 1 300 ruled_db (sv_db settle_run.2) demo_request
          (if rejected risk then REJECTED else PROPOSED) id status.
Proof.
  assert (match settle_run.1 with Ok o => bool_decide (is_Some (ro_proposal o)) | _ => false end = true) as Hb by (by vm_compute).
  destruct settle_run as [r s'] eqn:E. cbn [fst snd] in *.
  pose proof (@proposal_spends_lease demo_digest_r demo_pydantic () demo_resize_r (λ x, x) (λ _, demo_config) "worker" "poll" "r5"
    ruled_lease 1 300 demo_stored (sr_command demo_stored) demo_request demo_assembled None (demo_svc ruled_db) s' r E) as Ht. clear E.
  destruct r as [o|e]; [|discriminate Hb]. apply bool_decide_eq_true_1 in Hb. destruct (ro_proposal o) as [p|]; [|by destruct Hb].
  destruct Ht as (risk & Hrisk & _ & _ & Hout & _ & Hadd). split; [exact Hout|]. exists risk, (po_order_id p), (po_status p). split; [exact Hrisk|exact Hadd].
Defined.

(** A trailing rule at ten percent below a mark of 120. *)
Definition trailing_rule : StoredRule :=
  mkStored 1 1 (mkCommand "AAPL" TRAILING (TrailingCondition (Fin 10 0)) demo_action (Some "rule-1") false None (Some (Fin 120 0)) IMMEDIATE true) None.

Abbreviation evaluation_run := (@evaluate () demo_worker (Fin 60 0) 300 (mkEvaluation [] [] trailing_rule None) [trailing_rule] (demo_svc empty_db)).

(** It fires on a quote of its own ticker and hands on a mark of at least 120. *)
Lemma fired_rule_sound_witness : match evaluation_run.1 with
  | Ok (ev, None) => ∃ q h, ev_fired ev = Some (trailing_rule, q, Some h) ∧ dict_get (ev_quotes ev) "AAPL" = Some q
      ∧ mark_of (ev_marks ev) 1 = Some h ∧ dcmp_le (Fin 120 0) h = true
  | _ => False
  end.
Proof.
  assert (match evaluation_run.1 with Ok (ev, None) => match ev_fired ev with Some (stored, _, Some _) => sr_id stored =? 1 | _ => false end | _ => false end = true)
    as Hb by (by vm_compute).
  destruct evaluation_run as [r s'] eqn:E. cbn [fst snd] in *. destruct r as [[ev [e|]]|e]; [discriminate Hb| |discriminate Hb].
  destruct (@fired_rule_sound () demo_worker (Fin 60 0) 300 [] trailing_rule [trailing_rule] ev (demo_svc empty_db) s' E)
    as (_ & _ & examined & rest & verdicts & Hsplit & Hall & Hstop & Hmarks & _); [by repeat constructor; intros ?%elem_of_nil|].
  destruct (ev_fired ev) as [[[stored q] [h|]]|]; [|discriminate Hb..]. destruct Hstop as (before & vs & -> & -> & _).
  destruct before as [|y [|]]; [|discriminate Hsplit..]. injection Hsplit as <- _.
  destruct vs as [|v0 [|]]; [|inversion Hall as [|? ? ? ? ? ? ? _ Hnil]; by inversion Hnil..]. cbn in Hall, Hmarks.
  inversion Hall as [|? ? ? ? ? ? ? Hj _]; subst. destruct (Hmarks trailing_rule q true (Some h)) as [Hm (h' & ? & ? & ? & [= <-] & _ & Hold & _)]; [by left|].
  inversion Hj as [| |? ? ? ? ? _ [Hq _] _ _]; subst. exists q, h. split; [done|]. split; [exact Hq|]. split; [exact Hm|exact (Hold (Fin 120 0) eq_refl eq_refl)].
Defined.
