(* ===== verification/Sessions.v ===== *)
(** Operator sessions: [app/auth.py].

    The table is one store of rows keyed by id, [token_hash] unique.  The keyed hash is a
    parameter ([Hmac]); tokens are drawn by the caller and clock readings are arguments.
    [hmac.compare_digest] is equality. *)

From S2P Require Import Prelude PyDecimal BrokerModels Pnl Database Lifecycle.
From Stdlib Require Import Ascii Lia.
Local Open Scope Z_scope.

(** [hmac.new(key, value, sha256)], as bytes and as hexadecimal text. *)
Class Hmac : Type := { hmac_digest : string → string → string; hmac_hex : string → string → string }.

(** ** Errors *)

Definition InvalidCredentials : exn := ApiError "invalid_credentials" 401.
Definition InvalidSession : exn := ApiError "invalid_session" 401.
Definition SessionExpired : exn := ApiError "session_expired" 401.
Definition CsrfRejected : exn := ApiError "csrf_required" 403.
Definition RecentAuthenticationRequired : exn := ApiError "recent_authentication_required" 403.

(** ** The table *)

Record AuthSession : Type := mkAuthSession {
  se_id : Z;
  se_token_hash : string;
  se_csrf_hash : string;
  se_actor : string;
  se_created_at : time;
  se_expires_at : time;
  se_authenticated_at : time;
  se_revoked_at : option time;
}.

Definition set_se_authenticated_at (t : time) (r : AuthSession) : AuthSession :=
  mkAuthSession (se_id r) (se_token_hash r) (se_csrf_hash r) (se_actor r) (se_created_at r) (se_expires_at r) t (se_revoked_at r).
Definition set_se_revoked_at (t : time) (r : AuthSession) : AuthSession :=
  mkAuthSession (se_id r) (se_token_hash r) (se_csrf_hash r) (se_actor r) (se_created_at r) (se_expires_at r) (se_authenticated_at r) (Some t).

Abbreviation AuthStore := (gmap Z AuthSession).

Record SessionPrincipal : Type := mkPrincipal { sp_actor : string; sp_session_id : Z; sp_authenticated_at : time }.
Record IssuedSession : Type := mkIssued { is_token : string; is_csrf : string; is_expires_at : time }.

Definition nul_byte : string := String "000"%char EmptyString.

Section Auth.
Context `{Digest, Hmac}.

(** [_hash], [_derive_key] and [_keyed_hash]. *)
Definition hash_text (value : string) : string := sha256_hex value.
Definition derive_key (application_secret purpose : string) : string :=
  hmac_digest application_secret ("trading-assistant/session-keys/v1" +:+ nul_byte +:+ purpose).
Definition keyed_hash (value key : string) : string := hmac_hex key value.

(** The constructor's test of the secret. *)
Definition session_auth (application_secret : string) : outcome string :=
  if negb (nonempty (strip application_secret)) then Raise (RuntimeError "APP_API_TOKEN is required") else Ok application_secret.

Section Service.
Context (application_secret : string) (ttl : time).

Definition session_key : string := derive_key application_secret "session-token-lookup".
Definition csrf_key : string := derive_key application_secret "csrf-token".

(** The row of a token. *)
Definition token_row (token_hash : string) (s : AuthStore) : option AuthSession :=
  option_map (λ x, x.2.2) (list_find (λ x, se_token_hash x.2 = token_hash) (map_to_list s)).

(** The operator secret, as [login] and [reauthenticate] test it. *)
Definition check_secret (supplied_secret expected_secret : string) : outcome () :=
  if negb (nonempty (strip expected_secret)) then Raise (RuntimeError "APP_API_TOKEN is required")
  else if negb (bool_decide (expected_secret = application_secret)) then Raise (RuntimeError "session authentication key mismatch")
  else if negb (bool_decide (supplied_secret = expected_secret)) then Raise InvalidCredentials
  else Ok ().

(** [login]; [token] is [secrets.token_urlsafe(32)]. *)
Definition login (supplied_secret expected_secret actor token : string) (now : time) (s : AuthStore) : outcome IssuedSession * AuthStore :=
  match check_secret supplied_secret expected_secret with
  | Raise e => (Raise e, s)
  | Ok _ =>
      let csrf := keyed_hash token csrf_key in
      let r := mkAuthSession (next_id s) (keyed_hash token session_key) (hash_text csrf) actor now (now + ttl) now None in
      match token_row (se_token_hash r) s with
      | Some _ => (Raise (IntegrityError "auth_sessions.token_hash"), s)
      | None => (Ok (mkIssued token csrf (se_expires_at r)), <[se_id r := r]> s)
      end
  end.

Definition authenticate (token : string) (now : time) (s : AuthStore) : outcome SessionPrincipal :=
  if negb (nonempty token) then Raise InvalidSession
  else match token_row (keyed_hash token session_key) s with
  | None => Raise InvalidSession
  | Some r =>
      if bool_decide (se_revoked_at r ≠ None) then Raise InvalidSession
      else if se_expires_at r <=? now then Raise SessionExpired
      else Ok (mkPrincipal (se_actor r) (se_id r) (se_authenticated_at r))
  end.

Definition require_csrf (token supplied_csrf : string) (now : time) (s : AuthStore) : outcome SessionPrincipal :=
  principal ← authenticate token now s;
  if negb (nonempty supplied_csrf) then Raise CsrfRejected
  else match s !! sp_session_id principal with
  | None => Raise CsrfRejected
  | Some r => if bool_decide (se_csrf_hash r = hash_text supplied_csrf) then Ok principal else Raise CsrfRejected
  end.

Definition csrf_token (token : string) (now : time) (s : AuthStore) : outcome string :=
  principal ← authenticate token now s;
  let csrf := keyed_hash token csrf_key in
  match s !! sp_session_id principal with
  | None => Raise InvalidSession
  | Some r =>
      if bool_decide (se_revoked_at r ≠ None) then Raise InvalidSession
      else if bool_decide (se_csrf_hash r = hash_text csrf) then Ok csrf else Raise CsrfRejected
  end.

(** [reauthenticate]; the session is looked up before the secret is tested, and the clock is
    read twice. *)
Definition reauthenticate (token supplied_secret expected_secret : string) (now later : time) (s : AuthStore)
    : outcome SessionPrincipal * AuthStore :=
  match (principal ← authenticate token now s; check_secret supplied_secret expected_secret ≫= λ _, Ok principal) with
  | Raise e => (Raise e, s)
  | Ok principal =>
      match s !! sp_session_id principal with
      | None => (Raise InvalidSession, s)
      | Some r =>
          if bool_decide (se_revoked_at r ≠ None) then (Raise InvalidSession, s)
          else (Ok (mkPrincipal (sp_actor principal) (sp_session_id principal) later),
                <[sp_session_id principal := set_se_authenticated_at later r]> s)
      end
  end.

Definition logout (token : string) (now later : time) (s : AuthStore) : outcome () * AuthStore :=
  match authenticate token now s with
  | Raise e => (Raise e, s)
  | Ok principal =>
      match s !! sp_session_id principal with
      | None => (Raise InvalidSession, s)
      | Some r => (Ok (), <[sp_session_id principal := set_se_revoked_at later r]> s)
      end
  end.
End Service.
End Auth.

(** * What a session is *)

Section Theory.
Context `{Digest, Hmac} (application_secret : string) (ttl : time).

Abbreviation token_hash token := (keyed_hash token (session_key application_secret)).

(** Rows are stored under their id and hashes are unique. *)
Record store_wf (s : AuthStore) : Prop := {
  sw_rows : ∀ id r, s !! id = Some r → se_id r = id;
  sw_unique : ∀ i j r r', s !! i = Some r → s !! j = Some r' → se_token_hash r = se_token_hash r' → i = j;
}.

Lemma token_row_Some h (s : AuthStore) r : token_row h s = Some r → se_token_hash r = h ∧ ∃ id, s !! id = Some r.
Proof.
  unfold token_row. destruct (list_find _ _) as [[n [id x]]|] eqn:E; [|done]. intros [= <-].
  apply list_find_Some in E as (Hin & Hk & _). split; [done|]. exists id. apply elem_of_map_to_list. by eapply list_elem_of_lookup_2.
Qed.

Lemma token_row_None h (s : AuthStore) : token_row h s = None ↔ ∀ id r, s !! id = Some r → se_token_hash r ≠ h.
Proof.
  unfold token_row. destruct (list_find _ _) as [[n [i x]]|] eqn:E; cbn.
  - split; [done|]. apply list_find_Some in E as (Hin & Hk & _). intros Hall. destruct (Hall i x); [|done].
    apply elem_of_map_to_list. by eapply list_elem_of_lookup_2.
  - split; [|done]. intros _ id r Hr Hh. apply list_find_None in E. rewrite Forall_forall in E. apply (E (id, r)); [|done]. by apply elem_of_map_to_list.
Qed.

Lemma token_row_lookup (s : AuthStore) id r : store_wf s → s !! id = Some r → token_row (se_token_hash r) s = Some r.
Proof.
  intros [_ Hu] Hr. destruct (token_row _ s) as [r'|] eqn:E.
  - apply token_row_Some in E as (Hh & i & Hi). by rewrite (Hu _ _ _ _ Hi Hr Hh), Hr in Hi.
  - rewrite token_row_None in E. by destruct (E _ _ Hr).
Qed.

(** The session a token opens at an instant. *)
Definition opens (token : string) (now : time) (s : AuthStore) (r : AuthSession) : Prop :=
  token ≠ EmptyString ∧ s !! se_id r = Some r ∧ se_token_hash r = token_hash token ∧ se_revoked_at r = None ∧ now < se_expires_at r.

Lemma authenticate_Ok token now s p : store_wf s →
  authenticate application_secret token now s = Ok p ↔ ∃ r, opens token now s r ∧ p = mkPrincipal (se_actor r) (se_id r) (se_authenticated_at r).
Proof.
  intros Hwf. unfold authenticate, opens. destruct (nonempty token) eqn:Ht; cbn [negb].
  - assert (token ≠ EmptyString) as Hne by (by destruct token). destruct (token_row _ s) as [r|] eqn:E.
    + apply token_row_Some in E as (Hh & id & Hid). pose proof (sw_rows _ Hwf _ _ Hid) as Hrow. subst id.
      case_bool_decide as Hrev; [split; [done|]|destruct (Z.leb_spec (se_expires_at r) now) as [Hx|Hx]; [split; [done|]|split]].
      * intros (r' & (_ & Hr' & Hh' & Hn & _) & _). rewrite <- Hh in Hh'. assert (se_id r' = se_id r) as He by (by eapply sw_unique). congruence.
      * intros (r' & (_ & Hr' & Hh' & Hn & Hlt) & _). rewrite <- Hh in Hh'. assert (se_id r' = se_id r) as He by (by eapply sw_unique).
        rewrite He, Hid in Hr'. injection Hr' as <-. lia.
      * intros [= <-]. exists r. assert (se_revoked_at r = None) by (by destruct (se_revoked_at r)). done.
      * intros (r' & (_ & Hr' & Hh' & _) & ->). rewrite <- Hh in Hh'. assert (se_id r' = se_id r) as He by (by eapply sw_unique).
        rewrite He, Hid in Hr'. by injection Hr' as <-.
    + split; [done|]. intros (r & (_ & Hr & Hh & _) & _). rewrite token_row_None in E. by destruct (E _ _ Hr).
  - split; [done|]. intros (r & (Hne & _) & _). by destruct token.
Qed.

(** ** Calls *)

Inductive auth_op : Type :=
| ALogin (supplied expected actor token : string) (now : time)
| AReauthenticate (token supplied expected : string) (now later : time)
| ALogout (token : string) (now later : time).

Definition run_auth_op (op : auth_op) (s : AuthStore) : AuthStore :=
  match op with
  | ALogin supplied expected actor token now => (login application_secret ttl supplied expected actor token now s).2
  | AReauthenticate token supplied expected now later => (reauthenticate application_secret token supplied expected now later s).2
  | ALogout token now later => (logout application_secret token now later s).2
  end.

(** A row keeps its identity, its hashes, its actor and its expiry, and a revocation stays. *)
Definition session_evolves (r r' : AuthSession) : Prop :=
  se_id r' = se_id r ∧ se_token_hash r' = se_token_hash r ∧ se_csrf_hash r' = se_csrf_hash r ∧ se_actor r' = se_actor r
  ∧ se_expires_at r' = se_expires_at r ∧ (se_revoked_at r ≠ None → se_revoked_at r' ≠ None).

#[export] Instance session_evolves_preorder : PreOrder session_evolves.
Proof. split; [by intros r|]. intros x y z (? & ? & ? & ? & ? & ?) (? & ? & ? & ? & ? & ?). unfold session_evolves. repeat split; try congruence. auto. Qed.

Definition sessions_evolve (s s' : AuthStore) : Prop := ∀ id r, s !! id = Some r → ∃ r', s' !! id = Some r' ∧ session_evolves r r'.

#[export] Instance sessions_evolve_preorder : PreOrder sessions_evolve.
Proof.
  split; [intros s id r Hr; by exists r|]. intros x y z H1 H2 id r Hr. destruct (H1 _ _ Hr) as (r1 & Hr1 & E1).
  destruct (H2 _ _ Hr1) as (r2 & Hr2 & E2). exists r2. split; [done|by etrans].
Qed.

Lemma evolve_insert (s : AuthStore) id r r' : s !! id = Some r → session_evolves r r' → sessions_evolve s (<[id := r']> s).
Proof.
  intros Hr He i x Hx. destruct (decide (i = id)) as [->|Hne]; [exists r'; rewrite lookup_insert_eq; split; [done|by simplify_eq]|].
  exists x. by rewrite lookup_insert_ne.
Qed.

Lemma wf_insert (s : AuthStore) id r r' : store_wf s → s !! id = Some r → session_evolves r r' → store_wf (<[id := r']> s).
Proof.
  intros [Hr Hu] Hid (E1 & E2 & _).
  assert (∀ i x, <[id := r']> s !! i = Some x → ∃ y, s !! i = Some y ∧ se_id y = se_id x ∧ se_token_hash y = se_token_hash x) as Hback.
  { intros i x [[<- <-]|[_ Hx]]%lookup_insert_Some; eauto. }
  split.
  - intros i x (y & Hy & <- & _)%Hback. by apply Hr.
  - intros i j x y (x' & Hx & _ & Ex)%Hback (y' & Hy & _ & Ey)%Hback Hh. eapply Hu; [exact Hx|exact Hy|congruence].
Qed.

Lemma auth_op_steps op s : store_wf s → store_wf (run_auth_op op s) ∧ sessions_evolve s (run_auth_op op s).
Proof.
  intros Hwf. destruct op as [supplied expected actor token now|token supplied expected now later|token now later]; cbn [run_auth_op].
  - unfold login. destruct (check_secret _ _ _); [|done]. cbn [se_token_hash]. destruct (token_row _ s) eqn:E; [done|]. cbn. rewrite token_row_None in E. split.
    + split.
      * intros i x [[<- <-]|[_ Hx]]%lookup_insert_Some; [done|by apply Hwf].
      * intros i j x y [[<- <-]|[Hi Hx]]%lookup_insert_Some [[<- <-]|[Hj Hy]]%lookup_insert_Some Hh; [done|..|by eapply sw_unique].
        -- by destruct (E _ _ Hy).
        -- by destruct (E _ _ Hx).
    + intros i x Hx. exists x. rewrite lookup_insert_ne; [done|]. intros <-. by rewrite next_id_fresh in Hx.
  - unfold reauthenticate. destruct (_ ≫= _) as [p|e]; [|done]. destruct (s !! sp_session_id p) as [r|] eqn:Hr; [|done].
    case_bool_decide as Hn; [done|]. cbn. split; [by eapply wf_insert|by eapply evolve_insert].
  - unfold logout. destruct (authenticate _ _ _ _) as [p|e]; [|done]. destruct (s !! sp_session_id p) as [r|] eqn:Hr; [|done]. cbn.
    assert (session_evolves r (set_se_revoked_at later r)) by (repeat split; done). split; [by eapply wf_insert|by eapply evolve_insert].
Qed.

Definition run_auth_ops (ops : list auth_op) (s : AuthStore) : AuthStore := foldl (λ s op, run_auth_op op s) s ops.

Lemma auth_ops_steps ops : ∀ s, store_wf s → store_wf (run_auth_ops ops s) ∧ sessions_evolve s (run_auth_ops ops s).
Proof.
  induction ops as [|op ops IH]; intros s Hwf; [done|]. cbn. destruct (auth_op_steps op s Hwf) as [Hwf1 He].
  destruct (IH _ Hwf1) as [Hwf2 He2]. split; [done|by etrans].
Qed.
End Theory.

(** * Closed sessions stay closed *)

Section Closing.
Context `{Digest, Hmac} (application_secret : string) (ttl : time).

Abbreviation token_hash token := (keyed_hash token (session_key application_secret)).
Abbreviation run_auth_ops := (run_auth_ops application_secret ttl).

(** The session of [token] was logged out, or its time is over at [now]. *)
Definition closed (token : string) (now : time) (s : AuthStore) : Prop :=
  ∃ id r, s !! id = Some r ∧ se_token_hash r = token_hash token ∧ (se_revoked_at r ≠ None ∨ se_expires_at r ≤ now).

Lemma closed_refused token now s : store_wf s → closed token now s →
  authenticate application_secret token now s ∈ [Raise InvalidSession; Raise SessionExpired].
Proof.
  intros Hwf (id & r & Hr & Hh & Hc). unfold authenticate. destruct (nonempty token); cbn [negb]; [|by left].
  rewrite <- Hh, (token_row_lookup _ _ _ Hwf Hr). case_bool_decide as Hrev; [by left|].
  destruct Hc as [|Hx]; [done|]. rewrite (proj2 (Z.leb_le _ _) Hx). right. by left.
Qed.

Lemma closed_evolve token now now' s s' : closed token now s → sessions_evolve s s' → now ≤ now' → closed token now' s'.
Proof.
  intros (id & r & Hr & Hh & Hc) He Hle. destruct (He _ _ Hr) as (r' & Hr' & _ & E2 & _ & _ & E5 & E6).
  exists id, r'. split; [done|]. split; [congruence|]. destruct Hc as [Hc|Hc]; [left; auto|right; rewrite E5; lia].
Qed.

(** Claim C37.  A session that was logged out or ran out never opens again.  From a store with unique ids and
    hashes, once the session of a token is revoked or past its expiry, every later request with
    that token, after any sequence of logins, reauthentications and logouts by anyone, is
    refused as an invalid or an expired session, by the plain check and by the check of the
    CSRF token; and a login that happened to draw the token again is refused. *)
Theorem closed_session_stays_closed token now now' ops s supplied csrf actor :
  store_wf s → closed token now s → now ≤ now' →
  let s' := run_auth_ops ops s in
  authenticate application_secret token now' s' ∈ [Raise InvalidSession; Raise SessionExpired]
  ∧ require_csrf application_secret token csrf now' s' ∈ [Raise InvalidSession; Raise SessionExpired]
  ∧ ∃ e, login application_secret ttl supplied application_secret actor token now' s' = (Raise e, s').
Proof.
  intros Hwf Hc Hle. cbv zeta. destruct (auth_ops_steps application_secret ttl ops s Hwf) as [Hwf' He].
  pose proof (closed_evolve _ _ _ _ _ Hc He Hle) as Hc'. pose proof (closed_refused _ _ _ Hwf' Hc') as Hno.
  split; [done|]. split.
  - unfold require_csrf. rewrite !elem_of_cons, elem_of_nil in *. destruct Hno as [->|[->|[]]]; auto.
  - destruct Hc' as (id & r & Hr & Hh & _). unfold login. destruct (check_secret _ _ _); [|by eexists]. cbn [se_token_hash].
    rewrite <- Hh, (token_row_lookup _ _ _ Hwf' Hr). by eexists.
Qed.

(** ** What a login opens *)

Lemma login_Ok supplied expected actor token now s i s' :
  login application_secret ttl supplied expected actor token now s = (Ok i, s') →
  let csrf := keyed_hash token (csrf_key application_secret) in
  supplied = application_secret ∧ expected = application_secret
  ∧ token_row (token_hash token) s = None
  ∧ i = mkIssued token csrf (now + ttl)
  ∧ s' = <[next_id s := mkAuthSession (next_id s) (token_hash token) (hash_text csrf) actor now (now + ttl) now None]> s.
Proof.
  unfold login, check_secret. destruct (nonempty (strip expected)); cbn [negb]; [|done].
  destruct (bool_decide_reflect (expected = application_secret)) as [He|]; cbn [negb]; [|done].
  destruct (bool_decide_reflect (supplied = expected)) as [Hs|]; cbn [negb]; [|done]. cbn [se_token_hash].
  destruct (token_row _ s); [done|]. intros [= <- <-]. split_and!; congruence.
Qed.

Lemma require_csrf_Ok token supplied now s p : store_wf s →
  require_csrf application_secret token supplied now s = Ok p →
  supplied ≠ EmptyString ∧ ∃ r, opens application_secret token now s r ∧ se_csrf_hash r = hash_text supplied
    ∧ p = mkPrincipal (se_actor r) (se_id r) (se_authenticated_at r).
Proof.
  intros Hwf Hp. unfold require_csrf in Hp. apply outcome_bind_Ok in Hp as (p0 & Hp0 & Hp).
  destruct (nonempty supplied) eqn:Hs; cbn in Hp; [|done]. split; [by destruct supplied|].
  apply (authenticate_Ok _ _ _ _ _ Hwf) in Hp0 as (r & Ho & ->). exists r. cbn in Hp. destruct Ho as (Ht & Hr & Ho). rewrite Hr in Hp.
  case_bool_decide as Hh; [|done]. injection Hp as <-. unfold opens. by destruct Ho as (? & ? & ?).
Qed.

(** A login opens exactly one session, and only its own tokens use it.  On a store grown by any
    sequence of calls from the empty one, a login succeeds only with the application secret;
    the token it issues then authenticates its actor at every instant before the expiry, with
    the issued CSRF token and, the hash being injective, with no other string.  At the expiry the session is over. *)
Theorem login_opens_session ops supplied expected actor token now i s' at_ csrf :
  Inj (=) (=) sha256_hex →
  login application_secret ttl supplied expected actor token now (run_auth_ops ops ∅) = (Ok i, s') → token ≠ EmptyString →
  supplied = application_secret
  ∧ (at_ < is_expires_at i → ∃ p,
       authenticate application_secret (is_token i) at_ s' = Ok p ∧ sp_actor p = actor ∧ sp_authenticated_at p = now
       ∧ csrf_token application_secret (is_token i) at_ s' = Ok (is_csrf i)
       ∧ (is_csrf i ≠ EmptyString → require_csrf application_secret (is_token i) (is_csrf i) at_ s' = Ok p))
  ∧ (is_expires_at i ≤ at_ → authenticate application_secret (is_token i) at_ s' = Raise SessionExpired)
  ∧ (∀ p, require_csrf application_secret (is_token i) csrf at_ s' = Ok p → csrf = is_csrf i).
Proof.
  intros Hsha Hl Hne. pose proof (auth_ops_steps application_secret ttl ops ∅) as [Hwf _]; [by split|].
  assert (store_wf s') as Hwf'.
  { destruct (auth_op_steps application_secret ttl (ALogin supplied expected actor token now) _ Hwf) as [Hw _]. cbn in Hw. by rewrite Hl in Hw. }
  apply login_Ok in Hl as (Hs & _ & _ & -> & ->). set (r := mkAuthSession _ _ _ _ _ _ _ _) in *. set (s1 := <[_ := r]> _) in *. cbn [is_token is_csrf is_expires_at].
  assert (s1 !! se_id r = Some r) as Hr by apply lookup_insert_eq. pose proof (token_row_lookup _ _ _ Hwf' Hr) as Hrow. cbn in Hrow.
  assert (nonempty token = true) as Hn by (by destruct token). split_and!; [done|..].
  - intros Hlt. assert (authenticate application_secret token at_ s1 = Ok (mkPrincipal actor (se_id r) now)) as Ha.
    { apply authenticate_Ok; [done|]. exists r. by repeat split. }
    exists (mkPrincipal actor (se_id r) now). split; [done|]. split; [done|]. split; [done|]. unfold csrf_token, require_csrf. rewrite Ha. cbn -[s1].
    cbn [se_id r] in Hr. rewrite Hr. cbn. rewrite bool_decide_true by done. split; [done|].
    intros Hc. assert (∀ v, v ≠ EmptyString → nonempty v = true) as Hnz by (by intros []). rewrite (Hnz _ Hc). done.
  - intros Hge. unfold authenticate. rewrite Hn, Hrow. cbn. by rewrite (proj2 (Z.leb_le _ _) Hge).
  - intros p Hp. apply (require_csrf_Ok _ _ _ _ _ Hwf') in Hp as (_ & r' & (_ & Hr' & Hh & _) & Hc & _).
    assert (se_id r' = se_id r) as He by (eapply sw_unique; [exact Hwf'|exact Hr'|exact Hr|done]). rewrite He, Hr in Hr'. injection Hr' as <-.
    apply Hsha in Hc. done.
Qed.
End Closing.

(** * Worked cases *)

#[local] Instance plain_digest : Digest := λ s, s.
#[local] Instance plain_digest_inj : Inj (=) (=) (@sha256_hex plain_digest).
Proof. by intros x y. Qed.
#[local] Instance plain_hmac : Hmac := { hmac_digest k v := k +:+ v; hmac_hex k v := k +:+ "/" +:+ v }.

Abbreviation demo_ttl := (28800 * second) (only parsing).
Abbreviation demo_sessions :=
  (run_auth_ops "s3cret" (28800 * second)
     [ALogin "guess" "s3cret" "eve" "t0" 0; ALogin "s3cret" "s3cret" "ann" "t1" (1 * second); ALogin "s3cret" "s3cret" "bob" "t2" (2 * second);
      ALogout "t1" (3 * second) (4 * second)] ∅) (only parsing).

(** Logging out does not close the other session. *)
Example logout_is_own : (λ p, sp_actor p) <$> match authenticate "s3cret" "t2" (9 * second) demo_sessions with Ok p => Some p | _ => None end = Some "bob".
Proof. vm_compute. reflexivity. Qed.

Lemma closed_session_stays_closed_witness :
  let s' := run_auth_ops "s3cret" demo_ttl [AReauthenticate "t1" "s3cret" "s3cret" (5 * second) (6 * second)] demo_sessions in
  authenticate "s3cret" "t1" (9 * second) s' ∈ [Raise InvalidSession; Raise SessionExpired].
Proof.
  refine (proj1 (closed_session_stays_closed "s3cret" demo_ttl "t1" (4 * second) (9 * second)
    [AReauthenticate "t1" "s3cret" "s3cret" (5 * second) (6 * second)] demo_sessions "s3cret" "" "ann" _ _ _)).
  - apply auth_ops_steps. by split.
  - exists 1, (mkAuthSession 1 (keyed_hash "t1" (session_key "s3cret")) (hash_text (keyed_hash "t1" (csrf_key "s3cret"))) "ann" (1 * second)
                 (28801 * second) (1 * second) (Some (4 * second))). split; [vm_compute; reflexivity|]. split; [done|]. by left.
  - done.
Defined.

Lemma login_opens_session_witness :
  ∃ i s', login "s3cret" demo_ttl "s3cret" "s3cret" "ann" "t3" (10 * second) demo_sessions = (Ok i, s')
    ∧ ∀ p, require_csrf "s3cret" (is_token i) "forged" (11 * second) s' = Ok p → "forged" = is_csrf i.
Proof.
  destruct (login "s3cret" demo_ttl "s3cret" "s3cret" "ann" "t3" (10 * second) demo_sessions) as [[i|e] s'] eqn:E; [|vm_compute in E; discriminate].
  exists i, s'. split; [done|].
  refine (proj2 (proj2 (proj2 (login_opens_session "s3cret" demo_ttl _ "s3cret" "s3cret" "ann" "t3" (10 * second) i s' (11 * second) "forged" _ E _)))); done.
Defined.
