(* ===== verification/RoutePolicy.v ===== *)
(** The route policies of [app/policy.py]: the table, its registry, the checks of the route
    inventory, and the keys under which a request is limited, leased and interlocked.

    Routing itself is Starlette's: a route of the application says which requests it matches
    in full and with which path parameters. *)

From S2P Require Import Prelude PyDecimal Assets BrokerModels Pnl Database Lifecycle Limits.
From Stdlib Require Import Ascii Lia.
Local Open Scope Z_scope.

(** * One policy *)

Inductive AuthLevel : Type := PUBLIC | SESSION | CSRF | RECENT.

#[export] Instance auth_level_eq_dec : EqDecision AuthLevel.
Proof. solve_decision. Defined.

Record RoutePolicy : Type := mkPolicy {
  p_method : string;
  p_path : string;
  p_auth : AuthLevel;
  p_limit_name : string;
  p_body_limit_name : string;
  p_requires_idempotency : bool;
  p_audit_mutation : bool;
  p_broker_read : bool;
  p_provider_category : option string;
  p_concurrency_scope : string;
  p_concurrency_behavior : string;
  p_target_param : option string;
  p_mutation_operation : option string;
  p_receipt_managed_idempotency : bool;
  p_lease_free_bounded_read : bool;
}.

#[export] Instance route_policy_eq_dec : EqDecision RoutePolicy.
Proof. solve_decision. Defined.

(** The dataclass with its defaults, and one modifier per keyword. *)
Definition route (method path : string) (auth : AuthLevel) (limit_name : string) : RoutePolicy :=
  mkPolicy method path auth limit_name "default" false false false None "principal" "reject" None None false false.

Definition body_limit (v : string) (p : RoutePolicy) : RoutePolicy :=
  mkPolicy (p_method p) (p_path p) (p_auth p) (p_limit_name p) v (p_requires_idempotency p) (p_audit_mutation p) (p_broker_read p)
    (p_provider_category p) (p_concurrency_scope p) (p_concurrency_behavior p) (p_target_param p) (p_mutation_operation p)
    (p_receipt_managed_idempotency p) (p_lease_free_bounded_read p).
Definition idempotent (p : RoutePolicy) : RoutePolicy :=
  mkPolicy (p_method p) (p_path p) (p_auth p) (p_limit_name p) (p_body_limit_name p) true (p_audit_mutation p) (p_broker_read p)
    (p_provider_category p) (p_concurrency_scope p) (p_concurrency_behavior p) (p_target_param p) (p_mutation_operation p)
    (p_receipt_managed_idempotency p) (p_lease_free_bounded_read p).
Definition audited (p : RoutePolicy) : RoutePolicy :=
  mkPolicy (p_method p) (p_path p) (p_auth p) (p_limit_name p) (p_body_limit_name p) (p_requires_idempotency p) true (p_broker_read p)
    (p_provider_category p) (p_concurrency_scope p) (p_concurrency_behavior p) (p_target_param p) (p_mutation_operation p)
    (p_receipt_managed_idempotency p) (p_lease_free_bounded_read p).
Definition reads_broker (p : RoutePolicy) : RoutePolicy :=
  mkPolicy (p_method p) (p_path p) (p_auth p) (p_limit_name p) (p_body_limit_name p) (p_requires_idempotency p) (p_audit_mutation p) true
    (p_provider_category p) (p_concurrency_scope p) (p_concurrency_behavior p) (p_target_param p) (p_mutation_operation p)
    (p_receipt_managed_idempotency p) (p_lease_free_bounded_read p).
Definition provider (v : string) (p : RoutePolicy) : RoutePolicy :=
  mkPolicy (p_method p) (p_path p) (p_auth p) (p_limit_name p) (p_body_limit_name p) (p_requires_idempotency p) (p_audit_mutation p) (p_broker_read p)
    (Some v) (p_concurrency_scope p) (p_concurrency_behavior p) (p_target_param p) (p_mutation_operation p)
    (p_receipt_managed_idempotency p) (p_lease_free_bounded_read p).
Definition scoped (v : string) (p : RoutePolicy) : RoutePolicy :=
  mkPolicy (p_method p) (p_path p) (p_auth p) (p_limit_name p) (p_body_limit_name p) (p_requires_idempotency p) (p_audit_mutation p) (p_broker_read p)
    (p_provider_category p) v (p_concurrency_behavior p) (p_target_param p) (p_mutation_operation p)
    (p_receipt_managed_idempotency p) (p_lease_free_bounded_read p).
Definition behaves (v : string) (p : RoutePolicy) : RoutePolicy :=
  mkPolicy (p_method p) (p_path p) (p_auth p) (p_limit_name p) (p_body_limit_name p) (p_requires_idempotency p) (p_audit_mutation p) (p_broker_read p)
    (p_provider_category p) (p_concurrency_scope p) v (p_target_param p) (p_mutation_operation p)
    (p_receipt_managed_idempotency p) (p_lease_free_bounded_read p).
Definition on_target (v : string) (p : RoutePolicy) : RoutePolicy :=
  mkPolicy (p_method p) (p_path p) (p_auth p) (p_limit_name p) (p_body_limit_name p) (p_requires_idempotency p) (p_audit_mutation p) (p_broker_read p)
    (p_provider_category p) "target" (p_concurrency_behavior p) (Some v) (p_mutation_operation p)
    (p_receipt_managed_idempotency p) (p_lease_free_bounded_read p).
Definition mutates (v : string) (p : RoutePolicy) : RoutePolicy :=
  mkPolicy (p_method p) (p_path p) (p_auth p) (p_limit_name p) (p_body_limit_name p) (p_requires_idempotency p) (p_audit_mutation p) (p_broker_read p)
    (p_provider_category p) (p_concurrency_scope p) (p_concurrency_behavior p) (p_target_param p) (Some v)
    (p_receipt_managed_idempotency p) (p_lease_free_bounded_read p).
Definition receipt_managed (p : RoutePolicy) : RoutePolicy :=
  mkPolicy (p_method p) (p_path p) (p_auth p) (p_limit_name p) (p_body_limit_name p) (p_requires_idempotency p) (p_audit_mutation p) (p_broker_read p)
    (p_provider_category p) (p_concurrency_scope p) (p_concurrency_behavior p) (p_target_param p) (p_mutation_operation p)
    true (p_lease_free_bounded_read p).
Definition lease_free (p : RoutePolicy) : RoutePolicy :=
  mkPolicy (p_method p) (p_path p) (p_auth p) (p_limit_name p) (p_body_limit_name p) (p_requires_idempotency p) (p_audit_mutation p) (p_broker_read p)
    (p_provider_category p) (p_concurrency_scope p) (p_concurrency_behavior p) (p_target_param p) (p_mutation_operation p)
    (p_receipt_managed_idempotency p) true.

Declare Scope route_scope.
Notation "p |> f" := (f p) (at level 62, left associativity, only parsing) : route_scope.
Local Open Scope route_scope.

(** [RoutePolicy.__post_init__]; the type test of the flag holds by typing. *)
Definition route_policy (p : RoutePolicy) : outcome RoutePolicy :=
  if p_lease_free_bounded_read p
     && (negb (bool_decide (p_method p = "GET")) || negb (bool_decide (p_path p = "/security/posture"))
         || negb (bool_decide (p_auth p = SESSION)) || negb (bool_decide (p_limit_name p = "session_read"))
         || negb (bool_decide (p_body_limit_name p = "default")) || p_requires_idempotency p || p_audit_mutation p || p_broker_read p
         || bool_decide (p_provider_category p ≠ None) || negb (bool_decide (p_concurrency_scope p = "principal"))
         || negb (bool_decide (p_concurrency_behavior p = "reject")) || bool_decide (p_target_param p ≠ None)
         || bool_decide (p_mutation_operation p ≠ None) || p_receipt_managed_idempotency p)
  then Raise (ValueError "lease-free bounded read is reserved for security posture")
  else if p_receipt_managed_idempotency p && (negb (p_requires_idempotency p) || bool_decide (p_mutation_operation p ≠ None))
  then Raise (ValueError "receipt-managed idempotency cannot use a generic interlock")
  else Ok p.

(** ** The table *)

Definition read_route (path : string) : RoutePolicy := route "GET" path SESSION "session_read".

Definition ROUTE_POLICIES : list RoutePolicy := [
  route "GET" "/health/live" PUBLIC "session_read";
  route "GET" "/login" PUBLIC "session_read";
  route "POST" "/auth/login" PUBLIC "login";
  read_route "/auth/session";
  route "POST" "/auth/reauth" CSRF "privileged";
  route "POST" "/auth/logout" CSRF "mutation";
  read_route "/";
  route "POST" "/chat" CSRF "chat" |> body_limit "chat" |> audited |> reads_broker |> provider "chat";
  route "POST" "/candidates/order/queue" CSRF "mutation" |> idempotent |> audited |> reads_broker |> scoped "principal" |> receipt_managed;
  route "POST" "/candidates/rule/queue" CSRF "mutation" |> idempotent |> audited |> reads_broker |> scoped "principal" |> receipt_managed;
  read_route "/health";
  read_route "/security/posture" |> lease_free;
  read_route "/pending";
  read_route "/rules";
  read_route "/pending/{order_id}/confirmation";
  route "POST" "/approve/{order_id}" RECENT "approval" |> idempotent |> audited |> reads_broker |> on_target "order_id" |> mutates "order_approve";
  route "POST" "/reject/{order_id}" CSRF "mutation" |> idempotent |> audited |> on_target "order_id" |> mutates "order_reject";
  route "GET" "/positions" SESSION "broker_read" |> reads_broker;
  route "GET" "/account" SESSION "broker_read" |> reads_broker;
  read_route "/log";
  route "POST" "/killswitch/reset" RECENT "privileged" |> idempotent |> audited |> scoped "account" |> mutates "breaker_reset";
  route "POST" "/orders/{order_id}/cancel" CSRF "mutation" |> idempotent |> audited |> on_target "order_id" |> mutates "order_cancel";
  route "POST" "/rules/{rule_id}/cancel" CSRF "mutation" |> idempotent |> audited |> on_target "rule_id" |> mutates "rule_cancel";
  route "POST" "/reconcile" RECENT "privileged" |> idempotent |> audited |> reads_broker |> mutates "portfolio_reconcile";
  route "POST" "/sync" CSRF "mutation" |> idempotent |> audited |> reads_broker |> mutates "order_sync";
  route "POST" "/panic" RECENT "panic" |> idempotent |> audited |> reads_broker |> scoped "account" |> behaves "coalesce_panic" |> mutates "panic";
  read_route "/analyst/scorecard";
  route "POST" "/analyze" CSRF "analysis" |> idempotent |> audited |> reads_broker |> provider "analysis" |> mutates "analysis";
  read_route "/plans";
  read_route "/plans/ui";
  read_route "/plans/{plan_id}";
  route "POST" "/plans/{plan_id}/approve" RECENT "approval" |> idempotent |> audited |> reads_broker |> on_target "plan_id" |> mutates "plan_approve";
  route "POST" "/plans/{plan_id}/cancel" CSRF "mutation" |> idempotent |> audited |> on_target "plan_id" |> mutates "plan_cancel";
  route "POST" "/screen" CSRF "analysis" |> provider "analysis" |> reads_broker;
  route "POST" "/propose" CSRF "analysis" |> idempotent |> audited |> provider "analysis" |> reads_broker |> mutates "proposal_batch";
  route "GET" "/holdings" SESSION "broker_read" |> reads_broker;
  read_route "/external/positions";
  read_route "/external/summary";
  read_route "/backtests";
  read_route "/backtests/v1";
  route "POST" "/backtests/run" CSRF "backtest" |> idempotent |> audited |> provider "backtest" |> mutates "backtest";
  read_route "/backtests/{run_id}/report";
  read_route "/backtests/ui";
  route "GET" "/static/{path:path}" PUBLIC "session_read" ].

(** * The registry *)

Abbreviation route_key := (string * string)%type.

Definition policy_key (p : RoutePolicy) : route_key := (upper (p_method p), p_path p).

(** [_by_key]: a later policy replaces an earlier one. *)
Definition by_key (policies : list RoutePolicy) : gmap (string * string) RoutePolicy :=
  foldl (λ m p, <[policy_key p := p]> m) ∅ policies.

Definition registry_get (policies : list RoutePolicy) (method path : string) : outcome RoutePolicy :=
  match by_key policies !! (upper method, path) with Some p => Ok p | None => Raise (KeyError path) end.

(** A route of the application, as the registry looks at it. *)
Inductive RouteKind : Type := KMount | KWebSocket | KApiRoute | KOtherRoute.

#[export] Instance route_kind_eq_dec : EqDecision RouteKind.
Proof. solve_decision. Defined.

Record AppRoute : Type := mkAppRoute {
  ar_kind : RouteKind;
  ar_path : option string;
  ar_methods : option (list string);
  ar_matches : string → string → option (list (string * string));
}.

(** An included router carries its routes and the contexts FastAPI computes for it. *)
#[warnings="-register-all"] Inductive RouteTree : Type :=
| RLeaf (r : AppRoute)
| RIncluded (routes : list RouteTree) (contexts : list (string * option (list string))).

(** [_routes]: the worklist. *)
Fixpoint routes_loop (fuel : nat) (pending : list RouteTree) : option (list AppRoute) :=
  match pending with
  | [] => Some []
  | t :: rest =>
      match fuel with
      | O => None
      | S fuel =>
          match t with
          | RIncluded routes _ => routes_loop fuel (routes ++ rest)
          | RLeaf r => option_map (cons r) (routes_loop fuel rest)
          end
      end
  end.

Fixpoint tree_size (t : RouteTree) : nat :=
  match t with RLeaf _ => 1 | RIncluded routes _ => S (sum_list_with tree_size routes) end.

(** The leaves in depth-first order. *)
Fixpoint leaves (t : RouteTree) : list AppRoute :=
  match t with RLeaf r => [r] | RIncluded routes _ => concat (map leaves routes) end.

Definition routes (app : list RouteTree) : list AppRoute :=
  match routes_loop (sum_list_with tree_size app) app with Some l => l | None => [] end.

Record ResolvedRoute : Type := mkResolved { rr_policy : RoutePolicy; rr_path_params : list (string * string) }.

Definition RoutePolicyMissing (method path : string) : exn := RuntimeError (method +:+ " " +:+ path).

Definition is_static_mount (r : AppRoute) : bool :=
  bool_decide (ar_kind r = KMount) && bool_decide (ar_path r = Some "/static").

(** The key a matched route is looked up under. *)
Definition resolve_key (method : string) (r : AppRoute) : route_key :=
  (if is_static_mount r && bool_decide (upper method = "HEAD") then "GET" else upper method,
   if is_static_mount r then "/static/{path:path}" else default EmptyString (ar_path r)).

Fixpoint resolve_in (policies : list RoutePolicy) (method path : string) (rs : list AppRoute) : outcome (option ResolvedRoute) :=
  match rs with
  | [] => Ok None
  | r :: rs =>
      match ar_matches r (upper method) path with
      | None => resolve_in policies method path rs
      | Some params =>
          match by_key policies !! resolve_key method r with
          | None => Raise (RoutePolicyMissing (upper method) (let t := (resolve_key method r).2 in if nonempty t then t else path))
          | Some p => Ok (Some (mkResolved p params))
          end
      end
  end.

Definition resolve (policies : list RoutePolicy) (app : list RouteTree) (method path : string) : outcome (option ResolvedRoute) :=
  resolve_in policies method path (routes app).

(** ** Inventory *)

Definition key_le (x y : string * string) : Prop := String.le x.1 y.1 ∧ (x.1 = y.1 → String.le x.2 y.2).

#[export] Instance key_le_dec : RelDecision key_le.
Proof. intros x y. unfold key_le. apply _. Defined.

(** [sorted] of a set of keys. *)
Definition sorted_keys (ks : gset (string * string)) : list (string * string) := merge_sort key_le (elements ks).

(** The loop of both duplicate checks: (seen, duplicate keys). *)
Definition note_key (st : gset (string * string) * gset (string * string)) (k : string * string)
    : gset (string * string) * gset (string * string) :=
  ({[k]} ∪ st.1, if decide (k ∈ st.1) then {[k]} ∪ st.2 else st.2).

Definition duplicate_keys (ks : list (string * string)) : gset (string * string) := (foldl note_key (∅, ∅) ks).2.

Definition duplicates (policies : list RoutePolicy) : list (string * string) := sorted_keys (duplicate_keys (map policy_key policies)).

(** [re.sub(r"/+", "/", path)]. *)
Fixpoint collapse_slashes (prev : bool) (s : string) : string :=
  match s with
  | EmptyString => EmptyString
  | String c s =>
      if Ascii.eqb c "/" then (if prev then collapse_slashes true s else String c (collapse_slashes true s))
      else String c (collapse_slashes false s)
  end.

Fixpoint rstrip_slash (s : string) : string :=
  match s with
  | EmptyString => EmptyString
  | String c s => let t := rstrip_slash s in
      if Ascii.eqb c "/" && negb (nonempty t) then EmptyString else String c t
  end.

(** The longest prefix of characters that are none of [stop], and the rest. *)
Fixpoint span_not (stop : list ascii) (s : string) : string * string :=
  match s with
  | EmptyString => (EmptyString, EmptyString)
  | String c s' => if bool_decide (c ∈ stop) then (EmptyString, s) else let r := span_not stop s' in (String c r.1, r.2)
  end.

(** A match of [_PATH_PARAMETER] after an opening brace: its converter and what follows. *)
Definition match_parameter (s : string) : option (string * string) :=
  let n := span_not ["{"; "}"; ":"]%char s in
  if negb (nonempty n.1) then None
  else match n.2 with
  | String "}" rest => Some ("str", rest)
  | String ":" tail =>
      let c := span_not ["{"; "}"]%char tail in
      match c.2 with
      | String "}" rest => if nonempty c.1 then Some (c.1, rest) else None
      | _ => None
      end
  | _ => None
  end.

Fixpoint replace_parameters (fuel : nat) (s : string) : string :=
  match fuel, s with
  | S fuel, String c rest =>
      if Ascii.eqb c "{"
      then match match_parameter rest with
           | Some (converter, rest') => "{" +:+ converter +:+ "}" +:+ replace_parameters fuel rest'
           | None => String c (replace_parameters fuel rest)
           end
      else String c (replace_parameters fuel rest)
  | _, _ => s
  end.

Definition normalize_handler_path (path : string) : string :=
  let normalized := collapse_slashes false path in
  let normalized := if bool_decide (normalized = "/") then normalized else rstrip_slash normalized in
  replace_parameters (String.length normalized) normalized.

Definition handlers_of (t : RouteTree) : list (string * option (list string)) :=
  match t with
  | RLeaf r => if bool_decide (ar_kind r = KApiRoute) then [(default EmptyString (ar_path r), ar_methods r)] else []
  | RIncluded _ contexts => contexts
  end.

Definition handler_keys (app : list RouteTree) : list (string * string) :=
  concat (map (λ h, map (λ m, (upper m, normalize_handler_path h.1)) (default [] h.2)) (concat (map handlers_of app))).

Definition duplicate_handlers (app : list RouteTree) : list (string * string) := sorted_keys (duplicate_keys (handler_keys app)).

Definition route_keys (r : AppRoute) : list (string * string) :=
  if bool_decide (ar_kind r = KMount)
  then match ar_path r with
       | Some path => [if bool_decide (path = "/static") then ("GET", "/static/{path:path}") else ("MOUNT", path)]
       | None => []
       end
  else match ar_path r with
  | None => []
  | Some path =>
      if bool_decide (ar_kind r = KWebSocket) then [("WEBSOCKET", path)]
      else match ar_methods r with
      | None => [("ROUTE", path)]
      | Some methods => map (λ m, (upper m, path)) methods
      end
  end.

Definition unclassified (policies : list RoutePolicy) (app : list RouteTree) : list (string * string) :=
  sorted_keys (list_to_set (concat (map route_keys (routes app))) ∖ dom (by_key policies)).

Definition validate_route_inventory (policies : list RoutePolicy) (app : list RouteTree) : outcome () :=
  if bool_decide (duplicates policies = [] ∧ duplicate_handlers app = [] ∧ unclassified policies app = []) then Ok ()
  else Raise (RuntimeError "route policy inventory invalid").

(** * Limits *)

Record WindowLimitConfig : Type := mkWindowLimit {
  wl_requests : Z;
  wl_global_requests : Z;
  wl_window_seconds : Z;
  wl_concurrency : Z;
  wl_daily_requests : option Z;
  wl_global_daily_requests : option Z;
}.

(** The bounds of the configuration fields. *)
Definition window_limit_valid (c : WindowLimitConfig) : bool :=
  (0 <? wl_requests c) && (0 <? wl_global_requests c) && (0 <? wl_window_seconds c) && (0 <? wl_concurrency c)
  && match wl_daily_requests c with Some n => 0 <? n | None => true end
  && match wl_global_daily_requests c with Some n => 0 <? n | None => true end.

Record RateLimitsConfig : Type := mkRateLimits {
  rl_login : WindowLimitConfig;
  rl_session_read : WindowLimitConfig;
  rl_broker_read : WindowLimitConfig;
  rl_mutation : WindowLimitConfig;
  rl_approval : WindowLimitConfig;
  rl_privileged : WindowLimitConfig;
  rl_chat : WindowLimitConfig;
  rl_analysis : WindowLimitConfig;
  rl_backtest : WindowLimitConfig;
  rl_provider_read : WindowLimitConfig;
  rl_panic : WindowLimitConfig;
}.

Definition default_rate_limits : RateLimitsConfig := {|
  rl_login := mkWindowLimit 5 20 900 2 None None;
  rl_session_read := mkWindowLimit 120 240 60 16 None None;
  rl_broker_read := mkWindowLimit 30 60 60 4 None None;
  rl_mutation := mkWindowLimit 20 40 60 4 None None;
  rl_approval := mkWindowLimit 10 20 300 1 None None;
  rl_privileged := mkWindowLimit 5 10 300 1 None None;
  rl_chat := mkWindowLimit 10 20 600 1 None None;
  rl_analysis := mkWindowLimit 5 10 600 1 None None;
  rl_backtest := mkWindowLimit 2 6 3600 1 (Some 6) (Some 6);
  rl_provider_read := mkWindowLimit 180 240 60 8 None None;
  rl_panic := mkWindowLimit 60 120 60 1 None None;
|}.

(** [getattr(rate_limits, name)]. *)
Definition rate_limit_named (c : RateLimitsConfig) (name : string) : option WindowLimitConfig :=
  dict_get [ ("login", rl_login c); ("session_read", rl_session_read c); ("broker_read", rl_broker_read c);
                  ("mutation", rl_mutation c); ("approval", rl_approval c); ("privileged", rl_privileged c); ("chat", rl_chat c);
                  ("analysis", rl_analysis c); ("backtest", rl_backtest c); ("provider_read", rl_provider_read c); ("panic", rl_panic c) ] name.

Definition AttributeError (name : string) : exn := TypeError name.

Definition configured_limit (c : RateLimitsConfig) (p : RoutePolicy) : outcome WindowLimitConfig :=
  match rate_limit_named c (p_limit_name p) with Some w => Ok w | None => Raise (AttributeError (p_limit_name p)) end.

(** [_limit_spec]. *)
Definition limit_spec_of (c : RateLimitsConfig) (p : RoutePolicy) : outcome LimitSpec :=
  configured ← configured_limit c p;
  limit_spec (mkSpec (p_limit_name p) (wl_requests configured) (wl_global_requests configured) (wl_window_seconds configured)
                (wl_daily_requests configured) (wl_global_daily_requests configured)).

Definition rate_headers (configured : WindowLimitConfig) (d : LimitDecision) : list (string * string) :=
  [ ("X-RateLimit-Limit", pretty (wl_requests configured)); ("X-RateLimit-Remaining", pretty (ld_remaining d));
    ("X-RateLimit-Reset", pretty (- (- ld_reset_at d / second))); ("Retry-After", pretty (ld_retry_after_seconds d)) ].

(** * Lease keys *)

Definition DEFAULT_LEASE_TTL_SECONDS : Z := 30.
Definition LEASE_TTL_SECONDS : Z := DEFAULT_LEASE_TTL_SECONDS.
Definition PANIC_LEASE_TTL_SECONDS : Z := 90.
Definition BACKTEST_LEASE_TTL_SECONDS : Z := 1500.

Definition lease_ttl_seconds (p : RoutePolicy) : Z :=
  if negb (LEASE_TTL_SECONDS =? DEFAULT_LEASE_TTL_SECONDS) then LEASE_TTL_SECONDS
  else if bool_decide (p_path p = "/panic") then PANIC_LEASE_TTL_SECONDS
  else if bool_decide (p_path p = "/backtests/run") then BACKTEST_LEASE_TTL_SECONDS
  else DEFAULT_LEASE_TTL_SECONDS.

Definition panic_lease_ttl_seconds : Z :=
  if negb (LEASE_TTL_SECONDS =? DEFAULT_LEASE_TTL_SECONDS) then LEASE_TTL_SECONDS else PANIC_LEASE_TTL_SECONDS.

Definition path_param (name : string) (r : ResolvedRoute) : string := default EmptyString (dict_get (rr_path_params r) name).

Definition optional_text (v : option string) : string := match v with Some s => s | None => "None" end.

(** [_resource_material]. *)
Definition resource_material (r : ResolvedRoute) (limit_principal : string) : string :=
  let p := rr_policy r in
  let path := p_path p in
  if bool_decide (path ∈ ["/approve/{order_id}"; "/reject/{order_id}"; "/orders/{order_id}/cancel"]) then "order:" +:+ path_param "order_id" r
  else if bool_decide (path = "/rules/{rule_id}/cancel") then "rule:" +:+ path_param "rule_id" r
  else if bool_decide (path ∈ ["/plans/{plan_id}/approve"; "/plans/{plan_id}/cancel"]) then "plan:" +:+ path_param "plan_id" r
  else if bool_decide (path ∈ ["/killswitch/reset"; "/panic"]) then "paper-account:alpaca-paper"
  else if bool_decide (path = "/reconcile") then "portfolio:alpaca-paper"
  else if bool_decide (path = "/sync") then "broker-orders:alpaca-paper"
  else if bool_decide (path ∈ ["/analyze"; "/propose"]) then "analysis:" +:+ limit_principal
  else if bool_decide (path = "/backtests/run") then "backtest:" +:+ limit_principal
  else if bool_decide (p_concurrency_scope p = "target")
  then "target:" +:+ optional_text (p_target_param p) +:+ ":" +:+ path_param (default EmptyString (p_target_param p)) r
  else if bool_decide (p_concurrency_scope p = "account") then "account:alpaca-paper"
  else "principal:" +:+ p_limit_name p +:+ ":" +:+ limit_principal.

Section Keys.
Context `{Digest}.

Definition route_slot (material : string) (slot : Z) : string := "route:" +:+ sha256_hex material +:+ ":" +:+ pretty slot.

Definition lease_keys (c : RateLimitsConfig) (r : ResolvedRoute) (limit_principal : string) : outcome (list string) :=
  if bool_decide (p_path (rr_policy r) = "/backtests/run") then Ok ["backtest:global"]
  else
    configured ← configured_limit c (rr_policy r);
    let concurrency := if p_requires_idempotency (rr_policy r) then 1 else wl_concurrency configured in
    Ok (map (route_slot (resource_material r limit_principal)) (seqZ 0 concurrency)).

(** [_operation_interlock_key]; the stop is a NUL. *)
Definition operation_interlock_key (r : ResolvedRoute) (lease_key limit_principal : string) (operation : option string) : string :=
  let selected := match operation with
                  | Some op => if nonempty op then Some op else p_mutation_operation (rr_policy r)
                  | None => p_mutation_operation (rr_policy r)
                  end in
  match selected with
  | Some op =>
      if bool_decide (p_path (rr_policy r) ∈ ["/killswitch/reset"; "/panic"]) && bool_decide (op ∈ ["breaker_reset"; "panic"])
      then route_slot (resource_material r limit_principal +:+ nul +:+ "mutation:" +:+ op) 0
      else lease_key
  | None => lease_key
  end.

Definition reconciliation_control_key : string := route_slot "reconciliation-control:alpaca-paper" 0.
End Keys.

Record LeaseHold : Type := mkHold {
  h_resource_key : string;
  h_owner : string;
  h_generation : Z;
  h_expires_at : time;
  h_ttl_seconds : Z;
  h_interlock_key : option string;
}.

Definition hold_interlock_key (h : LeaseHold) : string :=
  match h_interlock_key h with Some k => if nonempty k then k else h_resource_key h | None => h_resource_key h end.

(** * Static assets *)

Definition hex_digit (c : ascii) : option N :=
  let n := N_of_ascii c in
  if ((48 <=? n) && (n <=? 57))%N then Some (n - 48)%N
  else if ((65 <=? n) && (n <=? 70))%N then Some (n - 55)%N
  else if ((97 <=? n) && (n <=? 102))%N then Some (n - 87)%N
  else None.

(** [unquote], on bytes: a sequence that is no UTF-8 becomes other non-ASCII characters, which
    no test below looks at. *)
Fixpoint unquote (s : string) : string :=
  match s with
  | String "%" (String a (String b rest) as tail) =>
      match hex_digit a, hex_digit b with
      | Some x, Some y => String (ascii_of_N (16 * x + y)) (unquote rest)
      | _, _ => String "%" (unquote tail)
      end
  | String c rest => String c (unquote rest)
  | EmptyString => EmptyString
  end.

Fixpoint ascii_only (s : string) : string :=
  match s with
  | EmptyString => EmptyString
  | String c s => if (N_of_ascii c <? 128)%N then String c (ascii_only s) else ascii_only s
  end.

(** [s.split(sep)] at a separator of one character. *)
Fixpoint split_on (sep : ascii) (s : string) : list string :=
  match s with
  | EmptyString => [EmptyString]
  | String c s =>
      if Ascii.eqb c sep then EmptyString :: split_on sep s
      else match split_on sep s with [] => [String c EmptyString] | x :: l => String c x :: l end
  end.

Definition safe_segment (x : string) : bool := nonempty x && negb (bool_decide (x ∈ ["."; ".."])).

(** One candidate of the loop; the test of a trailing slash is the empty last segment. *)
Definition safe_candidate (candidate : string) : bool :=
  String.prefix "/static/" candidate
  && let relative := String.substring 8 (String.length candidate) candidate in
     negb (negb (nonempty relative) || negb (nonempty (List.last (split_on "/" relative) EmptyString))
           || (1 <? length (split_on "\" relative))%nat
           || negb (forallb safe_segment (split_on "/" relative))).

(** [PurePosixPath(path).suffix.lower()] of a path whose last segment is [name]. *)
Definition suffix (name : string) : string :=
  match rev (split_on "." name) with
  | ext :: x :: before => if nonempty ext && negb (bool_decide (x :: before = [EmptyString])) then "." +:+ lower ext else EmptyString
  | _ => EmptyString
  end.

Definition is_safe_static_asset (raw_path url_path : string) : bool :=
  let encoded := ascii_only raw_path in
  forallb safe_candidate [encoded; unquote encoded; unquote (unquote encoded); url_path]
  && bool_decide (suffix (List.last (split_on "/" url_path) EmptyString) ∈ [".css"; ".js"; ".svg"]).

(** * The worklist visits every route once, in order *)

Lemma routes_loop_leaves fuel : ∀ pending, (sum_list_with tree_size pending ≤ fuel)%nat →
  routes_loop fuel pending = Some (concat (map leaves pending)).
Proof.
  induction fuel as [|fuel IH]; intros [|t rest] Hle; try done; cbn in Hle.
  - destruct t; cbn in Hle; lia.
  - destruct t as [r|rs cs]; cbn in Hle |- *.
    + rewrite IH by lia. done.
    + rewrite IH by (rewrite sum_list_with_app; lia). by rewrite map_app, concat_app.
Qed.

Lemma routes_leaves app : routes app = concat (map leaves app).
Proof. unfold routes. by rewrite routes_loop_leaves. Qed.

(** * Sets of keys *)

Lemma sorted_keys_nil ks : sorted_keys ks = [] ↔ ks = ∅.
Proof.
  unfold sorted_keys. split; intros Hks.
  - pose proof (merge_sort_Permutation key_le (elements ks)) as Hp. rewrite Hks in Hp. apply Permutation_nil in Hp.
    apply elements_empty_inv in Hp. by apply leibniz_equiv.
  - subst ks. by rewrite elements_empty.
Qed.

Lemma note_keys_spec ks : ∀ seen dup, (foldl note_key (seen, dup) ks).2 = ∅ ↔ dup = ∅ ∧ NoDup ks ∧ ∀ k, k ∈ ks → k ∉ seen.
Proof.
  induction ks as [|k ks IH]; intros seen dup; cbn.
  - split; [intros ->; split_and!; [done|constructor|set_solver]|by intros [-> _]].
  - unfold note_key at 2. cbn. rewrite IH, NoDup_cons. destruct (decide (k ∈ seen)) as [Hk|Hk]; set_solver.
Qed.

Lemma duplicate_keys_nil ks : duplicate_keys ks = ∅ ↔ NoDup ks.
Proof. unfold duplicate_keys. rewrite note_keys_spec. set_solver. Qed.

Lemma by_key_fold policies : ∀ (m : gmap (string * string) RoutePolicy) k p,
  foldl (λ m p, <[policy_key p := p]> m) m policies !! k = Some p → m !! k = Some p ∨ p ∈ policies ∧ policy_key p = k.
Proof.
  induction policies as [|q policies IH]; intros m k p Hp; [by left|]. cbn in Hp. apply IH in Hp as [Hp|[Hp Hk]].
  - apply lookup_insert_Some in Hp as [[<- <-]|[_ Hp]]; [right; split; [left|done]|by left].
  - right. split; [by right|done].
Qed.

Lemma by_key_Some policies k p : by_key policies !! k = Some p → p ∈ policies ∧ policy_key p = k.
Proof. intros Hp. apply by_key_fold in Hp as [Hp|Hp]; [by rewrite lookup_empty in Hp|done]. Qed.

(** ** A validated inventory *)

(** What Starlette's matching guarantees of the routes of this application when one matches an HTTP
    request in full: it has a path (no host-based route is registered), it is no web socket,
    and the request's method is one of its methods.  A mount matches by its path alone, whatever
    the method. *)
Definition well_matched (method : string) (r : AppRoute) : Prop :=
  ar_path r ≠ None ∧ ar_kind r ≠ KWebSocket
  ∧ ∀ ms, ar_kind r ≠ KMount → ar_methods r = Some ms → upper method ∈ map upper ms.

(** A request for the static mount that is no read. *)
Definition static_write (method : string) (r : AppRoute) : Prop := is_static_mount r = true ∧ upper method ∉ ["GET"; "HEAD"].

Lemma validate_Ok policies app : validate_route_inventory policies app = Ok () →
  NoDup (map policy_key policies) ∧ NoDup (handler_keys app)
  ∧ ∀ r k, r ∈ routes app → k ∈ route_keys r → is_Some (by_key policies !! k).
Proof.
  unfold validate_route_inventory. case_bool_decide as Hv; [|done]. intros _. destruct Hv as (Hd & Hh & Hu).
  apply sorted_keys_nil, duplicate_keys_nil in Hd, Hh. split; [done|]. split; [done|]. intros r k Hr Hk.
  apply sorted_keys_nil in Hu. apply elem_of_dom. assert (k ∈ (list_to_set (concat (map route_keys (routes app))) : gset (string * string))) as Hin.
  { apply elem_of_list_to_set, list_elem_of_In, in_concat. exists (route_keys r). split; [|by apply list_elem_of_In].
    apply in_map. by apply list_elem_of_In. }
  set_solver.
Qed.

(** No policy is filed under the pseudo-methods of mounts, sockets and method-less routes. *)
Lemma policy_methods p : p ∈ ROUTE_POLICIES → upper (p_method p) ∈ ["GET"; "POST"].
Proof.
  assert (Forall (λ p, upper (p_method p) ∈ ["GET"; "POST"]) ROUTE_POLICIES) as Hall.
  { apply (bool_decide_unpack _). vm_compute. done. }
  rewrite Forall_forall in Hall. apply Hall.
Qed.

Lemma no_pseudo_key m path : bool_decide (m ∈ ["GET"; "POST"]) = false → by_key ROUTE_POLICIES !! (m, path) = None.
Proof.
  intros Hm%bool_decide_eq_false. destruct (by_key ROUTE_POLICIES !! (m, path)) as [p|] eqn:Hp; [|done].
  apply by_key_Some in Hp as [Hp [= Hk _]]. apply policy_methods in Hp. by rewrite Hk in Hp.
Qed.

Lemma inventory_key app method r : validate_route_inventory ROUTE_POLICIES app = Ok () → r ∈ routes app → well_matched method r →
  ¬ static_write method r → is_Some (by_key ROUTE_POLICIES !! resolve_key method r).
Proof.
  intros (_ & _ & Hu)%validate_Ok Hr (Hp & Hw & Hm) Hs. specialize (λ k, Hu r k Hr).
  assert (∀ m path, bool_decide (m ∈ ["GET"; "POST"]) = false → route_keys r ≠ [(m, path)]) as Hno.
  { intros m path Hm' Hk. destruct (Hu (m, path)) as [p Hp']; [rewrite Hk; by left|]. by rewrite no_pseudo_key in Hp'. }
  destruct (ar_path r) as [path|] eqn:Hpath; [|done]. unfold static_write, route_keys, resolve_key, is_static_mount in *.
  rewrite Hpath in *. cbn [default] in *.
  destruct (bool_decide_reflect (ar_kind r = KMount)) as [Hk|Hk]; cbn [andb] in *.
  - destruct (bool_decide_reflect (path = "/static")) as [Hst|Hne]; [subst path|by destruct (Hno "MOUNT" path)].
    rewrite bool_decide_true in * by done. cbn. apply Hu. rewrite list_elem_of_singleton.
    destruct (decide (upper method = "HEAD")) as [->|Hhead]; [done|]. rewrite bool_decide_false by done.
    destruct (decide (upper method = "GET")) as [->|Hget]; [done|]. exfalso. apply Hs. split; [done|]. set_solver.
  - rewrite bool_decide_false in * by done. destruct (ar_methods r) as [ms|]; [|by destruct (Hno "ROUTE" path)].
    apply Hu. specialize (Hm ms Hk eq_refl). apply list_elem_of_fmap in Hm as (m & -> & Hm). apply list_elem_of_fmap. by exists m.
Qed.

(** Static files are only read. *)
Lemma static_write_key method r : static_write method r → by_key ROUTE_POLICIES !! resolve_key method r = None.
Proof.
  intros [Hs Hm]. assert (Forall (λ p, p_path p = "/static/{path:path}" → upper (p_method p) = "GET") ROUTE_POLICIES) as Hall.
  { apply (bool_decide_unpack _). by vm_compute. }
  unfold resolve_key. rewrite Hs. destruct (by_key _ !! _) as [p|] eqn:Hp; [|done]. exfalso. apply by_key_Some in Hp as [Hin [= Hmeth Hpath]].
  rewrite Forall_forall in Hall. rewrite (Hall p Hin Hpath) in Hmeth. case_bool_decide as Hhead; apply Hm.
  - rewrite Hhead. by right; left.
  - cbn in Hmeth. rewrite <- Hmeth. by left.
Qed.

(** The first route that matches. *)
Definition first_match (rs : list AppRoute) (method path : string) (r : AppRoute) (params : list (string * string)) : Prop :=
  ∃ before after, rs = before ++ r :: after ∧ (∀ r', r' ∈ before → ar_matches r' method path = None) ∧ ar_matches r method path = Some params.

Lemma resolve_in_first policies method path rs :
  (resolve_in policies method path rs = Ok None ∧ ∀ r, r ∈ rs → ar_matches r (upper method) path = None)
  ∨ ∃ r params, first_match rs (upper method) path r params ∧ resolve_in policies method path rs = resolve_in policies method path [r].
Proof.
  induction rs as [|r rs IH]; [left; split; [done|by intros r Hr%elem_of_nil]|]. destruct (ar_matches r (upper method) path) as [params|] eqn:Hm.
  - right. exists r, params. cbn [resolve_in]. rewrite Hm. split; [|done]. exists [], rs. split; [done|]. split; [by intros r' Hr'%elem_of_nil|done].
  - destruct IH as [[Hn Hall]|(r1 & params & (before & after & -> & Hb & Hr1) & Hres)].
    + left. cbn [resolve_in]. rewrite Hm. split; [done|]. intros r' [->|Hr']%elem_of_cons; auto.
    + right. exists r1, params. split; [|cbn [resolve_in app] in *; by rewrite Hm]. exists (r :: before), after. split; [done|].
      split; [|done]. intros r' [->|Hr']%elem_of_cons; auto.
Qed.

(** Claim C38.  A validated inventory leaves no request but a write to the static files without a policy.
    When the start-up check of the route inventory passes, resolving a request ends in one of
    three ways.  No route of the application, included routers expanded in order, matches it.
    Or the first one that does is governed by a registered policy filed under exactly that
    route's method and path, and its path parameters are handed on.  Or the first one is the static
    mount, reached by a method that is neither GET nor HEAD, and the missing-policy error is
    raised, which the middleware answers with 503. *)
Theorem inventory_complete app method path :
  validate_route_inventory ROUTE_POLICIES app = Ok () →
  (∀ r, r ∈ concat (map leaves app) → ar_matches r (upper method) path ≠ None → well_matched method r) →
  (resolve ROUTE_POLICIES app method path = Ok None ∧ ∀ r, r ∈ concat (map leaves app) → ar_matches r (upper method) path = None)
  ∨ ∃ r params, first_match (concat (map leaves app)) (upper method) path r params
      ∧ ((¬ static_write method r
          ∧ ∃ p, resolve ROUTE_POLICIES app method path = Ok (Some (mkResolved p params)) ∧ p ∈ ROUTE_POLICIES ∧ policy_key p = resolve_key method r)
         ∨ (static_write method r
            ∧ resolve ROUTE_POLICIES app method path = Raise (RoutePolicyMissing (upper method) "/static/{path:path}"))).
Proof.
  intros Hv Hw. pose proof (λ r, inventory_key app method r Hv) as Hkey. unfold resolve. rewrite routes_leaves in *. clear Hv.
  destruct (resolve_in_first ROUTE_POLICIES method path (concat (map leaves app))) as [?|(r & params & Hf & ->)]; [by left|right].
  exists r, params. split; [done|]. destruct Hf as (before & after & Hsplit & _ & Hm).
  assert (r ∈ concat (map leaves app)) as Hin by (rewrite Hsplit; apply elem_of_app; right; left). cbn [resolve_in]. rewrite Hm.
  destruct (decide (is_static_mount r = true ∧ upper method ∉ ["GET"; "HEAD"])) as [Hs|Hs].
  - right. split; [done|]. rewrite static_write_key by done. unfold resolve_key. by rewrite (proj1 Hs).
  - left. split; [done|]. destruct (Hkey r Hin) as [p Hp]; [apply Hw; [done|by rewrite Hm]|done|]. rewrite Hp.
    apply by_key_Some in Hp as [? ?]. by exists p.
Qed.

(** * The table *)

(** What the guard of every route must be. *)
Definition policy_sound (p : RoutePolicy) : bool :=
  bool_decide (route_policy p = Ok p)
  && bool_decide (p_method p ∈ ["GET"; "POST"])
  && (bool_decide (p_method p = "GET") || bool_decide (p_path p = "/auth/login") || bool_decide (p_auth p ∈ [CSRF; RECENT]))
  && (negb (bool_decide (p_auth p = PUBLIC)) || bool_decide (p_path p ∈ ["/health/live"; "/login"; "/auth/login"; "/static/{path:path}"]))
  && (if p_requires_idempotency p
      then p_audit_mutation p && bool_decide (p_method p = "POST")
           && (if p_receipt_managed_idempotency p then bool_decide (p_mutation_operation p = None)
               else match p_mutation_operation p with Some op => bool_decide (op ∈ MUTATION_OPERATIONS) | None => false end)
      else bool_decide (p_mutation_operation p = None))
  && (negb (p_lease_free_bounded_read p) || bool_decide (p_path p = "/security/posture"))
  && (0 <? lease_ttl_seconds p).

(** Every route is guarded.  Each policy of the table passes its own validation and names a
    configured limit; keys are unique; a route that is not a read, the login apart, requires a
    CSRF token or a recent authentication, and the only public ones are the login, its page,
    liveness and the static files; a route that requires an idempotency key is audited and
    either is managed by receipts or names an operation the interlocks accept, and no two routes
    name the same operation. *)
Theorem every_route_guarded :
  NoDup (map policy_key ROUTE_POLICIES) ∧ NoDup (omap p_mutation_operation ROUTE_POLICIES)
  ∧ Forall (λ p, policy_sound p = true ∧ ∀ c, ∃ w, configured_limit c p = Ok w) ROUTE_POLICIES.
Proof.
  split_and!; [apply (bool_decide_unpack _); by vm_compute..|].
  assert (Forall (λ p, policy_sound p = true ∧ p_limit_name p ∈ ["login"; "session_read"; "broker_read"; "mutation"; "approval"; "privileged";
                                                               "chat"; "analysis"; "backtest"; "panic"]) ROUTE_POLICIES) as Hall.
  { apply (bool_decide_unpack _). by vm_compute. }
  apply (Forall_impl _ _ _ Hall). intros p [Hs Hn]. split; [done|]. intros c. unfold configured_limit, rate_limit_named.
  rewrite !elem_of_cons, elem_of_nil in Hn. by destruct_or! Hn; try done; rewrite Hn; eexists.
Qed.

(** * What a mutation locks *)

Inductive Resource : Type :=
| ResOrder (order_id : string)
| ResRule (rule_id : string)
| ResPlan (plan_id : string)
| ResAccount
| ResPortfolio
| ResBrokerOrders
| ResAnalysis (limit_principal : string)
| ResBacktest.

#[export] Instance resource_eq_dec : EqDecision Resource.
Proof. solve_decision. Defined.

(** The resource an operation works on. *)
Definition resource_of (r : ResolvedRoute) (limit_principal : string) : option Resource :=
  op ← p_mutation_operation (rr_policy r);
  if bool_decide (op ∈ ["order_approve"; "order_reject"; "order_cancel"]) then Some (ResOrder (path_param "order_id" r))
  else if bool_decide (op = "rule_cancel") then Some (ResRule (path_param "rule_id" r))
  else if bool_decide (op ∈ ["plan_approve"; "plan_cancel"]) then Some (ResPlan (path_param "plan_id" r))
  else if bool_decide (op ∈ ["breaker_reset"; "panic"]) then Some ResAccount
  else if bool_decide (op = "portfolio_reconcile") then Some ResPortfolio
  else if bool_decide (op = "order_sync") then Some ResBrokerOrders
  else if bool_decide (op ∈ ["analysis"; "proposal_batch"]) then Some (ResAnalysis limit_principal)
  else if bool_decide (op = "backtest") then Some ResBacktest
  else None.

Section Resources.
Context `{Digest} `{!Inj (=) (=) sha256_hex}.

Definition resource_key (x : Resource) : string :=
  match x with
  | ResOrder i => route_slot ("order:" +:+ i) 0
  | ResRule i => route_slot ("rule:" +:+ i) 0
  | ResPlan i => route_slot ("plan:" +:+ i) 0
  | ResAccount => route_slot "paper-account:alpaca-paper" 0
  | ResPortfolio => route_slot "portfolio:alpaca-paper" 0
  | ResBrokerOrders => route_slot "broker-orders:alpaca-paper" 0
  | ResAnalysis p => route_slot ("analysis:" +:+ p) 0
  | ResBacktest => "backtest:global"
  end.

Lemma string_app_inj s t u : s +:+ t = s +:+ u → t = u.
Proof. induction s as [|c s IH]; [done|]. intros [= Hs]. auto. Qed.

Lemma string_app_inj_tail u : ∀ s t, s +:+ u = t +:+ u → s = t.
Proof.
  assert (∀ s t, String.length (s +:+ t) = (String.length s + String.length t)%nat) as Hlen.
  { induction s as [|c s IH]; intros t; [done|]. cbn. by rewrite <- IH. }
  induction s as [|c s IH]; intros [|c' t]; cbn; intros Heq; [done|..].
  - apply (f_equal String.length) in Heq. rewrite !Hlen in Heq. cbn in Heq. lia.
  - apply (f_equal String.length) in Heq. rewrite !Hlen in Heq. cbn in Heq. lia.
  - injection Heq as -> Heq. f_equal. auto.
Qed.

Lemma route_slot_inj a b n : route_slot a n = route_slot b n → a = b.
Proof. intros Heq. apply (string_app_inj "route:"), string_app_inj_tail in Heq. by apply (inj sha256_hex). Qed.

Lemma resource_key_inj x y : resource_key x = resource_key y → x = y.
Proof.
  destruct x, y; cbn [resource_key]; intros Heq; try reflexivity;
    try (unfold route_slot in Heq; discriminate Heq); apply route_slot_inj in Heq;
    try discriminate Heq; apply string_app_inj in Heq; by subst.
Qed.

Lemma mutation_lease_key c r limit_principal x : rr_policy r ∈ ROUTE_POLICIES → resource_of r limit_principal = Some x →
  lease_keys c r limit_principal = Ok [resource_key x].
Proof.
  destruct r as [p params]. cbn [rr_policy]. unfold lease_keys, resource_of, configured_limit. cbn [rr_policy]. intros Hp.
  repeat (apply elem_of_cons in Hp as [->|Hp]); [..|by apply elem_of_nil in Hp]; cbn; try done; by intros [= <-].
Qed.

(** Claim C39.  A mutation is leased by what it works on.  For two mutating routes of the table the lease
    keys, which are also the interlock keys apart from the account's, are one key each, and they
    are equal exactly when the operations work on the same resource: the same order for
    approval, rejection and cancellation, the same rule, the same plan, the one paper account
    for a panic and a breaker reset, the portfolio, the broker's orders, the analyses of one
    principal, the backtest.  The digest is assumed injective. *)
Theorem lease_key_is_resource c r r' principal principal' x y :
  rr_policy r ∈ ROUTE_POLICIES → rr_policy r' ∈ ROUTE_POLICIES →
  resource_of r principal = Some x → resource_of r' principal' = Some y →
  (∃ k, lease_keys c r principal = Ok [k])
  ∧ (lease_keys c r principal = lease_keys c r' principal' ↔ x = y).
Proof.
  intros Hr Hr' Hx Hy. rewrite (mutation_lease_key c r _ x), (mutation_lease_key c r' _ y) by done.
  split; [by eexists|]. split; [|by intros ->]. intros [= Heq]. by apply resource_key_inj.
Qed.
End Resources.

(** * Worked cases *)

Example unquote_partial : unquote "%2e%zz%4" = ".%zz%4".
Proof. vm_compute. reflexivity. Qed.

Example static_accepted : is_safe_static_asset "/static/css/app.min.CSS" "/static/css/app.min.CSS" = true.
Proof. vm_compute. reflexivity. Qed.

Example static_double_encoding : is_safe_static_asset "/static/%252e%252e/app.js" "/static/%2e%2e/app.js" = false.
Proof. vm_compute. reflexivity. Qed.

Example static_dotfile : is_safe_static_asset "/static/.css" "/static/.css" = false.
Proof. vm_compute. reflexivity. Qed.

Example handler_path : normalize_handler_path "//plans//{plan_id:int}/x/{id}/{}/" = "/plans/{int}/x/{str}/{}".
Proof. vm_compute. reflexivity. Qed.

#[local] Instance plain_digest : Digest := λ s, s.

Definition demo_app : list RouteTree := [
  RLeaf (mkAppRoute KMount (Some "/static") None (λ _ path, if String.prefix "/static/" path then Some [] else None));
  RIncluded [RLeaf (mkAppRoute KApiRoute (Some "/approve/{order_id}") (Some ["POST"])
                      (λ m path, if bool_decide (m = "POST") && String.prefix "/approve/" path
                                 then Some [("order_id", String.substring 9 (String.length path) path)] else None))]
    [("/approve/{order_id}", Some ["POST"])] ].

Example demo_resolves :
  (λ r, (p_auth (rr_policy r), rr_path_params r)) <$> match resolve ROUTE_POLICIES demo_app "post" "/approve/7" with Ok x => x | _ => None end
  = Some (RECENT, [("order_id", "7")]).
Proof. vm_compute. reflexivity. Qed.

(** An approval is governed; a POST to a static file is refused. *)
Lemma inventory_complete_witness :
  (∃ p params, resolve ROUTE_POLICIES demo_app "post" "/approve/7" = Ok (Some (mkResolved p params)) ∧ p ∈ ROUTE_POLICIES)
  ∧ resolve ROUTE_POLICIES demo_app "post" "/static/app.js" = Raise (RoutePolicyMissing "POST" "/static/{path:path}").
Proof.
  assert (validate_route_inventory ROUTE_POLICIES demo_app = Ok ()) as Hv by (vm_compute; reflexivity).
  assert (∀ r, r ∈ concat (map leaves demo_app) → well_matched "post" r) as Hw.
  { intros r Hr. cbn in Hr. rewrite !elem_of_cons, elem_of_nil in Hr. destruct Hr as [->|[->|[]]]; (split_and!; [done|done|]); intros ms Hk [= <-]; by left. }
  assert (match resolve ROUTE_POLICIES demo_app "post" "/approve/7" with Ok (Some _) => true | _ => false end = true) as H1 by (by vm_compute).
  assert (match resolve ROUTE_POLICIES demo_app "post" "/static/app.js" with Raise _ => true | _ => false end = true) as H2 by (by vm_compute).
  split.
  - destruct (inventory_complete demo_app "post" "/approve/7" Hv (λ r Hr _, Hw r Hr)) as [[E _]|(r & params & _ & [(_ & p & E & Hp & _)|[_ E]])];
      rewrite E in H1; [discriminate H1| |discriminate H1]. exists p, params. split; [exact E|exact Hp].
  - destruct (inventory_complete demo_app "post" "/static/app.js" Hv (λ r Hr _, Hw r Hr)) as [[E _]|(r & params & _ & [(_ & p & E & _ & _)|[_ E]])];
      rewrite E in H2; [discriminate H2|discriminate H2|exact E].
Defined.

(** An approval and a cancellation of one order share their lease; those of two orders do not. *)
Lemma lease_key_is_resource_witness :
  let at_ p i := mkResolved p [("order_id", i)] in
  ∃ a b, p_path a = "/approve/{order_id}" ∧ p_path b = "/orders/{order_id}/cancel"
    ∧ lease_keys default_rate_limits (at_ a "7") "p" = lease_keys default_rate_limits (at_ b "7") "q"
    ∧ lease_keys default_rate_limits (at_ a "7") "p" ≠ lease_keys default_rate_limits (at_ b "8") "q".
Proof.
  assert (Inj (=) (=) (@sha256_hex plain_digest)) as Hinj by (by intros x y).
  set (a := route "POST" "/approve/{order_id}" RECENT "approval" |> idempotent |> audited |> reads_broker |> on_target "order_id" |> mutates "order_approve").
  set (b := route "POST" "/orders/{order_id}/cancel" CSRF "mutation" |> idempotent |> audited |> on_target "order_id" |> mutates "order_cancel").
  assert (a ∈ ROUTE_POLICIES) as Ha by (apply list_elem_of_lookup; by exists 15%nat).
  assert (b ∈ ROUTE_POLICIES) as Hb by (apply list_elem_of_lookup; by exists 21%nat).
  exists a, b. split; [done|]. split; [done|]. split.
  - apply (lease_key_is_resource default_rate_limits (mkResolved a [("order_id", "7")]) (mkResolved b [("order_id", "7")]) "p" "q" (ResOrder "7") (ResOrder "7"));
      done.
  - intros Heq. apply (lease_key_is_resource default_rate_limits (mkResolved a [("order_id", "7")]) (mkResolved b [("order_id", "8")]) "p" "q" (ResOrder "7") (ResOrder "8")) in Heq;
      done.
Defined.
