(* ===== verification/PanicReceipts.v ===== *)
(** The durable panic receipt of [app/policy.py]: the one row through which concurrent panics
    share a result, and the lease that fences it.

    The limit tables of [Limits.v] and the receipts are one store; every function is one
    transaction of it, [fails] saying that the database raises.  The response column holds
    JSON text through the sensitive-field store: writing and reading it back is the parameter
    [ReceiptText].  Clock readings are arguments, in the order the code takes them. *)

From S2P Require Import Prelude PyDecimal BrokerModels Breakers Pnl Database Lifecycle SessionLogic BreakerStore Limits LimitsProofs RoutePolicy.
From Stdlib Require Import Ascii Lia.
Local Open Scope Z_scope.

(** [json.dumps] under the sensitive store, and its reading. *)
Class ReceiptText : Type := { write_text : json → string; read_text : string → outcome json }.

Record PolicyStore : Type := mkPolicyStore { ps_limits : LimitStore; ps_receipts : gmap string PanicReceipt }.

Definition set_ps_limits (v : LimitStore) (s : PolicyStore) : PolicyStore := mkPolicyStore v (ps_receipts s).
Definition set_ps_receipts (v : gmap string PanicReceipt) (s : PolicyStore) : PolicyStore := mkPolicyStore (ps_limits s) v.

Definition ACCOUNT_SCOPE : string := "alpaca-paper".

Definition receipt_of (s : PolicyStore) : option PanicReceipt := ps_receipts s !! ACCOUNT_SCOPE.
Definition put_receipt (r : PanicReceipt) (s : PolicyStore) : PolicyStore := set_ps_receipts (<[ACCOUNT_SCOPE := r]> (ps_receipts s)) s.

Record PanicSnapshot : Type := mkPanicSnapshot {
  pz_request_id : string;
  pz_lease_generation : Z;
  pz_state : string;
  pz_response : option json;
  pz_expires_at : time;
}.

Record PanicClaim : Type := mkPanicClaim { pc_claimed : bool; pc_snapshot : PanicSnapshot }.

Record PanicFenceObservation : Type := mkObservation {
  po_authoritative : bool;
  po_snapshot : option PanicSnapshot;
  po_wait_expires_at : time;
}.

(** A transaction that rolls back on any exception and reports it as an unavailable store. *)
Definition receipt_session {A} (fails : bool) (body : PolicyStore → outcome A * PolicyStore) (s : PolicyStore) : outcome A * PolicyStore :=
  if fails then (Raise (LimitStoreUnavailable "durable panic receipt store unavailable"), s)
  else match body s with
  | (Ok a, s') => (Ok a, s')
  | (Raise (LimitStoreUnavailable m), _) => (Raise (LimitStoreUnavailable m), s)
  | (Raise _, _) => (Raise (LimitStoreUnavailable "durable panic receipt store unavailable"), s)
  end.

(** [_panic_lease_is_authoritative]. *)
Definition panic_lease_is_authoritative (lease_key owner : string) (generation : Z) (expires_at now : time) (s : PolicyStore) : bool :=
  match st_leases (ps_limits s) !! lease_key with
  | None => false
  | Some l =>
      bool_decide (le_owner l = owner) && (le_generation l =? generation) && (le_expires_at l =? expires_at) && (now <? le_expires_at l)
  end.

(** The receipt of a request, in whatever state. *)
Definition own_receipt (request_id : string) (generation : Z) (s : PolicyStore) : option PanicReceipt :=
  match receipt_of s with
  | None => None
  | Some r => if bool_decide (pr_request_id r = request_id) && (pr_lease_generation r =? generation) then Some r else None
  end.

(** The receipt of a request that is still at work. *)
Definition started_receipt (request_id : string) (generation : Z) (s : PolicyStore) : option PanicReceipt :=
  match own_receipt request_id generation s with
  | None => None
  | Some r => if bool_decide (pr_state r = "started") then Some r else None
  end.

Definition ownership_changed : exn := LimitStoreUnavailable "durable panic receipt ownership changed".

Section Receipts.
Context `{ReceiptText}.

Definition snapshot_from_row (r : PanicReceipt) : outcome PanicSnapshot :=
  payload ← match pr_response_json r with None => Ok None | Some t => j ← read_text t; Ok (Some j) end;
  Ok (mkPanicSnapshot (pr_request_id r) (pr_lease_generation r) (pr_state r) payload (pr_expires_at r)).

(** [_start_panic_receipt]; an unclaimed receipt is read after the rollback. *)
Definition start_panic_receipt (request_id : string) (lease_generation : Z) (expires_at now : time) (fails : bool)
    : PolicyStore → outcome PanicClaim * PolicyStore :=
  receipt_session fails (λ s,
    let row := mkPanicReceipt ACCOUNT_SCOPE request_id lease_generation "started" None now None expires_at in
    match receipt_of s with
    | Some r =>
        if (now <? pr_expires_at r) && negb (bool_decide (pr_state r = "completed"))
        then (snap ← snapshot_from_row r; Ok (mkPanicClaim false snap), s)
        else (snap ← snapshot_from_row row; Ok (mkPanicClaim true snap), put_receipt row s)
    | None => (snap ← snapshot_from_row row; Ok (mkPanicClaim true snap), put_receipt row s)
    end).

(** [_renew_panic_receipt]; the lease is proved before and after the write. *)
Definition renew_panic_receipt (lease_key request_id : string) (lease_generation : Z) (expires_at first_proof_at second_proof_at : time)
    (fails : bool) : PolicyStore → outcome bool * PolicyStore :=
  receipt_session fails (λ s,
    if negb (panic_lease_is_authoritative lease_key request_id lease_generation expires_at first_proof_at s) then (Ok false, s)
    else match started_receipt request_id lease_generation s with
    | None => (Ok false, s)
    | Some r =>
        let s' := put_receipt (mkPanicReceipt (pr_account_scope r) (pr_request_id r) (pr_lease_generation r) (pr_state r)
                                 (pr_response_json r) (pr_started_at r) (pr_completed_at r) expires_at) s in
        if (second_proof_at <? first_proof_at)
           || negb (panic_lease_is_authoritative lease_key request_id lease_generation expires_at second_proof_at s')
        then (Ok false, s) else (Ok true, s')
    end).

(** [_finish_panic_receipt]. *)
Definition finish_panic_receipt (lease_key request_id : string) (lease_generation : Z) (response : option json)
    (expires_at now second_proof_at : time) (fails : bool) : PolicyStore → outcome () * PolicyStore :=
  receipt_session fails (λ s,
    if negb (panic_lease_is_authoritative lease_key request_id lease_generation expires_at now s) then (Raise ownership_changed, s)
    else match started_receipt request_id lease_generation s with
    | None => (Raise ownership_changed, s)
    | Some r =>
        let s' := put_receipt (mkPanicReceipt (pr_account_scope r) (pr_request_id r) (pr_lease_generation r)
                                 (if bool_decide (response ≠ None) then "completed" else "failed")
                                 (option_map write_text response) (pr_started_at r) (Some now) expires_at) s in
        if (second_proof_at <? now)
           || negb (panic_lease_is_authoritative lease_key request_id lease_generation expires_at second_proof_at s')
        then (Raise ownership_changed, s) else (Ok (), s')
    end).

(** [_observe_panic_fence]: one read transaction between two clock readings. *)
Definition observe_panic_fence (lease_key owner : string) (generation : Z) (read_started_at now : time) (fails : bool) (s : PolicyStore)
    : outcome PanicFenceObservation :=
  if fails then Raise (LimitStoreUnavailable "durable panic receipt store unavailable")
  else match match receipt_of s with None => Ok None | Some r => snap ← snapshot_from_row r; Ok (Some snap) end with
  | Raise _ => Raise (LimitStoreUnavailable "durable panic receipt store unavailable")
  | Ok snapshot =>
      if now <? read_started_at then Ok (mkObservation false snapshot now)
      else match st_leases (ps_limits s) !! lease_key with
      | None => Ok (mkObservation false snapshot now)
      | Some lease =>
          if match snapshot with
             | Some z => negb (bool_decide (pz_request_id z = owner)) || negb (pz_lease_generation z =? generation)
             | None => false
             end
          then Ok (mkObservation false snapshot now)
          else
            let active := bool_decide (le_owner lease = owner) && (le_generation lease =? generation) && (now <? le_expires_at lease) in
            let released_after_completion :=
              match snapshot with
              | Some z => negb (bool_decide (pz_state z = "started")) && (now <? pz_expires_at z)
                          && bool_decide (le_owner lease = EmptyString) && (le_generation lease =? generation + 1)
                          && (le_expires_at lease <=? now)
              | None => false
              end in
            if negb active && negb released_after_completion then Ok (mkObservation false snapshot (le_expires_at lease))
            else if match snapshot with
                    | Some z => negb (bool_decide (pz_state z = "started")) && active && negb (pz_expires_at z =? le_expires_at lease)
                    | None => false
                    end
            then Ok (mkObservation false snapshot (le_expires_at lease))
            else Ok (mkObservation true snapshot
                       match snapshot with
                       | Some z => if released_after_completion then pz_expires_at z else le_expires_at lease
                       | None => le_expires_at lease
                       end)
      end
  end.

(** [_mark_panic_uncertain]: the owner's receipt fails and blocks for at least one panic lease. *)
Definition block_until (expires_at now : time) : time := Z.max expires_at (now + panic_lease_ttl_seconds * second).

Definition mark_panic_uncertain (request_id : string) (lease_generation : Z) (response : option json) (expires_at now : time) (fails : bool)
    : PolicyStore → outcome bool * PolicyStore :=
  receipt_session fails (λ s,
    match own_receipt request_id lease_generation s with
    | None => (Ok false, s)
    | Some r =>
        (Ok true, put_receipt (mkPanicReceipt (pr_account_scope r) (pr_request_id r) (pr_lease_generation r) "failed"
                                 (option_map write_text response) (pr_started_at r) (Some now) (block_until expires_at now)) s)
    end).

(** [_discard_panic_receipt]. *)
Definition discard_panic_receipt (request_id : string) (lease_generation : Z) (fails : bool) : PolicyStore → outcome bool * PolicyStore :=
  receipt_session fails (λ s,
    match own_receipt request_id lease_generation s with
    | None => (Ok false, s)
    | Some _ => (Ok true, set_ps_receipts (delete ACCOUNT_SCOPE (ps_receipts s)) s)
    end).
End Receipts.

(** * The life of the receipt *)

(** Calls on the receipt, with everything else that happens to its store: calls on the limit
    tables, and a breaker reset, which deletes a completed receipt. *)
Inductive receipt_op : Type :=
| RStart (request_id : string) (generation : Z) (expires_at now : time) (fails : bool)
| RRenew (lease_key request_id : string) (generation : Z) (expires_at now now2 : time) (fails : bool)
| RFinish (lease_key request_id : string) (generation : Z) (response : option json) (expires_at now now2 : time) (fails : bool)
| RMarkUncertain (request_id : string) (generation : Z) (response : option json) (expires_at now : time) (fails : bool)
| RDiscard (request_id : string) (generation : Z) (now : time) (fails : bool)
| RBreakerReset (now : time)
| RLimit (op : limit_op).

Definition receipt_op_now (op : receipt_op) : time :=
  match op with
  | RStart _ _ _ t _ | RRenew _ _ _ _ t _ _ | RFinish _ _ _ _ _ t _ _ | RMarkUncertain _ _ _ _ t _ | RDiscard _ _ t _ | RBreakerReset t => t
  | RLimit op => op_now op
  end.

(** The call presents the identity of a request. *)
Definition by_owner (request_id : string) (generation : Z) (op : receipt_op) : Prop :=
  match op with
  | RRenew _ q g _ _ _ _ | RFinish _ q g _ _ _ _ _ | RMarkUncertain q g _ _ _ _ | RDiscard q g _ _ => q = request_id ∧ g = generation
  | _ => False
  end.

Section Life.
Context `{ReceiptText, Digest} (policy : string → LimitSpec).

Definition run_receipt_op (op : receipt_op) (s : PolicyStore) : PolicyStore :=
  match op with
  | RStart q g e t f => (start_panic_receipt q g e t f s).2
  | RRenew k q g e t t2 f => (renew_panic_receipt k q g e t t2 f s).2
  | RFinish k q g j e t t2 f => (finish_panic_receipt k q g j e t t2 f s).2
  | RMarkUncertain q g j e t f => (mark_panic_uncertain q g j e t f s).2
  | RDiscard q g _ f => (discard_panic_receipt q g f s).2
  | RBreakerReset _ => set_ps_receipts (delete_completed_receipts (ps_receipts s)) s
  | RLimit op => set_ps_limits (run_limit_op policy op (ps_limits s)) s
  end.

Definition run_receipt_ops (ops : list receipt_op) (s : PolicyStore) : PolicyStore := foldl (λ s op, run_receipt_op op s) s ops.

(** The finish of a request is authorised: its receipt is started and its lease is proved
    twice, the second time not before the first. *)
Definition authorised_finish (k q : string) (g : Z) (e t t2 : time) (s : PolicyStore) : Prop :=
  started_receipt q g s ≠ None ∧ t ≤ t2
  ∧ panic_lease_is_authoritative k q g e t s = true ∧ panic_lease_is_authoritative k q g e t2 s = true.

Inductive receipt_step (op : receipt_op) (s : PolicyStore) : option PanicReceipt → option PanicReceipt → Prop :=
| RKeep row : receipt_step op s row row
| ROpen row q g e t f :
    op = RStart q g e t f → (∀ r, row = Some r → pr_expires_at r ≤ t ∨ pr_state r = "completed") →
    receipt_step op s row (Some (mkPanicReceipt ACCOUNT_SCOPE q g "started" None t None e))
| RExtend r e :
    by_owner (pr_request_id r) (pr_lease_generation r) op → pr_state r = "started" →
    receipt_step op s (Some r) (Some (mkPanicReceipt (pr_account_scope r) (pr_request_id r) (pr_lease_generation r) (pr_state r)
      (pr_response_json r) (pr_started_at r) (pr_completed_at r) e))
| RClose r k j e t t2 f :
    op = RFinish k (pr_request_id r) (pr_lease_generation r) j e t t2 f → pr_state r = "started" →
    authorised_finish k (pr_request_id r) (pr_lease_generation r) e t t2 s →
    receipt_step op s (Some r) (Some (mkPanicReceipt (pr_account_scope r) (pr_request_id r) (pr_lease_generation r)
      (if bool_decide (j ≠ None) then "completed" else "failed") (option_map write_text j) (pr_started_at r) (Some t) e))
| RFail r j e t :
    by_owner (pr_request_id r) (pr_lease_generation r) op →
    receipt_step op s (Some r) (Some (mkPanicReceipt (pr_account_scope r) (pr_request_id r) (pr_lease_generation r) "failed"
      (option_map write_text j) (pr_started_at r) (Some t) e))
| RDrop r :
    by_owner (pr_request_id r) (pr_lease_generation r) op ∨ pr_state r = "completed" → receipt_step op s (Some r) None.

Lemma receipt_session_cases {A} fails (body : PolicyStore → outcome A * PolicyStore) s :
  (receipt_session fails body s).2 = s ∨ (∃ a, (body s).1 = Ok a) ∧ (receipt_session fails body s).2 = (body s).2.
Proof.
  unfold receipt_session. destruct fails; [by left|]. destruct (body s) as [[a|e] s']; [right; by split; [eexists|]|]. left. by destruct e.
Qed.

Lemma own_receipt_Some q g s r : own_receipt q g s = Some r → receipt_of s = Some r ∧ pr_request_id r = q ∧ pr_lease_generation r = g.
Proof.
  unfold own_receipt. destruct (receipt_of s) as [r'|]; [|done].
  destruct (bool_decide_reflect (pr_request_id r' = q)), (Z.eqb_spec (pr_lease_generation r') g); by intros [= <-].
Qed.

Lemma started_receipt_Some q g s r : started_receipt q g s = Some r → own_receipt q g s = Some r ∧ pr_state r = "started".
Proof. unfold started_receipt. destruct (own_receipt q g s) as [r'|]; [|done]. case_bool_decide; by intros [= <-]. Qed.

Lemma authoritative_receipt k q g e t s r : panic_lease_is_authoritative k q g e t (put_receipt r s) = panic_lease_is_authoritative k q g e t s.
Proof. done. Qed.

Lemma receipt_put r s : receipt_of (put_receipt r s) = Some r.
Proof. apply lookup_insert_eq. Qed.

Ltac committed :=
  match goal with |- context [receipt_session ?f ?b ?s] => destruct (receipt_session_cases f b s) as [->|[_ ->]]; [apply RKeep|cbv beta zeta] end.

Lemma run_receipt_step op s : receipt_step op s (receipt_of s) (receipt_of (run_receipt_op op s)).
Proof.
  destruct op as [q g e t f|k q g e t t2 f|k q g j e t t2 f|q g j e t f|q g t f|t|op]; cbn [run_receipt_op].
  - unfold start_panic_receipt. committed.
    destruct (receipt_of s) as [r|] eqn:Hr; cbn [snd]; [|by rewrite receipt_put; eapply ROpen].
    destruct (Z.ltb_spec t (pr_expires_at r)), (bool_decide_reflect (pr_state r = "completed")); cbn [andb negb snd]; rewrite ?receipt_put, ?Hr;
      try apply RKeep; (eapply ROpen; [done|]); intros r' [= <-]; auto.
  - unfold renew_panic_receipt. committed.
    destruct (panic_lease_is_authoritative _ _ _ _ t s); [|apply RKeep]. destruct (started_receipt q g s) as [r|] eqn:Hr; [|apply RKeep].
    destruct (_ || _); [apply RKeep|]. cbn [negb orb snd]. rewrite receipt_put. apply started_receipt_Some in Hr as [(Hr & <- & <-)%own_receipt_Some Hst]. rewrite Hr. by apply RExtend.
  - unfold finish_panic_receipt. committed.
    destruct (panic_lease_is_authoritative _ _ _ _ t s) eqn:Ha; [|apply RKeep]. destruct (started_receipt q g s) as [r|] eqn:Hr; [|apply RKeep].
    cbn [negb]. rewrite authoritative_receipt. destruct (Z.ltb_spec t2 t), (panic_lease_is_authoritative _ _ _ _ t2 s) eqn:Ha2; cbn [orb negb snd]; try apply RKeep.
    rewrite receipt_put. pose proof Hr as Hst. apply started_receipt_Some in Hr as [(Hr & <- & <-)%own_receipt_Some Hs]. rewrite Hr.
    eapply RClose; [done|done|]. split_and!; [by rewrite Hst|lia|done|done].
  - unfold mark_panic_uncertain. committed.
    destruct (own_receipt q g s) as [r|] eqn:Hr; [|apply RKeep]. cbn [negb orb snd]. rewrite receipt_put. apply own_receipt_Some in Hr as (Hr & <- & <-). rewrite Hr. by apply RFail.
  - unfold discard_panic_receipt. committed.
    destruct (own_receipt q g s) as [r|] eqn:Hr; [|apply RKeep]. apply own_receipt_Some in Hr as (Hr & <- & <-). rewrite Hr.
    unfold receipt_of, set_ps_receipts. cbn. rewrite lookup_delete_eq. apply RDrop. by left.
  - unfold delete_completed_receipts. fold (receipt_of s). change (ps_receipts s !! "alpaca-paper") with (receipt_of s).
    destruct (receipt_of s) as [r|] eqn:Hr; [|unfold receipt_of in *; cbn; rewrite Hr; apply RKeep].
    case_bool_decide as Hst; unfold receipt_of in *; cbn; [rewrite lookup_delete_eq; apply RDrop; by right|rewrite Hr; apply RKeep].
  - apply RKeep.
Qed.

(** ** One panic at a time *)

Lemma open_state x : x ∈ ["started"; "failed"] → x ≠ "completed".
Proof. by intros [->|[->|[]%elem_of_nil]%elem_of_cons]%elem_of_cons. Qed.

(** The receipt of [q, g] blocks until [horizon]: it has not completed. *)
Definition blocking (q : string) (g : Z) (horizon : time) (s : PolicyStore) : Prop :=
  ∃ r, receipt_of s = Some r ∧ pr_request_id r = q ∧ pr_lease_generation r = g ∧ pr_state r ≠ "completed" ∧ pr_expires_at r = horizon.

Lemma blocking_step q g horizon op s : blocking q g horizon s → receipt_op_now op < horizon → ¬ by_owner q g op →
  receipt_of (run_receipt_op op s) = receipt_of s.
Proof.
  intros (r & Hr & <- & <- & Hst & <-) Ht Ho. pose proof (run_receipt_step op s) as Hstep. rewrite Hr in *.
  inversion Hstep as [row|row q g e t f Hop Hfree|r1 e Hby Hs1|r1 k j e t t2 f Hop|r1 j e t Hby|r1 [Hby|Hdone]]; subst; try done.
  - cbn in Ht. destruct (Hfree r eq_refl); [lia|done].
  - by destruct Ho.
Qed.

(** Claim C34.  One panic at a time.  After a panic claimed the receipt, or an owner that could not settle
    marked it uncertain, and until that receipt's horizon, no sequence of calls by others, be it
    starts, fenced updates under other identities, breaker resets or lease traffic, changes the
    receipt, and every other start is refused without effect: it either shows the standing
    receipt or, when the receipt cannot be read, reports the store as unavailable. *)
Theorem panic_single_flight q g ops s0 s e t0 t horizon q' g' e' c response :
  start_panic_receipt q g e t0 false s0 = (Ok c, s) ∧ pc_claimed c = true ∧ horizon = e
  ∨ mark_panic_uncertain q g response e t0 false s0 = (Ok true, s) ∧ horizon = block_until e t0 →
  Forall (λ op, receipt_op_now op < horizon ∧ ¬ by_owner q g op) ops → t < horizon →
  let s' := run_receipt_ops ops s in
  receipt_of s' = receipt_of s
  ∧ (start_panic_receipt q' g' e' t false s').2 = s'
  ∧ match (start_panic_receipt q' g' e' t false s').1 with
    | Ok c' => pc_claimed c' = false ∧ pz_request_id (pc_snapshot c') = q ∧ pz_lease_generation (pc_snapshot c') = g
               ∧ pz_state (pc_snapshot c') ∈ ["started"; "failed"]
    | Raise e => ∃ m, e = LimitStoreUnavailable m
    end.
Proof.
  intros Hopen Hops Ht. cbv zeta.
  assert (∃ r, receipt_of s = Some r ∧ pr_request_id r = q ∧ pr_lease_generation r = g ∧ pr_state r ∈ ["started"; "failed"] ∧ pr_expires_at r = horizon) as Hs.
  { destruct Hopen as [(Hs & Hc & ->)|[Hs ->]].
    - unfold start_panic_receipt, receipt_session, snapshot_from_row in Hs. destruct (receipt_of s0) as [r|]; cbn in Hs.
      + destruct (_ && _).
        * destruct (match pr_response_json r with None => _ | Some _ => _ end); cbn in Hs; [by injection Hs as <- <-|by destruct e0].
        * injection Hs as _ <-. eexists. rewrite receipt_put. split_and!; try done. by left.
      + injection Hs as _ <-. eexists. rewrite receipt_put. split_and!; try done. by left.
    - unfold mark_panic_uncertain, receipt_session in Hs. destruct (own_receipt q g s0) as [r|] eqn:Hr; [|done].
      apply own_receipt_Some in Hr as (_ & <- & <-). injection Hs as <-. eexists. rewrite receipt_put. split_and!; try done. right. by left. }
  assert (receipt_of (run_receipt_ops ops s) = receipt_of s) as Hkeep.
  { clear Hopen Ht. assert (blocking q g horizon s) as Hb.
    { destruct Hs as (r & Hr & Hq & Hg & Hst & He). exists r. split_and!; try done. by apply open_state. }
    clear Hs. revert s Hb. induction Hops as [|op ops [Ht Ho] _ IH]; intros s Hb; [done|].
    pose proof (blocking_step _ _ _ op s Hb Ht Ho) as Hk. change (run_receipt_ops (op :: ops) s) with (run_receipt_ops ops (run_receipt_op op s)).
    rewrite IH; [done|]. unfold blocking in *. by rewrite Hk. }
  split; [done|]. destruct Hs as (r & Hr & <- & <- & Hst & <-). unfold start_panic_receipt, receipt_session. rewrite Hkeep, Hr.
  rewrite (proj2 (Z.ltb_lt _ _) Ht), bool_decide_false by (by apply open_state). cbn [andb negb].
  unfold snapshot_from_row. destruct (match pr_response_json r with None => _ | Some _ => _ end) as [p|e0]; cbn.
  - by split.
  - destruct e0; cbn; by (split; [done|eexists]).
Qed.
(** ** What a waiting panic is shown *)

Lemma run_receipt_ops_app ops ops' s : run_receipt_ops (ops ++ ops') s = run_receipt_ops ops' (run_receipt_ops ops s).
Proof. apply foldl_app. Qed.

(** The finish that wrote a completed receipt. *)
Lemma completed_provenance ops s r : receipt_of s = None → receipt_of (run_receipt_ops ops s) = Some r → pr_state r = "completed" →
  ∃ before k j e t t2 f after,
    ops = before ++ RFinish k (pr_request_id r) (pr_lease_generation r) (Some j) e t t2 f :: after
    ∧ authorised_finish k (pr_request_id r) (pr_lease_generation r) e t t2 (run_receipt_ops before s)
    ∧ pr_response_json r = Some (write_text j) ∧ pr_expires_at r = e.
Proof.
  intros Hs. induction ops as [|op ops IH] using rev_ind; intros Hr Hst; [change (receipt_of s = Some r) in Hr; congruence|].
  rewrite run_receipt_ops_app in Hr. cbn [run_receipt_ops foldl] in Hr. fold (run_receipt_ops ops s) in *.
  pose proof (run_receipt_step op (run_receipt_ops ops s)) as Hstep. rewrite Hr in Hstep.
  inversion Hstep as [row Hrow|row q g e t f Hop Hfree Hrow|r1 e Hby Hs1 Hrow|r1 k j e t t2 f Hop Hs1 Ha Hrow|r1 j e t Hby Hrow|]; subst.
  - destruct IH as (before & k & j & e & t & t2 & f & after & -> & Hrest); [done|done|].
    exists before, k, j, e, t, t2, f, (after ++ [op]). split; [by rewrite <- app_assoc|done].
  - done.
  - cbn in Hst. by rewrite Hs1 in Hst.
  - destruct j as [j|]; [|done]. cbn in Ha |- *. exists ops, k, j, e, t, t2, f, []. by split_and!.
  - done.
Qed.

Lemma observe_completed k o g t1 t2 s obs z : observe_panic_fence k o g t1 t2 false s = Ok obs →
  po_authoritative obs = true → po_snapshot obs = Some z →
  ∃ r, receipt_of s = Some r ∧ snapshot_from_row r = Ok z ∧ pr_request_id r = o ∧ pr_lease_generation r = g.
Proof.
  unfold observe_panic_fence. destruct (receipt_of s) as [r|] eqn:Hr.
  - destruct (snapshot_from_row r) as [z'|] eqn:Hz; cbn; [|done]. assert (pz_request_id z' = pr_request_id r ∧ pz_lease_generation z' = pr_lease_generation r) as [Hq Hg].
    { unfold snapshot_from_row in Hz. apply outcome_bind_Ok in Hz as (p & _ & [= <-]). done. }
    destruct (t2 <? t1); [by intros [= <-]|]. destruct (st_leases _ !! k) as [l|]; [|by intros [= <-]]. rewrite Hq, Hg.
    destruct (bool_decide_reflect (pr_request_id r = o)), (Z.eqb_spec (pr_lease_generation r) g); cbn [negb orb]; try by intros [= <-].
    intros Hobs Hauth Hsnap. exists r. split; [done|]. split; [|done].
    repeat match type of Hobs with context [if ?b then _ else _] => destruct b end; by simplify_eq/=.
  - cbn. intros Hobs Hauth Hsnap. destruct (t2 <? t1); [by simplify_eq/=|]. destruct (st_leases _ !! k) as [l|]; [|by simplify_eq/=].
    repeat match type of Hobs with context [if ?b then _ else _] => destruct b end; by simplify_eq/=.
Qed.

(** Claim C35.  A coalesced panic shows the result of the panic it waited for.  From a store without a
    receipt, after any history, a waiter that observed lease owner [o] with generation [g] and is
    told, on authority, of a completed receipt is given the response (as its text reads back) that the very request [o],
    in generation [g], stored when it finished: at that finish its receipt was still started and
    its lease was proved live, unexpired and unchanged, before and after the write. *)
Theorem coalesced_panic_result ops s k o g t1 t2 obs z :
  receipt_of s = None →
  let s' := run_receipt_ops ops s in
  observe_panic_fence k o g t1 t2 false s' = Ok obs → po_authoritative obs = true → po_snapshot obs = Some z → pz_state z = "completed" →
  ∃ before k' j e t t' f after,
    ops = before ++ RFinish k' o g (Some j) e t t' f :: after
    ∧ authorised_finish k' o g e t t' (run_receipt_ops before s)
    ∧ (∃ j', read_text (write_text j) = Ok j' ∧ pz_response z = Some j') ∧ pz_expires_at z = e.
Proof.
  intros Hs. cbv zeta. intros Hobs Hauth Hsnap Hst. apply observe_completed with (z := z) in Hobs as (r & Hr & Hz & <- & <-); [|done|done].
  unfold snapshot_from_row in Hz. apply outcome_bind_Ok in Hz as (p & Hp & [= <-]). cbn in Hst.
  destruct (completed_provenance ops s r Hs Hr Hst) as (before & k' & j & e & t & t' & f & after & Hops & Ha & Hj & He).
  exists before, k', j, e, t, t', f, after. split_and!; [done|done| |done]. cbn. rewrite Hj in Hp. apply outcome_bind_Ok in Hp as (j' & Hj' & [= <-]). by exists j'.
Qed.
End Life.

(** * Worked cases *)

#[local] Instance plain_digest : Digest := λ s, s.
#[local] Instance demo_text : ReceiptText :=
  { write_text j := match j with JStr s => "s" +:+ s | _ => "null" end;
    read_text t := match t with String "s" s => Ok (JStr s) | _ => Raise (ValueError t) end }.

Definition demo_policy (name : string) : LimitSpec := mkSpec name 1 1 60 None None.

(** Request [a] holds lease [k] and owns the receipt. *)
Definition panic_store : PolicyStore :=
  mkPolicyStore (put_lease "k" (mkLease "a" (90 * second) 3) empty_store) ∅.

Lemma panic_single_flight_witness :
  ∃ c s, start_panic_receipt "a" 3 (90 * second) 0 false panic_store = (Ok c, s)
    ∧ (start_panic_receipt "b" 4 (95 * second) (5 * second) false
         (run_receipt_ops demo_policy [RStart "b" 4 (95 * second) (1 * second) false; RFinish "k" "b" 4 None (95 * second) (2 * second) (2 * second) false] s)).2
      = run_receipt_ops demo_policy [RStart "b" 4 (95 * second) (1 * second) false; RFinish "k" "b" 4 None (95 * second) (2 * second) (2 * second) false] s.
Proof.
  destruct (start_panic_receipt "a" 3 (90 * second) 0 false panic_store) as [[c|e] s] eqn:E; [|by vm_compute in E]. exists c, s. split; [done|].
  refine (proj1 (proj2 (panic_single_flight demo_policy "a" 3
    [RStart "b" 4 (95 * second) (1 * second) false; RFinish "k" "b" 4 None (95 * second) (2 * second) (2 * second) false]
    panic_store s (90 * second) 0 (5 * second) (90 * second) "b" 4 (95 * second) c None _ _ _))).
  - left. split; [done|]. split; [|done]. vm_compute in E. by injection E as <- _.
  - repeat constructor; cbn; try lia; by intros [? ?].
  - done.
Defined.

Abbreviation demo_history :=
  [RStart "a" 3 (90 * second) 0 false; RFinish "k" "a" 3 (Some (JStr "safe")) (90 * second) (1 * second) (2 * second) false] (only parsing).

Lemma coalesced_panic_result_witness :
  ∃ obs z, observe_panic_fence "k" "a" 3 (3 * second) (4 * second) false (run_receipt_ops demo_policy demo_history panic_store) = Ok obs
    ∧ po_snapshot obs = Some z
    ∧ ∃ before k' j e t t' f after,
        demo_history = before ++ RFinish k' "a" 3 (Some j) e t t' f :: after
        ∧ authorised_finish k' "a" 3 e t t' (run_receipt_ops demo_policy before panic_store)
        ∧ (∃ j', read_text (write_text j) = Ok j' ∧ pz_response z = Some j') ∧ pz_expires_at z = e.
Proof.
  destruct (observe_panic_fence "k" "a" 3 (3 * second) (4 * second) false (run_receipt_ops demo_policy demo_history panic_store)) as [obs|e] eqn:E;
    [|by vm_compute in E]. pose proof E as E'. vm_compute in E'. injection E' as Hobs.
  exists obs, (mkPanicSnapshot "a" 3 "completed" (Some (JStr "safe")) (90 * second)). split; [done|]. split; [by rewrite <- Hobs|].
  refine (coalesced_panic_result demo_policy demo_history panic_store "k" "a" 3 (3 * second) (4 * second) obs _ _ _ _ _ _); try done; try (by rewrite <- Hobs).
Defined.
