(* ===== verification/Flow.v ===== *)
(** Programs that ask their environment: the async code of the request middleware as finite
    trees of questions with explicit loops, so that other requests can act between any two
    questions.  A program is judged by a protocol: [ok] says that, whatever is answered, every
    question it asks is allowed in the phase it is asked in. *)

From S2P Require Import Prelude.

Section Flow.
Context {query : Type} {answer : query → Type}.

(** [Loop body st k] runs [body] from [st] until it returns [inr]. *)
Inductive flow : Type → Type :=
| Ret {A} (a : A) : flow A
| Ask {A} (q : query) (k : answer q → flow A) : flow A
| Loop {St R A} (body : St → flow (St + R)) (st : St) (k : R → flow A) : flow A.

Fixpoint flow_bind {A} (m : flow A) : ∀ {B}, (A → flow B) → flow B :=
  match m with
  | Ret a => λ B f, f a
  | Ask q k => λ B f, Ask q (λ x, flow_bind (k x) f)
  | Loop body st k => λ B f, Loop body st (λ r, flow_bind (k r) f)
  end.

Definition ask (q : query) : flow (answer q) := Ask q Ret.

(** One move: an answer to the question asked, or one turn of a loop. *)
Definition question {A} (m : flow A) : option query :=
  match m with Ask q _ => Some q | _ => None end.

Definition result {A} (m : flow A) : option A := match m with Ret a => Some a | _ => None end.

Definition move {A} (m : flow A) (respond : ∀ q, answer q) : flow A :=
  match m in flow A return flow A with
  | Ret a => Ret a
  | Ask q k => k (respond q)
  | Loop body st k => flow_bind (body st) (λ r, match r with inl st' => Loop body st' k | inr r => k r end)
  end.

(** ** Protocols *)

(** [valid] is what is known of answers whatever the state of the world. *)
Context {phase : Type} (allowed : phase → query → Prop) (valid : ∀ q, answer q → Prop) (next : ∀ q, answer q → phase → phase).

Fixpoint ok {A} (ph : phase) (m : flow A) : (phase → A → Prop) → Prop :=
  match m with
  | Ret a => λ Q, Q ph a
  | Ask q k => λ Q, allowed ph q ∧ ∀ x, valid q x → ok (next q x ph) (k x) Q
  | @Loop St R _ body st k => λ Q, ∃ I : phase → St → Prop,
      I ph st ∧ ∀ ph st, I ph st → ok ph (body st) (λ ph r, match r with inl st' => I ph st' | inr r => ok ph (k r) Q end)
  end.

Lemma ok_mono {A} (m : flow A) : ∀ ph (Q Q' : phase → A → Prop), (∀ ph a, Q ph a → Q' ph a) → ok ph m Q → ok ph m Q'.
Proof.
  induction m as [A a|A q k IH|St R A body IHb st k IHk]; intros ph Q Q' HQ; cbn.
  - apply HQ.
  - intros [Ha Hk]. split; [done|]. intros x Hx. eapply IH; [done|by apply Hk].
  - intros (I & HI & Hb). exists I. split; [done|]. intros ph' st' HI'. eapply IHb; [|by apply Hb].
    intros ph2 [st2|r]; [done|]. by apply IHk.
Qed.

Lemma ok_bind {A B} (m : flow A) (f : A → flow B) : ∀ ph Q, ok ph m (λ ph a, ok ph (f a) Q) → ok ph (flow_bind m f) Q.
Proof.
  revert B f. induction m as [A a|A q k IH|St R A body IHb st k IHk]; intros B f ph Q; cbn.
  - done.
  - intros [Ha Hk]. split; [done|]. intros x Hx. by apply IH, Hk.
  - intros (I & HI & Hb). exists I. split; [done|]. intros ph' st' HI'. eapply ok_mono; [|by apply Hb].
    intros ph2 [st2|r]; [done|]. by apply IHk.
Qed.

Lemma ok_ask {B} q (f : answer q → flow B) ph Q : allowed ph q → (∀ x, valid q x → ok (next q x ph) (f x) Q) → ok ph (flow_bind (ask q) f) Q.
Proof. intros Ha Hf. by split. Qed.

Lemma ok_ret {A} (a : A) ph (Q : phase → A → Prop) : Q ph a → ok ph (Ret a) Q.
Proof. done. Qed.

(** The phase after a move. *)
Definition next_phase {A} (m : flow A) (respond : ∀ q, answer q) (ph : phase) : phase :=
  match m with Ask q _ => next q (respond q) ph | _ => ph end.

(** A program that keeps to the protocol keeps to it after every validly answered move. *)
Lemma ok_move {A} (m : flow A) respond ph Q : (∀ q, question m = Some q → valid q (respond q)) → ok ph m Q → ok (next_phase m respond ph) (move m respond) Q.
Proof.
  destruct m as [A a|A q k|St R A body st k]; cbn; intros Hv.
  - done.
  - intros [_ Hk]. by apply Hk, Hv.
  - intros (I & HI & Hb). apply ok_bind. eapply ok_mono; [|by apply Hb]. intros ph' [st'|r]; [|done]. intros HI'. by exists I.
Qed.

Lemma ok_question {A} (m : flow A) ph Q q : ok ph m Q → question m = Some q → allowed ph q.
Proof. destruct m as [|A q' k|]; [done| |done]. intros [Ha _] [= <-]. done. Qed.
End Flow.

Arguments flow {query} answer _.

(** Sequencing, with the usual symbols in a scope of their own: programs are stored in lists,
    whose elements live below the universe of the library's monad class. *)
Declare Scope flow_scope.
Delimit Scope flow_scope with flow.
Notation "m ≫= f" := (flow_bind m f) : flow_scope.
Notation "x ← m ; k" := (flow_bind m (λ x, k)) : flow_scope.
