(* ===== verification/RequestFlow.v ===== *)
(** The request middleware of [app/policy.py]: [enforce_route_policy] and the helpers it calls,
    as a program ([Flow.v]) that asks the stores, the clocks and the handler.

    Each question is one transaction or one reading; between two questions other requests may
    do anything.  The wrapped handler is asked to start and then either is still at work when
    the next lease renewal is due, returns, or raises (a cancellation of the request included,
    which the middleware only sees once the handler has finished).  The sleeps between the polls
    for a panic receipt are questions too; those between renewals decide when a question is
    asked, not which.  Times and durations are in microseconds. *)

From S2P Require Import Prelude PyDecimal Assets BrokerModels Breakers Pnl Database Lifecycle SessionLogic BreakerStore.
From S2P Require Import Limits LimitsProofs LeaseProofs Sessions RoutePolicy PanicReceipts Flow.
From Stdlib Require Import Ascii Lia.
Local Open Scope Z_scope.

(** * Requests and responses *)

(** [date.fromisoformat], as a day number, or none for a string it rejects. *)
Class DateText : Type := date_fromisoformat : string → option Z.

Record Request : Type := mkRequest {
  rq_method : string;
  rq_url_path : string;
  rq_raw_path : string;
  rq_cookie : string;
  rq_csrf_header : string;
  rq_idempotency_key : string;
  rq_client_host : option string;
  rq_body : option json;
  rq_request_id : string;
}.

Record Response : Type := mkResponse {
  rs_status : Z;
  rs_code : string;
  rs_headers : list (string * string);
  rs_body : option json;
}.

(** What the handler leaves: its response, and the two notes it may make on the request. *)
Record HandlerResult : Type := mkHandlerResult {
  hr_response : Response;
  hr_panic_owner_failed : bool;
  hr_reconciliation_proof : option string;
}.

Inductive HandlerEvent : Type :=
| HAtWork
| HReturned (r : HandlerResult)
| HRaised (cancelled : bool) (e : exn).

(** [_policy_error_response]. *)
Definition error_response (code : string) (status : Z) : Response := mkResponse status code [] None.
Definition error_with_headers (code : string) (status : Z) (headers : list (string * string)) : Response := mkResponse status code headers None.
Definition error_with_receipt (code : string) (status : Z) (receipt : option json) : Response :=
  mkResponse status code [] (option_map (λ r, JObj [("receipt", r)]) receipt).

Definition panic_incomplete_response : Response := error_response "panic_incomplete" 503.
Definition policy_store_error_response : Response := error_response "policy_store_unavailable" 503.
Definition backtest_busy_response : Response := error_response "backtest_busy" 409.

Definition interlock_denial_response (p : RoutePolicy) : Response :=
  if bool_decide (p_concurrency_behavior p = "coalesce_panic") then panic_incomplete_response
  else error_response "mutation_reconciliation_required" 409.

Definition json_field (name : string) (j : json) : option json :=
  match j with JObj fields => dict_get fields name | _ => None end.

(** [_panic_response]. *)
Definition panic_response (z : PanicSnapshot) : Response :=
  match pz_response z with
  | Some r =>
      if bool_decide (pz_state z = "completed") && bool_decide (json_field "safe" r = Some (JBool true))
      then mkResponse 200 EmptyString [] (Some r)
      else error_with_receipt "panic_incomplete" 503 (Some r)
  | None => error_with_receipt "panic_incomplete" 503 None
  end.

(** [_panic_payload] of a parsed body. *)
Definition panic_payload (body : option json) : option json :=
  match body with
  | Some (JObj fields as payload) =>
      match dict_get fields "receipt" with
      | Some (JObj inner as candidate) => if bool_decide (dict_get inner "safe" ≠ None) then Some candidate
                                          else if bool_decide (dict_get fields "safe" ≠ None) then Some payload else None
      | _ => if bool_decide (dict_get fields "safe" ≠ None) then Some payload else None
      end
  | _ => None
  end.

(** * Configuration *)

Record PolicyConfig : Type := mkPolicyConfig {
  cf_app : list RouteTree;
  cf_rate_limits : RateLimitsConfig;
  cf_application_secret : string;
  cf_reauthentication_window : time;
  cf_max_symbols : Z;
  cf_max_calendar_days : Z;
  cf_request_timeout : Z;
  cf_tenure_guard : bool;
}.

(** [_backtest_bounds_response]: [true] when the request is out of bounds. *)
Definition backtest_bounds_exceeded `{DateText} (cfg : PolicyConfig) (body : option json) : bool :=
  match body with
  | Some (JObj fields) =>
      let exceeded := match dict_get fields "symbols" with Some (JList symbols) => cf_max_symbols cfg <? Z.of_nat (length symbols) | _ => false end in
      if exceeded then true
      else match dict_get fields "start_date", dict_get fields "end_date" with
      | Some (JStr start_value), Some (JStr end_value) =>
          match date_fromisoformat start_value, date_fromisoformat end_value with
          | Some start_date, Some end_date => cf_max_calendar_days cfg <? end_date - start_date + 1
          | _, _ => false
          end
      | _, _ => false
      end
  | _ => false
  end.

(** [_authenticate]: two readings of the clock. *)
Definition authenticate_request `{Digest, Hmac} (cfg : PolicyConfig) (p : RoutePolicy) (token supplied_csrf : string) (now later : time)
    (s : AuthStore) : outcome (option SessionPrincipal) :=
  if bool_decide (p_auth p = PUBLIC) then Ok None
  else
    principal ← (if bool_decide (p_auth p = SESSION) then authenticate (cf_application_secret cfg) token now s
                 else require_csrf (cf_application_secret cfg) token supplied_csrf now s);
    let age := later - sp_authenticated_at principal in
    if bool_decide (p_auth p = RECENT) && ((age <? 0) || (cf_reauthentication_window cfg <? age)) then Raise RecentAuthenticationRequired
    else Ok (Some principal).

(** * Questions *)

Inductive query : Type :=
| QTenure
| QAuthenticate (p : RoutePolicy) (token csrf : string)
| QConsume (spec : LimitSpec) (principal : string)
| QInspectInterlock (key : string)
| QInspectLease (key : string)
| QReleaseBacktest (key owner : string) (generation : Z)
| QOwner
| QAcquire (key owner : string) (ttl : Z)
| QRenew (key owner : string) (generation ttl : Z)
| QRelease (key owner : string) (generation : Z)
| QClaim (key owner : string) (generation : Z) (operation : string)
| QSettle (key owner : string) (generation : Z)
| QReleaseSettled (key lease_key owner : string) (generation : Z)
| QMarkUncertain (key owner : string) (generation : Z) (code : string) (finished : bool)
| QReconcileClear (key owner : string) (generation : Z) (actor request_id evidence : string)
| QStartReceipt (request_id : string) (generation : Z) (expires_at : time)
| QRenewReceipt (lease_key request_id : string) (generation : Z) (expires_at : time)
| QFinishReceipt (lease_key request_id : string) (generation : Z) (response : option json) (expires_at : time)
| QDiscardReceipt (request_id : string) (generation : Z)
| QMarkReceipt (request_id : string) (generation : Z) (response : option json) (expires_at : time)
| QObserve (lease_key owner : string) (generation : Z)
| QClock
| QLoopTime
| QSleep (delay : Z)
| QStopped
| QCallNext
| QHandler.

Definition answer (q : query) : Type :=
  match q with
  | QTenure | QStopped => bool
  | QAuthenticate _ _ _ => outcome (option SessionPrincipal)
  | QConsume _ _ => outcome LimitDecision
  | QInspectInterlock _ => outcome (option InterlockDecision)
  | QInspectLease _ | QAcquire _ _ _ | QRenew _ _ _ _ => outcome LeaseDecision
  | QReleaseBacktest _ _ _ | QRelease _ _ _ | QSettle _ _ _ | QReleaseSettled _ _ _ _ | QMarkUncertain _ _ _ _ _
  | QReconcileClear _ _ _ _ _ _ | QRenewReceipt _ _ _ _ | QDiscardReceipt _ _ | QMarkReceipt _ _ _ _ => outcome bool
  | QOwner => string
  | QClaim _ _ _ _ => outcome InterlockDecision
  | QStartReceipt _ _ _ => outcome PanicClaim
  | QFinishReceipt _ _ _ _ _ => outcome ()
  | QObserve _ _ _ => outcome PanicFenceObservation
  | QClock => time
  | QLoopTime => Z
  | QSleep _ | QCallNext => ()
  | QHandler => HandlerEvent
  end.

Abbreviation prog := (flow answer).

(** A step that may raise: the exception ends what follows. *)
Definition try_bind {A B} (m : prog (outcome A)) (f : A → prog (outcome B)) : prog (outcome B) :=
  flow_bind m (λ r, match r with Ok a => f a | Raise e => Ret (Raise e) end).

Notation "x ←? m ; k" := (try_bind m (λ x, k)) (at level 20, m at level 100, k at level 200, right associativity) : flow_scope.
Local Open Scope flow_scope.

(** [except LimitStoreUnavailable]: such a failure becomes [None]; any other exception goes on. *)
Definition unavailable_as_none {A} (r : outcome A) : outcome (option A) :=
  match r with
  | Ok a => Ok (Some a)
  | Raise (LimitStoreUnavailable _) => Ok None
  | Raise e => Raise e
  end.

Definition inspect_interlock_q (key : string) : prog (outcome (option (option InterlockDecision))) :=
  r ← ask (QInspectInterlock key); Ret (unavailable_as_none r).

(** * Helpers that ask *)

(** [_release_lease]; the release raises only when the store is unavailable. *)
Definition release_lease (h : LeaseHold) : prog bool :=
  r ← ask (QRelease (h_resource_key h) (h_owner h) (h_generation h));
  Ret match r with Ok b => b | Raise _ => false end.

(** [_mark_interlock_uncertain]. *)
Definition mark_interlock_uncertain (h : LeaseHold) (outcome_code : string) (worker_finished : bool) : prog (outcome bool) :=
  r ← ask (QMarkUncertain (hold_interlock_key h) (h_owner h) (h_generation h) outcome_code worker_finished);
  Ret match unavailable_as_none r with Ok (Some b) => Ok b | Ok None => Ok false | Raise e => Raise e end.

(** [_mark_panic_uncertain_quietly]; its log line is left out. *)
Definition mark_panic_uncertain_quietly (h : LeaseHold) (request_id : string) (response : option json) : prog () :=
  _ ← ask (QMarkReceipt request_id (h_generation h) response (h_expires_at h)); Ret ().

(** A cleanup that failed: at settling or at releasing. *)
Inductive CleanupFailure : Type := CSettle | CRelease.

(** [_settle_and_release_interlock]. *)
Definition settle_and_release_interlock (h : LeaseHold) : prog (outcome (option CleanupFailure)) :=
  settled ← ask (QSettle (hold_interlock_key h) (h_owner h) (h_generation h));
  match unavailable_as_none settled with
  | Raise e => Ret (Raise e)
  | Ok None | Ok (Some false) => Ret (Ok (Some CSettle))
  | Ok (Some true) =>
      released ← ask (QReleaseSettled (hold_interlock_key h) (h_resource_key h) (h_owner h) (h_generation h));
      Ret match unavailable_as_none released with
           | Raise e => Raise e
           | Ok (Some true) => Ok None
           | Ok _ => Ok (Some CRelease)
           end
  end.

Definition PANIC_POLL_INITIAL : Z := second / 40.
Definition PANIC_POLL_MAX : Z := second / 4.

(** A snapshot that is no longer [started]. *)
Definition finished_snapshot (o : PanicFenceObservation) : option PanicSnapshot :=
  match po_snapshot o with Some z => if bool_decide (pz_state z = "started") then None else Some z | None => None end.

(** One poll of [_wait_for_panic_receipt] with the delay it sleeps at most: a response, or another
    poll with the next delay. *)
Definition poll_panic_receipt (wait_deadline : Z) (lease_key : string) (observed : LeaseDecision) (delay : Z) : prog (Z + outcome Response) :=
  loop_now ← ask QLoopTime;
  let request_remaining := wait_deadline - loop_now in
  if request_remaining <=? 0 then Ret (inr (Ok panic_incomplete_response))
  else
    observation ← ask (QObserve lease_key (lq_owner observed) (lq_generation observed));
    match unavailable_as_none observation with
    | Raise e => Ret (inr (Raise e))
    | Ok None => Ret (inr (Ok policy_store_error_response))
    | Ok (Some o) =>
        if negb (po_authoritative o) then Ret (inr (Ok panic_incomplete_response))
        else match finished_snapshot o with
        | Some z => Ret (inr (Ok (panic_response z)))
        | None =>
            t ← ask QClock;
            let remaining := po_wait_expires_at o - t in
            if remaining <=? 0 then Ret (inr (Ok panic_incomplete_response))
            else
              _ ← ask (QSleep (Z.min (Z.min delay remaining) request_remaining));
              Ret (inl (Z.min (delay * 2) PANIC_POLL_MAX))
        end
    end.

(** [_wait_for_panic_receipt]. *)
Definition wait_for_panic_receipt (cfg : PolicyConfig) (lease_key : string) (observed : LeaseDecision) : prog (outcome Response) :=
  started ← ask QLoopTime;
  Loop (poll_panic_receipt (started + cf_request_timeout cfg) lease_key observed) PANIC_POLL_INITIAL Ret.

(** Why a renewal gave up. *)
Inductive RenewalFailure : Type := RLost | RStore.

(** The retries of [_maintain_lease] on the panic receipt, within the renewed lease. *)
Definition renew_receipt_loop (h : LeaseHold) (request_id : string) (expires_at : time) : prog (option RenewalFailure) :=
  Loop (λ _ : (),
    t ← ask QClock;
    if expires_at - t <=? 0 then Ret (inr (Some RStore))
    else
      renewed ← ask (QRenewReceipt (h_resource_key h) request_id (h_generation h) expires_at);
      match renewed with
      | Ok true => Ret (inr None)
      | Ok false => Ret (inr (Some RLost))
      | Raise _ => stopped ← ask QStopped; Ret (if (stopped : bool) then inr (Some RStore) else inl ())
      end) () Ret.

(** One due renewal of [_maintain_lease]: the retries on the lease, then on the receipt. *)
Definition renew_hold (h : LeaseHold) (panic_request_id : option string) : prog (RenewalFailure + LeaseHold) :=
  Loop (λ _ : (),
    t ← ask QClock;
    if h_expires_at h - t <=? 0 then Ret (inr (inl RStore))
    else
      renewed ← ask (QRenew (h_resource_key h) (h_owner h) (h_generation h) (h_ttl_seconds h));
      match renewed with
      | Raise _ => Ret (inl ())
      | Ok d =>
          if negb (lq_acquired d) || negb (bool_decide (lq_owner d = h_owner h)) || negb (lq_generation d =? h_generation h)
          then Ret (inr (inl RLost))
          else
            let h' := mkHold (h_resource_key h) (h_owner h) (h_generation h) (lq_expires_at d) (h_ttl_seconds h) (h_interlock_key h) in
            match panic_request_id with
            | None => Ret (inr (inr h'))
            | Some rid =>
                failure ← renew_receipt_loop h rid (lq_expires_at d);
                Ret match failure with Some f => inr (inl f) | None => inr (inr h') end
            end
      end) () Ret.

(** Waiting for the handler alone. *)
Definition await_handler : prog (outcome HandlerResult * bool) :=
  Loop (λ _ : (),
    e ← ask QHandler;
    Ret match e with
         | HAtWork => inl ()
         | HReturned r => inr (Ok r, false)
         | HRaised cancelled e => inr (Raise e, cancelled)
         end) () Ret.

(** [_call_with_lease_renewal]: the handler's outcome, whether it ended in a cancellation, what
    became of the renewals, and the hold as last renewed.  A renewal that fails is over; the
    handler is still waited for. *)
Definition call_with_lease_renewal (h : LeaseHold) (panic_request_id : option string)
    : prog (outcome HandlerResult * bool * option RenewalFailure * LeaseHold) :=
  _ ← ask QCallNext;
  Loop (λ h : LeaseHold,
    e ← ask QHandler;
    match e with
    | HReturned r => Ret (inr (Ok r, false, None, h))
    | HRaised cancelled e => Ret (inr (Raise e, cancelled, None, h))
    | HAtWork =>
        renewed ← renew_hold h panic_request_id;
        match renewed with
        | inr h' => Ret (inl h')
        | inl failure => r ← await_handler; Ret (inr (r.1, r.2, Some failure, h))
        end
    end) h Ret.

(** [call_next(request)] without a lease. *)
Definition call_next : prog (outcome Response) :=
  _ ← ask QCallNext;
  r ← await_handler;
  Ret match r.1 with Ok hr => Ok (hr_response hr) | Raise e => Raise e end.

(** The loop over the lease keys: the lease granted, or every refusal. *)
Fixpoint acquire_first (owner : string) (ttl : Z) (interlock_key : string) (keys : list string) (contentions : list (string * LeaseDecision))
    : prog (outcome (option (LeaseHold + list (string * LeaseDecision)))) :=
  match keys with
  | [] => Ret (Ok (Some (inr contentions)))
  | key :: keys =>
      r ← ask (QAcquire key owner ttl);
      match unavailable_as_none r with
      | Raise e => Ret (Raise e)
      | Ok None => Ret (Ok None)
      | Ok (Some lease) =>
          if lq_acquired lease
          then Ret (Ok (Some (inl (mkHold key (lq_owner lease) (lq_generation lease) (lq_expires_at lease) ttl (Some interlock_key)))))
          else acquire_first owner ttl interlock_key keys (contentions ++ [(key, lease)])
      end
  end.

(** [min(retries, default=1)]. *)
Definition retry_after_of (contentions : list (string * LeaseDecision)) : Z :=
  match filter (λ v, 0 < v) (map (λ c, lq_retry_after_seconds c.2) contentions) with
  | [] => 1
  | x :: l => min_of x l
  end.

(** * The middleware *)

Section Middleware.
Context `{Digest, DateText} (cfg : PolicyConfig).

Definition generic_interlock (p : RoutePolicy) : bool := p_requires_idempotency p && negb (p_receipt_managed_idempotency p).

Definition coalesces (p : RoutePolicy) : bool := bool_decide (p_concurrency_behavior p = "coalesce_panic").

(** What the interlock checks let through: the lease keys to try, the interlock to claim, and
    the interlock a reconciliation is to clear. *)
Record GatePass : Type := mkGatePass { gp_keys : list string; gp_interlock_key : string; gp_target : option InterlockDecision }.

(** Which standing interlock the request has to deal with. *)
Definition existing_for_reset (p : RoutePolicy) (existing companion legacy : option InterlockDecision) : Response + option InterlockDecision :=
  if bool_decide (companion ≠ None) then inl (interlock_denial_response p)
  else match legacy with
  | None => inr existing
  | Some l =>
      if bool_decide (id_operation l = "breaker_reset") && bool_decide (existing = None) then inr (Some l)
      else inl (interlock_denial_response p)
  end.

Definition existing_for_panic (existing companion legacy : option InterlockDecision) : Response + option InterlockDecision :=
  let reset_blockers :=
    match companion with Some c => [c] | None => [] end
    ++ match legacy with Some l => if bool_decide (id_operation l = "breaker_reset") then [l] else [] | None => [] end in
  if existsb (λ b, bool_decide (id_worker_finished_at b = None)) reset_blockers then inl panic_incomplete_response
  else match legacy with
  | None => inr existing
  | Some l =>
      if bool_decide (id_operation l = "panic") && bool_decide (existing = None) then inr (Some l)
      else if negb (bool_decide (id_operation l ∈ ["breaker_reset"; "panic"])) then inl panic_incomplete_response
      else inr existing
  end.

(** The reads of the interlocks.  [None]: a store was unavailable. *)
Definition standing_mutation (resolved : ResolvedRoute) (lease_key interlock_key limit_principal : string)
    : prog (outcome (option (Response + option InterlockDecision))) :=
  let p := rr_policy resolved in
  let path := p_path p in
  existing ←? inspect_interlock_q interlock_key;
  match existing with
  | None => Ret (Ok None)
  | Some existing =>
      if bool_decide (path ∈ ["/killswitch/reset"; "/panic"])
      then
        let companion_operation := if bool_decide (path = "/killswitch/reset") then "panic" else "breaker_reset" in
        companion ←? inspect_interlock_q (operation_interlock_key resolved lease_key limit_principal (Some companion_operation));
        match companion with
        | None => Ret (Ok None)
        | Some companion =>
            legacy ←? inspect_interlock_q lease_key;
            match legacy with
            | None => Ret (Ok None)
            | Some legacy =>
                Ret (Ok (Some (if bool_decide (path = "/killswitch/reset") then existing_for_reset p existing companion legacy
                                else existing_for_panic existing companion legacy)))
            end
        end
      else Ret (Ok (Some (inr existing)))
  end.

Definition standing_interlock (resolved : ResolvedRoute) (lease_key interlock_key limit_principal : string)
    : prog (outcome (option (Response + option InterlockDecision))) :=
  control ←? (if bool_decide (p_path (rr_policy resolved) = "/reconcile") then inspect_interlock_q reconciliation_control_key else Ret (Ok (Some None)));
  match control with
  | None => Ret (Ok None)
  | Some (Some _) => Ret (Ok (Some (inl (interlock_denial_response (rr_policy resolved)))))
  | Some None => standing_mutation resolved lease_key interlock_key limit_principal
  end.

Definition same_token (observed : LeaseDecision) (x : InterlockDecision) : bool :=
  lq_acquired observed && bool_decide (lq_owner observed = id_owner x) && (lq_generation observed =? id_generation x).

(** What a standing interlock means for the request. *)
Definition meet_existing (p : RoutePolicy) (keys : list string) (lease_key interlock_key : string) (existing : option InterlockDecision)
    : prog (outcome (Response + GatePass)) :=
  let pass := Ret (Ok (inr (mkGatePass keys interlock_key None))) in
  match existing with
  | None => pass
  | Some x =>
      if bool_decide (p_path p = "/backtests/run") && bool_decide (id_state x = "active") then
        observed ← ask (QInspectLease lease_key);
        match unavailable_as_none observed with
        | Raise e => Ret (Raise e)
        | Ok None => Ret (Ok (inl policy_store_error_response))
        | Ok (Some o) =>
            if same_token o x then Ret (Ok (inl backtest_busy_response))
            else if lq_acquired o then Ret (Ok (inl (interlock_denial_response p)))
            else
              reclaimed ← ask (QReleaseBacktest lease_key (id_owner x) (id_generation x));
              match unavailable_as_none reclaimed with
              | Raise e => Ret (Raise e)
              | Ok None => Ret (Ok (inl policy_store_error_response))
              | Ok (Some false) => Ret (Ok (inl (interlock_denial_response p)))
              | Ok (Some true) => pass
              end
        end
      else if coalesces p && bool_decide (id_state x = "active") then
        observed ← ask (QInspectLease lease_key);
        match unavailable_as_none observed with
        | Raise e => Ret (Raise e)
        | Ok None => Ret (Ok (inl policy_store_error_response))
        | Ok (Some o) =>
            if same_token o x then response ←? wait_for_panic_receipt cfg lease_key o; Ret (Ok (inl response))
            else Ret (Ok (inl panic_incomplete_response))
        end
      else if bool_decide (p_path p = "/reconcile") && bool_decide (id_operation x = "portfolio_reconcile")
              && bool_decide (id_worker_finished_at x ≠ None)
      then Ret (Ok (inr (mkGatePass [reconciliation_control_key] reconciliation_control_key (Some x))))
      else Ret (Ok (inl (interlock_denial_response p)))
  end.

(** The interlock checks of a generic mutation. *)
Definition interlock_gate (resolved : ResolvedRoute) (keys : list string) (lease_key interlock_key limit_principal : string)
    : prog (outcome (Response + GatePass)) :=
  if negb (generic_interlock (rr_policy resolved)) then Ret (Ok (inr (mkGatePass keys interlock_key None)))
  else
    standing ←? standing_interlock resolved lease_key interlock_key limit_principal;
    match standing with
    | None => Ret (Ok (inl policy_store_error_response))
    | Some (inl response) => Ret (Ok (inl response))
    | Some (inr existing) => meet_existing (rr_policy resolved) keys lease_key interlock_key existing
    end.

(** Every lease was refused. *)
Definition contended (p : RoutePolicy) (configured : WindowLimitConfig) (decision : LimitDecision) (contentions : list (string * LeaseDecision))
    : prog (outcome Response) :=
  if coalesces p then
    match contentions with
    | (key, observed) :: _ => wait_for_panic_receipt cfg key observed
    | [] => Ret (Raise (RuntimeError "list index out of range"))
    end
  else if bool_decide (p_path p = "/backtests/run") then Ret (Ok backtest_busy_response)
  else Ret (Ok (error_with_headers "route_busy" 409
                   (dict_set (rate_headers configured decision) "Retry-After" (pretty (retry_after_of contentions))))).

(** The claims of an acquired lease: the interlock, then the panic receipt.  A response ends
    the request. *)
Definition claim_interlock (p : RoutePolicy) (h : LeaseHold) : prog (outcome (option Response)) :=
  if generic_interlock p then
    interlock ← ask (QClaim (hold_interlock_key h) (h_owner h) (h_generation h) (default EmptyString (p_mutation_operation p)));
    match interlock with
    | Raise (LimitStoreUnavailable _) | Raise (ValueError _) => _ ← release_lease h; Ret (Ok (Some policy_store_error_response))
    | Raise e => Ret (Raise e)
    | Ok d => if id_acquired d then Ret (Ok None) else _ ← release_lease h; Ret (Ok (Some (interlock_denial_response p)))
    end
  else Ret (Ok None).

Definition claim_receipt (p : RoutePolicy) (h : LeaseHold) : prog (outcome (option Response)) :=
  if coalesces p then
    claim ← ask (QStartReceipt (h_owner h) (h_generation h) (h_expires_at h));
    match claim with
    | Raise _ => _ ←? mark_interlock_uncertain h "panic_settlement_unproven" true; Ret (Ok (Some policy_store_error_response))
    | Ok c =>
        if pc_claimed c then Ret (Ok None)
        else
          _ ←? mark_interlock_uncertain h "panic_settlement_unproven" true;
          Ret (Ok (Some (if negb (bool_decide (pz_state (pc_snapshot c) = "started")) then panic_response (pc_snapshot c)
                          else panic_incomplete_response)))
    end
  else Ret (Ok None).

Definition claim_authority (p : RoutePolicy) (h : LeaseHold) : prog (outcome (option Response)) :=
  denied ←? claim_interlock p h;
  match denied with Some response => Ret (Ok (Some response)) | None => claim_receipt p h end.

(** After the handler raised. *)
Definition after_exception (p : RoutePolicy) (h : LeaseHold) (cancelled : bool) (e : exn) : prog (outcome Response) :=
  _ ← (if coalesces p then mark_panic_uncertain_quietly h (h_owner h) None else Ret ());
  if generic_interlock p
  then _ ←? mark_interlock_uncertain h (if cancelled then "request_cancelled" else "handler_failed") true; Ret (Raise e)
  else _ ← release_lease h; Ret (Raise e).

(** After the renewals gave up. *)
Definition after_lost_lease (p : RoutePolicy) (h : LeaseHold) (failure : RenewalFailure) (response : Response) : prog (outcome Response) :=
  _ ← (if coalesces p then mark_panic_uncertain_quietly h (h_owner h) None else Ret ());
  if generic_interlock p
  then _ ←? mark_interlock_uncertain h (match failure with RStore => "lease_renewal_unproven" | RLost => "lease_ownership_lost" end) true;
       Ret (Ok response)
  else Ret (Ok response).

(** The settlement of the panic receipt: whether it succeeded, and the payload stored. *)
Definition settle_receipt (h : LeaseHold) (hr : HandlerResult) : prog bool :=
  let durable_response := panic_payload (rs_body (hr_response hr)) in
  if bool_decide (durable_response = None) && (rs_status (hr_response hr) <? 500)
  then r ← ask (QDiscardReceipt (h_owner h) (h_generation h)); Ret match r with Ok b => b | Raise _ => false end
  else
    r ← ask (QFinishReceipt (h_resource_key h) (h_owner h) (h_generation h)
               (if hr_panic_owner_failed hr then None else durable_response) (h_expires_at h));
    Ret match r with Ok _ => true | Raise _ => false end.

(** The reconciliation of a standing interlock, on the handler's proof. *)
Definition clear_reconciled (req : Request) (principal : option SessionPrincipal) (target : option InterlockDecision) (proof : option string)
    : prog (outcome ()) :=
  match target with
  | Some x =>
      if bool_decide (proof = Some "portfolio_truth_reconciled") then
        match principal with
        | None => Ret (Raise (AttributeError "actor"))
        | Some pr =>
            r ← ask (QReconcileClear (id_resource_key x) (id_owner x) (id_generation x) (sp_actor pr) (rq_request_id req) "portfolio_truth_reconciled");
            Ret match unavailable_as_none r with Raise e => Raise e | Ok _ => Ok () end
        end
      else Ret (Ok ())
  | None => Ret (Ok ())
  end.

(** Settling and releasing the interlock, or releasing the lease alone. *)
Definition close_lease (p : RoutePolicy) (h : LeaseHold) (response : Response) (durable_response : option json) : prog (outcome Response) :=
  if generic_interlock p then
    cleanup_failure ←? settle_and_release_interlock h;
    match cleanup_failure with
    | Some f =>
        _ ←? mark_interlock_uncertain h (match f with CSettle => "interlock_settlement_unproven" | CRelease => "lease_release_unproven" end) true;
        _ ← (if coalesces p then mark_panic_uncertain_quietly h (h_owner h) durable_response else Ret ());
        Ret (Ok response)
    | None => Ret (Ok response)
    end
  else _ ← release_lease h; Ret (Ok response).

(** After the handler returned within its lease. *)
Definition after_return (req : Request) (principal : option SessionPrincipal) (p : RoutePolicy) (h : LeaseHold) (target : option InterlockDecision)
    (hr : HandlerResult) : prog (outcome Response) :=
  let response := hr_response hr in
  let durable_response := panic_payload (rs_body response) in
  settlement_succeeded ← (if coalesces p then settle_receipt h hr else Ret true);
  if negb settlement_succeeded then
    _ ← mark_panic_uncertain_quietly h (h_owner h) durable_response;
    _ ←? mark_interlock_uncertain h "panic_settlement_unproven" true;
    Ret (Ok response)
  else
    _ ←? clear_reconciled req principal target (hr_reconciliation_proof hr);
    close_lease p h response durable_response.

(** The request under its lease. *)
Definition run_leased (req : Request) (principal : option SessionPrincipal) (p : RoutePolicy) (h : LeaseHold) (target : option InterlockDecision)
    : prog (outcome Response) :=
  denied ←? claim_authority p h;
  match denied with
  | Some response => Ret (Ok response)
  | None =>
      r ← call_with_lease_renewal h (if coalesces p then Some (h_owner h) else None);
      match r with
      | (Raise e, cancelled, _, h) => after_exception p h cancelled e
      | (Ok hr, _, Some failure, h) => after_lost_lease p h failure (hr_response hr)
      | (Ok hr, _, None, h) => after_return req principal p h target hr
      end
  end.

(** From the admitted request to its lease. *)
Definition run_admitted (req : Request) (principal : option SessionPrincipal) (resolved : ResolvedRoute) (limit_principal : string)
    (decision : LimitDecision) : prog (outcome Response) :=
  let p := rr_policy resolved in
  if bool_decide (p_path p = "/backtests/run") && backtest_bounds_exceeded cfg (rq_body req)
  then Ret (Ok (error_response "backtest_bounds_exceeded" 422))
  else if p_lease_free_bounded_read p then call_next
  else
    keys ←? Ret (lease_keys (cf_rate_limits cfg) resolved limit_principal);
    match keys with
    | [] => Ret (Raise (RuntimeError "list index out of range"))
    | lease_key :: _ =>
        let interlock_key := operation_interlock_key resolved lease_key limit_principal None in
        gate ←? interlock_gate resolved keys lease_key interlock_key limit_principal;
        match gate with
        | inl response => Ret (Ok response)
        | inr pass =>
            owner ← ask QOwner;
            held ←? acquire_first owner (lease_ttl_seconds p) (gp_interlock_key pass) (gp_keys pass) [];
            match held with
            | None => Ret (Ok policy_store_error_response)
            | Some (inr contentions) =>
                configured ←? Ret (configured_limit (cf_rate_limits cfg) p);
                contended p configured decision contentions
            | Some (inl h) => run_leased req principal p h (gp_target pass)
            end
        end
    end.

(** The principal a request is limited as. *)
Definition limit_principal_of (req : Request) (principal : option SessionPrincipal) : outcome string :=
  match principal with
  | Some pr => session_limit_principal (sp_session_id pr) (sp_actor pr)
  | None => Ok ("source:" +:+ default "unknown" (rq_client_host req))
  end.

(** From authentication through idempotency to the rate limit. *)
Definition run_owned (req : Request) (resolved : ResolvedRoute) : prog (outcome Response) :=
  let p := rr_policy resolved in
  authenticated ← ask (QAuthenticate p (rq_cookie req) (rq_csrf_header req));
  match authenticated with
  | Raise (ApiError code status) => Ret (Ok (error_response code status))
  | Raise e => Ret (Raise e)
  | Ok principal =>
      if p_requires_idempotency p && negb (nonempty (rq_idempotency_key req)) then Ret (Ok (error_response "idempotency_key_required" 422))
      else
        limit_principal ←? Ret (limit_principal_of req principal);
        spec ←? Ret (limit_spec_of (cf_rate_limits cfg) p);
        consumed ← ask (QConsume spec limit_principal);
        match unavailable_as_none consumed with
        | Raise e => Ret (Raise e)
        | Ok None => Ret (Ok policy_store_error_response)
        | Ok (Some decision) =>
            if negb (ld_allowed decision) then
              configured ←? Ret (configured_limit (cf_rate_limits cfg) p);
              Ret (Ok (error_with_headers "rate_limit_exceeded" 429 (rate_headers configured decision)))
            else run_admitted req principal resolved limit_principal decision
        end
  end.

(** A mutation first proves that the process still owns the runtime. *)
Definition run_resolved (req : Request) (resolved : ResolvedRoute) : prog (outcome Response) :=
  owned ← (if negb (bool_decide (upper (rq_method req) ∈ ["GET"; "HEAD"; "OPTIONS"])) && cf_tenure_guard cfg then ask QTenure else Ret true);
  if negb owned then Ret (Ok (error_response "runtime_tenure_lost" 503)) else run_owned req resolved.

(** [enforce_route_policy]. *)
Definition enforce_route_policy (req : Request) : prog (outcome Response) :=
  if (bool_decide (rq_url_path req = "/static") || String.prefix "/static/" (rq_url_path req))
     && negb (is_safe_static_asset (rq_raw_path req) (rq_url_path req))
  then Ret (Ok (error_response "not_found" 404))
  else match resolve ROUTE_POLICIES (cf_app cfg) (rq_method req) (rq_url_path req) with
  | Raise _ => Ret (Ok (error_response "route_policy_missing" 503))
  | Ok None => call_next
  | Ok (Some resolved) =>
      if bool_decide (p_path (rr_policy resolved) = "/health/live") then call_next else run_resolved req resolved
  end.
End Middleware.

(** * Answers *)

Record World : Type := mkWorld { w_policy : PolicyStore; w_auth : AuthStore }.

(** What the environment decides of one step: the readings of the clocks, whether the database
    fails, the fresh owner, and what the tenure guard, the stop event and the handler say. *)
Record Env : Type := mkEnv {
  e_now : time;
  e_later : time;
  e_loop : Z;
  e_fails : bool;
  e_owner : string;
  e_tenure : bool;
  e_stopped : bool;
  e_handler : HandlerEvent;
}.

Definition on_policy {A} (f : PolicyStore → A * PolicyStore) (w : World) : A * World :=
  let r := f (w_policy w) in (r.1, mkWorld r.2 (w_auth w)).
Definition on_limits {A} (f : LimitStore → A * LimitStore) : World → A * World :=
  on_policy (λ s, let r := f (ps_limits s) in (r.1, set_ps_limits r.2 s)).

Section Answers.
Context `{Digest, Hmac, ReceiptText, DateText} (cfg : PolicyConfig).

Definition unavailable {A} : outcome A := Raise (LimitStoreUnavailable "durable limit store unavailable").

Definition respond (q : query) (e : Env) (w : World) : answer q * World :=
  let s := w_policy w in
  match q return answer q * World with
  | QTenure => (e_tenure e, w)
  | QStopped => (e_stopped e, w)
  | QAuthenticate p token csrf =>
      (if e_fails e then Raise (RuntimeError "database") else authenticate_request cfg p token csrf (e_now e) (e_later e) (w_auth w), w)
  | QConsume spec principal => on_limits (consume_pair spec principal (e_now e) (e_fails e)) w
  | QInspectInterlock key => (if e_fails e then unavailable else inspect_interlock key (ps_limits s), w)
  | QInspectLease key => (if e_fails e then unavailable else Ok (inspect_lease key (e_now e) (ps_limits s)), w)
  | QReleaseBacktest key owner generation => on_limits (release_expired_backtest key owner generation (e_now e) (e_fails e)) w
  | QOwner => (e_owner e, w)
  | QAcquire key owner ttl => on_limits (acquire key owner ttl (e_now e) (e_fails e)) w
  | QRenew key owner generation ttl => on_limits (renew key owner generation ttl (e_now e) (e_fails e)) w
  | QRelease key owner generation => on_limits (release key owner generation (e_now e) (e_fails e)) w
  | QClaim key owner generation operation => on_limits (claim key owner generation operation (e_now e) (e_fails e)) w
  | QSettle key owner generation => on_limits (settle key owner generation "handler_completed" (e_now e) (e_fails e)) w
  | QReleaseSettled key lease_key owner generation =>
      on_limits (release_settled key (Some lease_key) owner generation (e_now e) (e_fails e)) w
  | QMarkUncertain key owner generation code finished =>
      on_limits (mark_uncertain key owner generation code finished (e_now e) (e_fails e)) w
  | QReconcileClear key owner generation actor request_id evidence =>
      on_limits (reconcile_clear key owner generation actor request_id evidence false (e_now e) (e_fails e)) w
  | QStartReceipt rid generation expires_at => on_policy (start_panic_receipt rid generation expires_at (e_now e) (e_fails e)) w
  | QRenewReceipt key rid generation expires_at =>
      on_policy (renew_panic_receipt key rid generation expires_at (e_now e) (e_later e) (e_fails e)) w
  | QFinishReceipt key rid generation response expires_at =>
      on_policy (finish_panic_receipt key rid generation response expires_at (e_now e) (e_later e) (e_fails e)) w
  | QDiscardReceipt rid generation => on_policy (discard_panic_receipt rid generation (e_fails e)) w
  | QMarkReceipt rid generation response expires_at =>
      on_policy (mark_panic_uncertain rid generation response expires_at (e_now e) (e_fails e)) w
  | QObserve key owner generation => (observe_panic_fence key owner generation (e_now e) (e_later e) (e_fails e) s, w)
  | QClock => (e_now e, w)
  | QLoopTime => (e_loop e, w)
  | QSleep _ | QCallNext => ((), w)
  | QHandler => (e_handler e, w)
  end.

(** One request alone: its program against a list of environments. *)
Fixpoint run_flow {A} (fuel : nat) (m : prog A) (es : list Env) (w : World) : option (A * World) :=
  match fuel with
  | O => None
  | S fuel =>
      match m in flow _ A return option (A * World) with
      | Ret a => Some (a, w)
      | Ask q k => match es with
                   | [] => None
                   | e :: es => let r := respond q e w in run_flow fuel (k r.1) es r.2
                   end
      | Loop body st k => run_flow fuel (body st ≫= λ r, match r with inl st' => Loop body st' k | inr r => k r end) es w
      end
  end.
End Answers.
