(* ===== verification/RequestProofs.v ===== *)
(** The protocol the request middleware keeps to: which question it may ask at which stage of a
    request, and the proof that every branch of [enforce_route_policy] obeys, whatever is
    answered. *)

From S2P Require Import Prelude PyDecimal Assets BrokerModels Breakers Pnl Database Lifecycle SessionLogic BreakerStore.
From S2P Require Import Limits LimitsProofs LeaseProofs Sessions RoutePolicy PanicReceipts Flow RequestFlow.
From Stdlib Require Import Ascii Lia.
Local Open Scope Z_scope.
Local Open Scope flow_scope.

(** * Stages of a request *)

(** The interlock a request has claimed. *)
Record Lock : Type := mkLock { lk_key : string; lk_owner : string; lk_generation : Z; lk_operation : string }.

Inductive Stage : Type :=
| SFresh
| SAuthenticated (pr : option SessionPrincipal)
| SAdmitted (pr : option SessionPrincipal)
| SOwning (pr : option SessionPrincipal) (owner : string)
| SHeld (pr : option SessionPrincipal) (owner : string) (generation : Z)
| SClaimed (pr : option SessionPrincipal) (l : Lock)
| SRunning (pr : option SessionPrincipal) (l : option Lock)
| SFinished (pr : option SessionPrincipal) (l : option Lock)
| SSettled (pr : option SessionPrincipal) (l : Lock)
| SUncertain (pr : option SessionPrincipal) (l : Lock)
| SReleased (pr : option SessionPrincipal).

Section Protocol.
Context `{Digest, DateText} (cfg : PolicyConfig) (req : Request).

Abbreviation resolved_as r := (resolve ROUTE_POLICIES (cf_app cfg) (rq_method req) (rq_url_path req) = Ok (Some r)) (only parsing).

(** The request reaches its handler without a policy. *)
Definition open_route : Prop :=
  resolve ROUTE_POLICIES (cf_app cfg) (rq_method req) (rq_url_path req) = Ok None
  ∨ ∃ r, resolved_as r ∧ p_path (rr_policy r) = "/health/live".

(** The interlock a request of this route claims: its operation's, or that of a standing
    reconciliation it continues. *)
Definition claims (pr : option SessionPrincipal) (k op : string) : Prop :=
  ∃ r limit_principal lease_key keys,
    resolved_as r ∧ generic_interlock (rr_policy r) = true ∧ op = default EmptyString (p_mutation_operation (rr_policy r))
    ∧ limit_principal_of req pr = Ok limit_principal
    ∧ lease_keys (cf_rate_limits cfg) r limit_principal = Ok (lease_key :: keys)
    ∧ (k = operation_interlock_key r lease_key limit_principal None
       ∨ p_path (rr_policy r) = "/reconcile" ∧ k = reconciliation_control_key).

(** When the handler may start. *)
Definition may_call (st : Stage) : Prop :=
  open_route ∧ st = SFresh
  ∨ ∃ r pr, resolved_as r ∧ (p_requires_idempotency (rr_policy r) = true → rq_idempotency_key req ≠ EmptyString)
      ∧ (p_lease_free_bounded_read (rr_policy r) = true ∧ st = SAdmitted pr
         ∨ generic_interlock (rr_policy r) = false ∧ (∃ o g, st = SHeld pr o g)
         ∨ generic_interlock (rr_policy r) = true ∧ ∃ l, st = SClaimed pr l).

Definition token (l : Lock) (k o : string) (g : Z) : Prop := lk_key l = k ∧ lk_owner l = o ∧ lk_generation l = g.

Definition allowed (st : Stage) (q : query) : Prop :=
  match q with
  | QAuthenticate p cookie csrf =>
      st = SFresh ∧ cookie = rq_cookie req ∧ csrf = rq_csrf_header req ∧ ∃ r, resolved_as r ∧ p = rr_policy r
  | QConsume _ _ => ∃ pr, st = SAuthenticated pr
  | QOwner => ∃ pr, st = SAdmitted pr
  | QAcquire _ o _ => ∃ pr, st = SOwning pr o
  | QClaim k o g op => ∃ pr, st = SHeld pr o g ∧ claims pr k op
  | QCallNext => may_call st
  | QHandler => ∃ pr l, st = SRunning pr l
  | QSettle k o g => ∃ pr l, st = SFinished pr (Some l) ∧ token l k o g
  | QReleaseSettled k _ o g => ∃ pr l, st = SSettled pr l ∧ token l k o g
  | QMarkUncertain k o g _ _ => ∃ pr l, (st = SClaimed pr l ∨ st = SFinished pr (Some l) ∨ st = SSettled pr l) ∧ token l k o g
  | _ => True
  end.

(** A granted lease names the owner that asked for it. *)
Definition valid (q : query) : answer q → Prop :=
  match q with
  | QAcquire _ o _ => λ x, match x with Ok d => lq_acquired d = true → lq_owner d = o | Raise _ => True end
  | _ => λ _, True
  end.

Definition next (q : query) : answer q → Stage → Stage :=
  match q with
  | QAuthenticate _ _ _ => λ x st, match x, st with Ok pr, SFresh => SAuthenticated pr | _, _ => st end
  | QConsume _ _ => λ x st, match x, st with Ok d, SAuthenticated pr => if ld_allowed d then SAdmitted pr else st | _, _ => st end
  | QOwner => λ x st, match st with SAdmitted pr => SOwning pr x | _ => st end
  | QAcquire _ _ _ => λ x st, match x, st with
                              | Ok d, SOwning pr o => if lq_acquired d then SHeld pr o (lq_generation d) else st
                              | _, _ => st end
  | QClaim k o g op => λ x st, match x, st with
                               | Ok d, SHeld pr _ _ => if id_acquired d then SClaimed pr (mkLock k o g op) else st
                               | _, _ => st end
  | QCallNext => λ _ st, match st with
                         | SClaimed pr l => SRunning pr (Some l)
                         | SHeld pr _ _ | SAdmitted pr => SRunning pr None
                         | _ => SRunning None None end
  | QHandler => λ x st, match x, st with HAtWork, _ => st | _, SRunning pr l => SFinished pr l | _, _ => st end
  | QSettle _ _ _ => λ x st, match x, st with Ok true, SFinished pr (Some l) => SSettled pr l | _, _ => st end
  | QReleaseSettled _ _ _ _ => λ x st, match x, st with Ok true, SSettled pr l => SReleased pr | _, _ => st end
  | QMarkUncertain _ _ _ _ _ => λ x st, match x, st with
                                        | Ok true, SClaimed pr l | Ok true, SFinished pr (Some l) | Ok true, SSettled pr l => SUncertain pr l
                                        | _, _ => st end
  | _ => λ _ st, st
  end.

Abbreviation ok := (ok allowed valid next).

(** At its end a request has no handler at work. *)
Definition ended {A} (st : Stage) (_ : A) : Prop := ∀ pr l, st ≠ SRunning pr l.

(** Questions that are always allowed and do not move the request. *)
Definition neutral (q : query) : bool :=
  match q with
  | QAuthenticate _ _ _ | QConsume _ _ | QOwner | QAcquire _ _ _ | QClaim _ _ _ _ | QCallNext | QHandler | QSettle _ _ _
  | QReleaseSettled _ _ _ _ | QMarkUncertain _ _ _ _ _ => false
  | _ => true
  end.

Lemma ok_neutral {B} q (f : answer q → prog B) st Q : neutral q = true → (∀ x, ok st (f x) Q) → ok st (ask q ≫= f) Q.
Proof. intros Hn Hf. apply ok_ask; [by destruct q|]. intros x _. replace (next q x st) with st by (by destruct q). apply Hf. Qed.

Lemma ok_try {A B} (m : prog (outcome A)) (f : A → prog (outcome B)) st Q :
  ok st m (λ st r, match r with Ok a => ok st (f a) Q | Raise e => Q st (Raise e) end) → ok st (try_bind m f) Q.
Proof. intros Hm. apply ok_bind. eapply ok_mono; [|exact Hm]. by intros st' [a|e]. Qed.

Lemma ok_loop {St R A} (I : Stage → St → Prop) (body : St → prog (St + R)) s (k : R → prog A) st Q :
  I st s → (∀ st s, I st s → ok st (body s) (λ st r, match r with inl s' => I st s' | inr r => ok st (k r) Q end)) →
  ok st (Loop body s k) Q.
Proof. intros HI Hb. by exists I. Qed.

(** A loop that never moves the request. *)
Lemma ok_still_loop {St R A} (body : St → prog (St + R)) x (k : R → prog A) st Q :
  (∀ x, ok st (body x) (λ st' r, st' = st ∧ match r with inl _ => True | inr r => ok st (k r) Q end)) → ok st (Loop body x k) Q.
Proof.
  intros Hb. apply (ok_loop (λ st' _, st' = st)); [done|]. intros st' y ->. eapply ok_mono; [|exact (Hb y)].
  by intros st' [u|r] [-> Hr].
Qed.

(** ** Helpers *)

Ltac asks := first [apply ok_neutral; [reflexivity|] | apply ok_ret].

Lemma ok_release_lease {B} h (f : bool → prog B) st Q : (∀ b, ok st (f b) Q) → ok st (release_lease h ≫= f) Q.
Proof. intros Hf. apply ok_bind. unfold release_lease. asks. intros x. asks. apply Hf. Qed.

Lemma ok_mark_receipt {B} h rid resp (f : () → prog B) st Q : (∀ u, ok st (f u) Q) → ok st (mark_panic_uncertain_quietly h rid resp ≫= f) Q.
Proof. intros Hf. apply ok_bind. unfold mark_panic_uncertain_quietly. asks. intros x. asks. apply Hf. Qed.

Lemma ok_inspect {B} k (f : option (option InterlockDecision) → prog (outcome B)) st Q :
  (∀ x, ok st (f x) Q) → (∀ e, Q st (Raise e)) → ok st (try_bind (inspect_interlock_q k) f) Q.
Proof. intros Hf He. apply ok_try. unfold inspect_interlock_q. asks. intros x. asks. by destruct (unavailable_as_none _). Qed.

Lemma ok_wait st k observed Q : (∀ r, Q st r) → ok st (wait_for_panic_receipt cfg k observed) Q.
Proof.
  intros HQ. unfold wait_for_panic_receipt. asks. intros started. apply ok_still_loop. intros delay. unfold poll_panic_receipt.
  asks. intros t. destruct (_ <=? 0); [asks; split; [done|apply HQ]|]. asks. intros o.
  destruct (unavailable_as_none o) as [[ob|]|e]; [|asks; split; [done|apply HQ]..].
  destruct (negb (po_authoritative ob)); [asks; split; [done|apply HQ]|].
  destruct (finished_snapshot ob) as [z|]; [asks; split; [done|apply HQ]|].
  asks. intros t2. destruct (_ <=? 0); asks; [split; [done|apply HQ]|]. intros _. by asks.
Qed.

(** The hold is the same lease, at most renewed. *)
Definition same_hold (h h' : LeaseHold) : Prop :=
  h_resource_key h' = h_resource_key h ∧ h_owner h' = h_owner h ∧ h_generation h' = h_generation h ∧ h_interlock_key h' = h_interlock_key h.

Lemma ok_renew_receipt h rid t st Q : (∀ r, Q st r) → ok st (renew_receipt_loop h rid t) Q.
Proof.
  intros HQ. unfold renew_receipt_loop. apply ok_still_loop. intros _. asks. intros now. destruct (_ <=? 0); [asks; split; [done|apply HQ]|].
  asks. intros [[]|e]; [asks; split; [done|apply HQ]..|]. asks. intros stopped. asks. split; [done|]. destruct (stopped : bool); [apply HQ|done].
Qed.

Lemma ok_renew_hold h rid st Q : (∀ f, Q st (inl f)) → (∀ h', same_hold h h' → Q st (inr h')) → ok st (renew_hold h rid) Q.
Proof.
  intros Hl Hr. unfold renew_hold. apply ok_still_loop. intros _. asks. intros now. destruct (_ <=? 0); [asks; split; [done|apply Hl]|].
  asks. intros [d|e]; [|by asks]. destruct (_ || _); [asks; split; [done|apply Hl]|]. destruct rid as [rid|]; [|asks; split; [done|by apply Hr]].
  apply ok_bind, ok_renew_receipt. intros [f|]; asks; (split; [done|]); [apply Hl|by apply Hr].
Qed.

Lemma ok_await_handler pr l Q : (∀ r, Q (SFinished pr l) r) → ok (SRunning pr l) await_handler Q.
Proof.
  intros HQ. unfold await_handler. apply (ok_loop (λ st _, st = SRunning pr l)); [done|]. intros st [] ->.
  apply ok_ask; [by eexists _, _|]. intros [|r|c e] _; asks; [done|apply HQ..].
Qed.

Lemma ok_call_with_lease h rid st pr l Q : may_call st → next QCallNext () st = SRunning pr l →
  (∀ r h', same_hold h h' → Q (SFinished pr l) (r, h')) → ok st (call_with_lease_renewal h rid) Q.
Proof.
  intros Hc Hn HQ. unfold call_with_lease_renewal. apply ok_ask; [done|]. intros [] _. rewrite Hn.
  apply (ok_loop (λ st h', st = SRunning pr l ∧ same_hold h h')); [done|]. intros st' h' [-> Hh].
  apply ok_ask; [by eexists _, _|]. intros [|r|c e] _; [|asks; by apply HQ..].
  apply ok_bind, ok_renew_hold.
  - intros f. apply ok_bind, ok_await_handler. intros r. asks. by apply HQ.
  - intros h2 Hh2. asks. split; [done|]. unfold same_hold in *. intuition congruence.
Qed.

Lemma ok_call_next st Q : may_call st → (∀ pr l r, Q (SFinished pr l) r) → ok st call_next Q.
Proof.
  intros Hc HQ. unfold call_next. apply ok_ask; [done|]. intros [] _.
  assert (∃ pr l, next QCallNext () st = SRunning pr l) as (pr & l & ->) by (destruct st; by eexists _, _).
  apply ok_bind, ok_await_handler. intros r. asks. apply HQ.
Qed.

(** ** Settlement *)

(** The request may still mark its interlock. *)
Definition unsettled (st : Stage) (pr : option SessionPrincipal) (l : Lock) : Prop :=
  st = SClaimed pr l ∨ st = SFinished pr (Some l) ∨ st = SSettled pr l.

Definition hold_token (l : Lock) (h : LeaseHold) : Prop := token l (hold_interlock_key h) (h_owner h) (h_generation h).

Lemma hold_token_same l h h' : same_hold h h' → hold_token l h → hold_token l h'.
Proof. intros (E1 & E2 & E3 & E4). unfold hold_token, hold_interlock_key. by rewrite E1, E2, E3, E4. Qed.

Lemma ok_mark st pr l h code fin Q : unsettled st pr l → hold_token l h →
  (∀ st' r, st' = st ∨ st' = SUncertain pr l → Q st' r) → ok st (mark_interlock_uncertain h code fin) Q.
Proof.
  intros Hu Ht HQ. unfold mark_interlock_uncertain. apply ok_ask; [by exists pr, l|]. intros x _. asks. apply HQ.
  destruct Hu as [->|[->| ->]]; destruct x as [[]|]; auto.
Qed.

(** Marking and then answering. *)
Lemma ok_mark_then {A} st pr l h code fin (f : bool → prog (outcome A)) Q : unsettled st pr l → hold_token l h →
  (∀ st' b, st' = st ∨ st' = SUncertain pr l → ok st' (f b) Q) → (∀ st' e, st' = st ∨ st' = SUncertain pr l → Q st' (Raise e)) →
  ok st (try_bind (mark_interlock_uncertain h code fin) f) Q.
Proof. intros Hu Ht Hf He. apply ok_try. eapply ok_mark; [done|done|]. intros st' [b|e] Hst; auto. Qed.

Lemma unsettled_ended {A} st pr l (r : A) : unsettled st pr l → ∀ st', st' = st ∨ st' = SUncertain pr l → ended st' r.
Proof. intros [->|[->| ->]] st' [->| ->] pr' l'; done. Qed.

(** What the request knows of its hold after the handler. *)
Definition finished_with (p : RoutePolicy) (st : Stage) (pr : option SessionPrincipal) (h : LeaseHold) : Prop :=
  if generic_interlock p then ∃ l, st = SFinished pr (Some l) ∧ hold_token l h else ∃ l, st = SFinished pr l.

Lemma finished_ended {A} p st pr h (r : A) : finished_with p st pr h → ended st r.
Proof. unfold finished_with. destruct (generic_interlock p); [intros (l & -> & _)|intros (l & ->)]; by intros pr' l'. Qed.

Lemma ok_optional_mark {B} (b : bool) h rid resp (f : () → prog B) st Q : (∀ u, ok st (f u) Q) →
  ok st ((if b then mark_panic_uncertain_quietly h rid resp else Ret ()) ≫= f) Q.
Proof. intros Hf. destruct b; [by apply ok_mark_receipt|apply ok_bind; asks; apply Hf]. Qed.

Lemma ok_after_exception p h c e st pr : finished_with p st pr h → ok st (after_exception p h c e) ended.
Proof.
  intros Hf. unfold after_exception. apply ok_optional_mark. intros u. pose proof (finished_ended (A := outcome Response) p st pr h) as He.
  unfold finished_with in *. destruct (generic_interlock p).
  - destruct Hf as (l & -> & Ht). eapply ok_mark_then; [right; by left|done|..]; intros st' x Hst; [asks|]; (eapply unsettled_ended; [right; by left|done]).
  - apply ok_release_lease. intros b. asks. by apply He.
Qed.

Lemma ok_after_lost p h failure resp st pr : finished_with p st pr h → ok st (after_lost_lease p h failure resp) ended.
Proof.
  intros Hf. unfold after_lost_lease. apply ok_optional_mark. intros u. pose proof (finished_ended (A := outcome Response) p st pr h) as He.
  unfold finished_with in *. destruct (generic_interlock p).
  - destruct Hf as (l & -> & Ht). eapply ok_mark_then; [right; by left|done|..]; intros st' x Hst; [asks|]; (eapply unsettled_ended; [right; by left|done]).
  - asks. by apply He.
Qed.

Lemma ok_settle h pr l Q : hold_token l h →
  Q (SReleased pr) (Ok None) → (∀ st f, unsettled st pr l → Q st (Ok (Some f))) → (∀ st e, unsettled st pr l → Q st (Raise e)) →
  ok (SFinished pr (Some l)) (settle_and_release_interlock h) Q.
Proof.
  intros Ht H1 H2 H3. unfold settle_and_release_interlock. apply ok_ask; [by exists pr, l|].
  intros [[]|e] _; cbn [next unavailable_as_none].
  - apply ok_ask; [by exists pr, l|]. intros [[]|e] _; cbn [next unavailable_as_none]; asks; [done|apply H2; right; by right|].
    destruct e; (apply H2 || apply H3); right; by right.
  - asks. apply H2. right. by left.
  - destruct e; asks; (apply H2 || apply H3); right; by left.
Qed.

Lemma ok_close_lease p h resp durable st pr : finished_with p st pr h → ok st (close_lease p h resp durable) ended.
Proof.
  intros Hf. pose proof (finished_ended (A := outcome Response) p st pr h) as He. unfold close_lease, finished_with in *.
  destruct (generic_interlock p).
  - destruct Hf as (l & -> & Ht). apply ok_try. apply (ok_settle _ pr l); [done|asks; by intros pr' l'|..].
    + intros st f Hu. eapply ok_mark_then; [done|done|..].
      * intros st' b Hst. apply ok_optional_mark. intros u. asks. by eapply unsettled_ended.
      * intros st' e Hst. by eapply unsettled_ended.
    + intros st e Hu. eapply unsettled_ended; [done|by left].
  - apply ok_release_lease. intros b. asks. by apply He.
Qed.

Lemma ok_after_return principal p h target hr st pr : (coalesces p = true → generic_interlock p = true) → finished_with p st pr h →
  ok st (after_return req principal p h target hr) ended.
Proof.
  intros Hc Hf. pose proof (finished_ended (A := outcome Response) p st pr h) as He. unfold after_return.
  assert (ok st (clear_reconciled req principal target (hr_reconciliation_proof hr))
            (λ st' r, match r with Ok _ => ok st' (close_lease p h (hr_response hr) (panic_payload (rs_body (hr_response hr)))) ended
                      | Raise e => ended st' (Raise (A := Response) e) end)) as Hrest.
  { unfold clear_reconciled. pose proof (λ resp d, ok_close_lease p h resp d st pr Hf) as Hclose.
    destruct target as [x|]; [|asks; apply Hclose]. case_bool_decide; [|asks; apply Hclose].
    destruct principal as [q|]; [|asks; by apply He]. asks. intros [b|e]; asks; [apply Hclose|]. destruct e; by (apply Hclose || apply He). }
  destruct (coalesces p) eqn:Hco.
  - apply ok_bind. unfold settle_receipt.
    assert (∀ b : bool, ok st (if negb b
        then _ ← mark_panic_uncertain_quietly h (h_owner h) (panic_payload (rs_body (hr_response hr)));
             _ ←? mark_interlock_uncertain h "panic_settlement_unproven" true; Ret (Ok (hr_response hr))
        else _ ←? clear_reconciled req principal target (hr_reconciliation_proof hr);
             close_lease p h (hr_response hr) (panic_payload (rs_body (hr_response hr)))) ended) as Hb.
    { intros []; cbn [negb]; [by apply ok_try|]. apply ok_mark_receipt. intros u.
      unfold finished_with in Hf. rewrite Hc in Hf by done. destruct Hf as (l & -> & Ht).
      eapply ok_mark_then; [right; by left|done|..]; intros st' y Hst; [asks|]; (eapply unsettled_ended; [right; by left|done]). }
    case_match; asks; intros r; asks; apply Hb.
  - apply ok_bind. asks. cbn [negb]. by apply ok_try.
Qed.

(** ** The request under its lease *)

(** The stage a request has once its claims are made. *)
Definition claimed_with (p : RoutePolicy) (st : Stage) (pr : option SessionPrincipal) (h : LeaseHold) : Prop :=
  if generic_interlock p then ∃ l, st = SClaimed pr l ∧ hold_token l h else st = SHeld pr (h_owner h) (h_generation h).

Section Claim.
Context (p : RoutePolicy) (h : LeaseHold) (pr : option SessionPrincipal) (Q : Stage → outcome (option Response) → Prop).
Context (Hco : coalesces p = true → generic_interlock p = true).
Context (HQ : ∀ st r, ended st r → r ≠ Ok None → Q st r).

Lemma ok_claim_receipt st : claimed_with p st pr h → Q st (Ok None) → ok st (claim_receipt p h) Q.
Proof.
  intros Hst HN. unfold claim_receipt. destruct (coalesces p) eqn:Hc; [|by asks]. unfold claimed_with in Hst. rewrite Hco in Hst by done.
  destruct Hst as (l & -> & Ht). asks. intros [c|e].
  - destruct (pc_claimed c); [by asks|]. eapply ok_mark_then; [by left|done|..]; intros st' x Hst; [asks|]; (apply HQ; [|done]); (eapply unsettled_ended; [by left|done]).
  - eapply ok_mark_then; [by left|done|..]; intros st' x Hst; [asks|]; (apply HQ; [|done]); (eapply unsettled_ended; [by left|done]).
Qed.

Lemma ok_claim_authority :
  (generic_interlock p = true → claims pr (hold_interlock_key h) (default EmptyString (p_mutation_operation p))) →
  (∀ st, claimed_with p st pr h → Q st (Ok None)) → ok (SHeld pr (h_owner h) (h_generation h)) (claim_authority p h) Q.
Proof.
  intros Hclaim HN. unfold claim_authority. apply ok_try. unfold claim_interlock. pose proof ok_claim_receipt as Hrec. unfold claimed_with in *.
  destruct (generic_interlock p).
  - apply ok_ask; [exists pr; split; [done|by apply Hclaim]|]. intros [d|e] _; cbn [next].
    + destruct (id_acquired d).
      * asks. apply Hrec, HN; (eexists; split; [reflexivity|done]).
      * apply ok_release_lease. intros b. asks. asks. by apply HQ.
    + destruct e; first [apply ok_release_lease; intros b; asks; asks; by apply HQ|asks; by apply HQ].
  - asks. by apply Hrec, HN.
Qed.
End Claim.

Lemma ok_run_leased principal p h target st pr :
  (coalesces p = true → generic_interlock p = true) →
  st = SHeld pr (h_owner h) (h_generation h) →
  (generic_interlock p = true → claims pr (hold_interlock_key h) (default EmptyString (p_mutation_operation p))) →
  (∀ st', (if generic_interlock p then ∃ l, st' = SClaimed pr l ∧ hold_token l h else st' = st) → may_call st') →
  ok st (run_leased req principal p h target) ended.
Proof.
  intros Hc -> Hclaim Hcall. unfold run_leased. apply ok_try.
  assert (∀ st', (if generic_interlock p then ∃ l, st' = SClaimed pr l ∧ hold_token l h else st' = SHeld pr (h_owner h) (h_generation h)) →
     ok st' (r ← call_with_lease_renewal h (if coalesces p then Some (h_owner h) else None);
             match r with
             | (Raise e, cancelled, _, h) => after_exception p h cancelled e
             | (Ok hr, _, Some failure, h) => after_lost_lease p h failure (hr_response hr)
             | (Ok hr, _, None, h) => after_return req principal p h target hr
             end) ended) as Hrun.
  { intros st' Hst'. assert (∃ l, next QCallNext () st' = SRunning pr l ∧ ∀ h', same_hold h h' → finished_with p (SFinished pr l) pr h') as (l & Hn & Hl).
    { unfold finished_with. destruct (generic_interlock p).
      - destruct Hst' as (l & -> & Ht). exists (Some l). split; [done|]. intros h' Hh. exists l. split; [done|]. by eapply hold_token_same.
      - subst st'. exists None. split; [done|]. intros h' _. by exists None. }
    apply ok_bind. eapply ok_call_with_lease; [by apply Hcall|exact Hn|]. intros [[[hr|e] c] f] h' Hh; [destruct f as [f|]|].
    - by eapply ok_after_lost, Hl.
    - by eapply ok_after_return, Hl.
    - by eapply ok_after_exception, Hl. }
  apply ok_claim_authority; [done|..|done|].
  - by intros st' [[r|]|e] He Hr.
  - intros st' Hst'. by apply Hrun.
Qed.

(** ** Gates *)

Lemma ok_acquire_first pr owner ttl ik Q keys : ∀ contentions,
  (∀ r, (∀ h, r ≠ Ok (Some (inl h))) → Q (SOwning pr owner) r) →
  (∀ key g e, key ∈ keys → Q (SHeld pr owner g) (Ok (Some (inl (mkHold key owner g e ttl (Some ik)))))) →
  ok (SOwning pr owner) (acquire_first owner ttl ik keys contentions) Q.
Proof.
  induction keys as [|key keys IH]; intros contentions HQ Hh; cbn [acquire_first]; [asks; by apply HQ|].
  apply ok_ask; [by exists pr|]. intros [d|e] Hv; cbn [next unavailable_as_none].
  - cbn in Hv. destruct (lq_acquired d); [rewrite Hv by done; asks; apply Hh; by left|]. apply IH; [done|]. intros k g e Hk. apply Hh. by right.
  - destruct e; asks; by apply HQ.
Qed.

(** What the interlock checks may let through. *)
Definition passes (p : RoutePolicy) (keys : list string) (ik : string) (pass : GatePass) : Prop :=
  gp_keys pass = keys ∧ gp_interlock_key pass = ik
  ∨ p_path p = "/reconcile" ∧ gp_keys pass = [reconciliation_control_key] ∧ gp_interlock_key pass = reconciliation_control_key.

Section Gate.
Context (st : Stage) (keys : list string) (lease_key ik : string).

Lemma ok_meet_existing p existing Q : (∀ r, (∀ pass, r ≠ Ok (inr pass)) → Q st r) → (∀ pass, passes p keys ik pass → Q st (Ok (inr pass))) →
  ok st (meet_existing cfg p keys lease_key ik existing) Q.
Proof.
  intros HQ Hpass. unfold meet_existing. assert (Q st (Ok (inr (mkGatePass keys ik None)))) as Hplain by (apply Hpass; by left).
  destruct existing as [x|]; [|by asks]. destruct (_ && _).
  - asks. intros o. destruct (unavailable_as_none o) as [[d|]|e]; [|asks; by apply HQ..].
    destruct (same_token d x); [asks; by apply HQ|]. destruct (lq_acquired d); [asks; by apply HQ|]. asks. intros r.
    destruct (unavailable_as_none r) as [[[]|]|e]; asks; try done; by apply HQ.
  - destruct (coalesces p && _).
    + asks. intros o. destruct (unavailable_as_none o) as [[d|]|e]; [|asks; by apply HQ..].
      destruct (same_token d x); [|asks; by apply HQ]. apply ok_try, ok_wait. intros [r|e]; [asks|]; by apply HQ.
    + destruct (bool_decide_reflect (p_path p = "/reconcile")); cbn [andb]; [|asks; by apply HQ].
      destruct (_ && _); asks; [apply Hpass; by right|by apply HQ].
Qed.

Lemma ok_standing_mutation r lp Q : (∀ x, Q st x) → ok st (standing_mutation r lease_key ik lp) Q.
Proof.
  intros HQ. unfold standing_mutation. cbv zeta. apply ok_inspect; [|done]. intros [ex|]; [|asks; apply HQ].
  case_bool_decide; [|asks; apply HQ]. apply ok_inspect; [|done]. intros [co|]; [|asks; apply HQ]. apply ok_inspect; [|done]. intros [le|]; asks; apply HQ.
Qed.

Lemma ok_standing r lp Q : (∀ x, Q st x) → ok st (standing_interlock r lease_key ik lp) Q.
Proof.
  intros HQ. unfold standing_interlock. case_bool_decide; [|apply ok_try, ok_ret; by apply ok_standing_mutation].
  apply ok_inspect; [|done]. intros [[c|]|]; [asks; apply HQ|by apply ok_standing_mutation|asks; apply HQ].
Qed.

Lemma ok_gate r lp Q : (∀ x, (∀ pass, x ≠ Ok (inr pass)) → Q st x) → (∀ pass, passes (rr_policy r) keys ik pass → Q st (Ok (inr pass))) →
  ok st (interlock_gate cfg r keys lease_key ik lp) Q.
Proof.
  intros HQ Hpass. unfold interlock_gate. destruct (negb _); [asks; apply Hpass; by left|]. apply ok_try, ok_standing.
  intros [[[resp|existing]|]|e]; [asks; by apply HQ| |asks; by apply HQ|by apply HQ]. by apply ok_meet_existing.
Qed.
End Gate.

Lemma ok_contended p w d c st Q : (∀ r, Q st r) → ok st (contended cfg p w d c) Q.
Proof. intros HQ. unfold contended. destruct (coalesces p); [destruct c as [|[k o] c]; [asks; apply HQ|by apply ok_wait]|]. case_bool_decide; asks; apply HQ. Qed.

(** ** From the route to the lease *)

Lemma lease_keys_nonempty c r lp keys : lease_keys c r lp = Ok keys → Forall (λ k, k ≠ EmptyString) keys.
Proof.
  unfold lease_keys. case_bool_decide; [intros [= <-]; by constructor|]. intros (w & _ & [= <-])%outcome_bind_Ok. apply Forall_map, Forall_true. done.
Qed.

Lemma interlock_key_nonempty r k lp op : k ≠ EmptyString → operation_interlock_key r k lp op ≠ EmptyString.
Proof. intros Hk. unfold operation_interlock_key. cbv zeta. repeat case_match; done. Qed.

Lemma resolve_policy r : resolved_as r → rr_policy r ∈ ROUTE_POLICIES.
Proof.
  unfold resolve. induction (routes (cf_app cfg)) as [|x rs IH]; cbn [resolve_in]; [done|].
  destruct (ar_matches x _ _) as [params|]; [|done]. destruct (by_key ROUTE_POLICIES !! _) as [p|] eqn:Hp; [|done].
  intros [= <-]. by apply by_key_Some in Hp as [Hin _].
Qed.

(** A decidable fact of every policy of the table is checked by evaluation. *)
Lemma table_fact (P : RoutePolicy → Prop) `{!∀ p, Decision (P p)} :
  forallb (λ p, bool_decide (P p)) ROUTE_POLICIES = true → ∀ p, p ∈ ROUTE_POLICIES → P p.
Proof. rewrite forallb_forall. intros Hall p Hp%list_elem_of_In. specialize (Hall _ Hp). by apply bool_decide_eq_true in Hall. Qed.

Lemma table_coalesces p : p ∈ ROUTE_POLICIES → coalesces p = true → generic_interlock p = true.
Proof. apply (table_fact (λ p, coalesces p = true → generic_interlock p = true)). by vm_compute. Qed.

Lemma table_lease_free p : p ∈ ROUTE_POLICIES → p_lease_free_bounded_read p = true → generic_interlock p = false.
Proof. apply (table_fact (λ p, p_lease_free_bounded_read p = true → generic_interlock p = false)). by vm_compute. Qed.

Lemma table_health p : p ∈ ROUTE_POLICIES → p_path p = "/health/live" → generic_interlock p = false.
Proof. apply (table_fact (λ p, p_path p = "/health/live" → generic_interlock p = false)). by vm_compute. Qed.

Lemma table_operation p : p ∈ ROUTE_POLICIES → (match p_mutation_operation p with Some _ => true | None => false end) = generic_interlock p.
Proof. apply (table_fact (λ p, (match p_mutation_operation p with Some _ => true | None => false end) = generic_interlock p)). by vm_compute. Qed.

Lemma ok_run_admitted r pr lp d : resolved_as r → limit_principal_of req pr = Ok lp →
  (p_requires_idempotency (rr_policy r) = true → rq_idempotency_key req ≠ EmptyString) →
  ok (SAdmitted pr) (run_admitted cfg req pr r lp d) ended.
Proof.
  intros Hr Hlp Hidem. assert (∀ (x : outcome Response), ended (SAdmitted pr) x) as He by (by intros x pr' l).
  assert (∀ o (x : outcome Response), ended (SOwning pr o) x) as Heo by (by intros o x pr' l).
  pose proof (resolve_policy r Hr) as Hin. unfold run_admitted. destruct (_ && _); [asks; apply He|].
  destruct (p_lease_free_bounded_read (rr_policy r)) eqn:Hfree.
  { apply ok_call_next; [right; exists r, pr; split_and!; [done|done|by left]|]. by intros pr' l x pr2 l2. }
  apply ok_try. asks. destruct (lease_keys _ _ _) as [keys|e] eqn:Hkeys; [|apply He]. destruct keys as [|lk keys]; [asks; apply He|].
  pose proof (lease_keys_nonempty _ _ _ _ Hkeys) as Hne. apply Forall_cons in Hne as [Hlk Hks]. cbv zeta.
  set (ik := operation_interlock_key r lk lp None). assert (ik ≠ EmptyString) as Hik by (by apply interlock_key_nonempty).
  apply ok_try, ok_gate; [intros [[resp|pass]|e] Hx; [asks; apply He|by destruct (Hx pass)|apply He]|]. intros pass Hpass.
  apply ok_ask; [by exists pr|]. intros owner _. cbn [next]. apply ok_try, ok_acquire_first.
  - intros [[[h|c]|]|e] Hx; [by destruct (Hx h)| |asks; apply Heo|apply Heo].
    apply ok_try. asks. destruct (configured_limit _ _); [|apply Heo]. apply ok_contended. apply Heo.
  - intros key g e Hkey. set (h := mkHold _ _ _ _ _ _). apply ok_run_leased with (pr := pr); [by apply table_coalesces|done|..].
    + intros Hg. exists r, lp, lk, keys. split_and!; [done..|]. unfold hold_interlock_key. cbn [h h_interlock_key].
      destruct Hpass as [[_ ->]|(Hp & _ & ->)]; [|by right]. left. assert (∀ s, s ≠ EmptyString → nonempty s = true) as Hn by (by intros []). by rewrite (Hn _ Hik).
    + intros st' Hst'. right. exists r, pr. split_and!; [done|done|]. destruct (generic_interlock (rr_policy r)) eqn:Hg.
      * right. right. split; [done|]. destruct Hst' as (l & -> & _). by exists l.
      * right. left. split; [done|]. subst st'. by eexists _, _.
Qed.

Lemma ok_run_owned r : resolved_as r → ok SFresh (run_owned cfg req r) ended.
Proof.
  intros Hr. assert (∀ x : outcome Response, ended SFresh x) as He by (by intros x pr l). unfold run_owned. cbv zeta.
  apply ok_ask; [split_and!; try done; by exists r|]. intros [pr|e] _; cbn [next]; [|destruct e; asks; apply He].
  assert (∀ x : outcome Response, ended (SAuthenticated pr) x) as Ha by (by intros x pr' l).
  destruct (p_requires_idempotency (rr_policy r) && _) eqn:Hidem; [asks; apply Ha|].
  apply ok_try. asks. destruct (limit_principal_of req pr) as [lp|] eqn:Hlp; [|apply Ha]. apply ok_try. asks.
  destruct (limit_spec_of _ _) as [spec|]; [|apply Ha]. apply ok_ask; [by exists pr|].
  intros [d|e] _; cbn [next unavailable_as_none]; [|destruct e; asks; apply Ha]. destruct (ld_allowed d); cbn [negb].
  - apply ok_run_admitted; [done|done|]. intros Hq. rewrite Hq in Hidem. by destruct (rq_idempotency_key req).
  - apply ok_try. asks. destruct (configured_limit _ _); [asks|]; apply Ha.
Qed.

Lemma ok_run_resolved r : resolved_as r → ok SFresh (run_resolved cfg req r) ended.
Proof.
  intros Hr. assert (∀ x : outcome Response, ended SFresh x) as He by (by intros x pr l). unfold run_resolved. apply ok_bind.
  destruct (_ && _); [asks; intros b|]; asks; [destruct (negb _); [asks; apply He|]|cbn [negb]]; by apply ok_run_owned.
Qed.

(** Every branch of the middleware keeps to the protocol. *)
Lemma ok_enforce : ok SFresh (enforce_route_policy cfg req) ended.
Proof.
  assert (∀ x : outcome Response, ended SFresh x) as He by (by intros x pr l). unfold enforce_route_policy.
  destruct (_ && _); [asks; apply He|].
  destruct (resolve ROUTE_POLICIES (cf_app cfg) (rq_method req) (rq_url_path req)) as [[r|]|e] eqn:Hr; [|..|asks; apply He].
  - case_bool_decide as Hp; [|by apply ok_run_resolved]. apply ok_call_next; [left; split; [right; by exists r|done]|]. by intros pr l x pr2 l2.
  - apply ok_call_next; [left; split; [by left|done]|]. by intros pr l x pr2 l2.
Qed.
End Protocol.
