(* ===== verification/RequestSystem.v ===== *)
(** Concurrent requests: any number of requests run the middleware, one question at a time in
    any order, over one store, beside maintenance, logins and breaker resets.  What holds in
    every reachable state: handlers run only for authenticated, admitted requests; two
    mutations of one resource never run at once; a mutation that started is never forgotten. *)

From S2P Require Import Prelude PyDecimal Assets BrokerModels Breakers Pnl Database Lifecycle SessionLogic BreakerStore.
From S2P Require Import Limits LimitsProofs LeaseProofs Sessions RoutePolicy PanicReceipts Flow RequestFlow RequestProofs.
From Stdlib Require Import Ascii Lia.
Local Open Scope Z_scope.

(** * The system *)

Record Task : Type := mkTask { t_request : Request; t_stage : Stage; t_prog : prog (outcome Response) }.
Record Sys : Type := mkSys { s_world : World; s_tasks : list Task }.

Definition owner_of (st : Stage) : option string :=
  match st with
  | SOwning _ o | SHeld _ o _ => Some o
  | SClaimed _ l | SRunning _ (Some l) | SFinished _ (Some l) | SSettled _ l | SUncertain _ l => Some (lk_owner l)
  | _ => None
  end.

Definition lock_of (st : Stage) : option Lock :=
  match st with
  | SClaimed _ l | SRunning _ (Some l) | SFinished _ (Some l) | SSettled _ l | SUncertain _ l => Some l
  | _ => None
  end.

Definition principal_of (st : Stage) : option SessionPrincipal :=
  match st with
  | SFresh => None
  | SAuthenticated pr | SAdmitted pr | SOwning pr _ | SHeld pr _ _ | SClaimed pr _ | SRunning pr _ | SFinished pr _
  | SSettled pr _ | SUncertain pr _ | SReleased pr => pr
  end.

(** The handler is at work, or is over and nothing is settled yet, or is about to start. *)
Definition unresolved (st : Stage) : bool :=
  match st with SClaimed _ _ | SRunning _ _ | SFinished _ _ => true | _ => false end.

Section System.
Context `{Digest, Hmac, ReceiptText, DateText} (cfg : PolicyConfig) (ttl : time).

(** One request moves: its question, if it asks one, is answered by the world. *)
Definition task_world (t : Task) (e : Env) (w : World) : World :=
  match question (t_prog t) with Some q => (respond cfg q e w).2 | None => w end.
Definition task_next (t : Task) (e : Env) (w : World) : Task :=
  let answers q := (respond cfg q e w).1 in
  mkTask (t_request t) (next_phase next (t_prog t) answers (t_stage t)) (move (t_prog t) answers).

(** Owners are drawn fresh ([uuid4]). *)
Definition fresh_owner (t : Task) (e : Env) (tasks : list Task) : Prop :=
  question (t_prog t) = Some QOwner → ∀ t', t' ∈ tasks → owner_of (t_stage t') ≠ Some (e_owner e).

Inductive sys_step : Sys → Sys → Prop :=
| step_arrive w tasks req :
    sys_step (mkSys w tasks) (mkSys w (tasks ++ [mkTask req SFresh (enforce_route_policy cfg req)]))
| step_move w tasks i t e :
    tasks !! i = Some t → fresh_owner t e tasks →
    sys_step (mkSys w tasks) (mkSys (task_world t e w) (<[i := task_next t e w]> tasks))
| step_prune w tasks now limit fails :
    sys_step (mkSys w tasks) (mkSys (on_limits (prune_leases now limit fails) (on_limits (prune_windows now limit fails) w).2).2 tasks)
| step_auth w tasks op :
    sys_step (mkSys w tasks) (mkSys (mkWorld (w_policy w) (run_auth_op (cf_application_secret cfg) ttl op (w_auth w))) tasks)
| step_breaker_reset w tasks :
    sys_step (mkSys w tasks)
      (mkSys (mkWorld (set_ps_receipts (delete_completed_receipts (ps_receipts (w_policy w))) (w_policy w)) (w_auth w)) tasks).

(** Before the first request: any tables, well-formed sessions. *)
Definition initial (s : Sys) : Prop := s_tasks s = [] ∧ store_wf (w_auth (s_world s)).

Definition reachable (s : Sys) : Prop := ∃ s0, initial s0 ∧ rtc sys_step s0 s.

(** * Locks *)

Abbreviation limits w := (ps_limits (w_policy w)).

(** The row of a lock is there, untouched while the handler is not accounted for; or, later,
    an audited reconciliation removed it, and whatever stands there is another's. *)
Definition stands (st : Stage) (l : Lock) (s : LimitStore) : Prop :=
  (∃ row, st_interlocks s !! lk_key l = Some row ∧ il_owner row = lk_owner l ∧ il_generation row = lk_generation l
          ∧ il_operation row = lk_operation l ∧ (unresolved st = true → il_state row = "active" ∧ il_worker_finished_at row = None))
  ∨ unresolved st = false ∧ (∃ a, a ∈ st_audit s ∧ reconciled (lk_key l) a)
    ∧ ∀ row, st_interlocks s !! lk_key l = Some row → il_owner row ≠ lk_owner l.

(** The owner in whose name a question writes interlocks. *)
Definition writer (q : query) : option string :=
  match q with
  | QClaim _ o _ _ | QSettle _ o _ | QReleaseSettled _ _ o _ | QMarkUncertain _ o _ _ _ => Some o
  | _ => None
  end.

Lemma stands_same st l s s' : st_interlocks s' = st_interlocks s → st_audit s' = st_audit s → stands st l s → stands st l s'.
Proof. unfold stands. by intros -> ->. Qed.

(** A write to one interlock, free or another's, in another's name leaves the lock. *)
Lemma stands_foreign st l s s' k :
  stands st l s → st_audit s' = st_audit s → (∀ k', k' ≠ k → st_interlocks s' !! k' = st_interlocks s !! k') →
  (∀ row, st_interlocks s !! k = Some row → il_owner row ≠ lk_owner l) →
  (∀ row, st_interlocks s' !! k = Some row → il_owner row ≠ lk_owner l) → stands st l s'.
Proof.
  intros Hs Ha Hi Hold Hnew. destruct (decide (lk_key l = k)) as [<-|Hk].
  - destruct Hs as [(r & Hr & Ho & _)|(Hu & Hx & _)]; [by destruct (Hold r)|right]. by rewrite Ha.
  - unfold stands. by rewrite Hi, Ha by done.
Qed.

(** ** What one answer does to a lock *)

(** Calls that write neither interlocks nor the audit log. *)
Definition lock_free (q : query) : bool :=
  match q with
  | QClaim _ _ _ _ | QSettle _ _ _ | QReleaseSettled _ _ _ _ | QMarkUncertain _ _ _ _ _ | QReleaseBacktest _ _ _
  | QReconcileClear _ _ _ _ _ _ => false
  | _ => true
  end.

Lemma receipts_keep_limits {A} fails (body : PolicyStore → outcome A * PolicyStore) s :
  (∀ s, ps_limits (body s).2 = ps_limits s) → ps_limits (receipt_session fails body s).2 = ps_limits s.
Proof. intros Hb. destruct (receipt_session_cases fails body s) as [->|[_ ->]]; [done|apply Hb]. Qed.

Lemma respond_lock_free q e w : lock_free q = true →
  st_interlocks (limits (respond cfg q e w).2) = st_interlocks (limits w) ∧ st_audit (limits (respond cfg q e w).2) = st_audit (limits w).
Proof.
  intros Hq. destruct q; try done; cbn [respond on_limits on_policy snd w_policy ps_limits set_ps_limits].
  1-4: unfold consume_pair, acquire, renew, release, store_session; repeat case_match; simplify_eq/=; done.
  all: match goal with |- context [ps_limits ?x.2] =>
    assert (ps_limits x.2 = limits w) as ->; [|done]; apply receipts_keep_limits; intros s; cbv beta zeta; repeat case_match; done end.
Qed.

(** A transaction on the limits that leaves them, or changes the row its caller owns. *)
Lemma checked_stands {A} (m : outcome ()) fails (body : LimitStore → outcome A * LimitStore) s st l :
  stands st l s → (m = Ok () → stands st l (body s).2) → stands st l (checked m (store_session fails body) s).2.
Proof. intros Hs Hb. destruct (checked_session m fails body s) as [->|[Hm ->]]; auto. Qed.

Lemma stands_put_owned st l s k o g r row : owned_interlock k o g s = Some r → o ≠ lk_owner l → il_owner row = il_owner r →
  stands st l s → stands st l (put_interlock k row s).
Proof.
  intros (Hr & <- & _)%owned_interlock_Some Hne Hrow Hs. apply (stands_foreign _ _ s _ k Hs); [done|..]; cbn.
  - intros k' Hk'. by rewrite lookup_insert_ne.
  - intros r0. rewrite Hr. by intros [= <-].
  - intros r0. rewrite lookup_insert_eq. intros [= <-]. congruence.
Qed.

Lemma stands_drop st l s s' k r : st_interlocks s !! k = Some r → il_owner r ≠ lk_owner l → stands st l s →
  st_interlocks s' = st_interlocks s → st_audit s' = st_audit s → stands st l (drop_interlock k s').
Proof.
  intros Hr Hne Hs Hi Ha. apply (stands_foreign _ _ s _ k Hs); [done|..]; cbn.
  - intros k' Hk'. by rewrite lookup_delete_ne, Hi.
  - intros r0. rewrite Hr. by intros [= <-].
  - intros r0. by rewrite lookup_delete_eq.
Qed.

Lemma stands_respond st l q e w :
  stands st l (limits w) → lk_operation l ≠ "backtest" → (∀ o, writer q = Some o → o ≠ lk_owner l) →
  stands st l (limits (respond cfg q e w).2).
Proof.
  intros Hs Hop Hw. destruct (lock_free q) eqn:Hq.
  { destruct (respond_lock_free q e w Hq) as [Hi Ha]. by eapply stands_same. }
  destruct q as [| | | | |k o g| | | | |k o g op|k o g|k lk o g|k o g c fin|k o g a rq ev| | | | | | | | | | | |]; try done;
    cbn [respond on_limits on_policy snd w_policy ps_limits set_ps_limits writer] in *.
  - apply checked_stands; [done|]. intros _. destruct (st_leases _ !! k) as [ls|]; [|done].
    destruct (owned_interlock k o g (limits w)) as [r|] eqn:Hr; [|done].
    match goal with |- context [if ?b then _ else _] => destruct b eqn:Hb end; [|done]. cbn [snd].
    assert (il_operation r = "backtest") as Hback.
    { repeat match type of Hb with context [bool_decide ?P] => destruct (bool_decide_reflect P) end; try done; by rewrite ?andb_false_r in Hb. }
    apply owned_interlock_Some in Hr as (Hr & _ & _). destruct Hs as [(r0 & Hr0 & Ho & Hg & Hop0 & Hst)|(Hu & Hx & Hno)]; [left|right].
    + exists r0. split; [|done]. cbn. rewrite lookup_delete_ne; [done|]. intros ->. congruence.
    + split; [done|]. split; [done|]. intros r0. cbn. rewrite lookup_delete_Some. intros [_ Hr0]. by apply Hno.
  - apply checked_stands; [done|]. intros _. destruct (st_interlocks _ !! k) as [r|] eqn:Hr; [done|]. cbn [snd].
    apply (stands_foreign _ _ (limits w) _ k Hs); [done|..]; cbn.
    + intros k' Hk'. by rewrite lookup_insert_ne.
    + intros r0. by rewrite Hr.
    + intros r0. rewrite lookup_insert_eq. intros [= <-]. by apply Hw.
  - apply checked_stands; [done|]. intros _. destruct (owned_interlock k o g (limits w)) as [r|] eqn:Hr; [|done]. case_bool_decide; [|done].
    eapply stands_put_owned; [done|by apply Hw|done|done].
  - apply checked_stands; [done|]. intros _. destruct (holds_lease _ _ _ _ _) as [ls|]; [|done].
    destruct (owned_interlock k o g (limits w)) as [r|] eqn:Hr; [|done]. match goal with |- context [if ?b then _ else _] => destruct b end; [|done].
    apply owned_interlock_Some in Hr as (Hr & Ho & _). eapply stands_drop; [done| |done|done|done]. rewrite Ho. by apply Hw.
  - apply checked_stands; [done|]. intros _. destruct (owned_interlock k o g (limits w)) as [r|] eqn:Hr; [|done].
    eapply stands_put_owned; [done|by apply Hw|done|done].
  - apply checked_stands; [done|]. intros Hg. destruct (owned_interlock k o g (limits w)) as [r|] eqn:Hr; [|done].
    match goal with |- context [if ?b then _ else _] => destruct b eqn:Hb end; [done|]. cbn [snd].
    apply owned_interlock_Some in Hr as (Hr & _ & _). destruct (decide (lk_key l = k)) as [Hk|Hk].
    + right. split; [|split; [exists (reconcile_audit k a rq ev (e_now e)); split; [cbn; apply elem_of_app; right; by left|]|]].
      * destruct Hs as [(r0 & Hr0 & _ & _ & _ & Hst)|[Hs _]]; [|done]. destruct (unresolved st); [|done]. destruct (Hst eq_refl) as [_ Hwork].
        rewrite Hk, Hr in Hr0. injection Hr0 as <-. by rewrite Hwork in Hb.
      * rewrite Hk. apply outcome_bind_Ok in Hg as ([] & _ & Hg). unfold reconciled. cbn. split_and!; try done.
        destruct (bool_decide_reflect (ev ∉ RECONCILIATION_EVIDENCE)) as [|Hev]; [done|]. by apply dec_stable in Hev.
      * intros r0. cbn. by rewrite Hk, lookup_delete_eq.
    + destruct Hs as [(r0 & Hr0 & Hrest)|(Hu & (x & Hx & Hrec) & Hno)].
      * left. exists r0. split; [|done]. cbn. by rewrite lookup_delete_ne.
      * right. split; [done|]. split; [exists x; split; [cbn; apply elem_of_app; by left|done]|].
        intros r0. cbn. rewrite lookup_delete_ne by done. apply Hno.
Qed.

(** ** What a request's own answers do to its lock *)

Lemma checked_result {A} (m : outcome ()) fails (body : LimitStore → outcome A * LimitStore) s :
  (∃ e, checked m (store_session fails body) s = (Raise e, s)) ∨ m = Ok () ∧ checked m (store_session fails body) s = body s.
Proof. unfold checked, store_session. destruct m as [[]|e]; [|left; by eexists]. destruct fails; [left; by eexists|by right]. Qed.

Lemma claim_result k o g op now fails s :
  match (claim k o g op now fails s).1 with
  | Ok d => if id_acquired d then (claim k o g op now fails s).2 = put_interlock k (mkInterlock o g op "active" EmptyString None now now) s
            else (claim k o g op now fails s).2 = s
  | Raise _ => (claim k o g op now fails s).2 = s
  end.
Proof.
  unfold claim. match goal with |- context [checked ?m (store_session ?f ?b) s] => destruct (checked_result m f b s) as [[e ->]|[_ ->]] end; [done|].
  by destruct (st_interlocks s !! k).
Qed.

Lemma settle_result k o g c now fails s :
  match (settle k o g c now fails s).1 with
  | Ok true => ∃ r, owned_interlock k o g s = Some r ∧ (settle k o g c now fails s).2
      = put_interlock k (mkInterlock (il_owner r) (il_generation r) (il_operation r) "settled" c (Some now) (il_created_at r) now) s
  | _ => (settle k o g c now fails s).2 = s
  end.
Proof.
  unfold settle. match goal with |- context [checked ?m (store_session ?f ?b) s] => destruct (checked_result m f b s) as [[e ->]|[_ ->]] end; [done|].
  destruct (owned_interlock k o g s) as [r|]; [|done]. case_bool_decide; [by exists r|done].
Qed.

Lemma mark_result k o g c fin now fails s :
  match (mark_uncertain k o g c fin now fails s).1 with
  | Ok true => ∃ r row, owned_interlock k o g s = Some r ∧ (mark_uncertain k o g c fin now fails s).2 = put_interlock k row s
      ∧ il_owner row = il_owner r ∧ il_generation row = il_generation r ∧ il_operation row = il_operation r
  | _ => (mark_uncertain k o g c fin now fails s).2 = s
  end.
Proof.
  unfold mark_uncertain. match goal with |- context [checked ?m (store_session ?f ?b) s] => destruct (checked_result m f b s) as [[e ->]|[_ ->]] end; [done|].
  destruct (owned_interlock k o g s) as [r|]; [|done]. by eexists r, _.
Qed.

Lemma release_settled_result k lk o g now fails s :
  (release_settled k lk o g now fails s).1 = Ok true ∨ (release_settled k lk o g now fails s).2 = s.
Proof.
  unfold release_settled. match goal with |- context [checked ?m (store_session ?f ?b) s] => destruct (checked_result m f b s) as [[e ->]|[_ ->]] end; [by right|].
  repeat case_match; simplify_eq/=; auto.
Qed.

(** Questions that write in nobody's name keep the request's lock and whether it is resolved. *)
Lemma next_same_lock q x st l : writer q = None → lock_of (next q x st) = Some l → lock_of st = Some l ∧ unresolved (next q x st) = unresolved st.
Proof.
  intros Hq Hl. destruct q; try done; cbn in *; destruct st; cbn in *; repeat case_match; simplify_eq/=; done.
Qed.

Lemma stands_unresolved st st' l s : unresolved st' = unresolved st → stands st l s → stands st' l s.
Proof. unfold stands. by intros ->. Qed.

Lemma put_stands st l s k row : lk_key l = k → il_owner row = lk_owner l → il_generation row = lk_generation l → il_operation row = lk_operation l →
  (unresolved st = true → il_state row = "active" ∧ il_worker_finished_at row = None) → stands st l (put_interlock k row s).
Proof. intros <- ? ? ? ?. left. exists row. split; [apply lookup_insert_eq|done]. Qed.

(** The row a request owns carries its operation. *)
Lemma stands_owned_operation st l s r : stands st l s → owned_interlock (lk_key l) (lk_owner l) (lk_generation l) s = Some r →
  il_owner r = lk_owner l ∧ il_generation r = lk_generation l ∧ il_operation r = lk_operation l.
Proof.
  intros Hs (Hr & Ho & Hg)%owned_interlock_Some. split_and!; [done|done|]. destruct Hs as [(r0 & Hr0 & _ & _ & Hop & _)|(_ & _ & Hno)]; [congruence|by destruct (Hno r)].
Qed.

Lemma own_lock req st q e w l :
  allowed cfg req st q → lock_of (next q (respond cfg q e w).1 st) = Some l → lk_operation l ≠ "backtest" →
  (∀ l, lock_of st = Some l → lk_operation l ≠ "backtest" → stands st l (limits w)) →
  stands (next q (respond cfg q e w).1 st) l (limits (respond cfg q e w).2).
Proof.
  intros Ha Hl Hop Hs. destruct (writer q) as [o|] eqn:Hw.
  2:{ destruct (next_same_lock _ _ _ _ Hw Hl) as [Hl0 Hu]. eapply stands_unresolved; [exact Hu|].
      apply stands_respond; [by apply Hs|done|]. intros o Ho. by rewrite Hw in Ho. }
  destruct q as [| | | | | | | | | |k o' g op|k o' g|k lk o' g|k o' g c fin| | | | | | | | | | | | |]; try done; cbn [allowed] in Ha;
    cbn [respond on_limits on_policy fst snd w_policy ps_limits set_ps_limits] in *; cbv zeta beta in *; cbn [fst snd] in *.
  - destruct Ha as (pr & -> & _). pose proof (claim_result k o' g op (e_now e) (e_fails e) (limits w)) as Hc.
    destruct (claim _ _ _ _ _ _ _) as [[d|ex] s'] eqn:E; cbn [fst snd next] in *; [|done].
    destruct (id_acquired d); [|done]. injection Hl as <-. rewrite Hc. by apply put_stands.
  - destruct Ha as (pr & l0 & -> & Hk & Ho & Hg). pose proof (settle_result k o' g "handler_completed" (e_now e) (e_fails e) (limits w)) as Hc.
    destruct (settle _ _ _ _ _ _ _) as [[[]|ex] s'] eqn:E; cbn [fst snd next] in *; injection Hl as <-; [|rewrite Hc; by apply Hs..].
    destruct Hc as (r & Hr & ->). subst k o' g. destruct (stands_owned_operation _ _ _ _ (Hs l0 eq_refl Hop) Hr) as (? & ? & ?). by apply put_stands.
  - destruct Ha as (pr & l0 & -> & Hk & Ho & Hg). pose proof (release_settled_result k (Some lk) o' g (e_now e) (e_fails e) (limits w)) as Hc.
    destruct (release_settled _ _ _ _ _ _ _) as [[[]|ex] s'] eqn:E; cbn [fst snd next] in *; try done; injection Hl as <-; destruct Hc as [| ->]; try done; by apply Hs.
  - destruct Ha as (pr & l0 & Hst & Hk & Ho & Hg). pose proof (mark_result k o' g c fin (e_now e) (e_fails e) (limits w)) as Hc.
    assert (lock_of st = Some l0) as Hl0 by (by destruct Hst as [->|[->| ->]]).
    destruct (mark_uncertain _ _ _ _ _ _ _) as [[[]|ex] s'] eqn:E; cbn [fst snd next] in *.
    + assert (l = l0) as -> by (destruct Hst as [->|[->| ->]]; by injection Hl). specialize (Hs _ Hl0 Hop).
      destruct Hc as (r & row & Hr & -> & Hro & Hrg & Hrop). subst k o' g.
      destruct (stands_owned_operation _ _ _ _ Hs Hr) as (? & ? & ?). apply put_stands; try congruence. by destruct Hst as [->|[->| ->]].
    + rewrite Hc. assert (l = l0) as -> by (destruct Hst as [->|[->| ->]]; by injection Hl). destruct Hst as [->|[->| ->]]; by apply Hs.
    + rewrite Hc. assert (l = l0) as -> by (destruct Hst as [->|[->| ->]]; by injection Hl). destruct Hst as [->|[->| ->]]; by apply Hs.
Qed.

(** * The invariant *)

Abbreviation resolved_as req r := (resolve ROUTE_POLICIES (cf_app cfg) (rq_method req) (rq_url_path req) = Ok (Some r)) (only parsing).

(** The request was authenticated as [pr], against the sessions of some moment. *)
Definition admitted_as (req : Request) (pr : option SessionPrincipal) : Prop :=
  ∃ r now later s, resolved_as req r ∧ store_wf s
    ∧ authenticate_request cfg (rr_policy r) (rq_cookie req) (rq_csrf_header req) now later s = Ok pr.

Definition handler_sound (req : Request) (pr : option SessionPrincipal) (l : option Lock) : Prop :=
  open_route cfg req ∧ l = None
  ∨ admitted_as req pr ∧ ∃ r, resolved_as req r ∧ (p_requires_idempotency (rr_policy r) = true → rq_idempotency_key req ≠ EmptyString)
      ∧ (generic_interlock (rr_policy r) = true → l ≠ None).

Definition stage_sound (req : Request) (st : Stage) : Prop :=
  match st with
  | SFresh => True
  | SRunning pr l | SFinished pr l => handler_sound req pr l
  | _ => admitted_as req (principal_of st)
  end
  ∧ ∀ l, lock_of st = Some l → claims cfg req (principal_of st) (lk_key l) (lk_operation l).

Lemma claims_admitted req pr l : handler_sound req pr (Some l) → admitted_as req pr.
Proof. by intros [[_ [=]]|[Ha _]]. Qed.

Lemma stage_sound_next req st q e w : allowed cfg req st q → store_wf (w_auth w) → stage_sound req st →
  stage_sound req (next q (respond cfg q e w).1 st).
Proof.
  intros Ha Hwf [Hs Hl]. set (x := (respond cfg q e w).1).
  destruct q; try (by split); cbn [allowed] in Ha.
  - destruct Ha as (-> & -> & -> & r & Hr & ->). cbn [next]. destruct x as [pr|] eqn:E; [|by split]. split; [|done]. cbn.
    exists r, (e_now e), (e_later e), (w_auth w). split_and!; try done. subst x. cbn in E. by destruct (e_fails e).
  - destruct Ha as (pr & ->). cbn [next]. destruct x as [d|]; [|by split]. by destruct (ld_allowed d).
  - destruct Ha as (pr & ->). by split.
  - destruct Ha as (pr & ->). cbn [next]. destruct x as [d|]; [|by split]. by destruct (lq_acquired d).
  - destruct Ha as (pr & -> & Hc). cbn [next]. destruct x as [d|]; [|by split]. destruct (id_acquired d); [|by split]. split; [done|]. by intros l [= <-].
  - destruct Ha as (pr & l & -> & _). cbn [next]. destruct x as [[]|]; [|by split..]. split; [by eapply claims_admitted|done].
  - destruct Ha as (pr & l & -> & _). cbn [next]. destruct x as [[]|]; [|by split..]. by split.
  - destruct Ha as (pr & l & Hst & _). cbn [next].
    destruct Hst as [->|[->| ->]]; destruct x as [[]|]; try (by split); (split; [|done]); first [done|by eapply claims_admitted].
  - cbn [next]. destruct Ha as [[Ho ->]|(r & pr & Hr & Hidem & Hst)]; [split; [by left|done]|].
    destruct Hst as [[Hfree ->]|[[Hg (o & g & ->)]|[Hg (l & ->)]]]; (split; [right; split; [exact Hs|]|done]); exists r; (split; [done|]; split; [done|]).
    + by rewrite (table_lease_free _ (resolve_policy cfg req r Hr) Hfree).
    + by rewrite Hg.
    + done.
  - destruct Ha as (pr & l & ->). cbn [next]. destruct x; by split.
Qed.

Record sys_inv (s : Sys) : Prop := {
  iv_sessions : store_wf (w_auth (s_world s));
  iv_ok : ∀ i t, s_tasks s !! i = Some t → ok (allowed cfg (t_request t)) valid next (t_stage t) (t_prog t) ended;
  iv_sound : ∀ i t, s_tasks s !! i = Some t → stage_sound (t_request t) (t_stage t);
  iv_owners : ∀ i j ti tj o, s_tasks s !! i = Some ti → s_tasks s !! j = Some tj →
    owner_of (t_stage ti) = Some o → owner_of (t_stage tj) = Some o → i = j;
  iv_locks : ∀ i t l, s_tasks s !! i = Some t → lock_of (t_stage t) = Some l → lk_operation l ≠ "backtest" →
    stands (t_stage t) l (limits (s_world s));
}.

Lemma acquire_owner k o ttl' now fails s d : (acquire k o ttl' now fails s).1 = Ok d → lq_acquired d = true → lq_owner d = o.
Proof.
  unfold acquire, store_session. destruct (ttl' <=? 0); [done|]. destruct fails; [done|]. destruct (st_leases s !! k) as [r|]; [|by intros [= <-]].
  destruct (_ || _); by intros [= <-].
Qed.

Lemma valid_respond q e w : valid q (respond cfg q e w).1.
Proof.
  destruct q; try done. cbn. destruct (acquire _ _ _ _ _ _) as [[d|ex] s'] eqn:E; [|done]. cbn. intros Hd. eapply acquire_owner; [by rewrite E|done].
Qed.

Lemma respond_auth q e w : w_auth (respond cfg q e w).2 = w_auth w.
Proof. by destruct q. Qed.

Lemma next_owner req q x st o : allowed cfg req st q → owner_of (next q x st) = Some o →
  owner_of st = Some o ∨ (q = QOwner ∧ next q x st = match st with SAdmitted pr => SOwning pr o | _ => st end).
Proof.
  intros Ha Ho. destruct q; try (by left); cbn [allowed] in Ha; cbn [next] in *.
  - destruct Ha as (-> & _). by destruct x.
  - destruct Ha as (pr & ->). destruct x as [d|]; [|done]. by destruct (ld_allowed d).
  - destruct Ha as (pr & ->). right. cbn in Ho. by injection Ho as <-.
  - destruct Ha as (pr & ->). destruct x as [d|]; [|by left]. left. by destruct (lq_acquired d).
  - destruct Ha as (pr & -> & _). destruct x as [d|]; [|by left]. left. by destruct (id_acquired d).
  - destruct Ha as (pr & l & -> & _). left. by destruct x as [[]|].
  - destruct Ha as (pr & l & -> & _). left. by destruct x as [[]|].
  - destruct Ha as (pr & l & Hst & _). left. by destruct Hst as [->|[->| ->]]; destruct x as [[]|].
  - left. destruct st; done.
  - destruct Ha as (pr & l & ->). left. by destruct x.
Qed.

Lemma writer_owner req st q o : allowed cfg req st q → writer q = Some o → owner_of st = Some o.
Proof.
  intros Ha Hw. destruct q; try done; cbn in Ha; injection Hw as <-.
  - by destruct Ha as (pr & -> & _).
  - by destruct Ha as (pr & l & -> & _ & <- & _).
  - by destruct Ha as (pr & l & -> & _ & <- & _).
  - destruct Ha as (pr & l & Hst & _ & <- & _). by destruct Hst as [->|[->| ->]].
Qed.

Lemma owner_of_lock st l : lock_of st = Some l → owner_of st = Some (lk_owner l).
Proof. destruct st as [| | | | | |? []|? []| | |]; cbn; by intros [= <-]. Qed.

Lemma next_phase_none {A} (m : prog A) answers st : question m = None → next_phase next m answers st = st.
Proof. by destruct m. Qed.
Lemma next_phase_some {A} (m : prog A) answers st q : question m = Some q → next_phase next m answers st = next q (answers q) st.
Proof. destruct m as [|A q' k|]; [done| |done]. by intros [= <-]. Qed.

Lemma inv_move w tasks i t e : sys_inv (mkSys w tasks) → tasks !! i = Some t → fresh_owner t e tasks →
  sys_inv (mkSys (task_world t e w) (<[i := task_next t e w]> tasks)).
Proof.
  intros Hinv Ht Hfresh. pose proof (iv_ok _ Hinv i t Ht) as Hok. pose proof (iv_sound _ Hinv i t Ht) as Hsound. cbn in *.
  assert (ok (allowed cfg (t_request t)) valid next (t_stage (task_next t e w)) (t_prog (task_next t e w)) ended) as Hok'.
  { apply ok_move; [|done]. intros q _. apply valid_respond. }
  destruct (question (t_prog t)) as [q|] eqn:Hq.
  - pose proof (ok_question _ _ _ _ _ _ _ Hok Hq) as Ha. unfold task_world. rewrite Hq.
    assert (t_stage (task_next t e w) = next q (respond cfg q e w).1 (t_stage t)) as Hst by (by apply next_phase_some).
    split; cbn.
    + rewrite respond_auth. apply (iv_sessions _ Hinv).
    + intros j tj [(<- & <- & _)|[_ Hj]]%list_lookup_insert_Some; [done|by apply (iv_ok _ Hinv j)].
    + intros j tj [(<- & <- & _)|[_ Hj]]%list_lookup_insert_Some; [|by apply (iv_sound _ Hinv j)].
      cbn [t_request task_next]. rewrite Hst. apply stage_sound_next; [done|apply (iv_sessions _ Hinv)|done].
    + assert (∀ j tj o, j ≠ i → tasks !! j = Some tj → owner_of (t_stage (task_next t e w)) = Some o → owner_of (t_stage tj) ≠ Some o) as Hdist.
      { intros j tj o Hne Hj Ho Hoj. rewrite Hst in Ho. destruct (next_owner _ _ _ _ _ Ha Ho) as [Ho'|[-> Hn]].
        - by destruct (iv_owners _ Hinv i j t tj o Ht Hj Ho' Hoj).
        - cbn in Ha. destruct Ha as (pr & Hpr). rewrite Hpr in *. cbn in Hn. injection Hn as Hn. specialize (Hfresh Hq tj). rewrite Hn in Hfresh.
          apply Hfresh; [by eapply list_elem_of_lookup_2|done]. }
      intros j1 j2 t1 t2 o [(<- & <- & _)|[Hn1 Hj1]]%list_lookup_insert_Some [(<- & <- & _)|[Hn2 Hj2]]%list_lookup_insert_Some Ho1 Ho2; try done.
      * by destruct (Hdist j2 t2 o).
      * by destruct (Hdist j1 t1 o).
      * by eapply (iv_owners _ Hinv).
    + intros j tj l [(<- & <- & _)|[Hne Hj]]%list_lookup_insert_Some Hl Hop.
      * rewrite Hst in Hl |- *. eapply own_lock; [done|done|done|]. intros l0 Hl0 Hop0. by apply (iv_locks _ Hinv i).
      * apply stands_respond; [by apply (iv_locks _ Hinv j)|done|]. intros o Ho ->. apply Hne.
        eapply (iv_owners _ Hinv i j); [done|done| |by apply owner_of_lock]. by eapply writer_owner.
  - assert (t_stage (task_next t e w) = t_stage t) as Hst by (by apply next_phase_none). unfold task_world. rewrite Hq. split; cbn.
    + apply (iv_sessions _ Hinv).
    + intros j tj [(<- & <- & _)|[_ Hj]]%list_lookup_insert_Some; [done|by apply (iv_ok _ Hinv j)].
    + intros j tj [(<- & <- & _)|[_ Hj]]%list_lookup_insert_Some; [by rewrite Hst|by apply (iv_sound _ Hinv j)].
    + intros j1 j2 t1 t2 o [(<- & <- & _)|[Hn1 Hj1]]%list_lookup_insert_Some [(<- & <- & _)|[Hn2 Hj2]]%list_lookup_insert_Some; rewrite ?Hst; intros Ho1 Ho2;
        try done; by eapply (iv_owners _ Hinv).
    + intros j tj l [(<- & <- & _)|[Hne Hj]]%list_lookup_insert_Some; [rewrite Hst; by apply (iv_locks _ Hinv i)|by apply (iv_locks _ Hinv j)].
Qed.

Lemma inv_world w w' tasks : sys_inv (mkSys w tasks) → store_wf (w_auth w') →
  st_interlocks (limits w') = st_interlocks (limits w) → st_audit (limits w') = st_audit (limits w) → sys_inv (mkSys w' tasks).
Proof.
  intros Hinv Hwf Hi Ha. split; [done|apply (iv_ok _ Hinv)|apply (iv_sound _ Hinv)|apply (iv_owners _ Hinv)|].
  intros i t l Ht Hl Hop. eapply stands_same; [exact Hi|exact Ha|]. by apply (iv_locks _ Hinv i).
Qed.

Lemma inv_step s s' : sys_inv s → sys_step s s' → sys_inv s'.
Proof.
  intros Hinv Hstep. destruct Hstep as [w tasks req|w tasks i t e Ht Hf|w tasks now limit fails|w tasks op|w tasks].
  - assert (∀ i t, (tasks ++ [mkTask req SFresh (enforce_route_policy cfg req)]) !! i = Some t →
              tasks !! i = Some t ∨ t = mkTask req SFresh (enforce_route_policy cfg req)) as Hcases.
    { intros i t [Hi|[_ Hi]]%lookup_app_Some; [by left|right]. by apply list_lookup_singleton_Some in Hi as [_ <-]. }
    split; cbn.
    + apply (iv_sessions _ Hinv).
    + intros i t [Hi| ->]%Hcases; [by apply (iv_ok _ Hinv i)|]. apply ok_enforce.
    + intros i t [Hi| ->]%Hcases; [by apply (iv_sound _ Hinv i)|by split].
    + intros i j ti tj o [Hi| ->]%Hcases [Hj| ->]%Hcases; try done. by apply (iv_owners _ Hinv).
    + intros i t l [Hi| ->]%Hcases; [by apply (iv_locks _ Hinv i)|done].
  - by apply inv_move.
  - eapply inv_world; [exact Hinv|apply (iv_sessions _ Hinv)|..]; cbn; unfold prune_leases, prune_windows, store_session; by repeat case_match.
  - eapply inv_world; [exact Hinv| |done|done]. cbn. by apply auth_op_steps, (iv_sessions _ Hinv).
  - by eapply inv_world; [exact Hinv|apply (iv_sessions _ Hinv)|..].
Qed.

Lemma reachable_sys_inv s : reachable s → sys_inv s.
Proof.
  intros (s0 & [Ht Hwf] & Hsteps). assert (sys_inv s0) as Hinv.
  { destruct s0 as [w tasks]. cbn in Ht. subst tasks. by split. }
  clear Ht Hwf. induction Hsteps as [s|s s1 s2 Hs _ IH]; [done|]. apply IH. by eapply inv_step.
Qed.

(** ** Reading the invariant *)

Lemma authenticate_request_Ok p cookie csrf now later st pr : store_wf st →
  authenticate_request cfg p cookie csrf now later st = Ok pr → p_auth p ≠ PUBLIC →
  ∃ x q, pr = Some q ∧ opens (cf_application_secret cfg) cookie now st x ∧ sp_session_id q = se_id x
    ∧ (p_auth p ≠ SESSION → se_csrf_hash x = hash_text csrf)
    ∧ (p_auth p = RECENT → 0 ≤ later - se_authenticated_at x ≤ cf_reauthentication_window cfg).
Proof.
  intros Hwf Ha Hp. unfold authenticate_request in Ha. rewrite bool_decide_false in Ha by done. apply outcome_bind_Ok in Ha as (q & Hq & Ha). cbv zeta in Ha.
  assert (∃ x, opens (cf_application_secret cfg) cookie now st x ∧ q = mkPrincipal (se_actor x) (se_id x) (se_authenticated_at x)
               ∧ (p_auth p ≠ SESSION → se_csrf_hash x = hash_text csrf)) as (x & Hx & -> & Hcsrf).
  { destruct (bool_decide_reflect (p_auth p = SESSION)) as [Hs|Hs].
    - apply (authenticate_Ok _ _ _ _ _ Hwf) in Hq as (x & Hx & ->). by exists x.
    - apply (require_csrf_Ok _ _ _ _ _ _ Hwf) in Hq as (_ & x & Hx & Hc & ->). by exists x. }
  exists x. destruct (bool_decide_reflect (p_auth p = RECENT)) as [Hr|Hr]; cbn in Ha.
  - destruct (Z.ltb_spec (later - se_authenticated_at x) 0), (Z.ltb_spec (cf_reauthentication_window cfg) (later - se_authenticated_at x)); try done.
    injection Ha as <-. eexists. split_and!; try done.
  - injection Ha as <-. by eexists.
Qed.

(** A request at work on a mutation of the table holds its interlock. *)
Lemma running_lock s i t pr l r : reachable s → s_tasks s !! i = Some t → t_stage t = SRunning pr l → resolved_as (t_request t) r →
  generic_interlock (rr_policy r) = true →
  ∃ l' op, l = Some l' ∧ p_mutation_operation (rr_policy r) = Some op ∧ op = lk_operation l' ∧ claims cfg (t_request t) pr (lk_key l') op
    ∧ (op ≠ "backtest" → ∃ row, st_interlocks (limits (s_world s)) !! lk_key l' = Some row ∧ il_owner row = lk_owner l'
         ∧ il_generation row = lk_generation l' ∧ il_operation row = op ∧ il_state row = "active" ∧ il_worker_finished_at row = None).
Proof.
  intros Hs Ht Hst Hr Hg. pose proof (reachable_sys_inv s Hs) as Hinv. pose proof (iv_sound _ Hinv i t Ht) as [Hsound Hclaims]. rewrite Hst in *. cbn in *.
  pose proof (resolve_policy cfg (t_request t) r Hr) as Hin.
  assert (l ≠ None) as Hl.
  { destruct Hsound as [[Hopen ->]|(_ & r' & Hr' & _ & Hn)]; [|rewrite Hr in Hr'; injection Hr' as <-; auto].
    destruct Hopen as [Hn|(r' & Hr' & Hp)]; [by rewrite Hr in Hn|]. rewrite Hr in Hr'. injection Hr' as <-.
    pose proof (table_health _ Hin Hp). congruence. }
  destruct l as [l'|]; [|done]. destruct (Hclaims l' eq_refl) as (r' & lp & lk & keys & Hr' & _ & Hop & Hrest). rewrite Hr in Hr'. injection Hr' as <-.
  pose proof (table_operation _ Hin) as Hmut. rewrite Hg in Hmut.
  destruct (p_mutation_operation (rr_policy r)) as [op|] eqn:Hmop; [|done]. cbn in Hop.
  exists l', op. split_and!; [done|done|done|by rewrite <- Hop; apply Hclaims|].
  intros Hback. destruct (iv_locks _ Hinv i t l' Ht) as [(row & Hrow & Ho & Hge & Hrop & Hact)|[Hu _]]; rewrite ?Hst in *; [done|congruence| |done].
  destruct (Hact eq_refl). exists row. split_and!; congruence.
Qed.

(** * What the middleware guarantees *)

(** Claim C4.  A handler runs only for an authenticated, admitted request.  In every reachable state of any
    number of concurrent requests, maintenance, logins and breaker resets, a request whose
    handler is at work either matched no route (or the liveness route), or its policy is in the
    table and the request was authenticated for it: unless the route is public its cookie
    opened a session at that time, for a mutating route its header carried that session's CSRF
    token, and for a privileged one the session was authenticated within the window; a route
    that requires an idempotency key has one; and unless the mutation is a backtest, its
    interlock stands in the store, active, in the request's own name. *)
Theorem handler_runs_guarded s i t pr l :
  reachable s → s_tasks s !! i = Some t → t_stage t = SRunning pr l →
  open_route cfg (t_request t)
  ∨ ∃ r, resolved_as (t_request t) r ∧ rr_policy r ∈ ROUTE_POLICIES
    ∧ (p_auth (rr_policy r) ≠ PUBLIC → ∃ now later st x p,
         pr = Some p ∧ opens (cf_application_secret cfg) (rq_cookie (t_request t)) now st x ∧ sp_session_id p = se_id x
         ∧ (p_auth (rr_policy r) ≠ SESSION → se_csrf_hash x = hash_text (rq_csrf_header (t_request t)))
         ∧ (p_auth (rr_policy r) = RECENT → 0 ≤ later - se_authenticated_at x ≤ cf_reauthentication_window cfg))
    ∧ (p_requires_idempotency (rr_policy r) = true → rq_idempotency_key (t_request t) ≠ EmptyString)
    ∧ (generic_interlock (rr_policy r) = true → p_mutation_operation (rr_policy r) ≠ Some "backtest" → ∃ k row,
         st_interlocks (ps_limits (w_policy (s_world s))) !! k = Some row ∧ il_state row = "active" ∧ il_worker_finished_at row = None
         ∧ Some (il_operation row) = p_mutation_operation (rr_policy r)
         ∧ ∃ l', l = Some l' ∧ il_owner row = lk_owner l' ∧ il_generation row = lk_generation l').
Proof.
  intros Hs Ht Hst. pose proof (reachable_sys_inv s Hs) as Hinv. pose proof (iv_sound _ Hinv i t Ht) as [Hsound _]. rewrite Hst in Hsound.
  destruct Hsound as [[Hopen _]|[(r & now & later & st & Hr & Hwf & Ha) (r' & Hr' & Hidem & _)]]; [by left|right].
  rewrite Hr in Hr'. injection Hr' as <-. exists r. split; [done|]. split; [by eapply resolve_policy|]. split_and!; [|done|].
  - intros Hp. destruct (authenticate_request_Ok _ _ _ _ _ _ _ Hwf Ha Hp) as (x & q & Hq & Hrest). by exists now, later, st, x, q.
  - intros Hg Hb. destruct (running_lock s i t pr l r Hs Ht Hst Hr Hg) as (l' & op & -> & Hop & -> & _ & Hrow). rewrite Hop in *.
    destruct Hrow as (row & Hrow & Ho & Hge & <- & Hact & Hwork); [congruence|]. exists (lk_key l'), row. split_and!; try done. by exists l'.
Qed.

(** The interlock of an operation on a resource. *)
Definition lock_key (x : Resource) (op : string) : string :=
  match x with
  | ResAccount => route_slot ("paper-account:alpaca-paper" +:+ nul +:+ "mutation:" +:+ op) 0
  | _ => resource_key x
  end.

Lemma resource_operation r lp x : resource_of r lp = Some x → ∃ op, p_mutation_operation (rr_policy r) = Some op ∧ (op = "backtest" → x = ResBacktest).
Proof.
  unfold resource_of. destruct (p_mutation_operation (rr_policy r)) as [op|]; [|done]. cbn. intros Hx. exists op. split; [done|].
  intros ->. by injection Hx as <-.
Qed.

Lemma mutation_interlock_key r lp x op : rr_policy r ∈ ROUTE_POLICIES → resource_of r lp = Some x → p_mutation_operation (rr_policy r) = Some op →
  operation_interlock_key r (resource_key x) lp None = lock_key x op ∧ (p_path (rr_policy r) = "/reconcile" → x = ResPortfolio).
Proof.
  destruct r as [p params]. cbn [rr_policy]. unfold resource_of, operation_interlock_key. cbn [rr_policy]. intros Hp.
  repeat (apply elem_of_cons in Hp as [->|Hp]); [..|by apply elem_of_nil in Hp]; cbn; try done; by intros [= <-] [= <-].
Qed.

(** The interlock a running mutation holds is the one of its resource. *)
Lemma running_key s i t pr l r lp x : reachable s → s_tasks s !! i = Some t → t_stage t = SRunning pr l → resolved_as (t_request t) r →
  limit_principal_of (t_request t) pr = Ok lp → resource_of r lp = Some x → x ≠ ResPortfolio → x ≠ ResBacktest →
  ∃ l' op, p_mutation_operation (rr_policy r) = Some op ∧ lock_of (t_stage t) = Some l' ∧ lk_key l' = lock_key x op
    ∧ ∃ row, st_interlocks (limits (s_world s)) !! lk_key l' = Some row ∧ il_owner row = lk_owner l'.
Proof.
  intros Hs Ht Hst Hr Hlp Hx Hport Hback. destruct (resource_operation _ _ _ Hx) as (op & Hop & Hopb).
  pose proof (resolve_policy cfg (t_request t) r Hr) as Hin. pose proof (table_operation _ Hin) as Hg. rewrite Hop in Hg.
  destruct (running_lock s i t pr l r Hs Ht Hst Hr (eq_sym Hg)) as (l' & op' & -> & Hop' & Hl & Hc & Hrow).
  rewrite Hop in Hop'. injection Hop' as <-. exists l', op. split; [done|]. rewrite Hst. split; [done|].
  destruct Hc as (r' & lp' & lk & keys & Hr' & _ & _ & Hlp' & Hkeys & Hk). rewrite Hr in Hr'. injection Hr' as <-.
  rewrite Hlp in Hlp'. injection Hlp' as <-. rewrite (mutation_lease_key _ _ _ x Hin Hx) in Hkeys. injection Hkeys as <- <-.
  destruct (mutation_interlock_key r lp x op Hin Hx Hop) as [Hkey Hrec]. rewrite Hkey in Hk. split; [destruct Hk as [|[Hp _]]; [done|by destruct Hport, Hrec]|].
  destruct Hrow as (row & Hrow & Ho & _); [intros ->; by destruct Hback, Hopb|]. by exists row.
Qed.

(** Claim C3.  Two mutations of one resource never run at once.  When the handlers of two different
    requests are at work in a reachable state, they work on different resources: orders
    (approval, rejection and cancellation of one order are one resource), rules, plans, the
    broker's orders, the analyses of a principal; only the paper account may be shared, by a
    panic and a breaker reset.  Portfolio reconciliations, which may continue one that stands,
    and backtests, whose expired claims are reclaimed, are left out. *)
Theorem mutations_exclude s i j ti tj pri prj li lj ri rj lpi lpj xi xj :
  reachable s → i ≠ j → s_tasks s !! i = Some ti → s_tasks s !! j = Some tj → t_stage ti = SRunning pri li → t_stage tj = SRunning prj lj →
  resolved_as (t_request ti) ri → resolved_as (t_request tj) rj →
  limit_principal_of (t_request ti) pri = Ok lpi → limit_principal_of (t_request tj) prj = Ok lpj →
  resource_of ri lpi = Some xi → resource_of rj lpj = Some xj → xi ≠ ResPortfolio → xi ≠ ResBacktest →
  xi ≠ xj ∨ xi = ResAccount ∧ p_mutation_operation (rr_policy ri) ≠ p_mutation_operation (rr_policy rj).
Proof.
  intros Hs Hne Hi Hj Hsti Hstj Hri Hrj Hlpi Hlpj Hxi Hxj Hport Hback. destruct (decide (xi = xj)) as [<-|]; [|by left]. right.
  destruct (running_key s i ti pri li ri lpi xi) as (l1 & op1 & Hop1 & Hl1 & Hk1 & row1 & Hrow1 & Ho1); try done.
  destruct (running_key s j tj prj lj rj lpj xi) as (l2 & op2 & Hop2 & Hl2 & Hk2 & row2 & Hrow2 & Ho2); try done.
  assert (lk_key l1 ≠ lk_key l2) as Hk.
  { intros Hk. rewrite Hk, Hrow2 in Hrow1. injection Hrow1 as <-. apply Hne.
    eapply (iv_owners _ (reachable_sys_inv s Hs) i j ti tj (lk_owner l1)); [done|done|by apply owner_of_lock|]. rewrite <- Ho1, Ho2. by apply owner_of_lock. }
  rewrite Hk1, Hk2 in Hk. destruct xi; try done. split; [done|]. congruence.
Qed.

(** Claim C5.  A mutation that started is never forgotten.  From the claim of its interlock until its
    settled release, in every reachable state and so wherever a request is abandoned, a mutation
    other than a backtest blocks its resource: every valid claim of its interlock is refused
    without effect and names the request's owner and generation; only after the request was
    settled or marked uncertain may instead an audited reconciliation of that interlock, with
    evidence, have removed it.  While the handler is at work no reconciliation can. *)
Theorem started_mutation_blocks s i t l o g x now :
  reachable s → s_tasks s !! i = Some t → lock_of (t_stage t) = Some l → lk_operation l ≠ "backtest" →
  validate_identity (lk_key l) o g = Ok () → x ∈ MUTATION_OPERATIONS →
  let store := ps_limits (w_policy (s_world s)) in
  (∃ d, claim (lk_key l) o g x now false store = (Ok d, store) ∧ id_acquired d = false
        ∧ id_owner d = lk_owner l ∧ id_generation d = lk_generation l ∧ id_operation d = lk_operation l
        ∧ (unresolved (t_stage t) = true → id_state d = "active"))
  ∨ unresolved (t_stage t) = false ∧ ∃ a, a ∈ st_audit store ∧ reconciled (lk_key l) a.
Proof.
  intros Hs Ht Hl Hop Hv Hx. cbv zeta. destruct (iv_locks _ (reachable_sys_inv s Hs) i t l Ht Hl Hop) as [(row & Hrow & Ho & Hg & Hrop & Hact)|(Hu & Ha & _)]; [left|by right].
  unfold claim, checked, store_session. rewrite Hv. cbn. rewrite bool_decide_true by done. cbn in Hrow. rewrite Hrow. eexists. split; [reflexivity|]. cbn.
  split_and!; try done. intros Hu. by destruct (Hact Hu).
Qed.

(** ** Schedules *)

Inductive event : Type :=
| EvArrive (req : Request)
| EvMove (i : nat) (e : Env).

Definition fresh_owner_b (t : Task) (e : Env) (tasks : list Task) : bool :=
  match question (t_prog t) with
  | Some QOwner => forallb (λ t', negb (bool_decide (owner_of (t_stage t') = Some (e_owner e)))) tasks
  | _ => true
  end.

Definition run_event (ev : event) (s : Sys) : option Sys :=
  match ev with
  | EvArrive req => Some (mkSys (s_world s) (s_tasks s ++ [mkTask req SFresh (enforce_route_policy cfg req)]))
  | EvMove i e =>
      match s_tasks s !! i with
      | Some t => if fresh_owner_b t e (s_tasks s) then Some (mkSys (task_world t e (s_world s)) (<[i := task_next t e (s_world s)]> (s_tasks s))) else None
      | None => None
      end
  end.

Fixpoint run_schedule (evs : list event) (s : Sys) : option Sys :=
  match evs with
  | [] => Some s
  | ev :: evs => match run_event ev s with Some s' => run_schedule evs s' | None => None end
  end.

Lemma fresh_owner_b_sound t e tasks : fresh_owner_b t e tasks = true → fresh_owner t e tasks.
Proof.
  unfold fresh_owner_b, fresh_owner. intros Hb Hq t' Ht'. rewrite Hq in Hb. rewrite forallb_forall in Hb. apply list_elem_of_In in Ht'.
  specialize (Hb _ Ht'). by case_bool_decide.
Qed.

Lemma run_schedule_sound evs : ∀ s s', run_schedule evs s = Some s' → rtc sys_step s s'.
Proof.
  induction evs as [|ev evs IH]; intros s s' Hs; cbn in Hs; [by injection Hs as <-|]. destruct (run_event ev s) as [s1|] eqn:E; [|done].
  apply rtc_l with s1; [|by apply IH]. destruct s as [w tasks]. destruct ev as [req|i e]; cbn in E.
  - injection E as <-. constructor.
  - destruct (tasks !! i) as [t|] eqn:Ht; [|done]. destruct (fresh_owner_b t e tasks) eqn:Hf; [|done]. injection E as <-.
    constructor; [done|by apply fresh_owner_b_sound].
Qed.
End System.

(** * Worked cases *)

#[local] Instance plain_digest : Digest := λ s, s.
#[local] Instance plain_hmac : Hmac := { hmac_digest k v := k +:+ v; hmac_hex k v := k +:+ "/" +:+ v }.
#[local] Instance demo_text : ReceiptText := { write_text j := "{}"; read_text t := Ok (JObj []) }.
#[local] Instance no_dates : DateText := λ _, None.

Definition order_route (path prefix : string) (tail : string → bool) : RouteTree :=
  RLeaf (mkAppRoute KApiRoute (Some path) (Some ["POST"])
    (λ m p, if bool_decide (m = "POST") && String.prefix prefix p && tail p
            then Some [("order_id", String.substring (String.length prefix) 1 p)] else None)).

Definition demo_config : PolicyConfig :=
  mkPolicyConfig [order_route "/approve/{order_id}" "/approve/" (λ _, true); order_route "/reject/{order_id}" "/reject/" (λ _, true)]
    default_rate_limits "s3cret" (300 * second) 20 3000 (45 * second) false.

Definition demo_request (path : string) : Request :=
  mkRequest "POST" path path "tok" (keyed_hash "tok" (csrf_key "s3cret")) "key-1" (Some "127.0.0.1") None "req-1".

(** One operator session. *)
Definition demo_world : World :=
  mkWorld (mkPolicyStore empty_store ∅)
    (run_auth_op "s3cret" (28800 * second) (ALogin "s3cret" "s3cret" "operator:local" "tok" (1 * second)) ∅).

Definition demo_env (now : time) (owner : string) : Env := mkEnv now now 0 false owner true false HAtWork.

(** The questions up to the handler: authentication, rate limit, interlock, owner, lease, claim,
    start. *)
Definition to_handler (i : nat) (now : time) (owner : string) : list event := replicate 7 (EvMove i (demo_env now owner)).

Definition demo_initial : Sys := mkSys demo_world [].

(** Two approvals of different orders and a rejection of the first order, which is refused
    before it gets to its handler. *)
Definition demo_events : list event :=
  [EvArrive (demo_request "/approve/7"); EvArrive (demo_request "/approve/8"); EvArrive (demo_request "/reject/7")]
  ++ to_handler 0 (2 * second) "u0" ++ to_handler 1 (3 * second) "u1" ++ to_handler 2 (4 * second) "u2".

Definition demo_sys : Sys := match run_schedule demo_config demo_events demo_initial with Some s => s | None => demo_initial end.

Definition demo_principal : option SessionPrincipal := Some (mkPrincipal "operator:local" 1 (1 * second)).
Definition demo_lock (order owner : string) : Lock := mkLock ("route:order:" +:+ order +:+ ":0") owner 1 "order_approve".

(** The two approvals run; the rejection was answered 409. *)
Example demo_stages :
  map t_stage (s_tasks demo_sys) = [SRunning demo_principal (Some (demo_lock "7" "u0")); SRunning demo_principal (Some (demo_lock "8" "u1")); SAdmitted demo_principal]
  ∧ match result ∘ t_prog <$> s_tasks demo_sys !! 2%nat with Some (Some (Ok r)) => rs_status r | _ => 0 end = 409.
Proof. vm_compute. done. Qed.

Lemma demo_reachable : reachable demo_config (28800 * second) demo_sys.
Proof.
  exists demo_initial. split; [split; [done|apply auth_op_steps; by split]|]. apply (run_schedule_sound _ _ demo_events).
  unfold demo_sys. destruct (run_schedule demo_config demo_events demo_initial) eqn:E; [done|]. by vm_compute in E.
Qed.

Definition demo_task (i : nat) : Task := default (mkTask (demo_request "") SFresh (Ret (Raise AssertionError))) (s_tasks demo_sys !! i).

Lemma handler_runs_guarded_witness :
  open_route demo_config (t_request (demo_task 0))
  ∨ ∃ r, resolve ROUTE_POLICIES (cf_app demo_config) (rq_method (t_request (demo_task 0))) (rq_url_path (t_request (demo_task 0))) = Ok (Some r)
    ∧ rr_policy r ∈ ROUTE_POLICIES.
Proof.
  assert (s_tasks demo_sys !! 0%nat = Some (demo_task 0)) as Ht by (vm_compute; reflexivity).
  assert (t_stage (demo_task 0) = SRunning demo_principal (Some (demo_lock "7" "u0"))) as Hst by (vm_compute; reflexivity).
  destruct (@handler_runs_guarded plain_digest plain_hmac demo_text no_dates demo_config (28800 * second) demo_sys 0 (demo_task 0) _ _ demo_reachable Ht Hst)
    as [Ho|(r & Hr & Hin & _)]; [left; exact Ho|right; exists r; exact (conj Hr Hin)].
Defined.

Lemma mutations_exclude_witness :
  ResOrder "7" ≠ ResOrder "8"
  ∨ ResOrder "7" = ResAccount
    ∧ p_mutation_operation (default (route "" "" PUBLIC "") (ROUTE_POLICIES !! 15%nat)) ≠ p_mutation_operation (default (route "" "" PUBLIC "") (ROUTE_POLICIES !! 15%nat)).
Proof.
  set (p := default (route "" "" PUBLIC "") (ROUTE_POLICIES !! 15%nat)).
  assert (s_tasks demo_sys !! 0%nat = Some (demo_task 0)) as Ht0 by (vm_compute; reflexivity).
  assert (s_tasks demo_sys !! 1%nat = Some (demo_task 1)) as Ht1 by (vm_compute; reflexivity).
  assert (t_stage (demo_task 0) = SRunning demo_principal (Some (demo_lock "7" "u0"))) as Hst0 by (vm_compute; reflexivity).
  assert (t_stage (demo_task 1) = SRunning demo_principal (Some (demo_lock "8" "u1"))) as Hst1 by (vm_compute; reflexivity).
  refine (@mutations_exclude plain_digest plain_hmac demo_text no_dates demo_config (28800 * second) demo_sys 0 1 (demo_task 0) (demo_task 1) demo_principal demo_principal
    (Some (demo_lock "7" "u0")) (Some (demo_lock "8" "u1")) (mkResolved p [("order_id", "7")]) (mkResolved p [("order_id", "8")])
    "session:1:operator:local" "session:1:operator:local" (ResOrder "7") (ResOrder "8") demo_reachable _ Ht0 Ht1 Hst0 Hst1 _ _ _ _ _ _ _ _);
    [discriminate|vm_compute; reflexivity..|discriminate|discriminate].
Defined.

(** A second approval of the same order, with everything else in order, is refused. *)
Lemma started_mutation_blocks_witness :
  (∃ d, claim (lk_key (demo_lock "7" "u0")) "u9" 5 "order_approve" (9 * second) false (ps_limits (w_policy (s_world demo_sys)))
        = (Ok d, ps_limits (w_policy (s_world demo_sys)))
      ∧ id_acquired d = false ∧ id_owner d = "u0" ∧ id_generation d = 1 ∧ id_operation d = "order_approve"
      ∧ (unresolved (t_stage (demo_task 0)) = true → id_state d = "active"))
  ∨ unresolved (t_stage (demo_task 0)) = false
    ∧ ∃ a, a ∈ st_audit (ps_limits (w_policy (s_world demo_sys))) ∧ reconciled (lk_key (demo_lock "7" "u0")) a.
Proof.
  assert (s_tasks demo_sys !! 0%nat = Some (demo_task 0)) as Ht by (vm_compute; reflexivity).
  assert (lock_of (t_stage (demo_task 0)) = Some (demo_lock "7" "u0")) as Hl by (vm_compute; reflexivity).
  refine (@started_mutation_blocks plain_digest plain_hmac demo_text no_dates demo_config (28800 * second) demo_sys 0 (demo_task 0) (demo_lock "7" "u0") "u9" 5 "order_approve" (9 * second)
    demo_reachable Ht Hl _ _ _); [discriminate|reflexivity|by left].
Defined.

(** The first approval to its end: the handler returns, the interlock is settled and released. *)
Definition handler_returns (now : time) : Env :=
  mkEnv now now 0 false "" true false (HReturned (mkHandlerResult (mkResponse 200 EmptyString [] None) false None)).

Example demo_completes :
  match run_schedule demo_config [EvMove 0 (handler_returns (5 * second)); EvMove 0 (handler_returns (5 * second)); EvMove 0 (handler_returns (6 * second));
                                  EvMove 0 (handler_returns (7 * second))] demo_sys with
  | Some s => (t_stage <$> s_tasks s !! 0%nat, st_interlocks (ps_limits (w_policy (s_world s))) !! "route:order:7:0")
  | None => (None, None)
  end = (Some (SReleased demo_principal), None).
Proof. vm_compute. done. Qed.
