(* ===== verification/PanicWait.v ===== *)
(** A panic that joins another one waits for its receipt: whatever the stores, the other
    requests and the clocks do meanwhile, the wait ends in time, and it only reads. *)

From S2P Require Import Prelude PyDecimal Assets BrokerModels Breakers Pnl Database Lifecycle SessionLogic BreakerStore.
From S2P Require Import Limits LimitsProofs LeaseProofs Sessions RoutePolicy PanicReceipts Flow RequestFlow.
From Stdlib Require Import Lia.
Local Open Scope Z_scope.

(** * Runs in time *)

(** The loop's clock starts a question at [t] and has the answer [x] by [t'], at most [slack] later
    than it must: a sleep lasts at least as long as asked, a reading of the clock falls in between. *)
Definition takes (slack t : Z) (q : query) : answer q → Z → Prop :=
  match q with
  | QLoopTime => λ x t', t ≤ x ≤ t' ∧ t' ≤ t + slack
  | QSleep delay => λ _ t', t + Z.max 0 delay ≤ t' ≤ t + Z.max 0 delay + slack
  | _ => λ _ t', t ≤ t' ≤ t + slack
  end.

(** One move of a program against an adversary, who picks every answer. *)
Definition timed_step {A} (slack : Z) (c c' : Z * prog A) : Prop :=
  match c.2 in flow _ A return Z * prog A → Prop with
  | Ret _ => λ _, False
  | Ask q k => λ c', ∃ x, takes slack c.1 q x c'.1 ∧ c'.2 = k x
  | Loop body st k => λ c', c' = (c.1, flow_bind (body st) (λ r, match r with inl st' => Loop body st' k | inr r => k r end))
  end c'.

(** Every run of [m] from [t] ends within [n] moves and by [limit], asks only what [asked] allows, and
    returns what [Q] allows. *)
Fixpoint ends {A} (slack limit : Z) (asked : query → Prop) (n : nat) (t : Z) (m : prog A) (Q : A → Prop) : Prop :=
  t ≤ limit ∧
  match m in flow _ A return (A → Prop) → Prop with
  | Ret a => λ Q, Q a
  | Ask q k => λ Q, match n with
                    | O => False
                    | S n => asked q ∧ ∀ x t', takes slack t q x t' → ends slack limit asked n t' (k x) Q
                    end
  | Loop body st k => λ Q, match n with
                           | O => False
                           | S n => ends slack limit asked n t (flow_bind (body st) (λ r, match r with inl st' => Loop body st' k | inr r => k r end)) Q
                           end
  end Q.

Lemma ends_here {A} slack limit asked n t (m : prog A) Q : ends slack limit asked n t m Q →
  t ≤ limit ∧ (∀ q, question m = Some q → asked q) ∧ ∀ a, result m = Some a → Q a.
Proof.
  intros He. assert (t ≤ limit) as Ht by (by destruct n, He). split; [done|].
  destruct m as [A a|A q k|St R A body st k]; cbn; [split; [done|intros ? [= <-]; by destruct n, He]|split; [|done]|done].
  intros ? [= <-]. destruct n as [|n]; destruct He as [_ He]; [done|apply He].
Qed.

Lemma ends_run {A} slack limit asked (Q : A → Prop) n : ∀ k c0 c, nsteps (timed_step slack) k c0 c → ends slack limit asked n c0.1 c0.2 Q →
  (k ≤ n)%nat ∧ c.1 ≤ limit ∧ (∀ q, question c.2 = Some q → asked q) ∧ ∀ a, result c.2 = Some a → Q a.
Proof.
  induction n as [|n IH]; intros k c0 c Hk He; destruct Hk as [c0|k c0 c1 c Hstep Hk]; try (split; [lia|by apply ends_here in He]).
  - exfalso. destruct c0 as [t m], He as [_ He]. cbn in *. destruct m; [exact Hstep|exact He..].
  - enough (ends slack limit asked n c1.1 c1.2 Q) as Hn by (destruct (IH _ _ _ Hk Hn); split; [lia|done]).
    destruct c0 as [t m], c1 as [t1 m1], He as [_ He]. cbn in *. destruct m as [A a|A q f|St R A body st f]; cbn in Hstep; [done|..].
    + destruct He as [_ He]. destruct Hstep as (x & Htake & ->). by apply He.
    + by injection Hstep as -> ->.
Qed.

Lemma ends_later {A} slack limit limit' asked (Q : A → Prop) n : limit ≤ limit' → ∀ t m, ends slack limit asked n t m Q → ends slack limit' asked n t m Q.
Proof.
  intros Hl. induction n as [|n IH]; intros t m He; destruct m as [A a|A q k|St R A body st k]; destruct He as [Ht He]; (split; [lia|]); try done.
  - destruct He as [Ha He]. split; [done|]. intros x t' Hx. by apply IH, He.
  - by apply IH.
Qed.

(** A question can always be answered, so a run that has not returned goes on. *)
Lemma takes_some slack t q : 0 ≤ slack → ∃ (x : answer q) t', takes slack t q x t'.
Proof.
  intros Hs. assert (∀ X (x : X), ∃ (_ : X) t', t ≤ t' ≤ t + slack) as Hin by (intros X x; exists x, t; lia).
  destruct q; cbn; try exact (Hin _ (Raise AssertionError)); try exact (Hin _ true); try exact (Hin _ EmptyString); try exact (Hin _ 0).
  - exists t, t. lia.
  - exists (), (t + Z.max 0 delay). lia.
  - exact (Hin _ ()).
  - exact (Hin _ HAtWork).
Qed.

Lemma timed_progress {A} slack t (m : prog A) : 0 ≤ slack → result m = None → ∃ c, timed_step slack (t, m) c.
Proof.
  intros Hs Hm. destruct m as [A a|A q k|St R A body st k]; [done| |by eexists].
  destruct (takes_some slack t q Hs) as (x & t' & Ht). exists (t', k x). by exists x.
Qed.

(** * The wait *)

Section Wait.
Context `{Digest, Hmac, ReceiptText, DateText} (cfg : PolicyConfig) (key : string) (observed : LeaseDecision).

(** What it asks: the clocks, the fence of the panic it joined, and to sleep. *)
Definition wait_asks (q : query) : Prop :=
  match q with
  | QLoopTime | QClock | QSleep _ => True
  | QObserve k o g => k = key ∧ o = lq_owner observed ∧ g = lq_generation observed
  | _ => False
  end.

(** What it returns: the panic is incomplete, the store failed, or the receipt the panic left. *)
Definition wait_result (r : outcome Response) : Prop :=
  r = Ok panic_incomplete_response ∨ r = Ok policy_store_error_response ∨ (∃ e, r = Raise e)
  ∨ ∃ z, pz_state z ≠ "started" ∧ r = Ok (panic_response z).

Abbreviation polls deadline delay := (Loop (poll_panic_receipt deadline key observed) delay Ret).

(** From a poll that starts at [t], each further poll starts a clock unit later at least, and
    none starts after the deadline. *)
Lemma polls_end slack deadline n : 0 ≤ slack → ∀ t delay,
  0 < delay → t ≤ deadline + 4 * slack → deadline - t ≤ Z.of_nat n →
  ends slack (deadline + 5 * slack) wait_asks (5 * n + 4) t (polls deadline delay) wait_result.
Proof.
  intros Hslack. induction n as [|n IH]; intros t delay Hd Ht Hn.
  - cbn. split; [lia|]. split; [lia|]. split; [done|]. intros x t1 [? ?]. rewrite (proj2 (Z.leb_le _ _)) by lia. cbn. split; [lia|by left].
  - replace (5 * S n + 4)%nat with (5 + (5 * n + 4))%nat by lia. cbn [ends Nat.add]. split; [lia|].
    cbn [poll_panic_receipt flow_bind ask]. split; [lia|]. split; [done|]. intros x t1 [? ?].
    destruct (Z.leb_spec (deadline - x) 0) as [|Hx]; [cbn; split; [lia|by left]|]. cbn [flow_bind ask]. split; [lia|]. split; [done|].
    intros o t2 Ht2. cbn [takes] in Ht2. destruct (unavailable_as_none o) as [[ob|]|e].
    2: { cbn. split; [lia|by right; left]. }
    2: { cbn. split; [lia|right; right; left; by exists e]. }
    destruct (negb (po_authoritative ob)); [cbn; split; [lia|by left]|]. destruct (finished_snapshot ob) as [z|] eqn:Hz.
    { cbn. split; [lia|]. right; right; right. exists z. split; [|done]. unfold finished_snapshot in Hz. destruct (po_snapshot ob) as [y|]; [|done].
      case_bool_decide; [done|]. by injection Hz as ->. }
    cbn [flow_bind ask]. split; [lia|]. split; [done|]. intros w t3 Ht3. cbn [takes] in Ht3.
    destruct (Z.leb_spec (po_wait_expires_at ob - w) 0) as [|Hw]; [cbn; split; [lia|by left]|]. cbn [flow_bind ask]. split; [lia|]. split; [done|].
    intros u t4 Ht4. cbn [takes] in Ht4. cbn [flow_bind]. apply IH; [|lia|lia]. unfold PANIC_POLL_MAX. change (second / 4) with 250000. lia.
Qed.

(** Claim C36.  Waiting for a panic ends in time.  However the receipt and the lease look at each poll,
    whatever the stores answer, whatever other requests do meanwhile and however long each answer
    and each sleep takes beyond what it must, up to [slack]: the wait has returned by the
    request timeout plus six times that, after a bounded number of moves; until then it can always
    go on.  It returns an incomplete panic, the store's failure or exception, or a receipt it read
    that is no longer started, and it asks nothing but the clocks, the fence of the panic it
    joined and to sleep, so it changes nothing. *)
Theorem panic_wait_ends slack t0 moves t m : 0 ≤ slack → 0 ≤ cf_request_timeout cfg →
  nsteps (timed_step slack) moves (t0, wait_for_panic_receipt cfg key observed) (t, m) →
  t ≤ t0 + cf_request_timeout cfg + 6 * slack
  ∧ Z.of_nat moves ≤ 5 * cf_request_timeout cfg + 5
  ∧ (result m = None → ∃ c, timed_step slack (t, m) c)
  ∧ (∀ r, result m = Some r → wait_result r)
  ∧ ∀ q, question m = Some q → wait_asks q ∧ ∀ e w, (respond cfg q e w).2 = w.
Proof.
  intros Hslack Htime Hrun.
  assert (ends slack (t0 + cf_request_timeout cfg + 6 * slack) wait_asks (S (5 * Z.to_nat (cf_request_timeout cfg) + 4)) t0
            (wait_for_panic_receipt cfg key observed) wait_result) as Hends.
  { cbn [ends wait_for_panic_receipt flow_bind ask]. split; [lia|]. split; [done|]. intros started t1 [? ?]. cbn [flow_bind].
    eapply ends_later; [|apply polls_end; [done|done|lia|lia]]. lia. }
  destruct (ends_run _ _ _ _ _ _ (t0, _) (t, m) Hrun Hends) as (Hn & Ht & Hq & Hr). cbn in *. split; [done|]. split; [lia|].
  split; [by apply timed_progress|]. split; [done|]. intros q Hm. specialize (Hq _ Hm). split; [done|]. by destruct q.
Qed.
End Wait.

(** * Worked case *)

#[local] Instance plain_digest : Digest := λ s, s.
#[local] Instance plain_hmac : Hmac := { hmac_digest k v := k +:+ v; hmac_hex k v := k +:+ "/" +:+ v }.
#[local] Instance demo_text : ReceiptText := { write_text j := "{}"; read_text t := Ok (JObj []) }.
#[local] Instance no_dates : DateText := λ _, None.

(** A started receipt that nobody finishes, and a timeout of a tenth of a second. *)
Definition wait_config : PolicyConfig := mkPolicyConfig [] default_rate_limits "s" 0 0 0 (second / 10) false.
Definition wait_world : World :=
  mkWorld (put_receipt (mkPanicReceipt ACCOUNT_SCOPE "a" 3 "started" None 0 None (900 * second))
             (mkPolicyStore (put_lease "k" (mkLease "a" (900 * second) 3) empty_store) ∅)) ∅.
Definition wait_lease : LeaseDecision := mkLeaseDecision false "a" (900 * second) 3 1.
Definition wait_envs : list Env := map (λ t, mkEnv t t t false "" true false HAtWork)
  [0; 0; 0; 0; 0; 25000; 25000; 25000; 25000; 75000; 75000; 75000; 75000; 100000].

(** Polls at 0, 25 and 75 milliseconds; the last sleep ends at the deadline. *)
Example wait_deadline :
  run_flow wait_config 40 (wait_for_panic_receipt wait_config "k" wait_lease) wait_envs wait_world = Some (Ok panic_incomplete_response, wait_world).
Proof. vm_compute. reflexivity. Qed.

(** The first reading of the clock, and what is left of the wait. *)
Lemma panic_wait_ends_witness : ∃ m, timed_step 1000 (0, wait_for_panic_receipt wait_config "k" wait_lease) (500, m)
  ∧ 500 ≤ 0 + second / 10 + 6 * 1000 ∧ ∃ c, timed_step 1000 (500, m) c.
Proof.
  eexists. assert (timed_step 1000 (0, wait_for_panic_receipt wait_config "k" wait_lease)
    (500, Loop (poll_panic_receipt (400 + second / 10) "k" wait_lease) PANIC_POLL_INITIAL Ret)) as Hstep.
  { exists 400. split; [|reflexivity]. vm_compute. repeat split; intros Hc; discriminate Hc. }
  split; [exact Hstep|].
  destruct (panic_wait_ends wait_config "k" wait_lease 1000 0 1 500 (Loop (poll_panic_receipt (400 + second / 10) "k" wait_lease) PANIC_POLL_INITIAL Ret))
    as (Ht & _ & Hgo & _); [vm_compute; intros Hc; discriminate Hc..| |split; [exact Ht|exact (Hgo eq_refl)]].
  econstructor; [exact Hstep|constructor].
Defined.
